(* ===== verification/_CoqProject ===== *)
-Q . S2P
Prelude.v
Enums.v
Ids.v
Events.v
Read.v
Canonical.v
CanonicalProps.v
Codec.v
CodecProps.v
CodecTheorems.v
Fuzz.v
Wire.v
Journal.v
JournalProps.v
JournalTheorems.v
Queue.v
QueueProps.v
BTree.v
Slab.v
Book.v
Matching.v
Reference.v
BookData.v
BookInv.v
BookCheck.v
BookSpec.v
MatchSpec.v
MatchProps.v
RefineRef.v
BookTheorems.v
Market.v
MarketInv.v
MarketTheorems.v
Account.v
AccountProps.v
Config.v
CoreState.v
Risk.v
Core.v
CoreAcct.v
CoreExec.v
CoreInv.v
CoreRest.v
RiskProps.v
CoreHandlers.v
CoreApply.v
CoreRun.v
CoreTheorems.v
CoreRequests.v
Replay.v
ReplayState.v
ReplayTheorems.v
CoreTyped.v
Generator.v
GeneratorProps.v
GeneratorTheorems.v
CoreFrame.v
Snapshot.v
Pipeline.v
PipelineInv.v
PipelineFeed.v
PipelineOut.v
PipelineEng.v
PipelineRun.v
PipelineLive.v
PipelineSamples.v
PipelineTheorems.v
PipelineQuiet.v
Harness.v
HarnessProps.v
HarnessTheorems.v
Simulator.v
SimulatorTheorems.v
Json.v
Gateway.v
GatewayProps.v
GatewayTheorems.v
Server.v
Settlement.v
SettlementTheorems.v
