(* ===== verification/Prelude.v ===== *)
(** * A verified model of the low-latency trading lab

    The repository is a deterministic trading engine and the machinery around
    it.  Inputs (market data, order requests, control commands) are numbered,
    applied one at a time by a single-threaded core and answered with output
    events; feeds are read from a checksummed binary format, outputs are
    written to a journal, whole runs are replayed and compared by digests, a
    gateway controls and observes a running engine, and collateral is settled on
    a ledger.  This library translates those parts from Rust into executable
    definitions and proves what makes them correct.

    ** Conventions

    - Machine integers are [Z] with their width explicit: [checked_add] and the
      like return [option], a plain [+], [-], [*] or an index that would panic
      returns [res] ([Ret] or [Panic]), [as] casts are written out.  Predicates
      [in_u64], [in_i64], ... state the width of a field.
    - [Result] is Rust's; code that may both panic and fail has type
      [res (Result A E)], with [let!] for plain sequencing and [let?] for [?].
    - A method on [&mut self] is a function from the old state to the new one.
    - A [BTreeMap] is a sorted association list (file BTree), a hash map that is
      never iterated is a [gmap], a [Vec] is a [list].
    - Loops that are not structural carry fuel and panic when it runs out; the
      theorems show that the fuel given is enough, because they show that the
      code returns.
    - Code of other packages is a class or a section variable with named laws,
      and every theorem that uses one has a witness at a concrete instance:
      the slab allocator ([Slab], [SlabLaws]), crc32 (any function into [u32]),
      blake3 ([Blake3], [Blake3Laws]), the journal's sink ([Sink]), sha256,
      program addresses and the token program ([Chain], [ChainLaws]).

    ** Data of the protocol (src/crates/protocol)

    - Enums: the closed enums and their wire values (enums.rs).
    - Ids: identifiers, ticks, lots and notionals with checked arithmetic
      (ids.rs).
    - Events: every input and output event (events.rs), with the predicates
      [.._wf] that say that each field is in its width.
    - Read: the bounds-checked cursor (read.rs, error.rs) and a small logic of
      decoders: [reads p bs a] (from the bytes [bs], [p] returns [a]) and
      [parses p enc] ([p] returns on any input, and what it accepted encodes
      its result).
    - Canonical, CanonicalProps: the output encoding (canonical.rs).
      Theorems: decoding inverts encoding; decoding is total, and accepts only
      encodings.
    - Codec, CodecProps, CodecTheorems: file header and frames (codec.rs).
      Theorems: both round trips, totality and canonicity of both decoders.
    - Fuzz (src/fuzz): the fuzz targets and the wrapping of fuzzer bytes in a
      frame.  No byte string makes a target fail, and the wrapping reaches the
      payload whatever the bytes are.

    ** Order book and matching (src/crates/trading-core/src)

    - BTree, Slab: the containers.  Book: OrderBook (book.rs), a slab of nodes
      linked into a queue per price.  Matching: match_order (matching.rs).
      Reference: the plain reference book (reference.rs).
    - BookData, BookInv, BookCheck, BookSpec, MatchSpec, MatchProps,
      RefineRef: the linked representation, its invariant, what each operation
      does to the queues, and the simulation with the reference book.
    - BookTheorems: the indexed book refines the reference book over any
      sequence of valid operations; check_invariants succeeds after every run;
      price-time priority; exact fill quantity.

    ** Market data

    - Market (market.rs), MarketInv, MarketTheorems: sequencing, snapshots and
      bounded ladders as a state machine.  Theorems: boundedness over any run,
      a view becomes live only through a complete snapshot, visible levels
      change only then or by in-sequence updates, broken sequences are not
      applied, the bounded insertion keeps the best levels, the reference price
      is in the instrument's domain.

    ** Accounts, risk and the core

    - Account, AccountProps (account.rs): positions, reservations and the
      window of recent requests.
    - Config (config.rs), CoreState, Risk (risk.rs), Core (core.rs): the
      engine's state, every pre-trade check in order, every handler.
    - CoreAcct, CoreExec, CoreInv, CoreRest, RiskProps, CoreHandlers, CoreApply,
      CoreRun: the invariant of the engine and its preservation by every
      handler.
    - CoreTheorems: over any run of fewer than 2^32 inputs from a well-formed
      configuration the engine neither panics nor faults, numbers its outputs
      densely, reserves exactly what its live orders need, keeps positions
      summing to zero, never leaves a crossed book, and keeps its maps exact.
      The bound keeps every 64-bit counter from its end.
    - CoreRequests: request by request: a rejection changes nothing, an exact
      retry repeats its outcome as long as the window holds it, the kill switch
      blocks, a cancel under a request id the window does not hold always takes its
      order out, the pre-trade checks are sound, the outcome of a new order; and
      runs that show how the engine differs from its documentation.
    - CoreTyped: every handler keeps the state within the widths of its types, so
      every field of every output is in range and every output decodes from its
      encoding.

    ** Journal (src/crates/engine-runtime/src/journal.rs)

    - Journal: the writer over an abstract sink, recovery on the bytes of the
      file, and the incremental reader over a file that grows.
    - JournalProps, JournalTheorems: a journal cut at any byte is recovered as
      its complete records; on arbitrary files recovery is total and invents
      nothing; the tail delivers every record once.  Each turn of
      the loops consumes at least nine bytes, which bounds their fuel.

    ** Replay (src/crates/trading-core/src/replay.rs)

    - Replay: the input and state encodings, the digest recorder, the driver.
    - ReplayState: the encodings are prefix-free.
    - ReplayTheorems: a replay always finishes with complete evidence; digests
      identify the input and output streams and the hashed state, unless the
      hash collides on them.

    ** Read model (src/crates/engine-runtime/src/snapshot.rs)

    - Snapshot: the bounded copy of the state that cold consumers read, and that
      it is exact.

    ** Queues and pipeline (src/crates/engine-runtime/src)

    - Queue (queue.rs): senders, receivers, counters and waiting over a ring
      buffer ([Ring], [RingLaws]) and the control queues ([ArrayQueue]).  Each
      call is a little machine, one step per access to shared memory.
    - Wire (generator.rs): inputs to and from frames.
    - Pipeline (pipeline.rs): the feed, engine and output threads and the control
      handle over shared memory; a schedule says who moves, and [run] executes
      it.  What the pipeline runs on is one class, [Platform].
    - PipelineInv: the invariant of the whole system, over a ghost history of what
      was sent, taken, applied, pushed and recorded.  PipelineFeed,
      PipelineOut, PipelineEng, PipelineRun: every step of every thread, and every
      call from outside, keeps it, and no thread panics.
    - PipelineRun also has the kill latch.  PipelineLive: a measure that every step
      of a thread that is not waiting lowers.  PipelineSamples: a concrete platform.
    - PipelineTheorems: under every interleaving nothing is lost, duplicated or
      reordered from the feed to the journal; a completed run is one stream that
      replays to the same digests; its journal, read back, is its output; every
      fair schedule ends, when both queues hold at least one element (with a
      capacity of zero, which nothing rejects, the feed waits for ever); an engaged
      kill is not overtaken, and the run that shows
      how a queued command gets past it.
      The schedules considered have at most 2^32 inputs, which is the bound of the
      core's theorems.

    - QueueProps: what one step of a sender or a receiver does to a channel, for
      the pipeline and for the harness.
    - CoreFrame: what market events and requests leave alone in the core.
      PipelineQuiet: a run that nobody disturbs applies exactly the feed, so two
      runs of one feed agree on every digest, whatever their schedules and
      settings are; a run without a journal ends with a summary.

    - Harness (harness.rs): the round trip over two queues, the timer's baseline and
      the open-loop pipeline, whose steps are given the clock readings; the
      histogram is a class.  HarnessProps: the invariant of the threads and the
      measure that they lower.  HarnessTheorems: a benchmark measures what it says,
      under every schedule and every clock that does not go back, and, with queues
      that hold at least one element, it ends once the clock has passed the last
      scheduled arrival.

    ** Workloads and the simulator (src/crates/trading-core/src/generator.rs,
       src/apps/simulator/src/main.rs)

    - Generator: the seeded generator, from SplitMix64 to [generate].
      GeneratorProps: a market view that follows what a generator publishes, and
      the generator's invariant.  The number of inputs is bounded
      by [budget], since a level that is cleared was published before.
    - GeneratorTheorems: every configuration with at least one account, whose
      counts, times and prices stay in their types, gives a well-formed, numbered
      feed; without injected faults the feed keeps a market
      view live and uncrossed.
    - Simulator, SimulatorTheorems: the commands generate, replay,
      step and verify.  A threaded run of a generated file applies its workload; the threaded
      replay agrees with the single-threaded one; step stops where it is told to;
      verify succeeds.  The bound of a billion events keeps the workload within
      the 2^32 inputs of the core's theorems.

    ** Control gateway (src/crates/control-gateway/src)

    - Json (json.rs): output events and snapshots as JSON values; different events
      and snapshots have different values, and every number in them is exact in
      JavaScript.
    - Gateway (state.rs, wire.rs, the dispatch of server.rs): the messages, the
      gateway's state with every operation, and the dispatch of a request.  The
      deserialisers of parameters are a class, [Deserialize]; a replay worker is
      a job that stores its value and clears the busy flag in two steps.
      [refresh_snapshot] carries fuel, which has to exceed the capacity of the
      snapshot queue.
    - GatewayProps: tokens, decimal numbers, polling a
      file of any content, the invariant of the replay jobs under every
      interleaving of requests, worker and engine, and what the reader has handed
      out.
    - GatewayTheorems: only the holder of the token acts; every request is
      answered; outputs are handed out once, in order and up to what is there;
      limits arrive as they were sent; a replay job ends with the engine's
      evidence.
    - Server (server.rs, main.rs): the frames of a connection, the
      bound on connections and the pacing of the demonstration feed.  A connection
      answers exactly the frames of its stream, whatever the stream; the
      connections never exceed their bound.

    ** Settlement (src/adapters/solana/programs/settlement/src/lib.rs)

    - Settlement: the accounts as one store, every instruction with the
      constraints its account structure declares.
    - SettlementTheorems: a batch moves exactly the net of its
      legs and changes nothing else but the receipt and the settlement count; it
      settles at most once; every reachable ledger is solvent.  Program addresses
      are taken to be collision free, and delegates of token accounts are left
      out.

    ** Not modelled

    The simulator's bench and environment (they print what the host shows), the
    parsing of command lines and what is printed, the gateway's socket set-up and
    its runtime, the text form of JSON, display strings, time and
    sleeping, the failure of an allocation, the TypeScript control API and the
    Daml contracts.  Shared memory is accessed in one global order; reorderings
    that the relaxed counters of queue.rs allow are not modelled. *)

From stdpp Require Export base list gmap.
From Stdlib Require Export ZArith Lia.

Global Open Scope Z_scope.

Create HintDb rust.

Declare Scope rust_scope.
Delimit Scope rust_scope with rust.
Global Open Scope rust_scope.

(** * Outcomes of Rust code

    [res A] is the outcome of a computation that may panic: an index out of
    range, an [expect] on [None], a division by zero, or a plain [+], [-], [*]
    that leaves its width.  [Result A E] is Rust's own [Result]. *)

Inductive res (A : Type) : Type :=
| Ret (a : A)
| Panic.

Arguments Ret {A} a.
Arguments Panic {A}.

Inductive Result (A E : Type) : Type :=
| Ok (a : A)
| Err (e : E).

Arguments Ok {A E} a.
Arguments Err {A E} e.

Definition rbind {A B} (m : res A) (k : A -> res B) : res B :=
  match m with
  | Ret a => k a
  | Panic => Panic
  end.

(** Rust's [?] operator, for code whose value is [Result A E] and which may
    also panic. *)
Definition qbind {A B E} (m : res (Result A E)) (k : A -> res (Result B E))
  : res (Result B E) :=
  match m with
  | Ret (Ok a) => k a
  | Ret (Err e) => Ret (Err e)
  | Panic => Panic
  end.

Notation "'let!' x := e 'in' k" := (rbind e (fun x => k))
  (at level 10, x pattern, e at level 200, k at level 200) : rust_scope.
Notation "'let?' x := e 'in' k" := (qbind e (fun x => k))
  (at level 10, x pattern, e at level 200, k at level 200) : rust_scope.
Notation "'let*' x := e 'in' k" := (match e with Some x => k | None => None end)
  (at level 10, x pattern, e at level 200, k at level 200) : rust_scope.

(** [ok_or r e], Rust's [Option::ok_or]. *)
Definition ok_or {A E} (o : option A) (e : E) : res (Result A E) :=
  match o with
  | Some a => Ret (Ok a)
  | None => Ret (Err e)
  end.

(** [expect], and indexing, which panic on [None]. *)
Definition unwrap {A} (o : option A) : res A :=
  match o with
  | Some a => Ret a
  | None => Panic
  end.

Definition index {A} (l : list A) (i : nat) : res A := unwrap (l !! i).

(** Writing [l[i] = x]; out of range panics. *)
Definition index_set {A} (l : list A) (i : nat) (x : A) : res (list A) :=
  match l !! i with
  | Some _ => Ret (<[i := x]> l)
  | None => Panic
  end.

(** The weakest precondition of [Q]: the computation does not panic and its
    value satisfies [Q]. *)
Definition wp {A} (m : res A) (Q : A -> Prop) : Prop :=
  match m with
  | Ret a => Q a
  | Panic => False
  end.

Lemma wp_ret {A} (a : A) (Q : A -> Prop) : Q a -> wp (Ret a) Q.
Proof. done. Qed.

Lemma wp_bind {A B} (m : res A) (k : A -> res B) Q :
  wp m (fun a => wp (k a) Q) -> wp (rbind m k) Q.
Proof. by destruct m. Qed.

Lemma wp_mono {A} (m : res A) (P Q : A -> Prop) :
  wp m P -> (forall a, P a -> Q a) -> wp m Q.
Proof. destruct m; simpl; auto. Qed.

Lemma wp_conj {A} (m : res A) (P Q : A -> Prop) :
  wp m P -> wp m Q -> wp m (fun a => P a /\ Q a).
Proof. destruct m; simpl; auto. Qed.

Lemma wp_unwrap {A} (o : option A) a (Q : A -> Prop) :
  o = Some a -> Q a -> wp (unwrap o) Q.
Proof. by intros ->. Qed.

Lemma wp_inv {A} (m : res A) Q : wp m Q -> exists a, m = Ret a /\ Q a.
Proof. destruct m; [by eauto | done]. Qed.

Lemma wp_ret_eq {A} (m : res A) a Q : m = Ret a -> wp m Q <-> Q a.
Proof. by intros ->. Qed.

Lemma rbind_ret {A B} (a : A) (k : A -> res B) : rbind (Ret a) k = k a.
Proof. done. Qed.

Lemma rbind_inv {A B} (m : res A) (k : A -> res B) b :
  rbind m k = Ret b -> exists a, m = Ret a /\ k a = Ret b.
Proof. destruct m; simpl; [by eauto | done]. Qed.

Lemma qbind_ok_inv {A B E} (m : res (Result A E)) (k : A -> res (Result B E)) b :
  qbind m k = Ret (Ok b) -> exists a, m = Ret (Ok a) /\ k a = Ret (Ok b).
Proof. destruct m as [[|]|]; simpl; [by eauto | done..]. Qed.

Lemma ok_or_ok_inv {A E} (o : option A) (e : E) a :
  ok_or o e = Ret (Ok a) -> o = Some a.
Proof. destruct o; simpl; congruence. Qed.

(** * Machine integers

    A [w]-bit integer is a [Z]; the ranges are the predicates below and
    [checked_*] is Rust's checked arithmetic. *)

Abbreviation u8_max := 255 (only parsing).
Abbreviation u16_max := 65535 (only parsing).
Abbreviation u32_max := 4294967295 (only parsing).
Abbreviation u64_max := 18446744073709551615 (only parsing).
Abbreviation u128_max := 340282366920938463463374607431768211455 (only parsing).
Abbreviation i64_min := (-9223372036854775808) (only parsing).
Abbreviation i64_max := 9223372036854775807 (only parsing).

Definition in_u8 (z : Z) : Prop := 0 <= z <= u8_max.
Definition in_u16 (z : Z) : Prop := 0 <= z <= u16_max.
Definition in_u32 (z : Z) : Prop := 0 <= z <= u32_max.
Definition in_u64 (z : Z) : Prop := 0 <= z <= u64_max.
Definition in_u128 (z : Z) : Prop := 0 <= z <= u128_max.
Definition in_i64 (z : Z) : Prop := i64_min <= z <= i64_max.

(** [mach] unfolds the ranges and calls [lia]. *)
Ltac mach :=
  unfold in_u8, in_u16, in_u32, in_u64, in_u128, in_i64 in *; lia.

Definition checked (lo hi z : Z) : option Z :=
  if (lo <=? z) && (z <=? hi) then Some z else None.

Definition u32_checked (z : Z) : option Z := checked 0 u32_max z.
Definition u64_checked (z : Z) : option Z := checked 0 u64_max z.
Definition u128_checked (z : Z) : option Z := checked 0 u128_max z.
Definition i64_checked (z : Z) : option Z := checked i64_min i64_max z.

(** Plain arithmetic: a value out of its width is a panic.  (Without overflow
    checks the release build wraps instead; a theorem that no panic happens is
    therefore about both builds.) *)
Definition u32_plain (z : Z) : res Z := unwrap (u32_checked z).
Definition u64_plain (z : Z) : res Z := unwrap (u64_checked z).

Definition u64_saturating_sub (a b : Z) : Z := Z.max 0 (a - b).
Definition u32_saturating_sub (a b : Z) : Z := Z.max 0 (a - b).

(** [%] on [usize], [u64] and [i64]: a zero divisor panics, and so does
    [i64::MIN % -1]. *)
Definition usize_rem (a b : nat) : res nat :=
  if bool_decide (b = 0%nat) then Panic else Ret (a mod b)%nat.
Definition u64_rem (a b : Z) : res Z := if b =? 0 then Panic else Ret (a mod b).
Definition i64_rem (a b : Z) : res Z :=
  if (b =? 0) || ((a =? i64_min) && (b =? -1)) then Panic else Ret (Z.rem a b).

(** Wrapping, [as u64] and [as i64]. *)
Definition u64_wrap (z : Z) : Z := z mod 2 ^ 64.
Definition as_i64 (z : Z) : Z := if z <=? i64_max then z else z - 2 ^ 64.
Definition as_u64 (z : Z) : Z := z mod 2 ^ 64.

Lemma checked_Some lo hi z r :
  checked lo hi z = Some r <-> r = z /\ lo <= z <= hi.
Proof.
  unfold checked. destruct (Z.leb_spec lo z), (Z.leb_spec z hi); simpl;
    split; intros; destruct_and?; simplify_eq; try lia; auto.
Qed.

Lemma checked_None lo hi z : checked lo hi z = None <-> ~ (lo <= z <= hi).
Proof.
  unfold checked. destruct (Z.leb_spec lo z), (Z.leb_spec z hi); simpl;
    split; intros; try done; lia.
Qed.

Lemma checked_in lo hi z : lo <= z <= hi -> checked lo hi z = Some z.
Proof. intros; by apply checked_Some. Qed.

Lemma u64_checked_Some z r : u64_checked z = Some r <-> r = z /\ in_u64 z.
Proof. apply checked_Some. Qed.
Lemma u64_checked_None z : u64_checked z = None <-> ~ in_u64 z.
Proof. apply checked_None. Qed.
Lemma u64_checked_in z : in_u64 z -> u64_checked z = Some z.
Proof. apply checked_in. Qed.
Lemma u32_checked_in z : in_u32 z -> u32_checked z = Some z.
Proof. apply checked_in. Qed.
Lemma u32_checked_None z : u32_checked z = None <-> ~ in_u32 z.
Proof. apply checked_None. Qed.
Lemma u128_checked_Some z r : u128_checked z = Some r <-> r = z /\ in_u128 z.
Proof. apply checked_Some. Qed.
Lemma u128_checked_in z : in_u128 z -> u128_checked z = Some z.
Proof. apply checked_in. Qed.
Lemma i64_checked_Some z r : i64_checked z = Some r <-> r = z /\ in_i64 z.
Proof. apply checked_Some. Qed.
Lemma i64_checked_in z : in_i64 z -> i64_checked z = Some z.
Proof. apply checked_in. Qed.

Lemma u64_plain_in z : in_u64 z -> u64_plain z = Ret z.
Proof. intros. unfold u64_plain. by rewrite u64_checked_in. Qed.
Lemma u64_plain_inv z r : u64_plain z = Ret r -> r = z.
Proof.
  unfold u64_plain. destruct (u64_checked z) as [x |] eqn:E; [| done]. intros [= <-].
  by apply u64_checked_Some in E as [-> _].
Qed.
Lemma u32_plain_in z : in_u32 z -> u32_plain z = Ret z.
Proof. intros. unfold u32_plain. by rewrite u32_checked_in. Qed.

Lemma usize_rem_ok a b : b <> 0%nat -> usize_rem a b = Ret (a mod b)%nat.
Proof. intros. unfold usize_rem. by rewrite bool_decide_eq_false_2. Qed.
Lemma u64_rem_ok a b : b <> 0 -> u64_rem a b = Ret (a mod b).
Proof. intros. unfold u64_rem. by replace (b =? 0) with false by lia. Qed.
Lemma i64_rem_ok a b : 0 < b -> i64_rem a b = Ret (Z.rem a b).
Proof.
  intros. unfold i64_rem. replace (b =? 0) with false by lia.
  replace (b =? -1) with false by lia. by rewrite andb_false_r.
Qed.

Lemma as_i64_as_u64 z : in_i64 z -> as_i64 (as_u64 z) = z.
Proof.
  unfold as_i64, as_u64. intros Hz.
  destruct (Z.leb_spec 0 z).
  - rewrite Z.mod_small by mach. destruct (Z.leb_spec z i64_max); mach.
  - assert (z mod 2 ^ 64 = z + 2 ^ 64) as ->.
    { rewrite <- (Z.mod_small (z + 2 ^ 64) (2 ^ 64)) by mach.
      rewrite <- (Z.mul_1_l (2 ^ 64)) at 2. by rewrite Z_mod_plus_full. }
    destruct (Z.leb_spec (z + 2 ^ 64) i64_max); mach.
Qed.

Lemma as_u64_as_i64 z : in_u64 z -> as_u64 (as_i64 z) = z.
Proof.
  unfold as_i64, as_u64. intros Hz. destruct (Z.leb_spec z i64_max).
  - apply Z.mod_small; mach.
  - rewrite <- (Z.mod_small z (2 ^ 64)) at 2 by mach.
    replace (z - 2 ^ 64) with (z + (-1) * 2 ^ 64) by lia.
    by rewrite Z_mod_plus_full.
Qed.

Lemma as_u64_range z : in_u64 (as_u64 z).
Proof. unfold as_u64. pose proof (Z.mod_pos_bound z (2 ^ 64)). mach. Qed.

Lemma as_i64_range z : in_u64 z -> in_i64 (as_i64 z).
Proof. unfold as_i64. intros. destruct (Z.leb_spec z i64_max); mach. Qed.

(** * Sums over finite maps *)

Section Msum.
Context {K V : Type} `{Countable K}.
Implicit Types (m : gmap K V) (f g : V -> Z).

Definition msum (f : V -> Z) (m : gmap K V) : Z := map_fold (fun _ x acc => f x + acc) 0 m.

Lemma msum_empty f : msum f (∅ : gmap K V) = 0.
Proof. apply map_fold_empty. Qed.

Lemma msum_insert_None f m i x :
  m !! i = None -> msum f (<[i := x]> m) = f x + msum f m.
Proof. intros. unfold msum. rewrite map_fold_insert_L; [done | intros; lia | done]. Qed.

Lemma msum_delete f m i x : m !! i = Some x -> msum f (delete i m) = msum f m - f x.
Proof.
  intros Hi. rewrite <- (insert_delete_id m i x Hi) at 2.
  rewrite msum_insert_None by apply lookup_delete_eq. lia.
Qed.

Lemma msum_update f m i x y :
  m !! i = Some x -> msum f (<[i := y]> m) = msum f m - f x + f y.
Proof.
  intros Hi. rewrite <- insert_delete_eq, msum_insert_None by apply lookup_delete_eq.
  rewrite (msum_delete _ _ _ _ Hi). lia.
Qed.

Lemma msum_ext f g m : (forall i x, m !! i = Some x -> f x = g x) -> msum f m = msum g m.
Proof.
  induction m as [| i x m Hi IH] using map_ind; intros Hfg; [by rewrite !msum_empty |].
  rewrite !msum_insert_None by done. rewrite (Hfg i x) by apply lookup_insert_eq.
  rewrite IH; [done |]. intros j y Hj. apply (Hfg j). rewrite lookup_insert_ne; [done | congruence].
Qed.

Lemma msum_nonneg f m : (forall i x, m !! i = Some x -> 0 <= f x) -> 0 <= msum f m.
Proof.
  induction m as [| i x m Hi IH] using map_ind; intros Hf; [by rewrite msum_empty |].
  rewrite msum_insert_None by done. pose proof (Hf i x ltac:(apply lookup_insert_eq)).
  assert (0 <= msum f m); [| lia]. apply IH. intros j y Hj. apply (Hf j).
  rewrite lookup_insert_ne; [done | congruence].
Qed.

Lemma msum_elem_le f m i x :
  (forall i x, m !! i = Some x -> 0 <= f x) -> m !! i = Some x -> f x <= msum f m.
Proof.
  intros Hf Hi. assert (0 <= msum f (delete i m)).
  { apply msum_nonneg. intros j y [_ Hj]%lookup_delete_Some. by eapply Hf. }
  rewrite (msum_delete _ _ _ _ Hi) in H0. lia.
Qed.

Lemma msum_zero f m : (forall i x, m !! i = Some x -> f x = 0) -> msum f m = 0.
Proof.
  induction m as [| i x m Hi IH] using map_ind; intros Hf; [by rewrite msum_empty |].
  rewrite msum_insert_None, (Hf i x) by (done || apply lookup_insert_eq).
  rewrite IH; [lia |]. intros j y Hj. apply (Hf j). rewrite lookup_insert_ne; [done | congruence].
Qed.

End Msum.

(** * Sums over lists *)

Fixpoint lsum {A} (f : A -> Z) (l : list A) : Z :=
  match l with
  | [] => 0
  | x :: l => f x + lsum f l
  end.

Lemma lsum_insert {A} (f : A -> Z) l i x y :
  l !! i = Some x -> lsum f (<[i := y]> l) = lsum f l - f x + f y.
Proof.
  revert i. induction l as [| z l IH]; intros [| i] Hi; simpl in *; try done.
  - simplify_eq. lia.
  - rewrite (IH _ Hi). lia.
Qed.

Lemma lsum_zero {A} (f : A -> Z) l : (forall x, x ∈ l -> f x = 0) -> lsum f l = 0.
Proof.
  induction l as [| x l IH]; intros H; simpl; [done |].
  rewrite (H x), IH; set_solver.
Qed.
