(* ===== verification/Enums.v ===== *)
(** Closed enums used on the wire and inside the engine
    ([crates/protocol/src/enums.rs]).  Each enum is a module holding its
    constructors and its [wire]/[from_wire] functions; a wire value is a [u8],
    a [Z]. *)

From S2P Require Import Prelude.

Module Side.

Inductive t := Buy | Sell.

Definition opposite (s : t) : t :=
  match s with
  | Buy => Sell
  | Sell => Buy
  end.

Definition wire (s : t) : Z :=
  match s with
  | Buy => 1
  | Sell => 2
  end.

Definition from_wire (value : Z) : option t :=
  match value with
  | 1 => Some Buy
  | 2 => Some Sell
  | _ => None
  end.

#[global] Instance t_eq_dec : EqDecision t.
Proof. solve_decision. Defined.

Lemma opposite_involutive s : opposite (opposite s) = s.
Proof. by destruct s. Qed.

Lemma opposite_ne s : opposite s <> s.
Proof. by destruct s. Qed.

End Side.

Module OrderType.

Inductive t := Limit | Market.

Definition wire (o : t) : Z :=
  match o with
  | Limit => 1
  | Market => 2
  end.

Definition from_wire (value : Z) : option t :=
  match value with
  | 1 => Some Limit
  | 2 => Some Market
  | _ => None
  end.

#[global] Instance t_eq_dec : EqDecision t.
Proof. solve_decision. Defined.

End OrderType.

Module OrderState.

Inductive t := Working | PartiallyFilled | Filled | Cancelled.

Definition is_terminal (s : t) : bool :=
  match s with
  | Filled | Cancelled => true
  | _ => false
  end.

Definition wire (s : t) : Z :=
  match s with
  | Working => 1
  | PartiallyFilled => 2
  | Filled => 3
  | Cancelled => 4
  end.

#[global] Instance t_eq_dec : EqDecision t.
Proof. solve_decision. Defined.

End OrderState.

Module RequestKind.

Inductive t := New | Cancel | Replace.

Definition wire (k : t) : Z :=
  match k with
  | New => 1
  | Cancel => 2
  | Replace => 3
  end.

Definition from_wire (value : Z) : option t :=
  match value with
  | 1 => Some New
  | 2 => Some Cancel
  | 3 => Some Replace
  | _ => None
  end.

#[global] Instance t_eq_dec : EqDecision t.
Proof. solve_decision. Defined.

End RequestKind.

Module ReportKind.

Inductive t :=
  Accepted | Rejected | PartiallyFilled | Filled | Cancelled | Replaced.

Definition wire (k : t) : Z :=
  match k with
  | Accepted => 1
  | Rejected => 2
  | PartiallyFilled => 3
  | Filled => 4
  | Cancelled => 5
  | Replaced => 6
  end.

#[global] Instance t_eq_dec : EqDecision t.
Proof. solve_decision. Defined.

End ReportKind.

Module RejectReason.

Inductive t :=
| MalformedRequest
| UnknownInstrument
| UnknownAccount
| UnknownOrder
| InvalidSide
| InvalidOrderType
| InvalidPrice
| InvalidQuantity
| PriceNotAligned
| QuantityNotAligned
| DuplicateRequestConflict
| SequenceTooOld
| SequenceOutOfOrder
| DuplicateClientOrderId
| AccountDisabled
| GlobalKillActive
| MarketDataUnsynchronized
| MarketDataStale
| MaxOrderQuantity
| MaxOrderNotional
| PriceCollar
| MaxPosition
| MaxGrossExposure
| CapacityExhausted
| ArithmeticOverflow
| OrderAlreadyTerminal
| InvalidReplaceQuantity
| NoReferencePrice.

Definition wire (r : t) : Z :=
  match r with
  | MalformedRequest => 1
  | UnknownInstrument => 2
  | UnknownAccount => 3
  | UnknownOrder => 4
  | InvalidSide => 5
  | InvalidOrderType => 6
  | InvalidPrice => 7
  | InvalidQuantity => 8
  | PriceNotAligned => 9
  | QuantityNotAligned => 10
  | DuplicateRequestConflict => 11
  | SequenceTooOld => 12
  | SequenceOutOfOrder => 13
  | DuplicateClientOrderId => 14
  | AccountDisabled => 15
  | GlobalKillActive => 16
  | MarketDataUnsynchronized => 17
  | MarketDataStale => 18
  | MaxOrderQuantity => 19
  | MaxOrderNotional => 20
  | PriceCollar => 21
  | MaxPosition => 22
  | MaxGrossExposure => 23
  | CapacityExhausted => 24
  | ArithmeticOverflow => 25
  | OrderAlreadyTerminal => 26
  | InvalidReplaceQuantity => 27
  | NoReferencePrice => 28
  end.

Definition ALL : list t :=
  [ MalformedRequest; UnknownInstrument; UnknownAccount; UnknownOrder;
    InvalidSide; InvalidOrderType; InvalidPrice; InvalidQuantity;
    PriceNotAligned; QuantityNotAligned; DuplicateRequestConflict;
    SequenceTooOld; SequenceOutOfOrder; DuplicateClientOrderId;
    AccountDisabled; GlobalKillActive; MarketDataUnsynchronized;
    MarketDataStale; MaxOrderQuantity; MaxOrderNotional; PriceCollar;
    MaxPosition; MaxGrossExposure; CapacityExhausted; ArithmeticOverflow;
    OrderAlreadyTerminal; InvalidReplaceQuantity; NoReferencePrice ].

#[global] Instance t_eq_dec : EqDecision t.
Proof. solve_decision. Defined.

End RejectReason.

Module FeedState.

Inductive t := Unsynchronized | ApplyingSnapshot | Live | Gap.

Definition wire (s : t) : Z :=
  match s with
  | Unsynchronized => 1
  | ApplyingSnapshot => 2
  | Live => 3
  | Gap => 4
  end.

#[global] Instance t_eq_dec : EqDecision t.
Proof. solve_decision. Defined.

End FeedState.
