(* ===== verification/Ids.v ===== *)
(** Integer domain types ([crates/protocol/src/ids.rs]).

    The newtypes are abbreviations of [Z]; their widths are the range
    predicates of [Prelude] ([in_u64] for the counters, [in_i64] for prices,
    [in_u128] for notionals). *)

From S2P Require Import Prelude.

Abbreviation InstrumentId := Z (only parsing).
Abbreviation AccountId := Z (only parsing).
Abbreviation ClientOrderId := Z (only parsing).
Abbreviation RequestId := Z (only parsing).
Abbreviation OrderId := Z (only parsing).
Abbreviation TradeId := Z (only parsing).
Abbreviation IngressSeq := Z (only parsing).
Abbreviation EngineSeq := Z (only parsing).
Abbreviation OutputSeq := Z (only parsing).
Abbreviation PrioritySeq := Z (only parsing).
Abbreviation PriceTicks := Z (only parsing).
Abbreviation QuantityLots := Z (only parsing).
Abbreviation Notional := Z (only parsing).

(** [counter_type!]: [next] of every [u64] counter. *)
Definition next (counter : Z) : option Z := u64_checked (counter + 1).

Module PriceTicks.

Definition checked_add_ticks (self ticks : Z) : option PriceTicks :=
  i64_checked (self + ticks).

Definition checked_sub_ticks (self ticks : Z) : option PriceTicks :=
  i64_checked (self - ticks).

(** [div_euclid(2)] with a positive divisor is the floor division of [Z]. *)
Definition midpoint (bid ask : PriceTicks) : option PriceTicks :=
  let* sum := i64_checked (bid + ask) in
  Some (sum / 2).

End PriceTicks.

Module QuantityLots.

Definition ZERO : QuantityLots := 0.

Definition is_zero (q : QuantityLots) : bool := q =? 0.

Definition checked_add (self other : QuantityLots) : option QuantityLots :=
  u64_checked (self + other).

Definition checked_sub (self other : QuantityLots) : option QuantityLots :=
  u64_checked (self - other).

(** [i128::unsigned_abs] of a widened [i64] is [Z.abs]. *)
Definition checked_notional (self : QuantityLots) (price : PriceTicks)
  : option Notional :=
  u128_checked (self * Z.abs price).

End QuantityLots.

Module Notional.

Definition ZERO : Notional := 0.

Definition checked_add (self other : Notional) : option Notional :=
  u128_checked (self + other).

Definition checked_sub (self other : Notional) : option Notional :=
  u128_checked (self - other).

End Notional.

Lemma next_Some c n : next c = Some n <-> n = c + 1 /\ in_u64 (c + 1).
Proof. apply u64_checked_Some. Qed.

Lemma next_None c : in_u64 c -> next c = None <-> c = u64_max.
Proof. intros. unfold next. rewrite u64_checked_None. mach. Qed.

(** A [u64] quantity times an [i64] price always fits in [u128], so the
    [None] of [checked_notional] is never taken on machine integers. *)
Lemma checked_notional_total q p :
  in_u64 q -> in_i64 p ->
  QuantityLots.checked_notional q p = Some (q * Z.abs p).
Proof.
  intros Hq Hp. apply u128_checked_in. unfold in_u64, in_i64, in_u128 in *.
  split; [apply Z.mul_nonneg_nonneg; lia |].
  transitivity (u64_max * (2 ^ 63)); [| lia].
  apply Z.mul_le_mono_nonneg; lia.
Qed.

Lemma notional_range q p : in_u64 q -> in_i64 p -> in_u128 (q * Z.abs p).
Proof.
  intros Hq Hp. pose proof (checked_notional_total q p Hq Hp) as H.
  by apply u128_checked_Some in H as [_ ?].
Qed.

(** The midpoint of two prices lies between them. *)
Lemma midpoint_between bid ask m :
  bid <= ask -> PriceTicks.midpoint bid ask = Some m -> bid <= m <= ask.
Proof.
  unfold PriceTicks.midpoint, i64_checked. intros Hle H.
  case_match eqn:E; simplify_eq. apply checked_Some in E as [-> _].
  split; [apply Z.div_le_lower_bound | apply Z.div_le_upper_bound]; lia.
Qed.
