(* ===== verification/Events.v ===== *)
(** Normalized events crossing the ingress boundary and leaving the engine
    ([crates/protocol/src/events.rs]).  Field names carry a short prefix per
    record because Rocq's projections share one name space. *)

From S2P Require Import Prelude Enums Ids.

Module MarketEventKind.

Inductive t :=
| SnapshotBegin (snapshot_seq : Z)
| SnapshotLevel (side : Side.t) (price : PriceTicks) (quantity : QuantityLots)
| SnapshotEnd (snapshot_seq : Z) (level_count : Z)
| LevelSet (side : Side.t) (price : PriceTicks) (quantity : QuantityLots)
| Trade (aggressor : Side.t) (price : PriceTicks) (quantity : QuantityLots)
| Heartbeat
| FeedReset (new_epoch : Z).

End MarketEventKind.

Record MarketEvent := mkMarketEvent {
  me_instrument : InstrumentId;
  me_source_seq : Z;
  me_source_time_ns : Z;
  me_kind : MarketEventKind.t
}.

Record OrderRequest := mkOrderRequest {
  req_kind : RequestKind.t;
  req_account : AccountId;
  req_instrument : InstrumentId;
  req_request_id : RequestId;
  req_client_seq : Z;
  req_client_order_id : ClientOrderId;
  req_target_client_order_id : ClientOrderId;
  req_side : Side.t;
  req_order_type : OrderType.t;
  req_price : PriceTicks;
  req_quantity : QuantityLots
}.

Record AccountLimits := mkAccountLimits {
  max_order_quantity : QuantityLots;
  max_order_notional : Notional;
  max_position_lots : Z;
  max_gross_exposure : Notional;
  price_collar_ticks : Z
}.

Module ControlCommand.

Inductive t :=
| SetGlobalKill (engaged : bool)
| SetAccountEnabled (account : AccountId) (enabled : bool)
| SetAccountLimits (account : AccountId) (limits : AccountLimits).

End ControlCommand.

Module InputEvent.

Inductive t :=
| Market (event : MarketEvent)
| Order (request : OrderRequest)
| Control (command : ControlCommand.t).

End InputEvent.

Record EngineInput := mkEngineInput {
  in_ingress_seq : IngressSeq;
  in_recv_time_ns : Z;
  in_event : InputEvent.t
}.

Record ExecutionReport := mkExecutionReport {
  rep_output_seq : OutputSeq;
  rep_engine_seq : EngineSeq;
  rep_engine_time_ns : Z;
  rep_account : AccountId;
  rep_instrument : InstrumentId;
  rep_request_id : RequestId;
  rep_client_order_id : ClientOrderId;
  rep_order_id : OrderId;
  rep_kind : ReportKind.t;
  rep_state : OrderState.t;
  rep_side : Side.t;
  rep_order_type : OrderType.t;
  rep_price : PriceTicks;
  rep_total_quantity : QuantityLots;
  rep_cumulative_filled : QuantityLots;
  rep_remaining : QuantityLots;
  rep_last_fill_quantity : QuantityLots;
  rep_last_fill_price : PriceTicks;
  rep_reject_reason : option RejectReason.t
}.

Record TradeEvent := mkTradeEvent {
  tr_output_seq : OutputSeq;
  tr_engine_seq : EngineSeq;
  tr_engine_time_ns : Z;
  tr_trade_id : TradeId;
  tr_instrument : InstrumentId;
  tr_maker_order_id : OrderId;
  tr_taker_order_id : OrderId;
  tr_maker_account : AccountId;
  tr_taker_account : AccountId;
  tr_aggressor : Side.t;
  tr_price : PriceTicks;
  tr_quantity : QuantityLots
}.

Module EngineStateEvent.

Inductive t :=
| KillSwitchEngaged
| KillSwitchReleased
| AccountEnabledChanged (account : AccountId) (enabled : bool)
| AccountLimitsChanged (account : AccountId)
| FeedStateChanged (instrument : InstrumentId) (state : FeedState.t).

End EngineStateEvent.

Record StateEvent := mkStateEvent {
  st_output_seq : OutputSeq;
  st_engine_seq : EngineSeq;
  st_engine_time_ns : Z;
  st_event : EngineStateEvent.t
}.

Module OutputEvent.

Inductive t :=
| Trade (trade : TradeEvent)
| Report (report : ExecutionReport)
| State (state : StateEvent).

Definition output_seq (e : t) : OutputSeq :=
  match e with
  | Trade trade => tr_output_seq trade
  | Report report => rep_output_seq report
  | State state => st_output_seq state
  end.

Definition engine_seq (e : t) : EngineSeq :=
  match e with
  | Trade trade => tr_engine_seq trade
  | Report report => rep_engine_seq report
  | State state => st_engine_seq state
  end.

End OutputEvent.

(** * Machine-width well-formedness of the events

    A Rust value of these types always satisfies the predicates below: each
    field is within the width its declaration gives it. *)

Definition market_kind_wf (k : MarketEventKind.t) : Prop :=
  match k with
  | MarketEventKind.SnapshotBegin s => in_u64 s
  | MarketEventKind.SnapshotLevel _ p q
  | MarketEventKind.LevelSet _ p q
  | MarketEventKind.Trade _ p q => in_i64 p /\ in_u64 q
  | MarketEventKind.SnapshotEnd s c => in_u64 s /\ in_u32 c
  | MarketEventKind.Heartbeat => True
  | MarketEventKind.FeedReset e => in_u64 e
  end.

Record request_wf (r : OrderRequest) : Prop := {
  rwf_account : in_u32 (req_account r);
  rwf_instrument : in_u32 (req_instrument r);
  rwf_request_id : in_u64 (req_request_id r);
  rwf_client_seq : in_u64 (req_client_seq r);
  rwf_client_order_id : in_u64 (req_client_order_id r);
  rwf_target : in_u64 (req_target_client_order_id r);
  rwf_price : in_i64 (req_price r);
  rwf_quantity : in_u64 (req_quantity r)
}.

Record limits_wf (l : AccountLimits) : Prop := {
  lwf_quantity : in_u64 (max_order_quantity l);
  lwf_notional : in_u128 (max_order_notional l);
  lwf_position : in_u64 (max_position_lots l);
  lwf_gross : in_u128 (max_gross_exposure l);
  lwf_collar : in_i64 (price_collar_ticks l)
}.

Record report_wf (r : ExecutionReport) : Prop := {
  repwf_output_seq : in_u64 (rep_output_seq r);
  repwf_engine_seq : in_u64 (rep_engine_seq r);
  repwf_time : in_u64 (rep_engine_time_ns r);
  repwf_account : in_u32 (rep_account r);
  repwf_instrument : in_u32 (rep_instrument r);
  repwf_request_id : in_u64 (rep_request_id r);
  repwf_client_order_id : in_u64 (rep_client_order_id r);
  repwf_order_id : in_u64 (rep_order_id r);
  repwf_price : in_i64 (rep_price r);
  repwf_total : in_u64 (rep_total_quantity r);
  repwf_cumulative : in_u64 (rep_cumulative_filled r);
  repwf_remaining : in_u64 (rep_remaining r);
  repwf_last_quantity : in_u64 (rep_last_fill_quantity r);
  repwf_last_price : in_i64 (rep_last_fill_price r)
}.

Record trade_wf (t : TradeEvent) : Prop := {
  trwf_output_seq : in_u64 (tr_output_seq t);
  trwf_engine_seq : in_u64 (tr_engine_seq t);
  trwf_time : in_u64 (tr_engine_time_ns t);
  trwf_trade_id : in_u64 (tr_trade_id t);
  trwf_instrument : in_u32 (tr_instrument t);
  trwf_maker_order_id : in_u64 (tr_maker_order_id t);
  trwf_taker_order_id : in_u64 (tr_taker_order_id t);
  trwf_maker_account : in_u32 (tr_maker_account t);
  trwf_taker_account : in_u32 (tr_taker_account t);
  trwf_price : in_i64 (tr_price t);
  trwf_quantity : in_u64 (tr_quantity t)
}.

Definition state_event_wf (e : EngineStateEvent.t) : Prop :=
  match e with
  | EngineStateEvent.KillSwitchEngaged
  | EngineStateEvent.KillSwitchReleased => True
  | EngineStateEvent.AccountEnabledChanged a _
  | EngineStateEvent.AccountLimitsChanged a => in_u32 a
  | EngineStateEvent.FeedStateChanged i _ => in_u32 i
  end.

Record state_wf (s : StateEvent) : Prop := {
  stwf_output_seq : in_u64 (st_output_seq s);
  stwf_engine_seq : in_u64 (st_engine_seq s);
  stwf_time : in_u64 (st_engine_time_ns s);
  stwf_event : state_event_wf (st_event s)
}.

Definition output_wf (e : OutputEvent.t) : Prop :=
  match e with
  | OutputEvent.Trade t => trade_wf t
  | OutputEvent.Report r => report_wf r
  | OutputEvent.State s => state_wf s
  end.
