(* ===== verification/Read.v ===== *)
(** Bytes and the bounds-checked cursor ([crates/protocol/src/read.rs] and
    [error.rs]), with the parser logic the decoders' proofs use.

    A byte is a [Z] in [0, 255].  A decoder that takes [&mut Reader] is a
    function from the cursor to its result and the cursor it leaves; Rust's
    slicing and indexing panics stay visible in [res]. *)

From S2P Require Import Prelude.

(** * Little-endian integers *)

Abbreviation bytes := (list Z) (only parsing).

Definition is_byte (b : Z) : Prop := 0 <= b <= 255.

(** [to_le_bytes] of an [n]-byte unsigned integer. *)
Fixpoint le_bytes (n : nat) (v : Z) : bytes :=
  match n with
  | O => []
  | S n => v mod 256 :: le_bytes n (v / 256)
  end.

(** [from_le_bytes]. *)
Fixpoint from_le (bs : bytes) : Z :=
  match bs with
  | [] => 0
  | b :: bs => b + 256 * from_le bs
  end.

Lemma le_bytes_length n v : length (le_bytes n v) = n.
Proof. revert v. induction n as [| n IH]; intros v; simpl; [done |]. by rewrite IH. Qed.

Lemma le_bytes_bytes n v : Forall is_byte (le_bytes n v).
Proof.
  revert v. induction n as [| n IH]; intros v; simpl; constructor; [| apply IH].
  unfold is_byte. pose proof (Z.mod_pos_bound v 256). lia.
Qed.

Lemma from_le_le_bytes n v : 0 <= v < 256 ^ Z.of_nat n -> from_le (le_bytes n v) = v.
Proof.
  revert v. induction n as [| n IH]; intros v Hv; simpl.
  - simpl in Hv. lia.
  - rewrite IH; [pose proof (Z.div_mod v 256); lia |].
    rewrite Nat2Z.inj_succ, Z.pow_succ_r in Hv by lia.
    split; [apply Z.div_pos; lia |]. apply Z.div_lt_upper_bound; lia.
Qed.

Lemma le_bytes_from_le bs : Forall is_byte bs -> le_bytes (length bs) (from_le bs) = bs.
Proof.
  induction bs as [| b bs IH]; intros H; simpl; [done |].
  apply Forall_cons in H as [Hb H]. unfold is_byte in Hb.
  replace ((b + 256 * from_le bs) mod 256) with b
    by (rewrite Z.mul_comm, Z_mod_plus_full, Z.mod_small; lia).
  replace ((b + 256 * from_le bs) / 256) with (from_le bs)
    by (rewrite Z.mul_comm, Z.div_add, Z.div_small; lia).
  by rewrite IH.
Qed.

Lemma from_le_bound bs : Forall is_byte bs -> 0 <= from_le bs < 256 ^ Z.of_nat (length bs).
Proof.
  induction bs as [| b bs IH]; intros H; [simpl; lia |].
  apply Forall_cons in H as [Hb H]. specialize (IH H). unfold is_byte in Hb.
  cbn [from_le length]. rewrite Nat2Z.inj_succ, Z.pow_succ_r by lia. lia.
Qed.

(** * Decode errors *)

Inductive DecodeErrorKind :=
| Truncated
| BadMagic
| UnsupportedVersion
| BadEndian
| FrameLength
| UnknownMessageType
| ReservedFlags
| PayloadLength
| Checksum
| InvalidField
| InstrumentTable.

Record DecodeError := mkDecodeError {
  de_kind : DecodeErrorKind;
  de_offset : nat;
  de_source_seq : option Z
}.

(** [DecodeError::new] and [with_source_seq]. *)
Definition decode_error (kind : DecodeErrorKind) (offset : nat) : DecodeError :=
  mkDecodeError kind offset None.

Definition with_source_seq (e : DecodeError) (source_seq : Z) : DecodeError :=
  mkDecodeError (de_kind e) (de_offset e) (Some source_seq).

(** * The cursor *)

Record reader := mkReader {
  rd_bytes : bytes;
  rd_offset : nat
}.

(** [&l[a..b]]. *)
Definition slice {A} (l : list A) (a b : nat) : res (list A) :=
  if (a <=? b)%nat && (b <=? length l)%nat then Ret (take (b - a) (drop a l)) else Panic.

Lemma take_plus {A} (l : list A) n m : take (n + m) l = take n l ++ take m (drop n l).
Proof. revert l. induction n as [| n IH]; intros [| x l]; simpl; rewrite ?take_nil; try done. by rewrite IH. Qed.

Lemma slice_prefix {A} (l : list A) n : (n <= length l)%nat -> slice l 0 n = Ret (take n l).
Proof.
  intros H. unfold slice. rewrite (proj2 (Nat.leb_le n _)) by done. simpl.
  by rewrite Nat.sub_0_r, drop_0.
Qed.

Definition Parser (A : Type) : Type := reader -> res (Result (A * reader) DecodeError).

Definition pret {A} (a : A) : Parser A := fun r => Ret (Ok (a, r)).

Definition pfail {A} (e : DecodeError) : Parser A := fun _ => Ret (Err e).

Definition pbind {A B} (p : Parser A) (k : A -> Parser B) : Parser B :=
  fun r => match p r with
           | Ret (Ok (a, r)) => k a r
           | Ret (Err e) => Ret (Err e)
           | Panic => Panic
           end.

Notation "'let@' x := p 'in' k" := (pbind p (fun x => k))
  (at level 10, x pattern, p at level 200, k at level 200) : rust_scope.

(** A panicking computation inside a decoder. *)
Definition plift {A} (m : res A) : Parser A :=
  fun r => match m with
           | Ret a => Ret (Ok (a, r))
           | Panic => Panic
           end.

Module Reader.

Definition new (bs : bytes) : reader := mkReader bs 0.

(** [usize] subtraction panics below zero. *)
Definition remaining : Parser nat :=
  fun r => if (rd_offset r <=? length (rd_bytes r))%nat
           then Ret (Ok ((length (rd_bytes r) - rd_offset r)%nat, r)) else Panic.

Definition offset : Parser nat := fun r => Ret (Ok (rd_offset r, r)).

Definition take (len : nat) : Parser bytes :=
  fun r =>
    let fin := (rd_offset r + len)%nat in
    if u64_max <? Z.of_nat fin then Ret (Err (decode_error Truncated (rd_offset r)))
    else if (length (rd_bytes r) <? fin)%nat
    then Ret (Err (decode_error Truncated (rd_offset r)))
    else
      let! s := slice (rd_bytes r) (rd_offset r) fin in
      Ret (Ok (s, mkReader (rd_bytes r) fin)).

Definition skip (len : nat) : Parser unit := let@ _ := take len in pret tt.

Definition u8 : Parser Z := let@ s := take 1 in plift (index s 0).

(** [u16], [u32], [u64] and [u128] read that many bytes and combine them; the
    copy into a fixed array has the length [take] returned. *)
Definition uint (n : nat) : Parser Z := let@ s := take n in pret (from_le s).

Definition u16 : Parser Z := uint 2.
Definition u32 : Parser Z := uint 4.
Definition u64 : Parser Z := uint 8.
Definition i64 : Parser Z := let@ v := u64 in pret (as_i64 v).
Definition u128 : Parser Z := uint 16.

Definition invalid_field {A} : Parser A :=
  fun r => Ret (Err (decode_error InvalidField (rd_offset r))).

(** [from_wire(..).ok_or_else(|| reader.invalid_field())]. *)
Definition valid {A} (o : option A) : Parser A :=
  match o with
  | Some a => pret a
  | None => invalid_field
  end.

End Reader.

(** [if reader.remaining() != 0 { return Err(..) }] at the end of a decoder. *)
Definition at_end {A} (e : nat -> DecodeError) (a : A) : Parser A :=
  let@ remaining := Reader.remaining in
  let@ offset := Reader.offset in
  if negb (remaining =? 0)%nat then pfail (e offset) else pret a.

(** [map_err] of a decoder's error. *)
Definition pmap_err {A} (f : DecodeError -> DecodeError) (p : Parser A) : Parser A :=
  fun r => match p r with
           | Ret (Err e) => Ret (Err (f e))
           | other => other
           end.

(** * The logic of decoders *)

(** What is left to read. *)
Definition rest (r : reader) : bytes := drop (rd_offset r) (rd_bytes r).

Definition adv (r : reader) (n : nat) : reader := mkReader (rd_bytes r) (rd_offset r + n).

(** The cursor is inside its bytes, which fit in memory. *)
Record cursor_ok (r : reader) : Prop := {
  co_offset : (rd_offset r <= length (rd_bytes r))%nat;
  co_size : Z.of_nat (length (rd_bytes r)) <= u64_max;
  co_bytes : Forall is_byte (rd_bytes r)
}.

(** [p] reads exactly [bs] and returns [a]. *)
Definition reads {A} (p : Parser A) (bs : bytes) (a : A) : Prop :=
  forall r post, cursor_ok r -> rest r = bs ++ post ->
    p r = Ret (Ok (a, adv r (length bs))).

(** On every cursor [p] returns, and what it read is [enc] of its result. *)
Definition parses {A} (p : Parser A) (enc : A -> bytes -> Prop) : Prop :=
  forall r, cursor_ok r ->
    exists res, p r = Ret res
      /\ match res with
         | Ok (a, r') => exists bs, r' = adv r (length bs) /\ rest r = bs ++ rest r'
                                    /\ cursor_ok r' /\ enc a bs
         | Err _ => True
         end.

Lemma rest_adv r bs post : rest r = bs ++ post -> rest (adv r (length bs)) = post.
Proof.
  unfold rest, adv. simpl. intros H. by rewrite <- drop_drop, H, drop_app_length.
Qed.

Lemma rest_length r : cursor_ok r -> length (rest r) = (length (rd_bytes r) - rd_offset r)%nat.
Proof. intros _. unfold rest. by rewrite length_drop. Qed.

Lemma adv_ok r bs post : cursor_ok r -> rest r = bs ++ post -> cursor_ok (adv r (length bs)).
Proof.
  intros H E. pose proof (rest_length r H) as Hl. rewrite E, length_app in Hl.
  destruct H. constructor; simpl; try done. lia.
Qed.

Lemma adv_adv r n m : adv (adv r n) m = adv r (n + m).
Proof. unfold adv. simpl. f_equal. lia. Qed.

Lemma adv_0 r : adv r 0 = r.
Proof. destruct r. unfold adv. simpl. f_equal. lia. Qed.

Lemma rest_bytes r : cursor_ok r -> Forall is_byte (rest r).
Proof. intros [_ _ H]. by apply Forall_drop. Qed.

(** ** Reading back *)

Lemma reads_ret {A} (a : A) : reads (pret a) [] a.
Proof. intros r post _ _. simpl. by rewrite adv_0. Qed.

Lemma reads_bind {A B} (p : Parser A) (k : A -> Parser B) bs1 bs2 a b :
  reads p bs1 a -> reads (k a) bs2 b -> reads (pbind p k) (bs1 ++ bs2) b.
Proof.
  intros H1 H2 r post Hr E. rewrite <- app_assoc in E. unfold pbind. rewrite (H1 r _ Hr E).
  rewrite (H2 _ post (adv_ok _ _ _ Hr E) (rest_adv _ _ _ E)), adv_adv, length_app. done.
Qed.

Lemma reads_take bs : reads (Reader.take (length bs)) bs bs.
Proof.
  intros r post Hr E. pose proof (rest_length r Hr) as Hl. rewrite E, length_app in Hl.
  destruct Hr as [Ho Hs _]. unfold Reader.take.
  destruct (Z.ltb_spec u64_max (Z.of_nat (rd_offset r + length bs))); [lia |].
  destruct (Nat.ltb_spec (length (rd_bytes r)) (rd_offset r + length bs)); [lia |].
  unfold slice. rewrite (proj2 (Nat.leb_le _ _)) by lia. rewrite (proj2 (Nat.leb_le _ _)) by lia.
  simpl. replace (rd_offset r + length bs - rd_offset r)%nat with (length bs) by lia.
  fold (rest r). by rewrite E, take_app_length.
Qed.

Lemma reads_take_n n bs : length bs = n -> reads (Reader.take n) bs bs.
Proof. intros <-. apply reads_take. Qed.

Lemma reads_u8 v : reads Reader.u8 [v] v.
Proof.
  intros r post Hr E. unfold Reader.u8, pbind. by rewrite (reads_take_n 1 [v] eq_refl r post Hr E).
Qed.

Lemma reads_uint n v : 0 <= v < 256 ^ Z.of_nat n -> reads (Reader.uint n) (le_bytes n v) v.
Proof.
  intros Hv. unfold Reader.uint. rewrite <- (app_nil_r (le_bytes n v)).
  eapply reads_bind; [apply reads_take_n, le_bytes_length |].
  rewrite from_le_le_bytes by done. apply reads_ret.
Qed.

Lemma reads_u16 v : in_u16 v -> reads Reader.u16 (le_bytes 2 v) v.
Proof. intros H. apply reads_uint. mach. Qed.
Lemma reads_u32 v : in_u32 v -> reads Reader.u32 (le_bytes 4 v) v.
Proof. intros H. apply reads_uint. mach. Qed.
Lemma reads_u64 v : in_u64 v -> reads Reader.u64 (le_bytes 8 v) v.
Proof. intros H. apply reads_uint. mach. Qed.
Lemma reads_u128 v : in_u128 v -> reads Reader.u128 (le_bytes 16 v) v.
Proof. intros H. apply reads_uint. mach. Qed.

Lemma reads_i64 v : in_i64 v -> reads Reader.i64 (le_bytes 8 (as_u64 v)) v.
Proof.
  intros H. unfold Reader.i64. rewrite <- (app_nil_r (le_bytes 8 _)).
  eapply reads_bind; [apply reads_u64, as_u64_range |].
  rewrite as_i64_as_u64 by done. apply reads_ret.
Qed.

Lemma reads_valid {A} (o : option A) a : o = Some a -> reads (Reader.valid o) [] a.
Proof. intros ->. apply reads_ret. Qed.

(** The end of a decoder: nothing more is read. *)
Lemma reads_end {A B} (p : Parser A) (k : A -> Parser B) bs a b :
  reads p bs a -> reads (k a) [] b -> reads (pbind p k) bs b.
Proof. intros. rewrite <- (app_nil_r bs). by eapply reads_bind. Qed.

(** Any bytes are the encoding of some value. *)
Lemma reads_uint_any n bs : length bs = n -> reads (Reader.uint n) bs (from_le bs).
Proof. intros H. unfold Reader.uint. eapply reads_end; [by apply reads_take_n | apply reads_ret]. Qed.

(** ** Parsing *)

Lemma parses_ret {A} (a : A) (enc : A -> bytes -> Prop) : enc a [] -> parses (pret a) enc.
Proof.
  intros H r Hr. eexists. split; [done |]. exists []. by rewrite adv_0.
Qed.

Lemma parses_fail {A} e (enc : A -> bytes -> Prop) : parses (pfail e) enc.
Proof. intros r Hr. by exists (Err e). Qed.

Lemma parses_invalid {A} (enc : A -> bytes -> Prop) : parses Reader.invalid_field enc.
Proof. intros r Hr. by eexists. Qed.

Lemma parses_bind {A B} (p : Parser A) (k : A -> Parser B) enc1 (enc2 : B -> bytes -> Prop) :
  parses p enc1 ->
  (forall a bs1, enc1 a bs1 -> parses (k a) (fun b bs2 => enc2 b (bs1 ++ bs2))) ->
  parses (pbind p k) enc2.
Proof.
  intros H1 H2 r Hr. unfold pbind. destruct (H1 r Hr) as (res1 & -> & Hres1).
  destruct res1 as [[a r1] | e]; [| by exists (Err e)].
  destruct Hres1 as (bs1 & -> & E1 & Hr1 & Henc).
  destruct (H2 a bs1 Henc _ Hr1) as (res2 & -> & Hres2). exists res2. split; [done |].
  destruct res2 as [[b r2] | e]; [| done]. destruct Hres2 as (bs2 & -> & E2 & Hr2 & Henc2).
  exists (bs1 ++ bs2). rewrite adv_adv, length_app. split_and!; try done.
  - by rewrite E1, E2, adv_adv, app_assoc.
  - by rewrite adv_adv in Hr2.
Qed.

Lemma parses_mono {A} (p : Parser A) (enc enc' : A -> bytes -> Prop) :
  parses p enc -> (forall a bs, enc a bs -> enc' a bs) -> parses p enc'.
Proof.
  intros H Hi r Hr. destruct (H r Hr) as (res & -> & Hres). exists res. split; [done |].
  destruct res as [[a r'] | e]; [| done]. destruct Hres as (bs & ? & ? & ? & ?). eauto 10.
Qed.

Lemma parses_take n : parses (Reader.take n) (fun s bs => s = bs /\ length bs = n /\ Forall is_byte bs).
Proof.
  intros r Hr. pose proof (rest_length r Hr) as Hl. pose proof (rest_bytes r Hr) as Hb.
  destruct Hr as [Ho Hs Hall]. unfold Reader.take.
  destruct (Z.ltb_spec u64_max (Z.of_nat (rd_offset r + n))); [by eexists |].
  destruct (Nat.ltb_spec (length (rd_bytes r)) (rd_offset r + n)); [by eexists |].
  unfold slice. rewrite (proj2 (Nat.leb_le _ _)) by lia. rewrite (proj2 (Nat.leb_le _ _)) by lia.
  simpl. replace (rd_offset r + n - rd_offset r)%nat with n by lia. fold (rest r).
  eexists. split; [done |]. exists (take n (rest r)). simpl.
  assert (Hn : length (take n (rest r)) = n) by (rewrite length_take; lia).
  split_and!; try done.
  - unfold adv. by rewrite Hn.
  - unfold rest at 3. simpl. rewrite <- drop_drop. fold (rest r). by rewrite take_drop.
  - by apply Forall_take.
Qed.

Lemma parses_u8 : parses Reader.u8 (fun v bs => bs = [v] /\ is_byte v).
Proof.
  unfold Reader.u8. eapply parses_bind; [apply parses_take |].
  intros s bs (-> & Hl & Hb) r Hr. destruct bs as [| v [|]]; try done.
  apply Forall_cons in Hb as [Hv _]. unfold plift, index, unwrap. simpl.
  eexists. split; [done |]. exists []. by rewrite adv_0.
Qed.

Lemma parses_uint n :
  parses (Reader.uint n) (fun v bs => bs = le_bytes n v /\ 0 <= v < 256 ^ Z.of_nat n).
Proof.
  unfold Reader.uint. eapply parses_bind; [apply parses_take |].
  intros s bs (-> & Hl & Hb). apply parses_ret. rewrite app_nil_r.
  split; [rewrite <- Hl; by rewrite le_bytes_from_le | rewrite <- Hl; by apply from_le_bound].
Qed.

Lemma parses_u16 : parses Reader.u16 (fun v bs => bs = le_bytes 2 v /\ in_u16 v).
Proof. eapply parses_mono; [apply parses_uint |]. intros v bs [-> H]. split; [done | mach]. Qed.
Lemma parses_u32 : parses Reader.u32 (fun v bs => bs = le_bytes 4 v /\ in_u32 v).
Proof. eapply parses_mono; [apply parses_uint |]. intros v bs [-> H]. split; [done | mach]. Qed.
Lemma parses_u64 : parses Reader.u64 (fun v bs => bs = le_bytes 8 v /\ in_u64 v).
Proof. eapply parses_mono; [apply parses_uint |]. intros v bs [-> H]. split; [done | mach]. Qed.
Lemma parses_u128 : parses Reader.u128 (fun v bs => bs = le_bytes 16 v /\ in_u128 v).
Proof. eapply parses_mono; [apply parses_uint |]. intros v bs [-> H]. split; [done | mach]. Qed.

Lemma parses_i64 : parses Reader.i64 (fun v bs => bs = le_bytes 8 (as_u64 v) /\ in_i64 v).
Proof.
  unfold Reader.i64. eapply parses_bind; [apply parses_u64 |]. intros v bs [-> H].
  apply parses_ret. rewrite app_nil_r, as_u64_as_i64 by done. split; [done | by apply as_i64_range].
Qed.

Lemma parses_valid {A} (o : option A) (enc : A -> bytes -> Prop) :
  (forall a, o = Some a -> enc a []) -> parses (Reader.valid o) enc.
Proof. intros H. destruct o; [by apply parses_ret, H | apply parses_invalid]. Qed.

(** ** Whole inputs *)

Lemma new_cursor_ok bs :
  Forall is_byte bs -> Z.of_nat (length bs) <= u64_max -> cursor_ok (Reader.new bs).
Proof. intros. constructor; simpl; try done. lia. Qed.

Lemma reads_new {A} (p : Parser A) bs a post :
  reads p bs a -> Forall is_byte (bs ++ post) -> Z.of_nat (length (bs ++ post)) <= u64_max ->
  p (Reader.new (bs ++ post)) = Ret (Ok (a, mkReader (bs ++ post) (length bs))).
Proof. intros H Hb Hs. by rewrite (H _ post (new_cursor_ok _ Hb Hs) (drop_0 _)). Qed.

Lemma parses_new {A} (p : Parser A) (enc : A -> bytes -> Prop) bs :
  parses p enc -> Forall is_byte bs -> Z.of_nat (length bs) <= u64_max ->
  exists result, p (Reader.new bs) = Ret result
    /\ match result with
       | Ok (a, r) => (rd_offset r <= length bs)%nat /\ rd_bytes r = bs
                      /\ enc a (take (rd_offset r) bs)
       | Err _ => True
       end.
Proof.
  intros H Hb Hs. destruct (H _ (new_cursor_ok bs Hb Hs)) as (result & -> & Hres).
  exists result. split; [done |]. destruct result as [[a r] | e]; [| done].
  destruct Hres as (bs1 & -> & E & [Ho _ _] & Henc). simpl in *. split_and!; [done.. |].
  unfold rest in E. simpl in E. rewrite drop_0 in E. rewrite E, take_app_length. done.
Qed.

(** ** Decoders that demand the end of their input *)

Definition reads_all {A} (p : Parser A) (bs : bytes) (a : A) : Prop :=
  forall r, cursor_ok r -> rest r = bs -> p r = Ret (Ok (a, adv r (length bs))).

Definition parses_all {A} (p : Parser A) (enc : A -> bytes -> Prop) : Prop :=
  forall r, cursor_ok r ->
    exists result, p r = Ret result
      /\ match result with
         | Ok (a, _) => enc a (rest r)
         | Err _ => True
         end.

Lemma reads_all_bind {A B} (p : Parser A) (k : A -> Parser B) bs1 bs2 a b :
  reads p bs1 a -> reads_all (k a) bs2 b -> reads_all (pbind p k) (bs1 ++ bs2) b.
Proof.
  intros H1 H2 r Hr E. unfold pbind. rewrite (H1 r _ Hr E).
  rewrite (H2 _ (adv_ok _ _ _ Hr E) (rest_adv _ _ _ E)), adv_adv, length_app. done.
Qed.

Lemma parses_all_bind {A B} (p : Parser A) (k : A -> Parser B) enc1 (enc2 : B -> bytes -> Prop) :
  parses p enc1 ->
  (forall a bs1, enc1 a bs1 -> parses_all (k a) (fun b bs2 => enc2 b (bs1 ++ bs2))) ->
  parses_all (pbind p k) enc2.
Proof.
  intros H1 H2 r Hr. unfold pbind. destruct (H1 r Hr) as (res1 & -> & Hres1).
  destruct res1 as [[a r1] | e]; [| by exists (Err e)].
  destruct Hres1 as (bs1 & -> & E1 & Hr1 & Henc).
  destruct (H2 a bs1 Henc _ Hr1) as (res2 & -> & Hres2). exists res2. split; [done |].
  destruct res2 as [[b r2] | e]; [| done]. by rewrite E1.
Qed.

Lemma reads_at_end {A} e (a : A) : reads_all (at_end e a) [] a.
Proof.
  intros r Hr E. pose proof (rest_length r Hr) as Hl. rewrite E in Hl. simpl in Hl.
  destruct Hr as [Ho _ _]. unfold at_end, pbind, Reader.remaining, Reader.offset.
  rewrite (proj2 (Nat.leb_le _ _)) by done. rewrite <- Hl. simpl. by rewrite adv_0.
Qed.

Lemma parses_at_end {A} e (a : A) (enc : A -> bytes -> Prop) :
  enc a [] -> parses_all (at_end e a) enc.
Proof.
  intros H r Hr. pose proof (rest_length r Hr) as Hl.
  destruct Hr as [Ho _ _]. unfold at_end, pbind, Reader.remaining, Reader.offset.
  rewrite (proj2 (Nat.leb_le _ _)) by done.
  destruct (Nat.eqb_spec (length (rd_bytes r) - rd_offset r) 0) as [E | _]; simpl;
    (eexists; split; [done |]); [| done].
  by rewrite (nil_length_inv (rest r)) by lia.
Qed.

Lemma parses_all_fail {A} e (enc : A -> bytes -> Prop) : parses_all (pfail e) enc.
Proof. intros r Hr. by exists (Err e). Qed.

Lemma reads_map_err {A} f (p : Parser A) bs a : reads p bs a -> reads (pmap_err f p) bs a.
Proof. intros H r post Hr E. unfold pmap_err. by rewrite (H r post Hr E). Qed.

Lemma parses_map_err {A} f (p : Parser A) enc : parses p enc -> parses (pmap_err f p) enc.
Proof.
  intros H r Hr. unfold pmap_err. destruct (H r Hr) as (result & -> & Hres).
  destruct result as [[a r'] | e]; eexists; by split.
Qed.

Lemma parses_skip n : parses (Reader.skip n) (fun _ bs => length bs = n).
Proof.
  unfold Reader.skip. eapply parses_bind; [apply parses_take |].
  intros s bs (-> & Hl & _). apply parses_ret. by rewrite app_nil_r.
Qed.

Lemma parses_unknown {A} k (enc : A -> bytes -> Prop) :
  parses (let@ offset := Reader.offset in pfail (decode_error k offset)) enc.
Proof. intros r Hr. by eexists. Qed.

(** A look at the offset. *)
Lemma reads_end_offset {A} (k : nat -> Parser A) bs a :
  (forall o, reads (k o) bs a) -> reads (pbind Reader.offset k) bs a.
Proof. intros H r post Hr E. apply (H _ r post Hr E). Qed.

Lemma parses_offset {A} (k : nat -> Parser A) enc :
  (forall o, parses (k o) enc) -> parses (pbind Reader.offset k) enc.
Proof. intros H r Hr. apply (H _ r Hr). Qed.
