(* ===== verification/Canonical.v ===== *)
(** Canonical encoding of output events ([crates/protocol/src/canonical.rs]),
    the bytes that feed the output digest and the journal. *)

From S2P Require Import Prelude Enums Ids Events Read.

(** * Encoding *)

(** What [encode_output] appends for each kind of event, after the tag byte. *)
Definition trade_bytes (t : TradeEvent) : bytes :=
  le_bytes 8 (tr_output_seq t) ++ le_bytes 8 (tr_engine_seq t)
  ++ le_bytes 8 (tr_engine_time_ns t) ++ le_bytes 8 (tr_trade_id t)
  ++ le_bytes 4 (tr_instrument t) ++ le_bytes 8 (tr_maker_order_id t)
  ++ le_bytes 8 (tr_taker_order_id t) ++ le_bytes 4 (tr_maker_account t)
  ++ le_bytes 4 (tr_taker_account t) ++ [Side.wire (tr_aggressor t)]
  ++ le_bytes 8 (as_u64 (tr_price t)) ++ le_bytes 8 (tr_quantity t).

Definition report_bytes (r : ExecutionReport) : bytes :=
  le_bytes 8 (rep_output_seq r) ++ le_bytes 8 (rep_engine_seq r)
  ++ le_bytes 8 (rep_engine_time_ns r) ++ le_bytes 4 (rep_account r)
  ++ le_bytes 4 (rep_instrument r) ++ le_bytes 8 (rep_request_id r)
  ++ le_bytes 8 (rep_client_order_id r) ++ le_bytes 8 (rep_order_id r)
  ++ [ReportKind.wire (rep_kind r)] ++ [OrderState.wire (rep_state r)]
  ++ [Side.wire (rep_side r)] ++ [OrderType.wire (rep_order_type r)]
  ++ le_bytes 8 (as_u64 (rep_price r)) ++ le_bytes 8 (rep_total_quantity r)
  ++ le_bytes 8 (rep_cumulative_filled r) ++ le_bytes 8 (rep_remaining r)
  ++ le_bytes 8 (rep_last_fill_quantity r) ++ le_bytes 8 (as_u64 (rep_last_fill_price r))
  ++ [from_option RejectReason.wire 0 (rep_reject_reason r)].

Definition state_event_bytes (e : EngineStateEvent.t) : bytes :=
  match e with
  | EngineStateEvent.KillSwitchEngaged => [1]
  | EngineStateEvent.KillSwitchReleased => [2]
  | EngineStateEvent.AccountEnabledChanged account enabled =>
      [3] ++ le_bytes 4 account ++ [Z.b2z enabled]
  | EngineStateEvent.AccountLimitsChanged account => [4] ++ le_bytes 4 account
  | EngineStateEvent.FeedStateChanged instrument state =>
      [5] ++ le_bytes 4 instrument ++ [FeedState.wire state]
  end.

Definition state_bytes (s : StateEvent) : bytes :=
  le_bytes 8 (st_output_seq s) ++ le_bytes 8 (st_engine_seq s)
  ++ le_bytes 8 (st_engine_time_ns s) ++ state_event_bytes (st_event s).

Definition output_bytes (event : OutputEvent.t) : bytes :=
  match event with
  | OutputEvent.Trade t => [1] ++ trade_bytes t
  | OutputEvent.Report r => [2] ++ report_bytes r
  | OutputEvent.State s => [3] ++ state_bytes s
  end.

Definition encode_output (event : OutputEvent.t) (out : bytes) : bytes :=
  out ++ output_bytes event.

(** * Decoding *)

Definition read_side : Parser Side.t :=
  let@ v := Reader.u8 in Reader.valid (Side.from_wire v).

Definition read_order_type : Parser OrderType.t :=
  let@ v := Reader.u8 in Reader.valid (OrderType.from_wire v).

Definition read_report_kind : Parser ReportKind.t :=
  let@ v := Reader.u8 in
  match v with
  | 1 => pret ReportKind.Accepted
  | 2 => pret ReportKind.Rejected
  | 3 => pret ReportKind.PartiallyFilled
  | 4 => pret ReportKind.Filled
  | 5 => pret ReportKind.Cancelled
  | 6 => pret ReportKind.Replaced
  | _ => Reader.invalid_field
  end.

Definition read_order_state : Parser OrderState.t :=
  let@ v := Reader.u8 in
  match v with
  | 1 => pret OrderState.Working
  | 2 => pret OrderState.PartiallyFilled
  | 3 => pret OrderState.Filled
  | 4 => pret OrderState.Cancelled
  | _ => Reader.invalid_field
  end.

Definition read_feed_state : Parser FeedState.t :=
  let@ v := Reader.u8 in
  match v with
  | 1 => pret FeedState.Unsynchronized
  | 2 => pret FeedState.ApplyingSnapshot
  | 3 => pret FeedState.Live
  | 4 => pret FeedState.Gap
  | _ => Reader.invalid_field
  end.

Definition read_reject : Parser (option RejectReason.t) :=
  let@ value := Reader.u8 in
  if value =? 0 then pret None
  else Reader.valid
         (Some <$> List.find (fun reason => RejectReason.wire reason =? value) RejectReason.ALL).

Definition read_bool : Parser bool :=
  let@ v := Reader.u8 in
  match v with
  | 0 => pret false
  | 1 => pret true
  | _ => Reader.invalid_field
  end.

Definition read_trade : Parser TradeEvent :=
  let@ output_seq := Reader.u64 in
  let@ engine_seq := Reader.u64 in
  let@ engine_time_ns := Reader.u64 in
  let@ trade_id := Reader.u64 in
  let@ instrument := Reader.u32 in
  let@ maker_order_id := Reader.u64 in
  let@ taker_order_id := Reader.u64 in
  let@ maker_account := Reader.u32 in
  let@ taker_account := Reader.u32 in
  let@ aggressor := read_side in
  let@ price := Reader.i64 in
  let@ quantity := Reader.u64 in
  pret (mkTradeEvent output_seq engine_seq engine_time_ns trade_id instrument maker_order_id
          taker_order_id maker_account taker_account aggressor price quantity).

Definition read_report : Parser ExecutionReport :=
  let@ output_seq := Reader.u64 in
  let@ engine_seq := Reader.u64 in
  let@ engine_time_ns := Reader.u64 in
  let@ account := Reader.u32 in
  let@ instrument := Reader.u32 in
  let@ request_id := Reader.u64 in
  let@ client_order_id := Reader.u64 in
  let@ order_id := Reader.u64 in
  let@ kind := read_report_kind in
  let@ state := read_order_state in
  let@ side := read_side in
  let@ order_type := read_order_type in
  let@ price := Reader.i64 in
  let@ total_quantity := Reader.u64 in
  let@ cumulative_filled := Reader.u64 in
  let@ remaining := Reader.u64 in
  let@ last_fill_quantity := Reader.u64 in
  let@ last_fill_price := Reader.i64 in
  let@ reject_reason := read_reject in
  pret (mkExecutionReport output_seq engine_seq engine_time_ns account instrument request_id
          client_order_id order_id kind state side order_type price total_quantity
          cumulative_filled remaining last_fill_quantity last_fill_price reject_reason).

Definition read_state_event : Parser EngineStateEvent.t :=
  let@ tag := Reader.u8 in
  match tag with
  | 1 => pret EngineStateEvent.KillSwitchEngaged
  | 2 => pret EngineStateEvent.KillSwitchReleased
  | 3 =>
      let@ account := Reader.u32 in
      let@ enabled := read_bool in
      pret (EngineStateEvent.AccountEnabledChanged account enabled)
  | 4 =>
      let@ account := Reader.u32 in
      pret (EngineStateEvent.AccountLimitsChanged account)
  | 5 =>
      let@ instrument := Reader.u32 in
      let@ state := read_feed_state in
      pret (EngineStateEvent.FeedStateChanged instrument state)
  | _ => Reader.invalid_field
  end.

Definition read_state : Parser StateEvent :=
  let@ output_seq := Reader.u64 in
  let@ engine_seq := Reader.u64 in
  let@ engine_time_ns := Reader.u64 in
  let@ event := read_state_event in
  pret (mkStateEvent output_seq engine_seq engine_time_ns event).

Definition read_output : Parser OutputEvent.t :=
  let@ tag := Reader.u8 in
  match tag with
  | 1 => let@ t := read_trade in pret (OutputEvent.Trade t)
  | 2 => let@ r := read_report in pret (OutputEvent.Report r)
  | 3 => let@ s := read_state in pret (OutputEvent.State s)
  | _ => Reader.invalid_field
  end.

(** Decodes one event and returns the bytes consumed. *)
Definition decode_output (bs : bytes) : res (Result (OutputEvent.t * nat) DecodeError) :=
  let? (event, r) := read_output (Reader.new bs) in
  Ret (Ok (event, rd_offset r)).
