(* ===== verification/CanonicalProps.v ===== *)
(** The canonical encoding is a bijection between well-formed events and the
    byte strings that decode, and the decoder is total. *)

From S2P Require Import Prelude Enums Ids Events Read Canonical.

(** * Automation: one field at a time *)

Lemma wire_side s : Side.from_wire (Side.wire s) = Some s.
Proof. by destruct s. Qed.
Lemma wire_order_type t : OrderType.from_wire (OrderType.wire t) = Some t.
Proof. by destruct t. Qed.

Lemma reads_side s : reads read_side [Side.wire s] s.
Proof. eapply reads_end; [apply reads_u8 | apply reads_valid, wire_side]. Qed.
Lemma reads_order_type t : reads read_order_type [OrderType.wire t] t.
Proof. eapply reads_end; [apply reads_u8 | apply reads_valid, wire_order_type]. Qed.
Lemma reads_report_kind k : reads read_report_kind [ReportKind.wire k] k.
Proof. eapply reads_end; [apply reads_u8 | destruct k; apply reads_ret]. Qed.
Lemma reads_order_state s : reads read_order_state [OrderState.wire s] s.
Proof. eapply reads_end; [apply reads_u8 | destruct s; apply reads_ret]. Qed.
Lemma reads_feed_state s : reads read_feed_state [FeedState.wire s] s.
Proof. eapply reads_end; [apply reads_u8 | destruct s; apply reads_ret]. Qed.
Lemma reads_bool b : reads read_bool [Z.b2z b] b.
Proof. eapply reads_end; [apply reads_u8 | destruct b; apply reads_ret]. Qed.
Lemma reads_reject o : reads read_reject [from_option RejectReason.wire 0 o] o.
Proof. eapply reads_end; [apply reads_u8 |]. destruct o as [[] |]; apply reads_ret. Qed.

Create HintDb reads.
#[export] Hint Resolve reads_u8 reads_u16 reads_u32 reads_u64 reads_i64 reads_u128 reads_side
  reads_order_type reads_report_kind reads_order_state reads_feed_state reads_bool reads_reject
  : reads.

(** Reads every field of a decoder, the last one included. *)
Ltac read_fields :=
  repeat first
    [ eapply reads_bind; [solve [eauto with reads] |]
    | eapply reads_end; [solve [eauto with reads] |]
    | apply reads_ret ].

(** The inverse direction: a parsed field and the byte it came from. *)
Lemma parses_side : parses read_side (fun s bs => bs = [Side.wire s] /\ True).
Proof.
  eapply parses_bind; [apply parses_u8 |]. intros v bs [-> Hv]. apply parses_valid.
  intros s Hs. split; [| done]. simpl. f_equal.
  unfold Side.from_wire in Hs. by repeat case_match; simplify_eq.
Qed.
Lemma parses_order_type : parses read_order_type (fun t bs => bs = [OrderType.wire t] /\ True).
Proof.
  eapply parses_bind; [apply parses_u8 |]. intros v bs [-> Hv]. apply parses_valid.
  intros t Ht. split; [| done]. simpl. f_equal.
  unfold OrderType.from_wire in Ht. by repeat case_match; simplify_eq.
Qed.

Ltac parse_enum :=
  eapply parses_bind; [apply parses_u8 |]; intros v bs [-> Hv];
  repeat case_match; first [apply parses_invalid | by apply parses_ret].

Lemma parses_report_kind : parses read_report_kind (fun k bs => bs = [ReportKind.wire k] /\ True).
Proof. parse_enum. Qed.
Lemma parses_order_state : parses read_order_state (fun s bs => bs = [OrderState.wire s] /\ True).
Proof. parse_enum. Qed.
Lemma parses_feed_state : parses read_feed_state (fun s bs => bs = [FeedState.wire s] /\ True).
Proof. parse_enum. Qed.
Lemma parses_bool : parses read_bool (fun b bs => bs = [Z.b2z b] /\ True).
Proof. parse_enum. Qed.
Lemma parses_reject :
  parses read_reject (fun o bs => bs = [from_option RejectReason.wire 0 o] /\ True).
Proof.
  eapply parses_bind; [apply parses_u8 |]. intros v bs [-> Hv].
  destruct (Z.eqb_spec v 0) as [-> |]; [by apply parses_ret |].
  apply parses_valid. intros o Ho. apply fmap_Some in Ho as (r & Hr & ->).
  apply List.find_some in Hr as [_ Hr%Z.eqb_eq]. simpl. by rewrite Hr.
Qed.

Create HintDb parses.
#[export] Hint Resolve parses_u16 parses_u32 parses_u64 parses_i64 parses_u128 parses_side
  parses_order_type parses_report_kind parses_order_state parses_feed_state parses_bool
  parses_reject : parses.

Ltac parse_fields :=
  repeat (eapply parses_bind; [solve [eauto with parses] |];
          let v := fresh "v" in let bs := fresh "bs" in let H := fresh "H" in
          intros v bs [-> H]; cbv beta).

(** * Round trips of the parts *)

Lemma reads_trade t : trade_wf t -> reads read_trade (trade_bytes t) t.
Proof. intros []. destruct t. unfold trade_bytes, read_trade. read_fields. Qed.

Lemma reads_report r : report_wf r -> reads read_report (report_bytes r) r.
Proof. intros []. destruct r. unfold report_bytes, read_report. read_fields. Qed.

Lemma reads_state_event e : state_event_wf e -> reads read_state_event (state_event_bytes e) e.
Proof.
  intros H. unfold read_state_event, state_event_bytes.
  destruct e; unfold state_event_wf in H; read_fields.
Qed.

#[export] Hint Resolve reads_trade reads_report reads_state_event : reads.

Lemma reads_state s : state_wf s -> reads read_state (state_bytes s) s.
Proof. intros []. destruct s. unfold state_bytes, read_state. read_fields. Qed.

#[export] Hint Resolve reads_state : reads.

Lemma reads_output e : output_wf e -> reads read_output (output_bytes e) e.
Proof.
  intros H. unfold read_output, output_bytes.
  destruct e; unfold output_wf in H; read_fields.
Qed.

(** * What decodes is an encoding *)

Lemma parses_trade : parses read_trade (fun t bs => bs = trade_bytes t /\ trade_wf t).
Proof.
  unfold read_trade. parse_fields. apply parses_ret. split; [| by constructor].
  unfold trade_bytes. simpl tr_output_seq. by rewrite app_nil_r.
Qed.

Lemma parses_report : parses read_report (fun r bs => bs = report_bytes r /\ report_wf r).
Proof.
  unfold read_report. parse_fields. apply parses_ret. split; [| by constructor].
  unfold report_bytes. by rewrite app_nil_r.
Qed.

Lemma parses_state_event :
  parses read_state_event (fun e bs => bs = state_event_bytes e /\ state_event_wf e).
Proof.
  unfold read_state_event. eapply parses_bind; [apply parses_u8 |]. intros tag bs [-> _].
  repeat case_match; try apply parses_invalid; parse_fields; apply parses_ret;
    by rewrite ?app_nil_r.
Qed.

#[export] Hint Resolve parses_trade parses_report parses_state_event : parses.

Lemma parses_state : parses read_state (fun s bs => bs = state_bytes s /\ state_wf s).
Proof.
  unfold read_state. parse_fields. apply parses_ret. split; [| by constructor].
  unfold state_bytes. by rewrite app_nil_r.
Qed.

#[export] Hint Resolve parses_state : parses.

Lemma parses_output : parses read_output (fun e bs => bs = output_bytes e /\ output_wf e).
Proof.
  unfold read_output. eapply parses_bind; [apply parses_u8 |]. intros tag bs [-> _].
  repeat case_match; try apply parses_invalid; parse_fields; apply parses_ret;
    by rewrite ?app_nil_r.
Qed.

(** * The encoding produces bytes, and few of them *)

Lemma is_byte_side s : is_byte (Side.wire s).
Proof. by destruct s. Qed.
Lemma is_byte_order_type t : is_byte (OrderType.wire t).
Proof. by destruct t. Qed.
Lemma is_byte_report_kind k : is_byte (ReportKind.wire k).
Proof. by destruct k. Qed.
Lemma is_byte_order_state s : is_byte (OrderState.wire s).
Proof. by destruct s. Qed.
Lemma is_byte_feed_state s : is_byte (FeedState.wire s).
Proof. by destruct s. Qed.
Lemma is_byte_bool b : is_byte (Z.b2z b).
Proof. by destruct b. Qed.
Lemma is_byte_reject o : is_byte (from_option RejectReason.wire 0 o).
Proof. by destruct o as [[] |]. Qed.

Create HintDb wire_bytes.
#[export] Hint Resolve le_bytes_bytes is_byte_side is_byte_order_type is_byte_report_kind
  is_byte_order_state is_byte_feed_state is_byte_bool is_byte_reject : wire_bytes.

Ltac solve_bytes :=
  repeat first
    [ solve [eauto with wire_bytes] | by unfold is_byte
    | apply Forall_app_2 | apply Forall_nil_2 | apply Forall_cons_2 ].

Lemma state_event_bytes_bytes e : Forall is_byte (state_event_bytes e).
Proof. destruct e; unfold state_event_bytes; solve_bytes. Qed.

#[export] Hint Resolve state_event_bytes_bytes : wire_bytes.

Lemma output_bytes_bytes e : Forall is_byte (output_bytes e).
Proof.
  destruct e; unfold output_bytes, trade_bytes, report_bytes, state_bytes; solve_bytes.
Qed.

(** The longest encoding, an execution report, has 110 bytes. *)
Lemma output_bytes_length e : (length (output_bytes e) <= 110)%nat.
Proof.
  destruct e as [| | [? ? ? []]]; vm_compute; lia.
Qed.

(** * The codec as a whole *)

(** Decoding a whole string. *)
Lemma canonical_decode e :
  output_wf e -> decode_output (output_bytes e) = Ret (Ok (e, length (output_bytes e))).
Proof.
  intros He. unfold decode_output. pose proof (output_bytes_length e).
  rewrite <- (app_nil_r (output_bytes e)) at 1.
  rewrite (reads_new _ _ e []); [done | by apply reads_output | | rewrite app_nil_r; lia].
  rewrite app_nil_r. apply output_bytes_bytes.
Qed.

Lemma decode_output_payload bs :
  Forall is_byte bs -> Z.of_nat (length bs) <= u64_max ->
  exists result, decode_output bs = Ret result
    /\ match result with
       | Ok (e, n) => output_wf e /\ take n bs = output_bytes e
       | Err _ => True
       end.
Proof.
  intros Hb Hs. unfold decode_output.
  destruct (parses_new _ _ bs parses_output Hb Hs) as ([[e r] | err] & -> & H); simpl;
    eexists; (split; [done |]); [| done]. by destruct H as (_ & _ & -> & ?).
Qed.

(** C16: Decoding inverts encoding.  For every event whose fields are in the
    width of their Rust types, [decode_output] on its encoding, followed by
    anything, returns that event and the length of the encoding, so a decoder
    positioned at an event always finds its end. *)
Theorem canonical_roundtrip e post :
  output_wf e -> Forall is_byte post ->
  Z.of_nat (length (output_bytes e ++ post)) <= u64_max ->
  decode_output (encode_output e [] ++ post) = Ret (Ok (e, length (encode_output e []))).
Proof.
  intros He Hp Hs. unfold decode_output, encode_output. simpl.
  rewrite (reads_new _ _ e); [done | by apply reads_output | | done].
  apply Forall_app_2; [apply output_bytes_bytes | done].
Qed.

(** Decoding is total and canonical.  On any bytes, well-formed or not,
    [decode_output] returns without panicking; when it returns an event, the
    bytes it consumed are exactly the encoding of that event (there is no
    second spelling of an event), and every field is in the width of its type. *)
Theorem decode_output_canonical bs :
  Forall is_byte bs -> Z.of_nat (length bs) <= u64_max ->
  exists result, decode_output bs = Ret result
    /\ forall e n, result = Ok (e, n) ->
         output_wf e /\ n = length (encode_output e []) /\ (n <= length bs)%nat
         /\ take n bs = encode_output e [].
Proof.
  intros Hb Hs. unfold decode_output.
  destruct (parses_new _ _ bs parses_output Hb Hs) as ([[e r] | err] & -> & H); simpl;
    eexists; (split; [done |]); intros ? ? [=]; subst.
  destruct H as (Hl & _ & Htake & Hwf). unfold encode_output. simpl.
  rewrite <- Htake, length_take_le by done. done.
Qed.

(** ** Witnesses *)

Definition sample_event : OutputEvent.t :=
  OutputEvent.Report
    (mkExecutionReport 7 3 99 1 2 40 41 0 ReportKind.Rejected OrderState.Cancelled Side.Sell
       OrderType.Limit (-5) 10 0 0 0 0 (Some RejectReason.PriceCollar)).

Lemma canonical_roundtrip_witness :
  decode_output (encode_output sample_event [] ++ [255]) = Ret (Ok (sample_event, 110%nat)).
Proof.
  apply (canonical_roundtrip sample_event [255]).
  - by constructor.
  - by repeat constructor.
  - by vm_compute.
Defined.

Lemma decode_output_canonical_witness :
  exists result, decode_output [3; 1; 2] = Ret result
    /\ forall e n, result = Ok (e, n) ->
         output_wf e /\ n = length (encode_output e []) /\ (n <= 3)%nat
         /\ take n [3; 1; 2] = encode_output e [].
Proof. apply (decode_output_canonical [3; 1; 2]); [by repeat constructor | done]. Defined.
