(* ===== verification/Codec.v ===== *)
(** The little-endian feed format ([crates/protocol/src/codec.rs]): the file
    header with its instrument table and the checksummed frames.

    The checksum is [crc32fast::hash], code of another package: it is the
    parameter [crc32] of the encoders and decoders. *)

From S2P Require Import Prelude Enums Ids Events Read Canonical.

(** [b"RLTL"]. *)
Definition MAGIC : bytes := [82; 76; 84; 76].
Definition FORMAT_MAJOR : Z := 1.
Definition FORMAT_MINOR : Z := 0.
Definition ENDIAN_MARKER : Z := 4660.
Definition SCHEMA_VERSION : Z := 1.
Definition MAX_FRAME_LEN : Z := 4096.
Definition MAX_INSTRUMENTS : Z := 256.
Definition FRAME_PREFIX_LEN : nat := 36.
Definition FRAME_CRC_LEN : nat := 4.
Definition INSTRUMENT_LEN : nat := 30.

(** [value as u16] and [value as u32] of a [usize]. *)
Definition as_u16 (n : nat) : Z := Z.of_nat n mod 2 ^ 16.
Definition as_u32 (n : nat) : Z := Z.of_nat n mod 2 ^ 32.

(** [out[i..i + bs.len()].copy_from_slice(&bs)]; out of range panics. *)
Definition copy_at (out : bytes) (i : nat) (bs : bytes) : res bytes :=
  if (i + length bs <=? length out)%nat
  then Ret (take i out ++ bs ++ drop (i + length bs) out) else Panic.

(** * Data *)

Record InstrumentSpec := mkInstrumentSpec {
  is_id : InstrumentId;
  is_symbol : bytes;
  is_tick_size : Z;
  is_lot_size : Z;
  is_price_scale : Z;
  is_quantity_scale : Z
}.

(** [InstrumentSpec::new]: the symbol's bytes, cut or zero-padded to eight. *)
Definition instrument_spec_new (id : Z) (symbol : bytes) (tick_size lot_size : Z)
  : res InstrumentSpec :=
  let len := Nat.min (length symbol) 8 in
  let! s := slice symbol 0 len in
  let! padded := copy_at (replicate 8 0) 0 s in
  Ret (mkInstrumentSpec id padded tick_size lot_size 2 0).

Record FileHeader := mkFileHeader {
  fh_run_id : Z;
  fh_seed : Z;
  fh_start_wall_time_ns : Z;
  fh_instruments : list InstrumentSpec
}.

Module FrameBody.

Inductive t :=
| SnapshotBegin (snapshot_seq : Z)
| SnapshotLevel (side : Side.t) (price : PriceTicks) (quantity : QuantityLots)
| SnapshotEnd (snapshot_seq : Z) (level_count : Z) (state_crc : Z)
| LevelSet (side : Side.t) (price : PriceTicks) (quantity : QuantityLots)
| MarketTrade (aggressor : Side.t) (price : PriceTicks) (quantity : QuantityLots)
| Heartbeat
| FeedReset (new_epoch : Z)
| OrderRequest (request : Events.OrderRequest).

Definition message_type (b : t) : Z :=
  match b with
  | SnapshotBegin _ => 1
  | SnapshotLevel _ _ _ => 2
  | SnapshotEnd _ _ _ => 3
  | LevelSet _ _ _ => 4
  | MarketTrade _ _ _ => 5
  | Heartbeat => 6
  | FeedReset _ => 7
  | OrderRequest _ => 8
  end.

End FrameBody.

Record Frame := mkFrame {
  fr_source_seq : Z;
  fr_source_time_ns : Z;
  fr_recv_time_ns : Z;
  fr_instrument : InstrumentId;
  fr_body : FrameBody.t
}.

(** * Payloads *)

Definition level_bytes (side : Side.t) (price quantity : Z) : bytes :=
  [Side.wire side] ++ le_bytes 8 (as_u64 price) ++ le_bytes 8 quantity.

Definition request_bytes (request : OrderRequest) : bytes :=
  [RequestKind.wire (req_kind request)] ++ [Side.wire (req_side request)]
  ++ [OrderType.wire (req_order_type request)] ++ le_bytes 4 (req_account request)
  ++ le_bytes 8 (req_client_order_id request) ++ le_bytes 8 (req_target_client_order_id request)
  ++ le_bytes 8 (req_request_id request) ++ le_bytes 8 (req_client_seq request)
  ++ le_bytes 8 (as_u64 (req_price request)) ++ le_bytes 8 (req_quantity request).

Definition payload_bytes (body : FrameBody.t) : bytes :=
  match body with
  | FrameBody.SnapshotBegin snapshot_seq => le_bytes 8 snapshot_seq
  | FrameBody.SnapshotLevel side price quantity
  | FrameBody.LevelSet side price quantity => level_bytes side price quantity
  | FrameBody.SnapshotEnd snapshot_seq level_count state_crc =>
      le_bytes 8 snapshot_seq ++ le_bytes 4 level_count ++ le_bytes 4 state_crc
  | FrameBody.MarketTrade aggressor price quantity => level_bytes aggressor price quantity
  | FrameBody.Heartbeat => []
  | FrameBody.FeedReset new_epoch => le_bytes 8 new_epoch
  | FrameBody.OrderRequest request => request_bytes request
  end.

Definition encode_payload (body : FrameBody.t) (out : bytes) : bytes :=
  out ++ payload_bytes body.

Definition read_level : Parser (Side.t * PriceTicks * QuantityLots) :=
  let@ side := read_side in
  let@ price := Reader.i64 in
  let@ quantity := Reader.u64 in
  pret (side, price, quantity).

Definition read_request (instrument : InstrumentId) : Parser OrderRequest :=
  let@ kind := (let@ v := Reader.u8 in Reader.valid (RequestKind.from_wire v)) in
  let@ side := read_side in
  let@ order_type := read_order_type in
  let@ account := Reader.u32 in
  let@ client_order_id := Reader.u64 in
  let@ target_client_order_id := Reader.u64 in
  let@ request_id := Reader.u64 in
  let@ client_seq := Reader.u64 in
  let@ price := Reader.i64 in
  let@ quantity := Reader.u64 in
  pret (mkOrderRequest kind account instrument request_id client_seq client_order_id
          target_client_order_id side order_type price quantity).

Definition decode_payload (message_type : Z) (instrument : InstrumentId) : Parser FrameBody.t :=
  match message_type with
  | 1 => let@ snapshot_seq := Reader.u64 in pret (FrameBody.SnapshotBegin snapshot_seq)
  | 2 =>
      let@ (side, price, quantity) := read_level in
      pret (FrameBody.SnapshotLevel side price quantity)
  | 3 =>
      let@ snapshot_seq := Reader.u64 in
      let@ level_count := Reader.u32 in
      let@ state_crc := Reader.u32 in
      pret (FrameBody.SnapshotEnd snapshot_seq level_count state_crc)
  | 4 =>
      let@ (side, price, quantity) := read_level in
      pret (FrameBody.LevelSet side price quantity)
  | 5 =>
      let@ (aggressor, price, quantity) := read_level in
      if QuantityLots.is_zero quantity then Reader.invalid_field
      else pret (FrameBody.MarketTrade aggressor price quantity)
  | 6 => pret FrameBody.Heartbeat
  | 7 => let@ new_epoch := Reader.u64 in pret (FrameBody.FeedReset new_epoch)
  | 8 =>
      let@ request := read_request instrument in
      pret (FrameBody.OrderRequest request)
  | _ => let@ offset := Reader.offset in pfail (decode_error UnknownMessageType offset)
  end.

(** * Frames *)

Section WithCrc.
Context (crc32 : bytes -> Z).

(** [Frame::encode]: the length field is written as zero and patched once the
    length is known, then the checksum of everything written is appended. *)
Definition encode_frame (frame : Frame) (out : bytes) : res bytes :=
  let start := length out in
  let out := out ++ le_bytes 4 0 ++ [FrameBody.message_type (fr_body frame)] ++ [0]
                 ++ le_bytes 2 SCHEMA_VERSION ++ le_bytes 8 (fr_source_seq frame)
                 ++ le_bytes 8 (fr_source_time_ns frame) ++ le_bytes 8 (fr_recv_time_ns frame)
                 ++ le_bytes 4 (fr_instrument frame) in
  let out := encode_payload (fr_body frame) out in
  let frame_len := as_u32 (length out - start + FRAME_CRC_LEN) in
  let! out := copy_at out start (le_bytes 4 frame_len) in
  let! written := slice out start (length out) in
  Ret (out ++ le_bytes 4 (crc32 written)).

(** The body of [Frame::decode] once the checksum holds. *)
Definition read_frame : Parser Frame :=
  let@ _ := Reader.skip 4 in
  let@ message_type := Reader.u8 in
  let@ flags := Reader.u8 in
  if negb (flags =? 0) then pfail (decode_error ReservedFlags 5)
  else
    let@ version := Reader.u16 in
    if negb (version =? SCHEMA_VERSION) then pfail (decode_error UnsupportedVersion 6)
    else
      let@ source_seq := Reader.u64 in
      let@ source_time_ns := Reader.u64 in
      let@ recv_time_ns := Reader.u64 in
      let@ instrument := Reader.u32 in
      let@ body := pmap_err (fun e => with_source_seq e source_seq)
                     (decode_payload message_type instrument) in
      at_end (fun offset => with_source_seq (decode_error PayloadLength offset) source_seq)
        (mkFrame source_seq source_time_ns recv_time_ns instrument body).

(** [u32::from_le_bytes([l[i], l[i + 1], l[i + 2], l[i + 3]])]. *)
Definition u32_at (l : bytes) (i : nat) : res Z :=
  let! b0 := index l i in
  let! b1 := index l (i + 1) in
  let! b2 := index l (i + 2) in
  let! b3 := index l (i + 3) in
  Ret (from_le [b0; b1; b2; b3]).

(** [Frame::decode]. *)
Definition decode_frame (bs : bytes) : res (Result (Frame * nat) DecodeError) :=
  if (length bs <? 4)%nat then Ret (Err (decode_error Truncated 0))
  else
    let! frame_len := u32_at bs 0 in
    if (frame_len <? Z.of_nat (FRAME_PREFIX_LEN + FRAME_CRC_LEN)) || (MAX_FRAME_LEN <? frame_len)
    then Ret (Err (decode_error FrameLength 0))
    else
      let frame_len := Z.to_nat frame_len in
      if (length bs <? frame_len)%nat then Ret (Err (decode_error Truncated 0))
      else
        let! frame := slice bs 0 frame_len in
        let! stored_crc := u32_at frame (frame_len - 4) in
        let! covered := slice frame 0 (frame_len - 4) in
        if negb (stored_crc =? crc32 covered)
        then Ret (Err (decode_error Checksum (frame_len - 4)))
        else
          let? (f, _) := read_frame (Reader.new covered) in
          Ret (Ok (f, frame_len)).

(** * The file header *)

Definition instrument_bytes (i : InstrumentSpec) : bytes :=
  le_bytes 4 (is_id i) ++ is_symbol i ++ le_bytes 8 (as_u64 (is_tick_size i))
  ++ le_bytes 8 (is_lot_size i) ++ [is_price_scale i] ++ [is_quantity_scale i].

(** [FileHeader::encode]. *)
Definition encode_header (h : FileHeader) (out : bytes) : res bytes :=
  let start := length out in
  let header_len := (46 + length (fh_instruments h) * INSTRUMENT_LEN + 4)%nat in
  let out := out ++ MAGIC ++ le_bytes 2 FORMAT_MAJOR ++ le_bytes 2 FORMAT_MINOR
                 ++ le_bytes 2 ENDIAN_MARKER ++ le_bytes 2 (as_u16 header_len)
                 ++ le_bytes 16 (fh_run_id h) ++ le_bytes 8 (fh_seed h)
                 ++ le_bytes 8 (fh_start_wall_time_ns h)
                 ++ le_bytes 2 (as_u16 (length (fh_instruments h)))
                 ++ mjoin (instrument_bytes <$> fh_instruments h) in
  let! written := slice out start (length out) in
  Ret (out ++ le_bytes 4 (crc32 written)).

(** One row of the instrument table, given the rows before it. *)
Definition read_instrument (instruments : list InstrumentSpec) : Parser InstrumentSpec :=
  let@ id := Reader.u32 in
  let@ symbol := Reader.take 8 in
  let@ tick_size := Reader.i64 in
  let@ lot_size := Reader.u64 in
  let@ price_scale := Reader.u8 in
  let@ quantity_scale := Reader.u8 in
  let@ offset := Reader.offset in
  if (tick_size <=? 0) || (lot_size =? 0) then pfail (decode_error InstrumentTable offset)
  else if existsb (fun existing => is_id existing =? id) instruments
  then pfail (decode_error InstrumentTable offset)
  else pret (mkInstrumentSpec id symbol tick_size lot_size price_scale quantity_scale).

(** [for _ in 0..instrument_count]. *)
Fixpoint read_instruments (count : nat) (instruments : list InstrumentSpec)
  : Parser (list InstrumentSpec) :=
  match count with
  | O => pret instruments
  | S count =>
      let@ i := read_instrument instruments in
      read_instruments count (instruments ++ [i])
  end.

(** The body of [FileHeader::decode] on its cursor over [bs]. *)
Definition read_header (bs : bytes) : Parser (FileHeader * nat) :=
  let@ magic := Reader.take 4 in
  if negb (bool_decide (magic = MAGIC)) then pfail (decode_error BadMagic 0)
  else
    let@ major := Reader.u16 in
    let@ minor := Reader.u16 in
    if negb (major =? FORMAT_MAJOR) || (FORMAT_MINOR <? minor)
    then pfail (decode_error UnsupportedVersion 4)
    else
      let@ marker := Reader.u16 in
      if negb (marker =? ENDIAN_MARKER) then pfail (decode_error BadEndian 8)
      else
        let@ header_len := Reader.u16 in
        let header_len := Z.to_nat header_len in
        if (header_len <? 50)%nat || (length bs <? header_len)%nat
        then pfail (decode_error Truncated 10)
        else
          let@ run_id := Reader.u128 in
          let@ seed := Reader.u64 in
          let@ start_wall_time_ns := Reader.u64 in
          let@ instrument_count := Reader.u16 in
          if MAX_INSTRUMENTS <? instrument_count
          then pfail (decode_error InstrumentTable 44)
          else
            let instrument_count := Z.to_nat instrument_count in
            if negb (header_len =? 46 + instrument_count * INSTRUMENT_LEN + 4)%nat
            then pfail (decode_error InstrumentTable 10)
            else
              let@ instruments := read_instruments instrument_count [] in
              let@ covered := plift (slice bs 0 (header_len - 4)) in
              let@ stored := Reader.u32 in
              if negb (stored =? crc32 covered)
              then pfail (decode_error Checksum (header_len - 4))
              else pret (mkFileHeader run_id seed start_wall_time_ns instruments, header_len).

(** [FileHeader::decode]. *)
Definition decode_header (bs : bytes) : res (Result (FileHeader * nat) DecodeError) :=
  let? (result, _) := read_header bs (Reader.new bs) in
  Ret (Ok result).

End WithCrc.
