(* ===== verification/CodecProps.v ===== *)
(** Round trips and totality of the feed format, for any checksum function
    whose values are [u32]s. *)

From S2P Require Import Prelude Enums Ids Events Read Canonical CanonicalProps Codec.

(** * Well-formed frames

    The widths of the Rust types, and the two facts the format itself asks
    for: a trade has a quantity, and a request names the frame's instrument
    (the payload does not repeat it). *)

Definition body_wf (instrument : InstrumentId) (body : FrameBody.t) : Prop :=
  match body with
  | FrameBody.SnapshotBegin snapshot_seq => in_u64 snapshot_seq
  | FrameBody.SnapshotLevel _ price quantity
  | FrameBody.LevelSet _ price quantity => in_i64 price /\ in_u64 quantity
  | FrameBody.SnapshotEnd snapshot_seq level_count state_crc =>
      in_u64 snapshot_seq /\ in_u32 level_count /\ in_u32 state_crc
  | FrameBody.MarketTrade _ price quantity => in_i64 price /\ in_u64 quantity /\ quantity <> 0
  | FrameBody.Heartbeat => True
  | FrameBody.FeedReset new_epoch => in_u64 new_epoch
  | FrameBody.OrderRequest request => request_wf request /\ req_instrument request = instrument
  end.

Record frame_wf (f : Frame) : Prop := {
  fwf_source_seq : in_u64 (fr_source_seq f);
  fwf_source_time : in_u64 (fr_source_time_ns f);
  fwf_recv_time : in_u64 (fr_recv_time_ns f);
  fwf_instrument : in_u32 (fr_instrument f);
  fwf_body : body_wf (fr_instrument f) (fr_body f)
}.

(** Continues after a test of the decoder that succeeded. *)
Ltac pass_check :=
  try change (negb true) with false; try change (negb true || false) with false;
  try change (false || false) with false; cbv iota.

(** * Payloads *)

Lemma reads_level s p q :
  in_i64 p -> in_u64 q -> reads read_level (level_bytes s p q) (s, p, q).
Proof. intros. unfold read_level, level_bytes. read_fields. Qed.

Lemma parses_level :
  parses read_level (fun '(s, p, q) bs => bs = level_bytes s p q /\ in_i64 p /\ in_u64 q).
Proof.
  unfold read_level. parse_fields. apply parses_ret. unfold level_bytes. by rewrite app_nil_r.
Qed.

Lemma reads_request_kind k :
  reads (let@ v := Reader.u8 in Reader.valid (RequestKind.from_wire v)) [RequestKind.wire k] k.
Proof. eapply reads_end; [apply reads_u8 | by apply reads_valid; destruct k]. Qed.

Lemma parses_request_kind :
  parses (let@ v := Reader.u8 in Reader.valid (RequestKind.from_wire v))
    (fun k bs => bs = [RequestKind.wire k] /\ True).
Proof.
  eapply parses_bind; [apply parses_u8 |]. intros v bs [-> Hv]. apply parses_valid.
  intros t Ht. split; [| done]. simpl. f_equal.
  unfold RequestKind.from_wire in Ht. by repeat case_match; simplify_eq.
Qed.

#[export] Hint Resolve reads_level reads_request_kind : reads.
#[export] Hint Resolve parses_level parses_request_kind : parses.

Lemma reads_request i q :
  request_wf q -> req_instrument q = i -> reads (read_request i) (request_bytes q) q.
Proof. intros [] <-. destruct q. unfold read_request, request_bytes. read_fields. Qed.

Lemma parses_request i :
  in_u32 i ->
  parses (read_request i)
    (fun q bs => bs = request_bytes q /\ request_wf q /\ req_instrument q = i).
Proof.
  intros Hi. unfold read_request. parse_fields. apply parses_ret. unfold request_bytes.
  rewrite app_nil_r. split_and!; [done | by constructor | done].
Qed.

#[export] Hint Resolve reads_request : reads.
#[export] Hint Resolve parses_request : parses.

Lemma reads_payload i b :
  body_wf i b -> reads (decode_payload (FrameBody.message_type b) i) (payload_bytes b) b.
Proof.
  intros H. unfold payload_bytes.
  destruct b; unfold body_wf in H; destruct_and?; unfold decode_payload, FrameBody.message_type;
    read_fields.
  all: try (eapply reads_end; [by apply reads_level | cbv beta iota]).
  all: try apply reads_ret.
  unfold QuantityLots.is_zero. rewrite (proj2 (Z.eqb_neq _ _)) by done. apply reads_ret.
Qed.

Lemma parses_payload mt i :
  in_u32 i ->
  parses (decode_payload mt i)
    (fun b bs => mt = FrameBody.message_type b /\ bs = payload_bytes b /\ body_wf i b).
Proof.
  intros Hi. unfold decode_payload. repeat case_match; try apply parses_unknown; parse_fields;
    try (eapply parses_bind; [apply parses_level |]; intros [[side price] quantity] bs' (-> & Hp & Hq));
    try (apply parses_ret; rewrite ?app_nil_r; by unfold body_wf).
  unfold QuantityLots.is_zero. destruct (Z.eqb_spec quantity 0); [apply parses_invalid |].
  apply parses_ret. by rewrite app_nil_r.
Qed.

Lemma payload_bytes_length b : (length (payload_bytes b) <= 55)%nat.
Proof. destruct b; vm_compute; lia. Qed.

Lemma is_byte_request_kind k : is_byte (RequestKind.wire k).
Proof. by destruct k. Qed.

#[export] Hint Resolve is_byte_request_kind : wire_bytes.

Lemma payload_bytes_bytes b : Forall is_byte (payload_bytes b).
Proof. destruct b; unfold payload_bytes, level_bytes, request_bytes; solve_bytes. Qed.

Lemma is_byte_message_type b : is_byte (FrameBody.message_type b).
Proof. by destruct b. Qed.

#[export] Hint Resolve payload_bytes_bytes is_byte_message_type : wire_bytes.

(** * Frames *)

(** Everything after the length field. *)
Definition frame_fields (f : Frame) : bytes :=
  [FrameBody.message_type (fr_body f)] ++ [0] ++ le_bytes 2 SCHEMA_VERSION
  ++ le_bytes 8 (fr_source_seq f) ++ le_bytes 8 (fr_source_time_ns f)
  ++ le_bytes 8 (fr_recv_time_ns f) ++ le_bytes 4 (fr_instrument f) ++ payload_bytes (fr_body f).

(** What the checksum covers. *)
Definition frame_covered (f : Frame) : bytes :=
  le_bytes 4 (Z.of_nat (length (frame_fields f) + 8)) ++ frame_fields f.

Lemma frame_fields_length f : length (frame_fields f) = (32 + length (payload_bytes (fr_body f)))%nat.
Proof. unfold frame_fields. rewrite !length_app, !le_bytes_length. simpl. lia. Qed.

Lemma frame_covered_length f :
  length (frame_covered f) = (36 + length (payload_bytes (fr_body f)))%nat.
Proof. unfold frame_covered. rewrite length_app, le_bytes_length, frame_fields_length. lia. Qed.

Lemma frame_covered_bytes f : Forall is_byte (frame_covered f).
Proof. unfold frame_covered, frame_fields. solve_bytes. Qed.

Lemma reads_frame f : frame_wf f -> reads_all read_frame (frame_covered f) f.
Proof.
  intros [? ? ? ? Hb]. destruct f as [ss st rt i b]. simpl in *.
  unfold read_frame, frame_covered, frame_fields. simpl fr_body.
  eapply reads_all_bind; [eapply reads_end; [apply reads_take_n, le_bytes_length | apply reads_ret] |].
  eapply reads_all_bind; [apply reads_u8 |].
  eapply reads_all_bind; [apply reads_u8 |]. simpl negb. cbv iota.
  eapply reads_all_bind; [by apply reads_u16 |]. simpl negb. cbv iota.
  do 4 (eapply reads_all_bind; [solve [eauto with reads] |]).
  rewrite <- (app_nil_r (payload_bytes b)).
  eapply reads_all_bind; [by apply reads_map_err, reads_payload | apply reads_at_end].
Qed.

Lemma parses_frame :
  parses_all read_frame
    (fun f bs => frame_wf f /\ exists len, length len = 4%nat /\ bs = len ++ frame_fields f).
Proof.
  unfold read_frame.
  eapply parses_all_bind; [apply parses_skip |]. intros [] len Hlen.
  eapply parses_all_bind; [apply parses_u8 |]. intros mt ? [-> Hmt].
  eapply parses_all_bind; [apply parses_u8 |]. intros fl ? [-> Hfl].
  destruct (Z.eqb_spec fl 0) as [-> |]; [| apply parses_all_fail]. simpl negb. cbv iota.
  eapply parses_all_bind; [apply parses_u16 |]. intros ver ? [-> Hver].
  destruct (Z.eqb_spec ver SCHEMA_VERSION) as [-> |]; [| apply parses_all_fail].
  simpl negb. cbv iota.
  eapply parses_all_bind; [apply parses_u64 |]. intros ss ? [-> Hss].
  eapply parses_all_bind; [apply parses_u64 |]. intros st ? [-> Hst].
  eapply parses_all_bind; [apply parses_u64 |]. intros rt ? [-> Hrt].
  eapply parses_all_bind; [apply parses_u32 |]. intros i ? [-> Hi].
  eapply parses_all_bind; [by apply parses_map_err, parses_payload |]. intros b ? (-> & -> & Hb).
  apply parses_at_end. split; [done |]. exists len. split; [done |]. by rewrite app_nil_r.
Qed.

(** Reading a little-endian [u32] out of a longer string. *)
Lemma u32_at_app pre v post :
  in_u32 v -> u32_at (pre ++ le_bytes 4 v ++ post) (length pre) = Ret v.
Proof.
  intros Hv. unfold u32_at, index.
  assert (H : forall k, (k < 4)%nat ->
            (pre ++ le_bytes 4 v ++ post) !! (length pre + k)%nat = le_bytes 4 v !! k).
  { intros k Hk. rewrite lookup_app_r by lia.
    replace (length pre + k - length pre)%nat with k by lia.
    apply lookup_app_l. by rewrite le_bytes_length. }
  rewrite <- (Nat.add_0_r (length pre)) at 1. rewrite !H by lia. cbn [le_bytes lookup list_lookup].
  simpl unwrap. rewrite !rbind_ret. f_equal. apply (from_le_le_bytes 4). mach.
Qed.

Lemma u32_at_inv bs i :
  (i + 4 <= length bs)%nat -> Forall is_byte bs ->
  exists v, u32_at bs i = Ret v /\ in_u32 v /\ take 4 (drop i bs) = le_bytes 4 v.
Proof.
  intros Hl Hb. destruct (drop i bs) as [| b0 [| b1 [| b2 [| b3 post]]]] eqn:E;
    try (apply (f_equal length) in E; rewrite length_drop in E; simpl in E; lia).
  assert (H : forall k, bs !! (i + k)%nat = (b0 :: b1 :: b2 :: b3 :: post) !! k)
    by (intros; by rewrite <- E, lookup_drop).
  apply (Forall_drop _ i) in Hb. rewrite E in Hb.
  assert (Hb4 : Forall is_byte [b0; b1; b2; b3]) by (apply (Forall_take _ 4) in Hb; done).
  exists (from_le [b0; b1; b2; b3]). unfold u32_at, index.
  rewrite <- (Nat.add_0_r i) at 1. rewrite !H. split_and!; [done | |].
  - pose proof (from_le_bound _ Hb4). simpl length in *. mach.
  - symmetry. by apply (le_bytes_from_le [b0; b1; b2; b3]).
Qed.

(** * The instrument table *)

Record spec_wf (i : InstrumentSpec) : Prop := {
  swf_id : in_u32 (is_id i);
  swf_symbol : length (is_symbol i) = 8%nat;
  swf_symbol_bytes : Forall is_byte (is_symbol i);
  swf_tick : in_i64 (is_tick_size i);
  swf_tick_pos : 0 < is_tick_size i;
  swf_lot : in_u64 (is_lot_size i);
  swf_lot_pos : is_lot_size i <> 0;
  swf_price_scale : is_byte (is_price_scale i);
  swf_quantity_scale : is_byte (is_quantity_scale i)
}.

Record header_wf (h : FileHeader) : Prop := {
  hwf_run_id : in_u128 (fh_run_id h);
  hwf_seed : in_u64 (fh_seed h);
  hwf_start : in_u64 (fh_start_wall_time_ns h);
  hwf_specs : Forall spec_wf (fh_instruments h);
  hwf_ids : NoDup (is_id <$> fh_instruments h);
  hwf_count : (length (fh_instruments h) <= 256)%nat
}.

Definition table_bytes (l : list InstrumentSpec) : bytes := mjoin (instrument_bytes <$> l).

Lemma table_bytes_cons i l : table_bytes (i :: l) = instrument_bytes i ++ table_bytes l.
Proof. done. Qed.

Lemma existsb_id i l :
  existsb (fun existing => is_id existing =? i) l = false <-> i ∉ (is_id <$> l).
Proof.
  induction l as [| x l IH]; simpl; [split; [intros _; apply not_elem_of_nil | done] |].
  rewrite orb_false_iff, IH, not_elem_of_cons, Z.eqb_neq. naive_solver.
Qed.

Lemma reads_instrument l i :
  spec_wf i -> is_id i ∉ (is_id <$> l) -> reads (read_instrument l) (instrument_bytes i) i.
Proof.
  intros [] Hl. destruct i as [id sym tick lot ps qs]. simpl in *.
  unfold read_instrument, instrument_bytes. simpl is_id.
  eapply reads_bind; [by apply reads_u32 |].
  eapply reads_bind; [by apply reads_take_n |].
  eapply reads_bind; [by apply reads_i64 |].
  eapply reads_bind; [by apply reads_u64 |].
  eapply reads_bind; [apply reads_u8 |].
  eapply reads_end; [apply reads_u8 |].
  eapply reads_end_offset. intros o. rewrite (proj2 (Z.leb_gt _ _)), (proj2 (Z.eqb_neq _ _)) by done.
  simpl orb. cbv iota. rewrite (proj2 (existsb_id _ _) Hl). apply reads_ret.
Qed.

Lemma parses_instrument l :
  parses (read_instrument l)
    (fun i bs => bs = instrument_bytes i /\ spec_wf i /\ is_id i ∉ (is_id <$> l)).
Proof.
  unfold read_instrument. eapply parses_bind; [apply parses_u32 |]. intros id ? [-> Hid].
  eapply parses_bind; [apply parses_take |]. intros sym ? (-> & Hsym & Hsb).
  eapply parses_bind; [apply parses_i64 |]. intros tick ? [-> Htick].
  eapply parses_bind; [apply parses_u64 |]. intros lot ? [-> Hlot].
  eapply parses_bind; [apply parses_u8 |]. intros ps ? [-> Hps].
  eapply parses_bind; [apply parses_u8 |]. intros qs ? [-> Hqs].
  apply parses_offset. intros o.
  destruct (Z.leb_spec tick 0); [apply parses_fail |].
  destruct (Z.eqb_spec lot 0); [apply parses_fail |]. simpl orb. cbv iota.
  destruct (existsb _ _) eqn:E; [apply parses_fail |]. apply existsb_id in E.
  apply parses_ret. by rewrite app_nil_r.
Qed.

Lemma reads_instruments l acc :
  Forall spec_wf l -> NoDup (is_id <$> acc ++ l) ->
  reads (read_instruments (length l) acc) (table_bytes l) (acc ++ l).
Proof.
  revert acc. induction l as [| i l IH]; intros acc Hl Hn; simpl.
  - rewrite app_nil_r. apply reads_ret.
  - apply Forall_cons in Hl as [Hi Hl]. rewrite table_bytes_cons.
    eapply reads_bind.
    + apply reads_instrument; [done |]. rewrite fmap_app, NoDup_app in Hn.
      destruct Hn as (_ & Hn & _). intros Hx. apply (Hn _ Hx). simpl. left.
    + replace (acc ++ i :: l) with ((acc ++ [i]) ++ l) in Hn |- * by (by rewrite <- app_assoc).
      by apply IH.
Qed.

Lemma parses_instruments n acc :
  NoDup (is_id <$> acc) ->
  parses (read_instruments n acc)
    (fun l bs => exists l', l = acc ++ l' /\ length l' = n /\ bs = table_bytes l'
                 /\ Forall spec_wf l' /\ NoDup (is_id <$> l)).
Proof.
  revert acc. induction n as [| n IH]; intros acc Hn; simpl.
  - apply parses_ret. exists []. by rewrite app_nil_r.
  - eapply parses_bind; [apply parses_instrument |]. intros i bs (-> & Hi & Hni).
    eapply parses_mono.
    + apply IH. rewrite fmap_app. apply NoDup_app. split_and!; [done | | apply NoDup_singleton].
      simpl. intros x Hx ->%list_elem_of_singleton. done.
    + intros l bs (l' & -> & <- & -> & Hl' & Hnd). exists (i :: l').
      rewrite <- app_assoc in Hnd |- *. split_and!; try done. by constructor.
Qed.

Lemma table_bytes_length l :
  Forall spec_wf l -> length (table_bytes l) = (length l * 30)%nat.
Proof.
  induction 1 as [| i l Hi _ IH]; [done |].
  rewrite table_bytes_cons, length_app, IH. unfold instrument_bytes.
  rewrite !length_app, !le_bytes_length, (swf_symbol _ Hi). simpl. lia.
Qed.

Lemma table_bytes_bytes l : Forall spec_wf l -> Forall is_byte (table_bytes l).
Proof.
  induction 1 as [| i l [] _ IH]; [apply Forall_nil_2 |]. rewrite table_bytes_cons.
  apply Forall_app_2; [| exact IH]. unfold instrument_bytes. solve_bytes.
Qed.

Section WithCrc.
Context (crc32 : bytes -> Z).
Hypothesis crc32_u32 : forall bs, in_u32 (crc32 bs).

(** The bytes of one frame. *)
Definition frame_bytes (f : Frame) : bytes :=
  frame_covered f ++ le_bytes 4 (crc32 (frame_covered f)).

Lemma frame_bytes_length f : length (frame_bytes f) = (40 + length (payload_bytes (fr_body f)))%nat.
Proof. unfold frame_bytes. rewrite length_app, frame_covered_length, le_bytes_length. lia. Qed.

Lemma frame_bytes_bytes f : Forall is_byte (frame_bytes f).
Proof. apply Forall_app_2; [apply frame_covered_bytes | apply le_bytes_bytes]. Qed.

(** Patching the length field in place gives the frame's bytes. *)
Lemma encode_frame_eq f out : encode_frame crc32 f out = Ret (out ++ frame_bytes f).
Proof.
  unfold encode_frame, encode_payload, copy_at. pose proof (payload_bytes_length (fr_body f)) as Hp.
  set (fields := [FrameBody.message_type (fr_body f)] ++ _).
  replace ((out ++ le_bytes 4 0 ++ fields) ++ payload_bytes (fr_body f))
    with (out ++ le_bytes 4 0 ++ frame_fields f)
    by (unfold frame_fields, fields; by rewrite <- !app_assoc).
  assert (Hl : length (out ++ le_bytes 4 0 ++ frame_fields f)
               = (length out + 4 + length (frame_fields f))%nat)
    by (rewrite !length_app, le_bytes_length; lia).
  pose proof (frame_fields_length f) as Hf.
  rewrite le_bytes_length, Hl, (proj2 (Nat.leb_le _ _)) by lia. rewrite rbind_ret.
  replace (as_u32 _) with (Z.of_nat (length (frame_fields f) + 8))
    by (unfold as_u32, FRAME_CRC_LEN; rewrite Z.mod_small; lia).
  rewrite take_app_length, (app_assoc out (le_bytes 4 0)), drop_app_length'
    by (rewrite length_app, le_bytes_length; lia).
  fold (frame_covered f). unfold slice.
  rewrite (proj2 (Nat.leb_le _ _)), Nat.leb_refl by (rewrite length_app; lia). simpl.
  rewrite drop_app_length, length_app, firstn_all2 by lia.
  unfold frame_bytes. by rewrite app_assoc.
Qed.

(** What follows a correct length field and carries the checksum of what it
    covers goes to the reader. *)
Lemma decode_frame_sealed fields post :
  (32 <= length fields <= 4088)%nat ->
  let covered := le_bytes 4 (Z.of_nat (length fields + 8)) ++ fields in
  decode_frame crc32 ((covered ++ le_bytes 4 (crc32 covered)) ++ post)
  = let? (f, _) := read_frame (Reader.new covered) in Ret (Ok (f, (length fields + 8)%nat)).
Proof.
  intros Hl covered. set (sealed := covered ++ le_bytes 4 (crc32 covered)).
  assert (Hc : length covered = (length fields + 4)%nat)
    by (unfold covered; rewrite length_app, le_bytes_length; lia).
  assert (Hs : length sealed = (length fields + 8)%nat)
    by (unfold sealed; rewrite length_app, le_bytes_length; lia).
  assert (Hlen : u32_at (sealed ++ post) 0 = Ret (Z.of_nat (length fields + 8))).
  { unfold sealed, covered. rewrite <- !app_assoc. apply (u32_at_app []). mach. }
  unfold decode_frame. rewrite length_app, (proj2 (Nat.ltb_ge _ _)) by lia. rewrite Hlen, rbind_ret.
  unfold FRAME_PREFIX_LEN, FRAME_CRC_LEN, MAX_FRAME_LEN.
  rewrite (proj2 (Z.ltb_ge _ _)), (proj2 (Z.ltb_ge _ _)) by lia. simpl orb. cbv iota.
  rewrite Nat2Z.id, (proj2 (Nat.ltb_ge _ _)), <- Hs by lia.
  rewrite slice_prefix, rbind_ret, take_app_length by (rewrite length_app; lia).
  replace (length sealed - 4)%nat with (length covered) by lia.
  unfold sealed at 1. rewrite <- (app_nil_r (le_bytes 4 (crc32 covered))), u32_at_app, rbind_ret by done.
  rewrite slice_prefix, rbind_ret by lia. unfold sealed at 1 2.
  by rewrite take_app_length, Z.eqb_refl.
Qed.

Lemma decode_frame_bytes f post :
  frame_wf f -> decode_frame crc32 (frame_bytes f ++ post) = Ret (Ok (f, length (frame_bytes f))).
Proof.
  intros Hf. pose proof (payload_bytes_length (fr_body f)) as Hpl.
  pose proof (frame_fields_length f) as Hfl. pose proof (frame_covered_length f) as Hcl.
  unfold frame_bytes at 1, frame_covered. rewrite decode_frame_sealed by lia. fold (frame_covered f).
  rewrite (reads_frame f Hf); [| | by unfold rest; rewrite drop_0].
  - cbn [qbind]. rewrite frame_bytes_length, Hfl. do 3 f_equal. lia.
  - apply new_cursor_ok; [apply frame_covered_bytes | lia].
Qed.

(** What passes the length and checksum tests is covered by the frame. *)
Lemma covered_eq f len v bs n :
  length len = 4%nat -> take 4 bs = le_bytes 4 v -> n = Z.to_nat v -> 0 <= v ->
  (40 <= n <= length bs)%nat -> take (n - 4) bs = len ++ frame_fields f ->
  take (n - 4) bs = frame_covered f.
Proof.
  intros Hlen Hv -> Hv0 Hn E. rewrite E. unfold frame_covered. f_equal.
  assert (Hl : (Z.to_nat v - 4 = 4 + length (frame_fields f))%nat).
  { apply (f_equal length) in E. rewrite length_take, length_app, Hlen in E. lia. }
  replace (Z.of_nat (length (frame_fields f) + 8)) with v by lia.
  rewrite <- Hv. replace 4%nat with (Nat.min 4 (Z.to_nat v - 4)) by lia.
  rewrite <- take_take, E. symmetry. by apply take_app_length'.
Qed.

Lemma decode_frame_sound bs :
  Forall is_byte bs ->
  exists result, decode_frame crc32 bs = Ret result
    /\ match result with
       | Ok (f, n) => frame_wf f /\ n = length (frame_bytes f) /\ (n <= length bs)%nat
                      /\ take n bs = frame_bytes f
       | Err _ => True
       end.
Proof.
  intros Hb. unfold decode_frame.
  destruct (Nat.ltb_spec (length bs) 4); [by eexists |].
  destruct (u32_at_inv bs 0 ltac:(lia) Hb) as (v & -> & Hv & Htake). rewrite rbind_ret.
  unfold FRAME_PREFIX_LEN, FRAME_CRC_LEN, MAX_FRAME_LEN. change (Z.of_nat (36 + 4)) with 40.
  destruct (Z.ltb_spec v 40); [eexists; by split |].
  destruct (Z.ltb_spec 4096 v); [eexists; by split |]. simpl orb. cbv iota. destruct (Nat.ltb_spec (length bs) (Z.to_nat v)); [by eexists |].
  rewrite slice_prefix, rbind_ret by done. set (n := Z.to_nat v) in *.
  assert (Hn : length (take n bs) = n) by (rewrite length_take; lia).
  destruct (u32_at_inv (take n bs) (n - 4)) as (c & -> & Hc & Hct);
    [lia | by apply Forall_take |]. rewrite rbind_ret, slice_prefix, rbind_ret by lia.
  rewrite take_take. replace (Nat.min (n - 4) n) with (n - 4)%nat by lia.
  destruct (Z.eqb_spec c (crc32 (take (n - 4) bs))) as [-> |]; [| by eexists].
  simpl negb. cbv iota.
  destruct (parses_frame (Reader.new (take (n - 4) bs))) as (result & -> & Hres);
    [apply new_cursor_ok; [by apply Forall_take | rewrite length_take; lia] |].
  destruct result as [[f r] | e]; [| by eexists]. simpl qbind. eexists. split; [done |].
  destruct Hres as (Hf & len & Hlen & E). unfold rest in E. simpl in E. rewrite drop_0 in E.
  pose proof (covered_eq f len v bs n Hlen Htake eq_refl ltac:(lia) ltac:(lia) E) as Hcov.
  assert (Hfull : take n bs = frame_bytes f).
  { rewrite <- (take_drop (n - 4) (take n bs)), take_take.
    replace (Nat.min (n - 4) n) with (n - 4)%nat by lia. unfold frame_bytes. rewrite Hcov in Hct |- *.
    f_equal. rewrite <- Hct. symmetry. apply firstn_all2. rewrite length_drop. lia. }
  split_and!; try done. rewrite <- Hfull, length_take. lia.
Qed.

(** ** The header *)

(** What the header's checksum covers. *)
Definition header_covered (h : FileHeader) : bytes :=
  MAGIC ++ le_bytes 2 FORMAT_MAJOR ++ le_bytes 2 FORMAT_MINOR ++ le_bytes 2 ENDIAN_MARKER
  ++ le_bytes 2 (Z.of_nat (50 + length (fh_instruments h) * 30)) ++ le_bytes 16 (fh_run_id h)
  ++ le_bytes 8 (fh_seed h) ++ le_bytes 8 (fh_start_wall_time_ns h)
  ++ le_bytes 2 (Z.of_nat (length (fh_instruments h))) ++ table_bytes (fh_instruments h).

Definition header_bytes (h : FileHeader) : bytes :=
  header_covered h ++ le_bytes 4 (crc32 (header_covered h)).

Lemma header_covered_length h :
  Forall spec_wf (fh_instruments h) ->
  length (header_covered h) = (46 + length (fh_instruments h) * 30)%nat.
Proof.
  intros H. unfold header_covered. rewrite !length_app, !le_bytes_length, table_bytes_length by done.
  simpl. lia.
Qed.

Lemma header_bytes_length h :
  Forall spec_wf (fh_instruments h) ->
  length (header_bytes h) = (50 + length (fh_instruments h) * 30)%nat.
Proof.
  intros H. unfold header_bytes. rewrite length_app, header_covered_length, le_bytes_length by done.
  lia.
Qed.

Lemma header_bytes_bytes h :
  Forall spec_wf (fh_instruments h) -> Forall is_byte (header_bytes h).
Proof.
  intros H%table_bytes_bytes. unfold header_bytes, header_covered, MAGIC. solve_bytes.
Qed.

Lemma encode_header_eq h out :
  header_wf h -> encode_header crc32 h out = Ret (out ++ header_bytes h).
Proof.
  intros [_ _ _ Hs _ Hc]. unfold encode_header.
  replace (as_u16 (46 + length (fh_instruments h) * INSTRUMENT_LEN + 4))
    with (Z.of_nat (50 + length (fh_instruments h) * 30))
    by (unfold as_u16, INSTRUMENT_LEN; rewrite Z.mod_small; lia).
  replace (as_u16 (length (fh_instruments h))) with (Z.of_nat (length (fh_instruments h)))
    by (unfold as_u16; rewrite Z.mod_small; lia).
  fold (table_bytes (fh_instruments h)). fold (header_covered h). unfold slice.
  rewrite (proj2 (Nat.leb_le _ _)), Nat.leb_refl by (rewrite length_app; lia). simpl.
  rewrite drop_app_length, length_app, firstn_all2 by lia.
  unfold header_bytes. by rewrite app_assoc.
Qed.

Lemma reads_header h bs :
  header_wf h -> (length (header_bytes h) <= length bs)%nat ->
  take (length (header_covered h)) bs = header_covered h ->
  reads (read_header crc32 bs) (header_bytes h) (h, length (header_bytes h)).
Proof.
  intros [Hr Hse Hst Hs Hn Hc] Hlen Hbs. pose proof (header_bytes_length h Hs) as Hbl.
  pose proof (header_covered_length h Hs) as Hcl.
  unfold header_bytes at 1, header_covered at 1, read_header. rewrite <- !app_assoc.
  eapply reads_bind; [by apply reads_take_n |]. rewrite bool_decide_eq_true_2 by done.
  simpl negb. cbv iota.
  eapply reads_bind; [by apply reads_u16 |]. eapply reads_bind; [by apply reads_u16 |].
  simpl orb. cbv iota.
  eapply reads_bind; [by apply reads_u16 |]. simpl negb. cbv iota.
  eapply reads_bind; [apply reads_u16; mach |]. cbv zeta. rewrite Nat2Z.id.
  rewrite (proj2 (Nat.ltb_ge _ _)), (proj2 (Nat.ltb_ge _ _)) by lia. simpl orb. cbv iota.
  do 3 (eapply reads_bind; [solve [eauto with reads] |]).
  eapply reads_bind; [apply reads_u16; mach |]. unfold MAX_INSTRUMENTS.
  rewrite (proj2 (Z.ltb_ge _ _)), Nat2Z.id by lia. unfold INSTRUMENT_LEN.
  rewrite (proj2 (Nat.eqb_eq _ _)) by lia. simpl negb. cbv iota.
  eapply reads_bind; [by apply (reads_instruments _ []) |]. rewrite app_nil_l.
  replace (50 + length (fh_instruments h) * 30 - 4)%nat with (length (header_covered h)) by lia.
  rewrite slice_prefix, Hbs by lia.
  rewrite <- (app_nil_l (le_bytes 4 _)).
  eapply reads_bind; [apply reads_ret |].
  eapply reads_end; [by apply reads_u32 |]. rewrite Z.eqb_refl. simpl negb. cbv iota.
  rewrite Hbl. destruct h. apply reads_ret.
Qed.

Lemma parses_header bs :
  parses (read_header crc32 bs)
    (fun '(h, n) read => header_wf h /\ n = (50 + length (fh_instruments h) * 30)%nat
       /\ (n <= length bs)%nat
       /\ read = header_covered h ++ le_bytes 4 (crc32 (take (n - 4) bs))).
Proof.
  unfold read_header. eapply parses_bind; [apply parses_take |]. intros mg ? (<- & _ & _).
  destruct (bool_decide_reflect (mg = MAGIC)) as [-> |]; [| apply parses_fail].
  pass_check.
  eapply parses_bind; [apply parses_u16 |]. intros mj ? [-> _].
  eapply parses_bind; [apply parses_u16 |]. intros mn ? [-> Hmn].
  destruct (Z.eqb_spec mj FORMAT_MAJOR) as [-> |]; [| apply parses_fail].
  rewrite orb_false_l. destruct (Z.ltb_spec FORMAT_MINOR mn); [apply parses_fail |].
  assert (mn = FORMAT_MINOR) as -> by (unfold FORMAT_MINOR in *; mach). pass_check.
  eapply parses_bind; [apply parses_u16 |]. intros mk ? [-> _].
  destruct (Z.eqb_spec mk ENDIAN_MARKER) as [-> |]; [| apply parses_fail].
  pass_check.
  eapply parses_bind; [apply parses_u16 |]. intros hl ? [-> Hhl].
  destruct (Nat.ltb_spec (Z.to_nat hl) 50); [apply parses_fail |].
  destruct (Nat.ltb_spec (length bs) (Z.to_nat hl)); [apply parses_fail |]. pass_check.
  eapply parses_bind; [apply parses_u128 |]. intros run ? [-> Hrun].
  eapply parses_bind; [apply parses_u64 |]. intros seed ? [-> Hseed].
  eapply parses_bind; [apply parses_u64 |]. intros start ? [-> Hstart].
  eapply parses_bind; [apply parses_u16 |]. intros cnt ? [-> Hcnt]. unfold MAX_INSTRUMENTS.
  destruct (Z.ltb_spec 256 cnt); [apply parses_fail |]. cbv zeta. unfold INSTRUMENT_LEN.
  destruct (Nat.eqb_spec (Z.to_nat hl) (46 + Z.to_nat cnt * 30 + 4)) as [Eh |];
    [| apply parses_fail]. pass_check.
  eapply parses_bind; [apply parses_instruments, NoDup_nil_2 |].
  intros l ? (l' & El & Hl & -> & Hwf & Hnd). simpl in El. subst l'.
  rewrite slice_prefix by lia. apply (parses_bind _ _ _ _ (parses_ret _ (fun a b => b = [] /\ a = _)
    (conj eq_refl eq_refl))). intros ? ? [-> ->].
  eapply parses_bind; [apply parses_u32 |]. intros st ? [-> _].
  destruct (Z.eqb_spec st (crc32 (take (Z.to_nat hl - 4) bs))) as [-> |]; [| apply parses_fail].
  pass_check. apply parses_ret. simpl fh_instruments.
  split_and!; [constructor; simpl; try done; lia | lia | lia |].
  unfold header_covered. simpl fh_instruments. rewrite <- !app_assoc.
  replace (Z.of_nat (50 + length l * 30)) with hl by mach.
  replace (Z.of_nat (length l)) with cnt by mach. by rewrite app_nil_r.
Qed.

Lemma decode_header_bytes h post :
  header_wf h -> Forall is_byte post -> Z.of_nat (length (header_bytes h ++ post)) <= u64_max ->
  decode_header crc32 (header_bytes h ++ post) = Ret (Ok (h, length (header_bytes h))).
Proof.
  intros Hh Hp Hsz. pose proof (hwf_specs _ Hh) as Hs. unfold decode_header.
  rewrite (reads_new _ (header_bytes h) (h, length (header_bytes h))); try done.
  - apply reads_header; [done | rewrite length_app; lia |].
    unfold header_bytes. by rewrite <- app_assoc, take_app_length.
  - apply Forall_app_2; [by apply header_bytes_bytes | done].
Qed.

Lemma decode_header_sound bs :
  Forall is_byte bs -> Z.of_nat (length bs) <= u64_max ->
  exists result, decode_header crc32 bs = Ret result
    /\ match result with
       | Ok (h, n) => header_wf h /\ n = length (header_bytes h) /\ (n <= length bs)%nat
                      /\ take n bs = header_bytes h
       | Err _ => True
       end.
Proof.
  intros Hb Hsz. unfold decode_header.
  destruct (parses_new _ _ bs (parses_header bs) Hb Hsz) as (result & -> & Hres).
  destruct result as [[[h n] r] | e]; [| by eexists]. simpl qbind. eexists. split; [done |].
  destruct Hres as (Hr & _ & Hwf & Hn & Hle & E). pose proof (hwf_specs _ Hwf) as Hs.
  pose proof (header_covered_length h Hs) as Hcl.
  assert (Ho : rd_offset r = n).
  { apply (f_equal length) in E. rewrite length_app, le_bytes_length, length_take in E. lia. }
  rewrite Ho in E. assert (Hcov : take (n - 4) bs = header_covered h).
  { replace (n - 4)%nat with (Nat.min (n - 4) n) by lia. rewrite <- take_take, E.
    apply take_app_length'. lia. }
  split_and!; try done; [by rewrite header_bytes_length |]. rewrite E, Hcov. done.
Qed.

End WithCrc.
