(* ===== verification/CodecTheorems.v ===== *)
(** What the feed format promises, for any checksum function with values in
    [u32]: encoding and decoding are inverse to each other, and the decoders
    are total. *)

From S2P Require Import Prelude Enums Ids Events Read Canonical CanonicalProps Codec CodecProps.

Section Theorems.
Context (crc32 : bytes -> Z).
Hypothesis crc32_u32 : forall bs, in_u32 (crc32 bs).

(** C17: Frames round-trip.  For every well-formed frame and whatever the
    buffer already holds, [Frame::encode] appends bytes that [Frame::decode]
    reads back to the same frame, consuming exactly those bytes whatever
    follows them. *)
Theorem frame_roundtrip f out post :
  frame_wf f ->
  exists bs, encode_frame crc32 f out = Ret (out ++ bs)
    /\ decode_frame crc32 (bs ++ post) = Ret (Ok (f, length bs)).
Proof.
  intros. exists (frame_bytes crc32 f).
  split; [apply encode_frame_eq | by apply decode_frame_bytes].
Qed.

(** [Frame::decode] never panics, whatever the bytes, and is canonical: a
    frame it returns is well-formed and encodes to exactly the bytes consumed.
    So a frame with a wrong length field, checksum, flag, version or payload
    length is never accepted. *)
Theorem decode_frame_canonical bs :
  Forall is_byte bs ->
  exists result, decode_frame crc32 bs = Ret result
    /\ forall f n, result = Ok (f, n) ->
         frame_wf f /\ (n <= length bs)%nat /\ encode_frame crc32 f [] = Ret (take n bs).
Proof.
  intros Hb. destruct (decode_frame_sound crc32 bs Hb) as (result & E & H).
  exists result. split; [done |]. intros f n ->. destruct H as (Hf & Hn & Hle & Ht).
  split_and!; [done | done |]. rewrite encode_frame_eq. by rewrite Ht.
Qed.

(** File headers round-trip, for at most 256 instruments with distinct
    ids, positive tick sizes and non-zero lot sizes. *)
Theorem header_roundtrip h out post :
  header_wf h -> Forall is_byte post -> Z.of_nat (length post) <= u32_max ->
  exists bs, encode_header crc32 h out = Ret (out ++ bs)
    /\ decode_header crc32 (bs ++ post) = Ret (Ok (h, length bs)).
Proof.
  intros Hh Hp Hl. exists (header_bytes crc32 h). split; [by apply encode_header_eq |].
  apply decode_header_bytes; try done.
  rewrite length_app, header_bytes_length by apply Hh. destruct Hh. lia.
Qed.

(** [FileHeader::decode] never panics and is canonical: a header it
    returns satisfies the table's rules and encodes to exactly the bytes
    consumed. *)
Theorem decode_header_canonical bs :
  Forall is_byte bs -> Z.of_nat (length bs) <= u64_max ->
  exists result, decode_header crc32 bs = Ret result
    /\ forall h n, result = Ok (h, n) ->
         header_wf h /\ (n <= length bs)%nat /\ encode_header crc32 h [] = Ret (take n bs).
Proof.
  intros Hb Hsz. destruct (decode_header_sound crc32 bs Hb Hsz) as (result & E & H).
  exists result. split; [done |]. intros h n ->. destruct H as (Hf & Hn & Hle & Ht).
  split_and!; [done | done |]. rewrite encode_header_eq by done. by rewrite Ht.
Qed.

End Theorems.

(** * Witnesses

    The checksum instantiated with the sum of the bytes. *)

Definition sum32 (bs : bytes) : Z := foldr Z.add 0 bs mod 2 ^ 32.

Lemma sum32_u32 bs : in_u32 (sum32 bs).
Proof. unfold sum32. pose proof (Z.mod_pos_bound (foldr Z.add 0 bs) (2 ^ 32)). mach. Qed.

Definition sample_frame : Frame :=
  mkFrame 9 100 120 1
    (FrameBody.OrderRequest
       (mkOrderRequest RequestKind.New 4 1 77 5 88 0 Side.Buy OrderType.Limit (-3) 12)).

Definition sample_header : FileHeader :=
  mkFileHeader 5 6 7 [mkInstrumentSpec 1 [76; 65; 66; 45; 85; 83; 68; 0] 1 1 2 0;
                      mkInstrumentSpec 2 [66; 84; 67; 0; 0; 0; 0; 0] 5 10 2 0].

Lemma frame_roundtrip_witness :
  exists bs, encode_frame sum32 sample_frame [1; 2] = Ret ([1; 2] ++ bs)
    /\ decode_frame sum32 (bs ++ [9]) = Ret (Ok (sample_frame, length bs)).
Proof.
  apply (frame_roundtrip sum32 sum32_u32). by repeat constructor.
Defined.

Lemma decode_frame_canonical_witness :
  exists result, decode_frame sum32 [40; 0; 0; 0; 1; 2] = Ret result
    /\ forall f n, result = Ok (f, n) ->
         frame_wf f /\ (n <= 6)%nat
         /\ encode_frame sum32 f [] = Ret (take n [40; 0; 0; 0; 1; 2]).
Proof. apply (decode_frame_canonical sum32 [40; 0; 0; 0; 1; 2]). by repeat constructor. Defined.

Lemma header_roundtrip_witness :
  exists bs, encode_header sum32 sample_header [] = Ret ([] ++ bs)
    /\ decode_header sum32 (bs ++ [0; 255]) = Ret (Ok (sample_header, length bs)).
Proof.
  apply (header_roundtrip sum32 sum32_u32).
  - constructor; try done; [by repeat constructor | | simpl; lia].
    by apply (bool_decide_unpack _).
  - by repeat constructor.
  - done.
Defined.

Lemma decode_header_canonical_witness :
  exists result, decode_header sum32 [82; 76; 84] = Ret result
    /\ forall h n, result = Ok (h, n) ->
         header_wf h /\ (n <= 3)%nat /\ encode_header sum32 h [] = Ret (take n [82; 76; 84]).
Proof. apply (decode_header_canonical sum32 [82; 76; 84]); [by repeat constructor | done]. Defined.
