(* ===== verification/Fuzz.v ===== *)
(** The fuzz targets ([fuzz/src/lib.rs] and [fuzz/fuzz_targets]): what they feed
    to the decoders and the assertions they make, and that no input, of the
    infinitely many a fuzzer could draw, makes one of them fail. *)

From S2P Require Import Prelude Enums Ids Events Read Canonical CanonicalProps Codec CodecProps.
From S2P Require Import CodecTheorems.

Definition PREFIX_LEN : nat := 36.
Definition CRC_LEN : nat := 4.

(** [assert_eq!]. *)
Definition assert_eq (left right : bytes) : res unit :=
  if bool_decide (left = right) then Ret tt else Panic.

Section WithCrc.
Context (crc32 : bytes -> Z).

(** [frame_from_body]: the fuzzer's bytes as the fields and the payload of a
    frame, the length, the flags, the schema version and the checksum
    normalised. *)
Definition frame_from_body (data : bytes) : res bytes :=
  let limit := (Z.to_nat MAX_FRAME_LEN - PREFIX_LEN - CRC_LEN)%nat in
  let! body := slice data 0 (Nat.min (length data) limit) in
  let frame := replicate PREFIX_LEN 0 in
  let taken := Nat.min (length body) (PREFIX_LEN - 4) in
  let! head := slice body 0 taken in
  let! frame := copy_at frame 4 head in
  let! frame := index_set frame 5 0 in
  let! frame := copy_at frame 6 (le_bytes 2 SCHEMA_VERSION) in
  let! tail := slice body taken (length body) in
  let frame := frame ++ tail in
  let frame_len := as_u32 (length frame + CRC_LEN) in
  let! frame := copy_at frame 0 (le_bytes 4 frame_len) in
  Ret (frame ++ le_bytes 4 (crc32 frame)).

(** ** The targets *)

Definition fuzz_decode_frame (data : bytes) : res unit :=
  let! decoded := decode_frame crc32 data in
  match decoded with
  | Ok (frame, consumed) =>
      let! reencoded := encode_frame crc32 frame [] in
      let! read := slice data 0 consumed in
      assert_eq reencoded read
  | Err _ => Ret tt
  end.

Definition fuzz_decode_frame_body (data : bytes) : res unit :=
  let! frame := frame_from_body data in
  fuzz_decode_frame frame.

Definition fuzz_decode_header (data : bytes) : res unit :=
  let! decoded := decode_header crc32 data in
  match decoded with
  | Ok (header, consumed) =>
      let! reencoded := encode_header crc32 header [] in
      let! read := slice data 0 consumed in
      assert_eq reencoded read
  | Err _ => Ret tt
  end.

End WithCrc.

Definition fuzz_decode_output (data : bytes) : res unit :=
  let! decoded := decode_output data in
  match decoded with
  | Ok (event, consumed) =>
      let! read := slice data 0 consumed in
      assert_eq (encode_output event []) read
  | Err _ => Ret tt
  end.

(** * What is wrapped *)

Lemma take_min {A} (l : list A) n : take (Nat.min (length l) n) l = take n l.
Proof. destruct (Nat.le_ge_cases (length l) n); [rewrite !take_ge by lia | rewrite Nat.min_r by done]; done. Qed.

Lemma drop_min {A} (l : list A) n : drop (Nat.min (length l) n) l = drop n l.
Proof. destruct (Nat.le_ge_cases (length l) n); [rewrite !drop_ge by lia | rewrite Nat.min_r by done]; done. Qed.

Section Wrapped.
Context (crc32 : bytes -> Z).
Hypothesis crc32_u32 : forall bs, in_u32 (crc32 bs).

(** The fields of a wrapped body: its first 32 bytes, padded with zeros, with the
    flags and the version replaced. *)
Definition wrapped_fields (data : bytes) : bytes :=
  let head := take 32 data ++ replicate (32 - length data) 0 in
  take 1 head ++ [0] ++ le_bytes 2 SCHEMA_VERSION ++ drop 4 head.

(** The payload: what follows, as far as the largest frame has room for it. *)
Definition wrapped_payload (data : bytes) : bytes := drop 32 (take 4056 data).

Definition wrapped_covered (data : bytes) : bytes :=
  le_bytes 4 (Z.of_nat (40 + length (wrapped_payload data)))
  ++ wrapped_fields data ++ wrapped_payload data.

Lemma wrapped_head_length data :
  length (take 32 data ++ replicate (32 - length data) 0) = 32%nat.
Proof. rewrite length_app, length_take, length_replicate. lia. Qed.

Lemma wrapped_fields_length data : length (wrapped_fields data) = 32%nat.
Proof.
  unfold wrapped_fields. rewrite !length_app, length_take, length_drop, le_bytes_length, wrapped_head_length.
  done.
Qed.

Lemma wrapped_payload_length data : (length (wrapped_payload data) <= 4024)%nat.
Proof. unfold wrapped_payload. rewrite length_drop, length_take. lia. Qed.

Lemma wrapped_covered_length data :
  length (wrapped_covered data) = (36 + length (wrapped_payload data))%nat.
Proof. unfold wrapped_covered. rewrite !length_app, le_bytes_length, wrapped_fields_length. lia. Qed.

Lemma wrapped_covered_bytes data : Forall is_byte data -> Forall is_byte (wrapped_covered data).
Proof.
  intros Hd. assert (Hh : Forall is_byte (take 32 data ++ replicate (32 - length data) 0)).
  { apply Forall_app_2; [by apply Forall_take |]. apply Forall_replicate. by split. }
  unfold wrapped_covered, wrapped_fields, wrapped_payload.
  repeat apply Forall_app_2; try apply le_bytes_bytes; try by apply Forall_take.
  - by repeat constructor.
  - by apply Forall_drop.
  - by apply Forall_drop, Forall_take.
Qed.

(** The three writes into the prefix. *)
Lemma prefix_written head :
  length head = 32%nat ->
  (let! frame := index_set (replicate 4 0 ++ head) 5 0 in
   copy_at frame 6 (le_bytes 2 SCHEMA_VERSION))
  = Ret (replicate 4 0 ++ take 1 head ++ [0] ++ le_bytes 2 SCHEMA_VERSION ++ drop 4 head).
Proof.
  intros H. destruct head as [| p0 [| p1 [| p2 [| p3 h]]]]; done.
Qed.

Lemma frame_from_body_eq data :
  frame_from_body crc32 data
  = Ret (wrapped_covered data ++ le_bytes 4 (crc32 (wrapped_covered data))).
Proof.
  unfold frame_from_body, MAX_FRAME_LEN, PREFIX_LEN, CRC_LEN.
  change (Z.to_nat 4096 - 36 - 4)%nat with 4056%nat. change (36 - 4)%nat with 32%nat.
  rewrite slice_prefix, rbind_ret, take_min by lia. set (body := take 4056 data).
  rewrite slice_prefix, rbind_ret, take_min by lia. unfold body at 1. rewrite take_take.
  change (Nat.min 32 4056) with 32%nat. pose proof (wrapped_head_length data) as Hh.
  assert (Hc : copy_at (replicate 36 0) 4 (take 32 data)
               = Ret (replicate 4 0 ++ take 32 data ++ replicate (32 - length data) 0)).
  { unfold copy_at. rewrite length_replicate, length_take, (proj2 (Nat.leb_le _ _)) by lia.
    rewrite take_replicate, drop_replicate. do 4 f_equal. lia. }
  rewrite Hc, rbind_ret. pose proof (prefix_written _ Hh) as Hw.
  destruct (index_set _ 5 0) as [frame |]; [| done]. rewrite rbind_ret in *. rewrite Hw, rbind_ret.
  fold (wrapped_fields data). unfold slice. rewrite Nat.leb_refl, (proj2 (Nat.leb_le _ _)) by lia.
  cbn [andb]. rewrite rbind_ret, drop_min, take_ge by (rewrite length_drop; lia). unfold body.
  fold (wrapped_payload data). pose proof (wrapped_fields_length data) as Hf.
  pose proof (wrapped_payload_length data) as Hp. rewrite <- app_assoc. unfold copy_at at 1.
  rewrite !length_app, le_bytes_length, length_replicate, (proj2 (Nat.leb_le _ _)), rbind_ret by lia.
  assert (Hlen : as_u32 (4 + (length (wrapped_fields data) + length (wrapped_payload data)) + 4)
                 = Z.of_nat (40 + length (wrapped_payload data)))
    by (unfold as_u32; rewrite Z.mod_small; lia).
  by rewrite Hlen.
Qed.

(** [p] on what is left of its bytes ends as [Q] says. *)
Definition ends {A} (p : Parser A) (bs : bytes) (Q : Result (A * reader) DecodeError -> Prop) : Prop :=
  forall r, cursor_ok r -> rest r = bs -> exists result, p r = Ret result /\ Q result.

Lemma ends_bind {A B} (p : Parser A) (k : A -> Parser B) bs1 bs2 a Q :
  reads p bs1 a -> ends (k a) bs2 Q -> ends (pbind p k) (bs1 ++ bs2) Q.
Proof.
  intros Hp Hk r Hr E. unfold pbind. rewrite (Hp r bs2 Hr E).
  apply Hk; [by eapply adv_ok | by apply rest_adv].
Qed.

(** An error past the header fields carries the frame's source sequence. *)
Definition payload_error {A} (seq : Z) (result : Result A DecodeError) : Prop :=
  forall e, result = Err e -> de_source_seq e = Some seq.

Lemma payload_ends mt ss st rt i bs :
  in_u32 i ->
  ends (let@ body := pmap_err (fun e => with_source_seq e ss) (decode_payload mt i) in
        at_end (fun offset => with_source_seq (decode_error PayloadLength offset) ss)
          (mkFrame ss st rt i body)) bs (payload_error ss).
Proof.
  intros Hi r Hr _. unfold pbind, pmap_err.
  destruct (parses_payload mt i Hi r Hr) as ([[body r'] | e] & -> & H).
  - destruct H as (bs' & _ & _ & [Ho _ _] & _). unfold at_end, pbind, Reader.remaining, Reader.offset.
    rewrite (proj2 (Nat.leb_le _ _)) by done.
    case_match; (eexists; split; [done |]); intros e; [by intros [= <-] | done].
  - eexists. split; [done |]. by intros e' [= <-].
Qed.

(** The reader gets through the header fields whatever they hold. *)
Lemma read_frame_ends len mt ss st rt i payload :
  length len = 4%nat -> length ss = 8%nat -> length st = 8%nat -> length rt = 8%nat ->
  length i = 4%nat -> Forall is_byte i ->
  ends read_frame
    (len ++ [mt] ++ [0] ++ le_bytes 2 SCHEMA_VERSION ++ ss ++ st ++ rt ++ i ++ payload)
    (payload_error (from_le ss)).
Proof.
  intros H1 H2 H3 H4 H5 Hi. unfold read_frame.
  eapply ends_bind; [eapply reads_end; [by apply reads_take_n | apply reads_ret] |].
  eapply ends_bind; [apply reads_u8 |].
  eapply ends_bind; [apply reads_u8 |]. simpl negb. cbv iota.
  eapply ends_bind; [by apply reads_u16 |]. simpl negb. cbv iota.
  do 4 (eapply ends_bind; [by apply reads_uint_any |]). apply payload_ends.
  pose proof (from_le_bound i Hi) as Hbound. rewrite H5 in Hbound. mach.
Qed.

(** Splitting off the first bytes. *)
Lemma split_at {A} n (l : list A) m :
  length l = (n + m)%nat -> exists a b, l = a ++ b /\ length a = n /\ length b = m.
Proof.
  intros H. exists (take n l), (drop n l).
  rewrite take_drop, length_take, length_drop, H. split_and!; [done | lia | lia].
Qed.

Lemma wrapped_fields_split data :
  exists mt ss st rt i, wrapped_fields data
    = [mt] ++ [0] ++ le_bytes 2 SCHEMA_VERSION ++ ss ++ st ++ rt ++ i
    /\ length ss = 8%nat /\ length st = 8%nat /\ length rt = 8%nat /\ length i = 4%nat.
Proof.
  unfold wrapped_fields. pose proof (wrapped_head_length data) as Hl.
  destruct (take 32 data ++ replicate (32 - length data) 0) as [| mt [| p1 [| p2 [| p3 h]]]]; try done.
  simpl in Hl. destruct (split_at 8 h 20 ltac:(lia)) as (ss & h1 & -> & Hss & Hh1).
  destruct (split_at 8 h1 12 Hh1) as (st & h2 & -> & Hst & Hh2).
  destruct (split_at 8 h2 4 Hh2) as (rt & i & -> & Hrt & Hi).
  by exists mt, ss, st, rt, i.
Qed.

End Wrapped.

(** * The targets *)

Section Theorems.
Context (crc32 : bytes -> Z).
Hypothesis crc32_u32 : forall bs, in_u32 (crc32 bs).

Lemma assert_eq_ok bs : assert_eq bs bs = Ret tt.
Proof. unfold assert_eq. by rewrite bool_decide_eq_true_2. Qed.

Lemma fuzz_decode_frame_ok data : Forall is_byte data -> fuzz_decode_frame crc32 data = Ret tt.
Proof.
  intros Hb. unfold fuzz_decode_frame.
  destruct (decode_frame_sound crc32 data Hb) as ([[f n] | e] & -> & H); [| done].
  destruct H as (_ & _ & Hle & Ht). rewrite rbind_ret, encode_frame_eq, rbind_ret.
  rewrite slice_prefix, rbind_ret, Ht by done. apply assert_eq_ok.
Qed.

(** C18: No fuzz target can fail.  On every byte string the four targets return:
    the decoders do not panic on hostile framing, on hostile payloads under a
    valid checksum, on hostile headers or on hostile output records, and
    whatever they accept re-encodes to exactly the bytes that were consumed. *)
Theorem fuzz_targets_pass data :
  Forall is_byte data -> Z.of_nat (length data) <= u64_max ->
  fuzz_decode_frame crc32 data = Ret tt /\ fuzz_decode_frame_body crc32 data = Ret tt
  /\ fuzz_decode_header crc32 data = Ret tt /\ fuzz_decode_output data = Ret tt.
Proof.
  intros Hb Hl. split_and!.
  - by apply fuzz_decode_frame_ok.
  - unfold fuzz_decode_frame_body. rewrite frame_from_body_eq, rbind_ret. apply fuzz_decode_frame_ok.
    apply Forall_app_2; [by apply wrapped_covered_bytes | apply le_bytes_bytes].
  - unfold fuzz_decode_header.
    destruct (decode_header_sound crc32 data Hb Hl) as ([[h n] | e] & -> & H); [| done].
    destruct H as (Hh & _ & Hle & Ht). rewrite rbind_ret, encode_header_eq, rbind_ret by done.
    rewrite slice_prefix, rbind_ret, Ht by done. apply assert_eq_ok.
  - unfold fuzz_decode_output.
    destruct (parses_new _ _ data parses_output Hb Hl) as (result & E & H). unfold decode_output.
    rewrite E. destruct result as [[e r] | e]; [| done]. destruct H as (Hle & _ & Ht & _). cbn [qbind rbind].
    rewrite slice_prefix, rbind_ret, Ht by done. unfold encode_output. apply assert_eq_ok.
Qed.

Lemma wrapped_decodes data :
  Forall is_byte data ->
  let frame := wrapped_covered data ++ le_bytes 4 (crc32 (wrapped_covered data)) in
  exists result, decode_frame crc32 frame = Ret result
    /\ match result with
       | Ok (_, consumed) => consumed = length frame
       | Err e => de_source_seq e = Some (from_le (take 8 (drop 8 frame)))
       end.
Proof.
  intros Hd frame. pose proof (wrapped_payload_length data) as Hp.
  pose proof (wrapped_fields_length data) as Hf. pose proof (wrapped_covered_length data) as Hc.
  pose proof (wrapped_covered_bytes data Hd) as Hb.
  destruct (wrapped_fields_split data) as (mt & ss & st & rt & i & E & H1 & H2 & H3 & H4).
  set (fields := wrapped_fields data ++ wrapped_payload data).
  assert (Hl : length fields = (32 + length (wrapped_payload data))%nat)
    by (unfold fields; rewrite length_app; lia).
  assert (Ecov : wrapped_covered data = le_bytes 4 (Z.of_nat (length fields + 8)) ++ fields)
    by (unfold wrapped_covered; rewrite Hl; do 3 f_equal; lia).
  pose proof (decode_frame_sealed crc32 crc32_u32 fields [] ltac:(lia)) as Hs. cbv zeta in Hs.
  rewrite <- Ecov, app_nil_r in Hs. fold frame in Hs. rewrite Hs.
  assert (Ebs : wrapped_covered data
                = le_bytes 4 (Z.of_nat (length fields + 8)) ++ [mt] ++ [0] ++ le_bytes 2 SCHEMA_VERSION
                  ++ ss ++ st ++ rt ++ i ++ wrapped_payload data)
    by (rewrite Ecov; unfold fields; rewrite E, <- !app_assoc; done).
  assert (Eseq : take 8 (drop 8 frame) = ss).
  { unfold frame. rewrite Ebs. rewrite <- !app_assoc.
    change (drop 8 (le_bytes 4 ?v ++ [mt] ++ [0] ++ le_bytes 2 SCHEMA_VERSION ++ ?l)) with l.
    by apply take_app_length'. }
  rewrite Eseq.
  destruct (read_frame_ends (le_bytes 4 (Z.of_nat (length fields + 8))) mt ss st rt i
              (wrapped_payload data)) with (r := Reader.new (wrapped_covered data))
    as (result & Er & He); try done.
  - rewrite Ebs in Hb. apply Forall_app in Hb as [_ Hb]. apply Forall_app in Hb as [_ Hb].
    do 6 (apply Forall_app in Hb as [? Hb]). done.
  - apply new_cursor_ok; [done | lia].
  - rewrite Er. destruct result as [[f r] | e]; cbn [qbind]; eexists; (split; [done |]).
    + unfold frame. rewrite length_app, le_bytes_length. lia.
    + by apply He.
Qed.

Lemma wrapping_exact f :
  frame_from_body crc32 (frame_fields f) = Ret (frame_bytes crc32 f).
Proof.
  rewrite frame_from_body_eq. unfold frame_bytes. 
  assert (E : wrapped_covered (frame_fields f) = frame_covered f); [| by rewrite E].
  pose proof (frame_fields_length f) as Hl. pose proof (payload_bytes_length (fr_body f)) as Hp.
  assert (Hw : wrapped_payload (frame_fields f) = payload_bytes (fr_body f)).
  { unfold wrapped_payload. rewrite take_ge by lia. unfold frame_fields. rewrite !app_assoc.
    apply drop_app_length'. rewrite !length_app, !le_bytes_length. done. }
  unfold wrapped_covered, frame_covered. rewrite Hw, Hl.
  replace (32 + length (payload_bytes (fr_body f)) + 8)%nat
    with (40 + length (payload_bytes (fr_body f)))%nat by lia. reflexivity.
Qed.

(** Wrapping makes the payload reachable.  Whatever bytes the fuzzer draws,
    [frame_from_body] builds a frame of admissible length on which
    [Frame::decode] gets past the length, checksum, flag and version tests: it
    returns a frame that spans all of it, or an error of the payload, which
    carries the frame's source sequence.  And the wrapping distorts nothing: the
    encoding of any frame, stripped of its length field and checksum, is wrapped
    to exactly that encoding. *)
Theorem wrapping_reaches_payload data f :
  Forall is_byte data ->
  (exists frame result,
     frame_from_body crc32 data = Ret frame /\ (40 <= length frame <= 4096)%nat
     /\ decode_frame crc32 frame = Ret result
     /\ match result with
        | Ok (_, consumed) => consumed = length frame
        | Err e => de_source_seq e = Some (from_le (take 8 (drop 8 frame)))
        end)
  /\ exists encoded, encode_frame crc32 f [] = Ret encoded
     /\ frame_from_body crc32 (drop 4 (take (length encoded - CRC_LEN) encoded)) = Ret encoded.
Proof.
  intros Hd. split.
  - destruct (wrapped_decodes data Hd) as (result & Er & Hr).
    exists (wrapped_covered data ++ le_bytes 4 (crc32 (wrapped_covered data))), result.
    split; [apply frame_from_body_eq |]. split; [| done].
    rewrite length_app, wrapped_covered_length, le_bytes_length.
    pose proof (wrapped_payload_length data). lia.
  - exists (frame_bytes crc32 f). split; [apply encode_frame_eq |]. rewrite <- wrapping_exact. f_equal.
    unfold frame_bytes. rewrite length_app, le_bytes_length.
    rewrite take_app_length' by (unfold CRC_LEN; lia). by apply drop_app_length'.
Qed.

End Theorems.

(** * Witnesses *)

Lemma fuzz_targets_pass_witness :
  fuzz_decode_frame sum32 [40; 0; 0; 0] = Ret tt
  /\ fuzz_decode_frame_body sum32 [40; 0; 0; 0] = Ret tt
  /\ fuzz_decode_header sum32 [40; 0; 0; 0] = Ret tt /\ fuzz_decode_output [40; 0; 0; 0] = Ret tt.
Proof. apply (fuzz_targets_pass sum32); [by repeat constructor | done]. Defined.

(** An unknown message type, found behind a valid checksum. *)
Lemma wrapping_reaches_payload_witness :
  (exists frame result,
     frame_from_body sum32 [9; 8; 7] = Ret frame /\ (40 <= length frame <= 4096)%nat
     /\ decode_frame sum32 frame = Ret result
     /\ match result with
        | Ok (_, consumed) => consumed = length frame
        | Err e => de_source_seq e = Some (from_le (take 8 (drop 8 frame)))
        end)
  /\ exists encoded, encode_frame sum32 sample_frame [] = Ret encoded
     /\ frame_from_body sum32 (drop 4 (take (length encoded - CRC_LEN) encoded)) = Ret encoded.
Proof. apply (wrapping_reaches_payload sum32 sum32_u32 [9; 8; 7] sample_frame). by repeat constructor. Defined.

Example unknown_type_reached :
  rbind (frame_from_body sum32 [9; 8; 7]) (decode_frame sum32)
  = Ret (Err (mkDecodeError UnknownMessageType 36 (Some 0))).
Proof. by vm_compute. Qed.
