(* ===== verification/Wire.v ===== *)
(** Conversion between normalized inputs and wire frames ([to_frame] and
    [from_frame] of [crates/trading-core/src/generator.rs]). *)

From S2P Require Import Prelude Enums Ids Events Read Canonical Codec CodecProps.

Definition frame_body (kind : MarketEventKind.t) : FrameBody.t :=
  match kind with
  | MarketEventKind.SnapshotBegin snapshot_seq => FrameBody.SnapshotBegin snapshot_seq
  | MarketEventKind.SnapshotLevel side price quantity =>
      FrameBody.SnapshotLevel side price quantity
  | MarketEventKind.SnapshotEnd snapshot_seq level_count =>
      FrameBody.SnapshotEnd snapshot_seq level_count 0
  | MarketEventKind.LevelSet side price quantity => FrameBody.LevelSet side price quantity
  | MarketEventKind.Trade aggressor price quantity =>
      FrameBody.MarketTrade aggressor price quantity
  | MarketEventKind.Heartbeat => FrameBody.Heartbeat
  | MarketEventKind.FeedReset new_epoch => FrameBody.FeedReset new_epoch
  end.

Definition to_frame (input : EngineInput) : option Frame :=
  match in_event input with
  | InputEvent.Market event =>
      Some (mkFrame (me_source_seq event) (me_source_time_ns event) (in_recv_time_ns input)
              (me_instrument event) (frame_body (me_kind event)))
  | InputEvent.Order request =>
      Some (mkFrame 0 (in_recv_time_ns input) (in_recv_time_ns input) (req_instrument request)
              (FrameBody.OrderRequest request))
  | InputEvent.Control _ => None
  end.

(** The inner match on the body; [None] is its [unreachable!]. *)
Definition market_kind (body : FrameBody.t) : option MarketEventKind.t :=
  match body with
  | FrameBody.SnapshotBegin snapshot_seq => Some (MarketEventKind.SnapshotBegin snapshot_seq)
  | FrameBody.SnapshotLevel side price quantity =>
      Some (MarketEventKind.SnapshotLevel side price quantity)
  | FrameBody.SnapshotEnd snapshot_seq level_count _ =>
      Some (MarketEventKind.SnapshotEnd snapshot_seq level_count)
  | FrameBody.LevelSet side price quantity => Some (MarketEventKind.LevelSet side price quantity)
  | FrameBody.MarketTrade aggressor price quantity =>
      Some (MarketEventKind.Trade aggressor price quantity)
  | FrameBody.Heartbeat => Some MarketEventKind.Heartbeat
  | FrameBody.FeedReset new_epoch => Some (MarketEventKind.FeedReset new_epoch)
  | FrameBody.OrderRequest _ => None
  end.

Definition from_frame (frame : Frame) (ingress_seq : IngressSeq) : res EngineInput :=
  let! event :=
    match fr_body frame with
    | FrameBody.OrderRequest request => Ret (InputEvent.Order request)
    | body =>
        let! kind := unwrap (market_kind body) in
        Ret (InputEvent.Market (mkMarketEvent (fr_instrument frame) (fr_source_seq frame)
                                  (fr_source_time_ns frame) kind))
    end in
  Ret (mkEngineInput ingress_seq (fr_recv_time_ns frame) event).

(** The conversion never reaches its [unreachable!]. *)
Lemma from_frame_total frame ingress_seq :
  exists input, from_frame frame ingress_seq = Ret input /\ in_ingress_seq input = ingress_seq
    /\ in_recv_time_ns input = fr_recv_time_ns frame.
Proof. unfold from_frame. destruct (fr_body frame); eexists; split; reflexivity || done. Qed.

(** An input that has a frame comes back from it. *)
Lemma from_to_frame input frame :
  to_frame input = Some frame -> from_frame frame (in_ingress_seq input) = Ret input.
Proof.
  destruct input as [seq time [[i s t k] | r | c]]; [| | done]; unfold to_frame; simpl;
    intros [= <-]; [destruct k |]; done.
Qed.
