(* ===== verification/Journal.v ===== *)
(** The durable output journal ([crates/engine-runtime/src/journal.rs]): the
    writer, crash recovery and the incremental reader.

    The checksum [crc32fast::hash] is the parameter [crc32]; the object behind
    [Box<dyn Write>] is an instance of the class [Sink].  The two readers take
    the bytes the file holds when they run. *)

From S2P Require Import Prelude Enums Ids Events Read Canonical Codec.

Module Journal.

(** [b"RLTJ"]. *)
Definition MAGIC : bytes := [82; 76; 84; 74].
Definition VERSION : Z := 1.
Definition HEADER_LEN : nat := 24.
Definition MAX_RECORD_LEN : Z := 4096.

Inductive JournalError (IoError : Type) :=
| Io (error : IoError)
| BadHeader
| IncompleteHeader
| TruncatedTail (offset : nat)
| Corrupt (offset : nat).

Arguments Io {IoError} error.
Arguments BadHeader {IoError}.
Arguments IncompleteHeader {IoError}.
Arguments TruncatedTail {IoError} offset.
Arguments Corrupt {IoError} offset.

(** * The sink

    What the writer relies on: [accepted w] is the sequence of bytes the
    buffered sink has taken so far; a successful [write_all] appends its
    argument to it, and [flush] and [sync] add nothing. *)
Class Sink (W IoError : Type) := {
  accepted : W -> bytes;
  write_all : W -> bytes -> W * Result unit IoError;
  flush_sink : W -> W * Result unit IoError;
  sync_data : W -> W * Result unit IoError;
  write_all_ok : forall w bs w', write_all w bs = (w', Ok tt) -> accepted w' = accepted w ++ bs;
  flush_sink_ok : forall w w' r, flush_sink w = (w', r) -> accepted w' = accepted w;
  sync_data_ok : forall w w' r, sync_data w = (w', r) -> accepted w' = accepted w
}.

Section WithCrc.
Context (crc32 : bytes -> Z).

(** * Writing *)

Section Writer.
Context {W IoError : Type} `{Sink W IoError}.

Record JournalWriter := mkJournalWriter {
  jw_sink : W;
  jw_file : bool;
  jw_scratch : bytes;
  jw_records : Z
}.

(** [f(..)?] on the sink, then the rest; the sink keeps what was written when
    an error is returned. *)
Definition on_sink (r : W * Result unit IoError)
    (k : W -> W * Result unit (JournalError IoError)) : W * Result unit (JournalError IoError) :=
  match r with
  | (w, Ok _) => k w
  | (w, Err e) => (w, Err (Io e))
  end.

Definition header (run_id : Z) : bytes :=
  MAGIC ++ le_bytes 2 VERSION ++ le_bytes 2 0 ++ le_bytes 16 run_id.

(** [JournalWriter::with_sink]; [file] says whether the writer keeps a handle to
    a file, as [create] makes it. *)
Definition with_sink (sink : W) (run_id : Z) (file : bool)
  : Result JournalWriter (JournalError IoError) :=
  match on_sink (write_all sink (header run_id)) (fun w =>
        on_sink (flush_sink w) (fun w => (w, Ok tt))) with
  | (w, Ok _) => Ok (mkJournalWriter w file [] 0)
  | (_, Err e) => Err e
  end.

(** [JournalWriter::create]; [open_file] is [File::create] with the clone of the
    handle that [sync] uses. *)
Definition create {Path} (open_file : Path -> Result W IoError) (path : Path) (run_id : Z)
  : Result JournalWriter (JournalError IoError) :=
  match open_file path with
  | Ok sink => with_sink sink run_id true
  | Err e => Err (Io e)
  end.

Definition records (jw : JournalWriter) : Z := jw_records jw.

Definition append (jw : JournalWriter) (event : OutputEvent.t)
  : res (JournalWriter * Result unit (JournalError IoError)) :=
  let scratch := encode_output event [] in
  let len := as_u32 (length scratch) in
  let crc := crc32 scratch in
  match on_sink (write_all (jw_sink jw) (le_bytes 4 len)) (fun w =>
        on_sink (write_all w scratch) (fun w =>
        on_sink (write_all w (le_bytes 4 crc)) (fun w => (w, Ok tt)))) with
  | (w, Ok _) =>
      let! n := u64_plain (jw_records jw + 1) in
      Ret (mkJournalWriter w (jw_file jw) scratch n, Ok tt)
  | (w, Err e) => Ret (mkJournalWriter w (jw_file jw) scratch (jw_records jw), Err e)
  end.

Definition flush (jw : JournalWriter) : JournalWriter * Result unit (JournalError IoError) :=
  let '(w, r) := on_sink (flush_sink (jw_sink jw)) (fun w => (w, Ok tt)) in
  (mkJournalWriter w (jw_file jw) (jw_scratch jw) (jw_records jw), r).

Definition sync (jw : JournalWriter) : JournalWriter * Result unit (JournalError IoError) :=
  let '(w, r) := on_sink (flush_sink (jw_sink jw)) (fun w =>
                   if jw_file jw then on_sink (sync_data w) (fun w => (w, Ok tt))
                   else (w, Ok tt)) in
  (mkJournalWriter w (jw_file jw) (jw_scratch jw) (jw_records jw), r).

(** A sequence of [append]s that stops at the first error. *)
Fixpoint append_all (jw : JournalWriter) (events : list OutputEvent.t)
  : res (JournalWriter * Result unit (JournalError IoError)) :=
  match events with
  | [] => Ret (jw, Ok tt)
  | e :: events =>
      let! r := append jw e in
      match r with
      | (jw, Ok _) => append_all jw events
      | failed => Ret failed
      end
  end.

End Writer.

(** * Recovery *)

Record JournalRecovery := mkJournalRecovery {
  jr_run_id : Z;
  jr_events : list OutputEvent.t;
  jr_truncated_at : option nat
}.

(** [bytes[..4] != MAGIC || u16::from_le_bytes([bytes[4], bytes[5]]) != VERSION]. *)
Definition header_bad (bs : bytes) : res bool :=
  let! magic := slice bs 0 4 in
  let! b4 := index bs 4 in
  let! b5 := index bs 5 in
  Ret (negb (bool_decide (magic = MAGIC)) || negb (from_le [b4; b5] =? VERSION)).

(** The loop of [read_journal].  Every turn that continues moves the offset by
    at least nine bytes, so [length bs] turns are enough; running out of them
    counts as a panic. *)
Fixpoint read_records (fuel : nat) (bs : bytes) (offset : nat) (events : list OutputEvent.t)
  : res (list OutputEvent.t * option nat) :=
  if negb (offset <? length bs)%nat then Ret (events, None)
  else
    match fuel with
    | O => Panic
    | S fuel =>
        if (length bs - offset <? 4)%nat then Ret (events, Some offset)
        else
          let! len := u32_at bs offset in
          if (len =? 0) || (MAX_RECORD_LEN <? len) then Ret (events, Some offset)
          else
            let len := Z.to_nat len in
            let end_ := (offset + 4 + len + 4)%nat in
            if (length bs <? end_)%nat then Ret (events, Some offset)
            else
              let! payload := slice bs (offset + 4) (offset + 4 + len) in
              let! stored := u32_at bs (end_ - 4) in
              if negb (stored =? crc32 payload) then Ret (events, Some offset)
              else
                let! decoded := decode_output payload in
                match decoded with
                | Ok (event, consumed) =>
                    if (consumed =? length payload)%nat
                    then read_records fuel bs end_ (events ++ [event])
                    else Ret (events, Some offset)
                | Err _ => Ret (events, Some offset)
                end
    end.

(** [read_journal] on the bytes of the file. *)
Definition read_journal {IoError} (bs : bytes)
  : res (Result JournalRecovery (JournalError IoError)) :=
  if (length bs <? HEADER_LEN)%nat then Ret (Err IncompleteHeader)
  else
    let! bad := header_bad bs in
    if bad then Ret (Err BadHeader)
    else
      let! run_id_bytes := slice bs 8 24 in
      let! (events, truncated_at) := read_records (length bs) bs HEADER_LEN [] in
      Ret (Ok (mkJournalRecovery (from_le run_id_bytes) events truncated_at)).

(** * The incremental reader *)

(** [file] is the position of the handle in the file. *)
Record JournalTail := mkJournalTail {
  jt_file : nat;
  jt_offset : nat;
  jt_pending : bytes;
  jt_bytes_read : Z
}.

(** [JournalTail::open]: the reads of the header stop at its 24 bytes or at the
    end of the file. *)
Definition open {IoError} (bs : bytes) : res (Result JournalTail (JournalError IoError)) :=
  if (length bs <? HEADER_LEN)%nat then Ret (Err IncompleteHeader)
  else
    let! head := slice bs 0 HEADER_LEN in
    let! bad := header_bad head in
    if bad then Ret (Err BadHeader) else Ret (Ok (mkJournalTail HEADER_LEN HEADER_LEN [] 0)).

(** [let mut chunk = [0u8; 8192]]. *)
Definition CHUNK : nat := Z.to_nat 8192.

(** [File::read] into a buffer of [CHUNK] bytes: at most that many of the bytes
    left, none only at the end of the file.  [short] gives how many the
    operating system returns at a position. *)
Definition file_read (short : nat -> nat) (file : bytes) (pos : nat) : bytes :=
  let left := (length file - pos)%nat in
  take (Nat.max 1 (Nat.min (short pos) CHUNK)) (take left (drop pos file)).

(** The first loop of [poll]. *)
Fixpoint pull (fuel : nat) (short : nat -> nat) (file : bytes) (t : JournalTail) : res JournalTail :=
  match fuel with
  | O => Panic
  | S fuel =>
      let chunk := file_read short file (jt_file t) in
      if (length chunk =? 0)%nat then Ret t
      else
        let! n := u64_plain (jt_bytes_read t + Z.of_nat (length chunk)) in
        pull fuel short file
          (mkJournalTail (jt_file t + length chunk) (jt_offset t) (jt_pending t ++ chunk) n)
  end.

(** The second loop of [poll], over [rest = &pending[consumed..]].  Every turn
    that continues consumes at least nine bytes of [pending]. *)
Fixpoint take_records {IoError} (fuel : nat) (limit : nat) (offset : nat) (pending : bytes)
    (events : list OutputEvent.t) (consumed : nat)
  : res (Result (list OutputEvent.t * nat) (JournalError IoError)) :=
  if negb (length events <? limit)%nat then Ret (Ok (events, consumed))
  else
    match fuel with
    | O => Panic
    | S fuel =>
        let! rest := slice pending consumed (length pending) in
        if (length rest <? 4)%nat then Ret (Ok (events, consumed))
        else
          let! len := u32_at rest 0 in
          if (len =? 0) || (MAX_RECORD_LEN <? len) then Ret (Err (Corrupt (offset + consumed)))
          else
            let end_ := (4 + Z.to_nat len + 4)%nat in
            if (length rest <? end_)%nat then Ret (Ok (events, consumed))
            else
              let! payload := slice rest 4 (end_ - 4) in
              let! stored := u32_at rest (end_ - 4) in
              if negb (stored =? crc32 payload) then Ret (Err (Corrupt (offset + consumed)))
              else
                let! decoded := decode_output payload in
                match decoded with
                | Ok (event, used) =>
                    if (used =? length payload)%nat
                    then take_records fuel limit offset pending (events ++ [event])
                           (consumed + end_)
                    else Ret (Err (Corrupt (offset + consumed)))
                | Err _ => Ret (Err (Corrupt (offset + consumed)))
                end
    end.

(** [JournalTail::poll] when the file holds [file]; the reader keeps its
    pending bytes when it returns an error. *)
Definition poll {IoError} (short : nat -> nat) (file : bytes) (t : JournalTail) (limit : nat)
  : res (JournalTail * Result (list OutputEvent.t) (JournalError IoError)) :=
  let! t := pull (S (length file)) short file t in
  let! r := take_records (S (length (jt_pending t))) limit (jt_offset t) (jt_pending t) [] 0 in
  match r with
  | Err e => Ret (t, Err e)
  | Ok (events, consumed) =>
      if (0 <? consumed)%nat
      then Ret (mkJournalTail (jt_file t) (jt_offset t + consumed) (drop consumed (jt_pending t))
                  (jt_bytes_read t), Ok events)
      else Ret (t, Ok events)
  end.

End WithCrc.
End Journal.
