(* ===== verification/JournalProps.v ===== *)
(** Both journal readers look at one record at a time in the same way: the
    common view [next_record], what it answers on whole, cut and arbitrary
    records, and the two loops in terms of it. *)

From S2P Require Import Prelude Enums Ids Events Read Canonical CanonicalProps Codec CodecProps.
From S2P Require Import Journal.
Import Journal.

Section WithCrc.
Context (crc32 : bytes -> Z).
Hypothesis crc32_u32 : forall bs, in_u32 (crc32 bs).

(** * Records *)

Definition record_bytes (e : OutputEvent.t) : bytes :=
  le_bytes 4 (Z.of_nat (length (output_bytes e))) ++ output_bytes e
  ++ le_bytes 4 (crc32 (output_bytes e)).

Definition records_bytes (l : list OutputEvent.t) : bytes := mjoin (record_bytes <$> l).

Lemma records_bytes_cons e l : records_bytes (e :: l) = record_bytes e ++ records_bytes l.
Proof. done. Qed.

Lemma records_bytes_app l1 l2 : records_bytes (l1 ++ l2) = records_bytes l1 ++ records_bytes l2.
Proof. unfold records_bytes. by rewrite fmap_app, join_app. Qed.

Lemma output_bytes_nonempty e : (1 <= length (output_bytes e))%nat.
Proof. destruct e; unfold output_bytes; rewrite length_app; simpl length at 1; lia. Qed.

Lemma record_bytes_length e : length (record_bytes e) = (length (output_bytes e) + 8)%nat.
Proof. unfold record_bytes. rewrite !length_app, !le_bytes_length. lia. Qed.

Lemma record_bytes_bytes e : Forall is_byte (record_bytes e).
Proof.
  unfold record_bytes. pose proof (output_bytes_bytes e). solve_bytes.
Qed.

Lemma records_bytes_bytes l : Forall is_byte (records_bytes l).
Proof.
  induction l as [| e l IH]; [constructor |]. rewrite records_bytes_cons.
  apply Forall_app_2; [apply record_bytes_bytes | done].
Qed.

(** * One record at the front of what is left *)

Inductive next :=
| More
| Bad
| Rec (e : OutputEvent.t) (n : nat).

Definition next_record (rest : bytes) : res next :=
  if (length rest <? 4)%nat then Ret More
  else
    let! len := u32_at rest 0 in
    if (len =? 0) || (MAX_RECORD_LEN <? len) then Ret Bad
    else
      let end_ := (4 + Z.to_nat len + 4)%nat in
      if (length rest <? end_)%nat then Ret More
      else
        let! payload := slice rest 4 (end_ - 4) in
        let! stored := u32_at rest (end_ - 4) in
        if negb (stored =? crc32 payload) then Ret Bad
        else
          let! decoded := decode_output payload in
          match decoded with
          | Ok (e, used) => if (used =? length payload)%nat then Ret (Rec e end_) else Ret Bad
          | Err _ => Ret Bad
          end.

Lemma u32_at_drop bs o i : u32_at (drop o bs) i = u32_at bs (o + i).
Proof. unfold u32_at, index. rewrite !lookup_drop, !Nat.add_assoc. done. Qed.

Lemma slice_drop {A} (l : list A) o a b :
  (o <= length l)%nat -> slice (drop o l) a b = slice l (o + a) (o + b).
Proof.
  intros Ho. unfold slice. rewrite length_drop, drop_drop.
  replace (o + b - (o + a))%nat with (b - a)%nat by lia.
  replace (o + a <=? o + b)%nat with (a <=? b)%nat
    by (apply eq_true_iff_eq; rewrite !Nat.leb_le; lia).
  replace (o + b <=? length l)%nat with (b <=? length l - o)%nat
    by (apply eq_true_iff_eq; rewrite !Nat.leb_le; lia). done.
Qed.

(** One turn of the recovery loop. *)
Lemma read_records_step fuel bs offset events :
  (offset < length bs)%nat ->
  read_records crc32 (S fuel) bs offset events =
  (let! o := next_record (drop offset bs) in
   match o with
   | Rec e n => read_records crc32 fuel bs (offset + n) (events ++ [e])
   | _ => Ret (events, Some offset)
   end).
Proof.
  intros Ho. cbn [read_records]. rewrite (proj2 (Nat.ltb_lt _ _)) by done. pass_check.
  unfold next_record. rewrite length_drop. case_match; [done |].
  rewrite u32_at_drop, Nat.add_0_r. destruct (u32_at bs offset) as [len |]; [| done].
  cbn [rbind]. case_match; [done |].
  replace (length bs <? offset + 4 + Z.to_nat len + 4)%nat
    with (length bs - offset <? 4 + Z.to_nat len + 4)%nat
    by (apply eq_true_iff_eq; rewrite !Nat.ltb_lt; lia).
  case_match; [done |]. rewrite slice_drop, u32_at_drop by lia.
  replace (offset + (4 + Z.to_nat len + 4 - 4))%nat with (offset + 4 + Z.to_nat len)%nat by lia.
  destruct (slice bs (offset + 4) _) as [payload |]; [| done]. cbn [rbind].
  replace (offset + 4 + Z.to_nat len + 4 - 4)%nat with (offset + 4 + Z.to_nat len)%nat by lia.
  destruct (u32_at bs _) as [stored |]; [| done]. cbn [rbind]. case_match; [done |].
  destruct (decode_output payload) as [[[e used] |] |]; try done. cbn [rbind]. case_match; [| done].
  cbn [rbind]. f_equal; lia.
Qed.

(** One turn of the polling loop. *)
Lemma take_records_step {IoError} fuel limit offset pending events consumed :
  (length events < limit)%nat -> (consumed <= length pending)%nat ->
  take_records (IoError := IoError) crc32 (S fuel) limit offset pending events consumed =
  (let! o := next_record (drop consumed pending) in
   match o with
   | Rec e n => take_records crc32 fuel limit offset pending (events ++ [e]) (consumed + n)
   | More => Ret (Ok (events, consumed))
   | Bad => Ret (Err (Corrupt (offset + consumed)))
   end).
Proof.
  intros He Hc. cbn [take_records]. rewrite (proj2 (Nat.ltb_lt _ _)) by done.
  pass_check. unfold slice at 1. rewrite (proj2 (Nat.leb_le _ _)), Nat.leb_refl by done.
  cbv beta iota delta [andb]. cbn [rbind]. rewrite firstn_all2 by (rewrite length_drop; lia).
  unfold next_record. case_match; [done |].
  destruct (u32_at (drop consumed pending) 0) as [len |]; [| done]. cbn [rbind].
  case_match; [done |]. case_match; [done |].
  destruct (slice (drop consumed pending) 4 _) as [payload |]; [| done]. cbn [rbind].
  destruct (u32_at (drop consumed pending) _) as [stored |]; [| done]. cbn [rbind].
  case_match; [done |].
  destruct (decode_output payload) as [[[e used] |] |]; try done. cbn [rbind]. by case_match.
Qed.

(** ** What [next_record] answers *)

Lemma next_record_full e post :
  output_wf e -> next_record (record_bytes e ++ post) = Ret (Rec e (length (record_bytes e))).
Proof.
  intros He. pose proof (output_bytes_length e) as Hl. pose proof (output_bytes_nonempty e) as Hn.
  pose proof (record_bytes_length e) as Hr. unfold next_record.
  set (l := le_bytes 4 (Z.of_nat (length (output_bytes e)))).
  assert (Hll : length l = 4%nat) by apply le_bytes_length.
  assert (E : record_bytes e ++ post = l ++ output_bytes e
              ++ le_bytes 4 (crc32 (output_bytes e)) ++ post)
    by (unfold record_bytes; by rewrite <- !app_assoc).
  rewrite (proj2 (Nat.ltb_ge _ _)) by (rewrite length_app; lia).
  replace (u32_at (record_bytes e ++ post) 0) with (Ret (Z.of_nat (length (output_bytes e))))
    by (rewrite E; symmetry; apply (u32_at_app []); mach).
  cbn [rbind]. unfold MAX_RECORD_LEN.
  rewrite (proj2 (Z.eqb_neq _ _)), (proj2 (Z.ltb_ge _ _)) by lia. pass_check.
  rewrite Nat2Z.id, (proj2 (Nat.ltb_ge _ _)) by (rewrite length_app; lia).
  replace (4 + length (output_bytes e) + 4 - 4)%nat with (4 + length (output_bytes e))%nat by lia.
  replace (slice _ 4 _) with (Ret (output_bytes e)).
  2:{ rewrite E. unfold slice. rewrite (proj2 (Nat.leb_le _ _)), (proj2 (Nat.leb_le _ _))
        by (rewrite ?length_app; lia). cbn [andb].
      rewrite drop_app_length' by done.
      replace (4 + length (output_bytes e) - 4)%nat with (length (output_bytes e)) by lia.
      by rewrite take_app_length. }
  replace (u32_at _ (4 + length (output_bytes e))) with (Ret (crc32 (output_bytes e))).
  2:{ rewrite E, app_assoc, <- Hll, <- length_app. symmetry. by apply u32_at_app. }
  cbn [rbind]. rewrite Z.eqb_refl. pass_check. rewrite Hr.
  pose proof (canonical_decode e He) as ->. cbn [rbind]. rewrite Nat.eqb_refl. do 2 f_equal. lia.
Qed.

Lemma next_record_partial e p q :
  p ++ q = record_bytes e -> q <> [] -> next_record p = Ret More.
Proof.
  intros E Hq. pose proof (output_bytes_length e) as Hl. pose proof (output_bytes_nonempty e) as Hn.
  pose proof (record_bytes_length e) as Hr. rewrite <- E, length_app in Hr.
  assert (length q <> 0%nat) by (by destruct q). unfold next_record.
  destruct (Nat.ltb_spec (length p) 4); [done |].
  replace (u32_at p 0) with (Ret (Z.of_nat (length (output_bytes e)))).
  2:{ rewrite <- (take_drop 4 p) in E |- *. rewrite <- app_assoc in E.
      apply app_inj_1 in E as [-> _]; [| rewrite le_bytes_length, length_take; lia].
      symmetry. apply (u32_at_app []). mach. }
  cbn [rbind]. unfold MAX_RECORD_LEN.
  rewrite (proj2 (Z.eqb_neq _ _)), (proj2 (Z.ltb_ge _ _)) by lia. pass_check.
  by rewrite Nat2Z.id, (proj2 (Nat.ltb_lt _ _)) by lia.
Qed.

(** On arbitrary bytes: an answer, and a record only where its bytes are. *)
Lemma next_record_sound rest :
  Forall is_byte rest ->
  exists o, next_record rest = Ret o
    /\ forall e n, o = Rec e n ->
         output_wf e /\ (n <= length rest)%nat /\ n = length (record_bytes e)
         /\ take n rest = record_bytes e.
Proof.
  intros Hb. unfold next_record. destruct (Nat.ltb_spec (length rest) 4); [by eexists |].
  destruct (u32_at_inv rest 0 ltac:(lia) Hb) as (len & -> & Hlen & Htake). cbn [rbind].
  rewrite drop_0 in Htake. unfold MAX_RECORD_LEN.
  destruct (Z.eqb_spec len 0) as [| Hnz]; [by eexists |].
  destruct (Z.ltb_spec 4096 len); [by eexists |]. pass_check. set (n := Z.to_nat len). destruct (Nat.ltb_spec (length rest) (4 + n + 4));
    [by eexists |]. replace (4 + n + 4 - 4)%nat with (4 + n)%nat by lia.
  assert (Hs : slice rest 4 (4 + n) = Ret (take n (drop 4 rest))).
  { unfold slice. rewrite (proj2 (Nat.leb_le _ _)), (proj2 (Nat.leb_le _ _)) by lia. cbn [andb].
    by replace (4 + n - 4)%nat with n by lia. }
  rewrite Hs. cbn [rbind]. set (payload := take n (drop 4 rest)) in *.
  assert (Hpl : length payload = n) by (unfold payload; rewrite length_take, length_drop; lia).
  destruct (u32_at_inv rest (4 + n)) as (c & -> & Hc & Hct); [lia | done |]. cbn [rbind].
  destruct (Z.eqb_spec c (crc32 payload)) as [-> |]; [| by eexists]. pass_check.
  destruct (decode_output_payload payload) as (result & -> & Hres);
    [by apply Forall_take, Forall_drop | mach |]. cbn [rbind].
  destruct result as [[e used] | err]; [| by eexists].
  destruct (Nat.eqb_spec used (length payload)) as [-> |]; [| by eexists].
  destruct Hres as [Hwf Hp]. eexists. split; [done |]. intros ? ? [= <- <-].
  rewrite take_ge in Hp by done.
  assert (Hrec : take (4 + n + 4) rest = record_bytes e).
  { unfold record_bytes. rewrite <- Hp, Hpl. replace (Z.of_nat n) with len by mach.
    rewrite <- Htake, <- Hct. unfold payload. rewrite <- (drop_drop rest n 4).
    by rewrite <- Nat.add_assoc, !take_plus. }
  split_and!; try done. rewrite <- Hrec, length_take. lia.
Qed.

(** * Journals cut at an arbitrary byte *)

(** [p] is the beginning of the first record of [l], not the whole of it. *)
Definition partial (l : list OutputEvent.t) (p : bytes) : Prop :=
  p = [] \/ exists e l' q, l = e :: l' /\ q <> [] /\ p ++ q = record_bytes e.

(** How many of the records of [l] lie within their first [k] bytes. *)
Fixpoint complete (l : list OutputEvent.t) (k : nat) : nat :=
  match l with
  | [] => O
  | e :: l =>
      if (length (record_bytes e) <=? k)%nat
      then S (complete l (k - length (record_bytes e))) else O
  end.

Lemma take_records_bytes l k :
  exists p, take k (records_bytes l) = records_bytes (take (complete l k) l) ++ p
            /\ partial (drop (complete l k) l) p.
Proof.
  revert k. induction l as [| e l IH]; intros k; cbn [complete].
  - exists []. rewrite (take_nil k : take k (records_bytes []) = _). by split; [| left].
  - rewrite records_bytes_cons. destruct (Nat.leb_spec (length (record_bytes e)) k).
    + destruct (IH (k - length (record_bytes e))%nat) as (p & E & Hp). exists p.
      split; [| exact Hp]. rewrite take_app_ge, E by done. cbn [take].
      by rewrite records_bytes_cons, app_assoc.
    + exists (take k (record_bytes e)). rewrite take_app_le by lia. split; [done |]. right.
      exists e, l, (drop k (record_bytes e)). split_and!; [done | | apply take_drop].
      intros Hd%(f_equal length). rewrite length_drop in Hd. cbn [length] in Hd. lia.
Qed.

Lemma complete_le l k : (complete l k <= length l)%nat.
Proof.
  revert k. induction l as [| e l IH]; intros k; cbn [complete length]; [lia |]. case_match; [| lia].
  specialize (IH (k - length (record_bytes e))%nat). lia.
Qed.

Lemma complete_fits l k : (length (records_bytes (take (complete l k) l)) <= k)%nat.
Proof.
  destruct (take_records_bytes l k) as (p & E & _). apply (f_equal length) in E.
  rewrite length_app, length_take in E. lia.
Qed.

Lemma complete_mono l k k' : (k <= k')%nat -> (complete l k <= complete l k')%nat.
Proof.
  revert k k'. induction l as [| e l IH]; intros k k' Hk; cbn [complete]; [lia |].
  destruct (Nat.leb_spec (length (record_bytes e)) k); [| lia].
  rewrite (proj2 (Nat.leb_le _ _)) by lia.
  specialize (IH (k - length (record_bytes e)) (k' - length (record_bytes e)))%nat. lia.
Qed.

Lemma complete_max l k :
  (complete l k < length l)%nat -> (k < length (records_bytes (take (S (complete l k)) l)))%nat.
Proof.
  revert k. induction l as [| e l IH]; intros k; cbn [complete length]; [lia |].
  destruct (Nat.leb_spec (length (record_bytes e)) k); intros Hl.
  - cbn [take]. rewrite records_bytes_cons, length_app.
    specialize (IH (k - length (record_bytes e))%nat ltac:(lia)). lia.
  - cbn [take]. rewrite records_bytes_cons, length_app. lia.
Qed.

Lemma complete_all l : complete l (length (records_bytes l)) = length l.
Proof.
  induction l as [| e l IH]; [done |]. rewrite records_bytes_cons, length_app. cbn [complete].
  rewrite (proj2 (Nat.leb_le _ _)) by lia.
  by replace (length (record_bytes e) + length (records_bytes l) - length (record_bytes e))%nat
    with (length (records_bytes l)) by lia; rewrite IH.
Qed.

Lemma next_record_cut l p : partial l p -> next_record p = Ret More.
Proof.
  intros [-> | (e & l' & q & -> & Hq & E)]; [done |]. by eapply next_record_partial.
Qed.

Lemma record_bytes_pos e : (9 <= length (record_bytes e))%nat.
Proof. rewrite record_bytes_length. pose proof (output_bytes_nonempty e). lia. Qed.

Lemma records_bytes_count l : (length l <= length (records_bytes l))%nat.
Proof.
  induction l as [| e l IH]; [done |]. rewrite records_bytes_cons, length_app. cbn [length].
  pose proof (record_bytes_pos e). lia.
Qed.

(** ** Recovery *)

Lemma read_records_valid fuel pre l later p events :
  Forall output_wf l -> partial later p -> (length (records_bytes l ++ p) <= fuel)%nat ->
  read_records crc32 fuel (pre ++ records_bytes l ++ p) (length pre) events
  = Ret (events ++ l, if decide (p = []) then None
                      else Some (length pre + length (records_bytes l))%nat).
Proof.
  intros Hl Hp. revert fuel pre events. induction Hl as [| e l He Hl IH]; intros fuel pre events Hf.
  - simpl in *. rewrite app_nil_r, Nat.add_0_r. destruct (decide (p = [])) as [-> | Hne].
    + unfold records_bytes. simpl. rewrite app_nil_r. destruct fuel; simpl; by rewrite Nat.ltb_irrefl.
    + assert (length p <> 0%nat) by (by destruct p). unfold records_bytes in *. simpl in *.
      destruct fuel as [| fuel]; [lia |].
      rewrite read_records_step by (rewrite length_app; lia).
      by rewrite drop_app_length, (next_record_cut later).
  - rewrite records_bytes_cons, <- app_assoc in Hf |- *. rewrite length_app in Hf.
    pose proof (record_bytes_pos e). destruct fuel as [| fuel]; [lia |].
    rewrite read_records_step by (rewrite !length_app; lia).
    rewrite drop_app_length, next_record_full by done. cbn [rbind].
    rewrite <- length_app, app_assoc, IH by lia. rewrite <- app_assoc. cbn [app].
    do 2 f_equal. destruct (decide (p = [])); [done |]. f_equal. rewrite !length_app. lia.
Qed.

Lemma read_records_sound fuel bs off events :
  Forall is_byte bs -> (off <= length bs)%nat -> (length bs - off <= fuel)%nat ->
  exists l tr, read_records crc32 fuel bs off events = Ret (events ++ l, tr)
    /\ Forall output_wf l
    /\ match tr with
       | None => drop off bs = records_bytes l
       | Some stop =>
           stop = (off + length (records_bytes l))%nat /\ (stop < length bs)%nat
           /\ drop off bs = records_bytes l ++ drop stop bs
           /\ forall e post, output_wf e -> drop stop bs <> record_bytes e ++ post
       end.
Proof.
  intros Hb. revert off events. induction fuel as [| fuel IH]; intros off events Ho Hf.
  - exists [], None. simpl. rewrite (proj2 (Nat.ltb_ge _ _)), app_nil_r by lia.
    rewrite drop_ge by lia. by split_and!; [| constructor |].
  - destruct (decide (off = length bs)) as [-> | Hne].
    + exists [], None. cbn [read_records]. rewrite Nat.ltb_irrefl, app_nil_r, drop_ge by lia.
      by split_and!; [| constructor |].
    + rewrite read_records_step by lia.
      destruct (next_record_sound (drop off bs)) as (o & Eo & Hr); [by apply Forall_drop |].
      rewrite Eo. cbn [rbind]. destruct o as [| | e n].
      1,2: exists [], (Some off); rewrite app_nil_r; change (records_bytes []) with (@nil Z);
        cbn [length app]; rewrite Nat.add_0_r; split_and!; try done; try lia;
        intros e post He E; rewrite E, next_record_full in Eo by done; done.
      destruct (Hr e n eq_refl) as (He & Hn & Hlen & Htake). rewrite length_drop in Hn.
      pose proof (record_bytes_pos e).
      destruct (IH (off + n)%nat (events ++ [e])) as (l & tr & -> & Hl & Htr); [lia.. |].
      exists (e :: l), tr. rewrite <- app_assoc. split_and!; [done | by constructor |].
      assert (Ed : drop off bs = record_bytes e ++ drop (off + n) bs)
        by (rewrite <- Htake, <- drop_drop; by rewrite take_drop).
      rewrite records_bytes_cons, Ed. destruct tr as [stop |]; [| by rewrite Htr].
      destruct Htr as (-> & Hs & E2 & Hbad). rewrite length_app, <- Hlen, Nat.add_assoc.
      split_and!; [done | lia | | done]. by rewrite <- app_assoc, <- E2.
Qed.

(** ** Polling *)

Lemma take_records_valid {IoError} fuel limit off pre l later p events :
  Forall output_wf l -> partial later p -> (length l < fuel)%nat -> (length events <= limit)%nat ->
  take_records (IoError := IoError) crc32 fuel limit off (pre ++ records_bytes l ++ p) events
    (length pre)
  = Ret (Ok (events ++ take (limit - length events) l,
             (length pre + length (records_bytes (take (limit - length events) l)))%nat)).
Proof.
  intros Hl Hp. revert fuel pre events. induction Hl as [| e l He Hl IH]; intros fuel pre events Hf Hlim;
    (destruct fuel as [| fuel]; [cbn [length] in Hf; lia |]);
    (destruct (decide (length events = limit)) as [E | Hne];
     [ cbn [take_records]; rewrite E, Nat.ltb_irrefl, Nat.sub_diag, !take_0, app_nil_r;
       change (records_bytes []) with (@nil Z); cbn [length]; by rewrite Nat.add_0_r |]).
  - rewrite take_records_step by (rewrite ?length_app; lia). rewrite drop_app_length.
    change (records_bytes []) with (@nil Z). rewrite app_nil_l, (next_record_cut later) by done.
    cbn [rbind]. rewrite take_nil, app_nil_r. change (records_bytes []) with (@nil Z). cbn [length].
    by rewrite Nat.add_0_r.
  - rewrite records_bytes_cons, <- app_assoc.
    rewrite take_records_step by (rewrite ?length_app; lia).
    rewrite drop_app_length, next_record_full by done. cbn [rbind length] in *.
    rewrite <- length_app, app_assoc, IH by (rewrite ?length_app; cbn [length]; lia).
    rewrite !length_app. cbn [length].
    replace (limit - length events)%nat with (S (limit - (length events + 1))) by lia. cbn [take].
    rewrite records_bytes_cons, length_app, <- app_assoc, Nat.add_assoc. done.
Qed.

Lemma take_length_take {A} n (l : list A) : take n l = take (length (take n l)) l.
Proof.
  rewrite length_take. destruct (Nat.min_spec n (length l)) as [[? ->] | [? ->]]; [done |].
  by rewrite !take_ge by lia.
Qed.

(** Reading in chunks of whatever size appends what the file has gained. *)
Lemma pull_all fuel short file t :
  (jt_file t <= length file)%nat -> (length file - jt_file t < fuel)%nat ->
  0 <= jt_bytes_read t ->
  jt_bytes_read t + Z.of_nat (length file - jt_file t) <= u64_max ->
  pull fuel short file t
  = Ret (mkJournalTail (length file) (jt_offset t) (jt_pending t ++ drop (jt_file t) file)
           (jt_bytes_read t + Z.of_nat (length file - jt_file t))).
Proof.
  revert t. induction fuel as [| fuel IH]; intros [pos off pend n]; cbn [jt_file jt_bytes_read];
    intros Hpos Hf Hn Hsz; [lia |].
  cbn [pull jt_file jt_offset jt_pending jt_bytes_read].
  set (chunk := file_read short file pos).
  assert (Hc : chunk = take (length chunk) (drop pos file)).
  { unfold chunk, file_read. rewrite (take_ge (drop pos file)) by (rewrite length_drop; lia).
    apply take_length_take. }
  assert (Hlen : (length chunk <= length file - pos)%nat).
  { rewrite Hc, length_take, length_drop. lia. }
  assert (Hz : length chunk = 0%nat -> pos = length file).
  { unfold chunk, file_read. rewrite !length_take, length_drop. lia. }
  destruct (Nat.eqb_spec (length chunk) 0) as [E | Hne].
  - rewrite (Hz E), drop_all, app_nil_r, Nat.sub_diag, Z.add_0_r. done.
  - rewrite u64_plain_in by mach. cbn [rbind].
    rewrite IH; cbn [jt_file jt_offset jt_pending jt_bytes_read]; try lia.
    rewrite <- app_assoc, Hc at 1. rewrite <- drop_drop, take_drop. do 2 f_equal. lia.
Qed.

End WithCrc.
