(* ===== verification/JournalTheorems.v ===== *)
(** What the journal promises: recovery after a crash at any byte, the meaning
    of whatever file recovery is given, and a tail that delivers every record
    once. *)

From S2P Require Import Prelude Enums Ids Events Read Canonical CanonicalProps Codec CodecProps.
From S2P Require Import CodecTheorems Journal JournalProps.
Import Journal.

(** * The header *)

Lemma header_length run_id : length (header run_id) = 24%nat.
Proof. unfold header. rewrite !length_app, !le_bytes_length. done. Qed.

Lemma header_bytes_ok run_id : Forall is_byte (header run_id).
Proof. unfold header, MAGIC. solve_bytes. Qed.

Lemma header_good run_id post : header_bad (header run_id ++ post) = Ret false.
Proof. done. Qed.

Lemma header_run_id run_id post :
  in_u128 run_id -> exists s, slice (header run_id ++ post) 8 24 = Ret s /\ from_le s = run_id.
Proof.
  intros Hr. exists (le_bytes 16 run_id). split; [| apply from_le_le_bytes; mach].
  unfold slice. rewrite (proj2 (Nat.leb_le _ _)), (proj2 (Nat.leb_le _ _))
    by (rewrite ?length_app, ?header_length; lia). cbn [andb].
  assert (E : header run_id ++ post
              = (MAGIC ++ le_bytes 2 VERSION ++ le_bytes 2 0) ++ le_bytes 16 run_id ++ post)
    by (unfold header; by rewrite <- !app_assoc).
  rewrite E, drop_app_length' by done. by rewrite take_app_length' by (by rewrite le_bytes_length).
Qed.

Lemma header_bad_total bs : (24 <= length bs)%nat -> exists b, header_bad bs = Ret b.
Proof.
  intros Hl. unfold header_bad, index. rewrite slice_prefix by lia. cbn [rbind].
  destruct (lookup_lt_is_Some_2 bs 4) as [b4 ->]; [lia |].
  destruct (lookup_lt_is_Some_2 bs 5) as [b5 ->]; [lia |]. by eexists.
Qed.

Section WithCrc.
Context (crc32 : bytes -> Z).
Hypothesis crc32_u32 : forall bs, in_u32 (crc32 bs).

(** * The writer *)

Section Writer.
Context {W IoError : Type} `{Sink W IoError}.

Lemma append_ok (jw jw' : JournalWriter (W := W)) e :
  append crc32 jw e = Ret (jw', Ok tt) ->
  accepted (jw_sink jw') = accepted (jw_sink jw) ++ record_bytes crc32 e
  /\ jw_records jw' = jw_records jw + 1.
Proof.
  unfold append, on_sink, encode_output. rewrite app_nil_l.
  destruct (write_all (jw_sink jw) _) as [w1 [[] |]] eqn:E1; [| done].
  destruct (write_all w1 _) as [w2 [[] |]] eqn:E2; [| done].
  destruct (write_all w2 _) as [w3 [[] |]] eqn:E3; [| done].
  intros (n & ->%u64_plain_inv & [= <-])%rbind_inv. simpl. split; [| done].
  apply write_all_ok in E1, E2, E3. rewrite E3, E2, E1. unfold record_bytes.
  pose proof (output_bytes_length e).
  replace (as_u32 (length (output_bytes e))) with (Z.of_nat (length (output_bytes e)))
    by (unfold as_u32; rewrite Z.mod_small; lia). by rewrite <- !app_assoc.
Qed.

Lemma append_all_ok (jw jw' : JournalWriter (W := W)) events :
  append_all crc32 jw events = Ret (jw', Ok tt) ->
  accepted (jw_sink jw') = accepted (jw_sink jw) ++ records_bytes crc32 events
  /\ jw_records jw' = jw_records jw + Z.of_nat (length events).
Proof.
  revert jw. induction events as [| e events IH]; intros jw; cbn [append_all].
  - intros [= <-]. rewrite app_nil_r, Z.add_0_r. done.
  - intros ([jw1 [[] |]] & E & Ht)%rbind_inv; [| done].
    apply append_ok in E as [E1 E2]. apply IH in Ht as [-> ->]. rewrite E1, E2.
    rewrite records_bytes_cons, app_assoc. cbn [length]. split; [done | lia].
Qed.

Lemma with_sink_ok (w : W) run_id file jw :
  with_sink w run_id file = Ok jw ->
  accepted (jw_sink jw) = accepted w ++ header run_id /\ jw_records jw = 0.
Proof.
  unfold with_sink, on_sink.
  destruct (write_all w _) as [w1 [[] |]] eqn:E1; [| done].
  destruct (flush_sink w1) as [w2 [[] |]] eqn:E2; [| done].
  intros [= <-]. simpl. apply write_all_ok in E1. apply flush_sink_ok in E2.
  by rewrite E2, E1.
Qed.

End Writer.

(** * Recovery *)

Lemma read_journal_prefix {IoError} run_id events k :
  in_u128 run_id -> Forall output_wf events ->
  exists tr,
    read_journal (IoError := IoError) crc32
      (header run_id ++ take k (records_bytes crc32 events))
    = Ret (Ok (mkJournalRecovery run_id (take (complete crc32 events k) events) tr))
    /\ (tr = None <-> take k (records_bytes crc32 events)
                      = records_bytes crc32 (take (complete crc32 events k) events)).
Proof.
  intros Hr He. set (n := complete crc32 events k).
  destruct (take_records_bytes crc32 events k) as (p & E & Hp). fold n in E, Hp.
  set (tr := if decide (p = []) then None
             else Some (24 + length (records_bytes crc32 (take n events)))%nat).
  exists tr. unfold read_journal, HEADER_LEN.
  rewrite (proj2 (Nat.ltb_ge _ _)) by (rewrite length_app, header_length; lia).
  rewrite header_good. cbn [rbind].
  destruct (header_run_id run_id (take k (records_bytes crc32 events)) Hr) as (s & -> & Hs).
  cbn [rbind]. rewrite E. split.
  - pose proof (fun fuel => read_records_valid crc32 crc32_u32 fuel (header run_id)
      (take n events) (drop n events) p []) as Hv. rewrite header_length in Hv.
    rewrite Hv; [| by apply Forall_take | done | rewrite !length_app; lia].
    cbn [rbind]. by rewrite Hs.
  - unfold tr. destruct (decide (p = [])) as [-> | Hne]; [by rewrite app_nil_r |].
    split; [done |]. intros Ha%(f_equal length). rewrite length_app in Ha. destruct p; [done |].
    cbn [length] in Ha. lia.
Qed.

(** C19: Crash recovery.  A journal written without an error and then cut at
    any byte after its header is read back as the run's id and exactly the
    events whose records lie wholly within what is left, in order; the cut is
    reported exactly when it falls inside a record.  A cut inside the header
    is reported as an incomplete header, not as corruption. *)
Theorem crash_recovery {W IoError : Type} `{Sink W IoError} (w : W) run_id file jw jw' events k :
  in_u128 run_id -> Forall output_wf events -> accepted w = [] ->
  with_sink w run_id file = Ok jw -> append_all crc32 jw events = Ret (jw', Ok tt) ->
  (k <= length (accepted (jw_sink jw')))%nat ->
  let recovered := read_journal (IoError := IoError) crc32 (take k (accepted (jw_sink jw'))) in
  jw_records jw' = Z.of_nat (length events)
  /\ ((k < 24)%nat -> recovered = Ret (Err IncompleteHeader))
  /\ ((24 <= k)%nat ->
      exists n tr, recovered = Ret (Ok (mkJournalRecovery run_id (take n events) tr))
        /\ (24 + length (records_bytes crc32 (take n events)) <= k)%nat
        /\ ((n < length events)%nat ->
            (k < 24 + length (records_bytes crc32 (take (S n) events)))%nat)
        /\ (tr = None <-> k = (24 + length (records_bytes crc32 (take n events)))%nat)).
Proof.
  intros Hr He Hw Hs Ha Hk. apply with_sink_ok in Hs as [Es Er].
  apply append_all_ok in Ha as [Ea En]. rewrite Er in En. rewrite Es, Hw, app_nil_l in Ea.
  cbv zeta. rewrite Ea in *. rewrite length_app, header_length in Hk. split_and!; [done | |].
  - intros Hlt. unfold read_journal, HEADER_LEN. rewrite (proj2 (Nat.ltb_lt _ _)); [done |].
    rewrite length_take. lia.
  - intros Hge. rewrite take_app_ge by (rewrite header_length; lia). rewrite header_length.
    destruct (read_journal_prefix (IoError := IoError) run_id events (k - 24) Hr He)
      as (tr & -> & Htr).
    exists (complete crc32 events (k - 24)), tr.
    pose proof (complete_fits crc32 events (k - 24)). split_and!; [done | lia | |].
    + intros Hn%complete_max. lia.
    + rewrite Htr. destruct (take_records_bytes crc32 events (k - 24)) as (p & E & _).
      rewrite E. pose proof (f_equal length E) as El. rewrite length_app, length_take in El.
      split; intros Heq.
      * apply (f_equal length) in Heq. rewrite length_app in Heq. lia.
      * destruct p; [by rewrite app_nil_r | cbn [length] in El; lia].
Qed.

(** C20: Recovery of an arbitrary file.  [read_journal] never panics; the
    events it returns are well-formed and their records are byte for byte what
    the file holds from offset 24 up to where it stopped; it stops early only
    at an offset where no valid record begins, so no valid record at the front
    is ever lost and nothing is invented. *)
Theorem read_journal_sound {IoError} bs :
  Forall is_byte bs ->
  exists result, read_journal (IoError := IoError) crc32 bs = Ret result
    /\ forall r, result = Ok r ->
         Forall output_wf (jr_events r) /\ in_u128 (jr_run_id r)
         /\ match jr_truncated_at r with
            | None => drop 24 bs = records_bytes crc32 (jr_events r)
            | Some stop =>
                stop = (24 + length (records_bytes crc32 (jr_events r)))%nat
                /\ (stop < length bs)%nat
                /\ drop 24 bs = records_bytes crc32 (jr_events r) ++ drop stop bs
                /\ forall e post, output_wf e -> drop stop bs <> record_bytes crc32 e ++ post
            end.
Proof.
  intros Hb. unfold read_journal, HEADER_LEN. destruct (Nat.ltb_spec (length bs) 24); [by eexists |].
  destruct (header_bad_total bs) as [bad ->]; [done |]. cbn [rbind].
  destruct bad; [by eexists |].
  assert (Hs : slice bs 8 24 = Ret (take 16 (drop 8 bs))).
  { unfold slice. rewrite (proj2 (Nat.leb_le _ _)), (proj2 (Nat.leb_le _ _)) by lia. done. }
  rewrite Hs. cbn [rbind].
  destruct (read_records_sound crc32 crc32_u32 (length bs) bs 24 []) as (l & tr & -> & Hl & Htr);
    [done | lia | lia |].
  eexists. split; [done |]. intros r [= <-]. cbn [jr_events jr_run_id jr_truncated_at].
  split_and!; [done | | done].
  pose proof (from_le_bound (take 16 (drop 8 bs))) as Hbd.
  rewrite length_take, length_drop, Nat.min_l in Hbd by lia.
  specialize (Hbd ltac:(by apply Forall_take, Forall_drop)). mach.
Qed.

(** * The tail *)

Section Tail.
Context {IoError : Type} (short : nat -> nat) (run_id : Z) (events : list OutputEvent.t).
Hypothesis events_wf : Forall output_wf events.
Hypothesis events_size : Z.of_nat (24 + length (records_bytes crc32 events)) <= u64_max.

(** The file when [k] bytes of the records have been written. *)
Definition file_at (k : nat) : bytes := header run_id ++ take k (records_bytes crc32 events).

(** The reader has seen [k] bytes of the records and delivered [m] events. *)
Record tail_at (t : JournalTail) (k m : nat) : Prop := {
  ta_file : jt_file t = (24 + k)%nat;
  ta_size : (k <= length (records_bytes crc32 events))%nat;
  ta_complete : (m <= complete crc32 events k)%nat;
  ta_offset : jt_offset t = (24 + length (records_bytes crc32 (take m events)))%nat;
  ta_pending : jt_pending t = drop (length (records_bytes crc32 (take m events)))
                                (take k (records_bytes crc32 events));
  ta_read : jt_bytes_read t = Z.of_nat k
}.

Lemma file_at_length k :
  (k <= length (records_bytes crc32 events))%nat -> length (file_at k) = (24 + k)%nat.
Proof. intros Hk. unfold file_at. rewrite length_app, header_length, length_take. lia. Qed.

Lemma records_prefix_le m n :
  (m <= n)%nat -> (length (records_bytes crc32 (take m events))
                   <= length (records_bytes crc32 (take n events)))%nat.
Proof.
  intros H. replace n with (m + (n - m))%nat by lia.
  rewrite take_plus, records_bytes_app, length_app. lia.
Qed.

(** What the reader has pending once it has read up to [k']. *)
Lemma pending_grows m k k' :
  (k <= k')%nat -> (m <= complete crc32 events k)%nat ->
  drop (length (records_bytes crc32 (take m events))) (take k (records_bytes crc32 events))
    ++ drop (24 + k) (file_at k')
  = drop (length (records_bytes crc32 (take m events))) (take k' (records_bytes crc32 events)).
Proof.
  intros Hk Hm. unfold file_at. set (a := length (records_bytes crc32 (take m events))).
  assert (Ha : (a <= k)%nat).
  { pose proof (records_prefix_le _ _ Hm). pose proof (complete_fits crc32 events k). lia. }
  rewrite drop_app_ge by (rewrite header_length; lia). rewrite header_length.
  replace (24 + k - 24)%nat with k by lia.
  set (R := records_bytes crc32 events) in *.
  destruct (Nat.le_gt_cases (length R) k) as [Hge | Hlt].
  - rewrite !(take_ge R), (drop_ge R k) by lia. by rewrite app_nil_r.
  - rewrite <- (take_drop k (take k' R)) at 2. rewrite take_take, Nat.min_l by done.
    rewrite drop_app_le by (rewrite length_take; lia). done.
Qed.

Lemma pending_records m k :
  (m <= complete crc32 events k)%nat ->
  exists p, drop (length (records_bytes crc32 (take m events))) (take k (records_bytes crc32 events))
            = records_bytes crc32 (drop m (take (complete crc32 events k) events)) ++ p
            /\ partial crc32 (drop (complete crc32 events k) events) p.
Proof.
  intros Hm. destruct (take_records_bytes crc32 events k) as (p & E & Hp). exists p.
  split; [| done]. rewrite E. set (n := complete crc32 events k) in *.
  rewrite <- (take_drop m (take n events)) at 1. rewrite take_take, Nat.min_l by done.
  by rewrite records_bytes_app, <- app_assoc, drop_app_length.
Qed.

Lemma poll_ok t k m k' limit :
  tail_at t k m -> (k <= k' <= length (records_bytes crc32 events))%nat ->
  let delivered := take limit (drop m (take (complete crc32 events k') events)) in
  exists t', poll (IoError := IoError) crc32 short (file_at k') t limit = Ret (t', Ok delivered)
    /\ tail_at t' k' (m + length delivered).
Proof.
  intros [Hf Hs Hm Ho Hpend Hr] Hk delivered.
  pose proof (complete_mono crc32 events k k' ltac:(lia)) as Hmono.
  pose proof (complete_le crc32 events k') as Hcl.
  pose proof (file_at_length k' ltac:(lia)) as Hfl. set (n' := complete crc32 events k') in *.
  unfold poll. rewrite pull_all by (rewrite ?Hf, ?Hr; lia). cbn [rbind jt_pending jt_offset].
  rewrite Hf, Hpend, pending_grows by lia.
  destruct (pending_records m k') as (p & E & Hp); [lia |]. fold n' in E, Hp. rewrite E.
  set (l := drop m (take n' events)) in *.
  assert (Hl : (length l <= length (records_bytes crc32 l ++ p))%nat)
    by (rewrite length_app; pose proof (records_bytes_count crc32 l); lia).
  pose proof (take_records_valid (IoError := IoError) crc32 crc32_u32
    (S (length (records_bytes crc32 l ++ p))) limit (jt_offset t) [] l (drop n' events) p []) as Hv.
  cbn [app length] in Hv. rewrite Nat.sub_0_r in Hv. fold delivered in Hv.
  rewrite Hv by (try apply Forall_drop, Forall_take; done || lia). cbn [rbind Nat.add].
  assert (Hml : take (m + length delivered) events = take m events ++ delivered).
  { rewrite take_plus. f_equal. unfold delivered, l. rewrite skipn_firstn_comm, take_take.
    apply symmetry, take_length_take. }
  assert (Hlen : length (records_bytes crc32 (take (m + length delivered) events))
                 = (length (records_bytes crc32 (take m events))
                    + length (records_bytes crc32 delivered))%nat)
    by (by rewrite Hml, records_bytes_app, length_app).
  assert (Hle : (m + length delivered <= n')%nat).
  { unfold delivered, l. rewrite length_take, length_drop, length_take. lia. }
  destruct (Nat.ltb_spec 0 (length (records_bytes crc32 delivered))) as [Hpos | Hz];
    eexists; (split; [reflexivity |]); constructor;
    cbn [jt_file jt_offset jt_pending jt_bytes_read]; rewrite ?Hfl, ?Hr; try lia.
  - by rewrite Hlen, <- drop_drop, <- E.
  - rewrite Hlen. replace (length (records_bytes crc32 delivered)) with O by lia.
    by rewrite Nat.add_0_r, E.
Qed.

Lemma open_ok k :
  (k <= length (records_bytes crc32 events))%nat ->
  open (IoError := IoError) (file_at k) = Ret (Ok (mkJournalTail 24 24 [] 0)).
Proof.
  intros Hk. unfold open, HEADER_LEN.
  rewrite (proj2 (Nat.ltb_ge _ _)) by (rewrite file_at_length; lia).
  rewrite slice_prefix by (rewrite file_at_length; lia). cbn [rbind]. unfold file_at.
  rewrite take_app_length' by (symmetry; apply header_length). done.
Qed.

(** A reader polled while the file grows: each poll sees the first [k] bytes of
    the records and asks for at most [limit] events. *)
Fixpoint run_polls (t : JournalTail) (polls : list (nat * nat))
  : res (Result (list OutputEvent.t * JournalTail) (JournalError IoError)) :=
  match polls with
  | [] => Ret (Ok ([], t))
  | (k, limit) :: polls =>
      let! r := poll crc32 short (file_at k) t limit in
      match r with
      | (t, Ok es) => let? (es', t) := run_polls t polls in Ret (Ok (es ++ es', t))
      | (_, Err e) => Ret (Err e)
      end
  end.

(** The file only grows. *)
Fixpoint growing (k : nat) (polls : list (nat * nat)) : Prop :=
  match polls with
  | [] => True
  | (k', _) :: polls =>
      (k <= k' <= length (records_bytes crc32 events))%nat /\ growing k' polls
  end.

Lemma run_polls_ok t k m polls k' limit :
  tail_at t k m -> growing k (polls ++ [(k', limit)]) ->
  exists m' t', run_polls t (polls ++ [(k', limit)]) = Ret (Ok (drop m (take m' events), t'))
    /\ tail_at t' k' m' /\ (m <= m')%nat
    /\ ((length events <= limit)%nat -> m' = complete crc32 events k').
Proof.
  revert t k m. induction polls as [| [k1 l1] polls IH]; intros t k m Ht Hg.
  - destruct Hg as [Hk _]. cbn [app run_polls].
    destruct (poll_ok t k m k' limit Ht Hk) as (t' & -> & Ht'). cbn [rbind qbind].
    rewrite app_nil_r. set (d := take limit _) in *. exists (m + length d)%nat, t'.
    pose proof (ta_complete _ _ _ Ht) as Hm.
    pose proof (complete_mono crc32 events k k' ltac:(lia)).
    pose proof (complete_le crc32 events k').
    split_and!; [| done | lia |].
    + do 3 f_equal. rewrite take_plus, drop_app_ge; rewrite length_take;
        [| lia]. replace (m - Nat.min m (length events))%nat with O by lia. rewrite drop_0.
      unfold d. rewrite skipn_firstn_comm, take_take. apply take_length_take.
    + intros Hl. unfold d. rewrite length_take, length_drop, length_take. lia.
  - destruct Hg as [Hk Hg]. cbn [app run_polls].
    destruct (poll_ok t k m k1 l1 Ht Hk) as (t1 & -> & Ht1). cbn [rbind].
    set (d := take l1 _) in *.
    destruct (IH _ _ _ Ht1 Hg) as (m' & t' & -> & Ht' & Hm' & Hall). cbn [qbind].
    exists m', t'. split_and!; [| done | lia | done]. do 3 f_equal.
    rewrite <- drop_drop. etransitivity; [| apply (take_drop (length d))]. f_equal.
    assert (Ed : d = take (Nat.min l1 (complete crc32 events k1 - m)) (drop m events))
      by (unfold d; by rewrite skipn_firstn_comm, take_take).
    clearbody d. subst d. rewrite (skipn_firstn_comm m m'), (take_take (drop m events)).
    rewrite (Nat.min_l (length _)) by lia. apply take_length_take.
Qed.

End Tail.

(** The tail delivers every record once.  A reader that opens a journal
    while it is being written and polls it as it grows, with any limits and
    however the operating system cuts the reads, never sees an error; what its
    polls return, put together, is a beginning of the written events; it never
    runs ahead of the complete records, reads every byte of the records once,
    and a last poll with a large enough limit leaves no complete record
    behind. *)
Theorem tail_delivers_once {IoError} short run_id events k0 polls k limit :
  Forall output_wf events ->
  Z.of_nat (24 + length (records_bytes crc32 events)) <= u64_max ->
  growing events k0 (polls ++ [(k, limit)]) ->
  (k0 <= length (records_bytes crc32 events))%nat ->
  exists t0 m t,
    open (IoError := IoError) (file_at run_id events k0) = Ret (Ok t0)
    /\ run_polls (IoError := IoError) short run_id events t0 (polls ++ [(k, limit)])
       = Ret (Ok (take m events, t))
    /\ (m <= complete crc32 events k)%nat
    /\ jt_bytes_read t = Z.of_nat k
    /\ jt_offset t = (24 + length (records_bytes crc32 (take m events)))%nat
    /\ ((length events <= limit)%nat -> m = complete crc32 events k).
Proof.
  intros He Hs Hg Hk0. eexists. rewrite open_ok by done.
  assert (Ht : tail_at events (mkJournalTail 24 24 [] 0) 0 0).
  { constructor; cbn [jt_file jt_offset jt_pending jt_bytes_read]; try done; try lia. }
  assert (Hg0 : growing events 0 (polls ++ [(k, limit)])).
  { destruct polls as [| [k1 l1] polls]; destruct Hg as [? ?]; (split; [lia | done]). }
  destruct (run_polls_ok (IoError := IoError) short run_id events He Hs _ _ _ polls k limit Ht Hg0)
    as (m & t & E & Ht' & _ & Hall).
  exists m, t. rewrite drop_0 in E. destruct Ht' as [? ? ? ? ? ?]. split_and!; done.
Qed.

End WithCrc.

(** * Witnesses

    The checksum instantiated with the sum of the bytes and the sink with a
    growing buffer that never fails. *)

#[export] Instance memory_sink : Sink bytes unit.
Proof.
  refine {| accepted w := w;
            write_all w bs := (w ++ bs, Ok tt);
            flush_sink w := (w, Ok tt);
            sync_data w := (w, Ok tt) |}; intros; by simplify_eq.
Defined.

Definition journal_events : list OutputEvent.t :=
  [ OutputEvent.State (mkStateEvent 1 1 5 EngineStateEvent.KillSwitchEngaged);
    OutputEvent.Trade (mkTradeEvent 2 3 7 1 1 10 11 1 2 Side.Sell (-4) 6) ].

Lemma journal_events_wf : Forall output_wf journal_events.
Proof. by repeat constructor. Qed.

(** The journal of [journal_events] cut in the middle of its second record. *)
Lemma crash_recovery_witness :
  let recovered := read_journal (IoError := unit) sum32
    (take 60 (header 77 ++ records_bytes sum32 journal_events)) in
  2 = Z.of_nat (length journal_events)
  /\ ((60 < 24)%nat -> recovered = Ret (Err IncompleteHeader))
  /\ ((24 <= 60)%nat ->
      exists n tr, recovered = Ret (Ok (mkJournalRecovery 77 (take n journal_events) tr))
        /\ (24 + length (records_bytes sum32 (take n journal_events)) <= 60)%nat
        /\ ((n < length journal_events)%nat ->
            (60 < 24 + length (records_bytes sum32 (take (S n) journal_events)))%nat)
        /\ (tr = None <-> 60%nat = (24 + length (records_bytes sum32 (take n journal_events)))%nat)).
Proof.
  pose proof (crash_recovery sum32 sum32_u32 (W := bytes) (IoError := unit) [] 77 false
           (mkJournalWriter (header 77) false [] 0)
           (mkJournalWriter (header 77 ++ records_bytes sum32 journal_events) false
              (output_bytes (OutputEvent.Trade (mkTradeEvent 2 3 7 1 1 10 11 1 2 Side.Sell (-4) 6)))
              2) journal_events 60) as T. cbv zeta in T |- *.
  cbn [accepted memory_sink jw_sink jw_records] in T. apply T.
  - by vm_compute.
  - apply journal_events_wf.
  - reflexivity.
  - by vm_compute.
  - by vm_compute.
  - vm_compute. lia.
Defined.

Lemma read_journal_sound_witness :
  let bs := header 77 ++ records_bytes sum32 (take 1 journal_events) ++ [1; 0; 0; 0; 9; 9; 9; 9; 9] in
  exists result, read_journal (IoError := unit) sum32 bs = Ret result
    /\ forall r, result = Ok r ->
         Forall output_wf (jr_events r) /\ in_u128 (jr_run_id r)
         /\ match jr_truncated_at r with
            | None => drop 24 bs = records_bytes sum32 (jr_events r)
            | Some stop =>
                stop = (24 + length (records_bytes sum32 (jr_events r)))%nat
                /\ (stop < length bs)%nat
                /\ drop 24 bs = records_bytes sum32 (jr_events r) ++ drop stop bs
                /\ forall e post, output_wf e -> drop stop bs <> record_bytes sum32 e ++ post
            end.
Proof.
  apply (read_journal_sound sum32 sum32_u32 (IoError := unit)).
  apply Forall_app_2; [apply header_bytes_ok |].
  apply Forall_app_2; [apply records_bytes_bytes | by repeat constructor].
Defined.

(** Two polls: one byte at a time while the second record is incomplete, then
    the rest. *)
Lemma tail_delivers_once_witness :
  exists t0 m t,
    open (IoError := unit) (file_at sum32 77 journal_events 10) = Ret (Ok t0)
    /\ run_polls sum32 (IoError := unit) (fun _ => 1%nat) 77 journal_events t0 ([(50, 5)] ++ [(100, 2)])%nat
       = Ret (Ok (take m journal_events, t))
    /\ (m <= complete sum32 journal_events 100)%nat
    /\ jt_bytes_read t = Z.of_nat 100
    /\ jt_offset t = (24 + length (records_bytes sum32 (take m journal_events)))%nat
    /\ ((length journal_events <= 2)%nat -> m = complete sum32 journal_events 100).
Proof.
  apply (tail_delivers_once sum32 sum32_u32 (IoError := unit) (fun _ => 1%nat) 77 journal_events 10
           [(50, 5)]%nat 100 2).
  - apply journal_events_wf.
  - by vm_compute.
  - vm_compute. lia.
  - vm_compute. lia.
Defined.
