(* ===== verification/Queue.v ===== *)
(** Bounded single-producer single-consumer queues
    ([crates/engine-runtime/src/queue.rs]).

    The ring buffer is [rtrb], code of another package: the class [Ring] lists
    the calls the source makes, [RingLaws] its documented behaviour, a bounded
    first-in first-out queue whose two ends can be dropped.  The control
    surface uses [crossbeam_queue::ArrayQueue], the class [ArrayQueue].

    [send], [recv] and [try_recv] run while the other side runs too, so each is
    a machine: a value says where the code stands, and one step is one access
    to memory that the other thread writes or reads.  The counters [pushed],
    [full_events] and [high_water] are written by the producer only and read
    after both threads have ended, so updating them is part of the step around
    them; [popped] is read by the producer, so it is a step of its own. *)

From S2P Require Import Prelude.

(** * The ring buffer *)

(** The logical content of a ring. *)
Record RingView (T : Type) := mkRingView {
  rv_items : list T;
  rv_slots : nat;
  rv_producer_gone : bool;
  rv_consumer_gone : bool
}.

Arguments mkRingView {T}.
Arguments rv_items {T}.
Arguments rv_slots {T}.
Arguments rv_producer_gone {T}.
Arguments rv_consumer_gone {T}.

Class Ring (T R : Type) := {
  (** [RingBuffer::new]. *)
  ring_new : nat -> R;
  (** [Producer::push]; [Some v] is [Err(PushError::Full(v))]. *)
  ring_push : R -> T -> R * option T;
  (** [Consumer::pop]; [None] is [Err(PopError::Empty)]. *)
  ring_pop : R -> R * option T;
  (** [Producer::is_abandoned]: the consumer has been dropped. *)
  producer_is_abandoned : R -> bool;
  (** [Consumer::is_abandoned]: the producer has been dropped. *)
  consumer_is_abandoned : R -> bool;
  drop_producer : R -> R;
  drop_consumer : R -> R
}.

Module View.
Section View.
Context {T : Type}.
Implicit Types (v : RingView T).

Definition push (v : RingView T) (x : T) : RingView T * option T :=
  if (length (rv_items v) <? rv_slots v)%nat
  then (mkRingView (rv_items v ++ [x]) (rv_slots v) (rv_producer_gone v) (rv_consumer_gone v), None)
  else (v, Some x).

Definition pop (v : RingView T) : RingView T * option T :=
  match rv_items v with
  | [] => (v, None)
  | x :: items => (mkRingView items (rv_slots v) (rv_producer_gone v) (rv_consumer_gone v), Some x)
  end.

Definition drop_producer (v : RingView T) : RingView T :=
  mkRingView (rv_items v) (rv_slots v) true (rv_consumer_gone v).

Definition drop_consumer (v : RingView T) : RingView T :=
  mkRingView (rv_items v) (rv_slots v) (rv_producer_gone v) true.

End View.
End View.

(** Every call acts on the content as on a bounded queue, and takes effect at
    one moment. *)
Class RingLaws {T R : Type} (RG : Ring T R) := {
  ring_view : R -> RingView T;
  ring_new_view n : ring_view (ring_new n) = mkRingView [] n false false;
  ring_push_view r x :
    (ring_view (fst (ring_push r x)), snd (ring_push r x)) = View.push (ring_view r) x;
  ring_pop_view r : (ring_view (fst (ring_pop r)), snd (ring_pop r)) = View.pop (ring_view r);
  producer_abandoned_view r : producer_is_abandoned r = rv_consumer_gone (ring_view r);
  consumer_abandoned_view r : consumer_is_abandoned r = rv_producer_gone (ring_view r);
  drop_producer_view r : ring_view (drop_producer r) = View.drop_producer (ring_view r);
  drop_consumer_view r : ring_view (drop_consumer r) = View.drop_consumer (ring_view r)
}.

(** The content itself is a ring. *)
#[export] Instance list_ring (T : Type) : Ring T (RingView T) := {|
  ring_new n := mkRingView [] n false false;
  ring_push := View.push;
  ring_pop := View.pop;
  producer_is_abandoned := rv_consumer_gone;
  consumer_is_abandoned := rv_producer_gone;
  drop_producer := View.drop_producer;
  drop_consumer := View.drop_consumer
|}.

#[export] Instance list_ring_laws (T : Type) : RingLaws (list_ring T).
Proof.
  exists (fun v => v); try done; intros; symmetry; apply surjective_pairing.
Defined.

(** * The control queues *)

Class ArrayQueue (T Q : Type) := {
  (** [ArrayQueue::new]; a capacity of zero panics. *)
  aq_new : nat -> res Q;
  (** [push]; [false] is [Err(_)], the queue was full. *)
  aq_push : Q -> T -> Q * bool;
  aq_pop : Q -> Q * option T;
  (** [force_push] replaces the oldest element of a full queue and returns it. *)
  aq_force_push : Q -> T -> Q * option T
}.

Class ArrayQueueLaws {T Q : Type} (AQ : ArrayQueue T Q) := {
  aq_items : Q -> list T;
  aq_slots : Q -> nat;
  aq_new_ok n : (0 < n)%nat -> exists q, aq_new n = Ret q /\ aq_items q = [] /\ aq_slots q = n;
  aq_push_ok q x :
    (length (aq_items q) < aq_slots q)%nat ->
    snd (aq_push q x) = true /\ aq_items (fst (aq_push q x)) = aq_items q ++ [x]
    /\ aq_slots (fst (aq_push q x)) = aq_slots q;
  aq_push_full q x :
    (aq_slots q <= length (aq_items q))%nat -> aq_push q x = (q, false);
  aq_pop_ok q x items :
    aq_items q = x :: items ->
    snd (aq_pop q) = Some x /\ aq_items (fst (aq_pop q)) = items
    /\ aq_slots (fst (aq_pop q)) = aq_slots q;
  aq_pop_empty q : aq_items q = [] -> aq_pop q = (q, None);
  aq_force_push_ok q x :
    (length (aq_items q) < aq_slots q)%nat ->
    snd (aq_force_push q x) = None /\ aq_items (fst (aq_force_push q x)) = aq_items q ++ [x]
    /\ aq_slots (fst (aq_force_push q x)) = aq_slots q;
  aq_force_push_full q x old items :
    (aq_slots q <= length (aq_items q))%nat -> aq_items q = old :: items ->
    snd (aq_force_push q x) = Some old /\ aq_items (fst (aq_force_push q x)) = items ++ [x]
    /\ aq_slots (fst (aq_force_push q x)) = aq_slots q
}.

(** A list with its capacity. *)
#[export] Instance list_array_queue (T : Type) : ArrayQueue T (list T * nat) := {|
  aq_new n := if (n =? 0)%nat then Panic else Ret ([], n);
  aq_push q x := if (length q.1 <? q.2)%nat then ((q.1 ++ [x], q.2), true) else (q, false);
  aq_pop q := match q.1 with [] => (q, None) | x :: items => ((items, q.2), Some x) end;
  aq_force_push q x :=
    if (length q.1 <? q.2)%nat then ((q.1 ++ [x], q.2), None)
    else match q.1 with
         | [] => (q, None)
         | old :: items => ((items ++ [x], q.2), Some old)
         end
|}.

#[export] Instance list_array_queue_laws (T : Type) : ArrayQueueLaws (list_array_queue T).
Proof.
  exists fst snd; simpl.
  - intros n Hn. destruct (Nat.eqb_spec n 0); [lia |]. by eexists.
  - intros q x Hq. by destruct (Nat.ltb_spec (length q.1) q.2); [| lia].
  - intros q x Hq. by destruct (Nat.ltb_spec (length q.1) q.2); [lia |].
  - intros q x items Hq. by rewrite Hq.
  - intros q Hq. by rewrite Hq.
  - intros q x Hq. by destruct (Nat.ltb_spec (length q.1) q.2); [| lia].
  - intros q x old items Hq He. destruct (Nat.ltb_spec (length q.1) q.2); [lia |]. by rewrite He.
Defined.

(** * Waiting *)

Inductive WaitStrategy :=
| BusySpin
| Adaptive (spins yields : Z)
| Sleep.

(** [WaitStrategy::default]. *)
Definition wait_default : WaitStrategy := Adaptive 200 20.

(** What [wait] does to the thread. *)
Inductive Pause := SpinLoop | YieldNow | SleepMicros (micros : Z).

Record Backoff := mkBackoff {
  bo_strategy : WaitStrategy;
  bo_attempt : Z
}.

Definition backoff_new (strategy : WaitStrategy) : Backoff := mkBackoff strategy 0.

Definition backoff_reset (b : Backoff) : Backoff := mkBackoff (bo_strategy b) 0.

Definition wait (b : Backoff) : res (Backoff * Pause) :=
  let attempt := Z.min u32_max (bo_attempt b + 1) in
  let b := mkBackoff (bo_strategy b) attempt in
  match bo_strategy b with
  | BusySpin => Ret (b, SpinLoop)
  | Adaptive spins yields =>
      if attempt <=? spins then Ret (b, SpinLoop)
      else
        let! bound := u32_plain (spins + yields) in
        if attempt <=? bound then Ret (b, YieldNow) else Ret (b, SleepMicros 50)
  | Sleep => Ret (b, SleepMicros 50)
  end.

(** * Counters *)

Record QueueStats := mkQueueStats {
  qs_pushed : Z;
  qs_popped : Z;
  qs_full_events : Z;
  qs_high_water : Z
}.

Definition stats_default : QueueStats := mkQueueStats 0 0 0 0.

(** [QueueStats::depth]. *)
Definition depth (s : QueueStats) : Z := u64_saturating_sub (qs_pushed s) (qs_popped s).

(** An atomic [fetch_add(1)] wraps. *)
Definition count_full (s : QueueStats) : QueueStats :=
  mkQueueStats (qs_pushed s) (qs_popped s) (u64_wrap (qs_full_events s + 1)) (qs_high_water s).

Definition count_popped (s : QueueStats) : QueueStats :=
  mkQueueStats (qs_pushed s) (u64_wrap (qs_popped s + 1)) (qs_full_events s) (qs_high_water s).

Definition count_pushed (s : QueueStats) : QueueStats :=
  mkQueueStats (u64_wrap (qs_pushed s + 1)) (qs_popped s) (qs_full_events s) (qs_high_water s).

(** [high_water.fetch_max(depth)]. *)
Definition raise_high_water (s : QueueStats) (depth : Z) : QueueStats :=
  mkQueueStats (qs_pushed s) (qs_popped s) (qs_full_events s) (Z.max (qs_high_water s) depth).

(** * Channels *)

Section Channel.
Context {T R : Type} `{RG : Ring T R}.

(** What a [Sender] and its [Receiver] share. *)
Record Channel := mkChannel {
  ch_ring : R;
  ch_stats : QueueStats;
  ch_strategy : WaitStrategy
}.

Definition bounded (capacity : nat) (strategy : WaitStrategy) : Channel :=
  mkChannel (ring_new capacity) stats_default strategy.

Definition set_ring (c : Channel) (r : R) : Channel := mkChannel r (ch_stats c) (ch_strategy c).
Definition set_stats (c : Channel) (s : QueueStats) : Channel :=
  mkChannel (ch_ring c) s (ch_strategy c).

(** ** Sending *)

Inductive SendPc :=
| SendPush (value : T) (counted_full : bool) (backoff : Backoff)
| SendFull (value : T) (counted_full : bool) (backoff : Backoff)
| SendCount
| SendSample (pushed : Z)
| SendMax (depth : Z).

(** [send(value)] is called. *)
Definition send (c : Channel) (value : T) : SendPc :=
  SendPush value false (backoff_new (ch_strategy c)).

(** One step; [inr b] when [send] returns [b].  After a push the counter grows,
    and every 64th push samples the depth from the two counters. *)
Definition send_step (c : Channel) (pc : SendPc) : res (Channel * (SendPc + bool)) :=
  match pc with
  | SendPush value counted_full backoff =>
      match ring_push (ch_ring c) value with
      | (r, None) => Ret (set_ring c r, inl SendCount)
      | (r, Some returned) => Ret (set_ring c r, inl (SendFull returned counted_full backoff))
      end
  | SendFull value counted_full backoff =>
      if producer_is_abandoned (ch_ring c) then Ret (c, inr false)
      else
        let c := if counted_full then c else set_stats c (count_full (ch_stats c)) in
        let! (backoff, _) := wait backoff in
        Ret (c, inl (SendPush value true backoff))
  | SendCount =>
      let! pushed := u64_plain (qs_pushed (ch_stats c) + 1) in
      let! k := u64_rem pushed 64 in
      Ret (set_stats c (count_pushed (ch_stats c)),
           if k =? 0 then inl (SendSample pushed) else inr true)
  | SendSample pushed => Ret (c, inl (SendMax (u64_saturating_sub pushed (qs_popped (ch_stats c)))))
  | SendMax depth => Ret (set_stats c (raise_high_water (ch_stats c) depth), inr true)
  end.

(** ** Receiving *)

Inductive TryPc :=
| TryPop
| TryCount (value : T).

(** One step of [try_recv]. *)
Definition try_step (c : Channel) (pc : TryPc) : Channel * (TryPc + option T) :=
  match pc with
  | TryPop =>
      match ring_pop (ch_ring c) with
      | (r, Some value) => (set_ring c r, inl (TryCount value))
      | (r, None) => (set_ring c r, inr None)
      end
  | TryCount value => (set_stats c (count_popped (ch_stats c)), inr (Some value))
  end.

Inductive RecvPc :=
| RecvTry (t : TryPc) (backoff : Backoff)
| RecvEmpty (backoff : Backoff)
| RecvLast (t : TryPc).

(** [recv()] is called. *)
Definition recv (c : Channel) : RecvPc := RecvTry TryPop (backoff_new (ch_strategy c)).

(** One step of [recv]. *)
Definition recv_step (c : Channel) (pc : RecvPc) : res (Channel * (RecvPc + option T)) :=
  match pc with
  | RecvTry t backoff =>
      match try_step c t with
      | (c, inl t) => Ret (c, inl (RecvTry t backoff))
      | (c, inr (Some value)) => Ret (c, inr (Some value))
      | (c, inr None) => Ret (c, inl (RecvEmpty backoff))
      end
  | RecvEmpty backoff =>
      if consumer_is_abandoned (ch_ring c) then Ret (c, inl (RecvLast TryPop))
      else
        let! (backoff, _) := wait backoff in
        Ret (c, inl (RecvTry TryPop backoff))
  | RecvLast t =>
      match try_step c t with
      | (c, inl t) => Ret (c, inl (RecvLast t))
      | (c, inr result) => Ret (c, inr result)
      end
  end.

(** The ends are dropped with the closures that own them. *)
Definition close_sender (c : Channel) : Channel := set_ring c (drop_producer (ch_ring c)).
Definition close_receiver (c : Channel) : Channel := set_ring c (drop_consumer (ch_ring c)).

End Channel.

Arguments Channel : clear implicits.
Arguments mkChannel {R}.
Arguments SendPc : clear implicits.
Arguments TryPc : clear implicits.
Arguments RecvPc : clear implicits.
