(* ===== verification/QueueProps.v ===== *)
(** What one step of [send], [try_recv] and [recv] does to a channel, for the
    threads at its two ends: [channel_ok] relates a channel to everything that was
    pushed to it and popped from it. *)

From S2P Require Import Prelude Queue.

(** * Steps *)

Section Channels.
Context {T R : Type} {RG : Ring T R} {RL : RingLaws RG}.
Implicit Types (c : Channel R).

Definition cview (c : Channel R) : RingView T := ring_view (ch_ring c).

(** Only the ring of [c'] differs from that of [c], as [v] says. *)
Definition rerung (c c' : Channel R) (v : RingView T) : Prop :=
  cview c' = v /\ ch_stats c' = ch_stats c /\ ch_strategy c' = ch_strategy c.

Definition with_items (v : RingView T) (items : list T) : RingView T :=
  mkRingView items (rv_slots v) (rv_producer_gone v) (rv_consumer_gone v).

Lemma send_push_spec c x cf b :
  exists c' pc, send_step c (SendPush x cf b) = Ret (c', inl pc)
    /\ ((length (rv_items (cview c)) < rv_slots (cview c))%nat /\ pc = SendCount
        /\ rerung c c' (with_items (cview c) (rv_items (cview c) ++ [x]))
        \/ (rv_slots (cview c) <= length (rv_items (cview c)))%nat /\ pc = SendFull x cf b
           /\ rerung c c' (cview c)).
Proof.
  simpl. pose proof (ring_push_view (ch_ring c) x) as E. unfold View.push in E. fold (cview c) in E.
  destruct (ring_push (ch_ring c) x) as [r o]. simpl in E.
  destruct (Nat.ltb_spec (length (rv_items (cview c))) (rv_slots (cview c))); simplify_eq;
    do 2 eexists; (split; [done |]); [left | right]; done.
Qed.

Lemma try_pop_spec c :
  exists c' r, try_step c TryPop = (c', r)
    /\ ((exists x items, rv_items (cview c) = x :: items /\ r = inl (TryCount x)
         /\ rerung c c' (with_items (cview c) items))
        \/ rv_items (cview c) = [] /\ r = inr None /\ rerung c c' (cview c)).
Proof.
  simpl. pose proof (ring_pop_view (ch_ring c)) as E. unfold View.pop in E. fold (cview c) in E.
  destruct (ring_pop (ch_ring c)) as [r o]. simpl in E.
  destruct (rv_items (cview c)) as [| x items] eqn:Ei; simplify_eq; do 2 eexists; (split; [done |]).
  - right. done.
  - left. exists x, items. done.
Qed.

(** What a machine holds that is in neither end's hands. *)
Definition send_holds (pc : SendPc T) : list T :=
  match pc with SendPush x _ _ | SendFull x _ _ => [x] | _ => [] end.

Definition try_holds (pc : TryPc T) : list T :=
  match pc with TryPop => [] | TryCount x => [x] end.

Definition recv_holds (pc : RecvPc T) : list T :=
  match pc with RecvTry t _ | RecvLast t => try_holds t | RecvEmpty _ => [] end.

Definition wait_wf (w : WaitStrategy) : Prop :=
  match w with
  | Adaptive spins yields => 0 <= spins /\ 0 <= yields /\ spins + yields <= u32_max
  | _ => True
  end.

Definition send_wait (pc : SendPc T) (w : WaitStrategy) : Prop :=
  match pc with SendPush _ _ b | SendFull _ _ b => bo_strategy b = w | _ => True end.

Definition recv_wait (pc : RecvPc T) (w : WaitStrategy) : Prop :=
  match pc with RecvTry _ b | RecvEmpty b => bo_strategy b = w | RecvLast _ => True end.

Lemma wait_total b : wait_wf (bo_strategy b) ->
  exists b' p, wait b = Ret (b', p) /\ bo_strategy b' = bo_strategy b.
Proof.
  unfold wait, wait_wf. simpl. destruct (bo_strategy b) as [| spins yields |]; [by do 2 eexists | |].
  - intros (? & ? & ?). case_match; [by do 2 eexists |]. rewrite u32_plain_in by mach.
    cbn [rbind]. case_match; by do 2 eexists.
  - by do 2 eexists.
Qed.

(** ** The counters

    [pushed] may be one behind the pushes and [popped] one behind the pops; a
    sampled depth is on its way to the high-water mark. *)
Inductive Counting :=
| Counted
| Counts
| Samples (pushed : Z)
| Raises (depth : Z).

Definition counting_pc (pc : SendPc T) : Counting :=
  match pc with
  | SendCount => Counts
  | SendSample pushed => Samples pushed
  | SendMax depth => Raises depth
  | _ => Counted
  end.

Definition behind (k : Counting) : Z := match k with Counts => 1 | _ => 0 end.

Definition sample_ok (k : Counting) (pushes slots : nat) : Prop :=
  match k with
  | Samples pushed => pushed = Z.of_nat pushes
  | Raises depth => 0 <= depth <= Z.of_nat slots + 1
  | _ => True
  end.

Record stats_ok (s : QueueStats) (pushes pops slots : nat) (counting : Counting) (popping : bool)
  : Prop := {
  so_pushed : qs_pushed s + behind counting = Z.of_nat pushes;
  so_popped : qs_popped s + Z.b2z popping = Z.of_nat pops;
  so_pushed_pos : 0 <= qs_pushed s;
  so_popped_pos : 0 <= qs_popped s;
  so_high : 0 <= qs_high_water s <= Z.of_nat slots + 1;
  so_sample : sample_ok counting pushes slots
}.

Lemma count_full_ok s pushes pops slots b1 b2 :
  stats_ok s pushes pops slots b1 b2 -> stats_ok (count_full s) pushes pops slots b1 b2.
Proof. intros []. by constructor. Qed.

Lemma count_popped_ok s pushes pops slots b :
  stats_ok s pushes pops slots b true -> Z.of_nat pops <= u64_max ->
  stats_ok (count_popped s) pushes pops slots b false.
Proof.
  intros [] Hp. constructor; try done; simpl in *; unfold u64_wrap; rewrite Z.mod_small; mach.
Qed.

Lemma count_pushed_ok s pushes pops slots k b :
  stats_ok s pushes pops slots Counts b -> Z.of_nat pushes <= u64_max ->
  k = Counted \/ k = Samples (Z.of_nat pushes) ->
  qs_pushed s + 1 = Z.of_nat pushes /\ stats_ok (count_pushed s) pushes pops slots k b.
Proof.
  intros [H1 H2 H3 H4 H5 _] Hp Hk. simpl in H1. split; [done |].
  unfold count_pushed, u64_wrap. rewrite Z.mod_small by mach.
  destruct Hk as [-> | ->]; constructor; simpl; try done; lia.
Qed.

Lemma sample_depth_ok s pushes pops slots pushed b :
  stats_ok s pushes pops slots (Samples pushed) b -> (pushes <= pops + slots)%nat ->
  stats_ok s pushes pops slots (Raises (u64_saturating_sub pushed (qs_popped s))) b.
Proof.
  intros [H1 H2 H3 H4 H5 H6] Hs. simpl in *. constructor; try done. unfold u64_saturating_sub.
  simpl. destruct b; simpl in *; lia.
Qed.

Lemma raise_high_water_ok s pushes pops slots depth b :
  stats_ok s pushes pops slots (Raises depth) b ->
  stats_ok (raise_high_water s depth) pushes pops slots Counted b.
Proof. intros [H1 H2 H3 H4 H5 H6]. simpl in *. constructor; simpl; try done; lia. Qed.

End Channels.

(** A channel with its two ends: what was pushed, what was popped, and which
    ends are gone. *)
Record channel_ok {T R} {RG : Ring T R} {RL : RingLaws RG} (w : WaitStrategy) (c : Channel R) (slots : nat)
    (sent taken : list T) (counting : Counting) (popping producer_gone consumer_gone : bool) : Prop := {
  co_items : taken ++ rv_items (cview c) = sent;
  co_slots : rv_slots (cview c) = slots;
  co_room : (length (rv_items (cview c)) <= slots)%nat;
  co_producer : rv_producer_gone (cview c) = producer_gone;
  co_consumer : rv_consumer_gone (cview c) = consumer_gone;
  co_strategy : ch_strategy c = w;
  co_stats : stats_ok (ch_stats c) (length sent) (length taken) slots counting popping
}.

Section Chan.
Context (w : WaitStrategy).
Context {T R : Type} {RG : Ring T R} {RL : RingLaws RG}.
Implicit Types (c : Channel R) (sent taken : list T).

Abbreviation chan_ok := (channel_ok (T := T) (R := R) w) (only parsing).

Definition holding {A} (l : list A) : bool := bool_decide (l <> []).

(** The content is what was pushed and not yet popped. *)
Lemma chan_items c c' slots slots' sent taken b1 b2 b3 b4 b1' b2' b3' b4' :
  chan_ok c slots sent taken b1 b2 b3 b4 -> chan_ok c' slots' sent taken b1' b2' b3' b4' ->
  rv_items (cview c') = rv_items (cview c).
Proof. intros [E _ _ _ _ _ _] [E' _ _ _ _ _ _]. rewrite <- E in E'. by apply app_inv_head in E'. Qed.

Lemma chan_ahead c slots sent taken b1 b2 b3 b4 :
  chan_ok c slots sent taken b1 b2 b3 b4 -> taken `prefix_of` sent /\ (length sent <= length taken + slots)%nat.
Proof.
  intros [E Es Er _ _ _ _]. rewrite <- E, length_app. split; [by apply prefix_app_r | lia].
Qed.

Lemma chan_empty c slots sent taken b1 b2 b3 b4 :
  chan_ok c slots sent taken b1 b2 b3 b4 -> rv_items (cview c) = [] -> sent = taken.
Proof. intros [E _ _ _ _ _ _] Hi. by rewrite Hi, app_nil_r in E. Qed.

(** Counting a push and a pop. *)
Lemma stats_push s pushes pops slots b :
  stats_ok s pushes pops slots Counted b -> stats_ok s (S pushes) pops slots Counts b.
Proof. intros []. constructor; simpl in *; try done; lia. Qed.

Lemma stats_pop s pushes pops slots b :
  stats_ok s pushes pops slots b false -> stats_ok s pushes (S pops) slots b true.
Proof. intros []. constructor; simpl in *; try done; lia. Qed.

Lemma chan_rerung c c' slots sent taken sent' taken' items b1 b2 b1' b2' b3 b4 :
  chan_ok c slots sent taken b1 b2 b3 b4 -> rerung c c' (with_items (cview c) items) ->
  taken' ++ items = sent' -> (length items <= slots)%nat ->
  stats_ok (ch_stats c) (length sent') (length taken') slots b1' b2' ->
  chan_ok c' slots sent' taken' b1' b2' b3 b4.
Proof.
  intros [E Es Er Ep Ec Ew St] (Ev & Est & Estr) Hi Hl Hs.
  constructor; rewrite ?Ev, ?Est, ?Estr; simpl; done.
Qed.

Lemma rerung_same c : rerung c c (cview c).
Proof. done. Qed.

Lemma with_items_same (v : RingView T) : with_items v (rv_items v) = v.
Proof. by destruct v. Qed.

Lemma chan_unchanged c c' slots sent taken b1 b2 b3 b4 :
  chan_ok c slots sent taken b1 b2 b3 b4 -> rerung c c' (cview c) ->
  chan_ok c' slots sent taken b1 b2 b3 b4.
Proof.
  intros C HR. rewrite <- (with_items_same (cview c)) in HR.
  eapply chan_rerung; [exact C | exact HR | apply C | apply C | apply C].
Qed.

Lemma chan_stats c s slots sent taken b1 b2 b1' b2' b3 b4 :
  chan_ok c slots sent taken b1 b2 b3 b4 ->
  stats_ok s (length sent) (length taken) slots b1' b2' ->
  chan_ok (set_stats c s) slots sent taken b1' b2' b3 b4.
Proof. intros [E Es Er Ep Ec Ew St] Hs. by constructor. Qed.

(** * Sending *)

Lemma send_step_ok c pc slots sent taken popping pg cg :
  chan_ok c slots sent taken (counting_pc pc) popping pg cg ->
  send_wait pc w -> wait_wf w -> Z.of_nat (length sent) <= u64_max ->
  exists c' r, send_step c pc = Ret (c', r)
    /\ match r with
       | inl pc' =>
           exists sent', chan_ok c' slots sent' taken (counting_pc pc') popping pg cg
             /\ send_wait pc' w /\ sent ++ send_holds pc = sent' ++ send_holds pc'
       | inr true =>
           chan_ok c' slots sent taken Counted popping pg cg /\ send_holds pc = []
           /\ counting_pc pc <> Counted
       | inr false =>
           chan_ok c' slots sent taken Counted popping pg cg /\ cg = true
           /\ counting_pc pc = Counted
       end.
Proof.
  intros C Hw Hwf Hl. destruct pc as [x cf b | x cf b | | pushed | depth]; simpl in C.
  - destruct (send_push_spec c x cf b) as (c' & pc' & E & [(Hlt & -> & HR) | (Hge & -> & HR)]);
      rewrite E; do 2 eexists; (split; [done |]).
    + exists (sent ++ [x]). split_and!; [| done | by rewrite app_nil_r].
      pose proof C as [Ei Es Er _ _ _ St].
      eapply chan_rerung; [done | done | by rewrite app_assoc, Ei | |].
      * rewrite length_app. simpl. lia.
      * rewrite length_app, Nat.add_1_r. by apply stats_push.
    + exists sent. split_and!; [by eapply chan_unchanged | done | done].
  - simpl. rewrite producer_abandoned_view. fold (cview c).
    destruct (rv_consumer_gone (cview c)) eqn:Eg.
    + do 2 eexists. split; [done |]. split_and!; [done | | done]. by rewrite <- (co_consumer _ _ _ _ _ _ _ _ _ C).
    + simpl in Hw. destruct (wait_total b) as (b' & p & -> & Eb); [by rewrite Hw |]. cbn [rbind].
      do 2 eexists. split; [done |]. exists sent. split_and!; [| by simpl; rewrite Eb | done].
      destruct cf; [done |]. apply (chan_stats _ _ _ _ _ _ _ _ _ _ _ C). apply count_full_ok, C.
  - pose proof (count_pushed_ok _ _ _ _ Counted _ (co_stats _ _ _ _ _ _ _ _ _ C) Hl) as [En H1]; [auto |].
    pose proof (count_pushed_ok _ _ _ _ (Samples (Z.of_nat (length sent))) _
                  (co_stats _ _ _ _ _ _ _ _ _ C) Hl) as [_ H2]; [auto |].
    unfold send_step. rewrite En, u64_plain_in by mach. cbn [rbind]. rewrite u64_rem_ok by lia. cbn [rbind].
    do 2 eexists. split; [done |]. destruct (_ mod 64 =? 0).
    + exists sent. split_and!; try done. by apply (chan_stats _ _ _ _ _ _ _ _ _ _ _ C).
    + split_and!; [| done | done]. by apply (chan_stats _ _ _ _ _ _ _ _ _ _ _ C).
  - do 2 eexists. split; [done |]. exists sent. split_and!; try done. destruct C as [E Es Er Ep Ec Ew St].
    constructor; try done. apply sample_depth_ok; [done |]. rewrite <- E, length_app. lia.
  - do 2 eexists. split; [done |]. split_and!; [| done | done].
    apply (chan_stats _ _ _ _ _ _ _ _ _ _ _ C). apply raise_high_water_ok, C.
Qed.

(** * Receiving *)

Lemma try_step_ok c pc slots sent taken counting pg cg :
  chan_ok c slots sent taken counting (holding (try_holds pc)) pg cg ->
  Z.of_nat (length taken) <= u64_max ->
  exists c' r, try_step c pc = (c', r)
    /\ match r with
       | inl pc' =>
           try_holds pc = []
           /\ chan_ok c' slots sent (taken ++ try_holds pc') counting (holding (try_holds pc')) pg cg
       | inr (Some x) =>
           try_holds pc = [x] /\ chan_ok c' slots sent taken counting false pg cg
       | inr None =>
           try_holds pc = [] /\ chan_ok c' slots sent taken counting false pg cg /\ sent = taken
       end.
Proof.
  intros C Hl. destruct pc as [| x]; simpl in C.
  - destruct (try_pop_spec c) as (c' & r & -> & [(x & items & Hi & -> & HR) | (Hi & -> & HR)]);
      do 2 eexists; (split; [done |]); (split; [done |]).
    + pose proof C as [Ei Es Er _ _ _ St]. rewrite Hi in Ei, Er. simpl in Er.
      eapply chan_rerung; [done | done | by rewrite <- app_assoc | lia |].
      simpl. rewrite length_app, Nat.add_1_r. by apply stats_pop.
    + split; [by eapply chan_unchanged | by eapply chan_empty].
  - simpl. do 2 eexists. split; [done |]. split; [done |].
    apply (chan_stats _ _ _ _ _ _ _ _ _ _ _ C). by apply count_popped_ok, Hl; apply C.
Qed.

Definition recv_last (pc : RecvPc T) (pg : bool) : Prop :=
  match pc with RecvLast _ => pg = true | _ => True end.

Lemma recv_step_ok c pc slots sent taken counting pg cg :
  chan_ok c slots sent taken counting (holding (recv_holds pc)) pg cg ->
  recv_wait pc w -> wait_wf w -> recv_last pc pg ->
  Z.of_nat (length taken) <= u64_max ->
  exists c' r, recv_step c pc = Ret (c', r)
    /\ match r with
       | inl pc' =>
           recv_holds pc = [] /\ recv_wait pc' w /\ recv_last pc' pg
           /\ chan_ok c' slots sent (taken ++ recv_holds pc') counting (holding (recv_holds pc')) pg cg
       | inr (Some x) =>
           recv_holds pc = [x] /\ chan_ok c' slots sent taken counting false pg cg
       | inr None =>
           recv_holds pc = [] /\ chan_ok c' slots sent taken counting false pg cg
           /\ pg = true /\ sent = taken
       end.
Proof.
  intros C Hw Hwf Hlast Hl. destruct pc as [t b | b | t]; simpl in C, Hw, Hlast |- *.
  - destruct (try_step_ok c t slots sent taken counting pg cg C Hl) as (c' & r & -> & Hr).
    destruct r as [t' | [x |]]; do 2 eexists; (split; [done |]).
    + destruct Hr. split_and!; done.
    + done.
    + destruct Hr as (Ht & C' & _). split_and!; try done. simpl. by rewrite app_nil_r.
  - rewrite consumer_abandoned_view. fold (cview c). rewrite (co_producer _ _ _ _ _ _ _ _ _ C).
    destruct pg.
    + do 2 eexists. split; [done |]. simpl. rewrite app_nil_r. split_and!; done.
    + destruct (wait_total b) as (b' & p & -> & Eb); [by rewrite Hw |]. cbn [rbind].
      do 2 eexists. split; [done |]. simpl. rewrite app_nil_r, Eb. split_and!; done.
  - destruct (try_step_ok c t slots sent taken counting pg cg C Hl) as (c' & r & -> & Hr).
    destruct r as [t' | [x |]]; do 2 eexists; (split; [done |]).
    + destruct Hr. split_and!; done.
    + done.
    + destruct Hr as (Ht & C' & ->). split_and!; done.
Qed.

(** * Dropping an end *)

Lemma close_sender_ok c slots sent taken b1 b2 pg cg :
  chan_ok c slots sent taken b1 b2 pg cg -> chan_ok (close_sender c) slots sent taken b1 b2 true cg.
Proof.
  intros []. constructor; unfold cview in *; simpl; rewrite ?drop_producer_view; done.
Qed.

Lemma close_receiver_ok c slots sent taken b1 b2 pg cg :
  chan_ok c slots sent taken b1 b2 pg cg ->
  chan_ok (close_receiver c) slots sent taken b1 b2 pg true.
Proof.
  intros []. constructor; unfold cview in *; simpl; rewrite ?drop_consumer_view; done.
Qed.

(** A new channel. *)
Lemma bounded_ok n : chan_ok (bounded n w) n [] [] Counted false false false.
Proof.
  unfold bounded. constructor; unfold cview; simpl; rewrite ?ring_new_view; simpl; try done.
  - lia.
  - constructor; simpl; lia.
Qed.

End Chan.
