(* ===== verification/BTree.v ===== *)
(** [std::collections::BTreeMap] with integer keys, as the sources use it: a
    list of bindings in strictly increasing key order.  Iteration order,
    [next]/[next_back] and [pop_first]/[pop_last] are then the list's own. *)

From Stdlib Require Import Sorted.
From S2P Require Import Prelude.

Abbreviation BTreeMap V := (list (Z * V)) (only parsing).

Module BTree.

Section BTreeMap.
Context {V : Type}.
Implicit Types (m : BTreeMap V) (k : Z) (v : V).

Fixpoint get (k : Z) (m : BTreeMap V) : option V :=
  match m with
  | [] => None
  | (k', v') :: m' => if k =? k' then Some v' else get k m'
  end.

Fixpoint insert (k : Z) (v : V) (m : BTreeMap V) : BTreeMap V :=
  match m with
  | [] => [(k, v)]
  | (k', v') :: m' =>
      if k <? k' then (k, v) :: m
      else if k =? k' then (k, v) :: m'
      else (k', v') :: insert k v m'
  end.

Fixpoint remove (k : Z) (m : BTreeMap V) : BTreeMap V :=
  match m with
  | [] => []
  | (k', v') :: m' => if k =? k' then m' else (k', v') :: remove k m'
  end.

(** [iter().next()] and [iter().next_back()]. *)
Definition first (m : BTreeMap V) : option (Z * V) := head m.
Definition last (m : BTreeMap V) : option (Z * V) := list.last m.

Definition pop_first (m : BTreeMap V) : BTreeMap V := tail m.
Definition pop_last (m : BTreeMap V) : BTreeMap V := removelast m.

(** The order invariant every [BTreeMap] keeps. *)
Definition sorted (m : BTreeMap V) : Prop :=
  StronglySorted (fun a b => a.1 < b.1) m.

Lemma sorted_nil : sorted [].
Proof. constructor. Qed.

Lemma sorted_cons_inv kv m :
  sorted (kv :: m) -> sorted m /\ forall kv', kv' ∈ m -> kv.1 < kv'.1.
Proof.
  intros H. inversion H as [| ? ? Hs Hf]; subst. split; [done |].
  intros kv' Hin. rewrite Forall_forall in Hf. by apply Hf.
Qed.

Lemma sorted_cons kv m :
  sorted m -> (forall kv', kv' ∈ m -> kv.1 < kv'.1) -> sorted (kv :: m).
Proof. intros. constructor; [done |]. by apply Forall_forall. Qed.

Lemma get_elem m k v : get k m = Some v -> (k, v) ∈ m.
Proof.
  induction m as [| [k' v'] m IH]; simpl; [done |].
  destruct (Z.eqb_spec k k') as [-> |]; intros; simplify_eq; set_solver.
Qed.

Lemma elem_get m k v : sorted m -> (k, v) ∈ m -> get k m = Some v.
Proof.
  induction m as [| [k' v'] m IH]; simpl; intros Hs Hin; [set_solver |].
  apply sorted_cons_inv in Hs as [Hs Hlt].
  apply elem_of_cons in Hin as [Heq | Hin]; simplify_eq.
  - by rewrite Z.eqb_refl.
  - specialize (Hlt _ Hin). simpl in Hlt.
    destruct (Z.eqb_spec k k'); [lia | auto].
Qed.

Lemma get_None_elem m k v : get k m = None -> (k, v) ∉ m.
Proof.
  induction m as [| [k' v'] m IH]; simpl; [set_solver |].
  destruct (Z.eqb_spec k k'); [done |]. intros ? [? | ?]%elem_of_cons; simplify_eq.
  by apply IH.
Qed.

Lemma get_insert_eq m k v : get k (insert k v m) = Some v.
Proof.
  induction m as [| [k' v'] m IH]; simpl; [by rewrite Z.eqb_refl |].
  destruct (Z.ltb_spec k k'); simpl; [by rewrite Z.eqb_refl |].
  destruct (Z.eqb_spec k k'); simpl; [by rewrite Z.eqb_refl |].
  destruct (Z.eqb_spec k k'); [lia | done].
Qed.

Lemma get_insert_ne m k k' v : k <> k' -> get k' (insert k v m) = get k' m.
Proof.
  intros Hne. induction m as [| [k0 v0] m IH]; simpl.
  - destruct (Z.eqb_spec k' k); [lia | done].
  - destruct (Z.ltb_spec k k0); simpl.
    + destruct (Z.eqb_spec k' k); [lia | done].
    + destruct (Z.eqb_spec k k0); simpl.
      * destruct (Z.eqb_spec k' k), (Z.eqb_spec k' k0); try lia; done.
      * destruct (Z.eqb_spec k' k0); done.
Qed.

Lemma get_insert m k k' v :
  get k' (insert k v m) = if decide (k = k') then Some v else get k' m.
Proof.
  case_decide; subst; [apply get_insert_eq | by apply get_insert_ne].
Qed.

Lemma get_remove_ne m k k' : k <> k' -> get k' (remove k m) = get k' m.
Proof.
  intros Hne. induction m as [| [k0 v0] m IH]; simpl; [done |].
  destruct (Z.eqb_spec k k0); simpl; destruct (Z.eqb_spec k' k0); subst; try lia; auto.
Qed.

Lemma get_above m k : (forall kv, kv ∈ m -> k < kv.1) -> get k m = None.
Proof.
  induction m as [| [k0 v0] m IH]; simpl; intros H; [done |].
  pose proof (H (k0, v0)) as H0. simpl in H0.
  destruct (Z.eqb_spec k k0).
  - specialize (H0 ltac:(set_solver)). lia.
  - apply IH. set_solver.
Qed.

Lemma get_remove_eq m k : sorted m -> get k (remove k m) = None.
Proof.
  induction m as [| [k0 v0] m IH]; simpl; intros Hs; [done |].
  apply sorted_cons_inv in Hs as [Hs Hlt].
  destruct (Z.eqb_spec k k0) as [-> |]; simpl.
  - by apply get_above.
  - destruct (Z.eqb_spec k k0); [lia | auto].
Qed.

Lemma get_remove m k k' :
  sorted m -> get k' (remove k m) = if decide (k = k') then None else get k' m.
Proof.
  intros. case_decide; subst; [by apply get_remove_eq | by apply get_remove_ne].
Qed.

Lemma elem_insert m k v kv : kv ∈ insert k v m -> kv = (k, v) \/ kv ∈ m.
Proof.
  induction m as [| [k0 v0] m IH]; simpl.
  - intros ->%list_elem_of_singleton. auto.
  - destruct (k <? k0); [| destruct (k =? k0)];
      rewrite !elem_of_cons; intuition auto.
Qed.

Lemma elem_remove m k kv : kv ∈ remove k m -> kv ∈ m.
Proof.
  induction m as [| [k0 v0] m IH]; simpl; [done |].
  destruct (k =? k0); rewrite !elem_of_cons; intuition auto.
Qed.

Lemma sorted_insert m k v : sorted m -> sorted (insert k v m).
Proof.
  induction m as [| [k0 v0] m IH]; simpl; intros Hs.
  { apply sorted_cons; [done | set_solver]. }
  pose proof Hs as Hs0. apply sorted_cons_inv in Hs as [Hs Hlt]; simpl in *.
  destruct (Z.ltb_spec k k0).
  { apply sorted_cons; [done |]. intros kv [-> | Hin]%elem_of_cons; simpl; [lia |].
    specialize (Hlt _ Hin). lia. }
  destruct (Z.eqb_spec k k0) as [-> |]; apply sorted_cons; simpl; auto.
  intros kv [-> | Hin]%elem_insert; simpl; [lia | auto].
Qed.

Lemma sorted_remove m k : sorted m -> sorted (remove k m).
Proof.
  induction m as [| [k0 v0] m IH]; simpl; intros Hs; [done |].
  apply sorted_cons_inv in Hs as [Hs Hlt].
  destruct (k =? k0); [done |].
  apply sorted_cons; [auto |]. intros kv Hin%elem_remove. by apply Hlt.
Qed.

(** Two maps with the same bindings are the same list. *)
Lemma ext m1 m2 :
  sorted m1 -> sorted m2 -> (forall k, get k m1 = get k m2) -> m1 = m2.
Proof.
  revert m2. induction m1 as [| [k1 v1] m1 IH]; intros [| [k2 v2] m2] H1 H2 Hget.
  - done.
  - specialize (Hget k2). simpl in Hget. by rewrite Z.eqb_refl in Hget.
  - specialize (Hget k1). simpl in Hget. by rewrite Z.eqb_refl in Hget.
  - apply sorted_cons_inv in H1 as [H1 L1], H2 as [H2 L2]; simpl in *.
    assert (k1 = k2) as ->.
    { pose proof (Hget k1) as E1. pose proof (Hget k2) as E2.
      rewrite Z.eqb_refl in E1, E2.
      destruct (Z.eqb_spec k1 k2); [done |].
      destruct (Z.eqb_spec k2 k1); [done |].
      symmetry in E1. apply get_elem, L2 in E1. apply get_elem, L1 in E2.
      simpl in *. lia. }
    pose proof (Hget k2) as E. rewrite Z.eqb_refl in E. simplify_eq.
    f_equal. apply IH; [done.. |]. intros k. specialize (Hget k).
    destruct (Z.eqb_spec k k2) as [Hk |]; [| done].
    rewrite Hk, !get_above; done.
Qed.

(** [first] is the binding with the least key and [last] the one with the
    greatest. *)
Lemma first_None m : first m = None <-> m = [].
Proof. by destruct m. Qed.

Lemma first_get m k v : first m = Some (k, v) -> get k m = Some v.
Proof.
  destruct m as [| [k' v'] m]; simpl; intros; simplify_eq. by rewrite Z.eqb_refl.
Qed.

Lemma first_min m k v k' v' :
  sorted m -> first m = Some (k, v) -> get k' m = Some v' -> k <= k'.
Proof.
  destruct m as [| kv m]; intros Hs Hf Hg; [done |].
  simpl in Hf. simplify_eq. apply get_elem in Hg. apply sorted_cons_inv in Hs as [_ Hlt].
  apply elem_of_cons in Hg as [? | Hin]; simplify_eq; [lia |].
  apply Hlt in Hin. simpl in Hin. lia.
Qed.

Lemma last_None m : last m = None <-> m = [].
Proof. apply last_None. Qed.

Lemma last_elem m kv : last m = Some kv -> kv ∈ m.
Proof.
  intros [m' ->]%last_Some. set_solver.
Qed.

Lemma last_get m k v : sorted m -> last m = Some (k, v) -> get k m = Some v.
Proof. intros. by apply elem_get, last_elem. Qed.

Lemma sorted_snoc_inv m kv :
  sorted (m ++ [kv]) -> sorted m /\ forall kv', kv' ∈ m -> kv'.1 < kv.1.
Proof.
  induction m as [| kv0 m IH]; simpl; intros Hs; [split; [constructor | set_solver] |].
  apply sorted_cons_inv in Hs as [Hs Hlt]. apply IH in Hs as [Hs Hl]. split.
  - apply sorted_cons; [done |]. set_solver.
  - intros kv' [-> | Hin]%elem_of_cons; [| auto]. apply Hlt. set_solver.
Qed.

Lemma last_max m k v k' v' :
  sorted m -> last m = Some (k, v) -> get k' m = Some v' -> k' <= k.
Proof.
  intros Hs Hl Hg. apply last_Some in Hl as [m' ->].
  apply sorted_snoc_inv in Hs as [_ Hlt]. apply get_elem in Hg.
  apply elem_of_app in Hg as [Hin | Hin].
  - apply Hlt in Hin. simpl in Hin. lia.
  - apply list_elem_of_singleton in Hin. simplify_eq. lia.
Qed.

Lemma sorted_NoDup_keys m : sorted m -> NoDup (map fst m).
Proof.
  induction m as [| kv m IH]; intros Hs; [constructor |].
  apply sorted_cons_inv in Hs as [Hs Hlt]. constructor; [| auto].
  intros (kv' & Heq & Hin)%list_elem_of_In%in_map_iff. apply list_elem_of_In, Hlt in Hin. lia.
Qed.

Lemma first_is_min m k v :
  sorted m -> get k m = Some v ->
  (forall k' v', get k' m = Some v' -> k <= k') -> first m = Some (k, v).
Proof.
  intros Hs Hg Hmin. destruct (first m) as [[k0 v0] |] eqn:E.
  - pose proof (first_get _ _ _ E) as Hg0.
    pose proof (first_min _ _ _ _ _ Hs E Hg). pose proof (Hmin _ _ Hg0).
    assert (k0 = k) as -> by lia. by simplify_eq.
  - apply first_None in E as ->. done.
Qed.

Lemma last_is_max m k v :
  sorted m -> get k m = Some v ->
  (forall k' v', get k' m = Some v' -> k' <= k) -> last m = Some (k, v).
Proof.
  intros Hs Hg Hmax. destruct (last m) as [[k0 v0] |] eqn:E.
  - pose proof (last_get _ _ _ Hs E) as Hg0.
    pose proof (last_max _ _ _ _ _ Hs E Hg). pose proof (Hmax _ _ Hg0).
    assert (k0 = k) as -> by lia. by simplify_eq.
  - apply last_None in E as ->. done.
Qed.

Lemma remove_notin m k : get k m = None -> remove k m = m.
Proof.
  induction m as [| [k0 v0] m IH]; simpl; [done |].
  destruct (k =? k0); [done |]. intros. by rewrite IH.
Qed.

Lemma length_insert_new m k v :
  get k m = None -> length (insert k v m) = S (length m).
Proof.
  induction m as [| [k0 v0] m IH]; simpl; [done |]. intros Hg.
  destruct (k <? k0); simpl; [done |].
  destruct (k =? k0) eqn:E; [done |]. simpl. by rewrite IH.
Qed.

Lemma length_insert_old m k v v' :
  sorted m -> get k m = Some v' -> length (insert k v m) = length m.
Proof.
  induction m as [| [k0 v0] m IH]; simpl; [done |]. intros Hs Hg.
  apply sorted_cons_inv in Hs as [Hs Hlt].
  destruct (Z.eqb_spec k k0) as [-> |].
  - by rewrite Z.ltb_irrefl.
  - destruct (Z.ltb_spec k k0); simpl; [| by rewrite IH].
    apply get_elem, Hlt in Hg. simpl in Hg. lia.
Qed.

Lemma length_remove_le m k : (length (remove k m) <= length m)%nat.
Proof.
  induction m as [| [k0 v0] m IH]; simpl; [lia |]. destruct (k =? k0); simpl; lia.
Qed.

Lemma length_remove m k v :
  get k m = Some v -> length m = S (length (remove k m)).
Proof.
  induction m as [| [k0 v0] m IH]; simpl; [done |].
  destruct (k =? k0); simpl; [done |]. intros. by rewrite <- IH.
Qed.

End BTreeMap.

Lemma get_map {V W} (f : V -> W) (m : BTreeMap V) k :
  get k (map (fun kv => (kv.1, f kv.2)) m) = f <$> get k m.
Proof.
  induction m as [| [k0 v0] m IH]; simpl; [done |]. by destruct (k =? k0).
Qed.

Lemma sorted_map {V W} (f : V -> W) (m : BTreeMap V) :
  sorted m -> sorted (map (fun kv => (kv.1, f kv.2)) m).
Proof.
  induction m as [| kv m IH]; intros Hs; simpl; [constructor |].
  apply sorted_cons_inv in Hs as [Hs Hlt]. apply sorted_cons; [auto |].
  intros kv' (kv0 & <- & Hin)%list_elem_of_In%in_map_iff. apply list_elem_of_In in Hin.
  by apply Hlt.
Qed.

(** Two sorted maps with the same keys list them in the same order. *)
Lemma keys_ext {V W} (m1 : BTreeMap V) (m2 : BTreeMap W) :
  sorted m1 -> sorted m2 -> (forall k, is_Some (get k m1) <-> is_Some (get k m2)) ->
  map fst m1 = map fst m2.
Proof.
  intros H1 H2 Hk.
  assert (E : map (fun kv => (kv.1, tt)) m1 = map (fun kv => (kv.1, tt)) m2).
  { apply ext; [by apply (sorted_map (fun _ => tt)) | by apply (sorted_map (fun _ => tt)) |].
    intros k. rewrite (get_map (fun _ => tt)), (get_map (fun _ => tt)). specialize (Hk k).
    destruct (get k m1), (get k m2); simpl; try done; destruct Hk as [Ha Hb].
    - by destruct (Ha (mk_is_Some _ _ eq_refl)).
    - by destruct (Hb (mk_is_Some _ _ eq_refl)). }
  apply (f_equal (map fst)) in E. by rewrite !map_map in E.
Qed.

End BTree.

#[export] Hint Resolve BTree.sorted_nil BTree.sorted_insert BTree.sorted_remove : rust.
