(* ===== verification/Slab.v ===== *)
(** The interface of the [slab] crate, which the order book stores its nodes
    in.  The crate is not part of the repository: its operations are the
    fields of the class [Slab] and its documented behaviour is the class
    [SlabLaws].  [slab_view] is the logical content of a slab, the map from
    occupied keys to values. *)

From S2P Require Import Prelude.

Class Slab (T S : Type) := {
  (** [Slab::with_capacity]. *)
  slab_new : S;
  (** [insert] returns the key it chose. *)
  slab_insert : T -> S -> nat * S;
  (** [&slab[key]]; [None] is the panic on a vacant key. *)
  slab_get : S -> nat -> option T;
  (** A write through [&mut slab[key]] at an occupied key. *)
  slab_set : S -> nat -> T -> S;
  (** [remove]; [None] is the panic on a vacant key. *)
  slab_remove : S -> nat -> option (T * S);
  slab_len : S -> nat;
  slab_view : S -> gmap nat T
}.

Class SlabLaws {T S : Type} (SL : Slab T S) : Prop := {
  slab_new_view : slab_view slab_new = ∅;
  slab_insert_fresh x s k s' :
    slab_insert x s = (k, s') -> slab_view s !! k = None;
  slab_insert_view x s k s' :
    slab_insert x s = (k, s') -> slab_view s' = <[k := x]> (slab_view s);
  slab_get_view s k : slab_get s k = slab_view s !! k;
  slab_set_view s k x :
    is_Some (slab_view s !! k) -> slab_view (slab_set s k x) = <[k := x]> (slab_view s);
  slab_remove_view s k x :
    slab_view s !! k = Some x ->
    exists s', slab_remove s k = Some (x, s') /\ slab_view s' = delete k (slab_view s);
  slab_remove_vacant s k : slab_view s !! k = None -> slab_remove s k = None;
  slab_len_view s : slab_len s = size (slab_view s)
}.

(** * An instance

    A slab that hands out the least key above every occupied one.  It
    satisfies the laws, so that the hypotheses of the book's theorems can be
    met, and it computes. *)

Definition map_next_key {T} (m : gmap nat T) : nat :=
  map_fold (fun k _ acc => Nat.max (S k) acc) 0%nat m.

#[export] Instance map_slab (T : Type) : Slab T (gmap nat T) := {|
  slab_new := ∅;
  slab_insert x s := let k := map_next_key s in (k, <[k := x]> s);
  slab_get s k := s !! k;
  slab_set s k x := <[k := x]> s;
  slab_remove s k := match s !! k with
                     | Some x => Some (x, delete k s)
                     | None => None
                     end;
  slab_len s := size s;
  slab_view s := s
|}.

Lemma map_next_key_fresh {T} (m : gmap nat T) k :
  is_Some (m !! k) -> (k < map_next_key m)%nat.
Proof.
  unfold map_next_key.
  apply (map_fold_weak_ind (fun r m => is_Some (m !! k) -> (k < r)%nat)).
  - rewrite lookup_empty. by intros [].
  - intros i x m' r Hi IH. rewrite lookup_insert. case_decide; subst; [lia |].
    intros. specialize (IH H0). lia.
Qed.

#[export] Instance map_slab_laws (T : Type) : SlabLaws (map_slab T).
Proof.
  constructor; simpl; try done; intros.
  - simplify_eq. destruct (s !! map_next_key s) eqn:E; [| done].
    assert (map_next_key s < map_next_key s)%nat by (apply map_next_key_fresh; eauto).
    lia.
  - by simplify_eq.
  - rewrite H. eauto.
  - by rewrite H.
Qed.
