(* ===== verification/Book.v ===== *)
(** The matching book ([crates/trading-core/src/book.rs]): price levels in a
    [BTreeMap], the orders of a level in a doubly linked FIFO over a slab, and
    an index from order id to slot.

    A panic ([Panic]) is an index into a vacant slot, a failed [expect] or a
    plain operation that leaves its width.  The two cursor loops and the
    matching loops run on fuel; out of fuel is also [Panic], and the theorems
    of [BookInv] show that the fuel given is enough. *)

From S2P Require Import Prelude Enums Ids BTree Slab.

Record OrderNode := mkOrderNode {
  node_order_id : OrderId;
  node_account : AccountId;
  node_client_order_id : ClientOrderId;
  node_side : Side.t;
  node_price : PriceTicks;
  node_total_quantity : QuantityLots;
  node_cumulative_filled : QuantityLots;
  node_priority : PrioritySeq;
  node_prev : option nat;
  node_next : option nat
}.

Definition node_set_prev (n : OrderNode) (p : option nat) : OrderNode :=
  mkOrderNode (node_order_id n) (node_account n) (node_client_order_id n)
    (node_side n) (node_price n) (node_total_quantity n)
    (node_cumulative_filled n) (node_priority n) p (node_next n).

Definition node_set_next (n : OrderNode) (p : option nat) : OrderNode :=
  mkOrderNode (node_order_id n) (node_account n) (node_client_order_id n)
    (node_side n) (node_price n) (node_total_quantity n)
    (node_cumulative_filled n) (node_priority n) (node_prev n) p.

Definition node_set_total (n : OrderNode) (q : QuantityLots) : OrderNode :=
  mkOrderNode (node_order_id n) (node_account n) (node_client_order_id n)
    (node_side n) (node_price n) q
    (node_cumulative_filled n) (node_priority n) (node_prev n) (node_next n).

Definition node_set_cumulative (n : OrderNode) (q : QuantityLots) : OrderNode :=
  mkOrderNode (node_order_id n) (node_account n) (node_client_order_id n)
    (node_side n) (node_price n) (node_total_quantity n)
    q (node_priority n) (node_prev n) (node_next n).

(** [OrderNode::remaining]: panics when the cumulative fill exceeds the total. *)
Definition remaining (n : OrderNode) : res QuantityLots :=
  unwrap (u64_checked (node_total_quantity n - node_cumulative_filled n)).

Record PriceLevel := mkPriceLevel {
  level_head : option nat;
  level_tail : option nat;
  order_count : Z;
  total_remaining : Z
}.

(** [PriceLevel::default]. *)
Definition level_default : PriceLevel := mkPriceLevel None None 0 0.

Definition level_set_head (l : PriceLevel) (h : option nat) : PriceLevel :=
  mkPriceLevel h (level_tail l) (order_count l) (total_remaining l).
Definition level_set_tail (l : PriceLevel) (t : option nat) : PriceLevel :=
  mkPriceLevel (level_head l) t (order_count l) (total_remaining l).
Definition level_set_count (l : PriceLevel) (c : Z) : PriceLevel :=
  mkPriceLevel (level_head l) (level_tail l) c (total_remaining l).
Definition level_set_total (l : PriceLevel) (t : Z) : PriceLevel :=
  mkPriceLevel (level_head l) (level_tail l) (order_count l) t.

Record NewOrder := mkNewOrder {
  no_order_id : OrderId;
  no_account : AccountId;
  no_client_order_id : ClientOrderId;
  no_side : Side.t;
  no_price : PriceTicks;
  no_total_quantity : QuantityLots;
  no_cumulative_filled : QuantityLots;
  no_priority : PrioritySeq
}.

Inductive CapacityExhausted := capacity_exhausted.

(** The error strings of [check_invariants], by what they report. *)
Inductive InvariantError :=
| EmptyLevelRetained (price : PriceTicks)
| LevelCountMismatch (price : PriceTicks)
| LevelAggregateMismatch (price : PriceTicks)
| OrderInWrongLevel (order_id : OrderId)
| OrderRestsWithNoQuantity (order_id : OrderId)
| PriorityNotIncreasing (price : PriceTicks)
| OrderMissingFromIndex (order_id : OrderId)
| LiveOrderCountMismatch
| CrossedBook (bid ask : PriceTicks).

Record OrderBook (S : Type) := mkOrderBook {
  bids : BTreeMap PriceLevel;
  asks : BTreeMap PriceLevel;
  orders : S;
  order_index : gmap OrderId nat;
  capacity : nat
}.

Arguments mkOrderBook {S}.
Arguments bids {S}.
Arguments asks {S}.
Arguments orders {S}.
Arguments order_index {S}.
Arguments capacity {S}.

Module Book.

Section Book.
Context {S : Type} `{SL : Slab OrderNode S}.
Implicit Types (b : OrderBook S).

(** [match side { Buy => &mut self.bids, Sell => &mut self.asks }]. *)
Definition side_levels (b : OrderBook S) (side : Side.t) : BTreeMap PriceLevel :=
  match side with
  | Side.Buy => bids b
  | Side.Sell => asks b
  end.

Definition set_levels (b : OrderBook S) (side : Side.t) (l : BTreeMap PriceLevel)
  : OrderBook S :=
  match side with
  | Side.Buy => mkOrderBook l (asks b) (orders b) (order_index b) (capacity b)
  | Side.Sell => mkOrderBook (bids b) l (orders b) (order_index b) (capacity b)
  end.

Definition set_orders (b : OrderBook S) (s : S) : OrderBook S :=
  mkOrderBook (bids b) (asks b) s (order_index b) (capacity b).

Definition set_index (b : OrderBook S) (i : gmap OrderId nat) : OrderBook S :=
  mkOrderBook (bids b) (asks b) (orders b) i (capacity b).

(** [self.orders[slot]] and an update in place of the node there. *)
Definition node (b : OrderBook S) (slot : nat) : res OrderNode :=
  unwrap (slab_get (orders b) slot).

Definition node_update (b : OrderBook S) (slot : nat) (f : OrderNode -> OrderNode)
  : res (OrderBook S) :=
  let! n := node b slot in
  Ret (set_orders b (slab_set (orders b) slot (f n))).

Definition with_capacity (cap : nat) : OrderBook S :=
  mkOrderBook [] [] slab_new ∅ cap.

Definition live_order_count (b : OrderBook S) : nat := slab_len (orders b).

Definition is_full (b : OrderBook S) : bool :=
  bool_decide (capacity b <= slab_len (orders b))%nat.

Definition get (b : OrderBook S) (order_id : OrderId) : res (option OrderNode) :=
  match order_index b !! order_id with
  | None => Ret None
  | Some slot => let! n := node b slot in Ret (Some n)
  end.

Definition best_bid (b : OrderBook S) : option (PriceTicks * PriceLevel) :=
  BTree.last (bids b).

Definition best_ask (b : OrderBook S) : option (PriceTicks * PriceLevel) :=
  BTree.first (asks b).

Definition level_count (b : OrderBook S) : nat :=
  (length (bids b) + length (asks b))%nat.

(** The overflow test of [insert] on the level the order would join. *)
Definition level_overflows (b : OrderBook S) (order : NewOrder) (rem : Z) : bool :=
  match BTree.get (no_price order) (side_levels b (no_side order)) with
  | Some level =>
      match u64_checked (total_remaining level + rem) with
      | None => true
      | Some _ =>
          match u32_checked (order_count level + 1) with
          | None => true
          | Some _ => false
          end
      end
  | None => false
  end.

(** Appends an order at the tail of its price level. *)
Definition insert (b : OrderBook S) (order : NewOrder)
  : res (OrderBook S * Result unit CapacityExhausted) :=
  if is_full b then Ret (b, Err capacity_exhausted)
  else
    match u64_checked (no_total_quantity order - no_cumulative_filled order) with
    | None => Ret (b, Err capacity_exhausted)
    | Some rem =>
        if level_overflows b order rem then Ret (b, Err capacity_exhausted)
        else
          let new_node :=
            mkOrderNode (no_order_id order) (no_account order)
              (no_client_order_id order) (no_side order) (no_price order)
              (no_total_quantity order) (no_cumulative_filled order)
              (no_priority order) None None in
          let '(slot, s) := slab_insert new_node (orders b) in
          let b := set_orders b s in
          let b := set_index b (<[no_order_id order := slot]> (order_index b)) in
          let level :=
            default level_default
              (BTree.get (no_price order) (side_levels b (no_side order))) in
          let! (b, level) :=
            match level_tail level with
            | Some tail =>
                let! b := node_update b tail (fun n => node_set_next n (Some slot)) in
                let! b := node_update b slot (fun n => node_set_prev n (Some tail)) in
                Ret (b, level)
            | None => Ret (b, level_set_head level (Some slot))
            end in
          let level := level_set_tail level (Some slot) in
          let! count := u32_plain (order_count level + 1) in
          let level := level_set_count level count in
          let! total := u64_plain (total_remaining level + rem) in
          let level := level_set_total level total in
          Ret (set_levels b (no_side order)
                 (BTree.insert (no_price order) level (side_levels b (no_side order))),
               Ok tt)
    end.

Definition unlink (b : OrderBook S) (n : OrderNode) : res (OrderBook S) :=
  match BTree.get (node_price n) (side_levels b (node_side n)) with
  | None => Ret b
  | Some level =>
      let! (b, level) :=
        match node_prev n with
        | Some prev =>
            let! b := node_update b prev (fun m => node_set_next m (node_next n)) in
            Ret (b, level)
        | None => Ret (b, level_set_head level (node_next n))
        end in
      let! (b, level) :=
        match node_next n with
        | Some next =>
            let! b := node_update b next (fun m => node_set_prev m (node_prev n)) in
            Ret (b, level)
        | None => Ret (b, level_set_tail level (node_prev n))
        end in
      let level := level_set_count level (u32_saturating_sub (order_count level) 1) in
      let! rem := remaining n in
      let! total := unwrap (u64_checked (total_remaining level - rem)) in
      let level := level_set_total level total in
      let levels := side_levels b (node_side n) in
      Ret (set_levels b (node_side n)
             (if order_count level =? 0 then BTree.remove (node_price n) levels
              else BTree.insert (node_price n) level levels))
  end.

(** Unlinks and removes an order. Returns its final node state. *)
Definition remove (b : OrderBook S) (order_id : OrderId)
  : res (OrderBook S * option OrderNode) :=
  match order_index b !! order_id with
  | None => Ret (b, None)
  | Some slot =>
      let b := set_index b (delete order_id (order_index b)) in
      let! (n, s) := unwrap (slab_remove (orders b) slot) in
      let b := set_orders b s in
      let! b := unlink b n in
      Ret (b, Some n)
  end.

(** Reduces the total quantity of a resting order while keeping its priority. *)
Definition reduce_total (b : OrderBook S) (order_id : OrderId) (new_total : QuantityLots)
  : res (OrderBook S) :=
  match order_index b !! order_id with
  | None => Ret b
  | Some slot =>
      let! n := node b slot in
      let! old_remaining := remaining n in
      let n := node_set_total n new_total in
      let b := set_orders b (slab_set (orders b) slot n) in
      let! new_remaining := remaining n in
      match BTree.get (node_price n) (side_levels b (node_side n)) with
      | None => Ret b
      | Some level =>
          let! total :=
            unwrap (let* t := u64_checked (total_remaining level - old_remaining) in
                    u64_checked (t + new_remaining)) in
          Ret (set_levels b (node_side n)
                 (BTree.insert (node_price n) (level_set_total level total)
                    (side_levels b (node_side n))))
      end
  end.

(** Applies a fill to a resting order and removes it when fully filled. *)
Definition fill_maker (b : OrderBook S) (slot : nat) (quantity : QuantityLots)
  : res (OrderBook S * OrderNode) :=
  let! n := node b slot in
  let! cumulative := unwrap (u64_checked (node_cumulative_filled n + quantity)) in
  let node_copy := node_set_cumulative n cumulative in
  let b := set_orders b (slab_set (orders b) slot node_copy) in
  let! rem := remaining node_copy in
  let side := node_side node_copy in
  let price := node_price node_copy in
  let! b :=
    match BTree.get price (side_levels b side) with
    | Some level =>
        let! total := unwrap (u64_checked (total_remaining level - quantity)) in
        Ret (set_levels b side
               (BTree.insert price (level_set_total level total) (side_levels b side)))
    | None => Ret b
    end in
  if QuantityLots.is_zero rem then
    let b := set_index b (delete (node_order_id node_copy) (order_index b)) in
    let! (removed, s) := unwrap (slab_remove (orders b) slot) in
    let b := set_orders b s in
    let! b := unlink b removed in
    Ret (b, node_copy)
  else Ret (b, node_copy).

Definition head_slot (b : OrderBook S) (side : Side.t) (price : PriceTicks) : option nat :=
  match BTree.get price (side_levels b side) with
  | Some level => level_head level
  | None => None
  end.

(** Best resting price on [side] that is eligible against [limit]. *)
Definition next_eligible_price (b : OrderBook S) (side : Side.t)
    (limit : option PriceTicks) : option PriceTicks :=
  match side with
  | Side.Buy =>
      let* (price, _) := BTree.last (bids b) in
      match limit with
      | Some limit => if price <? limit then None else Some price
      | None => Some price
      end
  | Side.Sell =>
      let* (price, _) := BTree.first (asks b) in
      match limit with
      | Some limit => if limit <? price then None else Some price
      | None => Some price
      end
  end.

(** Level view in canonical price order: bids descending, asks ascending. *)
Definition levels (b : OrderBook S) (side : Side.t) : list (PriceTicks * PriceLevel) :=
  match side with
  | Side.Buy => rev (bids b)
  | Side.Sell => asks b
  end.

Definition top_levels (b : OrderBook S) (side : Side.t) (limit : nat)
  : list (PriceTicks * PriceLevel) :=
  match side with
  | Side.Buy => take limit (rev (bids b))
  | Side.Sell => take limit (asks b)
  end.

(** The cursor loop of [level_orders] and [level_orders_upto]. *)
Fixpoint walk (fuel : nat) (b : OrderBook S) (limit : option nat) (cursor : option nat)
    (out : list OrderNode) : res (list OrderNode) :=
  match fuel with
  | O => Panic
  | Datatypes.S fuel =>
      match cursor with
      | None => Ret out
      | Some slot =>
          if match limit with
             | Some limit => bool_decide (limit <= length out)%nat
             | None => false
             end
          then Ret out
          else
            let! n := node b slot in
            walk fuel b limit (node_next n) (out ++ [n])
      end
  end.

(** One step per live order and one to see the end. *)
Definition walk_fuel (b : OrderBook S) : nat := Datatypes.S (slab_len (orders b)).

Definition level_orders_upto (b : OrderBook S) (side : Side.t) (price : PriceTicks)
    (limit : nat) : res (list OrderNode) :=
  walk (walk_fuel b) b (Some limit) (head_slot b side price) [].

Definition level_orders (b : OrderBook S) (side : Side.t) (price : PriceTicks)
  : res (list OrderNode) :=
  walk (walk_fuel b) b None (head_slot b side price) [].

Fixpoint snapshot_levels (b : OrderBook S) (side : Side.t)
    (ls : list (PriceTicks * PriceLevel))
  : res (list (Side.t * PriceTicks * list OrderNode)) :=
  match ls with
  | [] => Ret []
  | (price, _) :: ls =>
      let! os := level_orders b side price in
      let! rest := snapshot_levels b side ls in
      Ret ((side, price, os) :: rest)
  end.

(** Full canonical view used by state hashing, tests, and read models. *)
Definition snapshot (b : OrderBook S) : res (list (Side.t * PriceTicks * list OrderNode)) :=
  let! buys := snapshot_levels b Side.Buy (levels b Side.Buy) in
  let! sells := snapshot_levels b Side.Sell (levels b Side.Sell) in
  Ret (buys ++ sells).

(** [orders.iter().map(|order| order.remaining().0).sum()]. *)
Fixpoint sum_remaining (os : list OrderNode) (acc : Z) : res Z :=
  match os with
  | [] => Ret acc
  | o :: os =>
      let! r := remaining o in
      let! acc := u64_plain (acc + r) in
      sum_remaining os acc
  end.

(** The checks of [check_invariants] on the orders of one level. *)
Fixpoint check_orders (b : OrderBook S) (side : Side.t) (price : PriceTicks)
    (os : list OrderNode) (previous : option PrioritySeq)
  : res (Result unit InvariantError) :=
  match os with
  | [] => Ret (Ok tt)
  | o :: os =>
      if negb (bool_decide (node_side o = side)) || negb (node_price o =? price)
      then Ret (Err (OrderInWrongLevel (node_order_id o)))
      else
        let! rem := remaining o in
        if QuantityLots.is_zero rem
        then Ret (Err (OrderRestsWithNoQuantity (node_order_id o)))
        else if match previous with
                | Some p => node_priority o <=? p
                | None => false
                end
        then Ret (Err (PriorityNotIncreasing price))
        else
          match order_index b !! node_order_id o with
          | Some slot =>
              let! m := node b slot in
              if node_order_id m =? node_order_id o
              then check_orders b side price os (Some (node_priority o))
              else Ret (Err (OrderMissingFromIndex (node_order_id o)))
          | None => Ret (Err (OrderMissingFromIndex (node_order_id o)))
          end
  end.

Fixpoint check_levels (b : OrderBook S) (side : Side.t)
    (ls : list (PriceTicks * PriceLevel)) (seen : nat)
  : res (Result nat InvariantError) :=
  match ls with
  | [] => Ret (Ok seen)
  | (price, level) :: ls =>
      if order_count level =? 0 then Ret (Err (EmptyLevelRetained price))
      else
        let! os := level_orders b side price in
        if negb (Z.of_nat (length os) =? order_count level)
        then Ret (Err (LevelCountMismatch price))
        else
          let! total := sum_remaining os 0 in
          if negb (total =? total_remaining level)
          then Ret (Err (LevelAggregateMismatch price))
          else
            let? _ := check_orders b side price os None in
            check_levels b side ls (seen + length os)%nat
  end.

(** Checks the structural invariants. *)
Definition check_invariants (b : OrderBook S) : res (Result unit InvariantError) :=
  let? seen := check_levels b Side.Buy (levels b Side.Buy) 0%nat in
  let? seen := check_levels b Side.Sell (levels b Side.Sell) seen in
  if negb (seen =? slab_len (orders b))%nat || negb (seen =? size (order_index b))%nat
  then Ret (Err LiveOrderCountMismatch)
  else
    match best_bid b, best_ask b with
    | Some (bid, _), Some (ask, _) =>
        if ask <=? bid then Ret (Err (CrossedBook bid ask)) else Ret (Ok tt)
    | _, _ => Ret (Ok tt)
    end.

End Book.

End Book.

#[global] Arguments Book.walk_fuel : simpl never.
