(* ===== verification/Matching.v ===== *)
(** Deterministic matching against the book
    ([crates/trading-core/src/matching.rs]). *)

From S2P Require Import Prelude Enums Ids BTree Slab Book.

Record Fill := mkFill {
  fill_maker_order_id : OrderId;
  fill_maker_account : AccountId;
  fill_maker_client_order_id : ClientOrderId;
  fill_price : PriceTicks;
  fill_quantity : QuantityLots;
  fill_maker_total_quantity : QuantityLots;
  fill_maker_cumulative_filled : QuantityLots;
  fill_maker_remaining : QuantityLots
}.

Definition maker_is_filled (f : Fill) : bool :=
  QuantityLots.is_zero (fill_maker_remaining f).

Section Matching.
Context {S : Type} `{SL : Slab OrderNode S}.

(** The inner loop: the head of the level at [price] trades until the taker is
    done or the level is gone. *)
Fixpoint match_level (fuel : nat) (b : OrderBook S) (maker_side : Side.t)
    (price : PriceTicks) (rem : Z) (fills : list Fill)
  : res (OrderBook S * Z * list Fill) :=
  match fuel with
  | O => Panic
  | Datatypes.S fuel =>
      if 0 <? rem then
        match Book.head_slot b maker_side price with
        | None => Ret (b, rem, fills)
        | Some slot =>
            let! maker := Book.node b slot in
            let! maker_rem := remaining maker in
            let traded := Z.min rem maker_rem in
            let! (b, maker_after) := Book.fill_maker b slot traded in
            let! rem := u64_plain (rem - traded) in
            let! after_rem := remaining maker_after in
            match_level fuel b maker_side price rem
              (fills ++
                 [ mkFill (node_order_id maker) (node_account maker)
                     (node_client_order_id maker) price traded
                     (node_total_quantity maker_after)
                     (node_cumulative_filled maker_after) after_rem ])
        end
      else Ret (b, rem, fills)
  end.

(** The outer loop: best eligible price first. *)
Fixpoint match_prices (fuel : nat) (b : OrderBook S) (maker_side : Side.t)
    (limit : PriceTicks) (rem : Z) (fills : list Fill)
  : res (OrderBook S * Z * list Fill) :=
  match fuel with
  | O => Panic
  | Datatypes.S fuel =>
      if 0 <? rem then
        match Book.next_eligible_price b maker_side (Some limit) with
        | None => Ret (b, rem, fills)
        | Some price =>
            let! (b, rem, fills) :=
              match_level (Book.walk_fuel b) b maker_side price rem fills in
            match_prices fuel b maker_side limit rem fills
        end
      else Ret (b, rem, fills)
  end.

(** [match_order]: returns the book, the fills appended in execution order and
    the filled quantity.  Every level holds a live order, so [walk_fuel] also
    bounds the outer loop. *)
Definition match_order (b : OrderBook S) (taker_side : Side.t) (limit : PriceTicks)
    (quantity : QuantityLots) (fills : list Fill)
  : res (OrderBook S * list Fill * QuantityLots) :=
  let maker_side := Side.opposite taker_side in
  let! (b', rem, fills) :=
    match_prices (Book.walk_fuel b) b maker_side limit quantity fills in
  let! filled := u64_plain (quantity - rem) in
  Ret (b', fills, filled).

End Matching.
