(* ===== verification/Reference.v ===== *)
(** The deliberately simple book used as the correctness oracle
    ([crates/trading-core/src/reference.rs]): price levels holding a [VecDeque]
    of orders, searched linearly. *)

From S2P Require Import Prelude Enums Ids BTree Slab Book.

Record ReferenceOrder := mkReferenceOrder {
  ref_order_id : OrderId;
  ref_priority : PrioritySeq;
  ref_total_quantity : QuantityLots;
  ref_cumulative_filled : QuantityLots
}.

(** [debug_assert!] and the subtraction both panic on an underflow. *)
Definition ref_remaining (o : ReferenceOrder) : res QuantityLots :=
  u64_plain (ref_total_quantity o - ref_cumulative_filled o).

Record ReferenceFill := mkReferenceFill {
  rf_maker_order_id : OrderId;
  rf_price : PriceTicks;
  rf_quantity : QuantityLots;
  rf_maker_remaining : QuantityLots
}.

Definition BookRow : Type :=
  Side.t * PriceTicks * list (OrderId * QuantityLots * PrioritySeq).

Record ReferenceBook := mkReferenceBook {
  ref_bids : BTreeMap (list ReferenceOrder);
  ref_asks : BTreeMap (list ReferenceOrder)
}.

Module Reference.

Definition new : ReferenceBook := mkReferenceBook [] [].

Definition side_mut (rb : ReferenceBook) (side : Side.t) : BTreeMap (list ReferenceOrder) :=
  match side with
  | Side.Buy => ref_bids rb
  | Side.Sell => ref_asks rb
  end.

Definition set_side (rb : ReferenceBook) (side : Side.t)
    (l : BTreeMap (list ReferenceOrder)) : ReferenceBook :=
  match side with
  | Side.Buy => mkReferenceBook l (ref_asks rb)
  | Side.Sell => mkReferenceBook (ref_bids rb) l
  end.

Definition insert (rb : ReferenceBook) (side : Side.t) (price : PriceTicks)
    (order : ReferenceOrder) : ReferenceBook :=
  let levels := side_mut rb side in
  set_side rb side
    (BTree.insert price (default [] (BTree.get price levels) ++ [order]) levels).

(** [orders.iter().position(..)] then [orders.remove(position)]. *)
Fixpoint take_order (id : OrderId) (os : list ReferenceOrder)
  : option (ReferenceOrder * list ReferenceOrder) :=
  match os with
  | [] => None
  | o :: os =>
      if ref_order_id o =? id then Some (o, os)
      else
        match take_order id os with
        | Some (x, rest) => Some (x, o :: rest)
        | None => None
        end
  end.

(** The first level, in price order, that holds the order: its price, the
    order and the orders left at that price. *)
Fixpoint find_level (id : OrderId) (ls : BTreeMap (list ReferenceOrder))
  : option (PriceTicks * ReferenceOrder * list ReferenceOrder) :=
  match ls with
  | [] => None
  | (price, os) :: ls =>
      match take_order id os with
      | Some (o, rest) => Some (price, o, rest)
      | None => find_level id ls
      end
  end.

Definition remove_side (rb : ReferenceBook) (side : Side.t) (id : OrderId)
  : option (ReferenceBook * (Side.t * PriceTicks * ReferenceOrder)) :=
  let levels := side_mut rb side in
  match find_level id levels with
  | Some (price, order, rest) =>
      let levels :=
        match rest with
        | [] => BTree.remove price levels
        | _ => BTree.insert price rest levels
        end in
      Some (set_side rb side levels, (side, price, order))
  | None => None
  end.

Definition remove (rb : ReferenceBook) (id : OrderId)
  : ReferenceBook * option (Side.t * PriceTicks * ReferenceOrder) :=
  match remove_side rb Side.Buy id with
  | Some (rb', r) => (rb', Some r)
  | None =>
      match remove_side rb Side.Sell id with
      | Some (rb', r) => (rb', Some r)
      | None => (rb, None)
      end
  end.

(** [orders.iter_mut().find(..)] and the write to its total. *)
Fixpoint set_total (id : OrderId) (new_total : QuantityLots) (os : list ReferenceOrder)
  : option (list ReferenceOrder) :=
  match os with
  | [] => None
  | o :: os =>
      if ref_order_id o =? id then
        Some (mkReferenceOrder (ref_order_id o) (ref_priority o) new_total
                (ref_cumulative_filled o) :: os)
      else
        match set_total id new_total os with
        | Some os => Some (o :: os)
        | None => None
        end
  end.

Fixpoint set_total_levels (id : OrderId) (new_total : QuantityLots)
    (ls : BTreeMap (list ReferenceOrder)) : option (BTreeMap (list ReferenceOrder)) :=
  match ls with
  | [] => None
  | (price, os) :: ls =>
      match set_total id new_total os with
      | Some os => Some ((price, os) :: ls)
      | None =>
          match set_total_levels id new_total ls with
          | Some ls => Some ((price, os) :: ls)
          | None => None
          end
      end
  end.

Definition reduce_total (rb : ReferenceBook) (id : OrderId) (new_total : QuantityLots)
  : ReferenceBook :=
  match set_total_levels id new_total (ref_bids rb) with
  | Some l => set_side rb Side.Buy l
  | None =>
      match set_total_levels id new_total (ref_asks rb) with
      | Some l => set_side rb Side.Sell l
      | None => rb
      end
  end.

Definition get (rb : ReferenceBook) (id : OrderId)
  : option (Side.t * PriceTicks * ReferenceOrder) :=
  match find_level id (ref_bids rb) with
  | Some (price, o, _) => Some (Side.Buy, price, o)
  | None =>
      match find_level id (ref_asks rb) with
      | Some (price, o, _) => Some (Side.Sell, price, o)
      | None => None
      end
  end.

(** The inner loop: the front of the queue trades until the taker is done or
    the queue is empty. *)
Fixpoint match_queue (fuel : nat) (price : PriceTicks) (os : list ReferenceOrder)
    (rem : Z) (fills : list ReferenceFill)
  : res (list ReferenceOrder * Z * list ReferenceFill) :=
  match fuel with
  | O => Panic
  | Datatypes.S fuel =>
      if 0 <? rem then
        match os with
        | [] => Ret (os, rem, fills)
        | maker :: rest =>
            let! maker_rem := ref_remaining maker in
            let traded := Z.min rem maker_rem in
            let! cumulative := u64_plain (ref_cumulative_filled maker + traded) in
            let maker :=
              mkReferenceOrder (ref_order_id maker) (ref_priority maker)
                (ref_total_quantity maker) cumulative in
            let! rem := u64_plain (rem - traded) in
            let! maker_rem := ref_remaining maker in
            let os := if QuantityLots.is_zero maker_rem then rest else maker :: rest in
            match_queue fuel price os rem
              (fills ++ [mkReferenceFill (ref_order_id maker) price traded maker_rem])
        end
      else Ret (os, rem, fills)
  end.

Definition best_price (rb : ReferenceBook) (side : Side.t) : option PriceTicks :=
  match side with
  | Side.Buy => fst <$> BTree.last (ref_bids rb)
  | Side.Sell => fst <$> BTree.first (ref_asks rb)
  end.

Definition eligible (side : Side.t) (price limit : PriceTicks) : bool :=
  match side with
  | Side.Buy => limit <=? price
  | Side.Sell => price <=? limit
  end.

Fixpoint match_prices (fuel : nat) (rb : ReferenceBook) (maker_side : Side.t)
    (limit : PriceTicks) (rem : Z) (fills : list ReferenceFill)
  : res (ReferenceBook * Z * list ReferenceFill) :=
  match fuel with
  | O => Panic
  | Datatypes.S fuel =>
      if 0 <? rem then
        match best_price rb maker_side with
        | None => Ret (rb, rem, fills)
        | Some price =>
            if negb (eligible maker_side price limit) then Ret (rb, rem, fills)
            else
              let levels := side_mut rb maker_side in
              let! os := unwrap (BTree.get price levels) in
              let! (os, rem, fills) :=
                match_queue (Datatypes.S (length os)) price os rem fills in
              let levels :=
                match os with
                | [] => BTree.remove price levels
                | _ => BTree.insert price os levels
                end in
              match_prices fuel (set_side rb maker_side levels) maker_side limit rem fills
        end
      else Ret (rb, rem, fills)
  end.

(** Each round of the outer loop empties a level or finishes the taker. *)
Definition match_order (rb : ReferenceBook) (taker_side : Side.t) (limit : PriceTicks)
    (quantity : QuantityLots) (fills : list ReferenceFill)
  : res (ReferenceBook * list ReferenceFill * QuantityLots) :=
  let maker_side := Side.opposite taker_side in
  let! (rb, rem, fills) :=
    match_prices (Datatypes.S (length (side_mut rb maker_side))) rb maker_side limit
      quantity fills in
  let! filled := u64_plain (quantity - rem) in
  Ret (rb, fills, filled).

Fixpoint canonical_orders (os : list ReferenceOrder)
  : res (list (OrderId * QuantityLots * PrioritySeq)) :=
  match os with
  | [] => Ret []
  | o :: os =>
      let! r := ref_remaining o in
      let! rest := canonical_orders os in
      Ret ((ref_order_id o, r, ref_priority o) :: rest)
  end.

Fixpoint snapshot_levels (side : Side.t) (ls : list (PriceTicks * list ReferenceOrder))
  : res (list BookRow) :=
  match ls with
  | [] => Ret []
  | (price, os) :: ls =>
      let! row := canonical_orders os in
      let! rest := snapshot_levels side ls in
      Ret ((side, price, row) :: rest)
  end.

Definition snapshot (rb : ReferenceBook) : res (list BookRow) :=
  let! buys := snapshot_levels Side.Buy (rev (ref_bids rb)) in
  let! sells := snapshot_levels Side.Sell (ref_asks rb) in
  Ret (buys ++ sells).

End Reference.

Section BookRows.
Context {S : Type} `{SL : Slab OrderNode S}.

Fixpoint book_row_orders (os : list OrderNode)
  : res (list (OrderId * QuantityLots * PrioritySeq)) :=
  match os with
  | [] => Ret []
  | o :: os =>
      let! r := remaining o in
      let! rest := book_row_orders os in
      Ret ((node_order_id o, r, node_priority o) :: rest)
  end.

Fixpoint book_rows_of (rows : list (Side.t * PriceTicks * list OrderNode))
  : res (list BookRow) :=
  match rows with
  | [] => Ret []
  | (side, price, os) :: rows =>
      let! row := book_row_orders os in
      let! rest := book_rows_of rows in
      Ret ((side, price, row) :: rest)
  end.

(** Same canonical rows for the indexed book. *)
Definition book_rows (b : OrderBook S) : res (list BookRow) :=
  let! rows := Book.snapshot b in
  book_rows_of rows.

End BookRows.
