(* ===== verification/BookData.v ===== *)
(** The representation of the order book.

    [chain m p ss n] says that the slots [ss], in this order, are linked in the
    map [m]: the first one's [prev] is [p], the last one's [next] is [n] and
    neighbours point at each other.

    Without the links, the data of a slot is a [NewOrder]; a family of queues
    [q side price] lists the slots resting at each price in priority order.
    [dinv] relates that content to the price levels and to the index, and the
    three lemmas [dinv_insert], [dinv_remove] and [dinv_update] are the three
    ways the book's operations change it. *)

From Stdlib Require Import Sorted.
From stdpp Require Import sorting.
From S2P Require Import Prelude Enums Ids BTree Book.

Section Chains.
Implicit Types (m : gmap nat OrderNode) (ss : list nat) (p n : option nat).

(** The slot after a position: the head of the rest, or what follows it. *)
Definition next_of (ss : list nat) (n : option nat) : option nat :=
  match ss with
  | [] => n
  | s :: _ => Some s
  end.

(** The slot before a position: the last of the prefix, or what precedes it. *)
Definition last_of (p : option nat) (ss : list nat) : option nat :=
  match last ss with
  | Some s => Some s
  | None => p
  end.

Fixpoint chain (m : gmap nat OrderNode) (p : option nat) (ss : list nat) (n : option nat)
  : Prop :=
  match ss with
  | [] => True
  | s :: ss' =>
      (exists o, m !! s = Some o /\ node_prev o = p /\ node_next o = next_of ss' n)
      /\ chain m (Some s) ss' n
  end.

Lemma last_of_nil p : last_of p [] = p.
Proof. done. Qed.

Lemma last_of_cons p s ss : last_of p (s :: ss) = last_of (Some s) ss.
Proof. unfold last_of. rewrite last_cons. by destruct (last ss). Qed.

Lemma last_of_snoc p ss s : last_of p (ss ++ [s]) = Some s.
Proof. unfold last_of. by rewrite last_snoc. Qed.

Lemma last_of_None ss : last_of None ss = last ss.
Proof. unfold last_of. by destruct (last ss). Qed.

Lemma next_of_None ss : next_of ss None = head ss.
Proof. by destruct ss. Qed.

Lemma next_of_app ss1 ss2 n : next_of (ss1 ++ ss2) n = next_of ss1 (next_of ss2 n).
Proof. by destruct ss1. Qed.

Lemma chain_app m p ss1 ss2 n :
  chain m p (ss1 ++ ss2) n <->
  chain m p ss1 (next_of ss2 n) /\ chain m (last_of p ss1) ss2 n.
Proof.
  revert p. induction ss1 as [| s ss1 IH]; intros p; simpl.
  - rewrite last_of_nil. tauto.
  - rewrite next_of_app, IH, last_of_cons. tauto.
Qed.

Lemma chain_frame m m' p ss n :
  (forall s, s ∈ ss -> m' !! s = m !! s) -> chain m p ss n -> chain m' p ss n.
Proof.
  revert p. induction ss as [| s ss IH]; intros p Hm; simpl; [done |].
  intros [Hs Hc]. rewrite Hm by set_solver. split; [done |].
  apply IH; [set_solver | done].
Qed.

Lemma chain_elem m p ss n s : chain m p ss n -> s ∈ ss -> is_Some (m !! s).
Proof.
  revert p. induction ss as [| s' ss IH]; intros p Hc Hin; [set_solver |].
  destruct Hc as [(o & Ho & _) Hc]. apply elem_of_cons in Hin as [-> | Hin]; eauto.
Qed.

(** Redirecting the last node's [next]. *)
Lemma chain_set_next m p ss t o n n' :
  t ∉ ss -> m !! t = Some o -> chain m p (ss ++ [t]) n ->
  chain (<[t := node_set_next o n']> m) p (ss ++ [t]) n'.
Proof.
  intros Ht Ho. rewrite !chain_app. simpl.
  intros [H1 [(o' & Ho' & Hp & _) _]]. simplify_eq. split.
  - eapply chain_frame; [| done]. intros s Hs. apply lookup_insert_ne. set_solver.
  - split; [| done]. exists (node_set_next o n'). by rewrite lookup_insert_eq.
Qed.

(** Redirecting the first node's [prev]. *)
Lemma chain_set_prev m p p' s ss o n :
  s ∉ ss -> m !! s = Some o -> chain m p (s :: ss) n ->
  chain (<[s := node_set_prev o p']> m) p' (s :: ss) n.
Proof.
  intros Hs Ho. simpl. intros [(o' & Ho' & _ & Hn) Hc]. simplify_eq. split.
  - exists (node_set_prev o p'). by rewrite lookup_insert_eq.
  - eapply chain_frame; [| done]. intros t Ht. apply lookup_insert_ne. set_solver.
Qed.

(** A change of a node that keeps its links. *)
Lemma chain_set_data m p ss n s o o' :
  m !! s = Some o -> node_prev o' = node_prev o -> node_next o' = node_next o ->
  chain m p ss n -> chain (<[s := o']> m) p ss n.
Proof.
  intros Ho Hp Hn. revert p. induction ss as [| t ss IH]; intros p; simpl; [done |].
  intros [(o0 & Ho0 & Hp0 & Hn0) Hc]. split; [| auto].
  destruct (decide (s = t)) as [-> |].
  - simplify_eq. exists o'. rewrite lookup_insert_eq. split_and!; congruence.
  - exists o0. by rewrite lookup_insert_ne.
Qed.

(** The links of one node in the middle of a chain. *)
Lemma chain_middle m ss1 s ss2 :
  chain m None (ss1 ++ s :: ss2) None ->
  exists o, m !! s = Some o /\ node_prev o = last ss1 /\ node_next o = head ss2.
Proof.
  rewrite chain_app. simpl. intros [_ [(o & Ho & Hp & Hn) _]].
  exists o. rewrite Hp, Hn, last_of_None, next_of_None. done.
Qed.

End Chains.

Abbreviation levels_fn := (Side.t -> BTreeMap PriceLevel) (only parsing).
Abbreviation queues := (Side.t -> Z -> list nat) (only parsing).

(** The data of a node: everything but its links. *)
Definition node_data (o : OrderNode) : NewOrder :=
  mkNewOrder (node_order_id o) (node_account o) (node_client_order_id o)
    (node_side o) (node_price o) (node_total_quantity o)
    (node_cumulative_filled o) (node_priority o).

(** What is left of an order. *)
Definition order_rem (x : NewOrder) : Z := no_total_quantity x - no_cumulative_filled x.

Definition order_wf (x : NewOrder) : Prop :=
  0 <= no_cumulative_filled x <= no_total_quantity x /\ no_total_quantity x <= u64_max.

Definition slot_rem (d : gmap nat NewOrder) (s : nat) : Z :=
  from_option order_rem 0 (d !! s).

(** The aggregate of a queue. *)
Fixpoint qrem (d : gmap nat NewOrder) (ss : list nat) : Z :=
  match ss with
  | [] => 0
  | s :: ss => slot_rem d s + qrem d ss
  end.

Definition qprio (d : gmap nat NewOrder) (ss : list nat) : list Z :=
  omap (fun s => no_priority <$> d !! s) ss.

Definition q_set (q : queues) (side : Side.t) (price : Z) (ss : list nat) : queues :=
  fun s p => if decide (s = side /\ p = price) then ss else q s p.

(** [lv'] is [lv] with the binding at [side], [price] replaced by [o]. *)
Definition lv_set (lv lv' : levels_fn) (side : Side.t) (price : Z) (o : option PriceLevel)
  : Prop :=
  (forall s, BTree.sorted (lv' s)) /\
  forall s p, BTree.get p (lv' s)
              = if decide (s = side /\ p = price) then o else BTree.get p (lv s).

Record level_data (d : gmap nat NewOrder) (ss : list nat) (l : PriceLevel) : Prop := {
  ld_nonempty : ss <> [];
  ld_count : order_count l = Z.of_nat (length ss);
  ld_total : total_remaining l = qrem d ss;
  ld_count_u32 : in_u32 (order_count l);
  ld_total_u64 : in_u64 (total_remaining l)
}.

Record dinv (d : gmap nat NewOrder) (lv : levels_fn) (q : queues) (ix : gmap Z nat)
  : Prop := {
  di_sorted side : BTree.sorted (lv side);
  di_level side price l :
    BTree.get price (lv side) = Some l -> level_data d (q side price) l;
  di_none side price : BTree.get price (lv side) = None -> q side price = [];
  di_nodup side price : NoDup (q side price);
  di_wf s x : d !! s = Some x -> order_wf x;
  di_slot s x : d !! s = Some x -> s ∈ q (no_side x) (no_price x);
  di_queue side price s :
    s ∈ q side price -> exists x, d !! s = Some x /\ no_side x = side /\ no_price x = price;
  di_prio side price : StronglySorted Z.lt (qprio d (q side price));
  di_index id s : ix !! id = Some s <-> exists x, d !! s = Some x /\ no_order_id x = id
}.

Lemma q_set_eq q side price ss : q_set q side price ss side price = ss.
Proof. unfold q_set. case_decide; naive_solver. Qed.

Lemma q_set_ne q side price ss s p :
  ~ (s = side /\ p = price) -> q_set q side price ss s p = q s p.
Proof. unfold q_set. by case_decide. Qed.

Lemma qrem_app d ss1 ss2 : qrem d (ss1 ++ ss2) = qrem d ss1 + qrem d ss2.
Proof. induction ss1; simpl; lia. Qed.

Lemma qrem_frame d d' ss :
  (forall s, s ∈ ss -> d' !! s = d !! s) -> qrem d' ss = qrem d ss.
Proof.
  induction ss as [| s ss IH]; simpl; intros H; [done |].
  unfold slot_rem. rewrite H by set_solver. rewrite IH; set_solver.
Qed.

Lemma qprio_cons d s ss :
  qprio d (s :: ss)
  = match d !! s with
    | Some x => no_priority x :: qprio d ss
    | None => qprio d ss
    end.
Proof. unfold qprio. simpl. by destruct (d !! s). Qed.

Lemma qprio_frame d d' ss :
  (forall s, s ∈ ss -> d' !! s = d !! s) -> qprio d' ss = qprio d ss.
Proof.
  induction ss as [| s ss IH]; intros H; [done |].
  rewrite !qprio_cons, H, IH; set_solver.
Qed.

Lemma qprio_app d ss1 ss2 : qprio d (ss1 ++ ss2) = qprio d ss1 ++ qprio d ss2.
Proof. apply omap_app. Qed.

Lemma elem_qprio d ss p :
  p ∈ qprio d ss <-> exists s x, s ∈ ss /\ d !! s = Some x /\ no_priority x = p.
Proof.
  unfold qprio. rewrite list_elem_of_omap. split.
  - intros (s & Hs & Hp). destruct (d !! s) eqn:E; simplify_eq/=. eauto.
  - intros (s & x & Hs & Hx & <-). exists s. by rewrite Hx.
Qed.

Lemma qrem_nonneg d ss :
  (forall s x, d !! s = Some x -> order_wf x) -> 0 <= qrem d ss.
Proof.
  intros Hwf. induction ss as [| s ss IH]; simpl; [lia |].
  unfold slot_rem. destruct (d !! s) eqn:E; simpl; [| lia].
  apply Hwf in E. unfold order_wf, order_rem in *. lia.
Qed.

Lemma level_data_frame d d' ss l :
  (forall s, s ∈ ss -> d' !! s = d !! s) -> level_data d ss l -> level_data d' ss l.
Proof.
  intros H []. constructor; try done. rewrite ld_total0. symmetry. by apply qrem_frame.
Qed.

Section DInv.
Context {d : gmap nat NewOrder} {lv : levels_fn} {q : queues} {ix : gmap Z nat}.
Context (D : dinv d lv q ix).

(** A slot belongs to the one queue its data names. *)
Lemma dinv_elem side price s x :
  d !! s = Some x -> s ∈ q side price -> side = no_side x /\ price = no_price x.
Proof.
  intros Hx Hs. destruct (di_queue _ _ _ _ D _ _ _ Hs) as (y & Hy & <- & <-).
  by simplify_eq.
Qed.

Lemma dinv_not_elem s side price : d !! s = None -> s ∉ q side price.
Proof.
  intros Hs Hin. destruct (di_queue _ _ _ _ D _ _ _ Hin) as (y & Hy & _). congruence.
Qed.

Lemma dinv_level_some side price s :
  s ∈ q side price -> exists l, BTree.get price (lv side) = Some l.
Proof.
  intros Hs. destruct (BTree.get price (lv side)) eqn:E; [by eauto |].
  rewrite (di_none _ _ _ _ D _ _ E) in Hs. set_solver.
Qed.

Lemma dinv_id_inj s1 s2 x1 x2 :
  d !! s1 = Some x1 -> d !! s2 = Some x2 -> no_order_id x1 = no_order_id x2 -> s1 = s2.
Proof.
  intros H1 H2 Heq.
  assert (ix !! no_order_id x1 = Some s1) by (apply (di_index _ _ _ _ D); eauto).
  assert (ix !! no_order_id x1 = Some s2) by (apply (di_index _ _ _ _ D); eauto).
  congruence.
Qed.

(** A new order joins the tail of its queue. *)
Lemma dinv_insert slot x lv' l :
  d !! slot = None -> ix !! no_order_id x = None -> order_wf x ->
  (forall p, p ∈ qprio d (q (no_side x) (no_price x)) -> p < no_priority x) ->
  lv_set lv lv' (no_side x) (no_price x) (Some l) ->
  order_count l = Z.of_nat (length (q (no_side x) (no_price x))) + 1 ->
  total_remaining l = qrem d (q (no_side x) (no_price x)) + order_rem x ->
  in_u32 (order_count l) -> in_u64 (total_remaining l) ->
  dinv (<[slot := x]> d) lv'
    (q_set q (no_side x) (no_price x) (q (no_side x) (no_price x) ++ [slot]))
    (<[no_order_id x := slot]> ix).
Proof.
  intros Hslot Hid Hwf Hprio [Hsort Hget] Hc Ht Hcu Htu.
  set (side := no_side x) in *. set (price := no_price x) in *.
  assert (Hne : forall s p, slot ∉ q s p) by (intros; by apply dinv_not_elem).
  assert (Hfr : forall s p t, t ∈ q s p -> <[slot := x]> d !! t = d !! t).
  { intros s p t Ht'. apply lookup_insert_ne. intros ->. by eapply Hne. }
  assert (Hlast : <[slot := x]> d !! slot = Some x) by apply lookup_insert_eq.
  constructor.
  - done.
  - intros s p l'. rewrite Hget. unfold q_set. case_decide.
    + intros; simplify_eq. constructor; try done.
      * by destruct (q side price).
      * rewrite length_app. simpl. lia.
      * rewrite qrem_app. simpl. unfold slot_rem at 1. rewrite Hlast. simpl.
        rewrite (qrem_frame d) by eauto. lia.
    + intros Hl. eapply level_data_frame; [| by eapply (di_level _ _ _ _ D)]. eauto.
  - intros s p. rewrite Hget. unfold q_set. case_decide; [done |]. apply (di_none _ _ _ _ D).
  - intros s p. unfold q_set. case_decide; [| apply (di_nodup _ _ _ _ D)].
    apply NoDup_app. split_and!; [apply (di_nodup _ _ _ _ D) | | apply NoDup_singleton].
    intros t Ht' ->%list_elem_of_singleton. by eapply Hne.
  - intros s y. rewrite lookup_insert. case_decide; intros; simplify_eq; [done |].
    by eapply (di_wf _ _ _ _ D).
  - intros s y. rewrite lookup_insert. case_decide; intros; simplify_eq.
    + rewrite q_set_eq. set_solver.
    + apply (di_slot _ _ _ _ D) in H0. unfold q_set. case_decide as Hd; [| done].
      destruct Hd as [E1 E2]. rewrite E1, E2 in H0. set_solver.
  - intros s p t. unfold q_set. case_decide as Hd.
    + destruct Hd as [-> ->]. intros [Hin | ->%list_elem_of_singleton]%elem_of_app; [| eauto].
      rewrite (Hfr _ _ _ Hin). by apply (di_queue _ _ _ _ D).
    + intros Hin. rewrite (Hfr _ _ _ Hin). by apply (di_queue _ _ _ _ D).
  - intros s p. unfold q_set. case_decide.
    + rewrite qprio_app, (qprio_frame d) by eauto. rewrite qprio_cons, Hlast. apply StronglySorted_app_2; [| apply (di_prio _ _ _ _ D) | by repeat constructor].
      intros p1 p2 H1 ->%list_elem_of_singleton. auto.
    + rewrite (qprio_frame d) by eauto. apply (di_prio _ _ _ _ D).
  - intros id s. rewrite lookup_insert. case_decide as Hi.
    + subst. split.
      * intros; simplify_eq. eauto.
      * intros (y & Hy & Hyid). rewrite lookup_insert in Hy. case_decide; [congruence |].
        assert (ix !! no_order_id x = Some s) by (apply (di_index _ _ _ _ D); eauto).
        congruence.
    + rewrite (di_index _ _ _ _ D). split; intros (y & Hy & Hyid).
      * exists y. rewrite lookup_insert_ne; [done |]. intros ->. congruence.
      * exists y. rewrite lookup_insert in Hy. case_decide; [congruence | done].
Qed.

(** An order leaves its queue. *)
Lemma dinv_remove slot x lv' o ss1 ss2 :
  d !! slot = Some x ->
  q (no_side x) (no_price x) = ss1 ++ slot :: ss2 ->
  lv_set lv lv' (no_side x) (no_price x) o ->
  match o with
  | None => ss1 ++ ss2 = []
  | Some l => level_data d (ss1 ++ ss2) l
  end ->
  dinv (delete slot d) lv' (q_set q (no_side x) (no_price x) (ss1 ++ ss2))
    (delete (no_order_id x) ix).
Proof.
  intros Hx Hq [Hsort Hget] Ho.
  set (side := no_side x) in *. set (price := no_price x) in *.
  pose proof (di_nodup _ _ _ _ D side price) as Hnd. rewrite Hq in Hnd.
  apply NoDup_app in Hnd as (Hnd1 & Hdis & Hnd2). apply NoDup_cons in Hnd2 as [Hns2 Hnd2].
  assert (Hns : slot ∉ ss1 ++ ss2) by set_solver.
  assert (Hne : forall s p, ~ (s = side /\ p = price) -> slot ∉ q s p).
  { intros s p Hsp Hin. apply Hsp. by eapply dinv_elem. }
  assert (Hfr : forall t, t <> slot -> delete slot d !! t = d !! t).
  { intros t Ht. by apply lookup_delete_ne. }
  constructor.
  - done.
  - intros s p l'. rewrite Hget. unfold q_set. case_decide.
    + intros ->. eapply level_data_frame; [| done]. intros t Ht. apply Hfr. by intros ->.
    + intros Hl. eapply level_data_frame; [| by eapply (di_level _ _ _ _ D)].
      intros t Ht. apply Hfr. intros ->. by eapply Hne.
  - intros s p. rewrite Hget. unfold q_set. case_decide; [| apply (di_none _ _ _ _ D)].
    by intros ->.
  - intros s p. unfold q_set. case_decide; [| apply (di_nodup _ _ _ _ D)].
    apply NoDup_app. set_solver.
  - intros s y [_ Hy]%lookup_delete_Some. by eapply (di_wf _ _ _ _ D).
  - intros s y [Hs Hy]%lookup_delete_Some. apply (di_slot _ _ _ _ D) in Hy as Hin.
    unfold q_set. case_decide as Hd; [| done]. destruct Hd as [Hd1 Hd2].
    rewrite Hd1, Hd2, Hq in Hin. set_solver.
  - intros s p t. unfold q_set. case_decide as Hd; intros Hin.
    + destruct Hd as [-> ->]. rewrite Hfr by (intros ->; done).
      apply (di_queue _ _ _ _ D). rewrite Hq. set_solver.
    + rewrite Hfr by (intros ->; by eapply Hne). by apply (di_queue _ _ _ _ D).
  - intros s p. unfold q_set. case_decide.
    + rewrite (qprio_frame d) by (intros t Ht; apply Hfr; by intros ->).
      pose proof (di_prio _ _ _ _ D side price) as Hp. rewrite Hq in Hp.
      rewrite qprio_app in Hp |- *. change (slot :: ss2) with ([slot] ++ ss2) in Hp.
      rewrite qprio_app in Hp. apply StronglySorted_app in Hp as (H1 & H2 & H3).
      apply StronglySorted_app in H3 as (_ & _ & H3).
      apply StronglySorted_app_2; [| done..]. intros; apply H1; set_solver.
    + rewrite (qprio_frame d); [apply (di_prio _ _ _ _ D) |].
      intros t Ht. apply Hfr. intros ->. by eapply Hne.
  - intros id s. rewrite lookup_delete_Some, (di_index _ _ _ _ D). split.
    + intros (Hi & y & Hy & Hyid). exists y. rewrite Hfr; [done |]. intros ->. congruence.
    + intros (y & Hy & Hyid). apply lookup_delete_Some in Hy as [Hs Hy]. split; [| eauto].
      intros <-. apply Hs. by eapply dinv_id_inj.
Qed.

(** An order changes its quantities in place. *)
Lemma dinv_update slot x x' lv' l :
  d !! slot = Some x ->
  no_order_id x' = no_order_id x -> no_side x' = no_side x -> no_price x' = no_price x ->
  no_priority x' = no_priority x -> order_wf x' ->
  lv_set lv lv' (no_side x) (no_price x) (Some l) ->
  order_count l = Z.of_nat (length (q (no_side x) (no_price x))) ->
  total_remaining l = qrem d (q (no_side x) (no_price x)) - order_rem x + order_rem x' ->
  in_u32 (order_count l) -> in_u64 (total_remaining l) ->
  dinv (<[slot := x']> d) lv' q ix.
Proof.
  intros Hx Hid Hside Hprice Hpr Hwf [Hsort Hget] Hc Ht Hcu Htu.
  pose proof (di_slot _ _ _ _ D _ _ Hx) as Hin.
  assert (Hdata : forall t y, <[slot := x']> d !! t = Some y ->
            exists y0, d !! t = Some y0 /\ no_order_id y = no_order_id y0
            /\ no_side y = no_side y0 /\ no_price y = no_price y0).
  { intros t y. rewrite lookup_insert. case_decide; intros; simplify_eq; eauto 10. }
  assert (Hpq : forall ss, qprio (<[slot := x']> d) ss = qprio d ss).
  { intros ss. induction ss as [| t ss IH]; [done |].
    rewrite !qprio_cons, IH, lookup_insert. case_decide; [| done].
    subst. by rewrite Hx, Hpr. }
  assert (Hfr : forall ss, slot ∉ ss -> qrem (<[slot := x']> d) ss = qrem d ss).
  { intros ss Hs. apply qrem_frame. intros t Ht'. apply lookup_insert_ne. set_solver. }
  constructor.
  - done.
  - intros s p l'. rewrite Hget. case_decide as Hd.
    + destruct Hd as [-> ->]. intros; simplify_eq. constructor; try done.
      * intros E. rewrite E in Hin. set_solver.
      * rewrite Ht. apply list_elem_of_split in Hin as (s1 & s2 & E). rewrite E.
        pose proof (di_nodup _ _ _ _ D (no_side x) (no_price x)) as Hnd. rewrite E in Hnd.
        apply NoDup_app in Hnd as (_ & Hdis & Hnd). apply NoDup_cons in Hnd as [Hnd _].
        rewrite !qrem_app. simpl. rewrite !Hfr by set_solver. unfold slot_rem.
        rewrite lookup_insert_eq, Hx. simpl. lia.
    + intros Hl. eapply level_data_frame; [| by eapply (di_level _ _ _ _ D)].
      intros t Ht'. apply lookup_insert_ne. intros <-. apply Hd. by eapply dinv_elem.
  - intros s p. rewrite Hget. case_decide; [done |]. apply (di_none _ _ _ _ D).
  - apply (di_nodup _ _ _ _ D).
  - intros s y. rewrite lookup_insert. case_decide; intros; simplify_eq; [done |].
    by eapply (di_wf _ _ _ _ D).
  - intros s y Hy. apply Hdata in Hy as (y0 & Hy0 & _ & -> & ->).
    by apply (di_slot _ _ _ _ D).
  - intros s p t Hin'. destruct (di_queue _ _ _ _ D _ _ _ Hin') as (y & Hy & Hs & Hp).
    rewrite lookup_insert. case_decide; [| by eauto]. subst. simplify_eq.
    exists x'. by rewrite Hside, Hprice.
  - intros s p. rewrite Hpq. apply (di_prio _ _ _ _ D).
  - intros id s. rewrite (di_index _ _ _ _ D). split.
    + intros (y & Hy & <-). rewrite lookup_insert. case_decide; [| by eauto].
      subst. simplify_eq. eauto.
    + intros (y & Hy & <-). apply Hdata in Hy as (y0 & Hy0 & -> & _). eauto.
Qed.

End DInv.
