(* ===== verification/BookInv.v ===== *)
(** The invariant of the order book and its preservation by every operation.

    [binv b q] relates a book to a family of queues [q]: the levels, links,
    aggregates and index agree with the queues.  Each operation is specified
    by an equation [op b = Ret ..] — so it does not panic — together with the
    new queues and the change of the logical content [data b]. *)

From Stdlib Require Import Sorted.
From stdpp Require Import sorting.
From S2P Require Import Prelude Enums Ids BTree Slab Book BookData.

Section BookInv.
Context {S : Type} `{SL : Slab OrderNode S} `{!SlabLaws SL}.
Implicit Types (b : OrderBook S) (q : queues) (m : gmap nat OrderNode).

Definition view (b : OrderBook S) : gmap nat OrderNode := slab_view (orders b).
Definition data (b : OrderBook S) : gmap nat NewOrder := node_data <$> view b.

Record linked (m : gmap nat OrderNode) (lv : levels_fn) (q : queues) : Prop := {
  lk_head side price l :
    BTree.get price (lv side) = Some l -> level_head l = head (q side price);
  lk_tail side price l :
    BTree.get price (lv side) = Some l -> level_tail l = last (q side price);
  lk_chain side price : chain m None (q side price) None
}.

Record binv (b : OrderBook S) (q : queues) : Prop := {
  bi_data : dinv (data b) (Book.side_levels b) q (order_index b);
  bi_linked : linked (view b) (Book.side_levels b) q;
  bi_cap : (size (view b) <= capacity b)%nat
}.

(** Every resting order has quantity left. *)
Definition no_zero (b : OrderBook S) : Prop :=
  forall s x, data b !! s = Some x -> 0 < order_rem x.

(** * The record updates *)

Lemma levels_set_orders b s side :
  Book.side_levels (Book.set_orders b s) side = Book.side_levels b side.
Proof. by destruct side. Qed.

Lemma levels_set_index b i side :
  Book.side_levels (Book.set_index b i) side = Book.side_levels b side.
Proof. by destruct side. Qed.

Lemma orders_set_levels b side l : orders (Book.set_levels b side l) = orders b.
Proof. by destruct side. Qed.

Lemma index_set_levels b side l : order_index (Book.set_levels b side l) = order_index b.
Proof. by destruct side. Qed.

Lemma capacity_set_levels b side l : capacity (Book.set_levels b side l) = capacity b.
Proof. by destruct side. Qed.

Lemma levels_set_levels b side l side' :
  Book.side_levels (Book.set_levels b side l) side'
  = if decide (side' = side) then l else Book.side_levels b side'.
Proof. by destruct side, side'. Qed.

Lemma lv_set_insert (lv : levels_fn) b b' side price l :
  (forall s, lv s = Book.side_levels b s) -> (forall s, BTree.sorted (lv s)) ->
  b' = Book.set_levels b side (BTree.insert price l (Book.side_levels b side)) ->
  lv_set lv (Book.side_levels b') side price (Some l).
Proof.
  intros Hlv Hs ->. split.
  - intros s. rewrite levels_set_levels. case_decide; rewrite <- Hlv; auto with rust.
  - intros s p. rewrite levels_set_levels. destruct (decide (s = side)) as [-> | Hne].
    + rewrite BTree.get_insert, Hlv. repeat case_decide; naive_solver.
    + rewrite Hlv. case_decide; naive_solver.
Qed.

Lemma lv_set_remove (lv : levels_fn) b b' side price :
  (forall s, lv s = Book.side_levels b s) -> (forall s, BTree.sorted (lv s)) ->
  b' = Book.set_levels b side (BTree.remove price (Book.side_levels b side)) ->
  lv_set lv (Book.side_levels b') side price None.
Proof.
  intros Hlv Hs ->. split.
  - intros s. rewrite levels_set_levels. case_decide; rewrite <- Hlv; auto with rust.
  - intros s p. rewrite levels_set_levels. destruct (decide (s = side)) as [-> | Hne].
    + rewrite BTree.get_remove, Hlv by (rewrite <- Hlv; auto).
      repeat case_decide; naive_solver.
    + rewrite Hlv. case_decide; naive_solver.
Qed.

(** * Nodes *)

Lemma data_lookup b s x :
  data b !! s = Some x <-> exists o, view b !! s = Some o /\ x = node_data o.
Proof.
  unfold data. rewrite lookup_fmap. destruct (view b !! s); simpl; naive_solver.
Qed.

Lemma data_set_links m t o o' :
  m !! t = Some o -> node_data o' = node_data o ->
  node_data <$> <[t := o']> m = node_data <$> m.
Proof.
  intros Ho Hd. rewrite fmap_insert, Hd. apply insert_id. by rewrite lookup_fmap, Ho.
Qed.

(** The parts of a book no link update touches. *)
Definition same_frame (b b' : OrderBook S) : Prop :=
  (forall side, Book.side_levels b' side = Book.side_levels b side)
  /\ order_index b' = order_index b /\ capacity b' = capacity b.

Lemma node_ok b s o : view b !! s = Some o -> Book.node b s = Ret o.
Proof. unfold Book.node, view. rewrite slab_get_view. by intros ->. Qed.

Lemma node_update_ok b s o f :
  view b !! s = Some o ->
  exists b', Book.node_update b s f = Ret b' /\ view b' = <[s := f o]> (view b)
             /\ same_frame b b'.
Proof.
  intros Ho. unfold Book.node_update. rewrite (node_ok _ _ _ Ho). simpl.
  eexists. split; [done |]. split; [| by split_and!; [apply levels_set_orders |..]].
  unfold view in *. simpl. rewrite slab_set_view; [done | eauto].
Qed.

Lemma remaining_ok o :
  order_wf (node_data o) -> remaining o = Ret (order_rem (node_data o)).
Proof.
  unfold remaining, order_wf, order_rem. simpl. intros.
  rewrite u64_checked_in by mach. done.
Qed.

(** One queue of a linked book changes. *)
Lemma linked_set m m' lv lv' q side price ss o :
  linked m lv q -> lv_set lv lv' side price o ->
  (forall l, o = Some l -> level_head l = head ss /\ level_tail l = last ss) ->
  chain m' None ss None ->
  (forall s p t, ~ (s = side /\ p = price) -> t ∈ q s p -> m' !! t = m !! t) ->
  linked m' lv' (q_set q side price ss).
Proof.
  intros [Hh Ht Hc] [_ Hget] Ho Hch Hfr. constructor.
  - intros s p l. rewrite Hget. unfold q_set. case_decide; [naive_solver | eauto].
  - intros s p l. rewrite Hget. unfold q_set. case_decide; [naive_solver | eauto].
  - intros s p. unfold q_set. case_decide; [done |].
    eapply chain_frame; [| apply Hc]. eauto.
Qed.

Lemma q_set_id q side price ss :
  q side price = ss -> forall s p, q_set q side price ss s p = q s p.
Proof. intros <- s p. unfold q_set. case_decide; naive_solver. Qed.

(** A level changes but keeps its ends, and a node but keeps its links. *)
Lemma linked_update m lv lv' q side price l l' slot o o' :
  linked m lv q -> BTree.get price (lv side) = Some l ->
  lv_set lv lv' side price (Some l') ->
  level_head l' = level_head l -> level_tail l' = level_tail l ->
  m !! slot = Some o -> node_prev o' = node_prev o -> node_next o' = node_next o ->
  linked (<[slot := o']> m) lv' q.
Proof.
  intros [Hh Ht Hc] Hl [_ Hget] Eh Et Ho Hp Hn. constructor.
  - intros s p l0. rewrite Hget. case_decide as E; [| eauto].
    destruct E as [-> ->]. intros [= <-]. rewrite Eh. eauto.
  - intros s p l0. rewrite Hget. case_decide as E; [| eauto].
    destruct E as [-> ->]. intros [= <-]. rewrite Et. eauto.
  - intros s p. by eapply chain_set_data.
Qed.

(** The queues matter only pointwise. *)
Lemma binv_ext b q q' : (forall s p, q s p = q' s p) -> binv b q -> binv b q'.
Proof.
  intros Hq [[D1 D2 D3 D4 D5 D6 D7 D8 D9] [L1 L2 L3] Hcap].
  constructor; [constructor | constructor |]; try done; intros;
    rewrite <- ?Hq in *; eauto.
Qed.

(** * insert *)

(** Linking a fresh slot at the tail of a queue. *)
Lemma link_tail b ss t slot new :
  view b !! slot = Some new -> node_prev new = None -> node_next new = None ->
  slot ∉ ss -> NoDup ss -> last ss = Some t -> chain (view b) None ss None ->
  exists b', (let! b := Book.node_update b t (fun n => node_set_next n (Some slot)) in
              Book.node_update b slot (fun n => node_set_prev n (Some t))) = Ret b'
    /\ same_frame b b' /\ chain (view b') None (ss ++ [slot]) None
    /\ data b' = data b
    /\ forall s, s ∉ ss -> s <> slot -> view b' !! s = view b !! s.
Proof.
  intros Hnew Hp Hn Hslot Hnd Hlast Hch. apply last_Some in Hlast as [ss' ->].
  apply NoDup_app in Hnd as (_ & Hdis & _).
  assert (Ht : t ∉ ss') by set_solver. assert (Hts : t <> slot) by set_solver.
  destruct (chain_elem _ _ _ _ t Hch ltac:(set_solver)) as [ot Hot].
  destruct (node_update_ok b t ot (fun n => node_set_next n (Some slot)) Hot)
    as (b1 & E1 & V1 & F1).
  assert (Hnew1 : view b1 !! slot = Some new) by (by rewrite V1, lookup_insert_ne).
  destruct (node_update_ok b1 slot new (fun n => node_set_prev n (Some t)) Hnew1)
    as (b2 & E2 & V2 & F2).
  exists b2. rewrite E1. simpl. split; [done |].
  destruct F1 as (A1 & A2 & A3), F2 as (B1 & B2 & B3). split_and!.
  - split_and!; [intros; by rewrite B1, A1 | congruence..].
  - rewrite chain_app. simpl. rewrite last_of_snoc. split.
    + apply (chain_frame (view b1)).
      { intros s Hs. rewrite V2. apply lookup_insert_ne. set_solver. }
      rewrite V1. by eapply chain_set_next.
    + split; [| done]. exists (node_set_prev new (Some t)).
      by rewrite V2, lookup_insert_eq.
  - unfold data. rewrite V2, V1.
    erewrite data_set_links; [| by rewrite lookup_insert_ne | done].
    by eapply data_set_links.
  - intros s Hs Hne. rewrite V2, V1, !lookup_insert_ne; set_solver.
Qed.

(** When [insert] accepts an order. *)
Definition insert_ok (b : OrderBook S) (x : NewOrder) : Prop :=
  Book.is_full b = false /\ Book.level_overflows b x (order_rem x) = false.

Lemma insert_reject b x :
  order_wf x -> ~ insert_ok b x -> Book.insert b x = Ret (b, Err capacity_exhausted).
Proof.
  intros Hwf Hno. unfold Book.insert, insert_ok in *.
  destruct (Book.is_full b); [done |].
  assert (u64_checked (no_total_quantity x - no_cumulative_filled x) = Some (order_rem x)) as ->.
  { unfold order_wf, order_rem in *. apply u64_checked_in. mach. }
  destruct (Book.level_overflows b x (order_rem x)); [done |]. naive_solver.
Qed.

(** The levels after an insertion, given what the level holds. *)
Lemma level_overflows_false b q x :
  dinv (data b) (Book.side_levels b) q (order_index b) -> order_wf x ->
  Book.level_overflows b x (order_rem x) = false ->
  let ss := q (no_side x) (no_price x) in
  let l := default level_default (BTree.get (no_price x) (Book.side_levels b (no_side x))) in
  order_count l = Z.of_nat (length ss) /\ total_remaining l = qrem (data b) ss
  /\ in_u32 (order_count l + 1) /\ in_u64 (total_remaining l + order_rem x).
Proof.
  intros D Hwf. unfold Book.level_overflows.
  destruct (BTree.get (no_price x) (Book.side_levels b (no_side x))) as [l |] eqn:E; simpl.
  - destruct (di_level _ _ _ _ D _ _ _ E) as [_ Hc Ht _ _].
    destruct (u64_checked _) eqn:E1; [| done]. destruct (u32_checked _) eqn:E2; [| done].
    intros _. apply checked_Some in E1 as [-> ?], E2 as [-> ?]. split_and!; done.
  - rewrite (di_none _ _ _ _ D _ _ E). unfold order_wf, order_rem in *.
    intros. split_and!; try done; mach.
Qed.

(** A fresh slot is in no queue. *)
Lemma fresh_not_queued b q slot :
  dinv (data b) (Book.side_levels b) q (order_index b) -> view b !! slot = None ->
  forall sd p, slot ∉ q sd p.
Proof.
  intros D Hf sd p Hin. apply (dinv_not_elem D slot sd p); [| done].
  unfold data. by rewrite lookup_fmap, Hf.
Qed.

(** Linking a node that has just been put in the slab behind the tail of its
    level. *)
Lemma link_new b b0 q slot new side price :
  dinv (data b) (Book.side_levels b) q (order_index b) ->
  linked (view b) (Book.side_levels b) q -> view b !! slot = None ->
  view b0 = <[slot := new]> (view b) -> node_prev new = None -> node_next new = None ->
  let l := default level_default (BTree.get price (Book.side_levels b side)) in
  let ss := q side price in
  exists b1 l1,
    match level_tail l with
    | Some tail =>
        let! b := Book.node_update b0 tail (fun n => node_set_next n (Some slot)) in
        let! b := Book.node_update b slot (fun n => node_set_prev n (Some tail)) in
        Ret (b, l)
    | None => Ret (b0, level_set_head l (Some slot))
    end = Ret (b1, l1)
    /\ same_frame b0 b1 /\ chain (view b1) None (ss ++ [slot]) None /\ data b1 = data b0
    /\ (forall t, t ∉ ss -> t <> slot -> view b1 !! t = view b0 !! t)
    /\ level_head l1 = head (ss ++ [slot])
    /\ order_count l1 = order_count l /\ total_remaining l1 = total_remaining l.
Proof.
  intros D L Hfresh V0 Hpn Hnn l ss. pose proof (fresh_not_queued b q slot D Hfresh) as Hnot.
  assert (Hch0 : chain (view b0) None ss None).
  { apply (chain_frame (view b)); [| apply (lk_chain _ _ _ L)].
    intros t Hin. rewrite V0. apply lookup_insert_ne. intros <-. by eapply Hnot. }
  unfold l. destruct (BTree.get price (Book.side_levels b side)) as [l0 |] eqn:El; simpl.
  - rewrite (lk_tail _ _ _ L _ _ _ El). fold ss. destruct (last ss) as [t |] eqn:Elast.
    + destruct (link_tail b0 ss t slot new) as (b1 & E1 & F1 & C1 & D1 & R1); try done.
      { by rewrite V0, lookup_insert_eq. }
      { apply Hnot. }
      { apply (di_nodup _ _ _ _ D). }
      exists b1, l0. apply rbind_inv in E1 as (b2 & E1 & E2). rewrite E1. simpl.
      rewrite E2. simpl. split_and!; try done.
      rewrite (lk_head _ _ _ L _ _ _ El). fold ss. by destruct ss.
    + apply last_None in Elast. by destruct (ld_nonempty _ _ _ (di_level _ _ _ _ D _ _ _ El)).
  - assert (ss = []) as -> by (by apply (di_none _ _ _ _ D)).
    exists b0, (level_set_head level_default (Some slot)). split_and!; try done.
    simpl. split; [| done]. exists new. by rewrite V0, lookup_insert_eq.
Qed.

Lemma insert_spec b q x :
  binv b q -> order_wf x -> order_index b !! no_order_id x = None ->
  (forall p, p ∈ qprio (data b) (q (no_side x) (no_price x)) -> p < no_priority x) ->
  insert_ok b x ->
  exists b' slot, Book.insert b x = Ret (b', Ok tt)
    /\ binv b' (q_set q (no_side x) (no_price x) (q (no_side x) (no_price x) ++ [slot]))
    /\ data b !! slot = None /\ data b' = <[slot := x]> (data b)
    /\ order_index b' = <[no_order_id x := slot]> (order_index b)
    /\ capacity b' = capacity b.
Proof.
  intros [D L Hcap] Hwf Hid Hprio [Hfull Hover].
  destruct (level_overflows_false b q x D Hwf Hover) as (Hc & Ht & Hcu & Htu).
  unfold Book.insert. rewrite Hfull.
  assert (u64_checked (no_total_quantity x - no_cumulative_filled x) = Some (order_rem x)) as ->.
  { unfold order_wf, order_rem in *. apply u64_checked_in. mach. }
  rewrite Hover.
  set (new := mkOrderNode _ _ _ _ _ _ _ _ None None).
  destruct (slab_insert new (orders b)) as [slot s] eqn:Eins.
  pose proof (slab_insert_fresh _ _ _ _ Eins) as Hfresh. fold (view b) in Hfresh.
  pose proof (slab_insert_view _ _ _ _ Eins) as Hview. fold (view b) in Hview.
  assert (Hdata : node_data new = x) by (by destruct x).
  set (side := no_side x) in *. set (price := no_price x) in *. set (ss := q side price) in *.
  set (b0 := Book.set_index _ _).
  assert (V0 : view b0 = <[slot := new]> (view b)) by done.
  assert (L0 : forall sd, Book.side_levels b0 sd = Book.side_levels b sd) by (by intros []).
  rewrite L0. set (l := default level_default _) in *.
  pose proof (fresh_not_queued b q slot D Hfresh) as Hnot.
  assert (Hfr : forall sd p t, t ∈ q sd p -> view b0 !! t = view b !! t)
    by (intros sd p t Hin; rewrite V0; apply lookup_insert_ne; intros <-; by eapply Hnot).
  pose proof (link_new b b0 q slot new side price D L Hfresh V0 eq_refl eq_refl) as Hlink.
  cbv zeta in Hlink. fold l ss in Hlink. destruct Hlink as (b1 & l1 & -> & F1 & C1 & D1 & R1 & H1 & Hc1 & Ht1). simpl.
  rewrite Hc1, Ht1, u32_plain_in, u64_plain_in by done. simpl.
  destruct F1 as (FL & FI & FC).
  set (l' := level_set_total _ _). set (b' := Book.set_levels _ _ _).
  assert (V' : view b' = view b1) by (unfold view, b'; by rewrite orders_set_levels).
  assert (Hd' : data b' = <[slot := x]> (data b)).
  { unfold data. rewrite V'. fold (data b1). rewrite D1. unfold data.
    by rewrite V0, fmap_insert, Hdata. }
  assert (Hlv : lv_set (Book.side_levels b) (Book.side_levels b') side price (Some l')).
  { eapply lv_set_insert; [| apply (di_sorted _ _ _ _ D) | done].
    intros. by rewrite FL, L0. }
  exists b', slot. split; [done |]. split; [| split_and!].
  - constructor.
    + rewrite Hd'. unfold b'. rewrite index_set_levels, FI. simpl.
      eapply dinv_insert; try done; unfold l'; simpl.
      * unfold data. by rewrite lookup_fmap, Hfresh.
      * fold side price ss. lia.
      * fold side price ss. lia.
    + eapply linked_set; [done | done | | by rewrite V' |].
      * intros l2 [= <-]. simpl. split; [done |]. by rewrite last_snoc.
      * intros sd p t Hne Hin. rewrite V', R1.
        -- by eapply Hfr.
        -- intros Hin2. apply Hne.
           destruct (di_queue _ _ _ _ D _ _ _ Hin) as (y & Hy & <- & <-).
           by destruct (dinv_elem D _ _ _ _ Hy Hin2) as [<- <-].
        -- intros ->. by eapply Hnot.
    + rewrite V'. unfold b'. rewrite capacity_set_levels, FC. simpl.
      assert (size (data b1) = size (view b1)) as <- by apply map_size_fmap.
      rewrite D1. unfold data. rewrite map_size_fmap, V0, map_size_insert_None by done.
      unfold Book.is_full in Hfull. apply bool_decide_eq_false in Hfull.
      rewrite slab_len_view in Hfull. unfold view. lia.
  - unfold data. by rewrite lookup_fmap, Hfresh.
  - done.
  - unfold b'. by rewrite index_set_levels, FI.
  - unfold b'. by rewrite capacity_set_levels, FC.
Qed.

(** * remove *)

(** The first half of [unlink]: what precedes the removed node now points at
    what follows it. *)
Lemma relink_prev b l ss n n' :
  chain (view b) None ss n -> NoDup ss ->
  exists b' l',
    match last ss with
    | Some prev =>
        let! b := Book.node_update b prev (fun y => node_set_next y n') in Ret (b, l)
    | None => Ret (b, level_set_head l n')
    end = Ret (b', l')
    /\ same_frame b b' /\ chain (view b') None ss n' /\ data b' = data b
    /\ (forall s, s ∉ ss -> view b' !! s = view b !! s)
    /\ level_head l' = match ss with [] => n' | _ => level_head l end
    /\ level_tail l' = level_tail l
    /\ order_count l' = order_count l /\ total_remaining l' = total_remaining l.
Proof.
  intros Hch Hnd. destruct (last ss) as [t |] eqn:E.
  - apply last_Some in E as [ss' ->]. apply NoDup_app in Hnd as (_ & Hdis & _).
    destruct (chain_elem _ _ _ _ t Hch ltac:(set_solver)) as [o Ho].
    destruct (node_update_ok b t o (fun y => node_set_next y n') Ho) as (b' & -> & V & F).
    exists b', l. simpl. split_and!; try done.
    + rewrite V. eapply chain_set_next; [set_solver | done | done].
    + unfold data. rewrite V. by eapply data_set_links.
    + intros s Hs. rewrite V. apply lookup_insert_ne. set_solver.
    + by destruct ss'.
  - apply last_None in E as ->. exists b, (level_set_head l n'). by split_and!.
Qed.

(** The second half: what follows it now points at what precedes it. *)
Lemma relink_next b l ss p p' :
  chain (view b) p ss None -> NoDup ss ->
  exists b' l',
    match head ss with
    | Some next =>
        let! b := Book.node_update b next (fun y => node_set_prev y p') in Ret (b, l)
    | None => Ret (b, level_set_tail l p')
    end = Ret (b', l')
    /\ same_frame b b' /\ chain (view b') p' ss None /\ data b' = data b
    /\ (forall s, s ∉ ss -> view b' !! s = view b !! s)
    /\ level_tail l' = match ss with [] => p' | _ => level_tail l end
    /\ level_head l' = level_head l
    /\ order_count l' = order_count l /\ total_remaining l' = total_remaining l.
Proof.
  intros Hch Hnd. destruct ss as [| t ss]; simpl.
  - exists b, (level_set_tail l p'). by split_and!.
  - apply NoDup_cons in Hnd as [Hnt _].
    destruct (chain_elem _ _ _ _ t Hch ltac:(set_solver)) as [o Ho].
    destruct (node_update_ok b t o (fun y => node_set_prev y p') Ho) as (b' & -> & V & F).
    assert (chain (view b') p' (t :: ss) None) by (rewrite V; by eapply chain_set_prev).
    exists b', l. split; [done |]. split; [done |]. split; [done |]. split_and!; try done.
    + unfold data. rewrite V. by eapply data_set_links.
    + intros s Hs. rewrite V. apply lookup_insert_ne. set_solver.
Qed.

Lemma same_frame_trans b1 b2 b3 : same_frame b1 b2 -> same_frame b2 b3 -> same_frame b1 b3.
Proof.
  intros (A1 & A2 & A3) (B1 & B2 & B3). split_and!; [intros; by rewrite B1 | congruence..].
Qed.

Lemma last_app_cons {A} (l1 l2 : list A) x : last (l1 ++ x :: l2) = last (x :: l2).
Proof. rewrite last_app. destruct (last (x :: l2)) eqn:E; [done |]. by apply last_None in E. Qed.

(** Both halves: the node [o] leaves the middle of its queue. *)
Lemma relink b m l ss1 slot ss2 o :
  chain m None (ss1 ++ slot :: ss2) None -> NoDup (ss1 ++ slot :: ss2) ->
  m !! slot = Some o -> view b = delete slot m ->
  level_head l = head (ss1 ++ slot :: ss2) -> level_tail l = last (ss1 ++ slot :: ss2) ->
  exists b1 l1 b2 l2,
    match node_prev o with
    | Some prev =>
        let! b := Book.node_update b prev (fun y => node_set_next y (node_next o)) in
        Ret (b, l)
    | None => Ret (b, level_set_head l (node_next o))
    end = Ret (b1, l1)
    /\ match node_next o with
       | Some next =>
           let! b := Book.node_update b1 next (fun y => node_set_prev y (node_prev o)) in
           Ret (b, l1)
       | None => Ret (b1, level_set_tail l1 (node_prev o))
       end = Ret (b2, l2)
    /\ same_frame b b2 /\ chain (view b2) None (ss1 ++ ss2) None /\ data b2 = data b
    /\ (forall s, s ∉ ss1 ++ ss2 -> view b2 !! s = view b !! s)
    /\ level_head l2 = head (ss1 ++ ss2) /\ level_tail l2 = last (ss1 ++ ss2)
    /\ order_count l2 = order_count l /\ total_remaining l2 = total_remaining l.
Proof.
  intros Hch Hnd Ho Hv Hh Ht.
  destruct (chain_middle _ _ _ _ Hch) as (o' & Ho' & Hp & Hn). simplify_eq.
  rewrite Hp, Hn.
  apply chain_app in Hch as [C1 [_ C2]].
  apply NoDup_app in Hnd as (N1 & Hdis & [Hns N2]%NoDup_cons).
  assert (Hfr : forall s, s <> slot -> view b !! s = m !! s).
  { intros. rewrite Hv. by apply lookup_delete_ne. }
  destruct (relink_prev b l ss1 (next_of (slot :: ss2) None) (head ss2))
    as (b1 & l1 & E1 & F1 & K1 & D1 & R1 & A1 & A2 & A3 & A4); [| done |].
  { eapply chain_frame; [| done]. intros; apply Hfr. set_solver. }
  destruct (relink_next b1 l1 ss2 (Some slot) (last ss1))
    as (b2 & l2 & E2 & F2 & K2 & D2 & R2 & B1 & B2 & B3 & B4); [| done |].
  { eapply chain_frame; [| done]. intros s Hs. rewrite R1 by set_solver. apply Hfr. set_solver. }
  exists b1, l1, b2, l2. split_and!; try done; try congruence.
  - by eapply same_frame_trans.
  - apply chain_app. rewrite next_of_None, last_of_None. split; [| done].
    eapply chain_frame; [| done]. intros s Hs. apply R2. set_solver.
  - intros s Hs. rewrite R2, R1; set_solver.
  - rewrite B2, A1. destruct ss1; [done |]. by rewrite Hh.
  - rewrite B1, A2, Ht. destruct ss2.
    + by rewrite app_nil_r.
    + by rewrite !last_app_cons, last_cons_cons.
Qed.

Lemma qrem_split d ss1 slot ss2 x :
  d !! slot = Some x -> qrem d (ss1 ++ slot :: ss2) = qrem d (ss1 ++ ss2) + order_rem x.
Proof.
  intros Hx. rewrite !qrem_app. simpl. unfold slot_rem. rewrite Hx. simpl. lia.
Qed.

(** [unlink] of a node already taken out of the slab and of the index. *)
Lemma unlink_spec b b0 q slot o :
  binv b q -> view b !! slot = Some o ->
  (forall side, Book.side_levels b0 side = Book.side_levels b side) ->
  view b0 = delete slot (view b) ->
  order_index b0 = delete (node_order_id o) (order_index b) -> capacity b0 = capacity b ->
  exists b' ss1 ss2, Book.unlink b0 o = Ret b'
    /\ q (node_side o) (node_price o) = ss1 ++ slot :: ss2
    /\ binv b' (q_set q (node_side o) (node_price o) (ss1 ++ ss2))
    /\ data b' = delete slot (data b)
    /\ order_index b' = delete (node_order_id o) (order_index b)
    /\ capacity b' = capacity b.
Proof.
  intros [D L Hcap] Ho HL HV HI HC.
  set (side := node_side o). set (price := node_price o).
  assert (Hx : data b !! slot = Some (node_data o)) by (apply data_lookup; eauto).
  pose proof (di_slot _ _ _ _ D _ _ Hx) as Hin. change (slot ∈ q side price) in Hin.
  destruct (dinv_level_some D _ _ _ Hin) as [l Hl].
  pose proof (di_nodup _ _ _ _ D side price) as Hnd.
  pose proof (lk_chain _ _ _ L side price) as Hch.
  pose proof (lk_head _ _ _ L _ _ _ Hl) as Hh. pose proof (lk_tail _ _ _ L _ _ _ Hl) as Ht.
  destruct (di_level _ _ _ _ D _ _ _ Hl) as [_ Lc Lt Lcu Ltu].
  pose proof (di_wf _ _ _ _ D _ _ Hx) as Hwf.
  apply list_elem_of_split in Hin as (ss1 & ss2 & Eq). rewrite Eq in *.
  rewrite (qrem_split _ _ _ _ _ Hx) in Lt.
  pose proof (qrem_nonneg (data b) (ss1 ++ ss2) (di_wf _ _ _ _ D)) as Hnn.
  destruct (relink b0 (view b) l ss1 slot ss2 o Hch Hnd Ho HV Hh Ht)
    as (b1 & l1 & b2 & l2 & E1 & E2 & (FL & FI & FC) & C2 & D2 & R2 & H2 & T2 & N2 & S2).
  unfold Book.unlink. fold side price. rewrite HL, Hl, E1. simpl. rewrite E2. simpl.
  rewrite (remaining_ok _ Hwf). simpl.
  assert (0 <= order_rem (node_data o)) by (unfold order_wf, order_rem in *; lia).
  rewrite S2, u64_checked_in by mach. simpl.
  assert (Hc2 : u32_saturating_sub (order_count l2) 1 = Z.of_nat (length (ss1 ++ ss2))).
  { rewrite N2, Lc, !length_app. unfold u32_saturating_sub. simpl. lia. }
  rewrite Hc2, FL, HL.
  set (o' := if Z.of_nat (length (ss1 ++ ss2)) =? 0 then None
             else Some (level_set_total (level_set_count l2 (Z.of_nat (length (ss1 ++ ss2))))
                          (total_remaining l - order_rem (node_data o)))).
  set (b' := Book.set_levels b2 side _).
  assert (Hlv : lv_set (Book.side_levels b) (Book.side_levels b') side price o').
  { assert (forall s, Book.side_levels b s = Book.side_levels b2 s) by (intros; by rewrite FL, HL).
    unfold b', o'. destruct (Z.of_nat _ =? 0).
    - eapply lv_set_remove; [done | apply (di_sorted _ _ _ _ D) |]. by rewrite FL, HL.
    - eapply lv_set_insert; [done | apply (di_sorted _ _ _ _ D) |]. by rewrite FL, HL. }
  assert (V' : view b' = view b2) by (unfold view, b'; by rewrite orders_set_levels).
  assert (Hd' : data b' = delete slot (data b)).
  { unfold data. rewrite V'. fold (data b2). rewrite D2. unfold data. by rewrite HV, fmap_delete. }
  assert (Hi' : order_index b' = delete (node_order_id o) (order_index b)).
  { unfold b'. by rewrite index_set_levels, FI. }
  assert (Hc' : capacity b' = capacity b) by (unfold b'; by rewrite capacity_set_levels, FC).
  exists b', ss1, ss2. split_and!; try done. constructor.
  - rewrite Hd', Hi'. eapply (dinv_remove D _ (node_data o)); try done.
    unfold o'. destruct (Z.eqb_spec (Z.of_nat (length (ss1 ++ ss2))) 0) as [E0 | E0].
    + destruct (ss1 ++ ss2); simpl in *; [done | lia].
    + constructor; simpl; try done; [by intros E; rewrite E in E0 | lia | | mach].
      rewrite Lc, !length_app in Lcu. simpl in Lcu. rewrite length_app. mach.
  - eapply linked_set; [done | done | | by rewrite V' |].
    + unfold o'. destruct (Z.of_nat _ =? 0); [done |]. by intros ? [= <-].
    + intros s p t Hne Hin. rewrite V'.
      destruct (di_queue _ _ _ _ D _ _ _ Hin) as (y & Hy & Hs & Hp).
      assert (t <> slot) by (intros ->; simplify_eq; naive_solver).
      rewrite R2, HV, lookup_delete_ne; [done.. |]. intros Hin2. apply Hne.
      assert (t ∈ q side price) as Hin3 by (rewrite Eq; set_solver).
      destruct (dinv_elem D _ _ _ _ Hy Hin3) as [-> ->]. naive_solver.
  - rewrite V', Hc'. rewrite <- (map_size_fmap node_data). fold (data b2).
    rewrite <- (map_size_fmap node_data (view b)) in Hcap. fold (data b) in Hcap.
    rewrite D2. unfold data at 1. rewrite HV, fmap_delete. fold (data b).
    rewrite map_size_delete_Some by eauto. lia.
Qed.

(** The slot an index entry names holds an order with that id. *)
Lemma index_node b q id slot :
  binv b q -> order_index b !! id = Some slot ->
  exists o, view b !! slot = Some o /\ node_order_id o = id.
Proof.
  intros [D _ _] Hi. apply (di_index _ _ _ _ D) in Hi as (x & Hx & <-).
  apply data_lookup in Hx as (o & Ho & ->). eauto.
Qed.

Lemma get_spec b q id :
  binv b q ->
  Book.get b id
  = Ret (match order_index b !! id with Some slot => view b !! slot | None => None end).
Proof.
  intros B. unfold Book.get. destruct (order_index b !! id) as [slot |] eqn:E; [| done].
  destruct (index_node _ _ _ _ B E) as (o & Ho & _). by rewrite (node_ok _ _ _ Ho), Ho.
Qed.

Lemma remove_spec b q id slot :
  binv b q -> order_index b !! id = Some slot ->
  exists o b' ss1 ss2, view b !! slot = Some o /\ node_order_id o = id
    /\ Book.remove b id = Ret (b', Some o)
    /\ q (node_side o) (node_price o) = ss1 ++ slot :: ss2
    /\ binv b' (q_set q (node_side o) (node_price o) (ss1 ++ ss2))
    /\ data b' = delete slot (data b)
    /\ order_index b' = delete id (order_index b) /\ capacity b' = capacity b.
Proof.
  intros B Hi. destruct (index_node _ _ _ _ B Hi) as (o & Ho & Hid).
  unfold Book.remove. rewrite Hi. simpl.
  destruct (slab_remove_view (orders b) slot o Ho) as (s & -> & Hs). simpl.
  edestruct (unlink_spec b (Book.set_orders (Book.set_index b (delete id (order_index b))) s)
               q slot o B Ho) as (b' & ss1 & ss2 & -> & Hq & B' & Hd & Hx & Hc);
    [by intros [] | done | by rewrite Hid | done |].
  exists o, b', ss1, ss2. rewrite Hid in Hx. by split_and!.
Qed.

Lemma remove_none b id : order_index b !! id = None -> Book.remove b id = Ret (b, None).
Proof. unfold Book.remove. by intros ->. Qed.

(** * Updates in place *)

(** [o'] is [o] with other quantities. *)
Definition requantified (o o' : OrderNode) : Prop :=
  node_order_id o' = node_order_id o /\ node_side o' = node_side o
  /\ node_price o' = node_price o /\ node_priority o' = node_priority o
  /\ node_prev o' = node_prev o /\ node_next o' = node_next o
  /\ order_wf (node_data o').

(** A node is rewritten and its level's aggregate with it. *)
Lemma update_spec b q slot o o' l :
  binv b q -> view b !! slot = Some o -> requantified o o' ->
  BTree.get (node_price o) (Book.side_levels b (node_side o)) = Some l ->
  let total := total_remaining l - order_rem (node_data o) + order_rem (node_data o') in
  in_u64 total ->
  let b1 := Book.set_orders b (slab_set (orders b) slot o') in
  let b' := Book.set_levels b1 (node_side o)
              (BTree.insert (node_price o) (level_set_total l total)
                 (Book.side_levels b1 (node_side o))) in
  binv b' q /\ view b' = <[slot := o']> (view b)
  /\ data b' = <[slot := node_data o']> (data b)
  /\ order_index b' = order_index b /\ capacity b' = capacity b.
Proof.
  intros [D L Hcap] Ho (Hid & Hsd & Hpr & Hprio & Hpv & Hnx & Hwf) Hl total Htot b1 b'.
  set (side := node_side o) in *. set (price := node_price o) in *.
  assert (Hx : data b !! slot = Some (node_data o)) by (apply data_lookup; eauto).
  assert (V' : view b' = <[slot := o']> (view b)).
  { unfold view, b'. rewrite orders_set_levels. unfold b1. simpl.
    apply slab_set_view. fold (view b). eauto. }
  assert (Hd' : data b' = <[slot := node_data o']> (data b)).
  { unfold data. by rewrite V', fmap_insert. }
  assert (Hlv : lv_set (Book.side_levels b) (Book.side_levels b') side price
                  (Some (level_set_total l total))).
  { eapply lv_set_insert; [| apply (di_sorted _ _ _ _ D) | done]. by intros []. }
  destruct (di_level _ _ _ _ D _ _ _ Hl) as [_ Lc Lt Lcu Ltu].
  assert (Hi : order_index b' = order_index b) by (unfold b'; by rewrite index_set_levels).
  assert (Hc : capacity b' = capacity b) by (unfold b'; by rewrite capacity_set_levels).
  split_and!; try done. constructor.
  - rewrite Hd', Hi. eapply (dinv_update D _ _ _ _ _ Hx); try done.
    simpl. fold side price. unfold total. lia.
  - rewrite V'. by eapply linked_update.
  - rewrite V', Hc, map_size_insert_Some by eauto. done.
Qed.

(** The level of a resting order counts at least that order. *)
Lemma node_level b q slot o :
  binv b q -> view b !! slot = Some o ->
  order_wf (node_data o) /\
  exists l, BTree.get (node_price o) (Book.side_levels b (node_side o)) = Some l
    /\ order_rem (node_data o) <= total_remaining l <= u64_max.
Proof.
  intros [D _ _] Ho.
  assert (Hx : data b !! slot = Some (node_data o)) by (apply data_lookup; eauto).
  pose proof (di_slot _ _ _ _ D _ _ Hx) as Hin. split; [by eapply (di_wf _ _ _ _ D) |].
  destruct (dinv_level_some D _ _ _ Hin) as [l Hl]. exists l. split; [done |].
  destruct (di_level _ _ _ _ D _ _ _ Hl) as [_ _ Lt _ Ltu].
  apply list_elem_of_split in Hin as (ss1 & ss2 & Eq).
  simpl in Eq, Lt. rewrite Lt in *. rewrite Eq, (qrem_split _ _ _ _ _ Hx) in *.
  pose proof (qrem_nonneg (data b) (ss1 ++ ss2) (di_wf _ _ _ _ D)). mach.
Qed.

(** [reduce_total] of a live order to a total between its fills and its total. *)
Lemma reduce_total_spec b q id slot o new_total :
  binv b q -> order_index b !! id = Some slot -> view b !! slot = Some o ->
  node_cumulative_filled o <= new_total <= node_total_quantity o ->
  exists b', Book.reduce_total b id new_total = Ret b' /\ binv b' q
    /\ view b' = <[slot := node_set_total o new_total]> (view b)
    /\ order_index b' = order_index b /\ capacity b' = capacity b.
Proof.
  intros B Hi Ho Hnew.
  destruct (node_level _ _ _ _ B Ho) as (Hwf & l & Hl & Hle).
  assert (Hwf' : order_wf (node_data (node_set_total o new_total))).
  { unfold order_wf in *. simpl in *. lia. }
  unfold Book.reduce_total. rewrite Hi, (node_ok _ _ _ Ho). simpl.
  rewrite (remaining_ok _ Hwf). simpl. rewrite (remaining_ok _ Hwf'). simpl.
  rewrite levels_set_orders, Hl. simpl.
  set (r := order_rem (node_data o)) in *.
  set (r' := order_rem (node_data (node_set_total o new_total))) in *.
  assert (0 <= r' <= r) by (unfold r, r', order_wf, order_rem in *; simpl in *; lia).
  rewrite u64_checked_in by mach. rewrite u64_checked_in by mach. simpl.
  edestruct (update_spec b q slot o (node_set_total o new_total) l B Ho)
    as (B' & V' & D' & I' & C'); [by split_and! | done | fold r r'; mach |].
  rewrite levels_set_orders in *. eexists. by split_and!.
Qed.

Lemma reduce_total_none b id new_total :
  order_index b !! id = None -> Book.reduce_total b id new_total = Ret b.
Proof. unfold Book.reduce_total. by intros ->. Qed.

(** [fill_maker]: a fill of at most what is left. *)
Lemma fill_maker_spec b q slot o quantity :
  binv b q -> view b !! slot = Some o -> 0 <= quantity <= order_rem (node_data o) ->
  let o' := node_set_cumulative o (node_cumulative_filled o + quantity) in
  exists b' q', Book.fill_maker b slot quantity = Ret (b', o') /\ binv b' q'
    /\ capacity b' = capacity b
    /\ if quantity =? order_rem (node_data o) then
         exists ss1 ss2, q (node_side o) (node_price o) = ss1 ++ slot :: ss2
           /\ q' = q_set q (node_side o) (node_price o) (ss1 ++ ss2)
           /\ data b' = delete slot (data b)
           /\ order_index b' = delete (node_order_id o) (order_index b)
       else q' = q /\ data b' = <[slot := node_data o']> (data b)
            /\ order_index b' = order_index b.
Proof.
  intros B Ho Hq o'.
  destruct (node_level _ _ _ _ B Ho) as (Hwf & l & Hl & Hle).
  assert (Hr' : order_rem (node_data o') = order_rem (node_data o) - quantity).
  { unfold order_rem. simpl. lia. }
  assert (Hwf' : order_wf (node_data o')) by (unfold order_wf, order_rem in *; simpl in *; lia).
  unfold Book.fill_maker. rewrite (node_ok _ _ _ Ho). simpl.
  rewrite u64_checked_in by (unfold order_wf, order_rem in *; simpl in *; mach). simpl.
  fold o'. rewrite (remaining_ok _ Hwf'). simpl.
  rewrite levels_set_orders, Hl. rewrite u64_checked_in by mach. simpl.
  edestruct (update_spec b q slot o o' l B Ho) as (B' & V' & D' & I' & C');
    [by split_and! | done | mach |].
  rewrite Hr', levels_set_orders in *.
  replace (total_remaining l - order_rem (node_data o) + (order_rem (node_data o) - quantity))
    with (total_remaining l - quantity) in * by lia.
  set (b1 := Book.set_levels _ _ _) in *. unfold QuantityLots.is_zero.
  destruct (Z.eqb_spec quantity (order_rem (node_data o))) as [E | E].
  - replace (order_rem (node_data o) - quantity =? 0) with true by lia.
    assert (Ho1 : view b1 !! slot = Some o') by (rewrite V'; apply lookup_insert_eq).
    destruct (slab_remove_view (orders b1) slot o' Ho1) as (s & Es & Hs). simpl.
    rewrite Es. simpl.
    edestruct (unlink_spec b1 (Book.set_orders (Book.set_index b1
                 (delete (node_order_id o) (order_index b1))) s) q slot o' B' Ho1)
      as (b' & ss1 & ss2 & -> & Hq' & Bn & Hd & Hx & Hc); [by intros [] | done.. |].
    exists b', (q_set q (node_side o) (node_price o) (ss1 ++ ss2)).
    split_and!; [done.. | congruence |]. exists ss1, ss2. split_and!; try done.
    + rewrite Hd, D'. by rewrite delete_insert_eq.
    + by rewrite Hx, I'.
  - replace (order_rem (node_data o) - quantity =? 0) with false by lia.
    exists b1, q. by split_and!.
Qed.

End BookInv.
