(* ===== verification/BookCheck.v ===== *)
(** Reading the book: the cursor loops of [level_orders] and
    [level_orders_upto] terminate and return the queue of a price in priority
    order, and the structural checker [check_invariants] accepts every book
    that satisfies the invariant of [BookInv]. *)

From Stdlib Require Import Sorted.
From stdpp Require Import sorting.
From S2P Require Import Prelude Enums Ids BTree Slab Book BookData BookInv.

Section BookCheck.
Context {S : Type} `{SL : Slab OrderNode S} `{!SlabLaws SL}.
Implicit Types (b : OrderBook S) (q : queues) (m : gmap nat OrderNode) (ss : list nat).

(** The nodes of a queue, in order. *)
Definition nodes (b : OrderBook S) (ss : list nat) : list OrderNode :=
  omap (fun s => view b !! s) ss.

#[local] Arguments nodes : simpl never.

Lemma nodes_cons_match b s ss :
  nodes b (s :: ss) = match view b !! s with
                      | Some o => o :: nodes b ss
                      | None => nodes b ss
                      end.
Proof. unfold nodes. simpl. by destruct (view b !! s). Qed.

Lemma nodes_cons b s ss o : view b !! s = Some o -> nodes b (s :: ss) = o :: nodes b ss.
Proof. rewrite nodes_cons_match. by intros ->. Qed.

Lemma length_nodes b p ss n : chain (view b) p ss n -> length (nodes b ss) = length ss.
Proof.
  revert p. induction ss as [| s ss IH]; intros p; [done |].
  intros [(o & Ho & _) Hc]. rewrite (nodes_cons _ _ _ _ Ho). simpl. f_equal. eauto.
Qed.

Lemma nodes_frame b b' ss :
  (forall s, s ∈ ss -> view b' !! s = view b !! s) -> nodes b' ss = nodes b ss.
Proof.
  induction ss as [| s ss IH]; intros H; [done |].
  rewrite !nodes_cons_match, H, IH; set_solver.
Qed.

Lemma NoDup_length_le {A} (m : gmap nat A) ss :
  NoDup ss -> (forall s, s ∈ ss -> is_Some (m !! s)) -> (length ss <= size m)%nat.
Proof.
  intros Hnd Hin. rewrite <- (size_list_to_set (C := gset nat)) by done.
  rewrite <- size_dom. apply subseteq_size. intros s Hs.
  apply elem_of_list_to_set in Hs. apply elem_of_dom. auto.
Qed.

Lemma walk_spec b limit ss p out fuel :
  chain (view b) p ss None -> (length ss < fuel)%nat ->
  Book.walk fuel b limit (head ss) out
  = Ret (out ++ match limit with
                | Some k => take (k - length out) (nodes b ss)
                | None => nodes b ss
                end).
Proof.
  revert p out fuel. induction ss as [| s ss IH]; intros p out [| fuel] Hc Hf; simpl in *; try lia.
  - change (nodes b []) with (@nil OrderNode). destruct limit; by rewrite ?take_nil, app_nil_r.
  - destruct Hc as [(o & Ho & _ & Hn) Hc].
    rewrite (node_ok _ _ _ Ho), (nodes_cons _ _ _ _ Ho). simpl.
    rewrite Hn, next_of_None, (IH _ _ _ Hc) by lia. rewrite length_app. simpl.
    destruct limit as [k |]; [| by rewrite <- app_assoc].
    case_bool_decide.
    + replace (k - length out)%nat with 0%nat by lia. by rewrite app_nil_r.
    + replace (k - length out)%nat with (Datatypes.S (k - (length out + 1)))%nat by lia.
      simpl. by rewrite <- app_assoc.
Qed.

(** The head slot of a price and the fuel of the loops. *)
Lemma head_slot_spec b q side price :
  binv b q -> Book.head_slot b side price = head (q side price).
Proof.
  intros [D L _]. unfold Book.head_slot.
  destruct (BTree.get price (Book.side_levels b side)) eqn:E.
  - by apply (lk_head _ _ _ L).
  - by rewrite (di_none _ _ _ _ D _ _ E).
Qed.

Lemma queue_length_fuel b q side price :
  binv b q -> (length (q side price) < Book.walk_fuel b)%nat.
Proof.
  intros [D L _]. unfold Book.walk_fuel. rewrite slab_len_view.
  apply le_n_S, NoDup_length_le; [apply (di_nodup _ _ _ _ D) |].
  intros s Hs. eapply chain_elem; [apply (lk_chain _ _ _ L) | done].
Qed.

Lemma level_orders_spec b q side price :
  binv b q -> Book.level_orders b side price = Ret (nodes b (q side price)).
Proof.
  intros B. unfold Book.level_orders. rewrite (head_slot_spec _ _ _ _ B).
  erewrite walk_spec; [done | apply (lk_chain _ _ _ (bi_linked _ _ B)) |].
  by apply queue_length_fuel.
Qed.

Lemma level_orders_upto_spec b q side price limit :
  binv b q -> Book.level_orders_upto b side price limit = Ret (take limit (nodes b (q side price))).
Proof.
  intros B. unfold Book.level_orders_upto. rewrite (head_slot_spec _ _ _ _ B).
  erewrite walk_spec; [| apply (lk_chain _ _ _ (bi_linked _ _ B)) | by apply queue_length_fuel].
  simpl. by rewrite Nat.sub_0_r.
Qed.

(** * check_invariants *)

(** What the nodes of a queue carry. *)
Lemma nodes_elem b ss o : o ∈ nodes b ss <-> exists s, s ∈ ss /\ view b !! s = Some o.
Proof. apply list_elem_of_omap. Qed.

Lemma sum_remaining_spec b q ss acc :
  binv b q -> (forall s, s ∈ ss -> is_Some (view b !! s)) -> 0 <= acc ->
  acc + qrem (data b) ss <= u64_max ->
  Book.sum_remaining (nodes b ss) acc = Ret (acc + qrem (data b) ss).
Proof.
  intros B. revert acc. induction ss as [| s ss IH]; intros acc Hin Ha Hb; simpl in *.
  - by rewrite Z.add_0_r.
  - destruct (Hin s ltac:(set_solver)) as [o Ho].
    assert (Hx : data b !! s = Some (node_data o)) by (apply data_lookup; eauto).
    rewrite (nodes_cons _ _ _ _ Ho). simpl.
    destruct (node_level _ _ _ _ B Ho) as (Hwf & _).
    pose proof (qrem_nonneg (data b) ss (di_wf _ _ _ _ (bi_data _ _ B))).
    unfold slot_rem in *. rewrite Hx in *. simpl in *.
    rewrite (remaining_ok _ Hwf). simpl.
    assert (0 <= order_rem (node_data o)) by (unfold order_wf, order_rem in *; lia).
    rewrite u64_plain_in by mach. simpl. rewrite IH; [f_equal; lia | set_solver | lia | lia].
Qed.

Lemma check_orders_spec b q side price ss prev :
  binv b q -> no_zero b -> (forall s, s ∈ ss -> s ∈ q side price) ->
  StronglySorted Z.lt (qprio (data b) ss) ->
  (forall p x, prev = Some p -> x ∈ qprio (data b) ss -> p < x) ->
  Book.check_orders b side price (nodes b ss) prev = Ret (Ok tt).
Proof.
  intros B Hz. revert prev. induction ss as [| s ss IH]; intros prev Hin Hs Hp; [done |].
  destruct (di_queue _ _ _ _ (bi_data _ _ B) side price s) as (x & Hx & Hside & Hprice);
    [set_solver |].
  apply data_lookup in Hx as Hx'. destruct Hx' as (o & Ho & ->). simpl in Hside, Hprice.
  rewrite qprio_cons, Hx in Hs, Hp. simpl in Hs, Hp.
  rewrite (nodes_cons _ _ _ _ Ho). simpl.
  rewrite bool_decide_eq_true_2, Hprice, Z.eqb_refl by done. simpl.
  destruct (node_level _ _ _ _ B Ho) as (Hwf & _).
  rewrite (remaining_ok _ Hwf). simpl. specialize (Hz _ _ Hx).
  unfold QuantityLots.is_zero. replace (_ =? 0) with false by lia.
  replace (match prev with Some p => node_priority o <=? p | None => false end) with false.
  2: { destruct prev as [p |]; [| done]. symmetry. apply Z.leb_gt. apply Hp; set_solver. }
  assert (order_index b !! node_order_id o = Some s) as ->.
  { apply (di_index _ _ _ _ (bi_data _ _ B)). eauto. }
  rewrite (node_ok _ _ _ Ho). simpl. rewrite Z.eqb_refl.
  apply StronglySorted_inv in Hs as [Hs Hall]. apply IH; [set_solver | done |].
  intros p y [= <-] Hy. by eapply Forall_forall in Hall.
Qed.

(** The slots of some levels, in walking order. *)
Definition level_slots (q : queues) (side : Side.t) (ls : list (PriceTicks * PriceLevel))
  : list nat := concat (map (fun pl => q side pl.1) ls).

Lemma check_levels_spec b q side ls seen :
  binv b q -> no_zero b ->
  (forall p l, (p, l) ∈ ls -> BTree.get p (Book.side_levels b side) = Some l) ->
  Book.check_levels b side ls seen = Ret (Ok (seen + length (level_slots q side ls))%nat).
Proof.
  intros B Hz. revert seen. induction ls as [| [p l] ls IH]; intros seen Hget; simpl.
  - by rewrite Nat.add_0_r.
  - assert (Hl : BTree.get p (Book.side_levels b side) = Some l) by (apply Hget; set_solver).
    destruct (di_level _ _ _ _ (bi_data _ _ B) _ _ _ Hl) as [Hne Lc Lt Lcu Ltu].
    pose proof (lk_chain _ _ _ (bi_linked _ _ B) side p) as Hch.
    assert (length (q side p) <> 0%nat) by (by destruct (q side p)).
    replace (order_count l =? 0) with false by lia.
    rewrite (level_orders_spec _ _ _ _ B). simpl.
    rewrite (length_nodes _ _ _ _ Hch), Lc, Z.eqb_refl. simpl.
    erewrite sum_remaining_spec; [| done | intros; by eapply chain_elem | lia | mach].
    simpl. rewrite Lt, Z.eqb_refl. simpl.
    erewrite check_orders_spec; [| done | done | done | apply (di_prio _ _ _ _ (bi_data _ _ B)) | done].
    simpl. rewrite IH by set_solver. unfold level_slots. simpl.
    rewrite length_app. do 2 f_equal. lia.
Qed.

(** Every live slot, once, in walking order. *)
Definition all_slots (b : OrderBook S) (q : queues) : list nat :=
  level_slots q Side.Buy (Book.levels b Side.Buy)
  ++ level_slots q Side.Sell (Book.levels b Side.Sell).

Lemma levels_elem b side p l : (p, l) ∈ Book.levels b side <-> (p, l) ∈ Book.side_levels b side.
Proof. destruct side; simpl; [| done]. by rewrite !list_elem_of_In, <- in_rev. Qed.

Lemma levels_get b q side p l :
  binv b q -> (p, l) ∈ Book.levels b side ->
  BTree.get p (Book.side_levels b side) = Some l.
Proof.
  intros B Hin. apply BTree.elem_get; [apply (di_sorted _ _ _ _ (bi_data _ _ B)) |].
  by apply levels_elem.
Qed.

Lemma levels_NoDup_keys b q side : binv b q -> NoDup (map fst (Book.levels b side)).
Proof.
  intros B. pose proof (di_sorted _ _ _ _ (bi_data _ _ B) side) as Hs.
  apply BTree.sorted_NoDup_keys in Hs. destruct side; simpl in *; [| done].
  by rewrite map_rev, <- Permutation_rev.
Qed.

Lemma level_slots_elem q side ls s :
  s ∈ level_slots q side ls <-> exists p l, (p, l) ∈ ls /\ s ∈ q side p.
Proof.
  unfold level_slots. induction ls as [| [p l] ls IH]; simpl; [set_solver |].
  rewrite elem_of_app, IH. split.
  - intros [? | (? & ? & ? & ?)]; [exists p, l | ]; set_solver.
  - intros (p' & l' & [[= -> ->] | ?]%elem_of_cons & ?); [by left | right; eauto].
Qed.

Lemma level_slots_NoDup b q side ls :
  binv b q -> NoDup (map fst ls) -> NoDup (level_slots q side ls).
Proof.
  intros B. induction ls as [| [p l] ls IH]; intros Hnd; [constructor |].
  apply NoDup_cons in Hnd as [Hp Hnd]. unfold level_slots. simpl. apply NoDup_app.
  split_and!; [apply (di_nodup _ _ _ _ (bi_data _ _ B)) | | by apply IH].
  intros s Hs (p' & l' & Hin & Hs')%level_slots_elem. apply Hp.
  destruct (di_queue _ _ _ _ (bi_data _ _ B) _ _ _ Hs) as (x & Hx & _ & <-).
  destruct (dinv_elem (bi_data _ _ B) _ _ _ _ Hx Hs') as [_ <-].
  apply list_elem_of_In, in_map_iff. exists (p', l'). split; [done |]. by apply list_elem_of_In.
Qed.

Lemma all_slots_NoDup b q : binv b q -> NoDup (all_slots b q).
Proof.
  intros B. apply NoDup_app. split_and!.
  - eapply level_slots_NoDup; [done | by eapply levels_NoDup_keys].
  - intros s (p & l & _ & Hs)%level_slots_elem (p' & l' & _ & Hs')%level_slots_elem.
    destruct (di_queue _ _ _ _ (bi_data _ _ B) _ _ _ Hs) as (x & Hx & Hb & _).
    destruct (dinv_elem (bi_data _ _ B) _ _ _ _ Hx Hs') as [Hc _]. congruence.
  - eapply level_slots_NoDup; [done | by eapply levels_NoDup_keys].
Qed.

Lemma all_slots_elem b q s : binv b q -> s ∈ all_slots b q <-> is_Some (data b !! s).
Proof.
  intros B. unfold all_slots. rewrite elem_of_app, !level_slots_elem. split.
  - intros [(p & l & _ & Hs) | (p & l & _ & Hs)];
      destruct (di_queue _ _ _ _ (bi_data _ _ B) _ _ _ Hs) as (x & Hx & _); eauto.
  - intros [x Hx]. pose proof (di_slot _ _ _ _ (bi_data _ _ B) _ _ Hx) as Hin.
    destruct (dinv_level_some (bi_data _ _ B) _ _ _ Hin) as [l Hl].
    apply BTree.get_elem, levels_elem in Hl. destruct (no_side x); eauto.
Qed.

(** The slab, the index and the walk count the same orders. *)
Lemma all_slots_length b q : binv b q -> length (all_slots b q) = slab_len (orders b).
Proof.
  intros B. rewrite slab_len_view. fold (view b).
  rewrite <- (map_size_fmap node_data), <- size_dom. fold (data b).
  rewrite <- (size_list_to_set (C := gset nat)) by (by apply all_slots_NoDup).
  f_equal. apply set_eq. intros s. rewrite elem_of_list_to_set, elem_of_dom.
  by apply all_slots_elem.
Qed.

Definition slot_id (b : OrderBook S) (s : nat) : OrderId :=
  from_option no_order_id 0 (data b !! s).

Lemma index_size b q : binv b q -> size (order_index b) = slab_len (orders b).
Proof.
  intros B. rewrite <- (all_slots_length _ _ B), <- size_dom.
  rewrite <- (length_map (slot_id b)).
  rewrite <- (size_list_to_set (C := gset Z)).
  - f_equal. apply set_eq. intros id. rewrite elem_of_list_to_set, elem_of_dom.
    rewrite list_elem_of_In, in_map_iff. split.
    + intros [s Hs]. apply (di_index _ _ _ _ (bi_data _ _ B)) in Hs as (x & Hx & <-).
      exists s. unfold slot_id. rewrite Hx. split; [done |].
      apply list_elem_of_In, all_slots_elem; eauto.
    + intros (s & <- & Hs). apply list_elem_of_In, all_slots_elem in Hs as [x Hx]; [| done].
      unfold slot_id. rewrite Hx. exists s. apply (di_index _ _ _ _ (bi_data _ _ B)). eauto.
  - apply NoDup_fmap_2_strong; [| by apply all_slots_NoDup].
    intros s1 s2 H1 H2. apply (all_slots_elem _ _ _ B) in H1 as [x1 E1].
    apply (all_slots_elem _ _ _ B) in H2 as [x2 E2].
    unfold slot_id. rewrite E1, E2. by eapply (dinv_id_inj (bi_data _ _ B)).
Qed.

(** A book that satisfies the invariant and holds no empty order passes every
    check but, possibly, the last: a crossed book is reported as such. *)
Definition crossing_verdict (b : OrderBook S) : Result unit InvariantError :=
  match Book.best_bid b, Book.best_ask b with
  | Some (bid, _), Some (ask, _) => if ask <=? bid then Err (CrossedBook bid ask) else Ok tt
  | _, _ => Ok tt
  end.

Lemma check_invariants_spec b q :
  binv b q -> no_zero b -> Book.check_invariants b = Ret (crossing_verdict b).
Proof.
  intros B Hz. unfold Book.check_invariants.
  rewrite (check_levels_spec _ q) by (try done; intros; by eapply levels_get). cbn [qbind].
  rewrite (check_levels_spec _ q) by (try done; intros; by eapply (levels_get _ _ Side.Sell)).
  cbn [qbind]. rewrite Nat.add_0_l, <- length_app. fold (all_slots b q).
  rewrite (all_slots_length _ _ B), (index_size _ _ B), Nat.eqb_refl. simpl.
  unfold crossing_verdict. by repeat case_match.
Qed.

End BookCheck.
