(* ===== verification/BookSpec.v ===== *)
(** The book as its clients see it: for each side and price the orders in
    priority order ([abook]), and the live orders by id ([live]).

    [repr b A] says that the book [b] is well formed and holds [A].  Every
    operation of [Book] is specified by what it does to [A] and to the live
    orders; the slots, links and aggregates of [BookInv] do not appear. *)

From Stdlib Require Import Sorted.
From stdpp Require Import sorting.
From S2P Require Import Prelude Enums Ids BTree Slab Book BookData BookInv BookCheck.

Abbreviation abook := (Side.t -> Z -> list NewOrder) (only parsing).

Definition aset (A : abook) (side : Side.t) (price : Z) (xs : list NewOrder) : abook :=
  fun s p => if decide (s = side /\ p = price) then xs else A s p.

Lemma aset_eq A side price xs : aset A side price xs side price = xs.
Proof. unfold aset. case_decide; naive_solver. Qed.

Lemma aset_ne A side price xs s p :
  ~ (s = side /\ p = price) -> aset A side price xs s p = A s p.
Proof. unfold aset. by case_decide. Qed.

(** The orders of a list of slots. *)
Definition contents (d : gmap nat NewOrder) (ss : list nat) : list NewOrder :=
  omap (fun s => d !! s) ss.

Lemma contents_cons d s ss :
  contents d (s :: ss) = match d !! s with
                         | Some x => x :: contents d ss
                         | None => contents d ss
                         end.
Proof. unfold contents. simpl. by destruct (d !! s). Qed.

Lemma contents_app d ss1 ss2 : contents d (ss1 ++ ss2) = contents d ss1 ++ contents d ss2.
Proof. apply omap_app. Qed.

Lemma contents_frame d d' ss :
  (forall s, s ∈ ss -> d' !! s = d !! s) -> contents d' ss = contents d ss.
Proof.
  induction ss as [| s ss IH]; intros H; [done |].
  rewrite !contents_cons, H, IH; set_solver.
Qed.

Lemma contents_elem d ss x : x ∈ contents d ss <-> exists s, s ∈ ss /\ d !! s = Some x.
Proof. apply list_elem_of_omap. Qed.

Lemma qprio_contents d ss : qprio d ss = map no_priority (contents d ss).
Proof.
  induction ss as [| s ss IH]; [done |].
  rewrite qprio_cons, contents_cons, IH. by destruct (d !! s).
Qed.

Fixpoint total_rem (xs : list NewOrder) : Z :=
  match xs with
  | [] => 0
  | x :: xs => order_rem x + total_rem xs
  end.

Lemma qrem_contents d ss : qrem d ss = total_rem (contents d ss).
Proof.
  induction ss as [| s ss IH]; [done |].
  rewrite contents_cons. simpl. unfold slot_rem. rewrite IH. by destruct (d !! s).
Qed.

(** An order with another total or another cumulative fill. *)
Definition with_total (x : NewOrder) (total : Z) : NewOrder :=
  mkNewOrder (no_order_id x) (no_account x) (no_client_order_id x) (no_side x)
    (no_price x) total (no_cumulative_filled x) (no_priority x).

Definition filled_by (x : NewOrder) (quantity : Z) : NewOrder :=
  mkNewOrder (no_order_id x) (no_account x) (no_client_order_id x) (no_side x)
    (no_price x) (no_total_quantity x) (no_cumulative_filled x + quantity) (no_priority x).

Lemma order_rem_filled_by x quantity : order_rem (filled_by x quantity) = order_rem x - quantity.
Proof. unfold order_rem. simpl. lia. Qed.

Section BookSpec.
Context {S : Type} `{SL : Slab OrderNode S} `{!SlabLaws SL}.
Implicit Types (b : OrderBook S) (q : queues) (A : abook).

Definition live (b : OrderBook S) : gmap OrderId NewOrder :=
  omap (fun s => data b !! s) (order_index b).

Definition holds (b : OrderBook S) (q : queues) (A : abook) : Prop :=
  forall side price, A side price = contents (data b) (q side price).

Definition repr (b : OrderBook S) (A : abook) : Prop :=
  exists q, binv b q /\ holds b q A.

Lemma live_lookup b q id x :
  binv b q ->
  live b !! id = Some x <->
  no_order_id x = id /\ exists s, order_index b !! id = Some s /\ data b !! s = Some x.
Proof.
  intros B. unfold live. rewrite lookup_omap_Some. split.
  - intros (s & Hx & Hs). split; [| by eauto].
    apply (di_index _ _ _ _ (bi_data _ _ B)) in Hs as (y & Hy & <-). by simplify_eq.
  - intros (_ & s & Hs & Hx). eauto.
Qed.

Lemma holds_elem b q A side price x :
  binv b q -> holds b q A ->
  x ∈ A side price <->
  no_side x = side /\ no_price x = price /\ live b !! no_order_id x = Some x.
Proof.
  intros B H. rewrite H, contents_elem. split.
  - intros (s & Hs & Hx). destruct (dinv_elem (bi_data _ _ B) _ _ _ _ Hx Hs) as [-> ->].
    split_and!; try done. eapply live_lookup; [done |]. split; [done |].
    exists s. split; [| done]. apply (di_index _ _ _ _ (bi_data _ _ B)). eauto.
  - intros (<- & <- & Hl). eapply live_lookup in Hl as (_ & s & Hs & Hx); [| done].
    exists s. split; [| done]. by apply (di_slot _ _ _ _ (bi_data _ _ B)).
Qed.

(** What a represented book guarantees. *)

Lemma repr_elem b A side price x :
  repr b A -> x ∈ A side price <->
  no_side x = side /\ no_price x = price /\ live b !! no_order_id x = Some x.
Proof. intros (q & B & H). by eapply holds_elem. Qed.

Lemma repr_live_id b A id x : repr b A -> live b !! id = Some x -> no_order_id x = id.
Proof. intros (q & B & _) H. by eapply live_lookup in H as [? _]. Qed.

Lemma repr_live_elem b A id x :
  repr b A -> live b !! id = Some x -> x ∈ A (no_side x) (no_price x).
Proof.
  intros R H. eapply repr_elem; [done |]. by rewrite (repr_live_id _ _ _ _ R H).
Qed.

Lemma repr_wf b A id x : repr b A -> live b !! id = Some x -> order_wf x.
Proof.
  intros (q & B & _) H. eapply live_lookup in H as (_ & s & _ & Hx); [| done].
  by eapply (di_wf _ _ _ _ (bi_data _ _ B)).
Qed.

Lemma repr_prio b A side price :
  repr b A -> StronglySorted Z.lt (map no_priority (A side price)).
Proof.
  intros (q & B & H). rewrite H, <- qprio_contents. apply (di_prio _ _ _ _ (bi_data _ _ B)).
Qed.

Lemma repr_total b A side price :
  repr b A -> 0 <= total_rem (A side price) <= u64_max.
Proof.
  intros (q & B & H). rewrite H, <- qrem_contents.
  split; [apply qrem_nonneg, (di_wf _ _ _ _ (bi_data _ _ B)) |].
  destruct (BTree.get price (Book.side_levels b side)) as [l |] eqn:E.
  - destruct (di_level _ _ _ _ (bi_data _ _ B) _ _ _ E) as [_ _ Lt _ Lu]. rewrite <- Lt. mach.
  - rewrite (di_none _ _ _ _ (bi_data _ _ B) _ _ E). simpl. lia.
Qed.

(** An order is in the index exactly when it is live. *)
Lemma repr_index_None b A id : repr b A -> order_index b !! id = None <-> live b !! id = None.
Proof.
  intros (q & B & _). unfold live. rewrite lookup_omap. simpl.
  destruct (order_index b !! id) as [s |] eqn:E; simpl; [| done].
  apply (di_index _ _ _ _ (bi_data _ _ B)) in E as (x & -> & _). done.
Qed.

Lemma repr_length b A side price q :
  binv b q -> holds b q A -> length (A side price) = length (q side price).
Proof.
  intros B H. rewrite H.
  assert (Hin : forall s, s ∈ q side price -> is_Some (data b !! s)).
  { intros s Hs. destruct (di_queue _ _ _ _ (bi_data _ _ B) _ _ _ Hs) as (x & ? & _). eauto. }
  induction (q side price) as [| s ss IH]; [done |].
  rewrite contents_cons. destruct (Hin s ltac:(set_solver)) as [x ->]. simpl.
  f_equal. apply IH. set_solver.
Qed.

Lemma repr_level b A side price :
  repr b A ->
  match BTree.get price (Book.side_levels b side) with
  | Some l => A side price <> [] /\ order_count l = Z.of_nat (length (A side price))
              /\ total_remaining l = total_rem (A side price)
  | None => A side price = []
  end.
Proof.
  intros (q & B & H).
  destruct (BTree.get price (Book.side_levels b side)) as [l |] eqn:E.
  - pose proof (repr_length b A side price q B H) as Hlen.
    destruct (di_level _ _ _ _ (bi_data _ _ B) _ _ _ E) as [Hne Lc Lt _ _].
    rewrite Hlen, H, <- qrem_contents. split_and!; try done.
    intros E0. rewrite <- H in E0. rewrite E0 in Hlen. by destruct (q side price).
  - by rewrite H, (di_none _ _ _ _ (bi_data _ _ B) _ _ E).
Qed.

Lemma repr_sorted b A side : repr b A -> BTree.sorted (Book.side_levels b side).
Proof. intros (q & B & _). apply (di_sorted _ _ _ _ (bi_data _ _ B)). Qed.

Lemma repr_ext b A A' : (forall s p, A s p = A' s p) -> repr b A -> repr b A'.
Proof. intros E (q & B & H). exists q. split; [done |]. intros s p. by rewrite <- E. Qed.

(** The live orders are the slab's. *)
Lemma live_size b A : repr b A -> size (live b) = slab_len (orders b).
Proof.
  intros (q & B & _). rewrite <- (index_size _ _ B), <- !size_dom. f_equal.
  apply set_eq. intros id. rewrite !elem_of_dom. unfold live. rewrite lookup_omap.
  destruct (order_index b !! id) as [s |] eqn:E; simpl; [| done].
  apply (di_index _ _ _ _ (bi_data _ _ B)) in E as (x & -> & _). done.
Qed.

(** * The operations *)

(** [live] after the three kinds of change of [BookData]. *)
Lemma live_insert b b' q slot x :
  binv b q -> data b !! slot = None -> data b' = <[slot := x]> (data b) ->
  order_index b' = <[no_order_id x := slot]> (order_index b) ->
  live b' = <[no_order_id x := x]> (live b).
Proof.
  intros B Hslot Hd Hi. apply map_eq. intros id. unfold live.
  rewrite !lookup_omap, Hi, Hd, !lookup_insert. case_decide; simpl.
  - by rewrite lookup_insert_eq.
  - rewrite lookup_omap. destruct (order_index b !! id) as [s |] eqn:E; simpl; [| done].
    apply lookup_insert_ne. intros ->.
    apply (di_index _ _ _ _ (bi_data _ _ B)) in E as (y & Hy & _). congruence.
Qed.

Lemma live_delete b b' q slot x :
  binv b q -> data b !! slot = Some x -> data b' = delete slot (data b) ->
  order_index b' = delete (no_order_id x) (order_index b) ->
  live b' = delete (no_order_id x) (live b).
Proof.
  intros B Hslot Hd Hi. apply map_eq. intros id. unfold live.
  rewrite !lookup_omap, Hi, Hd. destruct (decide (no_order_id x = id)) as [<- |].
  - by rewrite !lookup_delete_eq.
  - rewrite !lookup_delete_ne by done. rewrite lookup_omap.
    destruct (order_index b !! id) as [s |] eqn:E; simpl; [| done].
    apply lookup_delete_ne. intros ->.
    apply (di_index _ _ _ _ (bi_data _ _ B)) in E as (y & Hy & Hyid). congruence.
Qed.

Lemma live_update b b' q slot x x' :
  binv b q -> data b !! slot = Some x -> no_order_id x' = no_order_id x ->
  data b' = <[slot := x']> (data b) -> order_index b' = order_index b ->
  live b' = <[no_order_id x := x']> (live b).
Proof.
  intros B Hslot Hid Hd Hi. apply map_eq. intros id. unfold live.
  rewrite !lookup_omap, Hi, Hd, lookup_insert. case_decide as E; simpl.
  - subst. assert (order_index b !! no_order_id x = Some slot) as ->.
    { apply (di_index _ _ _ _ (bi_data _ _ B)). eauto. }
    simpl. by rewrite lookup_insert_eq.
  - rewrite lookup_omap. destruct (order_index b !! id) as [s |] eqn:E1; simpl; [| done].
    apply lookup_insert_ne. intros ->.
    apply (di_index _ _ _ _ (bi_data _ _ B)) in E1 as (y & Hy & Hyid). congruence.
Qed.

(** The contents of the other queues do not see a slot's change. *)
Lemma contents_other b q side price slot x d' :
  binv b q -> data b !! slot = Some x -> ~ (side = no_side x /\ price = no_price x) ->
  (forall t, t <> slot -> d' !! t = data b !! t) ->
  contents d' (q side price) = contents (data b) (q side price).
Proof.
  intros B Hx Hne Hfr. apply contents_frame. intros t Ht. apply Hfr. intros ->.
  apply Hne. by eapply (dinv_elem (bi_data _ _ B)).
Qed.

Lemma with_capacity_repr cap : repr (Book.with_capacity (S := S) cap) (fun _ _ => []).
Proof.
  exists (fun _ _ => []). unfold Book.with_capacity. split; [| done].
  set (b := mkOrderBook [] [] slab_new ∅ cap).
  assert (V : view b = ∅) by apply slab_new_view.
  assert (D : data b = ∅) by (unfold data; by rewrite V, fmap_empty).
  assert (L : forall side, Book.side_levels b side = []) by (by intros []).
  constructor; [constructor | constructor |]; rewrite ?D, ?V; try done;
    try (intros side; by rewrite L).
  - intros side. rewrite L. apply BTree.sorted_nil.
  - intros. apply NoDup_nil_2.
  - intros. by apply elem_of_nil in H.
  - intros. constructor.
  - intros id s. split; [done |]. by intros (x & Hx & _).
  - rewrite map_size_empty. lia.
Qed.

Lemma insert_repr b A x :
  repr b A -> order_wf x -> live b !! no_order_id x = None ->
  (forall y, y ∈ A (no_side x) (no_price x) -> no_priority y < no_priority x) ->
  insert_ok b x ->
  exists b', Book.insert b x = Ret (b', Ok tt)
    /\ repr b' (aset A (no_side x) (no_price x) (A (no_side x) (no_price x) ++ [x]))
    /\ live b' = <[no_order_id x := x]> (live b) /\ capacity b' = capacity b.
Proof.
  intros R Hwf Hid Hp Hok. pose proof R as (q & B & H).
  edestruct (insert_spec b q x B Hwf) as (b' & slot & E & B' & Hslot & Hd & Hi & Hc);
    [by eapply repr_index_None | | done |].
  { intros p. rewrite qprio_contents, <- H. rewrite list_elem_of_In, in_map_iff.
    intros (y & <- & Hy). apply Hp. by apply list_elem_of_In. }
  exists b'. split_and!; try done; [| by eapply live_insert].
  eexists. split; [done |]. intros side price. unfold aset, q_set. case_decide.
  - rewrite contents_app, Hd. rewrite (contents_frame (data b)).
    + rewrite H. f_equal. by rewrite contents_cons, lookup_insert_eq.
    + intros s Hs. apply lookup_insert_ne. intros ->. by apply (dinv_not_elem (bi_data _ _ B)) in Hs.
  - rewrite H, Hd. symmetry. apply contents_frame.
    intros s Hs. apply lookup_insert_ne. intros ->. by apply (dinv_not_elem (bi_data _ _ B)) in Hs.
Qed.

(** Taking slot [slot] out of its queue, in terms of the contents. *)
Lemma repr_delete b b' q A slot x ss1 ss2 :
  binv b q -> holds b q A -> data b !! slot = Some x ->
  q (no_side x) (no_price x) = ss1 ++ slot :: ss2 ->
  binv b' (q_set q (no_side x) (no_price x) (ss1 ++ ss2)) ->
  data b' = delete slot (data b) ->
  order_index b' = delete (no_order_id x) (order_index b) ->
  A (no_side x) (no_price x) = contents (data b) ss1 ++ x :: contents (data b) ss2
  /\ repr b' (aset A (no_side x) (no_price x) (contents (data b) ss1 ++ contents (data b) ss2))
  /\ live b' = delete (no_order_id x) (live b).
Proof.
  intros B H Hx Hq B' Hd Hi. pose proof (di_nodup _ _ _ _ (bi_data _ _ B) (no_side x) (no_price x)) as Hnd.
  rewrite Hq in Hnd. apply NoDup_app in Hnd as (_ & Hdis & [Hns _]%NoDup_cons). split_and!.
  - by rewrite H, Hq, contents_app, contents_cons, Hx.
  - eexists. split; [done |]. intros side price. unfold aset, q_set. case_decide.
    + rewrite <- contents_app, Hd. symmetry. apply contents_frame.
      intros s Hs. apply lookup_delete_ne. set_solver.
    + rewrite H, Hd. symmetry. eapply contents_other; try done.
      intros t Ht. by apply lookup_delete_ne.
  - by eapply live_delete.
Qed.

Lemma remove_repr b A x :
  repr b A -> live b !! no_order_id x = Some x ->
  exists o b' l1 l2, Book.remove b (no_order_id x) = Ret (b', Some o) /\ node_data o = x
    /\ A (no_side x) (no_price x) = l1 ++ x :: l2
    /\ repr b' (aset A (no_side x) (no_price x) (l1 ++ l2))
    /\ live b' = delete (no_order_id x) (live b) /\ capacity b' = capacity b.
Proof.
  intros (q & B & H) Hl. eapply live_lookup in Hl as (_ & slot & Hs & Hx); [| done].
  destruct (remove_spec b q _ slot B Hs)
    as (o & b' & ss1 & ss2 & Ho & Hid & -> & Hq & B' & Hd & Hi & Hc).
  apply data_lookup in Hx as Hx'. destruct Hx' as (o' & Ho' & ->). simplify_eq.
  destruct (repr_delete b b' q A slot (node_data o) ss1 ss2) as (HA & HR & HL); try done.
  exists o, b', (contents (data b) ss1), (contents (data b) ss2). by split_and!.
Qed.

(** Rewriting slot [slot] in place, in terms of the contents. *)
Lemma repr_update b b' q A slot x x' :
  binv b q -> holds b q A -> data b !! slot = Some x ->
  no_order_id x' = no_order_id x -> binv b' q ->
  data b' = <[slot := x']> (data b) -> order_index b' = order_index b ->
  exists ss1 ss2, q (no_side x) (no_price x) = ss1 ++ slot :: ss2
    /\ A (no_side x) (no_price x) = contents (data b) ss1 ++ x :: contents (data b) ss2
    /\ repr b' (aset A (no_side x) (no_price x)
                  (contents (data b) ss1 ++ x' :: contents (data b) ss2))
    /\ live b' = <[no_order_id x := x']> (live b).
Proof.
  intros B H Hx Hid B' Hd Hi.
  pose proof (di_slot _ _ _ _ (bi_data _ _ B) _ _ Hx) as Hin.
  pose proof (di_nodup _ _ _ _ (bi_data _ _ B) (no_side x) (no_price x)) as Hnd.
  apply list_elem_of_split in Hin as (ss1 & ss2 & Hq). rewrite Hq in Hnd.
  apply NoDup_app in Hnd as (_ & Hdis & [Hns _]%NoDup_cons). exists ss1, ss2. split_and!.
  - done.
  - by rewrite H, Hq, contents_app, contents_cons, Hx.
  - exists q. split; [done |]. intros side price. unfold aset. case_decide as E.
    + destruct E as [-> ->]. rewrite Hq, Hd, contents_app, contents_cons, lookup_insert_eq.
      rewrite (contents_frame (data b) (<[slot := x']> (data b)) ss1),
        (contents_frame (data b) (<[slot := x']> (data b)) ss2); try done;
        intros; apply lookup_insert_ne; set_solver.
    + rewrite H, Hd. symmetry. eapply contents_other; try done.
      intros t Ht. by apply lookup_insert_ne.
  - by eapply live_update.
Qed.

Lemma reduce_total_repr b A x new_total :
  repr b A -> live b !! no_order_id x = Some x ->
  no_cumulative_filled x <= new_total <= no_total_quantity x ->
  exists b' l1 l2, Book.reduce_total b (no_order_id x) new_total = Ret b'
    /\ A (no_side x) (no_price x) = l1 ++ x :: l2
    /\ repr b' (aset A (no_side x) (no_price x) (l1 ++ with_total x new_total :: l2))
    /\ live b' = <[no_order_id x := with_total x new_total]> (live b)
    /\ capacity b' = capacity b.
Proof.
  intros (q & B & H) Hl Hn. eapply live_lookup in Hl as (_ & slot & Hs & Hx); [| done].
  apply data_lookup in Hx as Hx'. destruct Hx' as (o & Ho & ->).
  destruct (reduce_total_spec b q _ slot o new_total B Hs Ho Hn) as (b' & -> & B' & V & Hi & Hc).
  assert (Hd : data b' = <[slot := with_total (node_data o) new_total]> (data b)).
  { unfold data. by rewrite V, fmap_insert. }
  destruct (repr_update b b' q A slot (node_data o) (with_total (node_data o) new_total)
              B H Hx eq_refl B' Hd Hi)
    as (ss1 & ss2 & _ & HA & HR & HL).
  exists b', (contents (data b) ss1), (contents (data b) ss2). by split_and!.
Qed.

(** A price with orders has a head slot, whose node is the first order. *)
Lemma head_repr b A side price x rest :
  repr b A -> A side price = x :: rest ->
  exists q slot o ss, binv b q /\ holds b q A /\ q side price = slot :: ss
    /\ Book.head_slot b side price = Some slot /\ view b !! slot = Some o
    /\ node_data o = x /\ no_side x = side /\ no_price x = price.
Proof.
  intros (q & B & H) HA. pose proof (repr_length b A side price q B H) as Hlen.
  rewrite HA in Hlen. destruct (q side price) as [| slot ss] eqn:Eq; [done |].
  destruct (di_queue _ _ _ _ (bi_data _ _ B) side price slot) as (y & Hy & Hs & Hp);
    [rewrite Eq; set_solver |].
  assert (y = x) as ->.
  { rewrite H, Eq, contents_cons, Hy in HA. congruence. }
  apply data_lookup in Hy as (o & Ho & ->).
  exists q, slot, o, ss. rewrite (head_slot_spec _ _ _ _ B), Eq. by split_and!.
Qed.

Lemma head_repr_None b A side price :
  repr b A -> A side price = [] -> Book.head_slot b side price = None.
Proof.
  intros R HA. pose proof (repr_level b A side price R) as Hl. unfold Book.head_slot.
  destruct (BTree.get price (Book.side_levels b side)); [| done]. naive_solver.
Qed.

(** Filling the first order of a price. *)
Lemma fill_maker_repr b A side price x rest quantity :
  repr b A -> A side price = x :: rest -> 0 <= quantity <= order_rem x ->
  exists slot o b', Book.head_slot b side price = Some slot
    /\ Book.node b slot = Ret o /\ node_data o = x
    /\ Book.fill_maker b slot quantity
       = Ret (b', node_set_cumulative o (node_cumulative_filled o + quantity))
    /\ capacity b' = capacity b
    /\ (if quantity =? order_rem x then
          repr b' (aset A side price rest) /\ live b' = delete (no_order_id x) (live b)
        else repr b' (aset A side price (filled_by x quantity :: rest))
             /\ live b' = <[no_order_id x := filled_by x quantity]> (live b)).
Proof.
  intros R HA Hq.
  destruct (head_repr b A side price x rest R HA)
    as (q & slot & o & ss & B & H & Eq & Hh & Ho & <- & Hs & Hp).
  assert (Hx : data b !! slot = Some (node_data o)) by (apply data_lookup; eauto).
  assert (Hnd : slot ∉ ss).
  { pose proof (di_nodup _ _ _ _ (bi_data _ _ B) side price) as Hnd.
    rewrite Eq in Hnd. by apply NoDup_cons in Hnd as [? _]. }
  assert (Hrest : rest = contents (data b) ss).
  { rewrite H, Eq, contents_cons, Hx in HA. congruence. }
  destruct (fill_maker_spec b q slot o quantity B Ho Hq) as (b' & q' & E & B' & Hc & Hcase).
  exists slot, o, b'. split_and!; try done; [by apply node_ok |].
  assert (Hside : node_side o = side) by done. assert (Hprice : node_price o = price) by done.
  rewrite Hside, Hprice in Hcase.
  destruct (Z.eqb_spec quantity (order_rem (node_data o))).
  - destruct Hcase as (ss1 & ss2 & Eq' & -> & Hd & Hi).
    rewrite Eq in Eq'. assert (ss1 = [] /\ ss2 = ss) as [-> ->].
    { destruct ss1; simplify_eq/=; [done | set_solver]. }
    destruct (repr_delete b b' q A slot (node_data o) [] ss) as (_ & HR & HL); try done.
    { by rewrite Hs, Hp. } { by rewrite Hs, Hp. }
    rewrite Hs, Hp in HR. simpl in HR. by rewrite <- Hrest in HR.
  - destruct Hcase as (-> & Hd & Hi).
    destruct (repr_update b b' q A slot (node_data o) (filled_by (node_data o) quantity))
      as (ss1 & ss2 & Eq' & _ & HR & HL); try done.
    rewrite Hs, Hp in *. rewrite Eq in Eq'. assert (ss1 = [] /\ ss2 = ss) as [-> ->].
    { destruct ss1; simplify_eq/=; [done | set_solver]. }
    simpl in HR. by rewrite <- Hrest in HR.
Qed.

End BookSpec.
