(* ===== verification/MatchSpec.v ===== *)
(** What matching does to the book's content.

    [fill_queue] is the effect of the inner loop on one price and [matches]
    the effect of the outer loop, both on the abstract book of [BookSpec];
    [match_order_repr] shows that [match_order] terminates within its fuel,
    does not panic and has exactly that effect. *)

From Stdlib Require Import Sorted.
From stdpp Require Import sorting.
From S2P Require Import Prelude Enums Ids BTree Slab Book BookData BookInv BookCheck BookSpec.
From S2P Require Import Matching.

(** The fill of [traded] lots of the maker [x]. *)
Definition fill_of (x : NewOrder) (traded : Z) : Fill :=
  mkFill (no_order_id x) (no_account x) (no_client_order_id x) (no_price x) traded
    (no_total_quantity x) (no_cumulative_filled x + traded) (order_rem x - traded).

Fixpoint fill_queue (rem : Z) (xs : list NewOrder) : list NewOrder * Z * list Fill :=
  match xs with
  | [] => ([], rem, [])
  | x :: rest =>
      if 0 <? rem then
        let traded := Z.min rem (order_rem x) in
        if traded =? order_rem x then
          let '(ys, rem', fs) := fill_queue (rem - traded) rest in
          (ys, rem', fill_of x traded :: fs)
        else (filled_by x traded :: rest, rem - traded, [fill_of x traded])
      else (xs, rem, [])
  end.

(** [p] is the best price with orders on [side]. *)
Definition better (side : Side.t) (p p' : Z) : Prop :=
  match side with
  | Side.Buy => p' < p
  | Side.Sell => p < p'
  end.

Definition best_price (A : abook) (side : Side.t) (p : Z) : Prop :=
  A side p <> [] /\ forall p', A side p' <> [] -> ~ better side p' p.

(** A maker at [p] on [side] may trade with a taker limited to [limit]. *)
Definition eligible (side : Side.t) (limit p : Z) : Prop := ~ better side limit p.

Inductive matches (side : Side.t) (limit : Z)
  : abook -> Z -> abook -> Z -> list Fill -> Prop :=
| matches_done A rem : rem = 0 -> matches side limit A rem A rem []
| matches_none A rem :
    (forall p, A side p <> [] -> ~ eligible side limit p) ->
    matches side limit A rem A rem []
| matches_level A rem p ys rem1 fs1 A' rem' fs2 :
    0 < rem -> best_price A side p -> eligible side limit p ->
    fill_queue rem (A side p) = (ys, rem1, fs1) ->
    matches side limit (aset A side p ys) rem1 A' rem' fs2 ->
    matches side limit A rem A' rem' (fs1 ++ fs2).

(** The live orders after a fill. *)
Definition apply_fill (m : gmap OrderId NewOrder) (f : Fill) : gmap OrderId NewOrder :=
  match m !! fill_maker_order_id f with
  | None => m
  | Some x =>
      if fill_maker_remaining f =? 0 then delete (fill_maker_order_id f) m
      else <[fill_maker_order_id f := filled_by x (fill_quantity f)]> m
  end.

Definition apply_fills (m : gmap OrderId NewOrder) (fs : list Fill) : gmap OrderId NewOrder :=
  fold_left apply_fill fs m.

Fixpoint filled_quantity (fs : list Fill) : Z :=
  match fs with
  | [] => 0
  | f :: fs => fill_quantity f + filled_quantity fs
  end.

Lemma filled_quantity_app fs1 fs2 :
  filled_quantity (fs1 ++ fs2) = filled_quantity fs1 + filled_quantity fs2.
Proof. induction fs1; simpl; lia. Qed.

(** The shape of [fill_queue]'s result: a prefix is filled entirely, then at
    most one order partially. *)
Lemma fill_queue_shape xs rem ys rem' fs :
  0 <= rem -> (forall x, x ∈ xs -> 0 <= order_rem x) ->
  fill_queue rem xs = (ys, rem', fs) ->
  0 <= rem' <= rem /\ filled_quantity fs = rem - rem' /\
  exists done,
    (xs = done ++ ys /\ fs = map (fun x => fill_of x (order_rem x)) done
     /\ (ys = [] \/ rem' = 0))
    \/ (exists x t rest, xs = done ++ x :: rest /\ 0 < t < order_rem x
          /\ ys = filled_by x t :: rest
          /\ fs = map (fun x => fill_of x (order_rem x)) done ++ [fill_of x t] /\ rem' = 0).
Proof.
  revert rem ys rem' fs. induction xs as [| x xs IH]; intros rem ys rem' fs Hr Hx; simpl.
  - intros [= <- <- <-]. split_and!; [lia | lia | simpl; lia |]. exists []. left. auto.
  - assert (0 <= order_rem x) by (apply Hx; set_solver).
    destruct (Z.ltb_spec 0 rem).
    2: { intros [= <- <- <-]. split_and!; [lia | lia | simpl; lia |]. exists []. left.
         split_and!; [done.. |]. right. lia. }
    destruct (Z.eqb_spec (Z.min rem (order_rem x)) (order_rem x)) as [E | E].
    + rewrite E. destruct (fill_queue _ xs) as [[ys0 rem0] fs0] eqn:Eq.
      intros [= <- <- <-].
      apply IH in Eq as (Hr0 & Hs & dn & Hd); [| lia | set_solver].
      split_and!; [lia | lia | simpl; lia |]. exists (x :: dn).
      destruct Hd as [(-> & -> & Hd) | (y & t & rest & -> & Ht & -> & -> & ->)].
      * left. split_and!; done.
      * right. exists y, t, rest. split_and!; try done; lia.
    + intros [= <- <- <-]. split_and!; [lia | lia | simpl; lia |]. exists []. right.
      exists x, (Z.min rem (order_rem x)), xs. split_and!; try done; try lia.
Qed.

Section MatchSpec.
Context {S : Type} `{SL : Slab OrderNode S} `{!SlabLaws SL}.
Implicit Types (b : OrderBook S) (A : abook).

Lemma repr_rem_nonneg b A side price x : repr b A -> x ∈ A side price -> 0 <= order_rem x.
Proof.
  intros R Hx. eapply repr_elem in Hx as (_ & _ & Hl); [| done].
  eapply repr_wf in Hl; [| done]. unfold order_wf, order_rem in *. lia.
Qed.

(** The inner loop. *)
Lemma match_level_repr fuel b A side price rem fills :
  repr b A -> in_u64 rem -> (length (A side price) < fuel)%nat ->
  exists b' ys rem' fs, fill_queue rem (A side price) = (ys, rem', fs)
    /\ match_level fuel b side price rem fills = Ret (b', rem', fills ++ fs)
    /\ repr b' (aset A side price ys) /\ capacity b' = capacity b
    /\ live b' = apply_fills (live b) fs.
Proof.
  revert b A rem fills. induction fuel as [| fuel IH]; intros b A rem fills R Hrem Hf; [lia |].
  destruct (A side price) as [| x rest] eqn:HA; simpl in *.
  - exists b, [], rem, []. rewrite app_nil_r, (head_repr_None _ _ _ _ R HA).
    split; [done |]. split; [by destruct (0 <? rem) |].
    split_and!; try done. eapply repr_ext; [| done]. intros s p. unfold aset.
    case_decide as E; [by destruct E as [-> ->] | done].
  - destruct (Z.ltb_spec 0 rem).
    2: { exists b, (x :: rest), rem, []. rewrite app_nil_r. split_and!; try done.
         eapply repr_ext; [| done]. intros s p. unfold aset.
         case_decide as E; [by destruct E as [-> ->] | done]. }
    assert (Hx : x ∈ A side price) by (rewrite HA; set_solver).
    pose proof (repr_rem_nonneg _ _ _ _ _ R Hx) as Hnn.
    eapply repr_elem in Hx as (Hside & Hprice & Hlive); [| done].
    pose proof (repr_wf _ _ _ _ R Hlive) as Hwf.
    set (traded := Z.min rem (order_rem x)).
    destruct (fill_maker_repr b A side price x rest traded R HA ltac:(lia))
      as (slot & o & b1 & -> & -> & Hd & E1 & Hc & Hcase). simpl.
    rewrite remaining_ok by (by rewrite Hd). simpl. rewrite Hd. fold traded. rewrite E1. simpl.
    rewrite u64_plain_in by mach. simpl.
    set (o1 := node_set_cumulative o (node_cumulative_filled o + traded)).
    assert (Ho1 : node_data o1 = filled_by x traded) by (by rewrite <- Hd).
    rewrite remaining_ok.
    2: { rewrite Ho1. unfold order_wf, order_rem in *. simpl. lia. }
    simpl. rewrite Ho1, order_rem_filled_by.
    assert (mkFill (node_order_id o) (node_account o) (node_client_order_id o) price traded
              (node_total_quantity o) (node_cumulative_filled o + traded)
              (order_rem x - traded) = fill_of x traded) as ->.
    { unfold fill_of. by rewrite <- Hprice, <- Hd. }
    assert (Happ : forall m, m !! no_order_id x = Some x ->
              apply_fill m (fill_of x traded)
              = if traded =? order_rem x then delete (no_order_id x) m
                else <[no_order_id x := filled_by x traded]> m).
    { intros m Hm. unfold apply_fill. simpl. rewrite Hm.
      by replace (order_rem x - traded =? 0) with (traded =? order_rem x) by lia. }
    destruct (Z.eqb_spec traded (order_rem x)) as [E | E].
    + destruct Hcase as [R1 L1].
      destruct (IH b1 (aset A side price rest) (rem - traded) (fills ++ [fill_of x traded]))
        as (b' & ys & rem' & fs & Eq & E2 & R2 & Hc2 & L2); try done; [mach | | ].
      { rewrite aset_eq. lia. }
      rewrite aset_eq in Eq. rewrite Eq. exists b', ys, rem', (fill_of x traded :: fs).
      rewrite E2, <- app_assoc. split_and!; try done.
      * eapply repr_ext; [| done]. intros s p. unfold aset. by case_decide.
      * congruence.
      * simpl. rewrite Happ by done. by rewrite <- L1.
    + destruct Hcase as [R1 L1].
      assert (rem - traded = 0) as -> by lia. destruct fuel as [| fuel]; [lia |]. simpl.
      exists b1, (filled_by x traded :: rest), 0, [fill_of x traded].
      split_and!; try done. simpl. by rewrite Happ.
Qed.

(** The price the outer loop picks. *)
Lemma next_eligible_repr b A side limit :
  repr b A ->
  match Book.next_eligible_price b side (Some limit) with
  | Some p => best_price A side p /\ eligible side limit p
  | None => forall p, A side p <> [] -> ~ eligible side limit p
  end.
Proof.
  intros R. pose proof (repr_sorted b A side R) as Hs.
  assert (Hlv : forall p, A side p <> [] ->
            exists l, BTree.get p (Book.side_levels b side) = Some l).
  { intros p Hp. pose proof (repr_level b A side p R) as Hl.
    destruct (BTree.get p (Book.side_levels b side)); [by eauto | done]. }
  assert (Hne : forall p l, BTree.get p (Book.side_levels b side) = Some l -> A side p <> []).
  { intros p l Hl. pose proof (repr_level b A side p R) as H. rewrite Hl in H. naive_solver. }
  unfold Book.next_eligible_price, best_price, eligible, better. destruct side; simpl in *.
  - destruct (BTree.last (bids b)) as [[p l] |] eqn:E.
    + pose proof (BTree.last_get _ _ _ Hs E) as Hp.
      assert (Hmax : forall p', A Side.Buy p' <> [] -> p' <= p).
      { intros p' H'. destruct (Hlv p' H') as [l' Hl']. by eapply BTree.last_max. }
      destruct (Z.ltb_spec p limit).
      * intros p' H'%Hmax. lia.
      * split_and!; [by eapply Hne | intros p' H'%Hmax; lia | lia].
    + apply BTree.last_None in E. intros p H'. destruct (Hlv p H') as [l Hl].
      by rewrite E in Hl.
  - destruct (BTree.first (asks b)) as [[p l] |] eqn:E.
    + pose proof (BTree.first_get _ _ _ E) as Hp.
      assert (Hmin : forall p', A Side.Sell p' <> [] -> p <= p').
      { intros p' H'. destruct (Hlv p' H') as [l' Hl']. by eapply BTree.first_min. }
      destruct (Z.ltb_spec limit p).
      * intros p' H'%Hmin. lia.
      * split_and!; [by eapply Hne | intros p' H'%Hmin; lia | lia].
    + apply BTree.first_None in E. intros p H'. destruct (Hlv p H') as [l Hl].
      by rewrite E in Hl.
Qed.

Lemma apply_fill_dom m f : dom (apply_fill m f) ⊆ dom m.
Proof.
  unfold apply_fill. destruct (m !! _) as [x |] eqn:E; [| done].
  case_match; [set_solver |]. rewrite dom_insert. apply elem_of_dom_2 in E. set_solver.
Qed.

Lemma apply_fills_dom fs m : dom (apply_fills m fs) ⊆ dom m.
Proof.
  revert m. induction fs as [| f fs IH]; intros m; simpl; [done |].
  etrans; [apply IH | apply apply_fill_dom].
Qed.

(** A level that empties takes live orders with it. *)
Lemma live_decreases b b' A side p fs :
  repr b A -> repr b' (aset A side p []) -> A side p <> [] ->
  live b' = apply_fills (live b) fs -> (size (live b') < size (live b))%nat.
Proof.
  intros R R' Hne HL. rewrite <- !size_dom. apply subset_size.
  destruct (A side p) as [| x rest] eqn:HA; [done |].
  assert (Hx : x ∈ A side p) by (rewrite HA; set_solver).
  eapply repr_elem in Hx as (Hs & Hp & Hl); [| done].
  split; [rewrite HL; apply apply_fills_dom |]. intros Hsub.
  assert (is_Some (live b' !! no_order_id x)) as [y Hy].
  { apply elem_of_dom, Hsub, elem_of_dom. eauto. }
  pose proof (repr_live_elem _ _ _ _ R' Hy) as Hin.
  pose proof (repr_live_id _ _ _ _ R' Hy) as Hid.
  unfold aset in Hin. case_decide as E; [set_solver |].
  eapply repr_elem in Hin as (_ & _ & Hy'); [| done].
  assert (y = x) as -> by congruence. naive_solver.
Qed.

Lemma live_nonempty b A side p : repr b A -> A side p <> [] -> size (live b) <> 0%nat.
Proof.
  intros R Hne E. apply map_size_empty_inv in E.
  destruct (A side p) as [| x rest] eqn:HA; [done |].
  assert (Hx : x ∈ A side p) by (rewrite HA; set_solver).
  eapply repr_elem in Hx as (_ & _ & Hl); [| done]. by rewrite E in Hl.
Qed.

(** The outer loop. *)
Lemma match_prices_repr fuel b A side limit rem fills :
  repr b A -> in_u64 rem -> (size (live b) < fuel)%nat ->
  exists b' A' rem' fs, match_prices fuel b side limit rem fills = Ret (b', rem', fills ++ fs)
    /\ matches side limit A rem A' rem' fs
    /\ 0 <= rem' <= rem /\ filled_quantity fs = rem - rem'
    /\ repr b' A' /\ capacity b' = capacity b /\ live b' = apply_fills (live b) fs.
Proof.
  revert b A rem fills. induction fuel as [| fuel IH]; intros b A rem fills R Hrem Hf; [lia |].
  cbn [match_prices]. destruct (Z.ltb_spec 0 rem) as [Hpos | Hle].
  2: { exists b, A, rem, []. rewrite app_nil_r. split_and!; try done; [| mach | simpl; mach].
       constructor. mach. }
  pose proof (next_eligible_repr b A side limit R) as Hn.
  destruct (Book.next_eligible_price b side (Some limit)) as [p |].
  2: { exists b, A, rem, []. rewrite app_nil_r. split_and!; try done; [| lia | simpl; lia].
       by apply matches_none. }
  destruct Hn as [Hbest Hel].
  destruct (match_level_repr (Book.walk_fuel b) b A side p rem fills R Hrem)
    as (b1 & ys & rem1 & fs1 & Eq & -> & R1 & Hc1 & L1).
  { destruct R as (q & B & H). rewrite (repr_length b A side p q B H). by apply queue_length_fuel. }
  simpl. apply fill_queue_shape in Eq as Hshape; [| mach | intros x Hx; exact (repr_rem_nonneg _ _ _ _ _ R Hx)].
  destruct Hshape as (Hr1 & Hsum & dn & Hdn).
  destruct (decide (rem1 = 0)) as [-> | Hnz].
  { exists b1, (aset A side p ys), 0, fs1.
    pose proof (live_nonempty b A side p R (proj1 Hbest)). destruct fuel; [lia |]. split_and!; try done; try lia. rewrite <- (app_nil_r fs1).
    eapply matches_level; try done. by constructor. }
  assert (ys = []) as ->.
  { destruct Hdn as [(_ & _ & [? | ?]) | (? & ? & ? & _ & _ & _ & _ & ?)]; done. }
  destruct (IH b1 (aset A side p []) rem1 (fills ++ fs1))
    as (b' & A' & rem' & fs2 & E2 & M & Hr2 & Hs2 & R2 & C2 & L2); [done | mach | |].
  { pose proof (live_decreases b b1 A side p fs1 R R1 (proj1 Hbest) L1). lia. }
  exists b', A', rem', (fs1 ++ fs2). rewrite E2, app_assoc. split_and!; try done.
  - by eapply matches_level.
  - lia.
  - lia.
  - rewrite filled_quantity_app. lia.
  - congruence.
  - unfold apply_fills in *. by rewrite fold_left_app, <- L1.
Qed.

(** [match_order] terminates, does not panic and does what [matches] says. *)
Lemma match_order_repr b A taker limit quantity fills :
  repr b A -> in_u64 quantity ->
  exists b' A' rem fs,
    match_order b taker limit quantity fills = Ret (b', fills ++ fs, quantity - rem)
    /\ matches (Side.opposite taker) limit A quantity A' rem fs
    /\ 0 <= rem <= quantity /\ filled_quantity fs = quantity - rem
    /\ repr b' A' /\ capacity b' = capacity b /\ live b' = apply_fills (live b) fs.
Proof.
  intros R Hq. unfold match_order.
  destruct (match_prices_repr (Book.walk_fuel b) b A (Side.opposite taker) limit quantity fills)
    as (b' & A' & rem & fs & -> & M & Hr & Hs & R' & C' & L'); [done | done | |].
  { unfold Book.walk_fuel. rewrite (live_size b A R). lia. }
  simpl. rewrite u64_plain_in by mach. simpl. exists b', A', rem, fs. split_and!; done || lia.
Qed.

End MatchSpec.
