(* ===== verification/MatchProps.v ===== *)
(** Consequences of [matches]: the trades happen in price-time order, at
    eligible prices, never pass over an order that is ahead, and stop only
    when the taker is filled or nothing eligible is left. *)

From Stdlib Require Import Sorted.
From stdpp Require Import sorting.
From S2P Require Import Prelude Enums Ids BTree Slab Book BookData BookInv BookCheck BookSpec.
From S2P Require Import Matching MatchSpec Reference.

(** A well-formed abstract book. *)
Record awf (A : abook) : Prop := {
  aw_place side p x : x ∈ A side p -> no_side x = side /\ no_price x = p;
  aw_pos side p x : x ∈ A side p -> 0 < order_rem x;
  aw_prio side p : StronglySorted Z.lt (map no_priority (A side p))
}.

(** [x] is served before [y]: a better price, or the same price and earlier. *)
Definition ahead (side : Side.t) (x y : NewOrder) : Prop :=
  better side (no_price x) (no_price y)
  \/ (no_price x = no_price y /\ no_priority x < no_priority y).

(** A trade: the maker as it rested, and the quantity. *)
Definition fills_of (ms : list (NewOrder * Z)) : list Fill :=
  map (fun m => fill_of m.1 m.2) ms.

Lemma better_total side p p' : p <> p' -> ~ better side p' p -> better side p p'.
Proof. destruct side; simpl; lia. Qed.

Lemma better_irrefl side p : ~ better side p p.
Proof. destruct side; simpl; lia. Qed.

Lemma better_asym side p p' : better side p p' -> ~ better side p' p.
Proof. destruct side; simpl; lia. Qed.

Lemma aset_nil_elem A side p s p' x :
  x ∈ aset A side p [] s p' -> x ∈ A s p' /\ ~ (s = side /\ p' = p).
Proof. unfold aset. case_decide; set_solver. Qed.

Lemma awf_aset_nil A side p : awf A -> awf (aset A side p []).
Proof.
  intros [H1 H2 H3]. constructor.
  - intros s p' x [Hx _]%aset_nil_elem. eauto.
  - intros s p' x [Hx _]%aset_nil_elem. eauto.
  - intros s p'. unfold aset. case_decide; [constructor | done].
Qed.

Lemma prio_sorted_app A side p l1 l2 x y :
  awf A -> A side p = l1 ++ l2 -> x ∈ l1 -> y ∈ l2 -> no_priority x < no_priority y.
Proof.
  intros W E Hx Hy. pose proof (aw_prio _ W side p) as Hs. rewrite E, map_app in Hs.
  apply StronglySorted_app in Hs as (Hs & _ & _). apply Hs.
  - apply list_elem_of_In, in_map, list_elem_of_In, Hx.
  - apply list_elem_of_In, in_map, list_elem_of_In, Hy.
Qed.

(** The trades of one price, in queue order. *)
Lemma level_in_order side p (ms : list (NewOrder * Z)) :
  StronglySorted Z.lt (map no_priority (map fst ms)) ->
  (forall m, m ∈ ms -> no_price m.1 = p) ->
  StronglySorted (fun m1 m2 => ahead side m1.1 m2.1) ms.
Proof.
  induction ms as [| m ms IH]; simpl; intros Hs Hp; [constructor |].
  apply StronglySorted_inv in Hs as [Hs Hf]. constructor; [apply IH; set_solver |].
  apply Forall_forall. intros m' Hm'.
  right. rewrite !Hp by set_solver. split; [done |].
  rewrite Forall_forall in Hf. apply Hf. by apply list_elem_of_In, in_map, in_map, list_elem_of_In.
Qed.

Lemma fst_whole xs : map fst (map (fun x => (x, order_rem x)) xs) = xs.
Proof. rewrite map_map. apply map_id. Qed.

Record trades (A : abook) (side : Side.t) (limit rem : Z) (A' : abook) (rem' : Z)
    (ms : list (NewOrder * Z)) : Prop := {
  td_makers x t : (x, t) ∈ ms ->
    x ∈ A side (no_price x) /\ eligible side limit (no_price x) /\ 0 < t <= order_rem x;
  td_order : StronglySorted (fun m1 m2 => ahead side m1.1 m2.1) ms;
  td_survivors y p m : y ∈ A' side p -> m ∈ ms -> ~ ahead side y m.1;
  td_exhausted : rem' = 0 \/ forall p, A' side p <> [] -> ~ eligible side limit p;
  td_frame s p : s <> side \/ ~ eligible side limit p -> A' s p = A s p;
  td_origin s p y : y ∈ A' s p ->
    exists y0, y0 ∈ A s p /\ no_priority y = no_priority y0 /\ no_price y = no_price y0
               /\ no_side y = no_side y0 /\ 0 < order_rem y <= order_rem y0
}.

Lemma trades_refl A side limit rem :
  awf A -> (rem = 0 \/ forall p, A side p <> [] -> ~ eligible side limit p) ->
  trades A side limit rem A rem [].
Proof.
  intros W Hex. constructor; try done.
  - intros x t H. by apply elem_of_nil in H.
  - constructor.
  - intros y p m _ H. by apply elem_of_nil in H.
  - intros s p y Hy. exists y. split_and!; try done. by eapply aw_pos.
Qed.

(** One level taken whole, then the rest. *)
Lemma trades_level_full A side limit rem p A' rem1 rem' ms :
  awf A -> best_price A side p -> eligible side limit p ->
  trades (aset A side p []) side limit rem1 A' rem' ms ->
  trades A side limit rem A' rem' (map (fun x => (x, order_rem x)) (A side p) ++ ms).
Proof.
  intros W [Hne Hbest] Hel [T1 T2 T3 T4 T5 T6].
  assert (Hlevel : forall x t, (x, t) ∈ map (fun x => (x, order_rem x)) (A side p) ->
            x ∈ A side p /\ t = order_rem x).
  { intros x t (y & [= -> ->] & Hy)%list_elem_of_In%in_map_iff. by apply list_elem_of_In in Hy. }
  assert (Hrest : forall s p' y, y ∈ aset A side p [] s p' -> s = side -> better side p p').
  { intros s p' y [Hy Hn]%aset_nil_elem ->. apply better_total; [naive_solver |].
    apply Hbest. intros E. rewrite E in Hy. set_solver. }
  constructor.
  - intros x t [[Hx ->]%Hlevel | Hx]%elem_of_app.
    + destruct (aw_place _ W _ _ _ Hx) as [_ ->]. split_and!; try done.
      by eapply aw_pos.
    + destruct (T1 _ _ Hx) as (Hin & ? & ?). apply aset_nil_elem in Hin as [Hin _]. done.
  - apply StronglySorted_app_2; [| | done].
    + intros [x t] [y u] [Hx ->]%Hlevel Hy. left. simpl.
      destruct (T1 _ _ Hy) as (Hin & _). destruct (aw_place _ W _ _ _ Hx) as [_ ->]. eauto.
    + apply (level_in_order _ p).
      * rewrite fst_whole. apply (aw_prio _ W).
      * intros [x t] [Hx _]%Hlevel. by eapply aw_place.
  - intros y p' m Hy [Hm | Hm]%elem_of_app; [| by eapply T3].
    destruct m as [x t]. apply Hlevel in Hm as [Hx ->]. simpl.
    destruct (T6 _ _ _ Hy) as (y0 & Hy0 & Hpr & Hpc & _). apply Hrest in Hy0 as Hb; [| done].
    apply aset_nil_elem in Hy0 as [Hy0 _].
    destruct (aw_place _ W _ _ _ Hx) as [_ Hx']. destruct (aw_place _ W _ _ _ Hy0) as [_ Hy'].
    unfold ahead. rewrite Hpc, Hx', Hy'. intros [Hbad | [-> _]].
    + by eapply better_asym.
    + by eapply better_irrefl.
  - done.
  - intros s p' Hsp. rewrite T5 by done. apply aset_ne. intros [-> ->]. naive_solver.
  - intros s p' y Hy. destruct (T6 _ _ _ Hy) as (y0 & Hy0 & Hr).
    apply aset_nil_elem in Hy0 as [Hy0 _]. eauto.
Qed.

(** The last level: a prefix taken whole, then possibly part of one order. *)
Definition partial (o : option (NewOrder * Z)) : list NewOrder :=
  match o with
  | Some (x, t) => [filled_by x t]
  | None => []
  end.

Definition partial_maker (o : option (NewOrder * Z)) : list NewOrder :=
  match o with
  | Some (x, _) => [x]
  | None => []
  end.

Lemma trades_level_end A side limit rem p dn o rest :
  awf A -> best_price A side p -> eligible side limit p ->
  A side p = dn ++ partial_maker o ++ rest ->
  (forall x t, o = Some (x, t) -> 0 < t < order_rem x) ->
  trades A side limit rem (aset A side p (partial o ++ rest)) 0
    (map (fun x => (x, order_rem x)) dn ++ option_list o).
Proof.
  intros W [Hne Hbest] Hel HA Ho.
  assert (Hm : forall x t, (x, t) ∈ map (fun x => (x, order_rem x)) dn ++ option_list o ->
            x ∈ dn ++ partial_maker o /\ 0 < t <= order_rem x).
  { intros x t [(y & [= -> <-] & Hy)%list_elem_of_In%in_map_iff | Hx]%elem_of_app.
    - apply list_elem_of_In in Hy. split; [set_solver |].
      assert (0 < order_rem x); [| lia]. eapply (aw_pos _ W side p). rewrite HA. set_solver.
    - destruct o as [[y u] |]; simpl in *; [| set_solver].
      apply list_elem_of_singleton in Hx as [= -> ->]. specialize (Ho _ _ eq_refl).
      split; [set_solver | lia]. }
  assert (Hp : forall x, x ∈ A side p -> no_price x = p) by (intros; by eapply aw_place).
  assert (Hy : forall s p' y, y ∈ aset A side p (partial o ++ rest) s p' ->
            exists y0, y0 ∈ A s p' /\ (s = side /\ p' = p -> y0 ∈ partial_maker o ++ rest)
              /\ no_priority y = no_priority y0
              /\ no_price y = no_price y0 /\ no_side y = no_side y0
              /\ 0 < order_rem y <= order_rem y0).
  { intros s p' y. unfold aset. case_decide as E.
    - destruct E as [-> ->]. rewrite HA. intros [Hy | Hy]%elem_of_app.
      + destruct o as [[x t] |]; simpl in *; [| set_solver].
        apply list_elem_of_singleton in Hy as ->. specialize (Ho _ _ eq_refl).
        exists x. rewrite order_rem_filled_by. split_and!; try done; try lia.
        * set_solver.
        * intros _. set_solver.
      + exists y. split_and!; try done.
        * set_solver.
        * intros _. set_solver.
        * eapply (aw_pos _ W side p). rewrite HA. set_solver.
    - intros Hy. exists y. split_and!; try done. by eapply aw_pos. }
  constructor.
  - intros x t [Hx Ht]%Hm. assert (Hin : x ∈ A side p) by (rewrite HA; set_solver).
    rewrite (Hp _ Hin). done.
  - pose proof (aw_prio _ W side p) as Hs.
    rewrite HA, app_assoc, map_app in Hs. apply StronglySorted_app in Hs as (_ & Hs & _).
    apply (level_in_order _ p).
    + rewrite map_app, fst_whole. by destruct o as [[? ?] |].
    + intros [x t] [Hx _]%Hm. apply Hp. rewrite HA. set_solver.
  - intros y p' [x t] Hin [Hx _]%Hm. simpl.
    destruct (Hy _ _ _ Hin) as (y0 & Hy0 & Hrest & Hpr & Hpc & _).
    destruct (aw_place _ W _ _ _ Hy0) as [_ Hp0].
    assert (Hxp : no_price x = p) by (apply Hp; rewrite HA; set_solver).
    unfold ahead. rewrite Hpr, Hpc, Hxp, Hp0. intros [Hbad | [-> Hlt]].
    + revert Hbad. apply Hbest. intros E. rewrite E in Hy0. set_solver.
    + pose proof (Hrest (conj eq_refl eq_refl)) as Hin0.
      apply elem_of_app in Hx as [Hx | Hx].
      * pose proof (prio_sorted_app A side p dn (partial_maker o ++ rest) x y0 W HA Hx Hin0). lia.
      * apply elem_of_app in Hin0 as [Hin0 | Hin0].
        -- destruct o as [[z u] |]; simpl in *; [| set_solver].
           apply list_elem_of_singleton in Hx, Hin0. subst. lia.
        -- pose proof (prio_sorted_app A side p (dn ++ partial_maker o) rest x y0 W
             ltac:(by rewrite <- app_assoc) ltac:(set_solver) Hin0). lia.
  - by left.
  - intros s p' Hsp. apply aset_ne. intros [-> ->]. naive_solver.
  - intros s p' y Hin. destruct (Hy _ _ _ Hin) as (y0 & Hy0 & _ & Hr). eauto.
Qed.

Lemma matches_zero side limit A A' rem' fs :
  matches side limit A 0 A' rem' fs -> A' = A /\ rem' = 0 /\ fs = [].
Proof. inversion 1; subst; [done | done | lia]. Qed.

(** Every run of the outer loop is a sequence of trades. *)
Lemma matches_trades side limit A rem A' rem' fs :
  matches side limit A rem A' rem' fs -> awf A -> 0 <= rem ->
  exists ms, fs = fills_of ms /\ trades A side limit rem A' rem' ms.
Proof.
  induction 1 as [A rem -> | A rem Hn | A rem p ys rem1 fs1 A' rem' fs2 Hpos Hbest Hel Eq M IH];
    intros W Hr.
  - exists []. split; [done |]. apply trades_refl; auto.
  - exists []. split; [done |]. apply trades_refl; auto.
  - apply fill_queue_shape in Eq as (Hr1 & _ & dn & Hdn); [| lia |].
    2: { intros x Hx. apply (aw_pos _ W) in Hx. lia. }
    destruct (decide (rem1 = 0)) as [-> | Hnz].
    + apply matches_zero in M as (-> & -> & ->). rewrite app_nil_r.
      destruct Hdn as [(HA & -> & _) | (x & t & rest & HA & Ht & -> & -> & _)].
      * exists (map (fun x => (x, order_rem x)) dn). split.
        { unfold fills_of. by rewrite map_map. }
        rewrite <- (app_nil_r (map _ dn)). by apply (trades_level_end _ _ _ _ _ dn None ys).
      * exists (map (fun x => (x, order_rem x)) dn ++ [(x, t)]). split.
        { unfold fills_of. by rewrite map_app, map_map. }
        apply (trades_level_end _ _ _ _ _ dn (Some (x, t)) rest); try done. naive_solver.
    + destruct Hdn as [(HA & -> & [-> | ?]) | (? & ? & ? & _ & _ & _ & _ & ?)]; try done.
      rewrite app_nil_r in HA. subst.
      destruct IH as (ms & -> & T); [by apply awf_aset_nil | lia |].
      exists (map (fun x => (x, order_rem x)) (A side p) ++ ms). split.
      { unfold fills_of. by rewrite map_app, map_map. }
      by eapply trades_level_full.
Qed.

(** * Fills against the live orders *)

Lemma ref_eligible_spec side p limit :
  Reference.eligible side p limit = true <-> eligible side limit p.
Proof. unfold eligible, better. destruct side; simpl; lia. Qed.

Lemma ahead_irrefl side x : ~ ahead side x x.
Proof. unfold ahead. pose proof (better_irrefl side (no_price x)). intuition lia. Qed.

(** Each fill takes a live maker on [side] at an eligible price, as the
    earlier fills left it. *)
Fixpoint fills_valid (side : Side.t) (limit : Z) (m : gmap OrderId NewOrder) (fs : list Fill)
  : Prop :=
  match fs with
  | [] => True
  | f :: fs =>
      (exists x t, m !! no_order_id x = Some x /\ f = fill_of x t /\ no_side x = side
         /\ eligible side limit (no_price x) /\ 0 < t <= order_rem x)
      /\ fills_valid side limit (apply_fill m f) fs
  end.

Lemma apply_fill_lookup_ne m f id :
  id <> fill_maker_order_id f -> apply_fill m f !! id = m !! id.
Proof.
  intros Hne. unfold apply_fill. destruct (m !! fill_maker_order_id f); [| done].
  case_match; [by rewrite lookup_delete_ne | by rewrite lookup_insert_ne].
Qed.

Lemma makers_fills_valid side limit m ms :
  (forall x t, (x, t) ∈ ms -> m !! no_order_id x = Some x /\ no_side x = side
     /\ eligible side limit (no_price x) /\ 0 < t <= order_rem x) ->
  StronglySorted (fun m1 m2 => ahead side m1.1 m2.1) ms ->
  fills_valid side limit m (fills_of ms).
Proof.
  revert m. induction ms as [| [x t] ms IH]; intros m Hm Hs; simpl; [done |].
  apply StronglySorted_inv in Hs as [Hs Hf]. split.
  - exists x, t. destruct (Hm x t ltac:(set_solver)) as (? & ? & ? & ?). split_and!; done || lia.
  - apply IH; [| done]. intros y u Hy. destruct (Hm y u ltac:(set_solver)) as (Hy1 & Hy2).
    split; [| done]. rewrite apply_fill_lookup_ne; [done |]. simpl. intros E.
    destruct (Hm x t ltac:(set_solver)) as (Hx1 & _). rewrite E, Hx1 in Hy1. simplify_eq.
    rewrite Forall_forall in Hf. apply Hf in Hy. by apply ahead_irrefl in Hy.
Qed.

(** The effect of one valid fill on the live orders. *)
Lemma apply_fill_of m x t :
  m !! no_order_id x = Some x ->
  apply_fill m (fill_of x t)
  = if t =? order_rem x then delete (no_order_id x) m
    else <[no_order_id x := filled_by x t]> m.
Proof.
  intros Hx. unfold apply_fill. simpl. rewrite Hx.
  by replace (order_rem x - t =? 0) with (t =? order_rem x) by lia.
Qed.

(** A per-order quantity that drops by what is filled. *)
Lemma msum_apply_fill m x t (g : NewOrder -> Z) d :
  m !! no_order_id x = Some x -> g (filled_by x t) = g x - d ->
  (t = order_rem x -> g x = d) -> msum g (apply_fill m (fill_of x t)) = msum g m - d.
Proof.
  intros Hx Hg Hz. rewrite (apply_fill_of _ _ _ Hx). destruct (Z.eqb_spec t (order_rem x)).
  - rewrite (msum_delete _ _ _ _ Hx). rewrite Hz by done. lia.
  - rewrite (msum_update _ _ _ _ _ Hx). lia.
Qed.

(** What rests on [side] at a price eligible for [limit]. *)
Definition eligible_rem (side : Side.t) (limit : Z) (x : NewOrder) : Z :=
  if bool_decide (no_side x = side) && Reference.eligible side (no_price x) limit
  then order_rem x else 0.

Lemma msum_fills_valid side limit m fs :
  fills_valid side limit m fs ->
  msum (eligible_rem side limit) (apply_fills m fs)
  = msum (eligible_rem side limit) m - filled_quantity fs.
Proof.
  revert m. induction fs as [| f fs IH]; intros m; simpl; [lia |].
  intros [(x & t & Hx & -> & Hs & Hel & Ht) Hv]. rewrite IH by done.
  rewrite (msum_apply_fill m x t _ t Hx).
  - simpl. lia.
  - unfold eligible_rem. simpl. rewrite order_rem_filled_by.
    rewrite bool_decide_eq_true_2 by done. simpl. by rewrite (proj2 (ref_eligible_spec _ _ _) Hel).
  - intros ->. unfold eligible_rem. rewrite bool_decide_eq_true_2 by done. simpl.
    by rewrite (proj2 (ref_eligible_spec _ _ _) Hel).
Qed.
