(* ===== verification/RefineRef.v ===== *)
(** The indexed book refines the reference book.

    [sim b rb] relates the two through the abstract book of [BookSpec]; every
    operation preserves it and returns the same result, and related books have
    the same canonical rows. *)

From Stdlib Require Import Sorted.
From stdpp Require Import sorting.
From S2P Require Import Prelude Enums Ids BTree Slab Book BookData BookInv BookCheck BookSpec.
From S2P Require Import Matching MatchSpec MatchProps Reference.

(** What the reference book keeps of an order and of a fill. *)
Definition ref_of (x : NewOrder) : ReferenceOrder :=
  mkReferenceOrder (no_order_id x) (no_priority x) (no_total_quantity x)
    (no_cumulative_filled x).

Definition ref_fill_of (f : Fill) : ReferenceFill :=
  mkReferenceFill (fill_maker_order_id f) (fill_price f) (fill_quantity f)
    (fill_maker_remaining f).

Definition ref_level (xs : list NewOrder) : option (list ReferenceOrder) :=
  match xs with
  | [] => None
  | _ => Some (map ref_of xs)
  end.

Definition rrepr (rb : ReferenceBook) (A : abook) : Prop :=
  forall side, BTree.sorted (Reference.side_mut rb side)
    /\ forall p, BTree.get p (Reference.side_mut rb side) = ref_level (A side p).

(** Ids are unique in the abstract book. *)
Definition ids_unique (A : abook) : Prop :=
  (forall s p s' p' x y, x ∈ A s p -> y ∈ A s' p' -> no_order_id x = no_order_id y ->
     x = y /\ s = s' /\ p = p')
  /\ forall s p, NoDup (map no_order_id (A s p)).

(** Writing back one queue: an empty one is removed. *)
Definition write_back (rb : ReferenceBook) (side : Side.t) (p : Z) (os : list ReferenceOrder)
  : ReferenceBook :=
  Reference.set_side rb side
    (match os with
     | [] => BTree.remove p (Reference.side_mut rb side)
     | _ => BTree.insert p os (Reference.side_mut rb side)
     end).

Lemma side_mut_set_side rb side l side' :
  Reference.side_mut (Reference.set_side rb side l) side'
  = if decide (side' = side) then l else Reference.side_mut rb side'.
Proof. by destruct side, side'. Qed.

Lemma write_back_rrepr rb A side p xs :
  rrepr rb A -> rrepr (write_back rb side p (map ref_of xs)) (aset A side p xs).
Proof.
  intros R s. destruct (R s) as [Hs Hg]. destruct (R side) as [Hs' Hg'].
  unfold write_back. rewrite side_mut_set_side. unfold aset.
  destruct (decide (s = side)) as [-> |].
  - destruct xs as [| x xs]; simpl.
    + split; [by apply BTree.sorted_remove |]. intros p'.
      rewrite BTree.get_remove, Hg' by done. repeat case_decide; naive_solver.
    + split; [by apply BTree.sorted_insert |]. intros p'.
      rewrite BTree.get_insert, Hg'. repeat case_decide; naive_solver.
  - split; [done |]. intros p'. rewrite Hg. case_decide; naive_solver.
Qed.

(** * Matching *)

Lemma ref_remaining_ok x : order_wf x -> ref_remaining (ref_of x) = Ret (order_rem x).
Proof. intros Hwf. apply u64_plain_in. unfold order_wf, order_rem in *. simpl. mach. Qed.

Lemma match_queue_spec fuel p xs rem fills ys rem' fs :
  (forall x, x ∈ xs -> order_wf x /\ no_price x = p) -> in_u64 rem ->
  (length xs < fuel)%nat -> fill_queue rem xs = (ys, rem', fs) ->
  Reference.match_queue fuel p (map ref_of xs) rem fills
  = Ret (map ref_of ys, rem', fills ++ map ref_fill_of fs).
Proof.
  revert xs rem fills ys rem' fs. induction fuel as [| fuel IH];
    intros xs rem fills ys rem' fs Hx Hrem Hf Eq; [lia |].
  destruct xs as [| x xs]; simpl in *.
  { injection Eq as <- <- <-. rewrite app_nil_r. by destruct (0 <? rem). }
  destruct (Z.ltb_spec 0 rem).
  2: { injection Eq as <- <- <-. by rewrite app_nil_r. }
  destruct (Hx x ltac:(set_solver)) as [Hwf Hp].
  assert (Hw : 0 <= order_rem x) by (unfold order_wf, order_rem in *; lia).
  rewrite (ref_remaining_ok _ Hwf). simpl. set (traded := Z.min rem (order_rem x)) in *.
  rewrite u64_plain_in by (unfold order_wf, order_rem in *; simpl; mach). simpl.
  rewrite u64_plain_in by mach. simpl.
  change (mkReferenceOrder _ _ _ _) with (ref_of (filled_by x traded)).
  rewrite ref_remaining_ok by (unfold order_wf, order_rem in *; simpl; lia).
  simpl. rewrite order_rem_filled_by. unfold QuantityLots.is_zero.
  replace (order_rem x - traded =? 0) with (traded =? order_rem x) by lia.
  destruct (Z.eqb_spec traded (order_rem x)) as [E | E].
  - destruct (fill_queue (rem - traded) xs) as [[ys0 rem0] fs0] eqn:Eq0.
    injection Eq as <- <- <-. erewrite IH; [| | mach | lia | exact Eq0].
    + rewrite <- app_assoc. simpl. unfold ref_fill_of at 2. simpl. by rewrite Hp.
    + intros y Hy. apply Hx. set_solver.
  - injection Eq as <- <- <-. assert (rem - traded = 0) as -> by lia.
    destruct fuel; [lia |]. simpl. unfold ref_fill_of. simpl. by rewrite Hp.
Qed.

(** Well-formedness along a match. *)
Definition awf_orders (A : abook) : Prop :=
  forall side p x, x ∈ A side p -> order_wf x /\ no_price x = p.

Lemma awf_orders_aset_nil A side p : awf_orders A -> awf_orders (aset A side p []).
Proof. intros H s p' x [Hx _]%aset_nil_elem. by eapply H. Qed.

(** The best price of the reference book. *)
Lemma ref_best_spec rb A side :
  rrepr rb A ->
  match Reference.best_price rb side with
  | Some p => best_price A side p
  | None => forall p, A side p = []
  end.
Proof.
  intros R. destruct (R side) as [Hs Hg].
  assert (Hsome : forall p, A side p <> [] ->
            exists os, BTree.get p (Reference.side_mut rb side) = Some os).
  { intros p Hp. rewrite Hg. destruct (A side p); [done | simpl; eauto]. }
  assert (Hne : forall p os, BTree.get p (Reference.side_mut rb side) = Some os -> A side p <> []).
  { intros p os. rewrite Hg. by destruct (A side p). }
  unfold Reference.best_price, best_price. destruct side; simpl in *.
  - destruct (BTree.last (ref_bids rb)) as [[p os] |] eqn:E; simpl.
    + split; [eapply Hne; by apply BTree.last_get |].
      intros p' [os' Hos']%Hsome. pose proof (BTree.last_max _ _ _ _ _ Hs E Hos'). lia.
    + apply BTree.last_None in E. intros p. specialize (Hg p). rewrite E in Hg. simpl in Hg.
      by destruct (A Side.Buy p).
  - destruct (BTree.first (ref_asks rb)) as [[p os] |] eqn:E; simpl.
    + split; [eapply Hne; by apply BTree.first_get |].
      intros p' [os' Hos']%Hsome. pose proof (BTree.first_min _ _ _ _ _ Hs E Hos'). lia.
    + apply BTree.first_None in E. intros p. specialize (Hg p). rewrite E in Hg. simpl in Hg.
      by destruct (A Side.Sell p).
Qed.

Lemma best_price_unique A side p p' : best_price A side p -> best_price A side p' -> p = p'.
Proof.
  intros [H1 H2] [H3 H4]. specialize (H2 _ H3). specialize (H4 _ H1).
  destruct side; simpl in *; lia.
Qed.

Lemma ref_match_prices_spec side limit A rem A' rem' fs rb fills fuel :
  matches side limit A rem A' rem' fs -> rrepr rb A -> awf_orders A -> in_u64 rem ->
  (length (Reference.side_mut rb side) < fuel)%nat ->
  exists rb', Reference.match_prices fuel rb side limit rem fills
              = Ret (rb', rem', fills ++ map ref_fill_of fs) /\ rrepr rb' A'.
Proof.
  intros M. revert rb fills fuel.
  induction M as [A rem -> | A rem Hn | A rem p ys rem1 fs1 A' rem' fs2 Hpos Hbest Hel Eq M IH];
    intros rb fills [| fuel] R W Hrem Hf; try lia; cbn [Reference.match_prices].
  - exists rb. rewrite app_nil_r. done.
  - exists rb. rewrite app_nil_r. split; [| done]. destruct (0 <? rem); [| done].
    pose proof (ref_best_spec rb A side R) as Hb.
    destruct (Reference.best_price rb side) as [p |]; [| done].
    destruct (Reference.eligible side p limit) eqn:E; [| done].
    apply ref_eligible_spec in E. by destruct (Hn p (proj1 Hb)).
  - replace (0 <? rem) with true by lia.
    pose proof (ref_best_spec rb A side R) as Hb. destruct (R side) as [Hs Hg].
    destruct (Reference.best_price rb side) as [p' |]; [| by destruct (proj1 Hbest)].
    pose proof (best_price_unique _ _ _ _ Hbest Hb) as <-.
    apply ref_eligible_spec in Hel as E. rewrite E. cbn [negb].
    assert (Hget : BTree.get p (Reference.side_mut rb side) = Some (map ref_of (A side p))).
    { rewrite Hg. destruct Hbest as [Hne _]. by destruct (A side p). }
    rewrite Hget. cbn [unwrap rbind].
    erewrite match_queue_spec; [| apply W | done | by rewrite length_map; apply Nat.lt_succ_diag_r | done].
    cbn [rbind].
    pose proof (write_back_rrepr rb A side p ys R) as R1. unfold write_back in R1.
    apply fill_queue_shape in Eq as (Hr1 & _ & dn & Hdn); [| mach |].
    2: { intros x Hx. destruct (W _ _ _ Hx) as [Hw _]. unfold order_wf, order_rem in *. lia. }
    assert (Hlen : (0 < length (Reference.side_mut rb side))%nat).
    { destruct (Reference.side_mut rb side); [done | simpl; lia]. }
    destruct (decide (rem1 = 0)) as [-> | Hnz].
    + apply matches_zero in M as (-> & -> & ->). rewrite app_nil_r.
      destruct fuel; [lia |]. eexists. split; [done |]. done.
    + destruct Hdn as [(HA & -> & [-> | ?]) | (? & ? & ? & _ & _ & _ & _ & ?)]; try done.
      destruct (IH (Reference.set_side rb side
                      (BTree.remove p (Reference.side_mut rb side)))
                  (fills ++ map ref_fill_of (map (fun x => fill_of x (order_rem x)) dn)) fuel)
        as (rb' & E1 & R'); [done | by apply awf_orders_aset_nil | mach | |].
      { rewrite side_mut_set_side, decide_True by done.
        pose proof (BTree.length_remove _ _ _ Hget). lia. }
      exists rb'. split; [| done]. cbn [map]. rewrite E1. by rewrite map_app, app_assoc.
Qed.

(** * Searching by id *)

Lemma take_order_none id xs :
  id ∉ map no_order_id xs -> Reference.take_order id (map ref_of xs) = None.
Proof.
  induction xs as [| x xs IH]; intros Hn; [done |]. simpl in *.
  destruct (Z.eqb_spec (no_order_id x) id); [set_solver |]. rewrite IH; set_solver.
Qed.

Lemma take_order_some x l1 l2 :
  no_order_id x ∉ map no_order_id l1 ->
  Reference.take_order (no_order_id x) (map ref_of (l1 ++ x :: l2))
  = Some (ref_of x, map ref_of (l1 ++ l2)).
Proof.
  induction l1 as [| y l1 IH]; intros Hn; simpl in *.
  - by rewrite Z.eqb_refl.
  - destruct (Z.eqb_spec (no_order_id y) (no_order_id x)) as [E | E]; [set_solver |].
    rewrite IH; [done | set_solver].
Qed.

Lemma set_total_none id t xs :
  id ∉ map no_order_id xs -> Reference.set_total id t (map ref_of xs) = None.
Proof.
  induction xs as [| x xs IH]; intros Hn; [done |]. simpl in *.
  destruct (Z.eqb_spec (no_order_id x) id); [set_solver |]. rewrite IH; set_solver.
Qed.

Lemma set_total_some x t l1 l2 :
  no_order_id x ∉ map no_order_id l1 ->
  Reference.set_total (no_order_id x) t (map ref_of (l1 ++ x :: l2))
  = Some (map ref_of (l1 ++ with_total x t :: l2)).
Proof.
  induction l1 as [| y l1 IH]; intros Hn; simpl in *.
  - by rewrite Z.eqb_refl.
  - destruct (Z.eqb_spec (no_order_id y) (no_order_id x)) as [E | E]; [set_solver |].
    rewrite IH; [done | set_solver].
Qed.

(** The level scans, for a map whose level at [p] is the only one with the order. *)
Lemma find_level_none id (ls : BTreeMap (list ReferenceOrder)) :
  (forall p os, (p, os) ∈ ls -> Reference.take_order id os = None) ->
  Reference.find_level id ls = None.
Proof.
  induction ls as [| [p os] ls IH]; intros H; simpl; [done |].
  rewrite (H p os) by set_solver. apply IH. set_solver.
Qed.

Lemma find_level_some id p r (ls : BTreeMap (list ReferenceOrder)) os :
  BTree.get p ls = Some os -> Reference.take_order id os = Some r ->
  (forall p' os', (p', os') ∈ ls -> p' <> p -> Reference.take_order id os' = None) ->
  Reference.find_level id ls = Some (p, r.1, r.2).
Proof.
  induction ls as [| [p0 os0] ls IH]; simpl; intros Hg Ht Hn; [done |].
  destruct (Z.eqb_spec p p0) as [-> | Hne].
  - injection Hg as ->. rewrite Ht. by destruct r.
  - rewrite (Hn p0 os0) by set_solver. apply IH; [done.. | set_solver].
Qed.

Lemma set_total_levels_none id t (ls : BTreeMap (list ReferenceOrder)) :
  (forall p os, (p, os) ∈ ls -> Reference.set_total id t os = None) ->
  Reference.set_total_levels id t ls = None.
Proof.
  induction ls as [| [p os] ls IH]; intros H; simpl; [done |].
  rewrite (H p os) by set_solver. rewrite IH; set_solver.
Qed.

Lemma set_total_levels_some id t p (ls : BTreeMap (list ReferenceOrder)) os os' :
  BTree.sorted ls -> BTree.get p ls = Some os -> Reference.set_total id t os = Some os' ->
  (forall p' o, (p', o) ∈ ls -> p' <> p -> Reference.set_total id t o = None) ->
  Reference.set_total_levels id t ls = Some (BTree.insert p os' ls).
Proof.
  induction ls as [| [p0 os0] ls IH]; simpl; intros Hs Hg Ht Hn; [done |].
  apply BTree.sorted_cons_inv in Hs as [Hs Hlt].
  destruct (Z.eqb_spec p p0) as [-> | Hne].
  - injection Hg as ->. rewrite Ht. by rewrite Z.ltb_irrefl.
  - rewrite (Hn p0 os0) by set_solver. rewrite IH; [| done.. | set_solver].
    assert (p0 < p) by (apply (Hlt (p, os)); by apply BTree.get_elem).
    by replace (p <? p0) with false by lia.
Qed.

Section Refine.
Context {S : Type} `{SL : Slab OrderNode S} `{!SlabLaws SL}.
Implicit Types (b : OrderBook S) (A : abook) (rb : ReferenceBook).

Definition sim (b : OrderBook S) (rb : ReferenceBook) : Prop :=
  exists A, repr b A /\ rrepr rb A.

Lemma repr_awf_orders b A : repr b A -> awf_orders A.
Proof.
  intros R side p x Hx. eapply repr_elem in Hx as (_ & Hp & Hl); [| done].
  split; [by eapply repr_wf | done].
Qed.

Lemma repr_ids b A s p s' p' x y :
  repr b A -> x ∈ A s p -> y ∈ A s' p' -> no_order_id x = no_order_id y ->
  x = y /\ s = s' /\ p = p'.
Proof.
  intros R Hx Hy Hid. eapply repr_elem in Hx as (<- & <- & Hx); [| done].
  eapply repr_elem in Hy as (<- & <- & Hy); [| done]. rewrite Hid, Hy in Hx. by simplify_eq.
Qed.

(** An order is at most once in its queue. *)
Lemma repr_ids_before b A s p l1 x l2 :
  repr b A -> A s p = l1 ++ x :: l2 -> no_order_id x ∉ map no_order_id l1.
Proof.
  intros R HA (y & Hid & Hy)%list_elem_of_In%in_map_iff. apply list_elem_of_In in Hy.
  destruct (repr_ids b A s p s p x y) as [<- _]; [done | rewrite HA; set_solver.. | done |].
  pose proof (repr_prio b A s p R) as Hs. rewrite HA, map_app in Hs.
  apply StronglySorted_app in Hs as (Hs & _ & _).
  assert (no_priority x < no_priority x); [| lia]. apply Hs; [| set_solver].
  by apply list_elem_of_In, in_map, list_elem_of_In.
Qed.

(** The levels of the reference book that do not hold an order. *)
Lemma rrepr_elem rb A side p os :
  rrepr rb A -> (p, os) ∈ Reference.side_mut rb side ->
  os = map ref_of (A side p) /\ A side p <> [].
Proof.
  intros R Hin. destruct (R side) as [Hs Hg]. apply BTree.elem_get in Hin; [| done].
  rewrite Hg in Hin. destruct (A side p); [done |]. by simplify_eq/=.
Qed.

Lemma not_in_level b A side p x :
  repr b A -> live b !! no_order_id x = Some x -> (side, p) <> (no_side x, no_price x) ->
  no_order_id x ∉ map no_order_id (A side p).
Proof.
  intros R Hl Hne (y & Hid & Hy)%list_elem_of_In%in_map_iff. apply list_elem_of_In in Hy.
  apply Hne. pose proof (repr_live_elem b A _ _ R Hl) as Hx.
  destruct (repr_ids b A _ _ _ _ _ _ R Hy Hx Hid) as (_ & -> & ->). done.
Qed.

Lemma dead_in_level b A side p id :
  repr b A -> live b !! id = None -> id ∉ map no_order_id (A side p).
Proof.
  intros R Hl (y & <- & Hy)%list_elem_of_In%in_map_iff. apply list_elem_of_In in Hy.
  eapply repr_elem in Hy as (_ & _ & Hy); [| done]. congruence.
Qed.

(** Where [find_level] looks on each side. *)
Lemma find_level_side b rb A x side l1 l2 :
  repr b A -> rrepr rb A -> live b !! no_order_id x = Some x ->
  A (no_side x) (no_price x) = l1 ++ x :: l2 ->
  Reference.find_level (no_order_id x) (Reference.side_mut rb side)
  = if decide (side = no_side x) then Some (no_price x, ref_of x, map ref_of (l1 ++ l2))
    else None.
Proof.
  intros R RR Hl HA. case_decide as E; [subst side |].
  - destruct (RR (no_side x)) as [Hs Hg].
    apply (find_level_some _ _ (ref_of x, map ref_of (l1 ++ l2)) _
             (map ref_of (A (no_side x) (no_price x)))).
    + rewrite Hg. destruct (A (no_side x) (no_price x)); [by destruct l1 | done].
    + rewrite HA. apply take_order_some. by eapply repr_ids_before.
    + intros p' os' [-> _]%(rrepr_elem _ _ _ _ _ RR) Hne. apply take_order_none.
      eapply not_in_level; [done.. |]. congruence.
  - apply find_level_none. intros p os [-> _]%(rrepr_elem _ _ _ _ _ RR).
    apply take_order_none. eapply not_in_level; [done.. |]. congruence.
Qed.

Lemma find_level_dead b rb A id side :
  repr b A -> rrepr rb A -> live b !! id = None ->
  Reference.find_level id (Reference.side_mut rb side) = None.
Proof.
  intros R RR Hl. apply find_level_none. intros p os [-> _]%(rrepr_elem _ _ _ _ _ RR).
  apply take_order_none. by eapply dead_in_level.
Qed.

(** * The operations *)

Lemma sim_new cap : sim (Book.with_capacity cap) Reference.new.
Proof.
  exists (fun _ _ => []). split; [apply with_capacity_repr |].
  intros []; simpl; (split; [apply BTree.sorted_nil | done]).
Qed.

Lemma sim_insert b rb x :
  sim b rb -> order_wf x -> live b !! no_order_id x = None ->
  (forall id y, live b !! id = Some y -> no_priority y < no_priority x) ->
  insert_ok b x ->
  exists b', Book.insert b x = Ret (b', Ok tt)
    /\ sim b' (Reference.insert rb (no_side x) (no_price x) (ref_of x))
    /\ live b' = <[no_order_id x := x]> (live b).
Proof.
  intros (A & R & RR) Hwf Hn Hp Hok.
  destruct (insert_repr b A x R Hwf Hn) as (b' & -> & R' & L' & _); [| done |].
  { intros y Hy. eapply repr_elem in Hy as (_ & _ & Hy); [| done]. eauto. }
  exists b'. split_and!; try done. eexists. split; [done |].
  pose proof (write_back_rrepr rb A (no_side x) (no_price x)
                (A (no_side x) (no_price x) ++ [x]) RR) as RR'.
  unfold write_back in RR'. rewrite map_app in RR'. unfold Reference.insert.
  destruct (RR (no_side x)) as [_ Hg]. rewrite Hg.
  assert (default [] (ref_level (A (no_side x) (no_price x)))
          = map ref_of (A (no_side x) (no_price x))) as ->
      by (by destruct (A (no_side x) (no_price x))).
  by destruct (map ref_of (A (no_side x) (no_price x))).
Qed.

Lemma sim_remove b rb id :
  sim b rb ->
  exists b', Book.remove b id = Ret (b', match live b !! id with
                                         | Some _ => match order_index b !! id with
                                                     | Some slot => view b !! slot
                                                     | None => None
                                                     end
                                         | None => None
                                         end)
    /\ (Reference.remove rb id).2
       = (fun x => (no_side x, no_price x, ref_of x)) <$> live b !! id
    /\ sim b' (Reference.remove rb id).1 /\ live b' = delete id (live b).
Proof.
  intros (A & R & RR). unfold Reference.remove, Reference.remove_side.
  destruct (live b !! id) as [x |] eqn:Hl.
  - pose proof (repr_live_id b A _ _ R Hl) as <-.
    destruct (remove_repr b A x R Hl) as (o & b' & l1 & l2 & E & Hd & HA & R' & L' & _).
    exists b'. rewrite E. rewrite !(find_level_side b rb A x _ l1 l2 R RR Hl HA).
    split.
    { pose proof R as (q & B & _). do 2 f_equal.
      destruct (live_lookup b q (no_order_id x) x B) as [Hlk _].
      destruct (Hlk Hl) as (_ & s & Hs & _).
      destruct (remove_spec b q _ s B Hs) as (o' & b'' & ? & ? & Ho' & _ & E' & _).
      rewrite Hs, Ho'. congruence. }
    pose proof (write_back_rrepr rb A (no_side x) (no_price x) (l1 ++ l2) RR) as RR'.
    unfold write_back in RR'.
    destruct (no_side x) eqn:Es; rewrite ?Es in *; simpl in *.
    + split; [by rewrite Es |]. split; [| done]. eexists. split; [done |].
      by destruct (map ref_of (l1 ++ l2)).
    + split; [by rewrite Es |]. split; [| done]. eexists. split; [done |].
      by destruct (map ref_of (l1 ++ l2)).
  - exists b. rewrite remove_none by (by eapply repr_index_None).
    rewrite !(find_level_dead b rb A id _ R RR Hl). simpl. split_and!; try done.
    + by exists A.
    + by rewrite delete_id.
Qed.

Lemma sim_reduce b rb x new_total :
  sim b rb -> live b !! no_order_id x = Some x ->
  no_cumulative_filled x <= new_total <= no_total_quantity x ->
  exists b', Book.reduce_total b (no_order_id x) new_total = Ret b'
    /\ sim b' (Reference.reduce_total rb (no_order_id x) new_total)
    /\ live b' = <[no_order_id x := with_total x new_total]> (live b).
Proof.
  intros (A & R & RR) Hl Ht.
  destruct (reduce_total_repr b A x new_total R Hl Ht) as (b' & l1 & l2 & -> & HA & R' & L' & _).
  exists b'. split_and!; try done. eexists. split; [done |].
  assert (Hside : Reference.set_total_levels (no_order_id x) new_total
                    (Reference.side_mut rb (no_side x))
                  = Some (BTree.insert (no_price x) (map ref_of (l1 ++ with_total x new_total :: l2))
                            (Reference.side_mut rb (no_side x)))).
  { destruct (RR (no_side x)) as [Hs Hg].
    apply (set_total_levels_some _ _ _ _ (map ref_of (A (no_side x) (no_price x)))); try done.
    - rewrite Hg. destruct (A (no_side x) (no_price x)); [by destruct l1 | done].
    - rewrite HA. apply set_total_some. exact (repr_ids_before b A _ _ _ _ _ R HA).
    - intros p' os' [-> _]%(rrepr_elem _ _ _ _ _ RR) Hne. apply set_total_none.
      apply (not_in_level b); [done.. |]. congruence. }
  assert (Hother : no_side x = Side.Sell ->
            Reference.set_total_levels (no_order_id x) new_total (ref_bids rb) = None).
  { intros E. apply set_total_levels_none.
    intros p os [-> _]%(rrepr_elem rb A Side.Buy p os RR). apply set_total_none.
    apply (not_in_level b); [done.. |]. congruence. }
  pose proof (write_back_rrepr rb A (no_side x) (no_price x)
                (l1 ++ with_total x new_total :: l2) RR) as RR'.
  unfold write_back in RR'. unfold Reference.reduce_total.
  destruct (map ref_of (l1 ++ with_total x new_total :: l2)) eqn:Em.
  { by destruct l1. }
  destruct (no_side x) eqn:Es; rewrite ?Es in *; simpl in *.
  - by rewrite Hside.
  - by rewrite Hother, Hside.
Qed.

Lemma sim_match b rb taker limit quantity :
  sim b rb -> in_u64 quantity ->
  exists b' rb' fs filled,
    match_order b taker limit quantity [] = Ret (b', fs, filled)
    /\ Reference.match_order rb taker limit quantity []
       = Ret (rb', map ref_fill_of fs, filled)
    /\ sim b' rb' /\ live b' = apply_fills (live b) fs.
Proof.
  intros (A & R & RR) Hq.
  destruct (match_order_repr b A taker limit quantity [] R Hq)
    as (b' & A' & rem & fs & -> & M & Hr & Hs & R' & _ & L').
  destruct (ref_match_prices_spec _ _ _ _ _ _ _ rb []
              (Datatypes.S (length (Reference.side_mut rb (Side.opposite taker))))
              M RR (repr_awf_orders b A R) Hq) as (rb' & E & RR'); [lia |].
  exists b', rb', fs, (quantity - rem). unfold Reference.match_order. rewrite E. cbn [rbind].
  rewrite u64_plain_in by mach. split_and!; try done. by exists A'.
Qed.

(** * The canonical rows *)

Definition row_of (x : NewOrder) : OrderId * QuantityLots * PrioritySeq :=
  (no_order_id x, order_rem x, no_priority x).

Definition rows_at (A : abook) (side : Side.t) (ps : list Z) : list BookRow :=
  map (fun p => (side, p, map row_of (A side p))) ps.

Lemma ref_snapshot_levels rb A side ls :
  rrepr rb A -> awf_orders A -> (forall pl, pl ∈ ls -> pl ∈ Reference.side_mut rb side) ->
  Reference.snapshot_levels side ls = Ret (rows_at A side (map fst ls)).
Proof.
  intros R W. induction ls as [| [p os] ls IH]; intros Hin; simpl; [done |].
  destruct (rrepr_elem rb A side p os R) as [-> _]; [apply Hin; set_solver |].
  assert (forall xs, (forall x, x ∈ xs -> order_wf x) ->
            Reference.canonical_orders (map ref_of xs) = Ret (map row_of xs)) as Hc.
  { induction xs as [| x xs IHx]; intros Hx; simpl; [done |].
    rewrite ref_remaining_ok by (apply Hx; set_solver). simpl.
    rewrite IHx by set_solver. done. }
  rewrite Hc by (intros; by eapply W). simpl. rewrite IH; [done | set_solver].
Qed.

Lemma book_row_orders_spec b q ss :
  binv b q -> (forall s, s ∈ ss -> is_Some (view b !! s)) ->
  book_row_orders (nodes b ss) = Ret (map row_of (contents (data b) ss)).
Proof.
  intros B. induction ss as [| s ss IH]; intros Hin; [done |].
  destruct (Hin s ltac:(set_solver)) as [o Ho].
  assert (Hx : data b !! s = Some (node_data o)) by (apply data_lookup; eauto).
  rewrite (nodes_cons _ _ _ _ Ho), contents_cons, Hx. simpl.
  destruct (node_level _ _ _ _ B Ho) as (Hwf & _). rewrite (remaining_ok _ Hwf). simpl.
  rewrite IH; [done | set_solver].
Qed.

Lemma snapshot_levels_rows b q A side ls :
  binv b q -> holds b q A ->
  (let! rows := Book.snapshot_levels b side ls in book_rows_of rows)
  = Ret (rows_at A side (map fst ls)).
Proof.
  intros B H. induction ls as [| [p l] ls IH]; simpl; [done |].
  rewrite (level_orders_spec _ _ _ _ B). simpl.
  destruct (Book.snapshot_levels b side ls) as [rows |]; [| done]. simpl in *.
  erewrite book_row_orders_spec; [| done |].
  - simpl. rewrite IH. simpl. by rewrite H.
  - intros s Hs. eapply chain_elem; [apply (lk_chain _ _ _ (bi_linked _ _ B)) | done].
Qed.

Lemma book_rows_of_app r1 r2 :
  book_rows_of (r1 ++ r2)
  = let! a := book_rows_of r1 in let! c := book_rows_of r2 in Ret (a ++ c).
Proof.
  induction r1 as [| [[side p] os] r1 IH]; simpl; [by destruct (book_rows_of r2) |].
  destruct (book_row_orders os); simpl; [| done]. rewrite IH.
  destruct (book_rows_of r1); simpl; [| done]. by destruct (book_rows_of r2).
Qed.

(** Related books have the same canonical rows. *)
Lemma sim_rows b rb :
  sim b rb -> exists rows, book_rows b = Ret rows /\ Reference.snapshot rb = Ret rows.
Proof.
  intros (A & R & RR). pose proof R as (q & B & H).
  assert (Hkeys : forall side, map fst (Book.side_levels b side)
                               = map fst (Reference.side_mut rb side)).
  { intros side. destruct (RR side) as [Hs Hg].
    apply BTree.keys_ext; [by eapply repr_sorted | done |]. intros p. rewrite Hg.
    pose proof (repr_level b A side p R) as Hl.
    destruct (BTree.get p (Book.side_levels b side)).
    - destruct Hl as [Hne _]. destruct (A side p); [done |]. simpl. split; eauto.
    - rewrite Hl. simpl. split; intros []; done. }
  exists (rows_at A Side.Buy (map fst (rev (bids b))) ++ rows_at A Side.Sell (map fst (asks b))).
  split.
  - unfold book_rows, Book.snapshot.
    pose proof (snapshot_levels_rows b q A Side.Buy (Book.levels b Side.Buy) B H) as E1.
    pose proof (snapshot_levels_rows b q A Side.Sell (Book.levels b Side.Sell) B H) as E2.
    destruct (Book.snapshot_levels b Side.Buy _) as [r1 |]; [| done].
    destruct (Book.snapshot_levels b Side.Sell _) as [r2 |]; [| done].
    cbn [rbind] in *. by rewrite book_rows_of_app, E1, E2.
  - unfold Reference.snapshot. pose proof (repr_awf_orders b A R) as W.
    rewrite (ref_snapshot_levels rb A Side.Buy (rev (ref_bids rb))); [| done | done |].
    2: { intros pl Hpl. rewrite list_elem_of_In in *. by apply in_rev. }
    rewrite (ref_snapshot_levels rb A Side.Sell (ref_asks rb)); [| done..]. cbn [rbind].
    pose proof (Hkeys Side.Buy) as H1. pose proof (Hkeys Side.Sell) as H2. simpl in H1, H2.
    by rewrite !map_rev, H1, H2.
Qed.

End Refine.
