(* ===== verification/BookTheorems.v ===== *)
(** The properties of the matching book: agreement with the reference book on
    every run of operations, the structural checker's verdict, price-time
    priority, and the exact fill quantity. *)

From Stdlib Require Import Sorted.
From stdpp Require Import sorting.
From S2P Require Import Prelude Enums Ids BTree Slab Book BookData BookInv BookCheck BookSpec.
From S2P Require Import Matching MatchSpec MatchProps Reference RefineRef.

(** * Runs of book operations *)

Inductive BookOp :=
| OpInsert (order : NewOrder)
| OpRemove (order_id : OrderId)
| OpReduce (order_id : OrderId) (new_total : QuantityLots)
| OpMatch (taker : Side.t) (limit : PriceTicks) (quantity : QuantityLots).

(** What a run shows of each operation. *)
Inductive BookObs :=
| ObsInserted
| ObsRejected
| ObsRemoved (r : option (Side.t * PriceTicks * ReferenceOrder))
| ObsReduced
| ObsMatched (fills : list ReferenceFill) (filled : QuantityLots).

Definition ref_step (rb : ReferenceBook) (op : BookOp) : res (ReferenceBook * BookObs) :=
  match op with
  | OpInsert x =>
      Ret (Reference.insert rb (no_side x) (no_price x) (ref_of x), ObsInserted)
  | OpRemove id => let '(rb', r) := Reference.remove rb id in Ret (rb', ObsRemoved r)
  | OpReduce id total => Ret (Reference.reduce_total rb id total, ObsReduced)
  | OpMatch taker limit quantity =>
      let! (rb', fs, filled) := Reference.match_order rb taker limit quantity [] in
      Ret (rb', ObsMatched fs filled)
  end.

Fixpoint ref_run (rb : ReferenceBook) (ops : list BookOp) : res (ReferenceBook * list BookObs) :=
  match ops with
  | [] => Ret (rb, [])
  | op :: ops =>
      let! (rb, o) := ref_step rb op in
      let! (rb, os) := ref_run rb ops in
      Ret (rb, o :: os)
  end.

Section Runs.
Context {S : Type} `{SL : Slab OrderNode S}.
Implicit Types (b : OrderBook S).

Definition book_step (b : OrderBook S) (op : BookOp) : res (OrderBook S * BookObs) :=
  match op with
  | OpInsert x =>
      let! (b', r) := Book.insert b x in
      Ret (b', match r with Ok _ => ObsInserted | Err _ => ObsRejected end)
  | OpRemove id =>
      let! (b', r) := Book.remove b id in
      Ret (b', ObsRemoved ((fun o => (node_side o, node_price o, ref_of (node_data o))) <$> r))
  | OpReduce id total => let! b' := Book.reduce_total b id total in Ret (b', ObsReduced)
  | OpMatch taker limit quantity =>
      let! (b', fs, filled) := match_order b taker limit quantity [] in
      Ret (b', ObsMatched (map ref_fill_of fs) filled)
  end.

Fixpoint book_run (b : OrderBook S) (ops : list BookOp) : res (OrderBook S * list BookObs) :=
  match ops with
  | [] => Ret (b, [])
  | op :: ops =>
      let! (b, o) := book_step b op in
      let! (b, os) := book_run b ops in
      Ret (b, o :: os)
  end.

(** The calls the engine makes: a new order has a fresh id, a priority above
    the live ones, something left to fill and room in the book; a reduction
    keeps the total above the fills; a taker's quantity is a [u64]. *)
Definition valid_op (b : OrderBook S) (op : BookOp) : bool :=
  match op with
  | OpInsert x =>
      (0 <=? no_cumulative_filled x) && (no_cumulative_filled x <? no_total_quantity x)
      && (no_total_quantity x <=? u64_max)
      && bool_decide (live b !! no_order_id x = None)
      && forallb (fun iy => no_priority iy.2 <? no_priority x) (map_to_list (live b))
      && negb (Book.is_full b) && negb (Book.level_overflows b x (order_rem x))
  | OpRemove _ => true
  | OpReduce id total =>
      match live b !! id with
      | Some x => (no_cumulative_filled x <? total) && (total <=? no_total_quantity x)
      | None => false
      end
  | OpMatch _ _ quantity => (0 <=? quantity) && (quantity <=? u64_max)
  end.

(** Every operation is valid in the state it meets.  Nothing is asked of a run
    after an operation that panics: that none does is proved. *)
Fixpoint valid_run (b : OrderBook S) (ops : list BookOp) : bool :=
  match ops with
  | [] => true
  | op :: ops =>
      valid_op b op
      && match book_step b op with
         | Ret (b', _) => valid_run b' ops
         | Panic => true
         end
  end.

End Runs.

Section Theorems.
Context {S : Type} `{SL : Slab OrderNode S} `{!SlabLaws SL}.
Implicit Types (b : OrderBook S) (A : abook) (rb : ReferenceBook).

(** Every live order has something left. *)
Definition positive (m : gmap OrderId NewOrder) : Prop :=
  map_Forall (fun _ x => 0 < order_rem x) m.

Lemma positive_awf b A : repr b A -> positive (live b) -> awf A.
Proof.
  intros R P. constructor.
  - intros side p x Hx. by eapply repr_elem in Hx as (? & ? & _).
  - intros side p x Hx. eapply repr_elem in Hx as (_ & _ & Hl); [| done]. by eapply P.
  - intros. by apply (repr_prio b).
Qed.

Lemma positive_no_zero b q : binv b q -> positive (live b) -> no_zero b.
Proof.
  intros B P s x Hx. apply (P (no_order_id x)). eapply live_lookup; [done |].
  split; [done |]. exists s. split; [| done]. apply (di_index _ _ _ _ (bi_data _ _ B)). eauto.
Qed.

(** A valid insertion, as the lemmas of [BookSpec] want it. *)
Lemma valid_insert b x :
  valid_op b (OpInsert x) = true ->
  order_wf x /\ 0 < order_rem x /\ live b !! no_order_id x = None
  /\ (forall id y, live b !! id = Some y -> no_priority y < no_priority x) /\ insert_ok b x.
Proof.
  unfold valid_op, order_wf, order_rem, insert_ok. intros H.
  repeat (apply andb_true_iff in H as [H ?]).
  repeat match goal with H : negb _ = true |- _ => apply negb_true_iff in H end.
  split_and!; try done; try lia; [by eapply bool_decide_eq_true |].
  intros id y Hy. apply elem_of_map_to_list in Hy.
  match goal with H : forallb _ _ = true |- _ => rewrite forallb_forall in H; rename H into Hall end.
  specialize (Hall (id, y) ltac:(by apply list_elem_of_In)). simpl in Hall. lia.
Qed.

(** One step of both books. *)
Lemma step_sim b rb op :
  sim b rb -> valid_op b op = true ->
  exists b' rb' o, book_step b op = Ret (b', o) /\ ref_step rb op = Ret (rb', o) /\ sim b' rb'.
Proof.
  intros Hsim Hv. destruct op as [x | id | id total | taker limit quantity].
  - apply valid_insert in Hv as (Hwf & _ & Hn & Hp & Hok).
    destruct (sim_insert b rb x Hsim Hwf Hn Hp Hok) as (b' & E & Hs & _).
    exists b'. eexists _, _. unfold book_step. rewrite E. done.
  - destruct (sim_remove b rb id Hsim) as (b' & E & Er & Hs & _).
    exists b', (Reference.remove rb id).1, (ObsRemoved (Reference.remove rb id).2).
    unfold book_step, ref_step. rewrite E. cbn [rbind]. split_and!; [| by destruct (Reference.remove rb id) | done].
    rewrite Er. destruct (live b !! id) as [x |] eqn:Hl; [| done].
    destruct Hsim as (A & (q & B & H) & _). eapply live_lookup in Hl as (_ & s & Hs' & Hx); [| done].
    apply data_lookup in Hx as (o & Ho & ->). rewrite Hs', Ho. done.
  - simpl in Hv. destruct (live b !! id) as [x |] eqn:Hl; [| done].
    destruct Hsim as (A & R & RR). pose proof (repr_live_id b A _ _ R Hl) as <-.
    destruct (sim_reduce b rb x total) as (b' & E & Hs & _); [by exists A | done | lia |].
    exists b'. eexists _, _. unfold book_step. rewrite E. done.
  - simpl in Hv. destruct (sim_match b rb taker limit quantity Hsim) as (b' & rb' & fs & filled & E1 & E2 & Hs & _).
    { mach. }
    exists b', rb', (ObsMatched (map ref_fill_of fs) filled). unfold book_step, ref_step.
    by rewrite E1, E2.
Qed.

Lemma run_sim b rb ops :
  sim b rb -> valid_run b ops = true ->
  exists b' rb' os, book_run b ops = Ret (b', os) /\ ref_run rb ops = Ret (rb', os) /\ sim b' rb'.
Proof.
  revert b rb. induction ops as [| op ops IH]; intros b rb Hsim Hv; simpl in *.
  - by exists b, rb, [].
  - apply andb_true_iff in Hv as [Hv Hrun].
    destruct (step_sim b rb op Hsim Hv) as (b1 & rb1 & o & E1 & E2 & Hs1).
    rewrite E1 in Hrun |- *. rewrite E2. simpl.
    destruct (IH b1 rb1 Hs1 Hrun) as (b' & rb' & os & -> & -> & Hs').
    by exists b', rb', (o :: os).
Qed.

(** * Matching *)

Definition book_wf (b : OrderBook S) : Prop := (exists A, repr b A) /\ positive (live b).

(** Everything the clients of [match_order] use. *)
Record match_result (b : OrderBook S) (side : Side.t) (limit quantity : Z)
    (b' : OrderBook S) (ms : list (NewOrder * Z)) : Prop := {
  mr_wf : book_wf b';
  mr_capacity : capacity b' = capacity b;
  mr_live : live b' = apply_fills (live b) (fills_of ms);
  mr_valid : fills_valid side limit (live b) (fills_of ms);
  mr_order : StronglySorted (fun m1 m2 => ahead side m1.1 m2.1) ms;
  mr_makers x t : (x, t) ∈ ms ->
    live b !! no_order_id x = Some x /\ no_side x = side
    /\ eligible side limit (no_price x) /\ 0 < t <= order_rem x;
  mr_survivors id y m :
    live b' !! id = Some y -> no_side y = side -> m ∈ ms -> ~ ahead side y m.1;
  mr_filled : 0 <= filled_quantity (fills_of ms) <= quantity;
  mr_exhausted : filled_quantity (fills_of ms) = quantity \/
    forall id y, live b' !! id = Some y -> no_side y = side -> ~ eligible side limit (no_price y);
  mr_frame id y : no_side y <> side \/ ~ eligible side limit (no_price y) ->
    live b' !! id = Some y <-> live b !! id = Some y
}.

Lemma match_order_ok b taker limit quantity fills :
  book_wf b -> in_u64 quantity ->
  exists b' ms,
    match_order b taker limit quantity fills
    = Ret (b', fills ++ fills_of ms, filled_quantity (fills_of ms))
    /\ match_result b (Side.opposite taker) limit quantity b' ms.
Proof.
  intros [[A R] P] Hq. set (side := Side.opposite taker).
  destruct (match_order_repr b A taker limit quantity fills R Hq)
    as (b' & A' & rem & fs & -> & M & Hr & Hsum & R' & Hc & L').
  pose proof (positive_awf b A R P) as W.
  destruct (matches_trades _ _ _ _ _ _ _ M W) as (ms & -> & [T1 T2 T3 T4 T5 T6]); [mach |].
  fold side in T1, T2, T3, T4, T5, T6.
  assert (Hm : forall x t, (x, t) ∈ ms -> live b !! no_order_id x = Some x /\ no_side x = side
            /\ eligible side limit (no_price x) /\ 0 < t <= order_rem x).
  { intros x t Hx. destruct (T1 _ _ Hx) as (Hin & Hel & Ht).
    eapply repr_elem in Hin as (? & _ & ?); [| done]. done. }
  exists b', ms. split; [by rewrite Hsum |]. constructor; try done.
  - split; [by exists A' |]. intros id y Hy.
    destruct (T6 _ _ _ (repr_live_elem b' A' _ _ R' Hy)) as (? & _ & _ & _ & _ & ?). lia.
  - by apply makers_fills_valid.
  - intros id y m Hy Hs Hin. pose proof (repr_live_elem b' A' _ _ R' Hy) as Hy'.
    rewrite Hs in Hy'. by eapply T3.
  - rewrite Hsum. lia.
  - destruct T4 as [-> | T4]; [left; lia | right]. intros id y Hy Hs.
    apply T4. pose proof (repr_live_elem b' A' _ _ R' Hy) as Hy'. rewrite Hs in Hy'.
    intros E. rewrite E in Hy'. set_solver.
  - intros id y Hy. specialize (T5 (no_side y) (no_price y) Hy). split; intros Hl.
    + pose proof (repr_live_id b' A' _ _ R' Hl) as <-.
      pose proof (repr_live_elem b' A' _ _ R' Hl) as Hin. rewrite T5 in Hin.
      by eapply repr_elem in Hin as (_ & _ & ?).
    + pose proof (repr_live_id b A _ _ R Hl) as <-.
      pose proof (repr_live_elem b A _ _ R Hl) as Hin. rewrite <- T5 in Hin.
      by eapply (repr_elem b' A') in Hin as (_ & _ & ?).
Qed.

(** The liquidity a taker can reach. *)
Definition eligible_liquidity (b : OrderBook S) (taker : Side.t) (limit : PriceTicks) : Z :=
  msum (eligible_rem (Side.opposite taker) limit) (live b).

Lemma eligible_rem_nonneg side limit m :
  positive m -> forall (i : OrderId) x, m !! i = Some x -> 0 <= eligible_rem side limit x.
Proof.
  intros P i x Hx. specialize (P _ _ Hx). simpl in P. unfold eligible_rem. case_match; lia.
Qed.

Lemma filled_is_min b b' side limit quantity ms :
  positive (live b) -> match_result b side limit quantity b' ms ->
  filled_quantity (fills_of ms) = Z.min quantity (msum (eligible_rem side limit) (live b)).
Proof.
  intros P [[_ P'] _ L V _ _ _ F X _].
  pose proof (msum_fills_valid _ _ _ _ V) as Hs. rewrite <- L in Hs.
  pose proof (msum_nonneg _ _ (eligible_rem_nonneg side limit _ P')) as Hnn.
  destruct X as [X | X]; [lia |].
  rewrite (msum_zero (eligible_rem side limit) (live b')) in Hs; [lia |].
  intros id y Hy. unfold eligible_rem. case_bool_decide as Hside; [| done]. simpl.
  destruct (Reference.eligible side (no_price y) limit) eqn:E; [| done].
  apply ref_eligible_spec in E. by destruct (X _ _ Hy Hside).
Qed.

(** * Well-formed books along a run *)

Lemma with_capacity_wf cap : book_wf (Book.with_capacity cap).
Proof.
  split; [eexists; apply with_capacity_repr |]. intros id x Hx. exfalso.
  unfold live in Hx. simpl in Hx. by rewrite omap_empty in Hx.
Qed.

Lemma step_wf b op :
  book_wf b -> valid_op b op = true ->
  exists b' o, book_step b op = Ret (b', o) /\ book_wf b'.
Proof.
  intros [[A R] P] Hv. destruct op as [x | id | id total | taker limit quantity].
  - apply valid_insert in Hv as (Hwf & Hpos & Hn & Hp & Hok).
    destruct (insert_repr b A x R Hwf Hn) as (b' & E & R' & L' & _); [| done |].
    { intros y Hy. eapply repr_elem in Hy as (_ & _ & Hy); [| done]. eauto. }
    exists b', ObsInserted. unfold book_step. rewrite E. split; [done |].
    split; [by eexists |]. rewrite L'. by apply map_Forall_insert_2.
  - unfold book_step. destruct (live b !! id) as [x |] eqn:Hl.
    + pose proof (repr_live_id b A _ _ R Hl) as <-.
      destruct (remove_repr b A x R Hl) as (o & b' & l1 & l2 & E & _ & _ & R' & L' & _).
      rewrite E. eexists _, _. split; [done |]. split; [by eexists |]. rewrite L'.
      by apply map_Forall_delete.
    + rewrite remove_none by (by eapply repr_index_None). eexists _, _. split; [done |].
      split; [by eexists | done].
  - simpl in Hv. destruct (live b !! id) as [x |] eqn:Hl; [| done].
    pose proof (repr_live_id b A _ _ R Hl) as <-.
    destruct (reduce_total_repr b A x total R Hl) as (b' & l1 & l2 & E & _ & R' & L' & _); [lia |].
    unfold book_step. rewrite E. eexists _, _. split; [done |]. split; [by eexists |].
    rewrite L'. apply map_Forall_insert_2; [| done]. unfold order_rem. simpl. lia.
  - simpl in Hv.
    destruct (match_order_ok b taker limit quantity []) as (b' & ms & E & [Hwf _ _ _ _ _ _ _ _ _]);
      [by split; [exists A |] | mach |].
    unfold book_step. rewrite E. eexists _, _. by split.
Qed.

Lemma run_wf b ops :
  book_wf b -> valid_run b ops = true ->
  exists b' os, book_run b ops = Ret (b', os) /\ book_wf b'.
Proof.
  revert b. induction ops as [| op ops IH]; intros b W Hv; simpl in *; [by exists b, [] |].
  apply andb_true_iff in Hv as [Hv Hrun].
  destruct (step_wf b op W Hv) as (b1 & o & E & W1). rewrite E in Hrun |- *. simpl.
  destruct (IH b1 W1 Hrun) as (b' & os & -> & W'). by exists b', (o :: os).
Qed.

Lemma check_invariants_wf b : book_wf b -> Book.check_invariants b = Ret (crossing_verdict b).
Proof.
  intros [(A & q & B & H) P]. apply (check_invariants_spec b q B).
  by apply (positive_no_zero b q).
Qed.

(** C1: the indexed book refines the reference book.  From empty books, every
    run of valid operations completes in both without a panic (so the cursor
    and matching loops terminate), each operation returns the same result
    (removed order, fills, filled quantity), and in the end both books have
    the same canonical rows. *)
Theorem book_refines_reference (cap : nat) (ops : list BookOp)
    (Hvalid : valid_run (Book.with_capacity (S := S) cap) ops = true) :
  exists (b : OrderBook S) rb os rows,
    book_run (Book.with_capacity cap) ops = Ret (b, os)
    /\ ref_run Reference.new ops = Ret (rb, os)
    /\ book_rows b = Ret rows /\ Reference.snapshot rb = Ret rows.
Proof.
  destruct (run_sim _ _ ops (sim_new cap) Hvalid) as (b & rb & os & E1 & E2 & Hs).
  destruct (sim_rows b rb Hs) as (rows & E3 & E4). by exists b, rb, os, rows.
Qed.

(** after every valid run the structural checker finds no broken link,
    level, aggregate, priority or index entry and does not panic; the only
    verdict it can return is that the best bid reaches the best ask. *)
Theorem check_invariants_after_run (cap : nat) (ops : list BookOp)
    (Hvalid : valid_run (Book.with_capacity (S := S) cap) ops = true) :
  exists (b : OrderBook S) os,
    book_run (Book.with_capacity cap) ops = Ret (b, os)
    /\ Book.check_invariants b
       = Ret (match Book.best_bid b, Book.best_ask b with
              | Some (bid, _), Some (ask, _) =>
                  if ask <=? bid then Err (CrossedBook bid ask) else Ok tt
              | _, _ => Ok tt
              end).
Proof.
  destruct (run_wf _ ops (with_capacity_wf cap) Hvalid) as (b & os & E & W).
  exists b, os. split; [done |]. by apply check_invariants_wf.
Qed.

(** C2: price-time priority.  Matching a taker against a well-formed book does
    not panic; every trade is with a live order on the other side at a price
    inside the limit, for a positive quantity of at most what was left; the
    trades follow price, then priority; and no order that still rests
    afterwards was ahead of one that traded. *)
Theorem match_order_price_time_priority (b : OrderBook S) (taker : Side.t)
    (limit : PriceTicks) (quantity : QuantityLots)
    (Hb : book_wf b) (Hq : in_u64 quantity) :
  exists b' ms filled,
    match_order b taker limit quantity [] = Ret (b', fills_of ms, filled)
    /\ book_wf b'
    /\ Forall (fun m => live b !! no_order_id m.1 = Some m.1
                /\ no_side m.1 = Side.opposite taker
                /\ eligible (Side.opposite taker) limit (no_price m.1)
                /\ 0 < m.2 <= order_rem m.1) ms
    /\ StronglySorted (fun m1 m2 => ahead (Side.opposite taker) m1.1 m2.1) ms
    /\ (forall id y m, live b' !! id = Some y -> no_side y = Side.opposite taker ->
          m ∈ ms -> ~ ahead (Side.opposite taker) y m.1).
Proof.
  destruct (match_order_ok b taker limit quantity [] Hb Hq) as (b' & ms & E & M).
  exists b', ms, (filled_quantity (fills_of ms)). split_and!; [done | apply M | | apply M | apply M].
  apply Forall_forall. intros [x t] Hx. by apply (mr_makers _ _ _ _ _ _ M) in Hx.
Qed.

(** the filled quantity is exact.  [match_order] fills the smaller of the
    taker's quantity and the liquidity resting at eligible prices, the fills
    add up to it, and every order at another price or on the taker's own side
    is left as it was. *)
Theorem match_order_fills_min (b : OrderBook S) (taker : Side.t)
    (limit : PriceTicks) (quantity : QuantityLots)
    (Hb : book_wf b) (Hq : in_u64 quantity) :
  exists b' fs,
    match_order b taker limit quantity []
    = Ret (b', fs, Z.min quantity (eligible_liquidity b taker limit))
    /\ filled_quantity fs = Z.min quantity (eligible_liquidity b taker limit)
    /\ live b' = apply_fills (live b) fs
    /\ (forall id y, no_side y = taker \/ ~ eligible (Side.opposite taker) limit (no_price y) ->
          live b' !! id = Some y <-> live b !! id = Some y).
Proof.
  destruct (match_order_ok b taker limit quantity [] Hb Hq) as (b' & ms & E & M).
  pose proof (filled_is_min b b' _ limit quantity ms (proj2 Hb) M) as Hmin.
  exists b', (fills_of ms). rewrite E, Hmin. split_and!; [done | done | apply M |].
  intros id y Hy. apply M. destruct Hy as [-> | Hy]; [left | by right]. by destruct taker.
Qed.

End Theorems.

(** * Witnesses *)

Definition ask_at (id price quantity priority : Z) : NewOrder :=
  mkNewOrder id 7 id Side.Sell price quantity 0 priority.

(** Two asks at 101, one at 100; a cancel, a reduction and two takers. *)
Definition sample_ops : list BookOp :=
  [ OpInsert (ask_at 1 101 50 1); OpInsert (ask_at 2 100 30 2); OpInsert (ask_at 3 101 20 3);
    OpReduce 1 40; OpMatch Side.Buy 101 45; OpRemove 3;
    OpInsert (mkNewOrder 4 8 4 Side.Buy 99 10 0 4); OpMatch Side.Sell 99 4 ].

Abbreviation map_book := (OrderBook (gmap nat OrderNode)) (only parsing).

Lemma book_refines_reference_witness :
  exists (b : map_book) rb os rows,
    book_run (Book.with_capacity 3) sample_ops = Ret (b, os)
    /\ ref_run Reference.new sample_ops = Ret (rb, os)
    /\ book_rows b = Ret rows /\ Reference.snapshot rb = Ret rows.
Proof. apply book_refines_reference. vm_compute. reflexivity. Defined.

Lemma check_invariants_after_run_witness :
  exists (b : map_book) os,
    book_run (Book.with_capacity 3) sample_ops = Ret (b, os)
    /\ Book.check_invariants b
       = Ret (match Book.best_bid b, Book.best_ask b with
              | Some (bid, _), Some (ask, _) =>
                  if ask <=? bid then Err (CrossedBook bid ask) else Ok tt
              | _, _ => Ok tt
              end).
Proof. apply check_invariants_after_run. vm_compute. reflexivity. Defined.

(** The book after the first three insertions of [sample_ops]. *)
Definition sample_book : map_book :=
  match book_run (Book.with_capacity 3) (take 3 sample_ops) with
  | Ret (b, _) => b
  | Panic => Book.with_capacity 3
  end.

Lemma sample_book_wf : book_wf sample_book.
Proof.
  destruct (run_wf (Book.with_capacity 3) (take 3 sample_ops) (with_capacity_wf 3))
    as (b & os & E & W); [vm_compute; reflexivity |].
  unfold sample_book. by rewrite E.
Qed.

Lemma match_order_price_time_priority_witness :
  exists b' ms filled,
    match_order sample_book Side.Buy 101 45 [] = Ret (b', fills_of ms, filled)
    /\ book_wf b'
    /\ Forall (fun m => live sample_book !! no_order_id m.1 = Some m.1
                /\ no_side m.1 = Side.opposite Side.Buy
                /\ eligible (Side.opposite Side.Buy) 101 (no_price m.1)
                /\ 0 < m.2 <= order_rem m.1) ms
    /\ StronglySorted (fun m1 m2 => ahead (Side.opposite Side.Buy) m1.1 m2.1) ms
    /\ (forall id y m, live b' !! id = Some y -> no_side y = Side.opposite Side.Buy ->
          m ∈ ms -> ~ ahead (Side.opposite Side.Buy) y m.1).
Proof. apply match_order_price_time_priority; [apply sample_book_wf | mach]. Defined.

Lemma match_order_fills_min_witness :
  exists b' fs,
    match_order sample_book Side.Buy 100 45 [] = Ret (b', fs, 30)
    /\ filled_quantity fs = 30
    /\ live b' = apply_fills (live sample_book) fs
    /\ (forall id y, no_side y = Side.Buy \/ ~ eligible (Side.opposite Side.Buy) 100 (no_price y) ->
          live b' !! id = Some y <-> live sample_book !! id = Some y).
Proof. apply (match_order_fills_min sample_book Side.Buy 100 45 sample_book_wf). mach. Defined.
