(* ===== verification/Market.v ===== *)
(** The external market view and the feed synchronization state machine
    ([crates/trading-core/src/market.rs]).

    The counters are [u64] and [scratch_levels] is [u32]; a plain [+= 1] that
    leaves its width is a panic. *)

From S2P Require Import Prelude Enums Ids Events BTree.

Record FeedCounters := mkFeedCounters {
  fc_applied : Z;
  fc_duplicates : Z;
  fc_gaps : Z;
  fc_resyncs : Z;
  fc_out_of_order : Z;
  fc_invalid_prices : Z
}.

Definition counters_default : FeedCounters := mkFeedCounters 0 0 0 0 0 0.

Record MarketUpdate := mkMarketUpdate {
  mu_previous_state : FeedState.t;
  mu_state : FeedState.t;
  mu_duplicate : bool
}.

Definition state_changed (u : MarketUpdate) : bool :=
  negb (bool_decide (mu_previous_state u = mu_state u)).

Record MarketView := mkMarketView {
  mv_state : FeedState.t;
  mv_epoch : Z;
  mv_last_source_seq : Z;
  mv_bids : BTreeMap Z;
  mv_asks : BTreeMap Z;
  mv_scratch_bids : BTreeMap Z;
  mv_scratch_asks : BTreeMap Z;
  mv_scratch_levels : Z;
  mv_snapshot_seq : Z;
  mv_last_trade_price : option PriceTicks;
  mv_last_update_time_ns : Z;
  mv_counters : FeedCounters;
  mv_min_price_ticks : Z;
  mv_max_price_ticks : Z;
  mv_max_depth : nat
}.

Inductive SequenceCheck := SeqOk | SeqDuplicate | SeqGap | SeqOutOfOrder.

Module Market.

Implicit Types (v : MarketView).

Definition new (min_price_ticks max_price_ticks : Z) (max_depth : nat) : MarketView :=
  mkMarketView FeedState.Unsynchronized 0 0 [] [] [] [] 0 0 None 0 counters_default
    min_price_ticks max_price_ticks (Nat.max max_depth 1).

(** ** Field updates *)

Definition set_state (v : MarketView) (s : FeedState.t) : MarketView :=
  mkMarketView s (mv_epoch v) (mv_last_source_seq v) (mv_bids v) (mv_asks v)
    (mv_scratch_bids v) (mv_scratch_asks v) (mv_scratch_levels v) (mv_snapshot_seq v)
    (mv_last_trade_price v) (mv_last_update_time_ns v) (mv_counters v)
    (mv_min_price_ticks v) (mv_max_price_ticks v) (mv_max_depth v).

Definition set_last_source_seq (v : MarketView) (s : Z) : MarketView :=
  mkMarketView (mv_state v) (mv_epoch v) s (mv_bids v) (mv_asks v)
    (mv_scratch_bids v) (mv_scratch_asks v) (mv_scratch_levels v) (mv_snapshot_seq v)
    (mv_last_trade_price v) (mv_last_update_time_ns v) (mv_counters v)
    (mv_min_price_ticks v) (mv_max_price_ticks v) (mv_max_depth v).

Definition set_levels (v : MarketView) (bids asks : BTreeMap Z) : MarketView :=
  mkMarketView (mv_state v) (mv_epoch v) (mv_last_source_seq v) bids asks
    (mv_scratch_bids v) (mv_scratch_asks v) (mv_scratch_levels v) (mv_snapshot_seq v)
    (mv_last_trade_price v) (mv_last_update_time_ns v) (mv_counters v)
    (mv_min_price_ticks v) (mv_max_price_ticks v) (mv_max_depth v).

Definition set_scratch (v : MarketView) (bids asks : BTreeMap Z) (levels : Z) : MarketView :=
  mkMarketView (mv_state v) (mv_epoch v) (mv_last_source_seq v) (mv_bids v) (mv_asks v)
    bids asks levels (mv_snapshot_seq v)
    (mv_last_trade_price v) (mv_last_update_time_ns v) (mv_counters v)
    (mv_min_price_ticks v) (mv_max_price_ticks v) (mv_max_depth v).

Definition set_snapshot_seq (v : MarketView) (s : Z) : MarketView :=
  mkMarketView (mv_state v) (mv_epoch v) (mv_last_source_seq v) (mv_bids v) (mv_asks v)
    (mv_scratch_bids v) (mv_scratch_asks v) (mv_scratch_levels v) s
    (mv_last_trade_price v) (mv_last_update_time_ns v) (mv_counters v)
    (mv_min_price_ticks v) (mv_max_price_ticks v) (mv_max_depth v).

Definition set_last_trade_price (v : MarketView) (p : option PriceTicks) : MarketView :=
  mkMarketView (mv_state v) (mv_epoch v) (mv_last_source_seq v) (mv_bids v) (mv_asks v)
    (mv_scratch_bids v) (mv_scratch_asks v) (mv_scratch_levels v) (mv_snapshot_seq v)
    p (mv_last_update_time_ns v) (mv_counters v)
    (mv_min_price_ticks v) (mv_max_price_ticks v) (mv_max_depth v).

Definition set_update_time (v : MarketView) (t : Z) : MarketView :=
  mkMarketView (mv_state v) (mv_epoch v) (mv_last_source_seq v) (mv_bids v) (mv_asks v)
    (mv_scratch_bids v) (mv_scratch_asks v) (mv_scratch_levels v) (mv_snapshot_seq v)
    (mv_last_trade_price v) t (mv_counters v)
    (mv_min_price_ticks v) (mv_max_price_ticks v) (mv_max_depth v).

Definition set_counters (v : MarketView) (c : FeedCounters) : MarketView :=
  mkMarketView (mv_state v) (mv_epoch v) (mv_last_source_seq v) (mv_bids v) (mv_asks v)
    (mv_scratch_bids v) (mv_scratch_asks v) (mv_scratch_levels v) (mv_snapshot_seq v)
    (mv_last_trade_price v) (mv_last_update_time_ns v) c
    (mv_min_price_ticks v) (mv_max_price_ticks v) (mv_max_depth v).

Definition set_epoch (v : MarketView) (e : Z) : MarketView :=
  mkMarketView (mv_state v) e (mv_last_source_seq v) (mv_bids v) (mv_asks v)
    (mv_scratch_bids v) (mv_scratch_asks v) (mv_scratch_levels v) (mv_snapshot_seq v)
    (mv_last_trade_price v) (mv_last_update_time_ns v) (mv_counters v)
    (mv_min_price_ticks v) (mv_max_price_ticks v) (mv_max_depth v).

(** ** The counters *)

Definition bump_applied (v : MarketView) : res MarketView :=
  let c := mv_counters v in
  let! n := u64_plain (fc_applied c + 1) in
  Ret (set_counters v (mkFeedCounters n (fc_duplicates c) (fc_gaps c) (fc_resyncs c)
                         (fc_out_of_order c) (fc_invalid_prices c))).

Definition bump_duplicates (v : MarketView) : res MarketView :=
  let c := mv_counters v in
  let! n := u64_plain (fc_duplicates c + 1) in
  Ret (set_counters v (mkFeedCounters (fc_applied c) n (fc_gaps c) (fc_resyncs c)
                         (fc_out_of_order c) (fc_invalid_prices c))).

Definition bump_gaps (v : MarketView) : res MarketView :=
  let c := mv_counters v in
  let! n := u64_plain (fc_gaps c + 1) in
  Ret (set_counters v (mkFeedCounters (fc_applied c) (fc_duplicates c) n (fc_resyncs c)
                         (fc_out_of_order c) (fc_invalid_prices c))).

Definition bump_resyncs (v : MarketView) : res MarketView :=
  let c := mv_counters v in
  let! n := u64_plain (fc_resyncs c + 1) in
  Ret (set_counters v (mkFeedCounters (fc_applied c) (fc_duplicates c) (fc_gaps c) n
                         (fc_out_of_order c) (fc_invalid_prices c))).

Definition bump_out_of_order (v : MarketView) : res MarketView :=
  let c := mv_counters v in
  let! n := u64_plain (fc_out_of_order c + 1) in
  Ret (set_counters v (mkFeedCounters (fc_applied c) (fc_duplicates c) (fc_gaps c)
                         (fc_resyncs c) n (fc_invalid_prices c))).

Definition bump_invalid_prices (v : MarketView) : res MarketView :=
  let c := mv_counters v in
  let! n := u64_plain (fc_invalid_prices c + 1) in
  Ret (set_counters v (mkFeedCounters (fc_applied c) (fc_duplicates c) (fc_gaps c)
                         (fc_resyncs c) (fc_out_of_order c) n)).

(** ** Reading *)

Definition side_levels (v : MarketView) (side : Side.t) : BTreeMap Z :=
  match side with
  | Side.Buy => mv_bids v
  | Side.Sell => mv_asks v
  end.

(** [pending_levels]. *)
Definition pending_levels (v : MarketView) (side : Side.t) : BTreeMap Z :=
  match side with
  | Side.Buy => mv_scratch_bids v
  | Side.Sell => mv_scratch_asks v
  end.

Definition retained_levels (v : MarketView) (side : Side.t) : nat := length (side_levels v side).

Definition best_bid (v : MarketView) : option PriceTicks := fst <$> BTree.last (mv_bids v).

Definition best_ask (v : MarketView) : option PriceTicks := fst <$> BTree.first (mv_asks v).

Definition best (v : MarketView) (side : Side.t) : option PriceTicks :=
  match side with
  | Side.Buy => best_bid v
  | Side.Sell => best_ask v
  end.

Definition levels (v : MarketView) (side : Side.t) : list (PriceTicks * QuantityLots) :=
  match side with
  | Side.Buy => rev (mv_bids v)
  | Side.Sell => mv_asks v
  end.

(** Midpoint when both sides are valid, otherwise the last trade price. *)
Definition reference_price (v : MarketView) : option PriceTicks :=
  match best_bid v, best_ask v with
  | Some bid, Some ask =>
      if bid <? ask then PriceTicks.midpoint bid ask else mv_last_trade_price v
  | _, _ => mv_last_trade_price v
  end.

(** ** Bounded ladders *)

Definition improves (side : Side.t) (price : PriceTicks) (levels : BTreeMap Z) : bool :=
  match side with
  | Side.Buy => match BTree.first levels with
                | Some (worst, _) => worst <? price
                | None => false
                end
  | Side.Sell => match BTree.last levels with
                 | Some (worst, _) => price <? worst
                 | None => false
                 end
  end.

(** The [while] loop of [trim]; it pops at most once per level. *)
Fixpoint trim_loop (fuel : nat) (side : Side.t) (levels : BTreeMap Z) (max_depth : nat)
  : BTreeMap Z :=
  match fuel with
  | O => levels
  | S fuel =>
      if bool_decide (max_depth < length levels)%nat then
        trim_loop fuel side
          (match side with
           | Side.Buy => BTree.pop_first levels
           | Side.Sell => BTree.pop_last levels
           end) max_depth
      else levels
  end.

Definition trim (side : Side.t) (levels : BTreeMap Z) (max_depth : nat) : BTreeMap Z :=
  trim_loop (length levels) side levels max_depth.

Definition set_bounded (levels : BTreeMap Z) (side : Side.t) (price : PriceTicks)
    (quantity : Z) (max_depth : nat) : BTreeMap Z :=
  match BTree.get price levels with
  | Some _ => BTree.insert price quantity levels
  | None =>
      if bool_decide (max_depth <= length levels)%nat && negb (improves side price levels)
      then levels
      else trim side (BTree.insert price quantity levels) max_depth
  end.

(** ** The state machine *)

Definition enter_gap (v : MarketView) : MarketView :=
  set_scratch (set_state v FeedState.Gap) [] [] 0.

Definition quoted_price (kind : MarketEventKind.t) : option PriceTicks :=
  match kind with
  | MarketEventKind.SnapshotLevel _ price _
  | MarketEventKind.LevelSet _ price _
  | MarketEventKind.Trade _ price _ => Some price
  | _ => None
  end.

(** [last_source_seq + 1] is reached only with a larger [source_seq], so it
    does not overflow. *)
Definition check_sequence (v : MarketView) (source_seq : Z) : SequenceCheck :=
  match mv_state v with
  | FeedState.Unsynchronized | FeedState.Gap => SeqOk
  | FeedState.ApplyingSnapshot | FeedState.Live =>
      if mv_last_source_seq v =? 0 then SeqOk
      else if source_seq =? mv_last_source_seq v then SeqDuplicate
      else if source_seq <? mv_last_source_seq v then SeqOutOfOrder
      else if source_seq =? mv_last_source_seq v + 1 then SeqOk
      else SeqGap
  end.

(** The last [match] of [apply]: the effect of an accepted event. *)
Definition apply_kind (v : MarketView) (kind : MarketEventKind.t) : res MarketView :=
  match kind with
  | MarketEventKind.SnapshotBegin snapshot_seq =>
      Ret (set_state (set_snapshot_seq (set_scratch v [] [] 0) snapshot_seq)
             FeedState.ApplyingSnapshot)
  | MarketEventKind.SnapshotLevel side price quantity =>
      if bool_decide (mv_state v = FeedState.ApplyingSnapshot)
         && negb (QuantityLots.is_zero quantity) then
        let scratch :=
          set_bounded (pending_levels v side) side price quantity (mv_max_depth v) in
        let! n := u32_plain (mv_scratch_levels v + 1) in
        Ret (match side with
             | Side.Buy => set_scratch v scratch (mv_scratch_asks v) n
             | Side.Sell => set_scratch v (mv_scratch_bids v) scratch n
             end)
      else Ret v
  | MarketEventKind.SnapshotEnd snapshot_seq level_count =>
      let complete :=
        bool_decide (mv_state v = FeedState.ApplyingSnapshot)
        && (snapshot_seq =? mv_snapshot_seq v) && (level_count =? mv_scratch_levels v) in
      let! v :=
        if complete then
          let v := set_levels v (trim Side.Buy (mv_scratch_bids v) (mv_max_depth v))
                     (trim Side.Sell (mv_scratch_asks v) (mv_max_depth v)) in
          bump_resyncs (set_state v FeedState.Live)
        else Ret (enter_gap v) in
      Ret (set_scratch v [] [] 0)
  | MarketEventKind.LevelSet side price quantity =>
      if bool_decide (mv_state v = FeedState.Live) then
        let levels :=
          if QuantityLots.is_zero quantity then BTree.remove price (side_levels v side)
          else set_bounded (side_levels v side) side price quantity (mv_max_depth v) in
        Ret (match side with
             | Side.Buy => set_levels v levels (mv_asks v)
             | Side.Sell => set_levels v (mv_bids v) levels
             end)
      else Ret v
  | MarketEventKind.Trade _ price _ =>
      if bool_decide (mv_state v = FeedState.Live)
      then Ret (set_last_trade_price v (Some price)) else Ret v
  | MarketEventKind.Heartbeat => Ret v
  | MarketEventKind.FeedReset new_epoch =>
      let v := set_last_source_seq (set_epoch v new_epoch) 0 in
      let v := set_scratch (set_levels v [] []) [] [] 0 in
      Ret (set_state (set_last_trade_price v None) FeedState.Unsynchronized)
  end.

(** [apply] after the sequence check. *)
Definition apply_checked (previous_state : FeedState.t) (v : MarketView)
    (kind : MarketEventKind.t) (recv_time_ns : Z) : res (MarketView * MarketUpdate) :=
  let invalid :=
    match quoted_price kind with
    | Some price => (price <? mv_min_price_ticks v) || (mv_max_price_ticks v <? price)
    | None => false
    end in
  if invalid then
    let! v := bump_invalid_prices v in
    let v := enter_gap v in
    Ret (v, mkMarketUpdate previous_state (mv_state v) false)
  else
    let stale_reset :=
      match kind with
      | MarketEventKind.FeedReset new_epoch => new_epoch <=? mv_epoch v
      | _ => false
      end in
    if stale_reset then
      let! v := bump_out_of_order v in
      Ret (v, mkMarketUpdate previous_state (mv_state v) false)
    else
      let! v := bump_applied v in
      let v := set_update_time v recv_time_ns in
      let! v := apply_kind v kind in
      Ret (v, mkMarketUpdate previous_state (mv_state v) false).

Definition apply (v : MarketView) (source_seq : Z) (kind : MarketEventKind.t)
    (recv_time_ns : Z) : res (MarketView * MarketUpdate) :=
  let previous_state := mv_state v in
  if negb (source_seq =? 0) then
    match check_sequence v source_seq with
    | SeqDuplicate =>
        let! v := bump_duplicates v in
        Ret (v, mkMarketUpdate previous_state (mv_state v) true)
    | SeqGap =>
        let! v := bump_gaps v in
        let v := enter_gap v in
        Ret (v, mkMarketUpdate previous_state (mv_state v) false)
    | SeqOutOfOrder =>
        let! v := bump_out_of_order v in
        let v := enter_gap v in
        Ret (v, mkMarketUpdate previous_state (mv_state v) false)
    | SeqOk => apply_checked previous_state (set_last_source_seq v source_seq) kind recv_time_ns
    end
  else apply_checked previous_state v kind recv_time_ns.

End Market.
