(* ===== verification/MarketInv.v ===== *)
(** The market view: its invariant, the bounded ladders as "best [n] levels",
    the feed state machine as a step relation, and snapshot atomicity. *)

From Stdlib Require Import Sorted.
From S2P Require Import Prelude Enums Ids Events BTree Market.

Implicit Types (v : MarketView) (m : BTreeMap Z) (d : nat).

(** * Bounded ladders *)

(** The reference definition: the [d] best levels of a side. *)
Definition top_n (side : Side.t) (d : nat) (m : BTreeMap Z) : BTreeMap Z :=
  match side with
  | Side.Buy => drop (length m - d) m
  | Side.Sell => take d m
  end.

Lemma removelast_take {A} (l : list A) : removelast l = take (length l - 1) l.
Proof.
  induction l as [| x l IH]; [done |]. simpl. rewrite Nat.sub_0_r.
  destruct l as [| y l]; [done |]. rewrite IH. simpl. by rewrite Nat.sub_0_r.
Qed.

Lemma trim_loop_top_n fuel side m d :
  (length m - d <= fuel)%nat -> Market.trim_loop fuel side m d = top_n side d m.
Proof.
  revert m. induction fuel as [| fuel IH]; intros m Hf; simpl.
  - destruct side; simpl; [by replace (length m - d)%nat with 0%nat by lia |].
    by rewrite take_ge by lia.
  - case_bool_decide as E.
    + destruct side; simpl.
      * unfold BTree.pop_first. destruct m as [| kv m]; [simpl in *; lia |].
        cbn [tail]. rewrite IH by (simpl in *; lia). unfold top_n. simpl length in *.
        by replace (S (length m) - d)%nat with (S (length m - d)) by lia.
      * unfold BTree.pop_last. rewrite removelast_take.
        rewrite IH by (rewrite length_take; lia). simpl. rewrite take_take. f_equal. lia.
    + destruct side; simpl; [by replace (length m - d)%nat with 0%nat by lia |].
      by rewrite take_ge by lia.
Qed.

Lemma trim_top_n side m d : Market.trim side m d = top_n side d m.
Proof. apply trim_loop_top_n. lia. Qed.

Lemma top_n_small side m d : (length m <= d)%nat -> top_n side d m = m.
Proof.
  destruct side; simpl; intros; [by replace (length m - d)%nat with 0%nat by lia |].
  by apply take_ge.
Qed.

Lemma top_n_length side m d : (length (top_n side d m) <= d)%nat.
Proof. destruct side; simpl; rewrite ?length_drop, ?length_take; lia. Qed.

Lemma top_n_elem side m d kv : kv ∈ top_n side d m -> kv ∈ m.
Proof.
  destruct side; simpl; intros H.
  - rewrite <- (take_drop (length m - d) m). set_solver.
  - rewrite <- (take_drop d m). set_solver.
Qed.

Lemma sorted_app_inv (m1 m2 : BTreeMap Z) :
  BTree.sorted (m1 ++ m2) -> BTree.sorted m1 /\ BTree.sorted m2.
Proof.
  induction m1 as [| kv m1 IH]; simpl; [auto using BTree.sorted_nil |].
  intros [Hs Hlt]%BTree.sorted_cons_inv. destruct (IH Hs) as [H1 H2]. split; [| done].
  apply BTree.sorted_cons; [done |]. intros. apply Hlt. set_solver.
Qed.

Lemma top_n_sorted side m d : BTree.sorted m -> BTree.sorted (top_n side d m).
Proof.
  intros Hs. destruct side; simpl.
  - rewrite <- (take_drop (length m - d) m) in Hs. by apply sorted_app_inv in Hs as [_ ?].
  - rewrite <- (take_drop d m) in Hs. by apply sorted_app_inv in Hs as [? _].
Qed.

(** A full ladder drops what does not improve it. *)
Lemma insert_below_all m k x :
  (forall kv, kv ∈ m -> k < kv.1) -> BTree.insert k x m = (k, x) :: m.
Proof.
  destruct m as [| [k0 v0] m]; intros H; simpl; [done |].
  assert (k < k0) by (apply (H (k0, v0)); set_solver).
  replace (k <? k0) with true by lia. done.
Qed.

Lemma insert_above_all m k x :
  (forall kv, kv ∈ m -> kv.1 < k) -> BTree.insert k x m = m ++ [(k, x)].
Proof.
  induction m as [| [k0 v0] m IH]; intros H; simpl; [done |].
  assert (k0 < k) by (apply (H (k0, v0)); set_solver).
  replace (k <? k0) with false by lia. replace (k =? k0) with false by lia.
  rewrite IH; [done | set_solver].
Qed.

Lemma not_improves_top_n side m k x :
  BTree.sorted m -> BTree.get k m = None -> m <> [] ->
  Market.improves side k m = false -> top_n side (length m) (BTree.insert k x m) = m.
Proof.
  intros Hs Hk Hne Himp. destruct side; simpl in *.
  - destruct (BTree.first m) as [[w q] |] eqn:E; [| by apply BTree.first_None in E].
    assert (Hlow : forall kv, kv ∈ m -> k < kv.1).
    { intros [k' v'] Hin. apply BTree.elem_get in Hin; [| done].
      pose proof (BTree.first_min _ _ _ _ _ Hs E Hin) as Hle.
      pose proof (BTree.first_get _ _ _ E) as Hw. simpl.
      assert (k <> w) by congruence. lia. }
    rewrite (insert_below_all _ _ _ Hlow). simpl length.
    by replace (S (length m) - length m)%nat with 1%nat by lia.
  - destruct (BTree.last m) as [[w q] |] eqn:E; [| by apply BTree.last_None in E].
    assert (Hup : forall kv, kv ∈ m -> kv.1 < k).
    { intros [k' v'] Hin. apply BTree.elem_get in Hin; [| done].
      pose proof (BTree.last_max _ _ _ _ _ Hs E Hin) as Hle.
      pose proof (BTree.last_get _ _ _ Hs E) as Hw. simpl.
      assert (k <> w) by congruence. lia. }
    rewrite (insert_above_all _ _ _ Hup). by rewrite take_app_length.
Qed.

(** [set_bounded]'s early returns do not change its result: on a ladder within
    its bound it is "insert, then keep the [d] best levels". *)
Lemma set_bounded_top_n side m k x d :
  BTree.sorted m -> (length m <= d)%nat -> (1 <= d)%nat ->
  Market.set_bounded m side k x d = top_n side d (BTree.insert k x m).
Proof.
  intros Hs Hlen Hd. unfold Market.set_bounded.
  destruct (BTree.get k m) as [x0 |] eqn:E.
  - rewrite top_n_small; [done |]. by rewrite (BTree.length_insert_old _ _ _ _ Hs E).
  - rewrite trim_top_n. case_bool_decide as Hfull; simpl; [| done].
    destruct (Market.improves side k m) eqn:Himp; simpl; [done |].
    assert (d = length m) as -> by lia. symmetry. apply not_improves_top_n; try done.
    intros ->. simpl in *. lia.
Qed.

(** * The invariant *)

Definition ladder_ok (lo hi : Z) (d : nat) (m : BTreeMap Z) : Prop :=
  BTree.sorted m /\ (length m <= d)%nat
  /\ forall kv, kv ∈ m -> lo <= kv.1 <= hi /\ 0 < kv.2 <= u64_max.

Record market_inv (v : MarketView) : Prop := {
  mi_depth : (1 <= mv_max_depth v)%nat;
  mi_bids : ladder_ok (mv_min_price_ticks v) (mv_max_price_ticks v) (mv_max_depth v) (mv_bids v);
  mi_asks : ladder_ok (mv_min_price_ticks v) (mv_max_price_ticks v) (mv_max_depth v) (mv_asks v);
  mi_scratch_bids :
    ladder_ok (mv_min_price_ticks v) (mv_max_price_ticks v) (mv_max_depth v) (mv_scratch_bids v);
  mi_scratch_asks :
    ladder_ok (mv_min_price_ticks v) (mv_max_price_ticks v) (mv_max_depth v) (mv_scratch_asks v);
  mi_scratch : mv_state v <> FeedState.ApplyingSnapshot ->
    mv_scratch_bids v = [] /\ mv_scratch_asks v = [] /\ mv_scratch_levels v = 0;
  mi_trade p : mv_last_trade_price v = Some p ->
    mv_min_price_ticks v <= p <= mv_max_price_ticks v
}.

(** Every counter is at most [n], the number of events applied so far. *)
Definition market_budget (n : Z) (v : MarketView) : Prop :=
  let c := mv_counters v in
  0 <= fc_applied c <= n /\ 0 <= fc_duplicates c <= n /\ 0 <= fc_gaps c <= n
  /\ 0 <= fc_resyncs c <= n /\ 0 <= fc_out_of_order c <= n /\ 0 <= fc_invalid_prices c <= n
  /\ 0 <= mv_scratch_levels v <= n.

(** The configuration is constant. *)
Definition same_domain (v v' : MarketView) : Prop :=
  mv_min_price_ticks v' = mv_min_price_ticks v
  /\ mv_max_price_ticks v' = mv_max_price_ticks v /\ mv_max_depth v' = mv_max_depth v.

Lemma ladder_nil lo hi d : ladder_ok lo hi d [].
Proof. split_and!; [apply BTree.sorted_nil | simpl; lia | set_solver]. Qed.

Lemma ladder_remove lo hi d m k : ladder_ok lo hi d m -> ladder_ok lo hi d (BTree.remove k m).
Proof.
  intros (Hs & Hl & He). split_and!.
  - by apply BTree.sorted_remove.
  - pose proof (BTree.length_remove_le m k). lia.
  - intros kv Hkv. by apply BTree.elem_remove, He in Hkv.
Qed.

Lemma ladder_set lo hi d m side k x :
  ladder_ok lo hi d m -> (1 <= d)%nat -> lo <= k <= hi -> 0 < x <= u64_max ->
  ladder_ok lo hi d (Market.set_bounded m side k x d).
Proof.
  intros (Hs & Hl & He) Hd Hk Hx. rewrite set_bounded_top_n by done. split_and!.
  - apply top_n_sorted. by apply BTree.sorted_insert.
  - apply top_n_length.
  - intros kv Hkv. apply top_n_elem, BTree.elem_insert in Hkv as [-> | Hkv]; [done | auto].
Qed.

Lemma ladder_trim lo hi d m side :
  ladder_ok lo hi d m -> ladder_ok lo hi d (Market.trim side m d).
Proof.
  intros (Hs & Hl & He). rewrite trim_top_n, top_n_small by done. by split_and!.
Qed.

#[local] Hint Resolve ladder_nil ladder_remove ladder_set ladder_trim : rust.

Lemma inv_enter_gap v : market_inv v -> market_inv (Market.enter_gap v).
Proof. intros []. constructor; simpl; auto with rust. Qed.

(** The updates that touch none of the invariant's fields. *)
Lemma inv_frame v v' :
  market_inv v -> mv_state v' = mv_state v -> mv_bids v' = mv_bids v -> mv_asks v' = mv_asks v ->
  mv_scratch_bids v' = mv_scratch_bids v -> mv_scratch_asks v' = mv_scratch_asks v ->
  mv_scratch_levels v' = mv_scratch_levels v ->
  mv_last_trade_price v' = mv_last_trade_price v -> same_domain v v' -> market_inv v'.
Proof.
  intros [] E1 E2 E3 E4 E5 E6 E7 (E8 & E9 & E10).
  constructor; rewrite ?E1, ?E2, ?E3, ?E4, ?E5, ?E6, ?E7, ?E8, ?E9, ?E10; done.
Qed.

(** The bumps succeed within the budget. *)
Ltac bump_ok :=
  intros (? & ? & ? & ? & ? & ? & ?) Hn;
  eexists; split; [rewrite u64_plain_in by mach; reflexivity |];
  repeat split; simpl; try lia; try done.

Definition bump_spec (bump : MarketView -> res MarketView) : Prop :=
  forall v n, market_budget n v -> n < u32_max ->
  exists c, bump v = Ret (Market.set_counters v c)
    /\ market_budget (n + 1) (Market.set_counters v c).

Lemma bump_duplicates_ok : bump_spec Market.bump_duplicates.
Proof. intros v n. unfold Market.bump_duplicates. bump_ok. Qed.
Lemma bump_gaps_ok : bump_spec Market.bump_gaps.
Proof. intros v n. unfold Market.bump_gaps. bump_ok. Qed.
Lemma bump_out_of_order_ok : bump_spec Market.bump_out_of_order.
Proof. intros v n. unfold Market.bump_out_of_order. bump_ok. Qed.
Lemma bump_invalid_prices_ok : bump_spec Market.bump_invalid_prices.
Proof. intros v n. unfold Market.bump_invalid_prices. bump_ok. Qed.

(** [bump_applied] leaves room for the second bump of a completed snapshot. *)
Lemma bump_applied_ok v n :
  market_budget n v -> n < u32_max ->
  exists c, Market.bump_applied v = Ret (Market.set_counters v c)
    /\ market_budget (n + 1) (Market.set_counters v c)
    /\ fc_resyncs c = fc_resyncs (mv_counters v).
Proof. unfold Market.bump_applied. bump_ok. Qed.

(** The effect of an accepted event. *)
Lemma apply_kind_ok v n kind :
  market_inv v -> market_budget (n + 1) v -> fc_resyncs (mv_counters v) <= n ->
  mv_scratch_levels v <= n -> 0 <= n < u32_max -> market_kind_wf kind ->
  (forall p, Market.quoted_price kind = Some p ->
     mv_min_price_ticks v <= p <= mv_max_price_ticks v) ->
  exists v', Market.apply_kind v kind = Ret v' /\ market_inv v' /\ market_budget (n + 1) v'
    /\ same_domain v v'.
Proof.
  intros I (B1 & B2 & B3 & B4 & B5 & B6 & B7) Hr Hl Hn Hwf Hp.
  assert (Bz : forall sb sa, market_budget (n + 1) (Market.set_scratch v sb sa 0)).
  { intros. repeat split; simpl; lia. }
  destruct kind as [sq | side p q | sq count | side p q | side p q | | e]; simpl in *.
  - eexists. split; [done |]. split_and!; try done; [| by repeat split; simpl; lia].
    destruct I. constructor; simpl; auto with rust; done.
  - case_bool_decide as Hst; simpl.
    2: { exists v. by split_and!. }
    unfold QuantityLots.is_zero. destruct (Z.eqb_spec q 0); simpl; [exists v; by split_and! |].
    rewrite u32_plain_in by mach. simpl. destruct Hwf as [_ Hq].
    assert (0 < q <= u64_max) by mach. specialize (Hp _ eq_refl). destruct I.
    destruct side; (eexists; split; [done |]);
      (split; [constructor; simpl; auto with rust; done | by repeat split; simpl; lia]).
  - destruct (bool_decide _ && _ && _) eqn:Ec; simpl.
    + unfold Market.bump_resyncs. simpl. rewrite u64_plain_in by mach. simpl.
      eexists. split; [done |]. split; [| by repeat split; simpl; lia].
      destruct I. constructor; simpl; auto with rust; done.
    + eexists. split; [done |]. split; [| by repeat split; simpl; lia].
      destruct I. constructor; simpl; auto with rust; done.
  - case_bool_decide as Hst; [| by exists v; split_and!].
    destruct Hwf as [_ Hq]. specialize (Hp _ eq_refl). unfold QuantityLots.is_zero.
    assert (Hlad : forall m, ladder_ok (mv_min_price_ticks v) (mv_max_price_ticks v)
              (mv_max_depth v) m ->
              ladder_ok (mv_min_price_ticks v) (mv_max_price_ticks v) (mv_max_depth v)
                (if q =? 0 then BTree.remove p m
                 else Market.set_bounded m side p q (mv_max_depth v))).
    { intros m Hm. destruct (Z.eqb_spec q 0); [by apply ladder_remove |].
      apply ladder_set; [done | apply I | done | mach]. }
    destruct I. destruct side; (eexists; split; [done |]);
      (split; [constructor; simpl; auto with rust; done | by repeat split; simpl; lia]).
  - case_bool_decide as Hst; [| by exists v; split_and!].
    specialize (Hp _ eq_refl). eexists. split; [done |]. split; [| by repeat split; simpl; lia].
    destruct I. constructor; simpl; auto. by intros ? [= <-].
  - exists v. by split_and!.
  - eexists. split; [done |]. split; [| by repeat split; simpl; lia].
    destruct I. constructor; simpl; auto with rust; done.
Qed.

Lemma apply_checked_ok st v n kind t :
  market_inv v -> market_budget n v -> n < u32_max -> market_kind_wf kind ->
  exists v' u, Market.apply_checked st v kind t = Ret (v', u) /\ market_inv v'
    /\ market_budget (n + 1) v' /\ same_domain v v' /\ u = mkMarketUpdate st (mv_state v') false.
Proof.
  intros I B Hn Hwf. unfold Market.apply_checked.
  destruct (match Market.quoted_price kind with Some _ => _ | None => _ end) eqn:Einv.
  { destruct (bump_invalid_prices_ok v n B Hn) as (c & -> & B'). simpl.
    eexists _, _. split; [done |]. split_and!; try done.
    - apply inv_enter_gap. by eapply inv_frame.
    - destruct B' as (? & ? & ? & ? & ? & ? & ?). simpl in *. repeat split; simpl; lia. }
  destruct (match kind with MarketEventKind.FeedReset _ => _ | _ => false end).
  { destruct (bump_out_of_order_ok v n B Hn) as (c & -> & B'). simpl.
    eexists _, _. split; [done |]. split_and!; try done. by eapply inv_frame. }
  destruct (bump_applied_ok v n B Hn) as (c & -> & B' & Hr). simpl.
  set (v1 := Market.set_update_time _ _).
  destruct (apply_kind_ok v1 n kind) as (v' & E & I' & B2 & D'); try done.
  - by eapply inv_frame.
  - simpl. rewrite Hr. apply B.
  - apply B.
  - destruct B as ((? & ?) & _). lia.
  - intros p Hq. rewrite Hq in Einv. simpl. lia.
  - rewrite E. simpl. eexists _, _. split; [done |]. by split_and!.
Qed.

Lemma apply_ok v n source_seq kind t :
  market_inv v -> market_budget n v -> n < u32_max -> market_kind_wf kind ->
  exists v' u, Market.apply v source_seq kind t = Ret (v', u) /\ market_inv v'
    /\ market_budget (n + 1) v' /\ same_domain v v'
    /\ mu_previous_state u = mv_state v /\ mu_state u = mv_state v'.
Proof.
  intros I B Hn Hwf. unfold Market.apply. destruct (negb (source_seq =? 0)).
  2: { destruct (apply_checked_ok (mv_state v) v n kind t) as (v' & u & E & ? & ? & ? & ->); try done.
       exists v', (mkMarketUpdate (mv_state v) (mv_state v') false). by split_and!. }
  destruct (Market.check_sequence v source_seq).
  - destruct (apply_checked_ok (mv_state v) (Market.set_last_source_seq v source_seq) n kind t)
      as (v' & u & E & ? & ? & ? & ->); try done; [by eapply inv_frame |].
    exists v', (mkMarketUpdate (mv_state v) (mv_state v') false). by split_and!.
  - destruct (bump_duplicates_ok v n B Hn) as (c & -> & B'). simpl.
    eexists _, _. split; [done |]. split_and!; try done. by eapply inv_frame.
  - destruct (bump_gaps_ok v n B Hn) as (c & -> & B'). simpl.
    eexists _, _. split; [done |]. split_and!; try done.
    + apply inv_enter_gap. by eapply inv_frame.
    + destruct B' as (? & ? & ? & ? & ? & ? & ?). simpl in *. repeat split; simpl; lia.
  - destruct (bump_out_of_order_ok v n B Hn) as (c & -> & B'). simpl.
    eexists _, _. split; [done |]. split_and!; try done.
    + apply inv_enter_gap. by eapply inv_frame.
    + destruct B' as (? & ? & ? & ? & ? & ? & ?). simpl in *. repeat split; simpl; lia.
Qed.
