(* ===== verification/MarketTheorems.v ===== *)
(** The properties of the market view. *)

From S2P Require Import Prelude Enums Ids Events BTree Market MarketInv.

Implicit Types (v : MarketView).

(** * How an event can end *)

(** The fields the state machine reads. *)
Definition same_feed (v v1 : MarketView) : Prop :=
  mv_state v1 = mv_state v /\ mv_epoch v1 = mv_epoch v
  /\ mv_bids v1 = mv_bids v /\ mv_asks v1 = mv_asks v
  /\ mv_scratch_bids v1 = mv_scratch_bids v /\ mv_scratch_asks v1 = mv_scratch_asks v
  /\ mv_scratch_levels v1 = mv_scratch_levels v /\ mv_snapshot_seq v1 = mv_snapshot_seq v
  /\ mv_last_trade_price v1 = mv_last_trade_price v /\ mv_max_depth v1 = mv_max_depth v.

(** The sequence number lets the event through. *)
Definition in_sequence (v : MarketView) (source_seq : Z) : Prop :=
  source_seq = 0 \/ Market.check_sequence v source_seq = SeqOk.

Inductive outcome (v : MarketView) (source_seq : Z) (kind : MarketEventKind.t)
    (v' : MarketView) : MarketUpdate -> Prop :=
| out_duplicate :
    source_seq <> 0 -> Market.check_sequence v source_seq = SeqDuplicate -> same_feed v v' ->
    outcome v source_seq kind v' (mkMarketUpdate (mv_state v) (mv_state v) true)
| out_stale_reset e :
    kind = MarketEventKind.FeedReset e -> e <= mv_epoch v -> same_feed v v' ->
    outcome v source_seq kind v' (mkMarketUpdate (mv_state v) (mv_state v) false)
| out_gap :
    mv_state v' = FeedState.Gap -> mv_bids v' = mv_bids v -> mv_asks v' = mv_asks v ->
    mv_scratch_bids v' = [] -> mv_scratch_asks v' = [] -> mv_scratch_levels v' = 0 ->
    outcome v source_seq kind v' (mkMarketUpdate (mv_state v) FeedState.Gap false)
| out_accepted v1 :
    in_sequence v source_seq -> same_feed v v1 -> Market.apply_kind v1 kind = Ret v' ->
    (forall e, kind = MarketEventKind.FeedReset e -> mv_epoch v < e) ->
    outcome v source_seq kind v' (mkMarketUpdate (mv_state v) (mv_state v') false).

Lemma apply_checked_inv v v0 source_seq kind t v' u :
  in_sequence v source_seq -> same_feed v v0 ->
  Market.apply_checked (mv_state v) v0 kind t = Ret (v', u) ->
  outcome v source_seq kind v' u.
Proof.
  intros Hseq Hsame. unfold Market.apply_checked.
  pose proof Hsame as (E1 & E2 & E3 & E4 & E5 & E6 & E7 & E8 & E9 & E10).
  destruct (match Market.quoted_price kind with Some _ => _ | None => _ end).
  { intros (v1 & E & [= <- <-])%rbind_inv. unfold Market.bump_invalid_prices in E.
    apply rbind_inv in E as (n & _ & [= <-]). by apply out_gap. }
  destruct (match kind with MarketEventKind.FeedReset _ => _ | _ => false end) eqn:Er.
  { intros (v1 & E & [= <- <-])%rbind_inv. unfold Market.bump_out_of_order in E.
    apply rbind_inv in E as (n & _ & [= <-]). destruct kind; try done.
    simpl. rewrite E1. eapply out_stale_reset; [done | lia |]. by split_and!. }
  intros (v1 & E & (v2 & E' & [= <- <-])%rbind_inv)%rbind_inv.
  unfold Market.bump_applied in E. apply rbind_inv in E as (n & _ & [= <-]).
  eapply out_accepted; [done | | exact E' |].
  - by split_and!.
  - intros e ->. lia.
Qed.

Lemma apply_inv v source_seq kind t v' u :
  Market.apply v source_seq kind t = Ret (v', u) -> outcome v source_seq kind v' u.
Proof.
  unfold Market.apply. destruct (Z.eqb_spec source_seq 0) as [Hz | Hz]; simpl.
  { apply apply_checked_inv; [by left | by split_and!]. }
  destruct (Market.check_sequence v source_seq) eqn:Ec.
  - apply apply_checked_inv; [by right | by split_and!].
  - intros (v1 & E & [= <- <-])%rbind_inv. unfold Market.bump_duplicates in E.
    apply rbind_inv in E as (n & _ & [= <-]). refine (out_duplicate v source_seq kind _ Hz Ec _). by split_and!.
  - intros (v1 & E & [= <- <-])%rbind_inv. unfold Market.bump_gaps in E.
    apply rbind_inv in E as (n & _ & [= <-]). by apply out_gap.
  - intros (v1 & E & [= <- <-])%rbind_inv. unfold Market.bump_out_of_order in E.
    apply rbind_inv in E as (n & _ & [= <-]). by apply out_gap.
Qed.

(** A complete snapshot: the view is applying it, and its end carries its
    sequence and the number of levels received. *)
Definition completes (v : MarketView) (kind : MarketEventKind.t) : Prop :=
  mv_state v = FeedState.ApplyingSnapshot
  /\ kind = MarketEventKind.SnapshotEnd (mv_snapshot_seq v) (mv_scratch_levels v).

Lemma snapshot_end_cases v v1 sq count :
  same_feed v v1 ->
  bool_decide (mv_state v1 = FeedState.ApplyingSnapshot)
  && (sq =? mv_snapshot_seq v1) && (count =? mv_scratch_levels v1) = true ->
  completes v (MarketEventKind.SnapshotEnd sq count).
Proof.
  intros (E1 & _ & _ & _ & _ & _ & E7 & E8 & _) H.
  apply andb_true_iff in H as [[H1%bool_decide_eq_true H2%Z.eqb_eq]%andb_true_iff H3%Z.eqb_eq].
  split; congruence.
Qed.

(** What an accepted event does to the state and to the visible levels. *)
Lemma apply_kind_effect v v1 kind v' :
  same_feed v v1 -> Market.apply_kind v1 kind = Ret v' ->
  (completes v kind /\ mv_state v' = FeedState.Live
   /\ mv_bids v' = Market.trim Side.Buy (mv_scratch_bids v) (mv_max_depth v)
   /\ mv_asks v' = Market.trim Side.Sell (mv_scratch_asks v) (mv_max_depth v))
  \/ (exists e, kind = MarketEventKind.FeedReset e /\ mv_state v' = FeedState.Unsynchronized)
  \/ (exists side p q, kind = MarketEventKind.LevelSet side p q
        /\ mv_state v = FeedState.Live /\ mv_state v' = FeedState.Live)
  \/ (mv_bids v' = mv_bids v /\ mv_asks v' = mv_asks v
      /\ match kind with
         | MarketEventKind.SnapshotBegin _ => mv_state v' = FeedState.ApplyingSnapshot
         | MarketEventKind.SnapshotEnd _ _ => mv_state v' = FeedState.Gap
         | _ => mv_state v' = mv_state v
         end).
Proof.
  intros Hs. pose proof Hs as (E1 & E2 & E3 & E4 & E5 & E6 & E7 & E8 & E9 & E10).
  destruct kind as [sq | side p q | sq count | side p q | side p q | | e]; cbn [Market.apply_kind].
  - intros [= <-]. do 3 right. by rewrite <- E3, <- E4.
  - destruct (_ && _); [| intros [= <-]; do 3 right; by rewrite <- E1, <- E3, <- E4].
    intros (n & _ & [= <-])%rbind_inv. do 3 right. rewrite <- E1, <- E3, <- E4. by destruct side.
  - destruct (bool_decide _ && _ && _) eqn:Ec.
    + intros (v2 & E & [= <-])%rbind_inv. unfold Market.bump_resyncs in E.
      apply rbind_inv in E as (n & _ & [= <-]). left. rewrite <- E5, <- E6, <- E10.
      split; [by eapply snapshot_end_cases | done].
    + intros [= <-]. do 3 right. by rewrite <- E3, <- E4.
  - case_bool_decide as Hst; [| intros [= <-]; do 3 right; by rewrite <- E1, <- E3, <- E4].
    intros [= <-]. do 2 right. left. exists side, p, q. rewrite <- E1. by destruct side.
  - case_bool_decide as Hst; intros [= <-]; do 3 right; by rewrite <- E1, <- E3, <- E4.
  - intros [= <-]. do 3 right. by rewrite <- E1, <- E3, <- E4.
  - intros [= <-]. right. left. by exists e.
Qed.

(** * Runs *)

Definition FeedEvent : Type := Z * MarketEventKind.t * Z.

Fixpoint market_run (v : MarketView) (es : list FeedEvent) : res MarketView :=
  match es with
  | [] => Ret v
  | (source_seq, kind, t) :: es =>
      let! (v, _) := Market.apply v source_seq kind t in
      market_run v es
  end.

Lemma market_run_ok v n es :
  market_inv v -> market_budget n v -> n + Z.of_nat (length es) <= u32_max ->
  Forall (fun e => market_kind_wf e.1.2) es ->
  exists v', market_run v es = Ret v' /\ market_inv v' /\ same_domain v v'.
Proof.
  revert v n. induction es as [| [[sq kind] t] es IH]; intros v n I B Hn Hwf; simpl in *.
  - by exists v.
  - apply Forall_cons in Hwf as [Hk Hwf].
    destruct (apply_ok v n sq kind t I B ltac:(lia) Hk) as (v1 & u & -> & I1 & B1 & D1 & _).
    simpl. destruct (IH v1 (n + 1) I1 B1 ltac:(lia) Hwf) as (v' & -> & I' & D').
    exists v'. split_and!; try done; unfold same_domain in *; intuition congruence.
Qed.

Lemma new_inv lo hi d : market_inv (Market.new lo hi d).
Proof. constructor; simpl; auto using ladder_nil; [lia | done]. Qed.

(** Checking a feed event against the widths of its fields. *)
Definition feed_kind_ok (k : MarketEventKind.t) : bool :=
  match k with
  | MarketEventKind.SnapshotBegin s | MarketEventKind.FeedReset s => (0 <=? s) && (s <=? u64_max)
  | MarketEventKind.SnapshotLevel _ p q
  | MarketEventKind.LevelSet _ p q
  | MarketEventKind.Trade _ p q =>
      (i64_min <=? p) && (p <=? i64_max) && (0 <=? q) && (q <=? u64_max)
  | MarketEventKind.SnapshotEnd s c =>
      (0 <=? s) && (s <=? u64_max) && (0 <=? c) && (c <=? u32_max)
  | MarketEventKind.Heartbeat => true
  end.

Lemma feed_kind_ok_wf k : feed_kind_ok k = true -> market_kind_wf k.
Proof. destruct k; simpl; intros; try done; repeat split; lia. Qed.

(** C3: the market view stays bounded.  From a fresh view, any feed of fewer
    than 2^32 events is applied without a panic; afterwards each side holds
    at most [max(max_depth, 1)] levels, in price order, with prices inside
    the instrument's domain and positive quantities, and a view that is not
    applying a snapshot buffers nothing. *)
Theorem market_run_bounded (lo hi : Z) (depth : nat) (es : list FeedEvent)
    (Hlen : Z.of_nat (length es) <= u32_max)
    (Hwf : forallb (fun e => feed_kind_ok e.1.2) es = true) :
  exists v, market_run (Market.new lo hi depth) es = Ret v
    /\ (forall side, BTree.sorted (Market.side_levels v side)
          /\ (Market.retained_levels v side <= Nat.max depth 1)%nat
          /\ Forall (fun kv => lo <= kv.1 <= hi /\ 0 < kv.2 <= u64_max)
               (Market.side_levels v side))
    /\ (mv_state v <> FeedState.ApplyingSnapshot ->
        Market.pending_levels v Side.Buy = [] /\ Market.pending_levels v Side.Sell = []
        /\ mv_scratch_levels v = 0).
Proof.
  destruct (market_run_ok (Market.new lo hi depth) 0 es) as (v & E & I & (D1 & D2 & D3)).
  - apply new_inv.
  - repeat split; simpl; lia.
  - exact Hlen.
  - apply Forall_forall. intros e He. rewrite forallb_forall in Hwf.
    apply feed_kind_ok_wf, Hwf. by apply list_elem_of_In.
  - exists v. split; [done |]. split; [| by apply (mi_scratch _ I)].
    pose proof (mi_bids _ I) as Hb. pose proof (mi_asks _ I) as Ha.
    rewrite D1, D2, D3 in Hb, Ha. simpl in Hb, Ha.
    intros []; [destruct Hb as (? & ? & Hall) | destruct Ha as (? & ? & Hall)];
      (split_and!; [done | done |]); apply Forall_forall; auto.
Qed.

(** C4: the feed goes live only through a complete snapshot.  A view that was
    not live and is live after an event was applying a snapshot, and the
    event is that snapshot's end with its sequence and the number of levels
    received, in sequence; the visible ladders are then exactly the buffered
    ones. *)
Theorem live_only_through_complete_snapshot (v v' : MarketView) (source_seq : Z)
    (kind : MarketEventKind.t) (t : Z) (u : MarketUpdate)
    (Hinv : market_inv v) (Hnot : mv_state v <> FeedState.Live)
    (Happly : Market.apply v source_seq kind t = Ret (v', u))
    (Hlive : mv_state v' = FeedState.Live) :
  mv_state v = FeedState.ApplyingSnapshot
  /\ kind = MarketEventKind.SnapshotEnd (mv_snapshot_seq v) (mv_scratch_levels v)
  /\ in_sequence v source_seq
  /\ mv_bids v' = mv_scratch_bids v /\ mv_asks v' = mv_scratch_asks v.
Proof.
  destruct (apply_inv _ _ _ _ _ _ Happly) as [_ _ Hs | e _ _ Hs | Hg | v1 Hseq Hs Hk _].
  - destruct Hs as (E & _). congruence.
  - destruct Hs as (E & _). congruence.
  - congruence.
  - destruct (apply_kind_effect v v1 kind v' Hs Hk)
      as [([Hst ->] & _ & Hb & Ha) | [(e & _ & E) | [(? & ? & ? & _ & E & _) | (_ & _ & E)]]].
    + pose proof (mi_scratch_bids _ Hinv) as (_ & Lb & _).
      pose proof (mi_scratch_asks _ Hinv) as (_ & La & _).
      rewrite trim_top_n, top_n_small in Hb, Ha by done. by split_and!.
    + congruence.
    + congruence.
    + destruct kind; congruence.
Qed.

(** readers never see a partial snapshot.  The visible ladders change only
    when a complete snapshot ends, when a level is set on a live feed, or
    when a reset to a later epoch clears them. *)
Theorem visible_levels_change_only (v v' : MarketView) (source_seq : Z)
    (kind : MarketEventKind.t) (t : Z) (u : MarketUpdate)
    (Happly : Market.apply v source_seq kind t = Ret (v', u))
    (Hchange : mv_bids v' <> mv_bids v \/ mv_asks v' <> mv_asks v) :
  in_sequence v source_seq /\
  ((mv_state v = FeedState.ApplyingSnapshot
    /\ kind = MarketEventKind.SnapshotEnd (mv_snapshot_seq v) (mv_scratch_levels v))
   \/ (mv_state v = FeedState.Live /\ exists side p q, kind = MarketEventKind.LevelSet side p q)
   \/ (exists e, kind = MarketEventKind.FeedReset e /\ mv_epoch v < e)).
Proof.
  destruct (apply_inv _ _ _ _ _ _ Happly) as [_ _ Hs | e _ _ Hs | _ E1 E2 | v1 Hseq Hs Hk Hr].
  - destruct Hs as (_ & _ & E1 & E2 & _). intuition.
  - destruct Hs as (_ & _ & E1 & E2 & _). intuition.
  - intuition.
  - split; [done |].
    destruct (apply_kind_effect v v1 kind v' Hs Hk)
      as [([Hst ->] & _) | [(e & -> & E) | [(? & ? & ? & -> & E & _) | (E1 & E2 & _)]]].
    + by left.
    + right. right. eauto.
    + right. left. eauto.
    + intuition.
Qed.

(** C5: a break in the sequence is never applied.  On a synchronized feed, an
    event whose nonzero sequence number is not the next one leaves the
    visible ladders alone; a repeat of the last one is reported as a
    duplicate and changes nothing else, and any other moves the feed to
    [Gap] and drops the buffered snapshot. *)
Theorem sequence_break_not_applied (v v' : MarketView) (source_seq : Z)
    (kind : MarketEventKind.t) (t : Z) (u : MarketUpdate)
    (Hsync : mv_state v = FeedState.Live \/ mv_state v = FeedState.ApplyingSnapshot)
    (Hlast : mv_last_source_seq v <> 0) (Hseq : source_seq <> 0)
    (Hbreak : source_seq <> mv_last_source_seq v + 1)
    (Happly : Market.apply v source_seq kind t = Ret (v', u)) :
  mv_bids v' = mv_bids v /\ mv_asks v' = mv_asks v
  /\ if source_seq =? mv_last_source_seq v
     then mu_duplicate u = true /\ mv_state v' = mv_state v
          /\ mv_scratch_bids v' = mv_scratch_bids v /\ mv_scratch_asks v' = mv_scratch_asks v
     else mu_duplicate u = false /\ mv_state v' = FeedState.Gap
          /\ mv_scratch_bids v' = [] /\ mv_scratch_asks v' = [].
Proof.
  assert (Hc : Market.check_sequence v source_seq
               = if source_seq =? mv_last_source_seq v then SeqDuplicate
                 else if source_seq <? mv_last_source_seq v then SeqOutOfOrder else SeqGap).
  { unfold Market.check_sequence. replace (mv_last_source_seq v =? 0) with false by lia.
    replace (source_seq =? mv_last_source_seq v + 1) with false by lia.
    by destruct Hsync as [-> | ->]. }
  unfold Market.apply in Happly. replace (source_seq =? 0) with false in Happly by lia.
  simpl in Happly. rewrite Hc in Happly. destruct (source_seq =? mv_last_source_seq v).
  - apply rbind_inv in Happly as (v1 & E & [= <- <-]). unfold Market.bump_duplicates in E.
    by apply rbind_inv in E as (n & _ & [= <-]).
  - destruct (source_seq <? mv_last_source_seq v);
      apply rbind_inv in Happly as (v1 & E & [= <- <-]);
      [unfold Market.bump_out_of_order in E | unfold Market.bump_gaps in E];
      by apply rbind_inv in E as (n & _ & [= <-]).
Qed.

(** a bounded ladder keeps the best levels.  On a sorted ladder within its
    bound, [set_bounded] — which skips the insertion when a full ladder is
    not improved — is the same as inserting and keeping the [max_depth] best
    levels (highest bids, lowest asks). *)
Theorem set_bounded_keeps_best (levels : BTreeMap Z) (side : Side.t) (price : PriceTicks)
    (quantity : Z) (max_depth : nat)
    (Hsorted : BTree.sorted levels) (Hlen : (length levels <= max_depth)%nat)
    (Hdepth : (1 <= max_depth)%nat) :
  Market.set_bounded levels side price quantity max_depth
  = match side with
    | Side.Buy => drop (length (BTree.insert price quantity levels) - max_depth)
                    (BTree.insert price quantity levels)
    | Side.Sell => take max_depth (BTree.insert price quantity levels)
    end.
Proof. rewrite set_bounded_top_n by done. by destruct side. Qed.

(** the reference price is usable.  It is inside the instrument's domain,
    and between the best bid and the best ask whenever these do not cross. *)
Theorem reference_price_in_domain (v : MarketView) (p : PriceTicks)
    (Hinv : market_inv v) (Hp : Market.reference_price v = Some p) :
  mv_min_price_ticks v <= p <= mv_max_price_ticks v
  /\ forall bid ask, Market.best_bid v = Some bid -> Market.best_ask v = Some ask ->
       bid < ask -> bid <= p <= ask.
Proof.
  assert (Hbid : forall bid, Market.best_bid v = Some bid ->
            mv_min_price_ticks v <= bid <= mv_max_price_ticks v).
  { intros bid. unfold Market.best_bid. destruct (BTree.last (mv_bids v)) as [kv |] eqn:E; [| done].
    intros [= <-]. apply BTree.last_elem in E. by apply (mi_bids _ Hinv) in E as [? _]. }
  assert (Hask : forall ask, Market.best_ask v = Some ask ->
            mv_min_price_ticks v <= ask <= mv_max_price_ticks v).
  { intros ask. unfold Market.best_ask. destruct (BTree.first (mv_asks v)) as [kv |] eqn:E; [| done].
    intros [= <-]. destruct kv as [k q]. apply BTree.first_get, BTree.get_elem in E.
    by apply (mi_asks _ Hinv) in E as [? _]. }
  unfold Market.reference_price in Hp.
  destruct (Market.best_bid v) as [bid |]; destruct (Market.best_ask v) as [ask |];
    try (split; [by apply (mi_trade _ Hinv) | by intros]).
  destruct (Z.ltb_spec bid ask).
  - apply midpoint_between in Hp; [| lia].
    specialize (Hbid _ eq_refl). specialize (Hask _ eq_refl).
    split; [lia |]. intros ? ? [= <-] [= <-] _. lia.
  - split; [by apply (mi_trade _ Hinv) |]. intros ? ? [= <-] [= <-]. lia.
Qed.

(** * Witnesses *)

(** A snapshot of two levels, an update, and a break. *)
Definition sample_feed : list FeedEvent :=
  [ (1, MarketEventKind.SnapshotBegin 9, 10);
    (2, MarketEventKind.SnapshotLevel Side.Buy 99 5, 11);
    (3, MarketEventKind.SnapshotLevel Side.Sell 101 7, 12);
    (4, MarketEventKind.SnapshotEnd 9 2, 13);
    (5, MarketEventKind.LevelSet Side.Buy 98 3, 14) ].

Definition sample_view (n : nat) : MarketView :=
  match market_run (Market.new 1 1000 2) (take n sample_feed) with
  | Ret v => v
  | Panic => Market.new 1 1000 2
  end.

Lemma sample_view_inv n : (n <= 5)%nat -> market_inv (sample_view n).
Proof.
  intros Hn. unfold sample_view.
  destruct (market_run_ok (Market.new 1 1000 2) 0 (take n sample_feed)) as (v & -> & I & _);
    [apply new_inv | by repeat split; simpl; lia | rewrite length_take; simpl; lia | | done].
  apply Forall_take. repeat constructor; simpl; mach.
Qed.

Lemma market_run_bounded_witness :
  exists v, market_run (Market.new 1 1000 2) sample_feed = Ret v
    /\ (forall side, BTree.sorted (Market.side_levels v side)
          /\ (Market.retained_levels v side <= Nat.max 2 1)%nat
          /\ Forall (fun kv => 1 <= kv.1 <= 1000 /\ 0 < kv.2 <= u64_max)
               (Market.side_levels v side))
    /\ (mv_state v <> FeedState.ApplyingSnapshot ->
        Market.pending_levels v Side.Buy = [] /\ Market.pending_levels v Side.Sell = []
        /\ mv_scratch_levels v = 0).
Proof. apply market_run_bounded; [simpl; lia | reflexivity]. Defined.

Lemma live_only_through_complete_snapshot_witness :
  mv_state (sample_view 3) = FeedState.ApplyingSnapshot
  /\ MarketEventKind.SnapshotEnd 9 2
     = MarketEventKind.SnapshotEnd (mv_snapshot_seq (sample_view 3))
         (mv_scratch_levels (sample_view 3))
  /\ in_sequence (sample_view 3) 4
  /\ mv_bids (sample_view 4) = mv_scratch_bids (sample_view 3)
  /\ mv_asks (sample_view 4) = mv_scratch_asks (sample_view 3).
Proof.
  eapply (live_only_through_complete_snapshot (sample_view 3) (sample_view 4) 4
            (MarketEventKind.SnapshotEnd 9 2) 13).
  - apply sample_view_inv. lia.
  - vm_compute. discriminate.
  - vm_compute. reflexivity.
  - vm_compute. reflexivity.
Defined.

Lemma visible_levels_change_only_witness :
  in_sequence (sample_view 4) 5 /\
  ((mv_state (sample_view 4) = FeedState.ApplyingSnapshot
    /\ MarketEventKind.LevelSet Side.Buy 98 3
       = MarketEventKind.SnapshotEnd (mv_snapshot_seq (sample_view 4))
           (mv_scratch_levels (sample_view 4)))
   \/ (mv_state (sample_view 4) = FeedState.Live
       /\ exists side p q, MarketEventKind.LevelSet Side.Buy 98 3
                           = MarketEventKind.LevelSet side p q)
   \/ (exists e, MarketEventKind.LevelSet Side.Buy 98 3 = MarketEventKind.FeedReset e
                 /\ mv_epoch (sample_view 4) < e)).
Proof.
  eapply (visible_levels_change_only (sample_view 4) (sample_view 5) 5
            (MarketEventKind.LevelSet Side.Buy 98 3) 14).
  - vm_compute. reflexivity.
  - left. vm_compute. discriminate.
Defined.

Definition after_break : MarketView :=
  match Market.apply (sample_view 5) 9 MarketEventKind.Heartbeat 15 with
  | Ret (v, _) => v
  | Panic => sample_view 5
  end.

Lemma sequence_break_not_applied_witness :
  mv_bids after_break = mv_bids (sample_view 5) /\ mv_asks after_break = mv_asks (sample_view 5)
  /\ false = false /\ mv_state after_break = FeedState.Gap
  /\ mv_scratch_bids after_break = [] /\ mv_scratch_asks after_break = [].
Proof.
  apply (sequence_break_not_applied (sample_view 5) after_break 9 MarketEventKind.Heartbeat 15
           (mkMarketUpdate FeedState.Live FeedState.Gap false)).
  - left. vm_compute. reflexivity.
  - vm_compute. discriminate.
  - lia.
  - vm_compute. discriminate.
  - vm_compute. reflexivity.
Defined.

Lemma set_bounded_keeps_best_witness :
  Market.set_bounded [(99, 5); (100, 2)] Side.Buy 98 7 2
  = drop (length (BTree.insert 98 7 [(99, 5); (100, 2)]) - 2)
      (BTree.insert 98 7 [(99, 5); (100, 2)]).
Proof.
  apply (set_bounded_keeps_best [(99, 5); (100, 2)] Side.Buy 98 7 2); [| simpl; lia..].
  repeat constructor.
Defined.

Lemma reference_price_in_domain_witness :
  1 <= 100 <= 1000 /\ forall bid ask, Market.best_bid (sample_view 5) = Some bid ->
    Market.best_ask (sample_view 5) = Some ask -> bid < ask -> bid <= 100 <= ask.
Proof.
  apply (reference_price_in_domain (sample_view 5) 100); [apply sample_view_inv; lia |].
  vm_compute. reflexivity.
Defined.
