(* ===== verification/Account.v ===== *)
(** Per-account risk state ([crates/trading-core/src/account.rs]): positions and
    working-order reservations, and the bounded window of request outcomes. *)

From S2P Require Import Prelude Enums Ids Events.

Record InstrumentPosition := mkInstrumentPosition {
  position_lots : Z;
  open_buy_lots : Z;
  open_sell_lots : Z;
  open_buy_notional : Z;
  open_sell_notional : Z
}.

(** [InstrumentPosition::default]. *)
Definition position_default : InstrumentPosition := mkInstrumentPosition 0 0 0 0 0.

Module Position.

Implicit Types (p : InstrumentPosition).

Definition open_lots (p : InstrumentPosition) (side : Side.t) : Z :=
  match side with
  | Side.Buy => open_buy_lots p
  | Side.Sell => open_sell_lots p
  end.

(** The side's notional; the source names the two fields directly. *)
Definition open_notional (p : InstrumentPosition) (side : Side.t) : Z :=
  match side with
  | Side.Buy => open_buy_notional p
  | Side.Sell => open_sell_notional p
  end.

Definition set_position_lots (p : InstrumentPosition) (z : Z) : InstrumentPosition :=
  mkInstrumentPosition z (open_buy_lots p) (open_sell_lots p) (open_buy_notional p)
    (open_sell_notional p).

Definition set_lots (p : InstrumentPosition) (side : Side.t) (lots : Z) : InstrumentPosition :=
  match side with
  | Side.Buy => mkInstrumentPosition (position_lots p) lots (open_sell_lots p)
                  (open_buy_notional p) (open_sell_notional p)
  | Side.Sell => mkInstrumentPosition (position_lots p) (open_buy_lots p) lots
                   (open_buy_notional p) (open_sell_notional p)
  end.

Definition set_notional (p : InstrumentPosition) (side : Side.t) (n : Z) : InstrumentPosition :=
  match side with
  | Side.Buy => mkInstrumentPosition (position_lots p) (open_buy_lots p) (open_sell_lots p)
                  n (open_sell_notional p)
  | Side.Sell => mkInstrumentPosition (position_lots p) (open_buy_lots p) (open_sell_lots p)
                   (open_buy_notional p) n
  end.

(** [reserve] and [release] return the position they leave and whether they
    returned [Some(())]; a failure in the second field leaves the first field
    already written. *)
Definition reserve (p : InstrumentPosition) (side : Side.t) (lots : QuantityLots)
    (notional : Notional) : InstrumentPosition * option unit :=
  match u64_checked (open_lots p side + lots) with
  | None => (p, None)
  | Some l =>
      let p := set_lots p side l in
      match u128_checked (open_notional p side + notional) with
      | None => (p, None)
      | Some n => (set_notional p side n, Some tt)
      end
  end.

Definition release (p : InstrumentPosition) (side : Side.t) (lots : QuantityLots)
    (notional : Notional) : InstrumentPosition * option unit :=
  match u64_checked (open_lots p side - lots) with
  | None => (p, None)
  | Some l =>
      let p := set_lots p side l in
      match u128_checked (open_notional p side - notional) with
      | None => (p, None)
      | Some n => (set_notional p side n, Some tt)
      end
  end.

End Position.

(** [i64::try_from] of a [u64]. *)
Definition i64_try_from (z : Z) : option Z := i64_checked z.

(** Signed position after applying a fill. *)
Definition apply_fill_to_position (p : InstrumentPosition) (side : Side.t)
    (quantity : QuantityLots) : InstrumentPosition * option unit :=
  match i64_try_from quantity with
  | None => (p, None)
  | Some signed =>
      match i64_checked (match side with
                         | Side.Buy => position_lots p + signed
                         | Side.Sell => position_lots p - signed
                         end) with
      | None => (p, None)
      | Some lots => (Position.set_position_lots p lots, Some tt)
      end
  end.

(** Absolute exposure of one instrument at the supplied mark. *)
Definition instrument_exposure (p : InstrumentPosition) (mark : PriceTicks) : option Notional :=
  let* position_value := u128_checked (Z.abs (position_lots p) * Z.abs mark) in
  let* with_buys := u128_checked (position_value + open_buy_notional p) in
  u128_checked (with_buys + open_sell_notional p).

(** * Request outcomes *)

Abbreviation RequestOutcome := ExecutionReport (only parsing).

Record CachedRequest := mkCachedRequest {
  cr_request_id : RequestId;
  cr_fingerprint : Z;
  cr_outcome : RequestOutcome
}.

Inductive CacheHit :=
| Retry (outcome : RequestOutcome)
| Conflict.

Record RequestCache := mkRequestCache {
  rc_entries : list (option CachedRequest);
  rc_index : gmap RequestId nat;
  rc_next : nat
}.

Module Cache.

Implicit Types (c : RequestCache).

Definition new (capacity : nat) : RequestCache :=
  mkRequestCache (replicate (Nat.max capacity 1) None) ∅ 0.

Definition lookup (c : RequestCache) (request_id : RequestId) (fingerprint : Z)
  : option CacheHit :=
  let* slot := rc_index c !! request_id in
  let* cell := rc_entries c !! slot in
  let* entry := cell in
  if negb (cr_request_id entry =? request_id) then None
  else Some (if cr_fingerprint entry =? fingerprint then Retry (cr_outcome entry) else Conflict).

(** Indexing [entries[next]] and the remainder by [entries.len()] panic on an
    empty ring; [new] never makes one. *)
Definition record (c : RequestCache) (request_id : RequestId) (fingerprint : Z)
    (outcome : RequestOutcome) : res RequestCache :=
  let! previous := index (rc_entries c) (rc_next c) in
  let idx :=
    match previous with
    | Some previous =>
        if bool_decide (rc_index c !! cr_request_id previous = Some (rc_next c))
        then delete (cr_request_id previous) (rc_index c)
        else rc_index c
    | None => rc_index c
    end in
  let! entries :=
    index_set (rc_entries c) (rc_next c)
      (Some (mkCachedRequest request_id fingerprint outcome)) in
  let! next := usize_rem (rc_next c + 1) (length entries) in
  Ret (mkRequestCache entries (<[request_id := rc_next c]> idx) next).

(** Retained entries in insertion order. *)
Definition canonical_entries (c : RequestCache) : list (RequestId * Z * RequestOutcome) :=
  let len := length (rc_entries c) in
  omap (fun offset =>
          let* cell := rc_entries c !! ((rc_next c + offset) mod len)%nat in
          let* entry := cell in
          Some (cr_request_id entry, cr_fingerprint entry, cr_outcome entry))
    (seq 0 len).

End Cache.

Record AccountState := mkAccountState {
  ac_id : AccountId;
  ac_enabled : bool;
  ac_limits : AccountLimits;
  ac_last_client_seq : Z;
  ac_positions : list InstrumentPosition;
  ac_cache : RequestCache
}.

Module Account.

Definition new (id : AccountId) (enabled : bool) (limits : AccountLimits)
    (instruments dedup_window : nat) : AccountState :=
  mkAccountState id enabled limits 0 (replicate instruments position_default)
    (Cache.new dedup_window).

Definition set_enabled (a : AccountState) (b : bool) : AccountState :=
  mkAccountState (ac_id a) b (ac_limits a) (ac_last_client_seq a) (ac_positions a) (ac_cache a).

Definition set_limits (a : AccountState) (l : AccountLimits) : AccountState :=
  mkAccountState (ac_id a) (ac_enabled a) l (ac_last_client_seq a) (ac_positions a) (ac_cache a).

Definition set_last_client_seq (a : AccountState) (s : Z) : AccountState :=
  mkAccountState (ac_id a) (ac_enabled a) (ac_limits a) s (ac_positions a) (ac_cache a).

Definition set_positions (a : AccountState) (ps : list InstrumentPosition) : AccountState :=
  mkAccountState (ac_id a) (ac_enabled a) (ac_limits a) (ac_last_client_seq a) ps (ac_cache a).

Definition set_cache (a : AccountState) (c : RequestCache) : AccountState :=
  mkAccountState (ac_id a) (ac_enabled a) (ac_limits a) (ac_last_client_seq a)
    (ac_positions a) c.

End Account.

(** * The fingerprint *)

(** [value.to_le_bytes()] of a [u64]. *)
Definition u64_le_bytes (value : Z) : list Z :=
  map (fun i => (value / 2 ^ (8 * Z.of_nat i)) mod 256) (seq 0 8).

(** The closure [mix]: FNV-1a over the eight bytes. *)
Definition fnv_mix (hash value : Z) : Z :=
  fold_left (fun h byte => u64_wrap (Z.lxor h byte * 1099511628211)) (u64_le_bytes value) hash.

Definition request_fingerprint (r : OrderRequest) : Z :=
  fold_left fnv_mix
    [ RequestKind.wire (req_kind r); Side.wire (req_side r);
      OrderType.wire (req_order_type r); req_account r; req_instrument r;
      req_client_order_id r; req_target_client_order_id r; req_client_seq r;
      as_u64 (req_price r); req_quantity r ]
    14695981039346656037.
