(* ===== verification/AccountProps.v ===== *)
(** The request window and the reservations. *)

From S2P Require Import Prelude Enums Ids Events Account.

Implicit Types (c : RequestCache) (p : InstrumentPosition).

(** * The request window *)

Record cache_inv (c : RequestCache) : Prop := {
  ci_next : (rc_next c < length (rc_entries c))%nat;
  ci_index rid s : rc_index c !! rid = Some s ->
    exists e, rc_entries c !! s = Some (Some e) /\ cr_request_id e = rid
}.

(** What the window holds for a request id. *)
Definition cached (c : RequestCache) (rid : RequestId) : option CachedRequest :=
  let* s := rc_index c !! rid in
  let* cell := rc_entries c !! s in
  cell.

Lemma new_cache_inv n : cache_inv (Cache.new n).
Proof.
  constructor; simpl; [rewrite length_replicate; lia |]. intros rid s. by rewrite lookup_empty.
Qed.

Lemma lookup_cached c rid fp :
  cache_inv c ->
  Cache.lookup c rid fp
  = (fun e => if cr_fingerprint e =? fp then Retry (cr_outcome e) else Conflict)
    <$> cached c rid.
Proof.
  intros I. unfold Cache.lookup, cached. destruct (rc_index c !! rid) as [s |] eqn:E; [| done].
  destruct (ci_index _ I _ _ E) as (e & -> & Hid). rewrite Hid, Z.eqb_refl. done.
Qed.

Lemma record_ok c rid fp out :
  cache_inv c ->
  exists c', Cache.record c rid fp out = Ret c' /\ cache_inv c'
    /\ length (rc_entries c') = length (rc_entries c)
    /\ rc_next c' = ((rc_next c + 1) mod length (rc_entries c))%nat
    /\ rc_entries c' = <[rc_next c := Some (mkCachedRequest rid fp out)]> (rc_entries c)
    /\ rc_index c' !! rid = Some (rc_next c)
    /\ forall r s, r <> rid -> s <> rc_next c ->
         rc_index c !! r = Some s -> rc_index c' !! r = Some s.
Proof.
  intros I. pose proof (ci_next _ I) as Hn. unfold Cache.record, index, index_set.
  destruct (lookup_lt_is_Some_2 _ _ Hn) as [prev Hprev]. rewrite Hprev. simpl.
  rewrite length_insert, usize_rem_ok by lia. cbn [rbind].
  set (idx := match prev with Some _ => _ | None => _ end).
  assert (Hidx : forall r s, idx !! r = Some s -> rc_index c !! r = Some s /\ s <> rc_next c).
  { intros r s Hr. unfold idx in Hr. destruct prev as [e |].
    - case_bool_decide as Hb.
      + apply lookup_delete_Some in Hr as [Hne Hr]. split; [done |]. intros ->.
        destruct (ci_index _ I _ _ Hr) as (e' & He' & <-). rewrite Hprev in He'. congruence.
      + split; [done |]. intros ->. destruct (ci_index _ I _ _ Hr) as (e' & He' & <-).
        rewrite Hprev in He'. congruence.
    - split; [done |]. intros ->. destruct (ci_index _ I _ _ Hr) as (e' & He' & _).
      congruence. }
  eexists. split; [done |]. cbn [rc_entries rc_index rc_next]. split_and!; try done.
  - constructor; cbn [rc_entries rc_index rc_next].
    { rewrite length_insert. apply Nat.mod_upper_bound. lia. }
    intros r s. rewrite lookup_insert. case_decide as E.
    + intros [= <-]. rewrite list_lookup_insert_eq by lia. eauto.
    + intros Hr. destruct (Hidx _ _ Hr) as [Hr' Hs].
      rewrite list_lookup_insert_ne; [by apply (ci_index _ I) | congruence].
  - by rewrite length_insert.
  - by rewrite lookup_insert_eq.
  - intros r s Hr Hs Hl. rewrite lookup_insert_ne by done. unfold idx.
    destruct prev as [e |]; [| done]. case_bool_decide as Hb; [| done].
    rewrite lookup_delete_ne; [done |]. intros <-. congruence.
Qed.

(** A later record of another request, not on the same slot, keeps an entry. *)
Lemma record_keeps c c' rid s e r fp out :
  cache_inv c -> rc_index c !! rid = Some s -> rc_entries c !! s = Some (Some e) ->
  r <> rid -> s <> rc_next c -> Cache.record c r fp out = Ret c' ->
  rc_index c' !! rid = Some s /\ rc_entries c' !! s = Some (Some e).
Proof.
  intros I Hi He Hr Hs E. destruct (record_ok c r fp out I) as (c1 & E1 & _ & _ & _ & Een & _ & Hk).
  rewrite E in E1. injection E1 as <-. split; [by apply Hk |].
  by rewrite Een, list_lookup_insert_ne.
Qed.

(** What was just recorded is found again. *)
Lemma lookup_recorded c c' rid fp out :
  Cache.record c rid fp out = Ret c' -> Cache.lookup c' rid fp = Some (Retry out).
Proof.
  unfold Cache.record, index, index_set.
  destruct (rc_entries c !! rc_next c) as [prev |] eqn:En; [| done].
  cbn [unwrap rbind]. intros (next & _ & E)%rbind_inv. injection E as <-.
  unfold Cache.lookup. cbn [rc_index rc_entries]. rewrite lookup_insert_eq.
  rewrite list_lookup_insert_eq by (by eapply lookup_lt_Some).
  cbn [cr_request_id cr_fingerprint cr_outcome]. by rewrite !Z.eqb_refl.
Qed.

Fixpoint record_all (c : RequestCache) (rs : list (RequestId * Z * RequestOutcome))
  : res RequestCache :=
  match rs with
  | [] => Ret c
  | (rid, fp, out) :: rs => let! c := Cache.record c rid fp out in record_all c rs
  end.

Lemma slot_not_reused s k len :
  (s < len)%nat -> (k + 1 < len)%nat -> s <> ((s + 1 + k) mod len)%nat.
Proof.
  intros Hs Hk E. destruct (decide (s + 1 + k < len)%nat).
  - rewrite Nat.mod_small in E; lia.
  - assert ((s + 1 + k) mod len = s + 1 + k - len)%nat; [| lia].
    replace (s + 1 + k)%nat with ((s + 1 + k - len) + 1 * len)%nat at 1 by lia.
    rewrite Nat.Div0.mod_add, Nat.mod_small; lia.
Qed.

Lemma record_all_keeps rs c rid s e k :
  cache_inv c -> rc_index c !! rid = Some s -> rc_entries c !! s = Some (Some e) ->
  rc_next c = ((s + 1 + k) mod length (rc_entries c))%nat ->
  (k + length rs < length (rc_entries c))%nat ->
  Forall (fun r => r.1.1 <> rid) rs ->
  exists c', record_all c rs = Ret c' /\ cache_inv c'
    /\ rc_index c' !! rid = Some s /\ rc_entries c' !! s = Some (Some e).
Proof.
  revert c k. induction rs as [| [[r fp] out] rs IH]; intros c k I Hi He Hn Hlen Hall; simpl.
  - by exists c.
  - apply Forall_cons in Hall as [Hr Hall]. simpl in *.
    assert (Hs : (s < length (rc_entries c))%nat) by (by eapply lookup_lt_Some).
    destruct (record_ok c r fp out I) as (c1 & E1 & I1 & L1 & N1 & _).
    rewrite E1. simpl.
    destruct (record_keeps c c1 rid s e r fp out) as [Hi1 He1]; try done.
    { rewrite Hn. apply slot_not_reused; lia. }
    apply (IH c1 (S k)); try done; rewrite ?L1; [| lia].
    rewrite N1, Hn, Nat.Div0.add_mod_idemp_l. f_equal. lia.
Qed.

(** the deduplication window.  A recorded request is found again — the
    same fingerprint as an exact retry with the recorded outcome, another one
    as a conflict — until as many other requests have been recorded as the
    ring has slots. *)
Theorem cache_window (c : RequestCache) (rid : RequestId) (fp : Z) (out : RequestOutcome)
    (rs : list (RequestId * Z * RequestOutcome)) (fp' : Z)
    (Hinv : cache_inv c) (Hlen : (length rs < length (rc_entries c))%nat)
    (Hother : Forall (fun r => r.1.1 <> rid) rs) :
  exists c', record_all c ((rid, fp, out) :: rs) = Ret c'
    /\ Cache.lookup c' rid fp' = Some (if fp =? fp' then Retry out else Conflict).
Proof.
  destruct (record_ok c rid fp out Hinv) as (c1 & E1 & I1 & L1 & N1 & Een & Hi & _).
  pose proof (ci_next _ Hinv) as Hn.
  assert (He : rc_entries c1 !! rc_next c = Some (Some (mkCachedRequest rid fp out))).
  { by rewrite Een, list_lookup_insert_eq. }
  destruct (record_all_keeps rs c1 rid (rc_next c) (mkCachedRequest rid fp out) 0)
    as (c' & E' & I' & Hi' & He'); try done.
  - rewrite N1, L1. f_equal. lia.
  - rewrite L1. simpl. lia.
  - exists c'. cbn [record_all]. rewrite E1. cbn [rbind]. split; [done |].
    rewrite (lookup_cached _ _ _ I'). unfold cached. rewrite Hi', He'. done.
Qed.

(** * Reservations *)

(** The fields a side's reservation does not touch. *)
Lemma reserve_ok p side lots notional :
  in_u64 (Position.open_lots p side + lots) ->
  in_u128 (Position.open_notional p side + notional) ->
  Position.reserve p side lots notional
  = (Position.set_notional (Position.set_lots p side (Position.open_lots p side + lots)) side
       (Position.open_notional p side + notional), Some tt).
Proof.
  intros H1 H2. unfold Position.reserve. rewrite (u64_checked_in _ H1).
  destruct side; simpl in *; by rewrite (u128_checked_in _ H2).
Qed.

Lemma release_ok p side lots notional :
  in_u64 (Position.open_lots p side - lots) ->
  in_u128 (Position.open_notional p side - notional) ->
  Position.release p side lots notional
  = (Position.set_notional (Position.set_lots p side (Position.open_lots p side - lots)) side
       (Position.open_notional p side - notional), Some tt).
Proof.
  intros H1 H2. unfold Position.release. rewrite (u64_checked_in _ H1).
  destruct side; simpl in *; by rewrite (u128_checked_in _ H2).
Qed.

Definition signed_fill (side : Side.t) (q : Z) : Z :=
  match side with
  | Side.Buy => q
  | Side.Sell => - q
  end.

Lemma apply_fill_ok p side q :
  in_i64 q -> in_i64 (position_lots p + signed_fill side q) ->
  apply_fill_to_position p side q
  = (Position.set_position_lots p (position_lots p + signed_fill side q), Some tt).
Proof.
  intros Hq Hp. unfold apply_fill_to_position, i64_try_from. rewrite (i64_checked_in _ Hq).
  destruct side; simpl in *; [by rewrite (i64_checked_in _ Hp) |].
  rewrite <- Z.add_opp_r. by rewrite (i64_checked_in _ Hp).
Qed.

(** A position a Rust value can hold. *)
Record position_wf (p : InstrumentPosition) : Prop := {
  pwf_lots : in_i64 (position_lots p);
  pwf_open side : in_u64 (Position.open_lots p side);
  pwf_notional side : in_u128 (Position.open_notional p side)
}.

(** releasing a reservation undoes it.  Whatever is reserved on a side is
    given back exactly, and the other side and the position are untouched; a
    reservation that does not fit its width reports failure. *)
Theorem reserve_release_roundtrip (p : InstrumentPosition) (side : Side.t)
    (lots : QuantityLots) (notional : Notional)
    (Hp : position_wf p) (Hl : in_u64 lots) (Hn : in_u128 notional) :
  match Position.reserve p side lots notional with
  | (p', Some _) =>
      Position.release p' side lots notional = (p, Some tt)
      /\ position_lots p' = position_lots p
      /\ Position.open_lots p' (Side.opposite side) = Position.open_lots p (Side.opposite side)
      /\ position_wf p'
  | (_, None) =>
      u64_max < Position.open_lots p side + lots
      \/ u128_max < Position.open_notional p side + notional
  end.
Proof.
  destruct Hp as [H1 H2 H3]. pose proof (H2 side) as H2s. pose proof (H3 side) as H3s.
  destruct (decide (in_u64 (Position.open_lots p side + lots))) as [D1 | D1].
  2: { unfold Position.reserve. rewrite (proj2 (u64_checked_None _) D1). left. mach. }
  destruct (decide (in_u128 (Position.open_notional p side + notional))) as [D2 | D2].
  2: { unfold Position.reserve. rewrite (u64_checked_in _ D1).
       assert (u128_checked (Position.open_notional
                 (Position.set_lots p side (Position.open_lots p side + lots)) side + notional)
               = None) as ->; [| right; mach].
       apply checked_None. destruct side; simpl in *; mach. }
  rewrite (reserve_ok _ _ _ _ D1 D2). destruct p as [pl bl sl bn sn].
  split_and!; [| by destruct side | by destruct side |].
  - rewrite release_ok; destruct side; simpl in *; try mach;
      by rewrite !Z.add_simpl_r.
  - constructor; [by destruct side | |]; intros s; specialize (H2 s); specialize (H3 s);
      destruct side, s; simpl in *; done.
Qed.

(** * Witnesses *)

Definition sample_report : ExecutionReport :=
  mkExecutionReport 1 1 1 1 1 5 1 1 ReportKind.Accepted OrderState.Working Side.Buy
    OrderType.Limit 100 10 0 10 0 0 None.

Lemma cache_window_witness :
  exists c', record_all (Cache.new 2) [(5, 77, sample_report); (6, 78, sample_report)] = Ret c'
    /\ Cache.lookup c' 5 77 = Some (Retry sample_report).
Proof.
  apply (cache_window (Cache.new 2) 5 77 sample_report [(6, 78, sample_report)] 77).
  - apply new_cache_inv.
  - simpl. lia.
  - repeat constructor. simpl. lia.
Defined.

Lemma reserve_release_roundtrip_witness :
  let p := mkInstrumentPosition 3 10 2 100 20 in
  match Position.reserve p Side.Buy 5 50 with
  | (p', Some _) =>
      Position.release p' Side.Buy 5 50 = (p, Some tt)
      /\ position_lots p' = position_lots p
      /\ Position.open_lots p' (Side.opposite Side.Buy)
         = Position.open_lots p (Side.opposite Side.Buy)
      /\ position_wf p'
  | (_, None) =>
      u64_max < Position.open_lots p Side.Buy + 5
      \/ u128_max < Position.open_notional p Side.Buy + 50
  end.
Proof.
  intros p. apply (reserve_release_roundtrip p Side.Buy 5 50).
  - subst p. constructor; [simpl; mach | intros []; simpl; mach | intros []; simpl; mach].
  - mach.
  - mach.
Defined.
