(* ===== verification/Config.v ===== *)
(** Engine configuration ([crates/trading-core/src/config.rs]). *)

From Stdlib Require Import Strings.String.
From S2P Require Import Prelude Enums Ids Events.

Record InstrumentConfig := mkInstrumentConfig {
  ic_id : InstrumentId;
  ic_symbol : string;
  ic_tick_size : Z;
  ic_lot_size : Z;
  ic_min_price_ticks : Z;
  ic_max_price_ticks : Z
}.

(** [InstrumentConfig::new]. *)
Definition instrument_config_new (id : Z) (symbol : string) : InstrumentConfig :=
  mkInstrumentConfig id symbol 1 1 1 10000000.

Record AccountConfig := mkAccountConfig {
  acfg_id : AccountId;
  acfg_enabled : bool;
  acfg_limits : AccountLimits
}.

(** [AccountConfig::new]. *)
Definition account_config_new (id : Z) : AccountConfig :=
  mkAccountConfig id true (mkAccountLimits 10000 1000000000 100000 10000000000 5000).

Record EngineConfig := mkEngineConfig {
  ec_run_id : Z;
  ec_instruments : list InstrumentConfig;
  ec_accounts : list AccountConfig;
  ec_max_live_orders : nat;
  ec_max_market_age_ns : Z;
  ec_market_protection_ticks : Z;
  ec_dedup_window : nat;
  ec_max_market_depth : nat
}.

(** One instrument and two accounts. *)
Definition single_instrument (run_id : Z) : EngineConfig :=
  mkEngineConfig run_id [instrument_config_new 1 "LAB-USD"%string]
    [account_config_new 1; account_config_new 2] 4096 1000000000 50 256 256.
