(* ===== verification/CoreState.v ===== *)
(** The state of the engine ([TradingCore] of
    [crates/trading-core/src/core.rs]), its accessors and its reports.

    A method that takes [&mut self] is a function from the old state to the new
    one; a method that may panic returns [res].  The order index, the account
    index and the live orders are hash maps and are never iterated, so [gmap]
    models them. *)

From S2P Require Import Prelude Enums Ids Events BTree Slab Book Matching Market Account Config.

Record InstrumentRuntime (S : Type) := mkInstrumentRuntime {
  ir_config : InstrumentConfig;
  ir_market : MarketView;
  ir_book : OrderBook S
}.

Arguments mkInstrumentRuntime {S}.
Arguments ir_config {S}.
Arguments ir_market {S}.
Arguments ir_book {S}.

Definition ir_set_market {S} (r : InstrumentRuntime S) (v : MarketView) : InstrumentRuntime S :=
  mkInstrumentRuntime (ir_config r) v (ir_book r).
Definition ir_set_book {S} (r : InstrumentRuntime S) (b : OrderBook S) : InstrumentRuntime S :=
  mkInstrumentRuntime (ir_config r) (ir_market r) b.

Record LiveOrder := mkLiveOrder {
  lo_account_index : nat;
  lo_instrument_index : nat
}.

Record EngineMetrics := mkEngineMetrics {
  inputs_applied : Z;
  requests_accepted : Z;
  requests_rejected : Z;
  reports_emitted : Z;
  trades : Z;
  market_events : Z;
  control_events : Z
}.

Definition metrics_default : EngineMetrics := mkEngineMetrics 0 0 0 0 0 0 0.

(** Fatal conditions. *)
Inductive EngineFault := SequenceExhausted | Accounting.

#[export] Instance fault_eq_dec : EqDecision EngineFault.
Proof. solve_decision. Defined.

Record TradingCore (S : Type) := mkTradingCore {
  tc_config : EngineConfig;
  tc_instruments : list (InstrumentRuntime S);
  tc_instrument_index : gmap InstrumentId nat;
  tc_accounts : list AccountState;
  tc_account_index : gmap AccountId nat;
  tc_live_orders : gmap OrderId LiveOrder;
  tc_client_orders : gmap (AccountId * ClientOrderId) OrderId;
  tc_global_kill : bool;
  tc_engine_seq : EngineSeq;
  tc_output_seq : OutputSeq;
  tc_next_order_id : OrderId;
  tc_next_trade_id : TradeId;
  tc_next_priority : PrioritySeq;
  tc_engine_time_ns : Z;
  tc_fills : list Fill;
  tc_metrics : EngineMetrics;
  tc_fault : option EngineFault
}.

Arguments mkTradingCore {S}.
Arguments tc_config {S}.
Arguments tc_instruments {S}.
Arguments tc_instrument_index {S}.
Arguments tc_accounts {S}.
Arguments tc_account_index {S}.
Arguments tc_live_orders {S}.
Arguments tc_client_orders {S}.
Arguments tc_global_kill {S}.
Arguments tc_engine_seq {S}.
Arguments tc_output_seq {S}.
Arguments tc_next_order_id {S}.
Arguments tc_next_trade_id {S}.
Arguments tc_next_priority {S}.
Arguments tc_engine_time_ns {S}.
Arguments tc_fills {S}.
Arguments tc_metrics {S}.
Arguments tc_fault {S}.

Record CheckedNewOrder := mkCheckedNewOrder {
  cn_account_index : nat;
  cn_instrument_index : nat;
  cn_execution_limit : PriceTicks
}.

Record CheckedReplace := mkCheckedReplace {
  cr_account_index : nat;
  cr_instrument_index : nat;
  cr_order_id : OrderId;
  cr_existing : OrderNode
}.

(** [map.insert] over [iter().enumerate()], as [collect] builds the indexes: a
    repeated id keeps its last position. *)
Fixpoint index_ids (ids : list Z) (i : nat) (m : gmap Z nat) : gmap Z nat :=
  match ids with
  | [] => m
  | id :: ids => index_ids ids (Datatypes.S i) (<[id := i]> m)
  end.

Module Core.

Section CoreState.
Context {S : Type} `{SL : Slab OrderNode S}.
Implicit Types (c : TradingCore S).

(** ** Field updates *)

Definition set_instruments (c : TradingCore S) (x : list (InstrumentRuntime S)) : TradingCore S :=
  mkTradingCore (tc_config c) x (tc_instrument_index c) (tc_accounts c)
    (tc_account_index c) (tc_live_orders c) (tc_client_orders c) (tc_global_kill c)
    (tc_engine_seq c) (tc_output_seq c) (tc_next_order_id c) (tc_next_trade_id c)
    (tc_next_priority c) (tc_engine_time_ns c) (tc_fills c) (tc_metrics c) (tc_fault c).

Definition set_accounts (c : TradingCore S) (x : list AccountState) : TradingCore S :=
  mkTradingCore (tc_config c) (tc_instruments c) (tc_instrument_index c) x
    (tc_account_index c) (tc_live_orders c) (tc_client_orders c) (tc_global_kill c)
    (tc_engine_seq c) (tc_output_seq c) (tc_next_order_id c) (tc_next_trade_id c)
    (tc_next_priority c) (tc_engine_time_ns c) (tc_fills c) (tc_metrics c) (tc_fault c).

Definition set_live_orders (c : TradingCore S) (x : gmap OrderId LiveOrder) : TradingCore S :=
  mkTradingCore (tc_config c) (tc_instruments c) (tc_instrument_index c) (tc_accounts c)
    (tc_account_index c) x (tc_client_orders c) (tc_global_kill c) (tc_engine_seq c)
    (tc_output_seq c) (tc_next_order_id c) (tc_next_trade_id c) (tc_next_priority c)
    (tc_engine_time_ns c) (tc_fills c) (tc_metrics c) (tc_fault c).

Definition set_client_orders (c : TradingCore S) (x : gmap (AccountId * ClientOrderId) OrderId) : TradingCore S :=
  mkTradingCore (tc_config c) (tc_instruments c) (tc_instrument_index c) (tc_accounts c)
    (tc_account_index c) (tc_live_orders c) x (tc_global_kill c) (tc_engine_seq c)
    (tc_output_seq c) (tc_next_order_id c) (tc_next_trade_id c) (tc_next_priority c)
    (tc_engine_time_ns c) (tc_fills c) (tc_metrics c) (tc_fault c).

Definition set_global_kill (c : TradingCore S) (x : bool) : TradingCore S :=
  mkTradingCore (tc_config c) (tc_instruments c) (tc_instrument_index c) (tc_accounts c)
    (tc_account_index c) (tc_live_orders c) (tc_client_orders c) x (tc_engine_seq c)
    (tc_output_seq c) (tc_next_order_id c) (tc_next_trade_id c) (tc_next_priority c)
    (tc_engine_time_ns c) (tc_fills c) (tc_metrics c) (tc_fault c).

Definition set_engine_seq (c : TradingCore S) (x : EngineSeq) : TradingCore S :=
  mkTradingCore (tc_config c) (tc_instruments c) (tc_instrument_index c) (tc_accounts c)
    (tc_account_index c) (tc_live_orders c) (tc_client_orders c) (tc_global_kill c) x
    (tc_output_seq c) (tc_next_order_id c) (tc_next_trade_id c) (tc_next_priority c)
    (tc_engine_time_ns c) (tc_fills c) (tc_metrics c) (tc_fault c).

Definition set_output_seq (c : TradingCore S) (x : OutputSeq) : TradingCore S :=
  mkTradingCore (tc_config c) (tc_instruments c) (tc_instrument_index c) (tc_accounts c)
    (tc_account_index c) (tc_live_orders c) (tc_client_orders c) (tc_global_kill c)
    (tc_engine_seq c) x (tc_next_order_id c) (tc_next_trade_id c) (tc_next_priority c)
    (tc_engine_time_ns c) (tc_fills c) (tc_metrics c) (tc_fault c).

Definition set_next_order_id (c : TradingCore S) (x : OrderId) : TradingCore S :=
  mkTradingCore (tc_config c) (tc_instruments c) (tc_instrument_index c) (tc_accounts c)
    (tc_account_index c) (tc_live_orders c) (tc_client_orders c) (tc_global_kill c)
    (tc_engine_seq c) (tc_output_seq c) x (tc_next_trade_id c) (tc_next_priority c)
    (tc_engine_time_ns c) (tc_fills c) (tc_metrics c) (tc_fault c).

Definition set_next_trade_id (c : TradingCore S) (x : TradeId) : TradingCore S :=
  mkTradingCore (tc_config c) (tc_instruments c) (tc_instrument_index c) (tc_accounts c)
    (tc_account_index c) (tc_live_orders c) (tc_client_orders c) (tc_global_kill c)
    (tc_engine_seq c) (tc_output_seq c) (tc_next_order_id c) x (tc_next_priority c)
    (tc_engine_time_ns c) (tc_fills c) (tc_metrics c) (tc_fault c).

Definition set_next_priority (c : TradingCore S) (x : PrioritySeq) : TradingCore S :=
  mkTradingCore (tc_config c) (tc_instruments c) (tc_instrument_index c) (tc_accounts c)
    (tc_account_index c) (tc_live_orders c) (tc_client_orders c) (tc_global_kill c)
    (tc_engine_seq c) (tc_output_seq c) (tc_next_order_id c) (tc_next_trade_id c) x
    (tc_engine_time_ns c) (tc_fills c) (tc_metrics c) (tc_fault c).

Definition set_engine_time_ns (c : TradingCore S) (x : Z) : TradingCore S :=
  mkTradingCore (tc_config c) (tc_instruments c) (tc_instrument_index c) (tc_accounts c)
    (tc_account_index c) (tc_live_orders c) (tc_client_orders c) (tc_global_kill c)
    (tc_engine_seq c) (tc_output_seq c) (tc_next_order_id c) (tc_next_trade_id c)
    (tc_next_priority c) x (tc_fills c) (tc_metrics c) (tc_fault c).

Definition set_fills (c : TradingCore S) (x : list Fill) : TradingCore S :=
  mkTradingCore (tc_config c) (tc_instruments c) (tc_instrument_index c) (tc_accounts c)
    (tc_account_index c) (tc_live_orders c) (tc_client_orders c) (tc_global_kill c)
    (tc_engine_seq c) (tc_output_seq c) (tc_next_order_id c) (tc_next_trade_id c)
    (tc_next_priority c) (tc_engine_time_ns c) x (tc_metrics c) (tc_fault c).

Definition set_metrics (c : TradingCore S) (x : EngineMetrics) : TradingCore S :=
  mkTradingCore (tc_config c) (tc_instruments c) (tc_instrument_index c) (tc_accounts c)
    (tc_account_index c) (tc_live_orders c) (tc_client_orders c) (tc_global_kill c)
    (tc_engine_seq c) (tc_output_seq c) (tc_next_order_id c) (tc_next_trade_id c)
    (tc_next_priority c) (tc_engine_time_ns c) (tc_fills c) x (tc_fault c).

Definition set_fault (c : TradingCore S) (x : option EngineFault) : TradingCore S :=
  mkTradingCore (tc_config c) (tc_instruments c) (tc_instrument_index c) (tc_accounts c)
    (tc_account_index c) (tc_live_orders c) (tc_client_orders c) (tc_global_kill c)
    (tc_engine_seq c) (tc_output_seq c) (tc_next_order_id c) (tc_next_trade_id c)
    (tc_next_priority c) (tc_engine_time_ns c) (tc_fills c) (tc_metrics c) x.

(** ** Construction and access *)

Definition new_runtime (config : EngineConfig) (i : InstrumentConfig) : InstrumentRuntime S :=
  mkInstrumentRuntime i
    (Market.new (ic_min_price_ticks i) (ic_max_price_ticks i) (ec_max_market_depth config))
    (Book.with_capacity (ec_max_live_orders config)).

Definition new (config : EngineConfig) : TradingCore S :=
  let instruments := map (new_runtime config) (ec_instruments config) in
  let accounts :=
    map (fun a => Account.new (acfg_id a) (acfg_enabled a) (acfg_limits a)
                    (length instruments) (ec_dedup_window config))
      (ec_accounts config) in
  mkTradingCore config instruments
    (index_ids (map (fun r => ic_id (ir_config r)) instruments) 0 ∅)
    accounts (index_ids (map ac_id accounts) 0 ∅) ∅ ∅ false 0 0 0 0 0 0 []
    metrics_default None.

Definition account_index_of (c : TradingCore S) (account : AccountId) : option nat :=
  tc_account_index c !! account.

Definition instrument_index_of (c : TradingCore S) (instrument : InstrumentId) : option nat :=
  tc_instrument_index c !! instrument.

Definition client_order_lookup (c : TradingCore S) (account : AccountId)
    (client_order_id : ClientOrderId) : option OrderId :=
  tc_client_orders c !! (account, client_order_id).

(** [self.instruments[i]], [self.accounts[i]] and [position]. *)
Definition instrument (c : TradingCore S) (i : nat) : res (InstrumentRuntime S) :=
  index (tc_instruments c) i.

Definition account (c : TradingCore S) (i : nat) : res AccountState := index (tc_accounts c) i.

Definition position (c : TradingCore S) (account_index instrument_index : nat)
  : res InstrumentPosition :=
  let! a := account c account_index in
  index (ac_positions a) instrument_index.

(** Writes through [&mut self.instruments[i]] and [&mut self.accounts[i]]. *)
Definition put_instrument (c : TradingCore S) (i : nat) (r : InstrumentRuntime S)
  : res (TradingCore S) :=
  let! l := index_set (tc_instruments c) i r in
  Ret (set_instruments c l).

Definition put_account (c : TradingCore S) (i : nat) (a : AccountState) : res (TradingCore S) :=
  let! l := index_set (tc_accounts c) i a in
  Ret (set_accounts c l).

Definition put_position (c : TradingCore S) (account_index instrument_index : nat)
    (p : InstrumentPosition) : res (TradingCore S) :=
  let! a := account c account_index in
  let! ps := index_set (ac_positions a) instrument_index p in
  put_account c account_index (Account.set_positions a ps).

Definition put_book (c : TradingCore S) (i : nat) (b : OrderBook S) : res (TradingCore S) :=
  let! r := instrument c i in
  put_instrument c i (ir_set_book r b).

Definition book (c : TradingCore S) (i : nat) : res (OrderBook S) :=
  let! r := instrument c i in
  Ret (ir_book r).

Definition live_order_count (c : TradingCore S) : nat := size (tc_live_orders c).

(** ** Sequences and reports *)

Definition take_output_seq (c : TradingCore S) : TradingCore S * OutputSeq :=
  match next (tc_output_seq c) with
  | Some n => (set_output_seq c n, n)
  | None => (set_fault c (Some SequenceExhausted), tc_output_seq c)
  end.

Definition push_state (c : TradingCore S) (event : EngineStateEvent.t)
    (out : list OutputEvent.t) : TradingCore S * list OutputEvent.t :=
  let '(c, output_seq) := take_output_seq c in
  (c, out ++ [OutputEvent.State
                (mkStateEvent output_seq (tc_engine_seq c) (tc_engine_time_ns c) event)]).

Definition base_report (c : TradingCore S) (request : OrderRequest) (order_id : OrderId)
  : TradingCore S * ExecutionReport :=
  let '(c, output_seq) := take_output_seq c in
  (c, mkExecutionReport output_seq (tc_engine_seq c) (tc_engine_time_ns c)
        (req_account request) (req_instrument request) (req_request_id request)
        (req_client_order_id request) order_id ReportKind.Accepted OrderState.Working
        (req_side request) (req_order_type request) (req_price request)
        (req_quantity request) QuantityLots.ZERO (req_quantity request)
        QuantityLots.ZERO 0 None).

(** A report with other [kind], [state], [cumulative_filled] and [remaining]. *)
Definition report_with (r : ExecutionReport) (kind : ReportKind.t) (state : OrderState.t)
    (cumulative remaining : QuantityLots) : ExecutionReport :=
  mkExecutionReport (rep_output_seq r) (rep_engine_seq r) (rep_engine_time_ns r)
    (rep_account r) (rep_instrument r) (rep_request_id r) (rep_client_order_id r)
    (rep_order_id r) kind state (rep_side r) (rep_order_type r) (rep_price r)
    (rep_total_quantity r) cumulative remaining (rep_last_fill_quantity r)
    (rep_last_fill_price r) (rep_reject_reason r).

(** A report about the resting order rather than the request. *)
Definition report_of_order (r : ExecutionReport) (client_order_id : ClientOrderId)
    (side : Side.t) : ExecutionReport :=
  mkExecutionReport (rep_output_seq r) (rep_engine_seq r) (rep_engine_time_ns r)
    (rep_account r) (rep_instrument r) (rep_request_id r) client_order_id
    (rep_order_id r) (rep_kind r) (rep_state r) side (rep_order_type r) (rep_price r)
    (rep_total_quantity r) (rep_cumulative_filled r) (rep_remaining r)
    (rep_last_fill_quantity r) (rep_last_fill_price r) (rep_reject_reason r).

Definition report_price_total (r : ExecutionReport) (price : PriceTicks)
    (total : QuantityLots) : ExecutionReport :=
  mkExecutionReport (rep_output_seq r) (rep_engine_seq r) (rep_engine_time_ns r)
    (rep_account r) (rep_instrument r) (rep_request_id r) (rep_client_order_id r)
    (rep_order_id r) (rep_kind r) (rep_state r) (rep_side r) (rep_order_type r) price
    total (rep_cumulative_filled r) (rep_remaining r)
    (rep_last_fill_quantity r) (rep_last_fill_price r) (rep_reject_reason r).

Definition report_last_fill (r : ExecutionReport) (quantity : QuantityLots)
    (price : PriceTicks) : ExecutionReport :=
  mkExecutionReport (rep_output_seq r) (rep_engine_seq r) (rep_engine_time_ns r)
    (rep_account r) (rep_instrument r) (rep_request_id r) (rep_client_order_id r)
    (rep_order_id r) (rep_kind r) (rep_state r) (rep_side r) (rep_order_type r)
    (rep_price r) (rep_total_quantity r) (rep_cumulative_filled r) (rep_remaining r)
    quantity price (rep_reject_reason r).

Definition report_reject (r : ExecutionReport) (reason : RejectReason.t) : ExecutionReport :=
  mkExecutionReport (rep_output_seq r) (rep_engine_seq r) (rep_engine_time_ns r)
    (rep_account r) (rep_instrument r) (rep_request_id r) (rep_client_order_id r)
    (rep_order_id r) (rep_kind r) (rep_state r) (rep_side r) (rep_order_type r)
    (rep_price r) (rep_total_quantity r) (rep_cumulative_filled r) (rep_remaining r)
    (rep_last_fill_quantity r) (rep_last_fill_price r) (Some reason).

Definition reject_report (c : TradingCore S) (request : OrderRequest)
    (reason : RejectReason.t) : TradingCore S * ExecutionReport :=
  let '(c, report) := base_report c request 0 in
  (c, report_reject
        (report_with report ReportKind.Rejected OrderState.Cancelled
           (rep_cumulative_filled report) QuantityLots.ZERO) reason).

Definition terminal_report (c : TradingCore S) (request : OrderRequest) (order_id : OrderId)
    (kind : ReportKind.t) (filled : QuantityLots) : TradingCore S * ExecutionReport :=
  let '(c, report) := base_report c request order_id in
  (c, report_with report kind OrderState.Filled filled QuantityLots.ZERO).

Definition cancelled_report (c : TradingCore S) (request : OrderRequest) (order_id : OrderId)
    (total filled : QuantityLots) : TradingCore S * ExecutionReport :=
  let '(c, report) := base_report c request order_id in
  (c, report_with (report_price_total report (rep_price report) total)
        ReportKind.Cancelled OrderState.Cancelled filled QuantityLots.ZERO).

Definition replace_cancelled_report (c : TradingCore S) (request : OrderRequest)
    (order_id : OrderId) (existing : OrderNode) : TradingCore S * ExecutionReport :=
  let '(c, report) := base_report c request order_id in
  (c, report_with (report_of_order report (node_client_order_id existing) (node_side existing))
        ReportKind.Cancelled OrderState.Cancelled (node_cumulative_filled existing)
        QuantityLots.ZERO).

(** [working_state]: [Working] until something is filled. *)
Definition working_state (filled : QuantityLots) : OrderState.t :=
  if QuantityLots.is_zero filled then OrderState.Working else OrderState.PartiallyFilled.

End CoreState.

End Core.
