(* ===== verification/Risk.v ===== *)
(** Pre-trade risk ([crates/trading-core/src/risk.rs]).  The checks run in a
    fixed order and only read the state. *)

From S2P Require Import Prelude Enums Ids Events BTree Slab Book Matching Market Account Config.
From S2P Require Import CoreState.

(** Tick distance; [abs_diff] of two [i64]. *)
Definition tick_distance (left right : PriceTicks) : Z := Z.abs (left - right).

(** A negative collar admits no distance at all. *)
Definition collar_ticks (limits : AccountLimits) : Z :=
  default 0 (u64_checked (price_collar_ticks limits)).

Definition worst_case_position (p : InstrumentPosition) (side : Side.t) : option Z :=
  let* signed :=
    match side with
    | Side.Buy =>
        let* lots := i64_try_from (open_buy_lots p) in
        i64_checked (position_lots p + lots)
    | Side.Sell =>
        let* lots := i64_try_from (open_sell_lots p) in
        i64_checked (position_lots p - lots)
    end in
  Some (Z.abs signed).

(** Market orders execute up to a bounded distance from the reference price. *)
Definition protection_price (reference : PriceTicks) (side : Side.t) (ticks : Z)
  : res (Result PriceTicks RejectReason.t) :=
  ok_or (match side with
         | Side.Buy => PriceTicks.checked_add_ticks reference ticks
         | Side.Sell => PriceTicks.checked_sub_ticks reference ticks
         end) RejectReason.ArithmeticOverflow.

(** The projected reservation of [check_exposure]: release, then add. *)
Definition projected_position (p : InstrumentPosition) (side : Side.t)
    (replaced_lots released added_lots added : Z) : option InstrumentPosition :=
  let* lots := u64_checked (Position.open_lots p side - replaced_lots) in
  let* lots := u64_checked (lots + added_lots) in
  let p := Position.set_lots p side lots in
  let* value := u128_checked (Position.open_notional p side - released) in
  let* value := u128_checked (value + added) in
  Some (Position.set_notional p side value).

Module Risk.

Section Risk.
Context {S : Type} `{SL : Slab OrderNode S}.
Implicit Types (c : TradingCore S).

(** [if cond { return Err(reason) }]. *)
Definition reject_if (cond : bool) (reason : RejectReason.t) : res (Result unit RejectReason.t) :=
  if cond then Ret (Err reason) else Ret (Ok tt).

Definition check_quantity (c : TradingCore S) (instrument_index : nat)
    (quantity : QuantityLots) : res (Result unit RejectReason.t) :=
  if QuantityLots.is_zero quantity then Ret (Err RejectReason.InvalidQuantity)
  else
    let! r := Core.instrument c instrument_index in
    let! m := u64_rem quantity (ic_lot_size (ir_config r)) in
    reject_if (negb (m =? 0)) RejectReason.QuantityNotAligned.

Definition check_price (c : TradingCore S) (instrument_index : nat) (price : PriceTicks)
  : res (Result unit RejectReason.t) :=
  let! r := Core.instrument c instrument_index in
  let i := ir_config r in
  if (price <? ic_min_price_ticks i) || (ic_max_price_ticks i <? price)
  then Ret (Err RejectReason.InvalidPrice)
  else
    let! m := i64_rem price (ic_tick_size i) in
    reject_if (negb (m =? 0)) RejectReason.PriceNotAligned.

Definition check_trading_permitted (c : TradingCore S) (account_index : nat)
  : res (Result unit RejectReason.t) :=
  if tc_global_kill c then Ret (Err RejectReason.GlobalKillActive)
  else
    let! a := Core.account c account_index in
    reject_if (negb (ac_enabled a)) RejectReason.AccountDisabled.

Definition check_client_sequence (c : TradingCore S) (account_index : nat) (client_seq : Z)
  : res (Result unit RejectReason.t) :=
  if client_seq =? 0 then Ret (Err RejectReason.MalformedRequest)
  else
    let! a := Core.account c account_index in
    reject_if (client_seq <=? ac_last_client_seq a) RejectReason.SequenceTooOld.

(** Requires a synchronized and sufficiently fresh market view. *)
Definition reference_price (c : TradingCore S) (instrument_index : nat)
  : res (Result PriceTicks RejectReason.t) :=
  let! r := Core.instrument c instrument_index in
  let market := ir_market r in
  if negb (bool_decide (mv_state market = FeedState.Live))
  then Ret (Err RejectReason.MarketDataUnsynchronized)
  else
    let age := u64_saturating_sub (tc_engine_time_ns c) (mv_last_update_time_ns market) in
    if ec_max_market_age_ns (tc_config c) <? age then Ret (Err RejectReason.MarketDataStale)
    else ok_or (Market.reference_price market) RejectReason.NoReferencePrice.

(** The [for] loop of [check_exposure] over the instruments from [index] on. *)
Fixpoint gross_exposure (c : TradingCore S) (account_index instrument_index : nat)
    (projected : InstrumentPosition) (instruments : list (InstrumentRuntime S)) (index : nat)
    (gross : Notional) : res (Result Notional RejectReason.t) :=
  match instruments with
  | [] => Ret (Ok gross)
  | r :: instruments =>
      let! position :=
        if (index =? instrument_index)%nat then Ret projected
        else Core.position c account_index index in
      if (position_lots position =? 0) && (open_buy_notional position =? 0)
         && (open_sell_notional position =? 0)
      then
        gross_exposure c account_index instrument_index projected instruments
          (Datatypes.S index) gross
      else
        let? mark :=
          match Market.reference_price (ir_market r) with
          | Some mark => Ret (Ok mark)
          | None => if position_lots position =? 0 then Ret (Ok 0)
                    else Ret (Err RejectReason.NoReferencePrice)
          end in
        let? exposure :=
          ok_or (instrument_exposure position mark) RejectReason.ArithmeticOverflow in
        let? gross := ok_or (Notional.checked_add gross exposure) RejectReason.ArithmeticOverflow in
        gross_exposure c account_index instrument_index projected instruments
          (Datatypes.S index) gross
  end.

(** Worst-case position and gross exposure including working orders. *)
Definition check_exposure (c : TradingCore S) (account_index instrument_index : nat)
    (side : Side.t) (added_lots : QuantityLots) (added_price : PriceTicks)
    (replaced_lots : QuantityLots) (replaced_price : PriceTicks)
  : res (Result unit RejectReason.t) :=
  let! a := Core.account c account_index in
  let! current := Core.position c account_index instrument_index in
  let? released :=
    ok_or (QuantityLots.checked_notional replaced_lots replaced_price)
      RejectReason.ArithmeticOverflow in
  let? added :=
    ok_or (QuantityLots.checked_notional added_lots added_price)
      RejectReason.ArithmeticOverflow in
  let? projected :=
    ok_or (projected_position current side replaced_lots released added_lots added)
      RejectReason.ArithmeticOverflow in
  let? worst :=
    ok_or (worst_case_position projected side) RejectReason.ArithmeticOverflow in
  if max_position_lots (ac_limits a) <? worst then Ret (Err RejectReason.MaxPosition)
  else
    let? gross :=
      gross_exposure c account_index instrument_index projected (tc_instruments c) 0
        Notional.ZERO in
    reject_if (max_gross_exposure (ac_limits a) <? gross) RejectReason.MaxGrossExposure.

Definition check_new_order (c : TradingCore S) (request : OrderRequest)
  : res (Result CheckedNewOrder RejectReason.t) :=
  let? _ := reject_if (negb (bool_decide (req_kind request = RequestKind.New)))
              RejectReason.MalformedRequest in
  let? account_index :=
    ok_or (Core.account_index_of c (req_account request)) RejectReason.UnknownAccount in
  let? instrument_index :=
    ok_or (Core.instrument_index_of c (req_instrument request))
      RejectReason.UnknownInstrument in
  let? _ := check_quantity c instrument_index (req_quantity request) in
  let? _ := if bool_decide (req_order_type request = OrderType.Limit)
            then check_price c instrument_index (req_price request) else Ret (Ok tt) in
  let? _ := reject_if
              (bool_decide (is_Some (Core.client_order_lookup c (req_account request)
                                       (req_client_order_id request))))
              RejectReason.DuplicateClientOrderId in
  let? _ := check_trading_permitted c account_index in
  let? _ := check_client_sequence c account_index (req_client_seq request) in
  let? reference := reference_price c instrument_index in
  let! a := Core.account c account_index in
  let? _ := reject_if (max_order_quantity (ac_limits a) <? req_quantity request)
              RejectReason.MaxOrderQuantity in
  let? execution_limit :=
    match req_order_type request with
    | OrderType.Limit => Ret (Ok (req_price request))
    | OrderType.Market =>
        protection_price reference (req_side request)
          (ec_market_protection_ticks (tc_config c))
    end in
  let? _ := reject_if (collar_ticks (ac_limits a) <? tick_distance execution_limit reference)
              RejectReason.PriceCollar in
  let? notional :=
    ok_or (QuantityLots.checked_notional (req_quantity request) execution_limit)
      RejectReason.ArithmeticOverflow in
  let? _ := reject_if (max_order_notional (ac_limits a) <? notional)
              RejectReason.MaxOrderNotional in
  let? _ := check_exposure c account_index instrument_index (req_side request)
              (req_quantity request) execution_limit QuantityLots.ZERO execution_limit in
  let! b := Core.book c instrument_index in
  let? _ := reject_if (Book.is_full b) RejectReason.CapacityExhausted in
  Ret (Ok (mkCheckedNewOrder account_index instrument_index execution_limit)).

Definition check_replace (c : TradingCore S) (request : OrderRequest)
  : res (Result CheckedReplace RejectReason.t) :=
  let? account_index :=
    ok_or (Core.account_index_of c (req_account request)) RejectReason.UnknownAccount in
  let? instrument_index :=
    ok_or (Core.instrument_index_of c (req_instrument request))
      RejectReason.UnknownInstrument in
  let? order_id :=
    ok_or (Core.client_order_lookup c (req_account request)
             (req_target_client_order_id request)) RejectReason.UnknownOrder in
  let! b := Core.book c instrument_index in
  let! found := Book.get b order_id in
  let? existing := ok_or found RejectReason.OrderAlreadyTerminal in
  let? _ := reject_if (negb (bool_decide (req_side request = node_side existing))
                       || negb (bool_decide (req_order_type request = OrderType.Limit)))
              RejectReason.MalformedRequest in
  let? _ := check_price c instrument_index (req_price request) in
  let? _ := reject_if (QuantityLots.is_zero (req_quantity request))
              RejectReason.InvalidQuantity in
  let! r := Core.instrument c instrument_index in
  let! m := u64_rem (req_quantity request) (ic_lot_size (ir_config r)) in
  let? _ := reject_if (negb (m =? 0)) RejectReason.QuantityNotAligned in
  let? _ := reject_if (req_quantity request <? node_cumulative_filled existing)
              RejectReason.InvalidReplaceQuantity in
  let? _ := check_trading_permitted c account_index in
  let? _ := check_client_sequence c account_index (req_client_seq request) in
  let? reference := reference_price c instrument_index in
  let! a := Core.account c account_index in
  let! new_remaining := u64_plain (req_quantity request - node_cumulative_filled existing) in
  let? _ := reject_if (max_order_quantity (ac_limits a) <? new_remaining)
              RejectReason.MaxOrderQuantity in
  let? _ := reject_if (collar_ticks (ac_limits a)
                       <? tick_distance (req_price request) reference)
              RejectReason.PriceCollar in
  let? notional :=
    ok_or (QuantityLots.checked_notional new_remaining (req_price request))
      RejectReason.ArithmeticOverflow in
  let? _ := reject_if (max_order_notional (ac_limits a) <? notional)
              RejectReason.MaxOrderNotional in
  let! existing_remaining := remaining existing in
  let? _ := check_exposure c account_index instrument_index (node_side existing)
              new_remaining (req_price request) existing_remaining (node_price existing) in
  Ret (Ok (mkCheckedReplace account_index instrument_index order_id existing)).

End Risk.

End Risk.
