(* ===== verification/Core.v ===== *)
(** The deterministic engine: every handler of [TradingCore]
    ([crates/trading-core/src/core.rs]).

    [out] is threaded through the handlers as the list of events pushed so
    far.  A fault ends the handlers the way the source ends them: the early
    returns of the loops, and nothing else. *)

From S2P Require Import Prelude Enums Ids Events BTree Slab Book Matching Market Account Config.
From S2P Require Import CoreState Risk.

Module Engine.

Section Engine.
Context {S : Type} `{SL : Slab OrderNode S}.
Implicit Types (c : TradingCore S) (out : list OutputEvent.t).

(** ** Metrics *)

Definition bump_inputs (c : TradingCore S) : res (TradingCore S) :=
  let m := tc_metrics c in
  let! n := u64_plain (inputs_applied m + 1) in
  Ret (Core.set_metrics c (mkEngineMetrics n (requests_accepted m) (requests_rejected m)
         (reports_emitted m) (trades m) (market_events m) (control_events m))).

Definition bump_accepted (c : TradingCore S) : res (TradingCore S) :=
  let m := tc_metrics c in
  let! n := u64_plain (requests_accepted m + 1) in
  Ret (Core.set_metrics c (mkEngineMetrics (inputs_applied m) n (requests_rejected m)
         (reports_emitted m) (trades m) (market_events m) (control_events m))).

Definition bump_rejected (c : TradingCore S) : res (TradingCore S) :=
  let m := tc_metrics c in
  let! n := u64_plain (requests_rejected m + 1) in
  Ret (Core.set_metrics c (mkEngineMetrics (inputs_applied m) (requests_accepted m) n
         (reports_emitted m) (trades m) (market_events m) (control_events m))).

Definition bump_reports (c : TradingCore S) (count : Z) : res (TradingCore S) :=
  let m := tc_metrics c in
  let! n := u64_plain (reports_emitted m + count) in
  Ret (Core.set_metrics c (mkEngineMetrics (inputs_applied m) (requests_accepted m)
         (requests_rejected m) n (trades m) (market_events m) (control_events m))).

Definition bump_trades (c : TradingCore S) : res (TradingCore S) :=
  let m := tc_metrics c in
  let! n := u64_plain (trades m + 1) in
  Ret (Core.set_metrics c (mkEngineMetrics (inputs_applied m) (requests_accepted m)
         (requests_rejected m) (reports_emitted m) n (market_events m) (control_events m))).

Definition bump_market (c : TradingCore S) : res (TradingCore S) :=
  let m := tc_metrics c in
  let! n := u64_plain (market_events m + 1) in
  Ret (Core.set_metrics c (mkEngineMetrics (inputs_applied m) (requests_accepted m)
         (requests_rejected m) (reports_emitted m) (trades m) n (control_events m))).

Definition bump_control (c : TradingCore S) : res (TradingCore S) :=
  let m := tc_metrics c in
  let! n := u64_plain (control_events m + 1) in
  Ret (Core.set_metrics c (mkEngineMetrics (inputs_applied m) (requests_accepted m)
         (requests_rejected m) (reports_emitted m) (trades m) (market_events m) n)).

(** ** Reservations and positions *)

Definition accounting_fault (c : TradingCore S) : TradingCore S :=
  Core.set_fault c (Some Accounting).

Definition reserve (c : TradingCore S) (account_index instrument_index : nat)
    (side : Side.t) (lots : QuantityLots) (price : PriceTicks) : res (TradingCore S) :=
  match QuantityLots.checked_notional lots price with
  | None => Ret (accounting_fault c)
  | Some notional =>
      let! p := Core.position c account_index instrument_index in
      let '(p, ok) := Position.reserve p side lots notional in
      let! c := Core.put_position c account_index instrument_index p in
      Ret (match ok with Some _ => c | None => accounting_fault c end)
  end.

Definition release_reservation (c : TradingCore S) (account_index instrument_index : nat)
    (side : Side.t) (lots : QuantityLots) (price : PriceTicks) : res (TradingCore S) :=
  if QuantityLots.is_zero lots then Ret c
  else
    match QuantityLots.checked_notional lots price with
    | None => Ret (accounting_fault c)
    | Some notional =>
        let! p := Core.position c account_index instrument_index in
        let '(p, ok) := Position.release p side lots notional in
        let! c := Core.put_position c account_index instrument_index p in
        Ret (match ok with Some _ => c | None => accounting_fault c end)
    end.

(** [settle_taker]: the fill moves the position. *)
Definition settle_taker (c : TradingCore S) (account_index instrument_index : nat)
    (side : Side.t) (quantity : QuantityLots) : res (TradingCore S) :=
  let! p := Core.position c account_index instrument_index in
  let '(p, ok) := apply_fill_to_position p side quantity in
  let! c := Core.put_position c account_index instrument_index p in
  Ret (match ok with Some _ => c | None => accounting_fault c end).

(** [settle_fill]: the maker's reservation is released and its position moves. *)
Definition settle_fill (c : TradingCore S) (maker_account_index instrument_index : nat)
    (fill : Fill) (aggressor : Side.t) : res (TradingCore S) :=
  let maker_side := Side.opposite aggressor in
  let! c := release_reservation c maker_account_index instrument_index maker_side
              (fill_quantity fill) (fill_price fill) in
  settle_taker c maker_account_index instrument_index maker_side (fill_quantity fill).

(** ** Execution *)

(** The maker's report of a fill. *)
Definition maker_report (c : TradingCore S) (output_seq : OutputSeq) (instrument : InstrumentId)
    (fill : Fill) (side : Side.t) : ExecutionReport :=
  mkExecutionReport output_seq (tc_engine_seq c) (tc_engine_time_ns c)
    (fill_maker_account fill) instrument 0 (fill_maker_client_order_id fill)
    (fill_maker_order_id fill)
    (if maker_is_filled fill then ReportKind.Filled else ReportKind.PartiallyFilled)
    (if maker_is_filled fill then OrderState.Filled else OrderState.PartiallyFilled)
    (Side.opposite side) OrderType.Limit (fill_price fill)
    (fill_maker_total_quantity fill) (fill_maker_cumulative_filled fill)
    (fill_maker_remaining fill) (fill_quantity fill) (fill_price fill) None.

(** The taker's report of a fill, which starts from [base_report]. *)
Definition taker_report (c : TradingCore S) (request : OrderRequest) (order_id : OrderId)
    (side : Side.t) (quantity taker_cumulative : QuantityLots) (fill : Fill)
  : TradingCore S * ExecutionReport :=
  let '(c, report) := Core.base_report c request order_id in
  let report := Core.report_of_order report (rep_client_order_id report) side in
  let kind := if taker_cumulative =? quantity then ReportKind.Filled
              else ReportKind.PartiallyFilled in
  let state := if taker_cumulative =? quantity then OrderState.Filled
               else OrderState.PartiallyFilled in
  let '(c, rem) :=
    match u64_checked (quantity - taker_cumulative) with
    | Some rem => (c, rem)
    | None => (accounting_fault c, QuantityLots.ZERO)
    end in
  (c, Core.report_last_fill (Core.report_with report kind state taker_cumulative rem)
        (fill_quantity fill) (fill_price fill)).

(** A filled maker leaves the two order maps. *)
Definition forget_maker (c : TradingCore S) (fill : Fill) : TradingCore S :=
  if maker_is_filled fill then
    let c := Core.set_live_orders c (delete (fill_maker_order_id fill) (tc_live_orders c)) in
    Core.set_client_orders c
      (delete (fill_maker_account fill, fill_maker_client_order_id fill) (tc_client_orders c))
  else c.

(** The [for] loop of [execute]: trade, maker report, taker report per fill. *)
Fixpoint settle_fills (c : TradingCore S) (instrument_index account_index : nat)
    (request : OrderRequest) (order_id : OrderId) (side : Side.t) (quantity : QuantityLots)
    (instrument : InstrumentId) (fills : list Fill) (taker_cumulative : QuantityLots)
    (out : list OutputEvent.t) : res (TradingCore S * list OutputEvent.t) :=
  match fills with
  | [] => Ret (c, out)
  | fill :: fills =>
      match u64_checked (taker_cumulative + fill_quantity fill) with
      | None => Ret (accounting_fault c, out)
      | Some taker_cumulative =>
          match next (tc_next_trade_id c) with
          | None => Ret (Core.set_fault c (Some SequenceExhausted), out)
          | Some trade_id =>
              let c := Core.set_next_trade_id c trade_id in
              let! c := bump_trades c in
              let! maker_account_index := unwrap (tc_account_index c !! fill_maker_account fill) in
              let! c := settle_fill c maker_account_index instrument_index fill side in
              let! c := settle_taker c account_index instrument_index side (fill_quantity fill) in
              let '(c, output_seq) := Core.take_output_seq c in
              let out :=
                out ++ [OutputEvent.Trade
                          (mkTradeEvent output_seq (tc_engine_seq c) (tc_engine_time_ns c)
                             trade_id instrument (fill_maker_order_id fill) order_id
                             (fill_maker_account fill) (req_account request) side
                             (fill_price fill) (fill_quantity fill))] in
              let '(c, output_seq) := Core.take_output_seq c in
              let out :=
                out ++ [OutputEvent.Report (maker_report c output_seq instrument fill side)] in
              let c := forget_maker c fill in
              let '(c, report) :=
                taker_report c request order_id side quantity taker_cumulative fill in
              let out := out ++ [OutputEvent.Report report] in
              settle_fills c instrument_index account_index request order_id side quantity
                instrument fills taker_cumulative out
          end
      end
  end.

Definition execute (c : TradingCore S) (instrument_index account_index : nat)
    (request : OrderRequest) (order_id : OrderId) (side : Side.t) (limit : PriceTicks)
    (quantity : QuantityLots) (out : list OutputEvent.t)
  : res (TradingCore S * list OutputEvent.t * QuantityLots) :=
  let c := Core.set_fills c [] in
  let! b := Core.book c instrument_index in
  let! (b, fills, filled) := match_order b side limit quantity (tc_fills c) in
  let! c := Core.put_book c instrument_index b in
  let c := Core.set_fills c fills in
  if QuantityLots.is_zero filled then Ret (c, out, filled)
  else
    let! r := Core.instrument c instrument_index in
    let! (c, out) :=
      settle_fills c instrument_index account_index request order_id side quantity
        (ic_id (ir_config r)) (tc_fills c) QuantityLots.ZERO out in
    Ret (c, out, filled).

Definition rest_order_with (c : TradingCore S) (instrument_index account_index : nat)
    (client_order_id : ClientOrderId) (side : Side.t) (price : PriceTicks)
    (total filled : QuantityLots) (order_id : OrderId) : res (TradingCore S) :=
  match next (tc_next_priority c) with
  | None => Ret (Core.set_fault c (Some SequenceExhausted))
  | Some priority =>
      let c := Core.set_next_priority c priority in
      let! a := Core.account c account_index in
      let! b := Core.book c instrument_index in
      let! (b, inserted) :=
        Book.insert b (mkNewOrder order_id (ac_id a) client_order_id side price total filled
                         priority) in
      let! c := Core.put_book c instrument_index b in
      match inserted with
      | Err _ => Ret c
      | Ok _ =>
          match u64_checked (total - filled) with
          | None => Ret (accounting_fault c)
          | Some rem =>
              let! c := reserve c account_index instrument_index side rem price in
              let c := Core.set_live_orders c
                         (<[order_id := mkLiveOrder account_index instrument_index]>
                            (tc_live_orders c)) in
              Ret (Core.set_client_orders c
                     (<[(ac_id a, client_order_id) := order_id]> (tc_client_orders c)))
          end
      end
  end.

Definition rest_order (c : TradingCore S) (instrument_index account_index : nat)
    (request : OrderRequest) (order_id : OrderId) (total filled : QuantityLots)
  : res (TradingCore S) :=
  rest_order_with c instrument_index account_index (req_client_order_id request)
    (req_side request) (req_price request) total filled order_id.

(** ** The request handlers *)

(** [self.fault = Accounting; return self.reject_report(ArithmeticOverflow)]. *)
Definition overflow_report (c : TradingCore S) (request : OrderRequest)
  : TradingCore S * ExecutionReport :=
  Core.reject_report (accounting_fault c) request RejectReason.ArithmeticOverflow.

Definition with_out (out : list OutputEvent.t) (p : TradingCore S * ExecutionReport)
  : res (TradingCore S * list OutputEvent.t * ExecutionReport) :=
  let '(c, report) := p in Ret (c, out, report).

Definition handle_new (c : TradingCore S) (request : OrderRequest) (out : list OutputEvent.t)
  : res (TradingCore S * list OutputEvent.t * ExecutionReport) :=
  let! checked := Risk.check_new_order c request in
  match checked with
  | Err reason => with_out out (Core.reject_report c request reason)
  | Ok checked =>
      match next (tc_next_order_id c) with
      | None =>
          with_out out (Core.reject_report (Core.set_fault c (Some SequenceExhausted)) request
                          RejectReason.CapacityExhausted)
      | Some order_id =>
          let c := Core.set_next_order_id c order_id in
          let! (c, out, filled) :=
            execute c (cn_instrument_index checked) (cn_account_index checked) request order_id
              (req_side request) (cn_execution_limit checked) (req_quantity request) out in
          match u64_checked (req_quantity request - filled) with
          | None => with_out out (overflow_report c request)
          | Some rem =>
              if QuantityLots.is_zero rem then
                with_out out (Core.terminal_report c request order_id ReportKind.Filled filled)
              else if bool_decide (req_order_type request = OrderType.Market) then
                with_out out
                  (Core.cancelled_report c request order_id (req_quantity request) filled)
              else
                let! c := rest_order c (cn_instrument_index checked) (cn_account_index checked)
                            request order_id (req_quantity request) filled in
                let '(c, report) := Core.base_report c request order_id in
                Ret (c, out, Core.report_with report ReportKind.Accepted
                               (Core.working_state filled) filled rem)
          end
      end
  end.

Definition handle_cancel (c : TradingCore S) (request : OrderRequest)
  : res (TradingCore S * ExecutionReport) :=
  if negb (bool_decide (is_Some (tc_account_index c !! req_account request))) then
    Ret (Core.reject_report c request RejectReason.UnknownAccount)
  else
    let key := (req_account request, req_target_client_order_id request) in
    match tc_client_orders c !! key with
    | None => Ret (Core.reject_report c request RejectReason.UnknownOrder)
    | Some order_id =>
        match tc_live_orders c !! order_id with
        | None => Ret (Core.reject_report c request RejectReason.OrderAlreadyTerminal)
        | Some live =>
            let! b := Core.book c (lo_instrument_index live) in
            let! (b, removed) := Book.remove b order_id in
            let! c := Core.put_book c (lo_instrument_index live) b in
            let! n := unwrap removed in
            let! rem := remaining n in
            let! c := release_reservation c (lo_account_index live) (lo_instrument_index live)
                        (node_side n) rem (node_price n) in
            let c := Core.set_live_orders c (delete order_id (tc_live_orders c)) in
            let c := Core.set_client_orders c (delete key (tc_client_orders c)) in
            let '(c, report) := Core.base_report c request order_id in
            let report := Core.report_of_order report (node_client_order_id n) (node_side n) in
            let report := Core.report_price_total report (node_price n)
                            (node_total_quantity n) in
            Ret (c, Core.report_with report ReportKind.Cancelled OrderState.Cancelled
                      (node_cumulative_filled n) QuantityLots.ZERO)
        end
    end.

(** The in-place branch of [handle_replace]: same price, lower total. *)
Definition replace_reduce (c : TradingCore S) (request : OrderRequest)
    (checked : CheckedReplace) : res (TradingCore S * ExecutionReport) :=
  let existing := cr_existing checked in
  let order_id := cr_order_id checked in
  let key := (req_account request, node_client_order_id existing) in
  match u64_checked (node_total_quantity existing - req_quantity request) with
  | None => Ret (overflow_report c request)
  | Some released =>
      let! c := release_reservation c (cr_account_index checked) (cr_instrument_index checked)
                  (node_side existing) released (node_price existing) in
      let! b := Core.book c (cr_instrument_index checked) in
      let! b := Book.reduce_total b order_id (req_quantity request) in
      let! c := Core.put_book c (cr_instrument_index checked) b in
      if req_quantity request =? node_cumulative_filled existing then
        let! b := Core.book c (cr_instrument_index checked) in
        let! (b, _) := Book.remove b order_id in
        let! c := Core.put_book c (cr_instrument_index checked) b in
        let c := Core.set_live_orders c (delete order_id (tc_live_orders c)) in
        let c := Core.set_client_orders c (delete key (tc_client_orders c)) in
        Ret (Core.replace_cancelled_report c request order_id existing)
      else
        let '(c, report) := Core.base_report c request order_id in
        let report := Core.report_of_order report (node_client_order_id existing)
                        (node_side existing) in
        match u64_checked (req_quantity request - node_cumulative_filled existing) with
        | None => Ret (overflow_report c request)
        | Some rem =>
            Ret (c, Core.report_with report ReportKind.Replaced
                      (Core.working_state (node_cumulative_filled existing))
                      (node_cumulative_filled existing) rem)
        end
  end.

(** The rest of [handle_replace]: the order leaves the book and trades again. *)
Definition replace_reenter (c : TradingCore S) (request : OrderRequest)
    (checked : CheckedReplace) (out : list OutputEvent.t)
  : res (TradingCore S * list OutputEvent.t * ExecutionReport) :=
  let existing := cr_existing checked in
  let order_id := cr_order_id checked in
  let key := (req_account request, node_client_order_id existing) in
  let! b := Core.book c (cr_instrument_index checked) in
  let! (b, _) := Book.remove b order_id in
  let! c := Core.put_book c (cr_instrument_index checked) b in
  let! existing_remaining := remaining existing in
  let! c := release_reservation c (cr_account_index checked) (cr_instrument_index checked)
              (node_side existing) existing_remaining (node_price existing) in
  let c := Core.set_live_orders c (delete order_id (tc_live_orders c)) in
  let c := Core.set_client_orders c (delete key (tc_client_orders c)) in
  if req_quantity request =? node_cumulative_filled existing then
    with_out out (Core.replace_cancelled_report c request order_id existing)
  else
    match u64_checked (req_quantity request - node_cumulative_filled existing) with
    | None => with_out out (overflow_report c request)
    | Some target_remaining =>
        let! (c, out, filled) :=
          execute c (cr_instrument_index checked) (cr_account_index checked) request order_id
            (node_side existing) (req_price request) target_remaining out in
        match u64_checked (node_cumulative_filled existing + filled) with
        | None => with_out out (overflow_report c request)
        | Some cumulative =>
            if cumulative =? req_quantity request then
              let '(c, report) := Core.base_report c request order_id in
              let report := Core.report_of_order report (node_client_order_id existing)
                              (node_side existing) in
              Ret (c, out, Core.report_with report ReportKind.Filled OrderState.Filled
                             cumulative QuantityLots.ZERO)
            else
              let! c := rest_order_with c (cr_instrument_index checked)
                          (cr_account_index checked) (node_client_order_id existing)
                          (node_side existing) (req_price request) (req_quantity request)
                          cumulative order_id in
              let '(c, report) := Core.base_report c request order_id in
              let report := Core.report_of_order report (node_client_order_id existing)
                              (node_side existing) in
              let '(c, rem) :=
                match u64_checked (req_quantity request - cumulative) with
                | Some rem => (c, rem)
                | None => (accounting_fault c, QuantityLots.ZERO)
                end in
              Ret (c, out, Core.report_with report ReportKind.Replaced
                             (Core.working_state cumulative) cumulative rem)
        end
    end.

Definition handle_replace (c : TradingCore S) (request : OrderRequest)
    (out : list OutputEvent.t) : res (TradingCore S * list OutputEvent.t * ExecutionReport) :=
  let! checked := Risk.check_replace c request in
  match checked with
  | Err reason => with_out out (Core.reject_report c request reason)
  | Ok checked =>
      let existing := cr_existing checked in
      if (req_price request =? node_price existing)
         && (req_quantity request <? node_total_quantity existing) then
        let! p := replace_reduce c request checked in
        with_out out p
      else replace_reenter c request checked out
  end.

Definition record_outcome (c : TradingCore S) (account_index : nat) (request : OrderRequest)
    (fingerprint : Z) (report : ExecutionReport) : res (TradingCore S) :=
  let! a := Core.account c account_index in
  let! cache := Cache.record (ac_cache a) (req_request_id request) fingerprint report in
  let a := Account.set_cache a cache in
  let a :=
    if bool_decide (rep_reject_reason report = None) && (0 <? req_client_seq request)
    then Account.set_last_client_seq a (req_client_seq request) else a in
  Core.put_account c account_index a.

(** The retried report: the recorded one, with a new sequence and time. *)
Definition retry_report (c : TradingCore S) (previous : ExecutionReport)
  : TradingCore S * ExecutionReport :=
  let '(c, output_seq) := Core.take_output_seq c in
  (c, mkExecutionReport output_seq (tc_engine_seq c) (tc_engine_time_ns c)
        (rep_account previous) (rep_instrument previous) (rep_request_id previous)
        (rep_client_order_id previous) (rep_order_id previous) (rep_kind previous)
        (rep_state previous) (rep_side previous) (rep_order_type previous)
        (rep_price previous) (rep_total_quantity previous)
        (rep_cumulative_filled previous) (rep_remaining previous)
        (rep_last_fill_quantity previous) (rep_last_fill_price previous)
        (rep_reject_reason previous)).

(** [apply_request] once the cache has no entry for the request. *)
Definition apply_fresh_request (c : TradingCore S) (request : OrderRequest) (fingerprint : Z)
    (out : list OutputEvent.t) : res (TradingCore S * list OutputEvent.t) :=
  let! (c, out, outcome) :=
    match req_kind request with
    | RequestKind.New => handle_new c request out
    | RequestKind.Cancel => let! p := handle_cancel c request in with_out out p
    | RequestKind.Replace => handle_replace c request out
    end in
  let! c :=
    if bool_decide (is_Some (rep_reject_reason outcome)) then bump_rejected c
    else bump_accepted c in
  let! c :=
    match tc_account_index c !! req_account request with
    | Some account_index => record_outcome c account_index request fingerprint outcome
    | None => Ret c
    end in
  Ret (c, out ++ [OutputEvent.Report outcome]).

Definition apply_request (c : TradingCore S) (request : OrderRequest)
    (out : list OutputEvent.t) : res (TradingCore S * list OutputEvent.t) :=
  let fingerprint := request_fingerprint request in
  match tc_account_index c !! req_account request with
  | Some account_index =>
      let! a := Core.account c account_index in
      match Cache.lookup (ac_cache a) (req_request_id request) fingerprint with
      | Some (Retry previous) =>
          let '(c, report) := retry_report c previous in
          Ret (c, out ++ [OutputEvent.Report report])
      | Some Conflict =>
          let '(c, report) :=
            Core.reject_report c request RejectReason.DuplicateRequestConflict in
          let! c := record_outcome c account_index request fingerprint report in
          Ret (c, out ++ [OutputEvent.Report report])
      | None => apply_fresh_request c request fingerprint out
      end
  | None => apply_fresh_request c request fingerprint out
  end.

(** ** The other inputs *)

Definition apply_market (c : TradingCore S) (event : MarketEvent) (out : list OutputEvent.t)
  : res (TradingCore S * list OutputEvent.t) :=
  let! c := bump_market c in
  match tc_instrument_index c !! me_instrument event with
  | None => Ret (c, out)
  | Some i =>
      let! r := Core.instrument c i in
      let! (v, update) :=
        Market.apply (ir_market r) (me_source_seq event) (me_kind event)
          (tc_engine_time_ns c) in
      let! c := Core.put_instrument c i (ir_set_market r v) in
      if state_changed update then
        Ret (Core.push_state c
               (EngineStateEvent.FeedStateChanged (me_instrument event) (mu_state update)) out)
      else Ret (c, out)
  end.

Definition apply_control (c : TradingCore S) (command : ControlCommand.t)
    (out : list OutputEvent.t) : res (TradingCore S * list OutputEvent.t) :=
  let! c := bump_control c in
  match command with
  | ControlCommand.SetGlobalKill engaged =>
      if Bool.eqb (tc_global_kill c) engaged then Ret (c, out)
      else
        let c := Core.set_global_kill c engaged in
        Ret (Core.push_state c
               (if engaged then EngineStateEvent.KillSwitchEngaged
                else EngineStateEvent.KillSwitchReleased) out)
  | ControlCommand.SetAccountEnabled account enabled =>
      match tc_account_index c !! account with
      | None => Ret (c, out)
      | Some i =>
          let! a := Core.account c i in
          if Bool.eqb (ac_enabled a) enabled then Ret (c, out)
          else
            let! c := Core.put_account c i (Account.set_enabled a enabled) in
            Ret (Core.push_state c
                   (EngineStateEvent.AccountEnabledChanged account enabled) out)
      end
  | ControlCommand.SetAccountLimits account limits =>
      match tc_account_index c !! account with
      | None => Ret (c, out)
      | Some i =>
          let! a := Core.account c i in
          let! c := Core.put_account c i (Account.set_limits a limits) in
          Ret (Core.push_state c (EngineStateEvent.AccountLimitsChanged account) out)
      end
  end.

(** [matches!(event, OutputEvent::Report(_))], counted. *)
Definition count_reports (out : list OutputEvent.t) : Z :=
  Z.of_nat (length (List.filter (fun e => match e with
                                          | OutputEvent.Report _ => true
                                          | _ => false
                                          end) out)).

(** Applies one input; the output list starts empty. *)
Definition apply (c : TradingCore S) (input : EngineInput)
  : res (TradingCore S * list OutputEvent.t) :=
  match tc_fault c with
  | Some _ => Ret (c, [])
  | None =>
      match next (tc_engine_seq c) with
      | None => Ret (Core.set_fault c (Some SequenceExhausted), [])
      | Some n =>
          let c := Core.set_engine_seq c n in
          let c := Core.set_engine_time_ns c (in_recv_time_ns input) in
          let! c := bump_inputs c in
          let! (c, out) :=
            match in_event input with
            | InputEvent.Market event => apply_market c event []
            | InputEvent.Order request => apply_request c request []
            | InputEvent.Control command => apply_control c command []
            end in
          let! c := bump_reports c (count_reports out) in
          Ret (c, out)
      end
  end.

End Engine.

End Engine.
