(* ===== verification/CoreAcct.v ===== *)
(** Accounts and live orders.

    [acc_inv] relates the accounts' positions and reservations, the live-order
    map and the client-order map to the live orders [L] of the books.  The
    lemmas below are the four ways the engine changes them together: a fill,
    a removal, a reduction and a new resting order. *)

From S2P Require Import Prelude Enums Ids Events BTree Slab Book BookData BookSpec Matching.
From S2P Require Import MatchSpec MatchProps Market Account AccountProps Config CoreState Risk Core.

Abbreviation live_fn := (nat -> gmap OrderId NewOrder) (only parsing).

(** What an order reserves for account [id] on [side]. *)
Definition rsv_lots (id : AccountId) (side : Side.t) (x : NewOrder) : Z :=
  if bool_decide (no_account x = id) && bool_decide (no_side x = side) then order_rem x else 0.

Definition rsv_notional (id : AccountId) (side : Side.t) (x : NewOrder) : Z :=
  rsv_lots id side x * Z.abs (no_price x).

(** A position agrees with the live orders [m] of its instrument, and leaves
    room for all of them to fill. *)
Record pos_ok (id : AccountId) (m : gmap OrderId NewOrder) (p : InstrumentPosition) : Prop := {
  po_lots side : Position.open_lots p side = msum (rsv_lots id side) m;
  po_notional side : Position.open_notional p side = msum (rsv_notional id side) m;
  po_buy : position_lots p + open_buy_lots p <= i64_max;
  po_sell : i64_min <= position_lots p - open_sell_lots p;
  po_lots_i64 side : 0 <= Position.open_lots p side <= i64_max;
  po_notional_u128 side : in_u128 (Position.open_notional p side)
}.

(** A taker of [h] more lots on [side] at [price] fits. *)
Record room (p : InstrumentPosition) (side : Side.t) (h price : Z) : Prop := {
  rm_nonneg : 0 <= h;
  rm_lots : Position.open_lots p side + h <= i64_max;
  rm_position : in_i64 (position_lots p
                        + signed_fill side (Position.open_lots p side + h));
  rm_notional : in_u128 (Position.open_notional p side + h * Z.abs price)
}.

Definition pos_at (accts : list AccountState) (a k : nat) : option InstrumentPosition :=
  let* ac := accts !! a in
  ac_positions ac !! k.

(** The live-order map and the client-order map list exactly [L]. *)
Record maps_inv (aidx : gmap AccountId nat) (lo : gmap OrderId LiveOrder)
    (co : gmap (AccountId * ClientOrderId) OrderId) (L : live_fn) : Prop := {
  mp_account k id x : L k !! id = Some x -> is_Some (aidx !! no_account x);
  mp_id k id x : L k !! id = Some x -> no_order_id x = id;
  mp_live id l : lo !! id = Some l <->
    exists x, L (lo_instrument_index l) !! id = Some x
      /\ aidx !! no_account x = Some (lo_account_index l);
  mp_client key id : co !! key = Some id <->
    exists k x, L k !! id = Some x /\ key = (no_account x, no_client_order_id x)
}.

Record acc_inv (accts : list AccountState) (aidx : gmap AccountId nat)
    (lo : gmap OrderId LiveOrder) (co : gmap (AccountId * ClientOrderId) OrderId)
    (L : live_fn) : Prop := {
  ai_index id a : aidx !! id = Some a <-> exists ac, accts !! a = Some ac /\ ac_id ac = id;
  ai_maps : maps_inv aidx lo co L;
  ai_pos a k ac p : accts !! a = Some ac -> ac_positions ac !! k = Some p ->
    pos_ok (ac_id ac) (L k) p
}.

Definition lset (L : live_fn) (k : nat) (m : gmap OrderId NewOrder) : live_fn :=
  fun k' => if decide (k' = k) then m else L k'.

Lemma lset_eq L k m : lset L k m k = m.
Proof. unfold lset. by rewrite decide_True. Qed.

Lemma lset_ne L k m k' : k' <> k -> lset L k m k' = L k'.
Proof. intros. unfold lset. by rewrite decide_False. Qed.

(** * The order maps *)

Section Maps.
Context {aidx : gmap AccountId nat} {lo : gmap OrderId LiveOrder}.
Context {co : gmap (AccountId * ClientOrderId) OrderId} {L : live_fn}.
Context (M : maps_inv aidx lo co L).

(** An order lives in one book. *)
Lemma maps_unique k k' id x x' :
  L k !! id = Some x -> L k' !! id = Some x' -> k = k' /\ x = x'.
Proof.
  intros H H'. destruct (mp_account _ _ _ _ M _ _ _ H) as [a Ha].
  destruct (mp_account _ _ _ _ M _ _ _ H') as [a' Ha'].
  assert (E : lo !! id = Some (mkLiveOrder a k)) by (apply (mp_live _ _ _ _ M); eauto).
  assert (E' : lo !! id = Some (mkLiveOrder a' k')) by (apply (mp_live _ _ _ _ M); eauto).
  rewrite E in E'. injection E' as -> ->. split; [done | congruence].
Qed.

(** An order changes in place. *)
Lemma maps_update k id x y :
  L k !! id = Some x -> no_order_id y = id -> no_account y = no_account x ->
  no_client_order_id y = no_client_order_id x ->
  maps_inv aidx lo co (lset L k (<[id := y]> (L k))).
Proof.
  intros Hx Hid Ha Hc.
  assert (Hlk : forall k' id' z, lset L k (<[id := y]> (L k)) k' !! id' = Some z ->
            exists z0, L k' !! id' = Some z0 /\ no_account z = no_account z0
              /\ no_client_order_id z = no_client_order_id z0 /\ no_order_id z = id').
  { intros k' id' z. unfold lset. case_decide as Ek; [subst |].
    - rewrite lookup_insert. case_decide; intros; simplify_eq; [by eauto |].
      exists z. split_and!; try done. by eapply (mp_id _ _ _ _ M).
    - intros Hz. exists z. split_and!; try done. by eapply (mp_id _ _ _ _ M). }
  assert (Hlk2 : forall k' id' z0, L k' !! id' = Some z0 ->
            exists z, lset L k (<[id := y]> (L k)) k' !! id' = Some z
              /\ no_account z = no_account z0 /\ no_client_order_id z = no_client_order_id z0).
  { intros k' id' z0 Hz. unfold lset. case_decide as Ek; [subst | by eauto].
    rewrite lookup_insert. case_decide; [| by eauto]. simplify_eq. eauto. }
  constructor.
  - intros k' id' z Hz. apply Hlk in Hz as (z0 & Hz0 & -> & _). by eapply (mp_account _ _ _ _ M).
  - intros k' id' z Hz. by apply Hlk in Hz as (_ & _ & _ & _ & ?).
  - intros id' l. rewrite (mp_live _ _ _ _ M). split.
    + intros (z0 & Hz0 & Hi). destruct (Hlk2 _ _ _ Hz0) as (z & Hz & Hza & _).
      exists z. by rewrite Hza.
    + intros (z & Hz & Hi). destruct (Hlk _ _ _ Hz) as (z0 & Hz0 & Hza & _).
      exists z0. by rewrite <- Hza.
  - intros key id'. rewrite (mp_client _ _ _ _ M). split.
    + intros (k' & z0 & Hz0 & ->). destruct (Hlk2 _ _ _ Hz0) as (z & Hz & Hza & Hzc).
      exists k', z. by rewrite Hza, Hzc.
    + intros (k' & z & Hz & ->). destruct (Hlk _ _ _ Hz) as (z0 & Hz0 & Hza & Hzc & _).
      exists k', z0. by rewrite Hza, Hzc.
Qed.

(** An order leaves. *)
Lemma maps_delete k id x :
  L k !! id = Some x ->
  maps_inv aidx (delete id lo) (delete (no_account x, no_client_order_id x) co)
    (lset L k (delete id (L k))).
Proof.
  intros Hx.
  assert (Hlk : forall k' id' z, lset L k (delete id (L k)) k' !! id' = Some z <->
            L k' !! id' = Some z /\ id' <> id).
  { intros k' id' z. unfold lset. case_decide as Ek; [subst |].
    - rewrite lookup_delete_Some. naive_solver.
    - split; [| naive_solver]. intros Hz. split; [done |]. intros ->.
      by destruct (maps_unique _ _ _ _ _ Hz Hx). }
  constructor.
  - intros k' id' z [Hz _]%Hlk. by eapply (mp_account _ _ _ _ M).
  - intros k' id' z [Hz _]%Hlk. by eapply (mp_id _ _ _ _ M).
  - intros id' l. rewrite lookup_delete_Some, (mp_live _ _ _ _ M). split.
    + intros (Hne & z & Hz & Hi). exists z. split; [apply Hlk | done]. auto.
    + intros (z & [Hz Hne]%Hlk & Hi). split; [auto | eauto].
  - intros key id'. rewrite lookup_delete_Some, (mp_client _ _ _ _ M). split.
    + intros (Hne & k' & z & Hz & ->). exists k', z. split; [apply Hlk; split; [done |] | done].
      intros ->. destruct (maps_unique _ _ _ _ _ Hz Hx) as [_ ->]. done.
    + intros (k' & z & [Hz Hne]%Hlk & ->). split; [| eauto]. intros E.
      assert (co !! (no_account z, no_client_order_id z) = Some id') as E1.
      { apply (mp_client _ _ _ _ M). eauto. }
      assert (co !! (no_account x, no_client_order_id x) = Some id) as E2.
      { apply (mp_client _ _ _ _ M). eauto. }
      congruence.
Qed.

(** An order arrives. *)
Lemma maps_insert k x a :
  (forall k', L k' !! no_order_id x = None) ->
  co !! (no_account x, no_client_order_id x) = None -> aidx !! no_account x = Some a ->
  maps_inv aidx (<[no_order_id x := mkLiveOrder a k]> lo)
    (<[(no_account x, no_client_order_id x) := no_order_id x]> co)
    (lset L k (<[no_order_id x := x]> (L k))).
Proof.
  intros Hn Hk Ha.
  assert (Hlk : forall k' id z, lset L k (<[no_order_id x := x]> (L k)) k' !! id = Some z <->
            L k' !! id = Some z \/ (k' = k /\ id = no_order_id x /\ z = x)).
  { intros k' id z. unfold lset. case_decide as Ek; [subst |]; [| naive_solver].
    rewrite lookup_insert. case_decide; [subst; rewrite Hn |]; naive_solver. }
  constructor.
  - intros k' id z [Hz | (-> & -> & ->)]%Hlk; [by eapply (mp_account _ _ _ _ M) | eauto].
  - intros k' id z [Hz | (-> & -> & ->)]%Hlk; [by eapply (mp_id _ _ _ _ M) | done].
  - intros id l. rewrite lookup_insert. case_decide as E.
    + subst. split.
      * intros [= <-]. exists x. split; [apply Hlk; auto | done].
      * intros (z & [Hz | (Hk' & _ & ->)]%Hlk & Hi); [by rewrite Hn in Hz |].
        destruct l. simpl in *. congruence.
    + rewrite (mp_live _ _ _ _ M). split.
      * intros (z & Hz & Hi). exists z. split; [apply Hlk; auto | done].
      * intros (z & [Hz | (_ & -> & _)]%Hlk & Hi); [eauto | done].
  - intros key id. rewrite lookup_insert. case_decide as E.
    + subst. split.
      * intros [= <-]. exists k, x. split; [apply Hlk; auto | done].
      * intros (k' & z & [Hz | (_ & -> & _)]%Hlk & Hkey); [| done].
        assert (co !! (no_account x, no_client_order_id x) = Some id); [| congruence].
        apply (mp_client _ _ _ _ M). eauto.
    + rewrite (mp_client _ _ _ _ M). split.
      * intros (k' & z & Hz & ->). exists k', z. split; [apply Hlk; auto | done].
      * intros (k' & z & [Hz | (_ & _ & ->)]%Hlk & ->); [eauto | done].
Qed.

End Maps.

(** Only positions differ. *)
Definition reposed (accts accts' : list AccountState) : Prop :=
  length accts' = length accts /\
  forall a ac, accts !! a = Some ac ->
    exists ps, accts' !! a = Some (Account.set_positions ac ps)
               /\ length ps = length (ac_positions ac).

Lemma reposed_refl accts : reposed accts accts.
Proof. split; [done |]. intros a ac H. exists (ac_positions ac). by destruct ac. Qed.

Lemma reposed_trans l1 l2 l3 : reposed l1 l2 -> reposed l2 l3 -> reposed l1 l3.
Proof.
  intros [E1 H1] [E2 H2]. split; [congruence |]. intros a ac H.
  destruct (H1 _ _ H) as (ps & Ha & Hl). destruct (H2 _ _ Ha) as (ps' & Ha' & Hl').
  exists ps'. simpl in *. split; [done | congruence].
Qed.

Lemma reposed_inv l1 l2 a ac' :
  reposed l1 l2 -> l2 !! a = Some ac' ->
  exists ac ps, l1 !! a = Some ac /\ ac' = Account.set_positions ac ps.
Proof.
  intros [E H] Ha. assert (is_Some (l1 !! a)) as [ac Hac].
  { apply lookup_lt_is_Some. apply lookup_lt_Some in Ha. lia. }
  destruct (H _ _ Hac) as (ps & Ha' & _). exists ac, ps. split; [done | congruence].
Qed.

(** The sum of all accounts' positions in instrument [k]. *)
Definition lots_at (k : nat) (ac : AccountState) : Z :=
  from_option position_lots 0 (ac_positions ac !! k).

Definition total_position (accts : list AccountState) (k : nat) : Z := lsum (lots_at k) accts.

Section Acct.
Context {S : Type} `{SL : Slab OrderNode S}.
Implicit Types (c : TradingCore S) (L : live_fn) (p : InstrumentPosition).

Lemma position_at c a k p : pos_at (tc_accounts c) a k = Some p -> Core.position c a k = Ret p.
Proof.
  unfold pos_at, Core.position, Core.account, index.
  destruct (tc_accounts c !! a); simpl; [| done]. by intros ->.
Qed.

(** A change of one position, as the engine's helpers make it. *)
Definition changes_pos (c : TradingCore S) (r : res (TradingCore S)) (a k : nat)
    (p p' : InstrumentPosition) : Prop :=
  exists accts, r = Ret (Core.set_accounts c accts) /\ reposed (tc_accounts c) accts
    /\ (forall a' k', pos_at accts a' k'
                      = if decide (a' = a /\ k' = k) then Some p'
                        else pos_at (tc_accounts c) a' k')
    /\ forall k', total_position accts k'
                  = total_position (tc_accounts c) k'
                    + if decide (k' = k) then position_lots p' - position_lots p else 0.

Lemma put_position_at c a k p p' :
  pos_at (tc_accounts c) a k = Some p -> changes_pos c (Core.put_position c a k p') a k p p'.
Proof.
  unfold changes_pos, pos_at, Core.put_position, Core.put_account, Core.account, index, index_set.
  destruct (tc_accounts c !! a) as [ac |] eqn:Ea; simpl; [| done]. intros Hp.
  rewrite Hp. simpl. eexists. split; [done |].
  assert (Hlt : (a < length (tc_accounts c))%nat) by (by eapply lookup_lt_Some).
  assert (Hlk : (k < length (ac_positions ac))%nat) by (by eapply lookup_lt_Some).
  split_and!.
  - split; [by rewrite length_insert |]. intros a' ac' Ha'. destruct (decide (a = a')) as [<- |].
    + rewrite Ea in Ha'. injection Ha' as <-.
      exists (<[k := p']> (ac_positions ac)). by rewrite list_lookup_insert_eq, length_insert.
    + rewrite list_lookup_insert_ne by done. exists (ac_positions ac'). by destruct ac'.
  - intros a' k'. destruct (decide (a = a')) as [<- | Hne].
    + rewrite list_lookup_insert_eq by done. simpl. rewrite Ea.
      destruct (decide (k = k')) as [<- |].
      * rewrite list_lookup_insert_eq by done. case_decide; naive_solver.
      * rewrite list_lookup_insert_ne by done. case_decide; naive_solver.
    + rewrite list_lookup_insert_ne by done. case_decide; naive_solver.
  - intros k'. unfold total_position. rewrite (lsum_insert _ _ _ _ _ Ea).
    unfold lots_at. simpl. case_decide as E.
    + subst. rewrite Hp, list_lookup_insert_eq by done. simpl. lia.
    + rewrite list_lookup_insert_ne by done. lia.
Qed.

(** What a release of [lots] at [price] leaves. *)
Definition released_pos (p : InstrumentPosition) (side : Side.t) (lots price : Z)
  : InstrumentPosition :=
  Position.set_notional (Position.set_lots p side (Position.open_lots p side - lots)) side
    (Position.open_notional p side - lots * Z.abs price).

Definition reserved_pos (p : InstrumentPosition) (side : Side.t) (lots price : Z)
  : InstrumentPosition :=
  Position.set_notional (Position.set_lots p side (Position.open_lots p side + lots)) side
    (Position.open_notional p side + lots * Z.abs price).

Definition moved_pos (p : InstrumentPosition) (side : Side.t) (q : Z) : InstrumentPosition :=
  Position.set_position_lots p (position_lots p + signed_fill side q).

Lemma set_accounts_id c : Core.set_accounts c (tc_accounts c) = c.
Proof. by destruct c. Qed.

Lemma released_pos_zero p side price : released_pos p side 0 price = p.
Proof. unfold released_pos. rewrite Z.mul_0_l, !Z.sub_0_r. by destruct p, side. Qed.

Lemma release_changes c a k p side lots price :
  pos_at (tc_accounts c) a k = Some p -> in_u64 lots -> in_i64 price ->
  in_u64 (Position.open_lots p side - lots) ->
  in_u128 (Position.open_notional p side - lots * Z.abs price) ->
  changes_pos c (Engine.release_reservation c a k side lots price) a k p
    (released_pos p side lots price).
Proof.
  intros Hp Hl Hpr H1 H2. unfold Engine.release_reservation, QuantityLots.is_zero.
  destruct (Z.eqb_spec lots 0) as [-> | Hne].
  - rewrite released_pos_zero. exists (tc_accounts c). split; [by rewrite set_accounts_id |].
    split_and!; [apply reposed_refl | |].
    + intros a' k'. case_decide as E; [| done]. by destruct E as [-> ->].
    + intros k'. case_decide; lia.
  - rewrite checked_notional_total by done. rewrite (position_at _ _ _ _ Hp). cbn [rbind].
    rewrite release_ok by done.
    destruct (put_position_at c a k p (released_pos p side lots price) Hp) as (accts & E & HR & HP).
    unfold released_pos in E at 1. rewrite E. by exists accts.
Qed.

Lemma reserve_changes c a k p side lots price :
  pos_at (tc_accounts c) a k = Some p -> in_u64 lots -> in_i64 price ->
  in_u64 (Position.open_lots p side + lots) ->
  in_u128 (Position.open_notional p side + lots * Z.abs price) ->
  changes_pos c (Engine.reserve c a k side lots price) a k p (reserved_pos p side lots price).
Proof.
  intros Hp Hl Hpr H1 H2. unfold Engine.reserve.
  rewrite checked_notional_total by done. rewrite (position_at _ _ _ _ Hp). cbn [rbind].
  rewrite reserve_ok by done.
  destruct (put_position_at c a k p (reserved_pos p side lots price) Hp) as (accts & E & HR & HP).
  unfold reserved_pos in E at 1. rewrite E. by exists accts.
Qed.

Lemma settle_changes c a k p side q :
  pos_at (tc_accounts c) a k = Some p -> in_i64 q ->
  in_i64 (position_lots p + signed_fill side q) ->
  changes_pos c (Engine.settle_taker c a k side q) a k p (moved_pos p side q).
Proof.
  intros Hp Hq H1. unfold Engine.settle_taker. rewrite (position_at _ _ _ _ Hp). cbn [rbind].
  rewrite apply_fill_ok by done.
  destruct (put_position_at c a k p (moved_pos p side q) Hp) as (accts & E & HR & HP).
  unfold moved_pos in E at 1. rewrite E. by exists accts.
Qed.

End Acct.

(** * Reservations *)

(** The part of a quantity [t] of order [x] that counts for [id] on [side]. *)
Definition share (id : AccountId) (side : Side.t) (x : NewOrder) (t : Z) : Z :=
  if bool_decide (no_account x = id) && bool_decide (no_side x = side) then t else 0.

Lemma rsv_fill m x t id side :
  m !! no_order_id x = Some x ->
  msum (rsv_lots id side) (apply_fill m (fill_of x t))
  = msum (rsv_lots id side) m - share id side x t
  /\ msum (rsv_notional id side) (apply_fill m (fill_of x t))
     = msum (rsv_notional id side) m - share id side x t * Z.abs (no_price x).
Proof.
  intros Hx. split; apply msum_apply_fill; try done;
    unfold rsv_notional, rsv_lots, share; simpl; rewrite ?order_rem_filled_by;
    destruct (bool_decide _ && bool_decide _); intros; subst; lia.
Qed.

Lemma rsv_delete m x id side :
  m !! no_order_id x = Some x ->
  msum (rsv_lots id side) (delete (no_order_id x) m)
  = msum (rsv_lots id side) m - share id side x (order_rem x)
  /\ msum (rsv_notional id side) (delete (no_order_id x) m)
     = msum (rsv_notional id side) m - share id side x (order_rem x) * Z.abs (no_price x).
Proof.
  intros Hx. rewrite !(msum_delete _ _ _ _ Hx). unfold rsv_notional, rsv_lots, share. done.
Qed.

Lemma rsv_reduce m x total id side :
  m !! no_order_id x = Some x ->
  msum (rsv_lots id side) (<[no_order_id x := with_total x total]> m)
  = msum (rsv_lots id side) m - share id side x (no_total_quantity x - total)
  /\ msum (rsv_notional id side) (<[no_order_id x := with_total x total]> m)
     = msum (rsv_notional id side) m
       - share id side x (no_total_quantity x - total) * Z.abs (no_price x).
Proof.
  intros Hx. rewrite !(msum_update _ _ _ _ _ Hx). unfold rsv_notional, rsv_lots, share. simpl.
  unfold order_rem. simpl. destruct (bool_decide _ && bool_decide _); split; lia.
Qed.

Lemma rsv_insert m x id side :
  m !! no_order_id x = None ->
  msum (rsv_lots id side) (<[no_order_id x := x]> m)
  = msum (rsv_lots id side) m + share id side x (order_rem x)
  /\ msum (rsv_notional id side) (<[no_order_id x := x]> m)
     = msum (rsv_notional id side) m + share id side x (order_rem x) * Z.abs (no_price x).
Proof.
  intros Hx. rewrite !msum_insert_None by done. unfold rsv_notional, rsv_lots, share.
  split; lia.
Qed.

(** Every live order has a nonnegative remainder. *)
Definition nonneg_orders (m : gmap OrderId NewOrder) : Prop :=
  forall id x, m !! id = Some x -> 0 <= order_rem x.

(** A live order's share is part of its account's reservation. *)
Lemma rsv_covers m x p :
  nonneg_orders m -> m !! no_order_id x = Some x -> pos_ok (no_account x) m p ->
  order_rem x <= Position.open_lots p (no_side x)
  /\ order_rem x * Z.abs (no_price x) <= Position.open_notional p (no_side x).
Proof.
  intros Hn Hx P. rewrite (po_lots _ _ _ P), (po_notional _ _ _ P).
  assert (Hs : rsv_lots (no_account x) (no_side x) x = order_rem x).
  { unfold rsv_lots. by rewrite !bool_decide_eq_true_2. }
  split.
  - rewrite <- Hs at 1. eapply msum_elem_le; [| done]. intros i y Hy. apply Hn in Hy.
    unfold rsv_lots. case_match; lia.
  - assert (order_rem x * Z.abs (no_price x) = rsv_notional (no_account x) (no_side x) x) as ->.
    { unfold rsv_notional. by rewrite Hs. }
    eapply msum_elem_le; [| done]. intros i y Hy. apply Hn in Hy.
    unfold rsv_notional, rsv_lots. case_match; lia.
Qed.

Lemma share_own id side x t :
  no_account x = id -> share id side x t = if decide (no_side x = side) then t else 0.
Proof.
  intros <-. unfold share. rewrite bool_decide_eq_true_2 by done. simpl.
  case_bool_decide; by case_decide.
Qed.

Lemma share_other id side x t : no_account x <> id -> share id side x t = 0.
Proof. intros. unfold share. by rewrite bool_decide_eq_false_2. Qed.

(** The two aggregates change by [share ... t], on a position whose side
    changed by the same. *)
Definition shares_off (id : AccountId) (x : NewOrder) (t : Z) (m m' : gmap OrderId NewOrder)
  : Prop :=
  forall side,
    msum (rsv_lots id side) m' = msum (rsv_lots id side) m - share id side x t
    /\ msum (rsv_notional id side) m'
       = msum (rsv_notional id side) m - share id side x t * Z.abs (no_price x).

(** Releasing [t] lots of one's own order. *)
Lemma pos_ok_release id x t m m' p :
  pos_ok id m p -> no_account x = id -> shares_off id x t m m' ->
  0 <= t <= Position.open_lots p (no_side x) ->
  t * Z.abs (no_price x) <= Position.open_notional p (no_side x) ->
  pos_ok id m' (released_pos p (no_side x) t (no_price x)).
Proof.
  intros [P1 P2 P3 P4 P5 P6] Hid Hs Ht Hn.
  assert (0 <= t * Z.abs (no_price x)) by lia.
  constructor; intros; try pose proof (proj1 (Hs side)) as S1;
    try pose proof (proj2 (Hs side)) as S2;
    try specialize (P1 side); try specialize (P2 side);
    try specialize (P5 side); try specialize (P6 side);
    rewrite ?(share_own _ _ _ _ Hid) in *; unfold released_pos;
    destruct p, (no_side x); try destruct side; simpl in *; try lia; mach.
Qed.

(** A maker's own fill: release, then move. *)
Lemma pos_ok_maker id x t m m' p :
  pos_ok id m p -> no_account x = id -> shares_off id x t m m' ->
  0 <= t <= Position.open_lots p (no_side x) ->
  t * Z.abs (no_price x) <= Position.open_notional p (no_side x) ->
  pos_ok id m' (moved_pos (released_pos p (no_side x) t (no_price x)) (no_side x) t)
  /\ in_i64 (position_lots p + signed_fill (no_side x) t).
Proof.
  intros P Hid Hs Ht Hn. pose proof (pos_ok_release _ _ _ _ _ _ P Hid Hs Ht Hn) as [R1 R2 R3 R4 R5 R6].
  destruct P as [_ _ P3 P4 P5 _]. pose proof (P5 Side.Buy). pose proof (P5 Side.Sell).
  split; [constructor |]; intros; unfold moved_pos, released_pos in *;
    try specialize (R1 side); try specialize (R2 side); try specialize (R5 side);
    try specialize (R6 side);
    destruct p, (no_side x); try destruct side; simpl in *; try done; mach.
Qed.

(** The position of a taker moves; nothing of [x] is its own. *)
Lemma pos_ok_taker id x t m m' p side h price :
  pos_ok id m p -> no_account x <> id -> shares_off id x t m m' ->
  room p side h price -> 0 <= t <= h ->
  pos_ok id m' (moved_pos p side t) /\ room (moved_pos p side t) side (h - t) price
  /\ in_i64 (position_lots p + signed_fill side t).
Proof.
  intros [P1 P2 P3 P4 P5 P6] Hid Hs [R1 R2 R3 R4] Ht.
  pose proof (P5 Side.Buy). pose proof (P5 Side.Sell).
  pose proof (P6 side) as Hu.
  assert (0 <= (h - t) * Z.abs price <= h * Z.abs price) by nia.
  split_and!; [constructor | constructor |]; intros;
    try pose proof (proj1 (Hs side0)) as S1; try pose proof (proj2 (Hs side0)) as S2;
    rewrite ?(share_other _ _ _ _ Hid) in *;
    try specialize (P1 side0); try specialize (P2 side0); try specialize (P5 side0);
    try specialize (P6 side0);
    unfold moved_pos; destruct p, side; try destruct side0; simpl in *; try done; mach.
Qed.

(** An order of someone else changes. *)
Lemma pos_ok_other id x t m m' p :
  pos_ok id m p -> no_account x <> id -> shares_off id x t m m' -> pos_ok id m' p.
Proof.
  intros [P1 P2 P3 P4 P5 P6] Hid Hs. constructor; try done; intros side;
    destruct (Hs side) as [S1 S2]; rewrite ?(share_other _ _ _ _ Hid) in *.
  - rewrite P1, S1. lia.
  - rewrite P2, S2. lia.
Qed.

(** A taker that trades with its own order: both moves cancel. *)
Lemma pos_ok_self id x t m m' p h price :
  pos_ok id m p -> no_account x = id -> shares_off id x t m m' ->
  0 <= t <= Position.open_lots p (no_side x) ->
  t * Z.abs (no_price x) <= Position.open_notional p (no_side x) ->
  room p (Side.opposite (no_side x)) h price -> t <= h ->
  let p1 := moved_pos (released_pos p (no_side x) t (no_price x)) (no_side x) t in
  let p2 := moved_pos p1 (Side.opposite (no_side x)) t in
  pos_ok id m' p2 /\ room p2 (Side.opposite (no_side x)) (h - t) price
  /\ in_i64 (position_lots p1 + signed_fill (Side.opposite (no_side x)) t).
Proof.
  intros P Hid Hs Ht Hn [R1 R2 R3 R4] Hh p1 p2.
  pose proof (pos_ok_release _ _ _ _ _ _ P Hid Hs Ht Hn) as Q.
  assert (Hp2 : p2 = released_pos p (no_side x) t (no_price x)).
  { unfold p2, p1, moved_pos, released_pos. destruct p as [pl bl sl bn sn], (no_side x); simpl.
    - by replace (pl + t + - t) with pl by lia.
    - by replace (pl + - t + t) with pl by lia. }
  pose proof (po_lots_i64 _ _ _ P Side.Buy). pose proof (po_lots_i64 _ _ _ P Side.Sell).
  pose proof (po_buy _ _ _ P). pose proof (po_sell _ _ _ P).
  pose proof (po_notional_u128 _ _ _ P (Side.opposite (no_side x))) as Hu.
  assert (0 <= (h - t) * Z.abs price <= h * Z.abs price) by nia.
  rewrite Hp2. split_and!; [done | constructor |];
    unfold p1, moved_pos, released_pos; destruct p, (no_side x); simpl in *; mach.
Qed.

(** * The whole state *)

Definition pos_inv (accts : list AccountState) (L : live_fn) : Prop :=
  forall a k ac p, accts !! a = Some ac -> ac_positions ac !! k = Some p ->
    pos_ok (ac_id ac) (L k) p.

Definition index_inv (accts : list AccountState) (aidx : gmap AccountId nat) : Prop :=
  forall id a, aidx !! id = Some a <-> exists ac, accts !! a = Some ac /\ ac_id ac = id.

Lemma reposed_index accts accts' aidx :
  reposed accts accts' -> index_inv accts aidx -> index_inv accts' aidx.
Proof.
  intros R H id a. rewrite (H id a). split.
  - intros (ac & Ha & <-). destruct (proj2 R _ _ Ha) as (ps & Ha' & _). by eexists.
  - intros (ac' & Ha' & <-). destruct (reposed_inv _ _ _ _ R Ha') as (ac & ps & Ha & ->). eauto.
Qed.

Lemma pos_inv_at accts L a k ac p :
  pos_inv accts L -> accts !! a = Some ac -> pos_at accts a k = Some p ->
  pos_ok (ac_id ac) (L k) p.
Proof. intros H Ha Hp. unfold pos_at in Hp. rewrite Ha in Hp. by eapply H. Qed.

Lemma pos_inv_reposed accts accts' L' :
  reposed accts accts' ->
  (forall a k ac p, accts !! a = Some ac -> pos_at accts' a k = Some p ->
     pos_ok (ac_id ac) (L' k) p) ->
  pos_inv accts' L'.
Proof.
  intros R H a k ac' p Ha' Hp. destruct (reposed_inv _ _ _ _ R Ha') as (ac & ps & Ha & ->).
  apply (H a k ac p Ha). unfold pos_at. by rewrite Ha'.
Qed.

(** The book of instrument [k] changes and the other books do not: what the
    positions in [k] have to satisfy. *)
Lemma pos_inv_change accts accts' L k m' :
  reposed accts accts' -> pos_inv accts L ->
  (forall a k', k' <> k -> pos_at accts' a k' = pos_at accts a k') ->
  (forall a ac p', accts !! a = Some ac -> pos_at accts' a k = Some p' -> pos_ok (ac_id ac) m' p') ->
  pos_inv accts' (lset L k m').
Proof.
  intros R H Hk' Hk. apply (pos_inv_reposed accts); [done |]. intros a k' ac p Ha Hp.
  unfold lset. case_decide as E; [subst; eauto |].
  rewrite Hk' in Hp by done. by eapply pos_inv_at.
Qed.

Section Settle.
Context {S : Type} `{SL : Slab OrderNode S}.
Implicit Types (c : TradingCore S) (L : live_fn).

(** Both sides of one fill. *)
Lemma settle_pair_ok c L k x t am a_t pt side h price :
  index_inv (tc_accounts c) (tc_account_index c) -> pos_inv (tc_accounts c) L ->
  nonneg_orders (L k) -> L k !! no_order_id x = Some x -> 0 < t <= order_rem x ->
  no_side x = Side.opposite side -> in_i64 (no_price x) ->
  tc_account_index c !! no_account x = Some am ->
  is_Some (pos_at (tc_accounts c) am k) ->
  pos_at (tc_accounts c) a_t k = Some pt -> room pt side h price -> t <= h ->
  exists accts, (let! c := Engine.settle_fill c am k (fill_of x t) side in
                 Engine.settle_taker c a_t k side t) = Ret (Core.set_accounts c accts)
    /\ reposed (tc_accounts c) accts
    /\ pos_inv accts (lset L k (apply_fill (L k) (fill_of x t)))
    /\ (exists pt', pos_at accts a_t k = Some pt' /\ room pt' side (h - t) price)
    /\ forall k', total_position accts k' = total_position (tc_accounts c) k'.
Proof.
  intros HI HP Hnn Hx Ht Hside Hpr Ham [pm Hpm] Hpt Hroom Hth.
  assert (Hside' : Side.opposite (no_side x) = side) by (rewrite Hside; by destruct side).
  apply HI in Ham as Ham'. destruct Ham' as (acm & Hacm & Hidm).
  pose proof (pos_inv_at _ _ _ _ _ _ HP Hacm Hpm) as Pm. rewrite Hidm in Pm.
  destruct (rsv_covers (L k) x pm Hnn Hx Pm) as [Hc1 Hc2].
  set (m' := apply_fill (L k) (fill_of x t)).
  assert (Hoff : forall id, shares_off id x t (L k) m') by (intros id s; by apply rsv_fill).
  pose proof (po_lots_i64 _ _ _ Pm (no_side x)) as Hm1.
  pose proof (po_notional_u128 _ _ _ Pm (no_side x)) as Hm2.
  assert (Hn : 0 <= t * Z.abs (no_price x) <= order_rem x * Z.abs (no_price x)) by nia.
  destruct (pos_ok_maker (no_account x) x t (L k) m' pm Pm eq_refl (Hoff _)) as [Pm' Hmv];
    [lia | lia |].
  (* release *)
  destruct (release_changes c am k pm (no_side x) t (no_price x) Hpm)
    as (accts1 & E1 & R1 & A1 & T1); [mach | done | mach | mach |].
  (* the maker's position *)
  destruct (settle_changes (Core.set_accounts c accts1) am k
              (released_pos pm (no_side x) t (no_price x)) (no_side x) t)
    as (accts2 & E2 & R2 & A2 & T2); [simpl; rewrite A1; by rewrite decide_True | mach | |].
  { unfold released_pos. by destruct (no_side x). }
  set (pm' := moved_pos (released_pos pm (no_side x) t (no_price x)) (no_side x) t) in *.
  (* the taker's position *)
  set (pt1 := if decide (a_t = am) then pm' else pt).
  assert (Hpt1 : pos_at accts2 a_t k = Some pt1).
  { rewrite A2. simpl. unfold pt1. case_decide as E; [by rewrite decide_True by naive_solver |].
    rewrite decide_False by naive_solver. rewrite A1. case_decide; naive_solver. }
  assert (Htk : pos_ok (from_option ac_id 0 (tc_accounts c !! a_t)) m' (moved_pos pt1 side t)
                /\ room (moved_pos pt1 side t) side (h - t) price
                /\ in_i64 (position_lots pt1 + signed_fill side t)).
  { unfold pt1. destruct (decide (a_t = am)) as [-> | Hne].
    - rewrite Hacm. simpl. rewrite Hidm. assert (pt = pm) as -> by congruence.
      rewrite <- Hside'. rewrite <- Hside' in Hroom.
      apply (pos_ok_self (no_account x) x t (L k) m' pm h price); try done; lia.
    - unfold pos_at in Hpt. destruct (tc_accounts c !! a_t) as [act |] eqn:Hact; [| done]. simpl.
      apply (pos_ok_taker (ac_id act) x t (L k) m' pt side h price); try done; [by eapply HP | | lia].
      intros Heq. apply Hne. assert (tc_account_index c !! no_account x = Some a_t) as Ha.
      { apply HI. eauto. }
      congruence. }
  destruct Htk as (Pt & Rt & Hmt).
  destruct (settle_changes (Core.set_accounts (Core.set_accounts c accts1) accts2) a_t k pt1 side t)
    as (accts3 & E3 & R3 & A3 & T3); [done | mach | done |].
  exists accts3. split.
  { unfold Engine.settle_fill. cbn [fill_quantity fill_price fill_of]. rewrite <- Hside, E1.
    cbn [rbind]. rewrite E2. cbn [rbind]. by rewrite E3. }
  assert (R13 : reposed (tc_accounts c) accts3).
  { eapply reposed_trans; [done |]. eapply reposed_trans; done. }
  split_and!; [done | | |].
  - apply (pos_inv_change (tc_accounts c)); try done.
    + intros a k' Hk'. rewrite A3. simpl. rewrite decide_False by naive_solver.
      rewrite A2. simpl. rewrite decide_False by naive_solver.
      rewrite A1. by rewrite decide_False by naive_solver.
    + intros a ac p' Ha. rewrite A3. simpl. case_decide as Ea.
      { destruct Ea as [-> _]. intros [= <-]. by rewrite Ha in Pt. }
      rewrite A2. simpl. case_decide as Eb.
      { destruct Eb as [-> _]. intros [= <-]. rewrite Hacm in Ha. injection Ha as <-.
        by rewrite Hidm. }
      rewrite A1. rewrite decide_False by done. intros Hp.
      pose proof (pos_inv_at _ _ _ _ _ _ HP Ha Hp) as P.
      apply (pos_ok_other _ x t (L k)); [done | | done].
      intros Heq. apply Eb. split; [| done].
      assert (tc_account_index c !! no_account x = Some a) by (apply HI; eauto). congruence.
  - exists (moved_pos pt1 side t). split; [| done]. rewrite A3. by rewrite decide_True.
  - intros k'. rewrite T3. simpl. rewrite T2. simpl. rewrite T1. case_decide; [| lia].
    unfold pm'. unfold moved_pos, released_pos. rewrite Hside.
    destruct pt1, pm, side; simpl; lia.
Qed.

(** Part of a live order, or all of it, is released. *)
Lemma release_order_ok c L k x t am p m' :
  index_inv (tc_accounts c) (tc_account_index c) -> pos_inv (tc_accounts c) L ->
  nonneg_orders (L k) -> L k !! no_order_id x = Some x -> 0 <= t <= order_rem x ->
  in_i64 (no_price x) -> tc_account_index c !! no_account x = Some am ->
  pos_at (tc_accounts c) am k = Some p ->
  (forall id, shares_off id x t (L k) m') ->
  exists accts, Engine.release_reservation c am k (no_side x) t (no_price x)
                = Ret (Core.set_accounts c accts)
    /\ reposed (tc_accounts c) accts /\ pos_inv accts (lset L k m')
    /\ pos_at accts am k = Some (released_pos p (no_side x) t (no_price x))
    /\ forall k', total_position accts k' = total_position (tc_accounts c) k'.
Proof.
  intros HI HP Hnn Hx Ht Hpr Ham Hp Hoff.
  apply HI in Ham as Ham'. destruct Ham' as (acm & Hacm & Hidm).
  pose proof (pos_inv_at _ _ _ _ _ _ HP Hacm Hp) as Pm. rewrite Hidm in Pm.
  destruct (rsv_covers (L k) x p Hnn Hx Pm) as [Hc1 Hc2].
  pose proof (po_lots_i64 _ _ _ Pm (no_side x)) as Hm1.
  pose proof (po_notional_u128 _ _ _ Pm (no_side x)) as Hm2.
  assert (Hn : 0 <= t * Z.abs (no_price x) <= order_rem x * Z.abs (no_price x)) by nia.
  destruct (release_changes c am k p (no_side x) t (no_price x) Hp)
    as (accts & E & R & A & T); [mach | done | mach | mach |].
  exists accts. split_and!; try done.
  - apply (pos_inv_change (tc_accounts c)); try done.
    + intros a k' Hk'. rewrite A. by rewrite decide_False by naive_solver.
    + intros a ac p' Ha. rewrite A. case_decide as Ea.
      * destruct Ea as [-> _]. intros [= <-]. rewrite Hacm in Ha. injection Ha as <-.
        rewrite Hidm. apply (pos_ok_release _ _ _ (L k)); try done; lia.
      * intros Hp'. pose proof (pos_inv_at _ _ _ _ _ _ HP Ha Hp') as P.
        apply (pos_ok_other _ x t (L k)); [done | | done].
        intros Heq. apply Ea. split; [| done].
        assert (tc_account_index c !! no_account x = Some a) by (apply HI; eauto). congruence.
  - rewrite A. by rewrite decide_True.
  - intros k'. rewrite T. unfold released_pos.
    case_decide; destruct (no_side x); simpl; lia.
Qed.

(** A new resting order is reserved. *)
Lemma reserve_order_ok c L k x am p :
  index_inv (tc_accounts c) (tc_account_index c) -> pos_inv (tc_accounts c) L ->
  L k !! no_order_id x = None -> tc_account_index c !! no_account x = Some am ->
  in_i64 (no_price x) -> pos_at (tc_accounts c) am k = Some p ->
  room p (no_side x) (order_rem x) (no_price x) ->
  exists accts, Engine.reserve c am k (no_side x) (order_rem x) (no_price x)
                = Ret (Core.set_accounts c accts)
    /\ reposed (tc_accounts c) accts
    /\ pos_inv accts (lset L k (<[no_order_id x := x]> (L k)))
    /\ forall k', total_position accts k' = total_position (tc_accounts c) k'.
Proof.
  intros HI HP Hnew Ham Hpr Hp [R1 R2 R3 R4].
  apply HI in Ham as Ham'. destruct Ham' as (acm & Hacm & Hidm).
  pose proof (pos_inv_at _ _ _ _ _ _ HP Hacm Hp) as Pm. rewrite Hidm in Pm.
  pose proof (po_lots_i64 _ _ _ Pm (no_side x)) as Hm1.
  destruct (reserve_changes c am k p (no_side x) (order_rem x) (no_price x) Hp)
    as (accts & E & R & A & T); [mach | done | mach | mach |].
  exists accts. split_and!; try done.
  - apply (pos_inv_change (tc_accounts c)); try done.
    + intros a k' Hk'. rewrite A. by rewrite decide_False by naive_solver.
    + intros a ac p' Ha. rewrite A.
      pose proof (fun id side => rsv_insert (L k) x id side Hnew) as Hin. case_decide as Ea.
      * destruct Ea as [-> _]. intros [= <-]. rewrite Hacm in Ha. injection Ha as <-.
        rewrite Hidm. destruct Pm as [P1 P2 P3 P4 P5 P6].
        constructor; intros; try pose proof (proj1 (Hin (no_account x) side)) as S1;
          try pose proof (proj2 (Hin (no_account x) side)) as S2;
          rewrite ?(share_own _ _ _ _ eq_refl) in *;
          try specialize (P1 side); try specialize (P2 side); try specialize (P5 side);
          try specialize (P6 side);
          unfold reserved_pos; destruct p, (no_side x); try destruct side; simpl in *;
          try done; try lia; mach.
      * intros Hp'. pose proof (pos_inv_at _ _ _ _ _ _ HP Ha Hp') as P.
        assert (Hne : no_account x <> ac_id ac).
        { intros Heq. apply Ea. split; [| done].
          assert (tc_account_index c !! no_account x = Some a) by (apply HI; eauto). congruence. }
        destruct P as [P1 P2 P3 P4 P5 P6]. constructor; try done; intros side;
          destruct (Hin (ac_id ac) side) as [S1 S2]; rewrite ?(share_other _ _ _ _ Hne) in *.
        -- rewrite P1, S1. lia.
        -- rewrite P2, S2. lia.
  - intros k'. rewrite T. unfold reserved_pos.
    case_decide; destruct (no_side x); simpl; lia.
Qed.

End Settle.
