(* ===== verification/CoreExec.v ===== *)
(** Executing an aggressing order: the fill loop of [execute]. *)

From Stdlib Require Import Sorted.
From S2P Require Import Prelude Enums Ids Events BTree Slab Book BookData BookInv BookSpec Matching.
From S2P Require Import MatchSpec MatchProps BookTheorems Market Account AccountProps Config.
From S2P Require Import CoreState Risk Core CoreAcct.

(** Fills that leave their maker resting. *)
Fixpoint partials (fs : list Fill) : Z :=
  match fs with
  | [] => 0
  | f :: fs => (if maker_is_filled f then 0 else 1) + partials fs
  end.

(** The three events of each fill, in order, numbered from [s + 1] on. *)
Fixpoint fill_outputs (engine_seq s trade_id : Z) (taker_order : OrderId) (taker : AccountId)
    (side : Side.t) (fs : list Fill) (evs : list OutputEvent.t) : Prop :=
  match fs with
  | [] => evs = []
  | f :: fs =>
      exists tr mk tk rest,
        evs = OutputEvent.Trade tr :: OutputEvent.Report mk :: OutputEvent.Report tk :: rest
        /\ tr_output_seq tr = s + 1 /\ rep_output_seq mk = s + 2 /\ rep_output_seq tk = s + 3
        /\ tr_engine_seq tr = engine_seq /\ rep_engine_seq mk = engine_seq
        /\ rep_engine_seq tk = engine_seq
        /\ tr_trade_id tr = trade_id + 1
        /\ tr_maker_order_id tr = fill_maker_order_id f /\ tr_taker_order_id tr = taker_order
        /\ tr_maker_account tr = fill_maker_account f /\ tr_taker_account tr = taker
        /\ tr_price tr = fill_price f /\ tr_quantity tr = fill_quantity f
        /\ tr_aggressor tr = side
        /\ rep_order_id mk = fill_maker_order_id f /\ rep_account mk = fill_maker_account f
        /\ rep_last_fill_quantity mk = fill_quantity f
        /\ rep_remaining mk = fill_maker_remaining f
        /\ rep_cumulative_filled mk = fill_maker_cumulative_filled f
        /\ rep_order_id tk = taker_order /\ rep_account tk = taker
        /\ rep_last_fill_quantity tk = fill_quantity f
        /\ fill_outputs engine_seq (s + 3) (trade_id + 1) taker_order taker side fs rest
  end.

Lemma fill_outputs_length e s tid o a side fs evs :
  fill_outputs e s tid o a side fs evs -> length evs = (3 * length fs)%nat.
Proof.
  revert s tid evs. induction fs as [| f fs IH]; intros s tid evs; simpl; [by intros -> |].
  intros (tr & mk & tk & rest & -> & H). simpl.
  destruct_and! H. match goal with H : fill_outputs _ _ _ _ _ _ _ _ |- _ => apply IH in H end. lia.
Qed.

(** Events numbered from [s + 1] on, all of one input. *)
Definition numbered (engine_seq s : Z) (evs : list OutputEvent.t) : Prop :=
  forall i e, evs !! i = Some e ->
    OutputEvent.output_seq e = s + 1 + Z.of_nat i /\ OutputEvent.engine_seq e = engine_seq.

Lemma numbered_nil e s : numbered e s [].
Proof. intros i ev. by rewrite lookup_nil. Qed.

Lemma numbered_app e s evs1 evs2 :
  numbered e s evs1 -> numbered e (s + Z.of_nat (length evs1)) evs2 ->
  numbered e s (evs1 ++ evs2).
Proof.
  intros H1 H2 i ev. rewrite lookup_app. destruct (evs1 !! i) eqn:E.
  - intros [= <-]. by apply H1.
  - intros Hi. apply lookup_ge_None in E. destruct (H2 _ _ Hi) as [-> ?]. split; [lia | done].
Qed.

Lemma numbered_singleton e s ev :
  OutputEvent.output_seq ev = s + 1 -> OutputEvent.engine_seq ev = e -> numbered e s [ev].
Proof.
  intros H1 H2 i ev'. destruct i as [| i]; simpl; [| done]. intros [= <-]. split; [lia | done].
Qed.

Lemma fill_outputs_numbered e s tid o a side fs evs :
  fill_outputs e s tid o a side fs evs -> numbered e s evs.
Proof.
  revert s tid evs. induction fs as [| f fs IH]; intros s tid evs; simpl.
  { intros ->. apply numbered_nil. }
  intros (tr & mk & tk & rest & -> & H). destruct_and! H.
  match goal with H : fill_outputs _ _ _ _ _ _ _ _ |- _ => apply IH in H; rename H into Hr end.
  intros [| [| [| i]]] ev; simpl.
  - intros [= <-]. simpl. split; [lia | done].
  - intros [= <-]. simpl. split; [lia | done].
  - intros [= <-]. simpl. split; [lia | done].
  - intros Hi. destruct (Hr _ _ Hi) as [-> ?]. split; [lia | done].
Qed.

Section Exec.
Context {S : Type} `{SL : Slab OrderNode S} `{!SlabLaws SL}.
Implicit Types (c : TradingCore S) (L : live_fn).

(** The counters of a state that is far from exhaustion. *)
Definition bound : Z := 2 ^ 59.

Record calm (c : TradingCore S) : Prop := {
  cm_fault : tc_fault c = None;
  cm_output : 0 <= tc_output_seq c <= bound;
  cm_trade : 0 <= tc_next_trade_id c;
  cm_trades : 0 <= trades (tc_metrics c) <= tc_next_trade_id c;
  cm_potential : tc_next_trade_id c + Z.of_nat (size (tc_live_orders c)) <= bound
}.

(** The counters of orders and priorities, which only the handlers advance. *)
Definition ids_ok (c : TradingCore S) : Prop :=
  0 <= tc_next_order_id c <= bound /\ 0 <= tc_next_priority c <= bound.

Lemma next_small z : 0 <= z -> z < 2 ^ 62 -> next z = Some (z + 1).
Proof. intros. apply u64_checked_in. mach. Qed.

Lemma take_output_seq_ok c :
  0 <= tc_output_seq c < 2 ^ 62 ->
  Core.take_output_seq c = (Core.set_output_seq c (tc_output_seq c + 1), tc_output_seq c + 1).
Proof. intros. unfold Core.take_output_seq. by rewrite next_small by lia. Qed.

(** Everything but the accounts, the order maps, the output and trade
    sequences and the metrics. *)
Definition same_rest (c c' : TradingCore S) : Prop :=
  tc_config c' = tc_config c /\ tc_instruments c' = tc_instruments c
  /\ tc_instrument_index c' = tc_instrument_index c
  /\ tc_account_index c' = tc_account_index c
  /\ tc_global_kill c' = tc_global_kill c /\ tc_engine_seq c' = tc_engine_seq c
  /\ tc_next_order_id c' = tc_next_order_id c /\ tc_next_priority c' = tc_next_priority c
  /\ tc_engine_time_ns c' = tc_engine_time_ns c /\ tc_fault c' = tc_fault c.

(** The metrics but [trades]. *)
Definition same_metrics (m m' : EngineMetrics) : Prop :=
  inputs_applied m' = inputs_applied m /\ requests_accepted m' = requests_accepted m
  /\ requests_rejected m' = requests_rejected m /\ reports_emitted m' = reports_emitted m
  /\ market_events m' = market_events m /\ control_events m' = control_events m.

(** A taker's report when its fills have not passed its quantity. *)
Lemma taker_report_ok c request order_id side quantity cum fill :
  0 <= tc_output_seq c < 2 ^ 62 -> in_u64 (quantity - cum) ->
  exists r, Engine.taker_report c request order_id side quantity cum fill
            = (Core.set_output_seq c (tc_output_seq c + 1), r)
    /\ rep_output_seq r = tc_output_seq c + 1 /\ rep_engine_seq r = tc_engine_seq c
    /\ rep_order_id r = order_id /\ rep_account r = req_account request
    /\ rep_last_fill_quantity r = fill_quantity fill.
Proof.
  intros Ho Hq. unfold Engine.taker_report, Core.base_report. rewrite take_output_seq_ok by done.
  rewrite u64_checked_in by done. eexists. split; [reflexivity |]. simpl. split_and!; reflexivity.
Qed.

(** The order maps after one fill. *)
Lemma forget_maker_ok aidx lo co L k x t c :
  maps_inv aidx lo co L -> L k !! no_order_id x = Some x ->
  tc_live_orders c = lo -> tc_client_orders c = co ->
  let c' := Engine.forget_maker c (fill_of x t) in
  maps_inv aidx (tc_live_orders c') (tc_client_orders c')
    (lset L k (apply_fill (L k) (fill_of x t)))
  /\ Z.of_nat (size (tc_live_orders c')) + 1
     = Z.of_nat (size lo) + (if maker_is_filled (fill_of x t) then 0 else 1)
  /\ exists lo' co', c' = Core.set_client_orders (Core.set_live_orders c lo') co'.
Proof.
  intros M Hx Hlo Hco. unfold Engine.forget_maker, maker_is_filled, QuantityLots.is_zero.
  cbn [fill_maker_remaining fill_of fill_maker_order_id fill_maker_account fill_maker_client_order_id].
  rewrite (apply_fill_of _ _ _ Hx).
  replace (order_rem x - t =? 0) with (t =? order_rem x) by lia.
  destruct (t =? order_rem x); simpl; rewrite ?Hlo, ?Hco.
  - split_and!; [by apply maps_delete | | eauto].
    destruct (mp_account _ _ _ _ M _ _ _ Hx) as [a Ha].
    assert (Hl : lo !! no_order_id x = Some (mkLiveOrder a k)).
    { apply (mp_live _ _ _ _ M). eauto. }
    rewrite map_size_delete_Some by eauto.
    assert (size lo <> 0)%nat; [| lia].
    intros E. apply map_size_empty_inv in E. by rewrite E in Hl.
  - split_and!; [by eapply maps_update | lia |].
    exists lo, co. subst. by destruct c.
Qed.

Lemma pos_inv_ext accts L L' :
  (forall k, L k = L' k) -> pos_inv accts L -> pos_inv accts L'.
Proof. intros E H a k ac p. rewrite <- E. apply H. Qed.

Lemma maps_inv_ext aidx lo co L L' :
  (forall k, L k = L' k) -> maps_inv aidx lo co L -> maps_inv aidx lo co L'.
Proof.
  intros E [M1 M2 M3 M4]. constructor.
  - intros k id x. rewrite <- E. apply M1.
  - intros k id x. rewrite <- E. apply M2.
  - intros id l. rewrite M3. by setoid_rewrite E.
  - intros key id. rewrite M4. by setoid_rewrite E.
Qed.

Lemma lset_lset L k m m' k' : lset (lset L k m) k m' k' = lset L k m' k'.
Proof. unfold lset. by case_decide. Qed.

(** Valid fills of live orders, and what stays true of them. *)
Definition live_ok (m : gmap OrderId NewOrder) : Prop :=
  forall id x, m !! id = Some x -> no_order_id x = id /\ 0 < order_rem x /\ in_i64 (no_price x).

Lemma live_ok_nonneg m : live_ok m -> nonneg_orders m.
Proof. intros H id x Hx. apply H in Hx. lia. Qed.

Lemma live_ok_fill m x t :
  live_ok m -> m !! no_order_id x = Some x -> 0 < t <= order_rem x ->
  live_ok (apply_fill m (fill_of x t)).
Proof.
  intros H Hx Ht id y. rewrite (apply_fill_of _ _ _ Hx).
  destruct (Z.eqb_spec t (order_rem x)).
  - intros [_ Hy]%lookup_delete_Some. by apply H.
  - rewrite lookup_insert. case_decide; [| apply H].
    intros [= <-]. subst. apply H in Hx as (? & ? & ?). rewrite order_rem_filled_by. simpl.
    split_and!; done || lia.
Qed.

Lemma filled_quantity_nonneg side limit m fs :
  fills_valid side limit m fs -> 0 <= filled_quantity fs.
Proof.
  revert m. induction fs as [| f fs IH]; intros m; simpl; [lia |].
  intros [(x & t & _ & -> & _ & _ & Ht) Hv]. apply IH in Hv. simpl. lia.
Qed.

(** The accounts all have a position in instrument [k]. *)
Definition has_positions (accts : list AccountState) (k : nat) : Prop :=
  forall a ac, accts !! a = Some ac -> is_Some (ac_positions ac !! k).

Lemma has_positions_reposed accts accts' k :
  reposed accts accts' -> has_positions accts k -> has_positions accts' k.
Proof.
  intros R H a ac' Ha'. destruct (reposed_inv _ _ _ _ R Ha') as (ac & ps & Ha & ->).
  destruct (proj2 R _ _ Ha) as (ps' & Ha'' & Hl). rewrite Ha' in Ha''.
  apply (f_equal (fmap ac_positions)) in Ha''. simpl in Ha''. injection Ha'' as ->.
  apply lookup_lt_is_Some. simpl. rewrite Hl. apply lookup_lt_is_Some. by eapply H.
Qed.

(** Every account has one position per instrument. *)
Definition covers (accts : list AccountState) (n : nat) : Prop :=
  forall a ac, accts !! a = Some ac -> length (ac_positions ac) = n.

Lemma covers_reposed accts accts' n : reposed accts accts' -> covers accts n -> covers accts' n.
Proof.
  intros R H a ac' Ha'. destruct (reposed_inv _ _ _ _ R Ha') as (ac & ps & Ha & E).
  destruct (proj2 R _ _ Ha) as (ps' & Ha'' & Hl). rewrite Ha' in Ha''. injection Ha'' as ->.
  simpl. rewrite Hl. by eapply H.
Qed.

Lemma covers_has accts n k : covers accts n -> (k < n)%nat -> has_positions accts k.
Proof. intros H Hk a ac Ha. apply lookup_lt_is_Some. by rewrite (H _ _ Ha). Qed.

Lemma has_positions_at accts aidx k id a :
  index_inv accts aidx -> has_positions accts k -> aidx !! id = Some a ->
  is_Some (pos_at accts a k).
Proof.
  intros HI HP Ha. apply HI in Ha as (ac & Hac & _). unfold pos_at. rewrite Hac. by eapply HP.
Qed.

(** What one run of the fill loop does. *)
Record settled (c c' : TradingCore S) (L : live_fn) (k a_t : nat) (side : Side.t)
    (h price : Z) (fs : list Fill) : Prop := {
  sd_rest : same_rest c c';
  sd_output : tc_output_seq c' = tc_output_seq c + 3 * Z.of_nat (length fs);
  sd_trade : tc_next_trade_id c' = tc_next_trade_id c + Z.of_nat (length fs);
  sd_trades : trades (tc_metrics c') = trades (tc_metrics c) + Z.of_nat (length fs);
  sd_metrics : same_metrics (tc_metrics c) (tc_metrics c');
  sd_reposed : reposed (tc_accounts c) (tc_accounts c');
  sd_pos : pos_inv (tc_accounts c') (lset L k (apply_fills (L k) fs));
  sd_maps : maps_inv (tc_account_index c') (tc_live_orders c') (tc_client_orders c')
              (lset L k (apply_fills (L k) fs));
  sd_size : Z.of_nat (size (tc_live_orders c')) + Z.of_nat (length fs)
            = Z.of_nat (size (tc_live_orders c)) + partials fs;
  sd_room : exists pt, pos_at (tc_accounts c') a_t k = Some pt
              /\ room pt side (h - filled_quantity fs) price;
  sd_total k' : total_position (tc_accounts c') k' = total_position (tc_accounts c) k'
}.

Lemma settle_fills_ok fs c L k a_t request order_id side quantity instrument limit cum out h
    price pt :
  tc_fault c = None -> 0 <= tc_output_seq c ->
  tc_output_seq c + 3 * Z.of_nat (length fs) < 2 ^ 62 ->
  0 <= tc_next_trade_id c -> tc_next_trade_id c + Z.of_nat (length fs) < 2 ^ 62 ->
  0 <= trades (tc_metrics c) <= tc_next_trade_id c ->
  index_inv (tc_accounts c) (tc_account_index c) -> pos_inv (tc_accounts c) L ->
  maps_inv (tc_account_index c) (tc_live_orders c) (tc_client_orders c) L ->
  has_positions (tc_accounts c) k -> live_ok (L k) ->
  fills_valid (Side.opposite side) limit (L k) fs ->
  pos_at (tc_accounts c) a_t k = Some pt -> room pt side h price ->
  filled_quantity fs <= h -> 0 <= cum -> cum + filled_quantity fs <= quantity ->
  quantity <= u64_max ->
  exists c' evs,
    Engine.settle_fills c k a_t request order_id side quantity instrument fs cum out
    = Ret (c', out ++ evs)
    /\ fill_outputs (tc_engine_seq c) (tc_output_seq c) (tc_next_trade_id c) order_id
         (req_account request) side fs evs
    /\ settled c c' L k a_t side h price fs.
Proof.
  revert c L cum out h pt. induction fs as [| f fs IH];
    intros c L cum out h pt Hfault Ho Ho' Ht Ht' Htr HI HP HM Hhas Hlive Hv Hpt Hroom Hh Hc Hcq Hq.
  { exists c, []. rewrite app_nil_r. split; [done |]. split; [done |].
    assert (Hid : forall k', L k' = lset L k (L k) k').
    { intros k'. unfold lset. by case_decide; subst. }
    constructor; simpl; try lia; try done.
    - apply reposed_refl.
    - by eapply pos_inv_ext.
    - by eapply maps_inv_ext.
    - exists pt. split; [done |]. by rewrite Z.sub_0_r. }
  destruct Hv as [(x & t & Hx & -> & Hxs & Hel & Htx) Hv].
  pose proof (filled_quantity_nonneg _ _ _ _ Hv) as Hnn.
  cbn [filled_quantity fill_quantity fill_of length] in *.
  destruct (Hlive _ _ Hx) as (_ & _ & Hxp).
  cbn [Engine.settle_fills fill_quantity fill_of].
  rewrite u64_checked_in by mach. rewrite next_small by lia.
  unfold Engine.bump_trades. cbn [tc_metrics Core.set_next_trade_id].
  rewrite u64_plain_in by mach. cbn [rbind].
  destruct (mp_account _ _ _ _ HM _ _ _ Hx) as [am Ham].
  cbn [tc_account_index Core.set_metrics Core.set_next_trade_id fill_maker_account].
  change (fill_maker_account (fill_of x t)) with (no_account x).
  rewrite Ham. cbn [unwrap rbind].
  set (c1 := Core.set_metrics _ _).
  destruct (settle_pair_ok c1 L k x t am a_t pt side h price)
    as (accts & E & R & HP' & (pt' & Hpt' & Hroom') & Htot); try done; try lia.
  { by apply live_ok_nonneg. }
  { by eapply has_positions_at. }
  apply rbind_inv in E as (c2 & E2 & E3).
  rewrite E2. cbn [rbind]. rewrite E3.
  cbn [rbind]. rewrite take_output_seq_ok by (simpl; lia).
  rewrite take_output_seq_ok by (simpl; lia).
  set (c3 := Core.set_output_seq (Core.set_output_seq _ _) _).
  destruct (forget_maker_ok (tc_account_index c) (tc_live_orders c) (tc_client_orders c) L k x t
              c3 HM Hx eq_refl eq_refl) as (HM' & Hsize & lo' & co' & E4).
  set (c4 := Engine.forget_maker c3 (fill_of x t)) in *.
  destruct (taker_report_ok c4 request order_id side quantity (cum + t) (fill_of x t))
    as (tk & E5 & K1 & K2 & K3 & K4 & K5); [rewrite E4; simpl; lia | mach |].
  rewrite E5. rewrite E4 in HM', Hsize, E5, K1, K2 |- *. simpl in HM', Hsize, K1, K2.
  set (c5 := Core.set_output_seq (Core.set_client_orders _ _) _).
  match goal with
  | |- context [Engine.settle_fills _ _ _ _ _ _ _ _ _ _ ?o] => set (out1 := o)
  end.
  destruct (IH c5 (lset L k (apply_fill (L k) (fill_of x t))) (cum + t) out1 (h - t) pt')
    as (c' & evs & E6 & Hev & Hset); simpl; try lia; try done.
  { by eapply reposed_index. }
  { by eapply has_positions_reposed. }
  { rewrite lset_eq. by apply live_ok_fill. }
  { by rewrite lset_eq. }
  destruct Hset as [D1 D2 D3 D4 D5 D6 D7 D8 D9 (pt2 & D10 & D11) D12].
  rewrite lset_eq in D7, D8. simpl in *.
  exists c'. eexists. split; [rewrite E6; unfold out1; rewrite <- !app_assoc; reflexivity |].
  split.
  { do 4 eexists. split; [reflexivity |]. simpl. rewrite K1, K2. split_and!; try done; try lia.
    by replace (tc_output_seq c + 3) with (tc_output_seq c + 1 + 1 + 1) by lia. }
  assert (Hll : forall k', lset (lset L k (apply_fill (L k) (fill_of x t))) k
                   (apply_fills (apply_fill (L k) (fill_of x t)) fs) k'
                 = lset L k (apply_fills (L k) (fill_of x t :: fs)) k').
  { intros k'. by rewrite lset_lset. }
  constructor; cbn [length filled_quantity fill_quantity fill_of partials]; try lia.
  - destruct D1 as (? & ? & ? & ? & ? & ? & ? & ? & ? & ?). by split_and!.
  - done.
  - by eapply reposed_trans.
  - by eapply pos_inv_ext.
  - by eapply maps_inv_ext.
  - exists pt2. split; [done |]. by replace (h - (t + filled_quantity fs)) with (h - t - filled_quantity fs) by lia.
  - intros k'. rewrite D12. apply Htot.
Qed.

End Exec.
