(* ===== verification/CoreInv.v ===== *)
(** The engine's invariant, and the operations that touch a book: executing an
    aggressing order and resting its remainder. *)

From Stdlib Require Import Sorted.
From S2P Require Import Prelude Enums Ids Events BTree Slab Book BookData BookInv BookSpec Matching.
From S2P Require Import MatchSpec MatchProps BookTheorems Market MarketInv Account AccountProps.
From S2P Require Import Config CoreState Risk Core CoreAcct CoreExec.

(** Best bid below best ask, order by order. *)
Definition uncrossed_live (m : gmap OrderId NewOrder) : Prop :=
  forall i j x y, m !! i = Some x -> m !! j = Some y ->
    no_side x = Side.Buy -> no_side y = Side.Sell -> no_price x < no_price y.

(** At most one fill leaves its maker resting. *)
Lemma fills_lookup m ms x t :
  (forall x t, (x, t) ∈ ms -> m !! no_order_id x = Some x) ->
  NoDup (map (fun mt => no_order_id mt.1) ms) -> (x, t) ∈ ms -> t <> order_rem x ->
  apply_fills m (fills_of ms) !! no_order_id x = Some (filled_by x t).
Proof.
  revert m. induction ms as [| [y u] ms IH]; intros m Hm Hnd Hin Ht; [set_solver |].
  simpl in Hnd. apply NoDup_cons in Hnd as [Hy Hnd].
  assert (Hnot : forall z v, (z, v) ∈ ms -> no_order_id z <> no_order_id y).
  { intros z v Hz E. apply Hy. rewrite <- E. apply list_elem_of_In, in_map_iff.
    exists (z, v). split; [done |]. by apply list_elem_of_In. }
  simpl. apply elem_of_cons in Hin as [[= -> ->] | Hin].
  - assert (Hout : forall m', (forall z v, (z, v) ∈ ms -> no_order_id z <> no_order_id y) ->
              apply_fills m' (fills_of ms) !! no_order_id y = m' !! no_order_id y).
    { clear. intros m' Hn. revert m'. induction ms as [| [z v] ms IH]; intros m'; simpl; [done |].
      rewrite IH by (intros z0 v0 H0; apply (Hn z0 v0); set_solver).
      apply apply_fill_lookup_ne. simpl. intros E. symmetry in E. revert E.
      eapply (Hn z v). set_solver. }
    rewrite Hout by done. rewrite apply_fill_of by (apply (Hm y u); set_solver).
    replace (u =? order_rem y) with false by lia. by rewrite lookup_insert_eq.
  - apply IH; try done. intros z v Hz. rewrite apply_fill_lookup_ne.
    + apply (Hm z v). set_solver.
    + simpl. by eapply Hnot.
Qed.

Lemma ahead_NoDup side (m : gmap OrderId NewOrder) (ms : list (NewOrder * Z)) :
  (forall x t, (x, t) ∈ ms -> m !! no_order_id x = Some x) ->
  StronglySorted (fun m1 m2 => ahead side m1.1 m2.1) ms ->
  NoDup (map (fun mt => no_order_id mt.1) ms).
Proof.
  induction ms as [| [x t] ms IH]; intros Hm Hs; simpl; [constructor |].
  apply StronglySorted_inv in Hs as [Hs Hf]. constructor; [| apply IH; [set_solver | done]].
  intros ([y u] & Heq & Hin)%list_elem_of_In%in_map_iff. apply list_elem_of_In in Hin.
  rewrite Forall_forall in Hf. specialize (Hf _ Hin). simpl in *.
  assert (x = y) as ->; [| by apply ahead_irrefl in Hf].
  assert (m !! no_order_id x = Some x) by (apply (Hm x t); set_solver).
  assert (m !! no_order_id y = Some y) by (apply (Hm y u); set_solver). congruence.
Qed.

Section CoreInv.
Context {S : Type} `{SL : Slab OrderNode S} `{!SlabLaws SL}.
Implicit Types (c : TradingCore S) (L : live_fn) (r : InstrumentRuntime S) (b : OrderBook S).

Lemma partials_le_1 b b' side limit quantity ms :
  match_result b side limit quantity b' ms -> 0 <= partials (fills_of ms) <= 1.
Proof.
  intros M. pose proof (mr_order _ _ _ _ _ _ M) as Hs.
  assert (Hm : forall x t, (x, t) ∈ ms -> live b !! no_order_id x = Some x).
  { intros x t Hx. by apply (mr_makers _ _ _ _ _ _ M) in Hx as [? _]. }
  assert (Hlast : forall x t m2, (x, t) ∈ ms -> m2 ∈ ms -> ahead side x m2.1 -> t = order_rem x).
  { intros x t m2 Hx H2 Ha. destruct (decide (t = order_rem x)) as [| Hne]; [done | exfalso].
    pose proof (fills_lookup (live b) ms x t Hm (ahead_NoDup side _ _ Hm Hs) Hx Hne) as Hl.
    rewrite <- (mr_live _ _ _ _ _ _ M) in Hl.
    apply (mr_makers _ _ _ _ _ _ M) in Hx as (_ & Hside & _).
    by apply (mr_survivors _ _ _ _ _ _ M _ _ m2 Hl). }
  clear M. induction ms as [| [x t] ms IH]; simpl; [lia |].
  apply StronglySorted_inv in Hs as [Hs Hf]. unfold maker_is_filled, QuantityLots.is_zero. simpl.
  destruct ms as [| m2 ms].
  - simpl. destruct (order_rem x - t =? 0); lia.
  - assert (t = order_rem x) as ->.
    { apply (Hlast x t m2); [set_solver | set_solver |].
      apply Forall_cons in Hf as [Hf _]. done. }
    rewrite Z.sub_diag, Z.eqb_refl.
    apply IH; try done; [set_solver |].
    intros y u m3 H1 H2. apply (Hlast y u m3); set_solver.
Qed.

(** * The invariant *)

(** The live orders of the books. *)
Definition lv (c : TradingCore S) (k : nat) : gmap OrderId NewOrder :=
  from_option (fun r => live (ir_book r)) ∅ (tc_instruments c !! k).

(** The accounts and the order maps describe the live orders [L]. *)
Record tinv (c : TradingCore S) (L : live_fn) : Prop := {
  ti_index : index_inv (tc_accounts c) (tc_account_index c);
  ti_maps : maps_inv (tc_account_index c) (tc_live_orders c) (tc_client_orders c) L;
  ti_pos : pos_inv (tc_accounts c) L;
  ti_cover : covers (tc_accounts c) (length (tc_instruments c));
  ti_orders k id x : L k !! id = Some x ->
    0 < id <= tc_next_order_id c /\ no_priority x <= tc_next_priority c /\ in_i64 (no_price x);
  ti_total k : total_position (tc_accounts c) k = 0
}.

Lemma ti_has c L k :
  tinv c L -> is_Some (tc_instruments c !! k) -> has_positions (tc_accounts c) k.
Proof. intros T Hk%lookup_lt_is_Some. by eapply covers_has; [apply T |]. Qed.

Record inst_ok (n : Z) (r : InstrumentRuntime S) : Prop := {
  io_lot : 1 <= ic_lot_size (ir_config r);
  io_tick : 1 <= ic_tick_size (ir_config r);
  io_range : i64_min <= ic_min_price_ticks (ir_config r)
             /\ ic_max_price_ticks (ir_config r) <= i64_max;
  io_market : market_inv (ir_market r);
  io_domain : mv_min_price_ticks (ir_market r) = ic_min_price_ticks (ir_config r)
              /\ mv_max_price_ticks (ir_market r) = ic_max_price_ticks (ir_config r);
  io_budget : market_budget n (ir_market r);
  io_book : book_wf (ir_book r);
  io_uncrossed : uncrossed_live (live (ir_book r))
}.

Definition insts_ok (n : Z) (c : TradingCore S) : Prop :=
  forall k r, tc_instruments c !! k = Some r -> inst_ok n r.

(** The fields that never change once the engine runs, and the ones the
    request handlers leave alone. *)
Definition runtimes (c : TradingCore S) : list (InstrumentConfig * MarketView) :=
  (fun r => (ir_config r, ir_market r)) <$> tc_instruments c.

Record same_static (c c' : TradingCore S) : Prop := {
  ss_runtimes : runtimes c' = runtimes c;
  ss_config : tc_config c' = tc_config c;
  ss_iindex : tc_instrument_index c' = tc_instrument_index c;
  ss_aindex : tc_account_index c' = tc_account_index c;
  ss_kill : tc_global_kill c' = tc_global_kill c;
  ss_seq : tc_engine_seq c' = tc_engine_seq c;
  ss_time : tc_engine_time_ns c' = tc_engine_time_ns c;
  ss_fault : tc_fault c' = tc_fault c;
  ss_metrics : same_metrics (tc_metrics c) (tc_metrics c')
}.

Lemma same_static_refl c : same_static c c.
Proof. by constructor. Qed.

Lemma same_static_trans c1 c2 c3 : same_static c1 c2 -> same_static c2 c3 -> same_static c1 c3.
Proof.
  intros [A0 A1 A2 A3 A4 A5 A6 A7 (B1 & B2 & B3 & B4 & B5 & B6)]
    [C0 C1 C2 C3 C4 C5 C6 C7 (D1 & D2 & D3 & D4 & D5 & D6)].
  constructor; try congruence. repeat split; congruence.
Qed.

(** Putting a book back changes no runtime's configuration or market. *)
Lemma runtimes_put c c' k r b :
  tc_instruments c !! k = Some r ->
  tc_instruments c' = <[k := ir_set_book r b]> (tc_instruments c) -> runtimes c' = runtimes c.
Proof.
  intros Hk E. unfold runtimes. rewrite E. apply list_eq. intros i.
  rewrite !list_lookup_fmap, list_lookup_insert.
  case_decide as Ei; [| done]. destruct Ei as [<- _]. by rewrite Hk.
Qed.

Lemma lv_at c k r : tc_instruments c !! k = Some r -> lv c k = live (ir_book r).
Proof. unfold lv. by intros ->. Qed.

(** A book is replaced. *)
Lemma put_book_ok c k r b :
  tc_instruments c !! k = Some r ->
  Core.put_book c k b
  = Ret (Core.set_instruments c (<[k := ir_set_book r b]> (tc_instruments c))).
Proof.
  intros Hk. unfold Core.put_book, Core.instrument, Core.put_instrument, index, index_set.
  by rewrite Hk.
Qed.

Lemma book_ok c k r : tc_instruments c !! k = Some r -> Core.book c k = Ret (ir_book r).
Proof. intros Hk. unfold Core.book, Core.instrument, index. by rewrite Hk. Qed.

Lemma lv_put c c' k r b k' :
  tc_instruments c !! k = Some r ->
  tc_instruments c' = <[k := ir_set_book r b]> (tc_instruments c) ->
  lv c' k' = lset (lv c) k (live b) k'.
Proof.
  intros Hk E. unfold lv, lset. rewrite E. case_decide as Ek.
  - subst. rewrite list_lookup_insert_eq; [done | by eapply lookup_lt_Some].
  - by rewrite list_lookup_insert_ne.
Qed.

Lemma insts_put n c c' k r b :
  insts_ok n c -> tc_instruments c !! k = Some r ->
  tc_instruments c' = <[k := ir_set_book r b]> (tc_instruments c) ->
  book_wf b -> uncrossed_live (live b) -> insts_ok n c'.
Proof.
  intros H Hk E Hb Hu k' r'. rewrite E. intros Hr'.
  destruct (decide (k = k')) as [<- |].
  - rewrite list_lookup_insert_eq in Hr' by (by eapply lookup_lt_Some). injection Hr' as <-.
    destruct (H _ _ Hk). by constructor.
  - rewrite list_lookup_insert_ne in Hr' by done. eauto.
Qed.

Lemma live_ok_inst n c L k r :
  tinv c L -> insts_ok n c -> tc_instruments c !! k = Some r -> L k = live (ir_book r) ->
  live_ok (L k).
Proof.
  intros T I Hk HL id x Hx. split; [by eapply (mp_id _ _ _ _ (ti_maps _ _ T)) |].
  split; [| by apply (ti_orders _ _ T) in Hx as (_ & _ & ?)].
  rewrite HL in Hx. destruct (I _ _ Hk) as [_ _ _ _ _ _ [_ P] _]. by apply (P _ _ Hx).
Qed.

(** Fills only shrink or remove orders. *)
Lemma apply_fill_shrinks m f id y :
  apply_fill m f !! id = Some y ->
  exists y0, m !! id = Some y0 /\ no_side y = no_side y0 /\ no_price y = no_price y0
    /\ no_priority y = no_priority y0 /\ no_account y = no_account y0
    /\ no_client_order_id y = no_client_order_id y0.
Proof.
  unfold apply_fill. destruct (m !! fill_maker_order_id f) as [x |] eqn:E; [| by eauto 10].
  case_match.
  - intros [_ Hy]%lookup_delete_Some. eauto 10.
  - rewrite lookup_insert. case_decide; [| by eauto 10]. intros [= <-]. subst. eauto 10.
Qed.

Lemma apply_fills_shrinks fs m id y :
  apply_fills m fs !! id = Some y ->
  exists y0, m !! id = Some y0 /\ no_side y = no_side y0 /\ no_price y = no_price y0
    /\ no_priority y = no_priority y0 /\ no_account y = no_account y0
    /\ no_client_order_id y = no_client_order_id y0.
Proof.
  revert m. induction fs as [| f fs IH]; intros m; simpl; [by eauto 10 |].
  intros (y1 & H1 & E1 & E2 & E3 & E4 & E5)%IH.
  apply apply_fill_shrinks in H1 as (y0 & H0 & F1 & F2 & F3 & F4 & F5).
  exists y0. split_and!; congruence.
Qed.

Lemma uncrossed_fills m fs : uncrossed_live m -> uncrossed_live (apply_fills m fs).
Proof.
  intros H i j x y Hx Hy Sx Sy.
  apply apply_fills_shrinks in Hx as (x0 & Hx0 & E1 & E2 & _).
  apply apply_fills_shrinks in Hy as (y0 & Hy0 & F1 & F2 & _).
  rewrite E2, F2. eapply H; [done | done | congruence | congruence].
Qed.

Lemma tinv_ext c L L' : (forall k, L k = L' k) -> tinv c L -> tinv c L'.
Proof.
  intros E []. constructor; try done.
  - by eapply maps_inv_ext.
  - by eapply pos_inv_ext.
  - intros k id x. rewrite <- E. eauto.
Qed.

(** * Executing an aggressing order *)

(** The orders a fill list consumes are distinct live orders. *)
Lemma makers_le b b' side limit quantity ms :
  match_result b side limit quantity b' ms -> (length ms <= size (live b))%nat.
Proof.
  intros M.
  assert (Hm : forall x t, (x, t) ∈ ms -> live b !! no_order_id x = Some x).
  { intros x t Hx. by apply (mr_makers _ _ _ _ _ _ M) in Hx as [? _]. }
  pose proof (ahead_NoDup side _ _ Hm (mr_order _ _ _ _ _ _ M)) as Hnd.
  rewrite <- (length_map (fun mt => no_order_id mt.1) ms).
  rewrite <- (size_list_to_set (C := gset Z)) by done. rewrite <- size_dom. apply subseteq_size.
  intros id. rewrite elem_of_list_to_set, elem_of_dom.
  intros ([x t] & <- & Hin)%list_elem_of_In%in_map_iff. apply list_elem_of_In in Hin. eauto.
Qed.

Lemma live_le aidx lo co L k :
  maps_inv aidx lo co L -> (size (L k) <= size lo)%nat.
Proof.
  intros M. rewrite <- !size_dom. apply subseteq_size. intros id.
  rewrite !elem_of_dom. intros [x Hx]. destruct (mp_account _ _ _ _ M _ _ _ Hx) as [a Ha].
  exists (mkLiveOrder a k). apply (mp_live _ _ _ _ M). eauto.
Qed.

Lemma fills_of_zero side limit m ms :
  fills_valid side limit m (fills_of ms) -> filled_quantity (fills_of ms) = 0 -> ms = [].
Proof.
  destruct ms as [| [x t] ms]; [done |]. simpl. intros [(y & u & _ & Hy & _ & _ & Ht) Hv] H0.
  assert (t = u) as -> by (by injection Hy).
  pose proof (filled_quantity_nonneg _ _ _ _ Hv). lia.
Qed.

(** The state an execution leaves. *)
Record executed (n : Z) (c c' : TradingCore S) (k a_t : nat) (side : Side.t)
    (limit quantity h price : Z) (fs : list Fill) : Prop := {
  ex_tinv : tinv c' (lv c');
  ex_insts : insts_ok n c';
  ex_static : same_static c c';
  ex_order_id : tc_next_order_id c' = tc_next_order_id c;
  ex_priority : tc_next_priority c' = tc_next_priority c;
  ex_output : tc_output_seq c' = tc_output_seq c + 3 * Z.of_nat (length fs);
  ex_trade : tc_next_trade_id c' = tc_next_trade_id c + Z.of_nat (length fs);
  ex_trades : trades (tc_metrics c') = trades (tc_metrics c) + Z.of_nat (length fs);
  ex_potential : tc_next_trade_id c' + Z.of_nat (size (tc_live_orders c'))
                 <= tc_next_trade_id c + Z.of_nat (size (tc_live_orders c)) + 1;
  ex_reposed : reposed (tc_accounts c) (tc_accounts c');
  ex_room : exists pt, pos_at (tc_accounts c') a_t k = Some pt
              /\ room pt side (h - filled_quantity fs) price;
  ex_filled : 0 <= filled_quantity fs <= quantity;
  ex_live k' : lv c' k' = lset (lv c) k (apply_fills (lv c k) fs) k';
  ex_instruments : is_Some (tc_instruments c' !! k);
  ex_exhausted : filled_quantity fs = quantity \/
    forall id y, lv c' k !! id = Some y -> no_side y = Side.opposite side ->
      ~ eligible (Side.opposite side) limit (no_price y)
}.

Lemma executed_intro n c c1 c' k a_t r side limit quantity h price b' ms fs :
  calm c -> tinv c (lv c) -> insts_ok n c -> tc_instruments c !! k = Some r ->
  match_result (ir_book r) (Side.opposite side) limit quantity b' ms -> fs = fills_of ms ->
  c1 = Core.set_fills (Core.set_instruments (Core.set_fills c [])
                         (<[k := ir_set_book r b']> (tc_instruments c))) fs ->
  settled c1 c' (lv c) k a_t side h price fs ->
  executed n c c' k a_t side limit quantity h price fs.
Proof.
  intros Hc T I Hk M Hfs Hc1 D. pose proof (lv_at c k r Hk) as HL.
  pose proof (partials_le_1 _ _ _ _ _ _ M) as Hpart. rewrite <- Hfs in Hpart.
  destruct (I _ _ Hk) as [_ _ _ _ _ _ Hwf Hun].
  destruct D as [(D1 & D2 & D3 & D4 & D5 & D6 & D7 & D8 & D9 & D10) Do Dt Dtr Dm Dr Dp Dmp Ds
                 Droom Dtot].
  rewrite Hc1 in *. simpl in *.
  assert (Hlv : forall k', lv c' k' = lset (lv c) k (apply_fills (lv c k) fs) k').
  { intros k'. rewrite (lv_put c c' k r b' k' Hk D2).
    rewrite (mr_live _ _ _ _ _ _ M), HL, <- Hfs. done. }
  constructor; try done; try lia.
  - apply (tinv_ext _ (lset (lv c) k (apply_fills (lv c k) fs))); [done |].
    constructor; try done.
    + rewrite D4. eapply reposed_index; [done | apply T].
    + rewrite D2, length_insert. eapply covers_reposed; [done | apply T].
    + rewrite D7, D8. intros k' id x. unfold lset. case_decide; [subst k' | apply T].
      intros (y & Hy & _ & -> & -> & _)%apply_fills_shrinks. by apply (ti_orders _ _ T) in Hy.
    + intros k'. rewrite Dtot. apply T.
  - eapply insts_put; [done | done | done | apply M |].
    rewrite (mr_live _ _ _ _ _ _ M). by apply uncrossed_fills.
  - constructor; try done. by eapply runtimes_put.
  - rewrite Hfs. apply M.
  - rewrite D2, list_lookup_insert_eq; [eauto | by eapply lookup_lt_Some].
  - rewrite Hlv, lset_eq, HL, Hfs, <- (mr_live _ _ _ _ _ _ M). apply M.
Qed.

Lemma execute_ok n c k a_t r request order_id side limit quantity out h price pt :
  calm c -> tinv c (lv c) -> insts_ok n c -> tc_instruments c !! k = Some r ->
  pos_at (tc_accounts c) a_t k = Some pt -> room pt side h price ->
  0 <= quantity <= h -> quantity <= u64_max ->
  exists c' evs fs,
    Engine.execute c k a_t request order_id side limit quantity out
    = Ret (c', out ++ evs, filled_quantity fs)
    /\ fill_outputs (tc_engine_seq c) (tc_output_seq c) (tc_next_trade_id c) order_id
         (req_account request) side fs evs
    /\ executed n c c' k a_t side limit quantity h price fs
    /\ exists b', match_order (ir_book r) side limit quantity [] = Ret (b', fs, filled_quantity fs).
Proof.
  intros Hcalm T I Hk Hpt Hroom Hq Hqu. pose proof Hcalm as [Cf Co Ct Ctr Cp].
  destruct (I _ _ Hk) as [_ _ _ _ _ _ Hwf Hun].
  destruct (match_order_ok (ir_book r) side limit quantity [] Hwf) as (b' & ms & Em & M); [mach |].
  set (fs := fills_of ms) in *. pose proof (lv_at c k r Hk) as HL.
  pose proof (partials_le_1 _ _ _ _ _ _ M) as Hpart. fold fs in Hpart.
  pose proof (mr_filled _ _ _ _ _ _ M) as Hfill. fold fs in Hfill.
  assert (Hlen : (length fs <= size (tc_live_orders c))%nat).
  { unfold fs, fills_of. rewrite length_map.
    pose proof (makers_le _ _ _ _ _ _ M). pose proof (live_le _ _ _ _ k (ti_maps _ _ T)) as Hle.
    rewrite HL in Hle. lia. }
  set (c1 := Core.set_fills (Core.set_instruments (Core.set_fills c [])
                               (<[k := ir_set_book r b']> (tc_instruments c))) fs).
  destruct (settle_fills_ok fs c1 (lv c) k a_t request order_id side quantity
              (ic_id (ir_config r)) limit 0 out h price pt)
    as (c' & evs & Es & Hev & D); simpl; unfold bound in *; try done; try lia.
  { apply T. } { apply T. } { apply T. } { eapply ti_has; [apply T | by eexists]. }
  { by eapply live_ok_inst. }
  { rewrite HL. apply (mr_valid _ _ _ _ _ _ M). }
  exists c', evs, fs. split_and!; [| done | | by eauto].
  - unfold Engine.execute. rewrite (book_ok (Core.set_fills c []) k r Hk). cbn [rbind].
    change (tc_fills (Core.set_fills c [])) with (@nil Fill). rewrite Em. cbn [rbind app].
    rewrite (put_book_ok (Core.set_fills c []) k r b' Hk). cbn [rbind]. fold fs.
    change (Core.set_fills _ fs) with c1.
    unfold QuantityLots.is_zero. destruct (Z.eqb_spec (filled_quantity fs) 0) as [E0 | _].
    + assert (fs = []) as Hnil.
      { unfold fs. by rewrite (fills_of_zero _ _ _ _ (mr_valid _ _ _ _ _ _ M) E0). }
      rewrite Hnil in Es at 1. injection Es as E1 E2. by rewrite <- E1, <- E2.
    + assert (Core.instrument c1 k = Ret (ir_set_book r b')) as ->.
      { unfold Core.instrument, index. simpl.
        by rewrite list_lookup_insert_eq by (by eapply lookup_lt_Some). }
      cbn [rbind ir_config ir_set_book]. change (tc_fills c1) with fs.
      change QuantityLots.ZERO with 0. by rewrite Es.
  - by eapply executed_intro.
Qed.

End CoreInv.
