(* ===== verification/CoreRest.v ===== *)
(** Resting an order, cancelling one and reducing one in place: the book, the
    reservations and the order maps move together. *)

From S2P Require Import Prelude Enums Ids Events BTree Slab Book BookData BookInv BookSpec Matching.
From S2P Require Import MatchSpec MatchProps BookTheorems Market MarketInv Account AccountProps.
From S2P Require Import Config CoreState Risk Core CoreAcct CoreExec CoreInv.

Section Rest.
Context {S : Type} `{SL : Slab OrderNode S} `{!SlabLaws SL}.
Implicit Types (c : TradingCore S) (L : live_fn) (r : InstrumentRuntime S) (b : OrderBook S).

(** * The books' operations on well-formed books *)

Lemma wf_insert b x :
  book_wf b -> order_wf x -> 0 < order_rem x -> live b !! no_order_id x = None ->
  (forall id y, live b !! id = Some y -> no_priority y < no_priority x) ->
  exists b' res, Book.insert b x = Ret (b', res) /\ book_wf b'
    /\ match res with
       | Ok _ => live b' = <[no_order_id x := x]> (live b)
       | Err _ => b' = b
       end.
Proof.
  intros [[A R] P] Hwf Hpos Hn Hp.
  destruct (decide (insert_ok b x)) as [Hok | Hno].
  - destruct (insert_repr b A x R Hwf Hn) as (b' & E & R' & L' & _); [| done |].
    { intros y Hy. eapply repr_elem in Hy as (_ & _ & Hy); [| done]. eauto. }
    exists b', (Ok tt). split_and!; try done. split; [by eexists |].
    rewrite L'. by apply map_Forall_insert_2.
  - exists b, (Err capacity_exhausted). split; [by apply insert_reject |].
    split; [split; eauto | done].
Qed.

Lemma wf_remove b id x :
  (exists A, repr b A) -> map_Forall (fun i y => i = id \/ 0 < order_rem y) (live b) ->
  live b !! id = Some x ->
  exists o b', Book.remove b id = Ret (b', Some o) /\ node_data o = x /\ book_wf b'
    /\ live b' = delete id (live b).
Proof.
  intros [A R] P Hx. pose proof (repr_live_id b A _ _ R Hx) as <-.
  destruct (remove_repr b A x R Hx) as (o & b' & l1 & l2 & E & Ho & _ & R' & L' & _).
  exists o, b'. split_and!; try done. split; [by eexists |].
  rewrite L'. intros i y [Hi Hy]%lookup_delete_Some. by destruct (P _ _ Hy).
Qed.

Lemma wf_remaining b o :
  book_wf b -> live b !! node_order_id o = Some (node_data o) ->
  remaining o = Ret (order_rem (node_data o)).
Proof.
  intros [[A R] _] Hl. apply remaining_ok. by eapply (repr_wf b A).
Qed.

Lemma wf_get b id :
  book_wf b ->
  exists found, Book.get b id = Ret found
    /\ match found with
       | Some o => live b !! id = Some (node_data o)
       | None => live b !! id = None
       end.
Proof.
  intros [[A (q & B & H)] _]. unfold Book.get.
  destruct (order_index b !! id) as [s |] eqn:E.
  - apply (di_index _ _ _ _ (bi_data _ _ B)) in E as Hx. destruct Hx as (x & Hx & Hid).
    apply data_lookup in Hx as Hx'. destruct Hx' as (o & Ho & ->).
    rewrite (node_ok _ _ _ Ho). simpl. exists (Some o). split; [done |].
    eapply live_lookup; [done |]. eauto.
  - exists None. split; [done |]. by eapply (repr_index_None b A); [exists q |].
Qed.

(** * Framing *)

(** The counters the book operations leave alone. *)
Definition same_counts (c c' : TradingCore S) : Prop :=
  tc_output_seq c' = tc_output_seq c /\ tc_next_order_id c' = tc_next_order_id c
  /\ tc_next_trade_id c' = tc_next_trade_id c /\ tc_metrics c' = tc_metrics c.

(** An account's position in a listed instrument. *)
Lemma position_ok c L k r id a :
  tinv c L -> tc_instruments c !! k = Some r -> tc_account_index c !! id = Some a ->
  exists ac p, tc_accounts c !! a = Some ac /\ ac_id ac = id
    /\ pos_at (tc_accounts c) a k = Some p /\ pos_ok id (L k) p.
Proof.
  intros T Hk Ha. apply (ti_index _ _ T) in Ha as Hac. destruct Hac as (ac & Hac & <-).
  destruct (ti_has _ _ k T (mk_is_Some _ _ Hk) _ _ Hac) as [p Hp].
  exists ac, p. assert (pos_at (tc_accounts c) a k = Some p).
  { unfold pos_at. by rewrite Hac. }
  split_and!; try done. by eapply (ti_pos _ _ T).
Qed.

(** The invariant from its parts, when one book, the accounts and the order
    maps have moved together. *)
Lemma tinv_moved c c' L k r b m :
  tinv c L -> tc_instruments c !! k = Some r ->
  tc_instruments c' = <[k := ir_set_book r b]> (tc_instruments c) ->
  tc_account_index c' = tc_account_index c ->
  reposed (tc_accounts c) (tc_accounts c') ->
  pos_inv (tc_accounts c') (lset L k m) ->
  maps_inv (tc_account_index c) (tc_live_orders c') (tc_client_orders c') (lset L k m) ->
  (forall k', total_position (tc_accounts c') k' = total_position (tc_accounts c) k') ->
  tc_next_order_id c <= tc_next_order_id c' -> tc_next_priority c <= tc_next_priority c' ->
  (forall id x, m !! id = Some x ->
     (exists y, L k !! id = Some y /\ no_priority x = no_priority y /\ no_price x = no_price y)
     \/ 0 < id <= tc_next_order_id c' /\ no_priority x <= tc_next_priority c'
        /\ in_i64 (no_price x)) ->
  tinv c' (lset L k m).
Proof.
  intros T Hk E2 E3 R P M Tot Ho Hp Hm. constructor; try done.
  - rewrite E3. eapply reposed_index; [done | apply T].
  - by rewrite E3.
  - rewrite E2, length_insert. eapply covers_reposed; [done | apply T].
  - intros k' id x. unfold lset. case_decide; [subst k' |].
    + intros [(y & Hy & -> & ->) | ?]%Hm; [| done].
      apply (ti_orders _ _ T) in Hy as (? & ? & ?). split_and!; done || lia.
    + intros (? & ? & ?)%(ti_orders _ _ T). split_and!; done || lia.
  - intros k'. rewrite Tot. apply T.
Qed.

(** * Resting an order *)

Definition no_cross (c : TradingCore S) (k : nat) (side : Side.t) (price : Z) : Prop :=
  forall id y, lv c k !! id = Some y -> no_side y = Side.opposite side ->
    ~ eligible (Side.opposite side) price (no_price y).

Lemma uncrossed_insert c k x :
  uncrossed_live (lv c k) -> no_cross c k (no_side x) (no_price x) ->
  uncrossed_live (<[no_order_id x := x]> (lv c k)).
Proof.
  intros U N i j y z. rewrite !lookup_insert.
  case_decide as Ei; case_decide as Ej; intros Hy Hz Sy Sz; simplify_eq.
  - congruence.
  - specialize (N j z Hz). rewrite Sy in N. specialize (N Sz). unfold eligible, better in N.
    simpl in N. lia.
  - specialize (N i y Hy). rewrite Sz in N. specialize (N Sy). unfold eligible, better in N.
    simpl in N. lia.
  - by eapply (U i j).
Qed.

Record rested (n : Z) (c c' : TradingCore S) (k : nat) (x : NewOrder) : Prop := {
  rs_tinv : tinv c' (lv c');
  rs_insts : insts_ok n c';
  rs_static : same_static c c';
  rs_counts : same_counts c c';
  rs_priority : tc_next_priority c' = tc_next_priority c + 1;
  rs_size : (size (tc_live_orders c') <= size (tc_live_orders c) + 1)%nat;
  rs_reposed : reposed (tc_accounts c) (tc_accounts c');
  rs_live : (forall k', lv c' k' = lset (lv c) k (<[no_order_id x := x]> (lv c k)) k')
            \/ (forall k', lv c' k' = lv c k')
}.

Lemma rest_order_with_ok n c k a r ac p client_order_id side price total filled order_id :
  let x := mkNewOrder order_id (ac_id ac) client_order_id side price total filled
             (tc_next_priority c + 1) in
  tinv c (lv c) -> insts_ok n c -> 0 <= tc_next_priority c < 2 ^ 62 ->
  tc_instruments c !! k = Some r -> tc_accounts c !! a = Some ac ->
  0 <= filled < total -> total <= u64_max -> 0 < order_id <= tc_next_order_id c ->
  in_i64 price -> (forall k', lv c k' !! order_id = None) ->
  tc_client_orders c !! (ac_id ac, client_order_id) = None ->
  pos_at (tc_accounts c) a k = Some p -> room p side (total - filled) price ->
  no_cross c k side price ->
  exists c', Engine.rest_order_with c k a client_order_id side price total filled order_id = Ret c'
    /\ rested n c c' k x.
Proof.
  intros x T I Hpr Hk Hac Hf Ht Hid Hprice Hfresh Hco Hp Hroom Hnc.
  pose proof (lv_at c k r Hk) as HL. destruct (I _ _ Hk) as [_ _ _ _ _ _ Hwf Hun].
  assert (Ha : tc_account_index c !! ac_id ac = Some a) by (apply (ti_index _ _ T); eauto).
  destruct (wf_insert (ir_book r) x Hwf) as (b' & res & E & Hwf' & Hres).
  { unfold order_wf, x. simpl. lia. } { unfold order_rem, x. simpl. lia. }
  { rewrite <- HL. apply Hfresh. }
  { intros id y. rewrite <- HL. intros (_ & ? & _)%(ti_orders _ _ T). simpl. lia. }
  unfold Engine.rest_order_with. rewrite next_small by lia.
  set (c1 := Core.set_next_priority c _).
  assert (Core.account c1 a = Ret ac) as -> by (unfold Core.account, index; simpl; by rewrite Hac).
  rewrite (book_ok c1 k r Hk). cbn [rbind]. fold x. rewrite E. cbn [rbind].
  rewrite (put_book_ok c1 k r b' Hk). cbn [rbind].
  set (c2 := Core.set_instruments c1 _).
  destruct res as [[] | e].
  - rewrite u64_checked_in by mach.
    destruct (reserve_order_ok c2 (lv c) k x a p) as (accts & Er & R & P & Tot); try done.
    { apply T. } { apply T. }
    change (Engine.reserve c2 a k side (total - filled) price)
      with (Engine.reserve c2 a k (no_side x) (order_rem x) (no_price x)).
    rewrite Er. cbn [rbind]. eexists. split; [done |].
    set (c3 := Core.set_client_orders _ _).
    assert (Hlv : forall k', lv c3 k' = lset (lv c) k (<[no_order_id x := x]> (lv c k)) k').
    { intros k'. rewrite (lv_put c c3 k r b' k' Hk eq_refl), Hres, HL. done. }
    constructor; try done; [| | by constructor; try done; eapply runtimes_put | | by left].
    + apply (tinv_ext _ (lset (lv c) k (<[no_order_id x := x]> (lv c k)))); [done |].
      eapply tinv_moved; try done; simpl; try lia.
      * by apply (maps_insert (ti_maps _ _ T) k x a).
      * intros id y. rewrite lookup_insert. case_decide; [| by eauto].
        intros [= <-]. right. subst id. simpl. split_and!; done || lia.
    + eapply insts_put; try done. rewrite Hres, <- HL.
      apply uncrossed_insert; [by rewrite HL | done].
    + simpl. rewrite map_size_insert_None; [lia |].
      destruct (tc_live_orders c !! order_id) as [l |] eqn:El; [| done].
      apply (mp_live _ _ _ _ (ti_maps _ _ T)) in El as (y & Hy & _). by rewrite Hfresh in Hy.
  - subst b'. eexists. split; [done |].
    assert (Hlv : forall k', lv c2 k' = lv c k').
    { intros k'. rewrite (lv_put c c2 k r (ir_book r) k' Hk eq_refl). unfold lset.
      case_decide; [by subst | done]. }
    constructor; try done; simpl; try lia;
      [| by eapply insts_put | by constructor; try done; eapply runtimes_put
       | apply reposed_refl | by right].
    apply (tinv_ext _ (lv c)); [done |]. destruct T as [T1 T2 T3 T4 T5 T6].
    constructor; try done; simpl.
    + by rewrite length_insert.
    + intros k' id y (? & ? & ?)%T5. split_and!; done || lia.
Qed.

(** * Taking an order out *)

Lemma uncrossed_delete m id : uncrossed_live m -> uncrossed_live (delete id m).
Proof. intros H i j x y [_ Hx]%lookup_delete_Some [_ Hy]%lookup_delete_Some. by eapply H. Qed.

(** The state after an order of book [k] has left the book, the reservations
    and the order maps. *)
Record dropped (n : Z) (c c' : TradingCore S) (k : nat) (x : NewOrder) : Prop := {
  dp_tinv : tinv c' (lv c');
  dp_insts : insts_ok n c';
  dp_static : same_static c c';
  dp_counts : same_counts c c';
  dp_priority : tc_next_priority c' = tc_next_priority c;
  dp_size : (size (tc_live_orders c') + 1 = size (tc_live_orders c))%nat;
  dp_reposed : reposed (tc_accounts c) (tc_accounts c');
  dp_instruments : is_Some (tc_instruments c' !! k);
  dp_live k' : lv c' k' = lset (lv c) k (delete (no_order_id x) (lv c k)) k';
  dp_fresh k' : lv c' k' !! no_order_id x = None;
  dp_client : tc_client_orders c' !! (no_account x, no_client_order_id x) = None
}.

Lemma dropped_intro n c c' k r b x a accts :
  tinv c (lv c) -> insts_ok n c -> tc_instruments c !! k = Some r ->
  lv c k !! no_order_id x = Some x -> tc_account_index c !! no_account x = Some a ->
  book_wf b -> live b = delete (no_order_id x) (live (ir_book r)) ->
  reposed (tc_accounts c) accts ->
  pos_inv accts (lset (lv c) k (delete (no_order_id x) (lv c k))) ->
  (forall k', total_position accts k' = total_position (tc_accounts c) k') ->
  c' = Core.set_client_orders
         (Core.set_live_orders
            (Core.set_accounts
               (Core.set_instruments c (<[k := ir_set_book r b]> (tc_instruments c))) accts)
            (delete (no_order_id x) (tc_live_orders c)))
         (delete (no_account x, no_client_order_id x) (tc_client_orders c)) ->
  dropped n c c' k x.
Proof.
  intros T I Hk Hx Ha Hwf Hb R P Tot ->. pose proof (lv_at c k r Hk) as HL.
  set (c' := Core.set_client_orders _ _).
  assert (Hlv : forall k', lv c' k' = lset (lv c) k (delete (no_order_id x) (lv c k)) k').
  { intros k'. rewrite (lv_put c c' k r b k' Hk eq_refl), Hb, HL. done. }
  destruct (I _ _ Hk) as [_ _ _ _ _ _ _ Hun].
  constructor; try done.
  - apply (tinv_ext _ (lset (lv c) k (delete (no_order_id x) (lv c k)))); [done |].
    eapply tinv_moved; try done.
    + by apply (maps_delete (ti_maps _ _ T)).
    + intros id y [_ Hy]%lookup_delete_Some. left. eauto.
  - eapply insts_put; try done. rewrite Hb. by apply uncrossed_delete.
  - constructor; try done. by eapply runtimes_put.
  - simpl. assert (Hl : tc_live_orders c !! no_order_id x = Some (mkLiveOrder a k)).
    { apply (mp_live _ _ _ _ (ti_maps _ _ T)). eauto. }
    rewrite map_size_delete_Some by eauto.
    assert (size (tc_live_orders c) <> 0)%nat; [| lia].
    intros E. apply map_size_empty_inv in E. by rewrite E in Hl.
  - simpl. rewrite list_lookup_insert_eq; [eauto | by eapply lookup_lt_Some].
  - intros k'. rewrite Hlv. unfold lset. case_decide; [apply lookup_delete_eq |].
    destruct (lv c k' !! no_order_id x) as [y |] eqn:Ey; [| done].
    by destruct (maps_unique (ti_maps _ _ T) _ _ _ _ _ Hx Ey).
  - simpl. apply lookup_delete_eq.
Qed.

Lemma live_shares c k x id :
  lv c k !! no_order_id x = Some x ->
  shares_off id x (order_rem x) (lv c k) (delete (no_order_id x) (lv c k)).
Proof. intros Hx side. by apply rsv_delete. Qed.

(** [remove], [release_reservation] and the two map deletions, in the order the
    handlers run them. *)
Lemma drop_order_ok n c k r id x a p :
  tinv c (lv c) -> insts_ok n c -> tc_instruments c !! k = Some r -> lv c k !! id = Some x ->
  tc_account_index c !! no_account x = Some a -> pos_at (tc_accounts c) a k = Some p ->
  exists o b accts, let c1 := Core.set_instruments c (<[k := ir_set_book r b]> (tc_instruments c)) in
    Book.remove (ir_book r) id = Ret (b, Some o) /\ node_data o = x
    /\ remaining o = Ret (order_rem x)
    /\ Engine.release_reservation c1 a k (no_side x) (order_rem x) (no_price x)
       = Ret (Core.set_accounts c1 accts)
    /\ pos_at accts a k = Some (released_pos p (no_side x) (order_rem x) (no_price x))
    /\ dropped n c
         (Core.set_client_orders
            (Core.set_live_orders (Core.set_accounts c1 accts)
               (delete id (tc_live_orders c)))
            (delete (no_account x, no_client_order_id x) (tc_client_orders c))) k x.
Proof.
  intros T I Hk Hx Ha Hp. pose proof (lv_at c k r Hk) as HL.
  destruct (I _ _ Hk) as [_ _ _ _ _ _ Hwf _].
  pose proof (mp_id _ _ _ _ (ti_maps _ _ T) _ _ _ Hx) as Hid. rewrite <- Hid in Hx |- *.
  pose proof (live_ok_inst n c (lv c) k r T I Hk HL) as Hlo.
  destruct (Hlo _ _ Hx) as (_ & Hpos & Hi64).
  destruct (wf_remove (ir_book r) (no_order_id x) x) as (o & b & Er & Ho & Hwf' & Hlive).
  { apply Hwf. } { intros i y Hy. right. by apply Hwf in Hy. } { by rewrite <- HL. }
  set (c1 := Core.set_instruments c (<[k := ir_set_book r b]> (tc_instruments c))).
  destruct (release_order_ok c1 (lv c) k x (order_rem x) a p (delete (no_order_id x) (lv c k)))
    as (accts & El & R & P & Hp' & Tot); try done; try lia.
  { apply T. } { apply T. } { by apply live_ok_nonneg. } { intros. by apply live_shares. }
  exists o, b, accts. cbn zeta. split_and!; try done.
  - rewrite <- Ho. apply (wf_remaining (ir_book r)); [done |].
    assert (no_order_id x = node_order_id o) as <- by (by rewrite <- Ho).
    by rewrite <- HL, Ho.
  - by eapply dropped_intro.
Qed.

End Rest.
