(* ===== verification/RiskProps.v ===== *)
(** Pre-trade risk: the checks never panic on a consistent state, and what an
    admitted request satisfies. *)

From S2P Require Import Prelude Enums Ids Events BTree Slab Book BookData BookInv BookSpec Matching.
From S2P Require Import MatchSpec MatchProps BookTheorems Market MarketInv Account AccountProps.
From S2P Require Import Config CoreState Risk Core CoreAcct CoreExec CoreInv CoreRest.

(** * A logic for the checks: no panic, and [Q] when the check passes *)

Definition qwp {A E} (m : res (Result A E)) (Q : A -> Prop) : Prop :=
  wp m (fun r => match r with Ok a => Q a | Err _ => True end).

Lemma qwp_bind {A B E} (m : res (Result A E)) (k : A -> res (Result B E)) Q :
  qwp m (fun a => qwp (k a) Q) -> qwp (qbind m k) Q.
Proof. unfold qwp. destruct m as [[a | e] |]; simpl; done. Qed.

Lemma qwp_step {A B E} (m : res (Result A E)) (k : A -> res (Result B E)) P Q :
  qwp m P -> (forall a, P a -> qwp (k a) Q) -> qwp (qbind m k) Q.
Proof. unfold qwp. destruct m as [[a | e] |]; simpl; eauto. Qed.

Lemma qwp_rbind {A B E} (m : res A) a (k : A -> res (Result B E)) Q :
  m = Ret a -> qwp (k a) Q -> qwp (rbind m k) Q.
Proof. by intros ->. Qed.

Lemma qwp_ok_or {A E} (o : option A) (e : E) (Q : A -> Prop) :
  (forall a, o = Some a -> Q a) -> qwp (ok_or o e) Q.
Proof. unfold qwp. destruct o; simpl; auto. Qed.

Lemma qwp_ret {A} (a : A) (Q : A -> Prop) : Q a -> qwp (E := RejectReason.t) (Ret (Ok a)) Q.
Proof. done. Qed.

Lemma qwp_reject_if cond reason (Q : unit -> Prop) :
  (cond = false -> Q tt) -> qwp (Risk.reject_if cond reason) Q.
Proof. unfold qwp, Risk.reject_if. destruct cond; simpl; auto. Qed.

Lemma qwp_inv {A E} (m : res (Result A E)) Q :
  qwp m Q -> exists r, m = Ret r /\ match r with Ok a => Q a | Err _ => True end.
Proof. intros (r & ? & ?)%wp_inv. eauto. Qed.

#[export] Hint Resolve qwp_ret : rust.

(** The value of a position at the market's reference price, with its working
    orders at their own prices. *)
Definition exposure_of (v : MarketView) (p : InstrumentPosition) : Z :=
  Z.abs (position_lots p) * Z.abs (default 0 (Market.reference_price v))
  + open_buy_notional p + open_sell_notional p.

Section RiskProps.
Context {S : Type} `{SL : Slab OrderNode S} `{!SlabLaws SL}.
Implicit Types (c : TradingCore S) (p : InstrumentPosition).

(** Gross exposure of an account that holds [ps]. *)
Fixpoint gross_of (rs : list (InstrumentRuntime S)) (ps : list InstrumentPosition) : Z :=
  match rs, ps with
  | r :: rs, p :: ps => exposure_of (ir_market r) p + gross_of rs ps
  | _, _ => 0
  end.

Lemma instrument_exposure_Some p mark e :
  instrument_exposure p mark = Some e ->
  e = Z.abs (position_lots p) * Z.abs mark + open_buy_notional p + open_sell_notional p.
Proof.
  unfold instrument_exposure. intros H.
  destruct (u128_checked _) as [v |] eqn:E1; [| done]. apply u128_checked_Some in E1 as [-> _].
  destruct (u128_checked (_ + open_buy_notional p)) as [w |] eqn:E2; [| done].
  apply u128_checked_Some in E2 as [-> _]. by apply u128_checked_Some in H as [-> _].
Qed.

Lemma gross_exposure_ok c a k ac proj rs i g :
  tc_accounts c !! a = Some ac ->
  (i + length rs <= length (ac_positions ac))%nat ->
  qwp (Risk.gross_exposure c a k proj rs i g)
    (fun g' => g' = g + gross_of rs (drop i (<[k := proj]> (ac_positions ac)))).
Proof.
  intros Ha. revert i g. induction rs as [| r rs IH]; intros i g Hlen; simpl.
  { apply qwp_ret. lia. }
  set (ps := <[k := proj]> (ac_positions ac)) in *.
  assert (Hps : length ps = length (ac_positions ac)) by apply length_insert.
  destruct (lookup_lt_is_Some_2 ps i) as [p Hp]; [simpl in Hlen; lia |].
  rewrite (drop_S _ _ _ Hp). apply (qwp_rbind _ p).
  { unfold ps in Hp. rewrite list_lookup_insert in Hp.
    destruct (Nat.eqb_spec i k) as [-> | Hne].
    - rewrite decide_True in Hp by (simpl in Hlen; lia). by injection Hp as ->.
    - rewrite decide_False in Hp by lia.
      unfold Core.position, Core.account, index. by rewrite Ha; simpl; rewrite Hp. }
  simpl in Hlen. destruct (_ && _ && _) eqn:Hz.
  - apply andb_true_iff in Hz as [[? ?]%andb_true_iff ?].
    eapply wp_mono; [apply (IH (Datatypes.S i) g); lia |]. intros [g' | e]; [| done]. intros ->.
    unfold exposure_of. replace (position_lots p) with 0 by lia. simpl. lia.
  - eapply (qwp_step _ _ (fun mark => position_lots p = 0 \/
                            mark = default 0 (Market.reference_price (ir_market r)))).
    { destruct (Market.reference_price (ir_market r)); [by apply qwp_ret; right |].
      destruct (Z.eqb_spec (position_lots p) 0); [apply qwp_ret; by left | done]. }
    intros mark Hmark. apply qwp_bind, qwp_ok_or. intros e He%instrument_exposure_Some.
    apply qwp_bind, qwp_ok_or. intros g1 Hg1. apply u128_checked_Some in Hg1 as [-> _].
    eapply wp_mono; [apply (IH (Datatypes.S i)); lia |]. intros [g' | e']; [| done]. intros ->.
    unfold exposure_of. destruct Hmark as [H0 | <-]; [rewrite H0 in * |]; lia.
Qed.

(** The positions cover the instruments. *)
Lemma positions_cover c L a ac :
  tinv c L -> tc_accounts c !! a = Some ac ->
  (length (tc_instruments c) <= length (ac_positions ac))%nat.
Proof.
  intros T Ha. destruct (length (tc_instruments c)) as [| m] eqn:E; [lia |].
  assert (Hm : is_Some (tc_instruments c !! m)) by (apply lookup_lt_is_Some; lia).
  destruct (ti_has _ _ m T Hm _ _ Ha) as [p Hp%lookup_lt_Some]. lia.
Qed.

(** The account after [added] lots at [price] have replaced [replaced] lots at
    [rprice]. *)
Definition projected (p : InstrumentPosition) (side : Side.t) (replaced rprice added price : Z)
  : InstrumentPosition :=
  reserved_pos (released_pos p side replaced rprice) side added price.

(** The exposure limits hold after the order. *)
Record fits (c : TradingCore S) (ac : AccountState) (k : nat) (p : InstrumentPosition)
    (side : Side.t) (added price replaced rprice : Z) : Prop := {
  ft_lots : in_u64 (Position.open_lots p side - replaced);
  ft_notional : in_u128 (Position.open_notional p side - replaced * Z.abs rprice);
  ft_room : room (released_pos p side replaced rprice) side added price;
  ft_position : Z.abs (position_lots p
                       + signed_fill side (Position.open_lots p side - replaced + added))
                <= max_position_lots (ac_limits ac);
  ft_gross : gross_of (tc_instruments c)
               (<[k := projected p side replaced rprice added price]> (ac_positions ac))
             <= max_gross_exposure (ac_limits ac)
}.

Lemma projected_position_Some p side replaced released added_lots added p' :
  projected_position p side replaced released added_lots added = Some p' ->
  in_u64 (Position.open_lots p side - replaced)
  /\ in_u64 (Position.open_lots p side - replaced + added_lots)
  /\ in_u128 (Position.open_notional p side - released)
  /\ in_u128 (Position.open_notional p side - released + added)
  /\ p' = Position.set_notional
            (Position.set_lots p side (Position.open_lots p side - replaced + added_lots)) side
            (Position.open_notional p side - released + added).
Proof.
  unfold projected_position. intros H.
  destruct (u64_checked _) as [v1 |] eqn:E1; [| done]. apply u64_checked_Some in E1 as [-> ?].
  destruct (u64_checked _) as [v2 |] eqn:E2; [| done]. apply u64_checked_Some in E2 as [-> ?].
  destruct (u128_checked _) as [v3 |] eqn:E3; [| done]. apply u128_checked_Some in E3 as [-> ?].
  destruct (u128_checked _) as [v4 |] eqn:E4; [| done]. apply u128_checked_Some in E4 as [-> ?].
  injection H as <-. destruct side; simpl in *; done.
Qed.

Lemma worst_case_position_Some p side w :
  worst_case_position p side = Some w ->
  in_i64 (Position.open_lots p side)
  /\ in_i64 (position_lots p + signed_fill side (Position.open_lots p side))
  /\ w = Z.abs (position_lots p + signed_fill side (Position.open_lots p side)).
Proof.
  unfold worst_case_position, i64_try_from. intros H. destruct side; simpl.
  - destruct (i64_checked (open_buy_lots p)) as [v1 |] eqn:E1; [| done].
    apply i64_checked_Some in E1 as [-> ?].
    destruct (i64_checked _) as [v2 |] eqn:E2; [| done]. apply i64_checked_Some in E2 as [-> ?].
    by injection H as <-.
  - destruct (i64_checked (open_sell_lots p)) as [v1 |] eqn:E1; [| done].
    apply i64_checked_Some in E1 as [-> ?].
    destruct (i64_checked _) as [v2 |] eqn:E2; [| done]. apply i64_checked_Some in E2 as [-> ?].
    by injection H as <-.
Qed.

Lemma check_exposure_ok c L a k ac p side added price replaced rprice :
  tinv c L -> tc_accounts c !! a = Some ac -> pos_at (tc_accounts c) a k = Some p -> 0 <= added ->
  qwp (Risk.check_exposure c a k side added price replaced rprice)
    (fun _ => fits c ac k p side added price replaced rprice).
Proof.
  intros T Ha Hp Hadd. unfold Risk.check_exposure.
  apply (qwp_rbind _ ac); [unfold Core.account, index; by rewrite Ha |].
  apply (qwp_rbind _ p); [by apply position_at |].
  apply qwp_bind, qwp_ok_or. intros released Hrel. apply u128_checked_Some in Hrel as [-> Hrel].
  apply qwp_bind, qwp_ok_or. intros added' Had. apply u128_checked_Some in Had as [-> Had].
  apply qwp_bind, qwp_ok_or. intros p' (H1 & H2 & H3 & H4 & Hp')%projected_position_Some.
  apply qwp_bind, qwp_ok_or. intros w (H5 & H6 & ->)%worst_case_position_Some.
  assert (Hproj : p' = projected p side replaced rprice added price).
  { rewrite Hp'. destruct p, side; done. }
  assert (Hlots : Position.open_lots p' side = Position.open_lots p side - replaced + added)
    by (rewrite Hp'; by destruct side).
  assert (Hpos : position_lots p' = position_lots p) by (rewrite Hp'; by destruct side).
  rewrite Hlots, Hpos in *. destruct (Z.ltb_spec (max_position_lots (ac_limits ac))
    (Z.abs (position_lots p + signed_fill side (Position.open_lots p side - replaced + added))));
    [done |].
  eapply qwp_step; [apply (gross_exposure_ok c a k ac); [done | by eapply positions_cover] |].
  intros g ->. apply qwp_reject_if. intros Hg. apply Z.ltb_ge in Hg. rewrite drop_0 in Hg.
  constructor; try done; [| by rewrite <- Hproj].
  constructor; unfold released_pos; destruct p, side; simpl in *; done || mach.
Qed.

(** The instrument index points at the instruments. *)
Definition instruments_inv (c : TradingCore S) : Prop :=
  forall id k, tc_instrument_index c !! id = Some k ->
    exists r, tc_instruments c !! k = Some r /\ ic_id (ir_config r) = id.

(** * The single checks *)

Lemma check_quantity_ok c k r q :
  tc_instruments c !! k = Some r -> 1 <= ic_lot_size (ir_config r) -> 0 <= q ->
  qwp (Risk.check_quantity c k q)
    (fun _ => 0 < q /\ q mod ic_lot_size (ir_config r) = 0).
Proof.
  intros Hk Hl Hq. unfold Risk.check_quantity, QuantityLots.is_zero.
  destruct (Z.eqb_spec q 0); [done |].
  apply (qwp_rbind _ r); [unfold Core.instrument, index; by rewrite Hk |].
  eapply qwp_rbind; [apply u64_rem_ok; lia |]. apply qwp_reject_if. intros Hm.
  apply negb_false_iff, Z.eqb_eq in Hm. lia.
Qed.

Definition price_ok (i : InstrumentConfig) (price : Z) : Prop :=
  ic_min_price_ticks i <= price <= ic_max_price_ticks i /\ Z.rem price (ic_tick_size i) = 0.

Lemma check_price_ok c k r price :
  tc_instruments c !! k = Some r -> 1 <= ic_tick_size (ir_config r) ->
  qwp (Risk.check_price c k price) (fun _ => price_ok (ir_config r) price).
Proof.
  intros Hk Ht. unfold Risk.check_price.
  apply (qwp_rbind _ r); [unfold Core.instrument, index; by rewrite Hk |].
  destruct (_ || _) eqn:Hp; [done |]. apply orb_false_iff in Hp as [? ?].
  eapply qwp_rbind; [apply i64_rem_ok; lia |]. apply qwp_reject_if. intros Hm.
  apply negb_false_iff, Z.eqb_eq in Hm. unfold price_ok. lia.
Qed.

Lemma check_trading_permitted_ok c a ac :
  tc_accounts c !! a = Some ac ->
  qwp (Risk.check_trading_permitted c a)
    (fun _ => tc_global_kill c = false /\ ac_enabled ac = true).
Proof.
  intros Ha. unfold Risk.check_trading_permitted. destruct (tc_global_kill c); [done |].
  apply (qwp_rbind _ ac); [unfold Core.account, index; by rewrite Ha |].
  apply qwp_reject_if. intros H. by apply negb_false_iff in H.
Qed.

Lemma check_client_sequence_ok c a ac seq :
  tc_accounts c !! a = Some ac ->
  qwp (Risk.check_client_sequence c a seq)
    (fun _ => seq <> 0 /\ ac_last_client_seq ac < seq).
Proof.
  intros Ha. unfold Risk.check_client_sequence. destruct (Z.eqb_spec seq 0); [done |].
  apply (qwp_rbind _ ac); [unfold Core.account, index; by rewrite Ha |].
  apply qwp_reject_if. intros H. lia.
Qed.

(** The feed is live and recent. *)
Record fresh_market (c : TradingCore S) (v : MarketView) (reference : Z) : Prop := {
  fm_live : mv_state v = FeedState.Live;
  fm_age : u64_saturating_sub (tc_engine_time_ns c) (mv_last_update_time_ns v)
           <= ec_max_market_age_ns (tc_config c);
  fm_reference : Market.reference_price v = Some reference
}.

Lemma reference_price_ok c k r :
  tc_instruments c !! k = Some r ->
  qwp (Risk.reference_price c k) (fresh_market c (ir_market r)).
Proof.
  intros Hk. unfold Risk.reference_price.
  apply (qwp_rbind _ r); [unfold Core.instrument, index; by rewrite Hk |].
  case_bool_decide as Hl; simpl; [| done].
  destruct (Z.ltb_spec (ec_max_market_age_ns (tc_config c))
    (u64_saturating_sub (tc_engine_time_ns c) (mv_last_update_time_ns (ir_market r)))); [done |].
  apply qwp_ok_or. intros p Hp. by constructor.
Qed.

(** * Admission of a new order *)

(** The price a new order executes up to. *)
Definition limit_of (c : TradingCore S) (request : OrderRequest) (reference limit : Z) : Prop :=
  match req_order_type request with
  | OrderType.Limit => limit = req_price request
  | OrderType.Market =>
      limit = reference + signed_fill (req_side request) (ec_market_protection_ticks (tc_config c))
  end.

(** What an admitted order satisfies: [ac], [r], [p] and [reference] are its
    account, instrument, position and reference price. *)
Record new_admitted (c : TradingCore S) (request : OrderRequest) (checked : CheckedNewOrder)
    (ac : AccountState) (r : InstrumentRuntime S) (p : InstrumentPosition) (reference : Z)
  : Prop := {
  na_kind : req_kind request = RequestKind.New;
  na_account : tc_account_index c !! req_account request = Some (cn_account_index checked);
  na_account_state : tc_accounts c !! cn_account_index checked = Some ac;
  na_account_id : ac_id ac = req_account request;
  na_instrument : tc_instruments c !! cn_instrument_index checked = Some r;
  na_instrument_id : ic_id (ir_config r) = req_instrument request;
  na_position : pos_at (tc_accounts c) (cn_account_index checked) (cn_instrument_index checked)
                = Some p;
  na_quantity : 0 < req_quantity request <= max_order_quantity (ac_limits ac)
                /\ req_quantity request mod ic_lot_size (ir_config r) = 0;
  na_price : req_order_type request = OrderType.Limit -> price_ok (ir_config r) (req_price request);
  na_client : tc_client_orders c !! (req_account request, req_client_order_id request) = None;
  na_permitted : tc_global_kill c = false /\ ac_enabled ac = true;
  na_sequence : ac_last_client_seq ac < req_client_seq request;
  na_market : fresh_market c (ir_market r) reference;
  na_limit : limit_of c request reference (cn_execution_limit checked);
  na_limit_i64 : in_i64 (cn_execution_limit checked);
  na_collar : Z.abs (cn_execution_limit checked - reference) <= collar_ticks (ac_limits ac);
  na_notional : req_quantity request * Z.abs (cn_execution_limit checked)
                <= max_order_notional (ac_limits ac);
  na_fits : fits c ac (cn_instrument_index checked) p (req_side request) (req_quantity request)
              (cn_execution_limit checked) 0 (cn_execution_limit checked);
  na_capacity : Book.is_full (ir_book r) = false
}.

Lemma check_new_order_ok n c L request :
  tinv c L -> insts_ok n c -> instruments_inv c -> in_u64 (req_quantity request) ->
  qwp (Risk.check_new_order c request)
    (fun checked => exists ac r p reference, new_admitted c request checked ac r p reference).
Proof.
  intros T I II Hq. unfold Risk.check_new_order.
  apply qwp_bind, qwp_reject_if. intros Hkind%negb_false_iff%bool_decide_eq_true.
  apply qwp_bind, qwp_ok_or. intros a Ha.
  apply qwp_bind, qwp_ok_or. intros k Hk.
  destruct (II _ _ Hk) as (r & Hr & Hrid).
  destruct (position_ok c L k r _ a T Hr Ha) as (ac & p & Hac & Hid & Hp & _).
  destruct (I _ _ Hr) as [Hlot Htick Hrange _ _ _ _ _].
  eapply qwp_step; [apply (check_quantity_ok c k r); try done; mach |]. intros _ [Hq0 Hqm].
  eapply (qwp_step _ _ (fun _ => req_order_type request = OrderType.Limit ->
                                 price_ok (ir_config r) (req_price request))).
  { case_bool_decide; [| by apply qwp_ret].
    eapply wp_mono; [by apply (check_price_ok c k r) |]. by intros [|]. }
  intros ? Hprice. apply qwp_bind, qwp_reject_if. intros Hco%bool_decide_eq_false.
  apply eq_None_not_Some in Hco.
  eapply qwp_step; [by apply (check_trading_permitted_ok c a ac) |]. intros _ [Hkill Hen].
  eapply qwp_step; [by apply (check_client_sequence_ok c a ac) |]. intros _ [_ Hseq].
  eapply qwp_step; [by apply (reference_price_ok c k r) |]. intros reference Href.
  apply (qwp_rbind _ ac); [unfold Core.account, index; by rewrite Hac |].
  apply qwp_bind, qwp_reject_if. intros Hmaxq%Z.ltb_ge.
  eapply (qwp_step _ _ (fun l => limit_of c request reference l /\ in_i64 l)).
  { unfold limit_of. destruct (req_order_type request).
    - apply qwp_ret. split; [done |]. destruct (Hprice eq_refl). mach.
    - unfold protection_price. apply qwp_ok_or. intros l Hl.
      destruct (req_side request); simpl; apply i64_checked_Some in Hl as [-> ?]; split; done || lia. }
  intros limit [Hlim Hl64]. apply qwp_bind, qwp_reject_if. intros Hcollar%Z.ltb_ge.
  apply qwp_bind, qwp_ok_or. intros notional Hn. apply u128_checked_Some in Hn as [-> _].
  apply qwp_bind, qwp_reject_if. intros Hnot%Z.ltb_ge.
  eapply qwp_step; [apply (check_exposure_ok c L a k ac p); try done; lia |]. intros ? Hfits.
  eapply qwp_rbind; [by apply book_ok |].
  apply qwp_bind, qwp_reject_if. intros Hfull.
  apply qwp_ret. exists ac, r, p, reference. by constructor.
Qed.

(** * Admission of a replacement *)

Record replace_admitted (c : TradingCore S) (request : OrderRequest) (checked : CheckedReplace)
    (ac : AccountState) (r : InstrumentRuntime S) (p : InstrumentPosition) (reference : Z)
  : Prop := {
  ra_account : tc_account_index c !! req_account request = Some (cr_account_index checked);
  ra_account_state : tc_accounts c !! cr_account_index checked = Some ac;
  ra_account_id : ac_id ac = req_account request;
  ra_instrument : tc_instruments c !! cr_instrument_index checked = Some r;
  ra_position : pos_at (tc_accounts c) (cr_account_index checked) (cr_instrument_index checked)
                = Some p;
  ra_order : lv c (cr_instrument_index checked) !! cr_order_id checked
             = Some (node_data (cr_existing checked));
  ra_owner : node_account (cr_existing checked) = req_account request
             /\ node_client_order_id (cr_existing checked) = req_target_client_order_id request;
  ra_side : req_side request = node_side (cr_existing checked)
            /\ req_order_type request = OrderType.Limit;
  ra_price : price_ok (ir_config r) (req_price request);
  ra_quantity : 0 < req_quantity request
                /\ req_quantity request mod ic_lot_size (ir_config r) = 0
                /\ node_cumulative_filled (cr_existing checked) <= req_quantity request
                /\ req_quantity request - node_cumulative_filled (cr_existing checked)
                   <= max_order_quantity (ac_limits ac);
  ra_permitted : tc_global_kill c = false /\ ac_enabled ac = true;
  ra_sequence : ac_last_client_seq ac < req_client_seq request;
  ra_market : fresh_market c (ir_market r) reference;
  ra_collar : Z.abs (req_price request - reference) <= collar_ticks (ac_limits ac);
  ra_notional : (req_quantity request - node_cumulative_filled (cr_existing checked))
                * Z.abs (req_price request) <= max_order_notional (ac_limits ac);
  ra_fits : fits c ac (cr_instrument_index checked) p (node_side (cr_existing checked))
              (req_quantity request - node_cumulative_filled (cr_existing checked))
              (req_price request) (order_rem (node_data (cr_existing checked)))
              (node_price (cr_existing checked))
}.

(** The client-order map names the owner of a live order. *)
Lemma client_owner c L key id k x :
  tinv c L -> tc_client_orders c !! key = Some id -> L k !! id = Some x ->
  key = (no_account x, no_client_order_id x).
Proof.
  intros T Hco Hx. apply (mp_client _ _ _ _ (ti_maps _ _ T)) in Hco as (k' & x' & Hx' & ->).
  by destruct (maps_unique (ti_maps _ _ T) _ _ _ _ _ Hx Hx') as [_ ->].
Qed.

Lemma check_replace_ok n c request :
  tinv c (lv c) -> insts_ok n c -> instruments_inv c -> in_u64 (req_quantity request) ->
  qwp (Risk.check_replace c request)
    (fun checked => exists ac r p reference, replace_admitted c request checked ac r p reference).
Proof.
  intros T I II Hq. unfold Risk.check_replace.
  apply qwp_bind, qwp_ok_or. intros a Ha. apply qwp_bind, qwp_ok_or. intros k Hk.
  destruct (II _ _ Hk) as (r & Hr & Hrid). pose proof (lv_at c k r Hr) as HL.
  destruct (position_ok c _ k r _ a T Hr Ha) as (ac & p & Hac & Hid & Hp & _).
  destruct (I _ _ Hr) as [Hlot Htick Hrange _ _ _ Hwf _].
  apply qwp_bind, qwp_ok_or. intros order_id Hco.
  eapply qwp_rbind; [by apply book_ok |].
  destruct (wf_get (ir_book r) order_id Hwf) as (found & Hget & Hfound).
  eapply qwp_rbind; [exact Hget |]. apply qwp_bind, qwp_ok_or. intros existing ->.
  pose proof Hwf as [[A R] _]. pose proof (repr_wf _ _ _ _ R Hfound) as [Hcum Htot].
  pose proof (repr_live_id _ _ _ _ R Hfound) as Hoid. rewrite <- HL in Hfound. simpl in *.
  pose proof (client_owner c _ _ _ _ _ T Hco Hfound) as [= Hacc Hcoid].
  apply qwp_bind, qwp_reject_if. intros [Hside Htype]%orb_false_iff.
  apply negb_false_iff, bool_decide_eq_true in Hside, Htype.
  eapply qwp_step; [by apply (check_price_ok c k r) |]. intros ? Hprice.
  apply qwp_bind, qwp_reject_if. unfold QuantityLots.is_zero. intros Hq0%Z.eqb_neq.
  apply (qwp_rbind _ r); [unfold Core.instrument, index; by rewrite Hr |].
  eapply qwp_rbind; [apply u64_rem_ok; lia |].
  apply qwp_bind, qwp_reject_if. intros Hqm%negb_false_iff%Z.eqb_eq.
  apply qwp_bind, qwp_reject_if. intros Hge%Z.ltb_ge.
  eapply qwp_step; [by apply (check_trading_permitted_ok c a ac) |]. intros _ [Hkill Hen].
  eapply qwp_step; [by apply (check_client_sequence_ok c a ac) |]. intros _ [_ Hseq].
  eapply qwp_step; [by apply (reference_price_ok c k r) |]. intros reference Href.
  apply (qwp_rbind _ ac); [unfold Core.account, index; by rewrite Hac |].
  eapply qwp_rbind; [apply u64_plain_in; mach |].
  apply qwp_bind, qwp_reject_if. intros Hmaxq%Z.ltb_ge.
  apply qwp_bind, qwp_reject_if. intros Hcollar%Z.ltb_ge.
  apply qwp_bind, qwp_ok_or. intros notional Hn. apply u128_checked_Some in Hn as [-> _].
  apply qwp_bind, qwp_reject_if. intros Hnot%Z.ltb_ge.
  eapply qwp_rbind; [apply (wf_remaining (ir_book r) existing Hwf) |].
  { rewrite HL in Hfound. by rewrite Hoid. }
  eapply qwp_step; [apply (check_exposure_ok c (lv c) a k ac p); try done; lia |].
  intros ? Hfits. apply qwp_ret. exists ac, r, p, reference.
  constructor; try done; simpl; mach.
Qed.

End RiskProps.
