(* ===== verification/CoreHandlers.v ===== *)
(** The three request handlers: each ends in one report, and between the state
    it starts from and the state before that report the accounts, the books
    and the order maps have moved together. *)

From S2P Require Import Prelude Enums Ids Events BTree Slab Book BookData BookInv BookSpec Matching.
From S2P Require Import MatchSpec MatchProps BookTheorems Market MarketInv Account AccountProps.
From S2P Require Import Config CoreState Risk Core CoreAcct CoreExec CoreInv CoreRest RiskProps.

Section Handlers.
Context {S : Type} `{SL : Slab OrderNode S} `{!SlabLaws SL}.
Implicit Types (c : TradingCore S) (L : live_fn) (r : InstrumentRuntime S) (b : OrderBook S).

Record progress (n : Z) (c c1 : TradingCore S) (evs : list OutputEvent.t) : Prop := {
  pg_tinv : tinv c1 (lv c1);
  pg_insts : insts_ok n c1;
  pg_static : same_static c c1;
  pg_reposed : reposed (tc_accounts c) (tc_accounts c1);
  pg_order : tc_next_order_id c <= tc_next_order_id c1 <= tc_next_order_id c + 1;
  pg_priority : tc_next_priority c <= tc_next_priority c1 <= tc_next_priority c + 1;
  pg_output : tc_output_seq c1 = tc_output_seq c + Z.of_nat (length evs);
  pg_events : Z.of_nat (length evs) = 3 * (tc_next_trade_id c1 - tc_next_trade_id c);
  pg_trades : trades (tc_metrics c1)
              = trades (tc_metrics c) + (tc_next_trade_id c1 - tc_next_trade_id c);
  pg_potential : tc_next_trade_id c1 + Z.of_nat (size (tc_live_orders c1))
                 <= tc_next_trade_id c + Z.of_nat (size (tc_live_orders c)) + 2;
  pg_numbered : numbered (tc_engine_seq c) (tc_output_seq c) evs
}.

(** The report is numbered right after the events before it. *)
Record reported (c1 c' : TradingCore S) (report : ExecutionReport) : Prop := {
  rd_state : c' = Core.set_output_seq c1 (tc_output_seq c1 + 1);
  rd_output : rep_output_seq report = tc_output_seq c1 + 1;
  rd_engine : rep_engine_seq report = tc_engine_seq c1
}.

(** A handler returned and made progress; a rejection made none. *)
Definition handled (n : Z) (c : TradingCore S) (out : list OutputEvent.t)
    (m : res (TradingCore S * list OutputEvent.t * ExecutionReport)) : Prop :=
  exists c1 c' evs report, m = Ret (c', out ++ evs, report)
    /\ progress n c c1 evs /\ reported c1 c' report
    /\ (rep_reject_reason report = None \/ c1 = c /\ evs = []).

Lemma progress_refl n c :
  tinv c (lv c) -> insts_ok n c -> progress n c c [].
Proof.
  intros T I. constructor; simpl; try done; try lia. apply reposed_refl.
Qed.

Lemma progress_output n c c1 evs :
  calm c -> progress n c c1 evs -> 0 <= tc_output_seq c1 < 2 ^ 62.
Proof.
  intros [_ Co Ct _ Cp] P. destruct P as [_ _ _ _ _ _ Po Pe _ Pp _].
  unfold bound in *. lia.
Qed.

Lemma handled_intro n c c1 c' evs out report m :
  progress n c c1 evs -> reported c1 c' report /\ rep_reject_reason report = None ->
  m = Ret (c', out ++ evs, report) -> handled n c out m.
Proof. intros ? [] ?. exists c1, c', evs, report. split_and!; auto. Qed.

(** A report with other figures is reported alike. *)
Lemma reported_ext c1 c' rep rep' :
  reported c1 c' rep /\ rep_reject_reason rep = None ->
  rep_output_seq rep' = rep_output_seq rep -> rep_engine_seq rep' = rep_engine_seq rep ->
  rep_reject_reason rep' = rep_reject_reason rep ->
  reported c1 c' rep' /\ rep_reject_reason rep' = None.
Proof. intros [[] ?] E1 E2 E3. split; [constructor; congruence | congruence]. Qed.

(** The reports. *)
Ltac report_ok :=
  intros; unfold Core.reject_report, Core.terminal_report, Core.cancelled_report,
    Core.replace_cancelled_report, Core.base_report;
  rewrite take_output_seq_ok by done; do 2 eexists; split; [reflexivity | by repeat split].

Lemma base_report_ok c request id :
  0 <= tc_output_seq c < 2 ^ 62 ->
  exists c' rep, Core.base_report c request id = (c', rep)
    /\ reported c c' rep /\ rep_reject_reason rep = None.
Proof. report_ok. Qed.

Lemma reject_report_ok c request reason :
  0 <= tc_output_seq c < 2 ^ 62 ->
  exists c' rep, Core.reject_report c request reason = (c', rep) /\ reported c c' rep.
Proof. report_ok. Qed.

Lemma terminal_report_ok c request id kind filled :
  0 <= tc_output_seq c < 2 ^ 62 ->
  exists c' rep, Core.terminal_report c request id kind filled = (c', rep)
    /\ reported c c' rep /\ rep_reject_reason rep = None.
Proof. report_ok. Qed.

Lemma cancelled_report_ok c request id total filled :
  0 <= tc_output_seq c < 2 ^ 62 ->
  exists c' rep, Core.cancelled_report c request id total filled = (c', rep)
    /\ reported c c' rep /\ rep_reject_reason rep = None.
Proof. report_ok. Qed.

Lemma replace_cancelled_report_ok c request id existing :
  0 <= tc_output_seq c < 2 ^ 62 ->
  exists c' rep, Core.replace_cancelled_report c request id existing = (c', rep)
    /\ reported c c' rep /\ rep_reject_reason rep = None.
Proof. report_ok. Qed.

(** A rejection changes nothing but the output sequence. *)
Lemma rejected n c out request reason :
  calm c -> tinv c (lv c) -> insts_ok n c ->
  handled n c out (Engine.with_out out (Core.reject_report c request reason)).
Proof.
  intros C T I. pose proof (progress_refl n c T I) as P.
  destruct (reject_report_ok c request reason) as (c' & rep & -> & R);
    [by eapply progress_output |].
  exists c, c', [], rep. rewrite app_nil_r. split_and!; try done. by right.
Qed.

(** Execution, as a step of a handler. *)
Lemma executed_progress n c c' k a side limit quantity h price fs evs o acct :
  executed n c c' k a side limit quantity h price fs ->
  fill_outputs (tc_engine_seq c) (tc_output_seq c) (tc_next_trade_id c) o acct side fs evs ->
  progress n c c' evs.
Proof.
  intros E Hev. pose proof (fill_outputs_length _ _ _ _ _ _ _ _ Hev) as Hlen.
  destruct E. constructor; try done; try lia. by eapply fill_outputs_numbered.
Qed.

(** Fresh ids and client keys stay fresh under execution. *)
Lemma executed_fresh n c c' k a side limit quantity h price fs id :
  executed n c c' k a side limit quantity h price fs ->
  (forall k', lv c k' !! id = None) -> forall k', lv c' k' !! id = None.
Proof.
  intros E Hf k'. rewrite (ex_live _ _ _ _ _ _ _ _ _ _ _ E). unfold lset.
  case_decide as Ek; [| apply Hf]. destruct (apply_fills (lv c k) fs !! id) as [y |] eqn:Ey; [| done].
  apply apply_fills_shrinks in Ey as (y0 & Hy0 & _). by rewrite Hf in Hy0.
Qed.

Lemma executed_client n c c' k a side limit quantity h price fs key :
  tinv c (lv c) -> executed n c c' k a side limit quantity h price fs ->
  tc_client_orders c !! key = None -> tc_client_orders c' !! key = None.
Proof.
  intros T E Hf. destruct (tc_client_orders c' !! key) as [id |] eqn:Eco; [| done].
  apply (mp_client _ _ _ _ (ti_maps _ _ (ex_tinv _ _ _ _ _ _ _ _ _ _ _ E))) in Eco
    as (k' & x & Hx & ->).
  rewrite (ex_live _ _ _ _ _ _ _ _ _ _ _ E) in Hx.
  assert (exists y0, lv c k' !! id = Some y0 /\ no_account x = no_account y0
            /\ no_client_order_id x = no_client_order_id y0) as (y0 & Hy0 & E1 & E2).
  { unfold lset in Hx. case_decide; [subst k' | by eauto].
    apply apply_fills_shrinks in Hx as (y0 & Hy0 & _ & _ & _ & ? & ?). eauto. }
  rewrite E1, E2 in Hf. rewrite <- Hf. symmetry.
  apply (mp_client _ _ _ _ (ti_maps _ _ T)). eauto.
Qed.

Lemma executed_account n c c' k a side limit quantity h price fs ac :
  executed n c c' k a side limit quantity h price fs -> tc_accounts c !! a = Some ac ->
  exists ac', tc_accounts c' !! a = Some ac' /\ ac_id ac' = ac_id ac.
Proof.
  intros E Ha. destruct (proj2 (ex_reposed _ _ _ _ _ _ _ _ _ _ _ E) _ _ Ha) as (ps & ? & _).
  eauto.
Qed.

(** Execution and resting what is left, as a step of a handler. *)
Lemma rested_progress n c c1 c2 k x evs :
  progress n c c1 evs -> rested n c1 c2 k x ->
  tc_next_priority c1 = tc_next_priority c ->
  tc_next_trade_id c1 + Z.of_nat (size (tc_live_orders c1))
    <= tc_next_trade_id c + Z.of_nat (size (tc_live_orders c)) + 1 ->
  progress n c c2 evs.
Proof.
  intros [] [T I St (Co & Cor & Ct & Cm) Cp Cs Cr _] Hp Hs. constructor; try done; try lia.
  - by eapply same_static_trans.
  - by eapply reposed_trans.
  - rewrite Cm. lia.
Qed.

(** * New orders *)

Lemma tinv_next_order_id c L id :
  tinv c L -> tc_next_order_id c <= id -> tinv (Core.set_next_order_id c id) L.
Proof.
  intros T H. pose proof (ti_orders _ _ T) as Ho. destruct T. constructor; try done.
  intros k i x (? & ? & ?)%Ho. simpl.   split_and!; done || lia.
Qed.

Lemma lv_fresh c id :
  tinv c (lv c) -> tc_next_order_id c < id -> forall k, lv c k !! id = None.
Proof.
  intros T H k. destruct (lv c k !! id) as [x |] eqn:E; [| done].
  apply (ti_orders _ _ T) in E. lia.
Qed.

(** The limit part of [handle_new]: what is left of the order rests. *)
Lemma new_rests n c c1 k a side limit quantity fs evs ac request order_id :
  ids_ok c -> tinv c (lv c) -> progress n c c1 evs ->
  executed n (Core.set_next_order_id c (tc_next_order_id c + 1)) c1 k a side limit quantity
    quantity limit fs ->
  tc_accounts c !! a = Some ac -> ac_id ac = req_account request ->
  tc_client_orders c !! (req_account request, req_client_order_id request) = None ->
  in_i64 limit -> 0 < quantity <= u64_max -> filled_quantity fs <> quantity ->
  side = req_side request -> limit = req_price request -> quantity = req_quantity request ->
  order_id = tc_next_order_id c + 1 ->
  exists c2 x, Engine.rest_order c1 k a request order_id quantity (filled_quantity fs) = Ret c2
    /\ rested n c1 c2 k x /\ progress n c c2 evs.
Proof.
  intros Hids T P E Ha Hid Hco Hl Hq Hne -> -> -> ->.
  pose proof (ex_filled _ _ _ _ _ _ _ _ _ _ _ E) as Hf.
  destruct (executed_account _ _ _ _ _ _ _ _ _ _ _ _ E Ha) as (ac1 & Ha1 & Hid1).
  destruct (ex_instruments _ _ _ _ _ _ _ _ _ _ _ E) as [r1 Hr1].
  destruct (ex_room _ _ _ _ _ _ _ _ _ _ _ E) as (p1 & Hp1 & Hroom).
  destruct Hids as [Hord Hprio]. unfold bound in *.
  pose proof (ex_priority _ _ _ _ _ _ _ _ _ _ _ E) as Epr. simpl in Epr.
  pose proof (ex_order_id _ _ _ _ _ _ _ _ _ _ _ E) as Eor. simpl in Eor.
  destruct (rest_order_with_ok n c1 k a r1 ac1 p1 (req_client_order_id request)
              (req_side request) (req_price request) (req_quantity request) (filled_quantity fs)
              (tc_next_order_id c + 1)) as (c2 & E2 & R2); try done; try lia.
  - apply E.
  - apply E.
  - eapply executed_fresh; [done |]. apply (lv_fresh c); [done | lia].
  - rewrite Hid1, Hid.
    eapply (executed_client n (Core.set_next_order_id c (tc_next_order_id c + 1)));
      [apply (tinv_next_order_id c); [done | lia] | done | done].
  - intros id y Hy Hs. destruct (ex_exhausted _ _ _ _ _ _ _ _ _ _ _ E); [done | by eauto].
  - do 2 eexists. split_and!; [done | done |].
    eapply rested_progress; [done | done | done |].
    apply (ex_potential _ _ _ _ _ _ _ _ _ _ _ E).
Qed.

Lemma progress_next_order n c c1 evs :
  progress n (Core.set_next_order_id c (tc_next_order_id c + 1)) c1 evs ->
  tc_next_order_id c1 = tc_next_order_id c + 1 -> progress n c c1 evs.
Proof.
  intros P Hn. pose proof (pg_static _ _ _ _ P) as []. destruct P.
  constructor; try done; try lia.
Qed.

(** The final report of an admitted order. *)
Definition new_report (request : OrderRequest) (order_id filled : Z) (report : ExecutionReport)
  : Prop :=
  rep_order_id report = order_id /\ rep_reject_reason report = None
  /\ rep_total_quantity report = req_quantity request
  /\ rep_cumulative_filled report = filled
  /\ (rep_kind report, rep_remaining report)
     = if filled =? req_quantity request then (ReportKind.Filled, 0)
       else match req_order_type request with
            | OrderType.Market => (ReportKind.Cancelled, 0)
            | OrderType.Limit => (ReportKind.Accepted, req_quantity request - filled)
            end.

Record new_outcome (n : Z) (c c' : TradingCore S) (request : OrderRequest)
    (checked : CheckedNewOrder) (evs : list OutputEvent.t) (fs : list Fill)
    (report : ExecutionReport) : Prop := {
  nw_progress : exists c1, progress n c c1 evs /\ reported c1 c' report;
  nw_outputs : fill_outputs (tc_engine_seq c) (tc_output_seq c) (tc_next_trade_id c)
                 (tc_next_order_id c + 1) (req_account request) (req_side request) fs evs;
  nw_match : exists r b', tc_instruments c !! cn_instrument_index checked = Some r
    /\ match_order (ir_book r) (req_side request) (cn_execution_limit checked)
         (req_quantity request) [] = Ret (b', fs, filled_quantity fs);
  nw_filled : 0 <= filled_quantity fs <= req_quantity request;
  nw_report : new_report request (tc_next_order_id c + 1) (filled_quantity fs) report
}.

Lemma base_report_fields c request id c' rep :
  Core.base_report c request id = (c', rep) ->
  rep_order_id rep = id /\ rep_total_quantity rep = req_quantity request
  /\ rep_reject_reason rep = None.
Proof.
  unfold Core.base_report. destruct (Core.take_output_seq c). by intros [= _ <-].
Qed.

Lemma handle_new_admitted n c request checked out :
  calm c -> ids_ok c -> tinv c (lv c) -> insts_ok n c -> instruments_inv c ->
  in_u64 (req_quantity request) -> Risk.check_new_order c request = Ret (Ok checked) ->
  exists c' evs fs report, Engine.handle_new c request out = Ret (c', out ++ evs, report)
    /\ new_outcome n c c' request checked evs fs report.
Proof.
  intros C Hids T I II Hq Hck. unfold Engine.handle_new.
  destruct (qwp_inv _ _ (check_new_order_ok n c _ request T I II Hq)) as (res & Hck' & Hres).
  rewrite Hck in Hck' |- *. injection Hck' as <-. cbn [rbind].
  destruct Hres as (ac & r & p & reference & A).
  pose proof Hids as [Ho _]. unfold bound in *.
  rewrite next_small by lia. set (c0 := Core.set_next_order_id c _).
  assert (T0 : tinv c0 (lv c0)) by (apply tinv_next_order_id; [done | lia]).
  destruct (na_quantity _ _ _ _ _ _ _ A) as [[Hq0 _] _].
  pose proof (ft_room _ _ _ _ _ _ _ _ _ (na_fits _ _ _ _ _ _ _ A)) as Hroom.
  rewrite released_pos_zero in Hroom.
  destruct (execute_ok n c0 (cn_instrument_index checked) (cn_account_index checked) r request
              (tc_next_order_id c + 1) (req_side request) (cn_execution_limit checked)
              (req_quantity request) out (req_quantity request) (cn_execution_limit checked) p)
    as (c1 & evs & fs & -> & Hev & E & b' & Hmatch); try done; try apply A; try mach.
  { destruct C. by constructor. }
  cbn [rbind]. pose proof (executed_progress _ _ _ _ _ _ _ _ _ _ _ _ _ _ E Hev) as P0.
  pose proof (ex_order_id _ _ _ _ _ _ _ _ _ _ _ E) as Eor.
  apply progress_next_order in P0 as P; [| done].
  pose proof (ex_filled _ _ _ _ _ _ _ _ _ _ _ E) as Hf.
  assert (Hfin : forall c2 c' rep,
    progress n c c2 evs -> reported c2 c' rep ->
    new_report request (tc_next_order_id c + 1) (filled_quantity fs) rep ->
    new_outcome n c c' request checked evs fs rep).
  { intros c2 c' rep P2 R2 Hrep. constructor; try done; [by eauto |].
    exists r, b'. split; [apply A | done]. }
  rewrite u64_checked_in by mach. unfold QuantityLots.is_zero.
  destruct (Z.eqb_spec (req_quantity request - filled_quantity fs) 0).
  { unfold Core.terminal_report.
    destruct (base_report_ok c1 request (tc_next_order_id c + 1)) as (c' & rep & Eb & R & _);
      [by eapply progress_output |]. rewrite Eb. do 4 eexists. split; [done |].
    apply base_report_fields in Eb as (? & ? & ?).
    eapply Hfin; [done | by destruct R; constructor |].
    unfold new_report. simpl. replace (filled_quantity fs =? req_quantity request) with true by lia.
    done. }
  assert (Hno : (filled_quantity fs =? req_quantity request) = false) by lia.
  case_bool_decide as Hty.
  { unfold Core.cancelled_report.
    destruct (base_report_ok c1 request (tc_next_order_id c + 1)) as (c' & rep & Eb & R & _);
      [by eapply progress_output |]. rewrite Eb. do 4 eexists. split; [done |].
    apply base_report_fields in Eb as (? & ? & ?).
    eapply Hfin; [done | by destruct R; constructor |].
    unfold new_report. simpl. by rewrite Hno, Hty. }
  pose proof (na_limit _ _ _ _ _ _ _ A) as Hlim. unfold limit_of in Hlim.
  destruct (req_order_type request) eqn:Ety; [| done].
  destruct (new_rests n c c1 (cn_instrument_index checked) (cn_account_index checked)
              (req_side request) (cn_execution_limit checked) (req_quantity request) fs evs ac
              request (tc_next_order_id c + 1)) as (c2 & x & -> & R2 & P2);
    try done; try apply A; try lia; [mach |].
  cbn [rbind].
  destruct (base_report_ok c2 request (tc_next_order_id c + 1)) as (c' & rep & Eb & R & _);
    [by eapply progress_output |]. rewrite Eb. do 4 eexists. split; [done |].
  apply base_report_fields in Eb as (? & ? & ?).
  eapply Hfin; [done | by destruct R; constructor |].
  unfold new_report. simpl. by rewrite Hno, Ety.
Qed.

Lemma handle_new_ok n c request out :
  calm c -> ids_ok c -> tinv c (lv c) -> insts_ok n c -> instruments_inv c ->
  in_u64 (req_quantity request) -> handled n c out (Engine.handle_new c request out).
Proof.
  intros C Hids T I II Hq.
  destruct (qwp_inv _ _ (check_new_order_ok n c _ request T I II Hq)) as (res & Hck & _).
  destruct res as [checked | reason].
  - destruct (handle_new_admitted n c request checked out C Hids T I II Hq Hck)
      as (c' & evs & fs & report & -> & [(c1 & P & R) _ _ _ (_ & Hn & _)]).
    by eapply handled_intro.
  - unfold Engine.handle_new. rewrite Hck. by apply rejected.
Qed.

(** * Cancels *)

Lemma lv_inst c k id x :
  lv c k !! id = Some x -> exists r, tc_instruments c !! k = Some r.
Proof.
  unfold lv. destruct (tc_instruments c !! k) as [r |]; simpl; [by eauto |].
  by rewrite lookup_empty.
Qed.

Lemma dropped_progress n c c' k x : dropped n c c' k x -> progress n c c' [].
Proof.
  intros [T I St (Co & Cor & Ct & Cm) Cp Cs Cr _ _ _ _]. constructor; simpl; try done; try lia.
  rewrite Cm. lia.
Qed.

(** What a cancel of a live order does. *)
Record cancelled (n : Z) (c c' : TradingCore S) (k : nat) (x : NewOrder)
    (report : ExecutionReport) : Prop := {
  cd_state : exists c1, dropped n c c1 k x /\ reported c1 c' report;
  cd_reason : rep_reject_reason report = None;
  cd_kind : rep_kind report = ReportKind.Cancelled;
  cd_order : rep_order_id report = no_order_id x;
  cd_figures : rep_total_quantity report = no_total_quantity x
               /\ rep_cumulative_filled report = no_cumulative_filled x
               /\ rep_remaining report = 0
}.

Lemma handle_cancel_live n c request id k x :
  calm c -> tinv c (lv c) -> insts_ok n c ->
  tc_client_orders c !! (req_account request, req_target_client_order_id request) = Some id ->
  lv c k !! id = Some x ->
  exists c' report, Engine.handle_cancel c request = Ret (c', report)
    /\ cancelled n c c' k x report.
Proof.
  intros C T I Hco Hx. pose proof (client_owner c _ _ _ _ _ T Hco Hx) as Hkey.
  destruct (mp_account _ _ _ _ (ti_maps _ _ T) _ _ _ Hx) as [a Ha].
  assert (Hl : tc_live_orders c !! id = Some (mkLiveOrder a k)).
  { apply (mp_live _ _ _ _ (ti_maps _ _ T)). eauto. }
  destruct (lv_inst _ _ _ _ Hx) as [r Hr].
  destruct (position_ok c _ k r _ _ T Hr Ha) as (ac & p & _ & _ & Hp & _).
  destruct (drop_order_ok n c k r id x _ p T I Hr Hx Ha Hp)
    as (o & b & accts & Er & Ho & Em & El & _ & D).
  unfold Engine.handle_cancel.
  rewrite bool_decide_eq_true_2 by (injection Hkey as -> _; eauto). cbn [negb].
  rewrite Hco, Hl, Hkey. cbn [lo_instrument_index lo_account_index].
  rewrite (book_ok c k r Hr). cbn [rbind]. rewrite Er. cbn [rbind].
  rewrite (put_book_ok c k r b Hr). cbn [rbind unwrap]. rewrite Em. cbn [rbind].
  subst x. cbn [no_side no_price node_data no_account no_client_order_id] in El, D.
  rewrite El. cbn [rbind].
  match type of D with dropped _ _ ?s _ _ => set (c1 := s) in * end.
  change (Core.set_client_orders _ _) with c1.
  destruct (base_report_ok c1 request id) as (c' & rep & Eb & R & Hnone);
    [by eapply progress_output, dropped_progress |].
  rewrite Eb. do 2 eexists. split; [done |]. destruct R as [R1 R2 R3].
  pose proof (mp_id _ _ _ _ (ti_maps _ _ T) _ _ _ Hx) as Hid.
  constructor; try done; [by exists c1; split; [| constructor] |].
  simpl. simpl in Hid. rewrite Hid. unfold Core.base_report in Eb.
  destruct (Core.take_output_seq c1). by injection Eb as _ <-.
Qed.

Lemma handle_cancel_ok n c request out :
  calm c -> tinv c (lv c) -> insts_ok n c ->
  handled n c out (let! p := Engine.handle_cancel c request in Engine.with_out out p).
Proof.
  intros C T I.
  destruct (tc_client_orders c !! (req_account request, req_target_client_order_id request))
    as [id |] eqn:Hco.
  - apply (mp_client _ _ _ _ (ti_maps _ _ T)) in Hco as Hx. destruct Hx as (k & x & Hx & _).
    destruct (handle_cancel_live n c request id k x C T I Hco Hx)
      as (c' & report & -> & [(c1 & D & R) Hn _ _ _]). cbn [rbind].
    eapply handled_intro; [by eapply dropped_progress | done | by rewrite app_nil_r].
  - unfold Engine.handle_cancel. case_bool_decide; simpl; [| by apply rejected].
    rewrite Hco. by apply rejected.
Qed.

(** * Replacements *)

Lemma dropped_calm n c c' k x : dropped n c c' k x -> calm c -> calm c'.
Proof.
  intros [_ _ St (Co & _ & Ct & Cm) _ Cs _ _ _ _ _] []. pose proof (ss_fault _ _ St) as Ef.
  constructor; rewrite ?Ef, ?Co, ?Ct, ?Cm; done || lia.
Qed.

(** A drop followed by an execution. *)
Lemma dropped_executed n c c1 c2 k x a side limit quantity h price fs evs o acct :
  dropped n c c1 k x -> executed n c1 c2 k a side limit quantity h price fs ->
  fill_outputs (tc_engine_seq c1) (tc_output_seq c1) (tc_next_trade_id c1) o acct side fs evs ->
  progress n c c2 evs /\ tc_next_priority c2 = tc_next_priority c
  /\ tc_next_order_id c2 = tc_next_order_id c
  /\ tc_next_trade_id c2 + Z.of_nat (size (tc_live_orders c2))
     <= tc_next_trade_id c + Z.of_nat (size (tc_live_orders c)) + 1.
Proof.
  intros [_ _ St (Co & Cor & Ct & Cm) Cp Cs Cr _ _ _ _] E Hev.
  pose proof (fill_outputs_length _ _ _ _ _ _ _ _ Hev) as Hlen.
  apply fill_outputs_numbered in Hev. rewrite Co in Hev.
  assert (Etr : trades (tc_metrics c1) = trades (tc_metrics c)) by (by rewrite Cm).
  rewrite (ss_seq _ _ St) in Hev.
  destruct E. split_and!; try lia. constructor; try done; try lia.
  - by eapply same_static_trans.
  - by eapply reposed_trans.
Qed.

Lemma replace_rests n c c1 c2 k a p ac x side price quantity h fs evs coid :
  ids_ok c -> dropped n c c1 k x -> executed n c1 c2 k a side price h h price fs ->
  progress n c c2 evs ->
  tc_next_priority c2 = tc_next_priority c -> tc_next_order_id c2 = tc_next_order_id c ->
  tc_next_trade_id c2 + Z.of_nat (size (tc_live_orders c2))
    <= tc_next_trade_id c + Z.of_nat (size (tc_live_orders c)) + 1 ->
  tc_accounts c1 !! a = Some ac -> ac_id ac = no_account x -> coid = no_client_order_id x ->
  0 < no_order_id x <= tc_next_order_id c -> in_i64 price ->
  h = quantity - no_cumulative_filled x -> 0 <= no_cumulative_filled x -> quantity <= u64_max ->
  filled_quantity fs <> h -> pos_at (tc_accounts c1) a k = Some p ->
  exists c3 y,
    Engine.rest_order_with c2 k a coid side price quantity
      (no_cumulative_filled x + filled_quantity fs) (no_order_id x) = Ret c3
    /\ rested n c2 c3 k y /\ progress n c c3 evs.
Proof.
  intros [_ Hprio] D E P Epr Eor Epot Ha Hid -> Hoid Hpr -> Hcum Hq Hne Hp.
  pose proof (ex_filled _ _ _ _ _ _ _ _ _ _ _ E) as Hf.
  destruct (executed_account _ _ _ _ _ _ _ _ _ _ _ _ E Ha) as (ac1 & Ha1 & Hid1).
  destruct (ex_instruments _ _ _ _ _ _ _ _ _ _ _ E) as [r1 Hr1].
  destruct (ex_room _ _ _ _ _ _ _ _ _ _ _ E) as (p1 & Hp1 & Hroom).
  unfold bound in *.
  destruct (rest_order_with_ok n c2 k a r1 ac1 p1 (no_client_order_id x) side price quantity
              (no_cumulative_filled x + filled_quantity fs) (no_order_id x))
    as (c3 & E3 & R3); try done; try lia.
  - apply E.
  - apply E.
  - eapply executed_fresh; [done |]. apply (dp_fresh _ _ _ _ _ D).
  - rewrite Hid1, Hid. eapply (executed_client n c1); [apply D | done | apply D].
  - by replace (quantity - (no_cumulative_filled x + filled_quantity fs))
      with (quantity - no_cumulative_filled x - filled_quantity fs) by lia.
  - intros i y Hy Hs. destruct (ex_exhausted _ _ _ _ _ _ _ _ _ _ _ E); [done | by eauto].
  - do 2 eexists. split_and!; [done | done |]. by eapply rested_progress.
Qed.

Lemma replace_reenter_ok n c request checked ac r p reference out :
  calm c -> ids_ok c -> tinv c (lv c) -> insts_ok n c -> in_u64 (req_quantity request) ->
  replace_admitted c request checked ac r p reference ->
  handled n c out (Engine.replace_reenter c request checked out).
Proof.
  intros C Hids T I Hqu A. unfold Engine.replace_reenter.
  set (k := cr_instrument_index checked). set (a := cr_account_index checked).
  set (e := cr_existing checked). set (x := node_data e). set (id := cr_order_id checked).
  pose proof (ra_instrument _ _ _ _ _ _ _ A) as Hr. pose proof (ra_order _ _ _ _ _ _ _ A) as Hx.
  pose proof (ra_account _ _ _ _ _ _ _ A) as Ha. pose proof (ra_position _ _ _ _ _ _ _ A) as Hp.
  destruct (ra_owner _ _ _ _ _ _ _ A) as [Howner _].
  pose proof (ra_account_state _ _ _ _ _ _ _ A) as Hac.
  pose proof (ra_account_id _ _ _ _ _ _ _ A) as Hid.
  pose proof (ra_fits _ _ _ _ _ _ _ A) as Hfits.
  destruct (ra_quantity _ _ _ _ _ _ _ A) as (_ & _ & Hge & _).
  destruct (I _ _ Hr) as [_ _ Hrange _ _ _ Hwf _].
  assert (Hpr : in_i64 (req_price request)).
  { destruct (ra_price _ _ _ _ _ _ _ A) as [? _]. mach. }
  fold k a e x id in Hr, Hx, Ha, Hp, Howner, Hac, Hid, Hfits, Hge.
  pose proof (ti_orders _ _ T _ _ _ Hx) as (Hoid & _ & _).
  pose proof (mp_id _ _ _ _ (ti_maps _ _ T) _ _ _ Hx) as Hxid. 
  rewrite <- Howner in Ha.
  destruct (drop_order_ok n c k r id x a p T I Hr Hx Ha Hp)
    as (o & b & accts & Er & Ho & Em & El & Hp1 & D).
  rewrite (book_ok c k r Hr). cbn [rbind]. rewrite Er. cbn [rbind].
  rewrite (put_book_ok c k r b Hr). cbn [rbind].
  assert (remaining e = Ret (order_rem x)) as ->.
  { apply (wf_remaining (ir_book r)); [done |]. rewrite <- (lv_at c k r Hr). fold x.
    change (node_order_id e) with (no_order_id x). by rewrite Hxid. }
  cbn [rbind]. change (node_side e) with (no_side x). change (node_price e) with (no_price x).
  rewrite El. cbn [rbind]. rewrite <- Howner.
  change (node_account e, node_client_order_id e) with (no_account x, no_client_order_id x).
  match type of D with dropped _ _ ?s _ _ => set (c1 := s) in * end.
  change (node_cumulative_filled e) with (no_cumulative_filled x) in *.
  change (Core.set_client_orders _ _) with c1.
  pose proof (dropped_progress _ _ _ _ _ D) as P0.
  destruct (Z.eqb_spec (req_quantity request) (no_cumulative_filled x)) as [Eq | Hne].
  { destruct (replace_cancelled_report_ok c1 request id e) as (c' & rep & -> & R);
      [by eapply progress_output |].
    eapply handled_intro; [done | done | by rewrite app_nil_r]. }
  assert (Hwx : order_wf x).
  { destruct Hwf as [[A' R'] _]. eapply (repr_wf (ir_book r) A' id); [done |].
    by rewrite <- (lv_at c k r Hr). }
  destruct Hwx as [Hcum Htot].
  rewrite u64_checked_in by mach.
  set (h := req_quantity request - no_cumulative_filled x) in *.
  assert (exists r1, tc_instruments c1 !! k = Some r1) as [r1 Hr1] by apply D.
  assert (exists ac1, tc_accounts c1 !! a = Some ac1 /\ ac_id ac1 = no_account x)
    as (ac1 & Hac1 & Hid1).
  { destruct (proj2 (dp_reposed _ _ _ _ _ D) _ _ Hac) as (ps & ? & _).
    eexists. split; [done |]. simpl. by rewrite Hid. }
  destruct (execute_ok n c1 k a r1 request id (no_side x) (req_price request) h out h
              (req_price request) (released_pos p (no_side x) (order_rem x) (no_price x)))
    as (c2 & evs & fs & -> & Hev & E & _); try done; try apply D; try mach.
  { by eapply dropped_calm. } { apply Hfits. }
  cbn [rbind]. destruct (dropped_executed _ _ _ _ _ _ _ _ _ _ _ _ _ _ _ _ D E Hev)
    as (P & Epr & Eor & Epot).
  pose proof (ex_filled _ _ _ _ _ _ _ _ _ _ _ E) as Hf.
  rewrite u64_checked_in by mach.
  destruct (Z.eqb_spec (no_cumulative_filled x + filled_quantity fs) (req_quantity request)).
  { destruct (base_report_ok c2 request id) as (c' & rep & -> & R); [by eapply progress_output |].
    eapply handled_intro; [done | | done]. by eapply reported_ext. }
  destruct (replace_rests n c c1 c2 k a
              (released_pos p (no_side x) (order_rem x) (no_price x)) ac1 x (no_side x)
              (req_price request) (req_quantity request) h fs evs (node_client_order_id e))
    as (c3 & y & E3 & R3 & P3); try done; try lia; [mach |].
  rewrite <- Hxid. rewrite E3. cbn [rbind].
  destruct (base_report_ok c3 request (no_order_id x)) as (c' & rep & -> & R);
    [by eapply progress_output |].
  rewrite u64_checked_in by mach.
  eapply handled_intro; [done | | done]. by eapply reported_ext.
Qed.

(** Reducing an order in place. *)
Lemma uncrossed_reduce (m : gmap OrderId NewOrder) id x total :
  uncrossed_live m -> m !! id = Some x -> uncrossed_live (<[id := with_total x total]> m).
Proof.
  intros U Hx i j y z. rewrite !lookup_insert.
  case_decide; case_decide; intros Hy Hz Sy Sz; simplify_eq; simpl in *; try congruence;
    by eapply U.
Qed.

Lemma reduced_progress n c c' k r b x total a accts :
  tinv c (lv c) -> insts_ok n c -> tc_instruments c !! k = Some r ->
  lv c k !! no_order_id x = Some x -> tc_account_index c !! no_account x = Some a ->
  book_wf b -> live b = <[no_order_id x := with_total x total]> (live (ir_book r)) ->
  reposed (tc_accounts c) accts ->
  pos_inv accts (lset (lv c) k (<[no_order_id x := with_total x total]> (lv c k))) ->
  (forall k', total_position accts k' = total_position (tc_accounts c) k') ->
  c' = Core.set_instruments (Core.set_accounts c accts)
         (<[k := ir_set_book r b]> (tc_instruments c)) ->
  progress n c c' [].
Proof.
  intros T I Hk Hx Ha Hwf Hb R P Tot ->. pose proof (lv_at c k r Hk) as HL.
  set (c' := Core.set_instruments _ _).
  set (m := <[no_order_id x := with_total x total]> (lv c k)) in *.
  assert (Hlv : forall k', lv c' k' = lset (lv c) k m k').
  { intros k'. rewrite (lv_put c c' k r b k' Hk eq_refl), Hb. unfold m. by rewrite HL. }
  destruct (I _ _ Hk) as [_ _ _ _ _ _ _ Hun]. rewrite <- HL in Hun, Hb.
  constructor; simpl; try done; try lia.
  - apply (tinv_ext _ (lset (lv c) k m)); [done |].
    eapply tinv_moved; try done.
    + by apply (maps_update (ti_maps _ _ T) k (no_order_id x) x).
    + intros id y. unfold m. rewrite lookup_insert. case_decide; [| by eauto].
      intros [= <-]. subst id. left. eauto.
  - eapply insts_put; try done. rewrite Hb. by apply uncrossed_reduce.
  - constructor; try done. by eapply runtimes_put.
Qed.

Lemma wf_reduce b x total :
  book_wf b -> live b !! no_order_id x = Some x ->
  no_cumulative_filled x <= total <= no_total_quantity x ->
  exists b1, Book.reduce_total b (no_order_id x) total = Ret b1 /\ (exists A, repr b1 A)
    /\ live b1 = <[no_order_id x := with_total x total]> (live b)
    /\ map_Forall (fun i y => i = no_order_id x \/ 0 < order_rem y) (live b1).
Proof.
  intros [[A R] P] Hx Ht.
  destruct (reduce_total_repr b A x total R Hx Ht) as (b1 & l1 & l2 & E & _ & R1 & L1 & _).
  exists b1. split_and!; try done; [by eauto |]. rewrite L1. apply map_Forall_insert_2; [by left |].
  intros i y Hy. right. by apply P in Hy.
Qed.

Lemma replace_reduce_ok n c request checked ac r p reference out :
  calm c -> tinv c (lv c) -> insts_ok n c -> in_u64 (req_quantity request) ->
  replace_admitted c request checked ac r p reference ->
  req_quantity request < node_total_quantity (cr_existing checked) ->
  handled n c out (let! q := Engine.replace_reduce c request checked in Engine.with_out out q).
Proof.
  intros C T I Hqu A Hlt. unfold Engine.replace_reduce.
  set (k := cr_instrument_index checked). set (a := cr_account_index checked).
  set (e := cr_existing checked) in *. set (x := node_data e). set (id := cr_order_id checked).
  pose proof (ra_instrument _ _ _ _ _ _ _ A) as Hr. pose proof (ra_order _ _ _ _ _ _ _ A) as Hx.
  pose proof (ra_account _ _ _ _ _ _ _ A) as Ha. pose proof (ra_position _ _ _ _ _ _ _ A) as Hp.
  destruct (ra_owner _ _ _ _ _ _ _ A) as [Howner _].
  destruct (ra_quantity _ _ _ _ _ _ _ A) as (_ & _ & Hge & _).
  destruct (I _ _ Hr) as [_ _ _ _ _ _ Hwf _].
  fold k a e x id in Hr, Hx, Ha, Hp, Howner, Hge. pose proof (lv_at c k r Hr) as HL.
  pose proof (mp_id _ _ _ _ (ti_maps _ _ T) _ _ _ Hx) as Hxid. rewrite <- Hxid in Hx |- *.
  pose proof (live_ok_inst n c (lv c) k r T I Hr HL) as Hlo.
  destruct (Hlo _ _ Hx) as (_ & Hpos & Hi64).
  assert (Hwx : order_wf x).
  { destruct Hwf as [[A' R'] _]. eapply (repr_wf (ir_book r) A'); [done |]. by rewrite <- HL. }
  destruct Hwx as [Hcum Htot]. rewrite <- Howner in Ha |- *.
  change (node_account e, node_client_order_id e) with (no_account x, no_client_order_id x).
  change (node_cumulative_filled e) with (no_cumulative_filled x) in *.
  change (node_total_quantity e) with (no_total_quantity x) in *.
  change (node_side e) with (no_side x). change (node_price e) with (no_price x).
  set (q := req_quantity request) in *.
  rewrite u64_checked_in by mach.
  destruct (wf_reduce (ir_book r) x q Hwf) as (b1 & E1 & Hrep1 & L1 & P1); [by rewrite <- HL | lia |].
  set (m' := if q =? no_cumulative_filled x then delete (no_order_id x) (lv c k)
             else <[no_order_id x := with_total x q]> (lv c k)).
  destruct (release_order_ok c (lv c) k x (no_total_quantity x - q) a p m')
    as (accts & El & R & P & Hp' & Tot); try done; try apply T; try (unfold order_rem; lia).
  { by apply live_ok_nonneg. }
  { unfold m'. destruct (Z.eqb_spec q (no_cumulative_filled x)) as [-> |].
    - intros i. by apply live_shares.
    - intros i side. by apply rsv_reduce. }
  rewrite El. cbn [rbind].
  rewrite (book_ok (Core.set_accounts c accts) k r Hr). cbn [rbind]. rewrite E1. cbn [rbind].
  rewrite (put_book_ok (Core.set_accounts c accts) k r b1 Hr). cbn [rbind].
  set (c1 := Core.set_instruments (Core.set_accounts c accts) _).
  unfold m' in P. clear m'.
  destruct (Z.eqb_spec q (no_cumulative_filled x)) as [Eq | Hne].
  - assert (Hr1 : tc_instruments c1 !! k = Some (ir_set_book r b1)).
    { simpl. apply list_lookup_insert_eq. by eapply lookup_lt_Some. }
    rewrite (book_ok c1 k _ Hr1). cbn [rbind ir_book ir_set_book].
    destruct (wf_remove b1 (no_order_id x) (with_total x q)) as (o & b2 & E2 & _ & Hwf2 & L2);
      [done | done | by rewrite L1, lookup_insert_eq |].
    rewrite E2. cbn [rbind]. rewrite (put_book_ok c1 k _ b2 Hr1). cbn [rbind].
    match goal with |- context [Core.replace_cancelled_report ?s _ _ _] => set (c2 := s) end.
    assert (D : dropped n c c2 k x).
    { eapply (dropped_intro n c c2 k r b2); try done.
      - by rewrite L2, L1, delete_insert_eq.
      - unfold c2, c1. simpl. by rewrite list_insert_insert_eq. }
    destruct (replace_cancelled_report_ok c2 request (no_order_id x) e) as (c' & rep & -> & Rp);
      [by eapply progress_output, dropped_progress |].
    eapply handled_intro; [by eapply dropped_progress | done | by rewrite app_nil_r].
  - assert (Pg : progress n c c1 []).
    { eapply (reduced_progress n c c1 k r b1); try done. split; [done |]. unfold positive. rewrite L1.
      apply map_Forall_insert_2; [change (0 < q - no_cumulative_filled x); lia |].
      by destruct Hwf. }
    destruct (base_report_ok c1 request (no_order_id x)) as (c' & rep & -> & Rp);
      [by eapply progress_output |].
    rewrite u64_checked_in by mach.
    eapply handled_intro; [done | | by rewrite app_nil_r]. by eapply reported_ext.
Qed.

Lemma handle_replace_ok n c request out :
  calm c -> ids_ok c -> tinv c (lv c) -> insts_ok n c -> instruments_inv c ->
  in_u64 (req_quantity request) -> handled n c out (Engine.handle_replace c request out).
Proof.
  intros C Hids T I II Hq. unfold Engine.handle_replace.
  destruct (qwp_inv _ _ (check_replace_ok n c request T I II Hq)) as (res & -> & Hres).
  cbn [rbind]. destruct res as [checked | reason]; [| by apply rejected].
  destruct Hres as (ac & r & p & reference & A).
  destruct (_ && _) eqn:Hb; [| by eapply replace_reenter_ok].
  apply andb_true_iff in Hb as [_ Hlt%Z.ltb_lt]. by eapply replace_reduce_ok.
Qed.

End Handlers.
