(* ===== verification/CoreApply.v ===== *)
(** One input through the engine: [apply] never panics and never faults in the
    first [2^32 - 1] inputs, and the invariant holds between inputs. *)

From S2P Require Import Prelude Enums Ids Events BTree Slab Book BookData BookInv BookSpec Matching.
From S2P Require Import MatchSpec MatchProps BookTheorems Market MarketInv Account AccountProps.
From S2P Require Import Config CoreState Risk Core CoreAcct CoreExec CoreInv CoreRest RiskProps.
From S2P Require Import CoreHandlers.

Section Apply.
Context {S : Type} `{SL : Slab OrderNode S} `{!SlabLaws SL}.
Implicit Types (c : TradingCore S) (r : InstrumentRuntime S).

(** The invariant with every counter bounded by the number [n] of inputs so
    far.  An input adds at most one order id, one priority and two to the sum
    of the trade counter and the live orders, since a fill that does not remove
    its maker is the last of its execution. *)
Record core_ok (n : Z) (c : TradingCore S) : Prop := {
  ok_tinv : tinv c (lv c);
  ok_insts : insts_ok n c;
  ok_index : instruments_inv c;
  ok_cache a ac : tc_accounts c !! a = Some ac -> cache_inv (ac_cache ac);
  ok_fault : tc_fault c = None;
  ok_order : 0 <= tc_next_order_id c <= n;
  ok_priority : 0 <= tc_next_priority c <= n;
  ok_trade : 0 <= tc_next_trade_id c;
  ok_potential : tc_next_trade_id c + Z.of_nat (size (tc_live_orders c)) <= 2 * n;
  ok_output : 0 <= tc_output_seq c <= n + 3 * tc_next_trade_id c;
  ok_accepted : 0 <= requests_accepted (tc_metrics c) <= n;
  ok_rejected : 0 <= requests_rejected (tc_metrics c) <= n;
  ok_trades : 0 <= trades (tc_metrics c) <= tc_next_trade_id c;
  ok_market : 0 <= market_events (tc_metrics c) <= n;
  ok_control : 0 <= control_events (tc_metrics c) <= n
}.

(** The metrics [apply] itself moves. *)
Definition same_io (m m' : EngineMetrics) : Prop :=
  inputs_applied m' = inputs_applied m /\ reports_emitted m' = reports_emitted m.

(** What one event does to a state that has seen [n] inputs. *)
Definition stepped (n : Z) (c : TradingCore S) (m : res (TradingCore S * list OutputEvent.t))
  : Prop :=
  exists c' out, m = Ret (c', out) /\ core_ok (n + 1) c'
    /\ numbered (tc_engine_seq c) (tc_output_seq c) out
    /\ tc_output_seq c' = tc_output_seq c + Z.of_nat (length out)
    /\ tc_engine_seq c' = tc_engine_seq c
    /\ tc_engine_time_ns c' = tc_engine_time_ns c
    /\ same_io (tc_metrics c) (tc_metrics c').

Lemma core_ok_calm n c : core_ok n c -> 0 <= n <= u32_max -> calm c.
Proof. intros [] Hn. constructor; try done; unfold bound; mach. Qed.

Lemma core_ok_ids n c : core_ok n c -> 0 <= n <= u32_max -> ids_ok c.
Proof. intros [] Hn. unfold ids_ok, bound. mach. Qed.

Lemma insts_ok_mono n n' c : insts_ok n c -> n <= n' -> insts_ok n' c.
Proof.
  intros I Hn k r Hk. destruct (I _ _ Hk) as [? ? ? ? ? (? & ? & ? & ? & ? & ? & ?) ? ?].
  constructor; try done. unfold market_budget. repeat split; lia.
Qed.

(** * Updates of one account that keep its id and its positions *)

Record retouched (accts accts' : list AccountState) : Prop := {
  rt_length : length accts' = length accts;
  rt_at a ac' : accts' !! a = Some ac' ->
    exists ac, accts !! a = Some ac /\ ac_id ac' = ac_id ac
               /\ ac_positions ac' = ac_positions ac;
  rt_total k : total_position accts' k = total_position accts k
}.

Lemma retouched_insert accts a ac ac' :
  accts !! a = Some ac -> ac_id ac' = ac_id ac -> ac_positions ac' = ac_positions ac ->
  retouched accts (<[a := ac']> accts).
Proof.
  intros Ha Hid Hps. constructor.
  - apply length_insert.
  - intros a1 ac1. rewrite list_lookup_insert. case_decide as E; [| by eauto].
    destruct E as [<- _]. intros [= <-]. eauto.
  - intros k. unfold total_position. rewrite (lsum_insert _ _ _ _ _ Ha).
    unfold lots_at. rewrite Hps. lia.
Qed.

Lemma retouched_index accts accts' aidx :
  retouched accts accts' -> index_inv accts aidx -> index_inv accts' aidx.
Proof.
  intros R HI id a. rewrite (HI id a). split.
  - intros (ac & Ha & <-). destruct (lookup_lt_is_Some_2 accts' a) as [ac' Ha'].
    { rewrite (rt_length _ _ R). by eapply lookup_lt_Some. }
    destruct (rt_at _ _ R _ _ Ha') as (ac0 & Ha0 & Hid & _). rewrite Ha in Ha0.
    injection Ha0 as <-. eauto.
  - intros (ac' & Ha' & <-). destruct (rt_at _ _ R _ _ Ha') as (ac & Ha & -> & _). eauto.
Qed.

Lemma tinv_retouched c c' :
  tinv c (lv c) -> retouched (tc_accounts c) (tc_accounts c') ->
  tc_instruments c' = tc_instruments c -> tc_account_index c' = tc_account_index c ->
  tc_live_orders c' = tc_live_orders c -> tc_client_orders c' = tc_client_orders c ->
  tc_next_order_id c' = tc_next_order_id c -> tc_next_priority c' = tc_next_priority c ->
  tinv c' (lv c').
Proof.
  intros T R E1 E2 E3 E4 E5 E6.
  apply (tinv_ext _ (lv c)). { intros k. unfold lv. by rewrite E1. }
  destruct T as [T1 T2 T3 T4 T5 T6]. constructor; rewrite ?E1, ?E2, ?E3, ?E4, ?E5, ?E6; try done.
  - by eapply retouched_index.
  - intros a k ac p Ha Hp. destruct (rt_at _ _ R _ _ Ha) as (ac0 & Ha0 & -> & Hps).
    rewrite Hps in Hp. by eapply T3.
  - intros a ac Ha. destruct (rt_at _ _ R _ _ Ha) as (ac0 & Ha0 & _ & ->). by eapply T4.
  - intros k. by rewrite (rt_total _ _ R).
Qed.

(** * Closing a step *)

(** The trading state but the accounts, whose ids and positions stay. *)
Record same_trading (c c' : TradingCore S) : Prop := {
  sg_accounts : retouched (tc_accounts c) (tc_accounts c');
  sg_instruments : tc_instruments c' = tc_instruments c;
  sg_iindex : tc_instrument_index c' = tc_instrument_index c;
  sg_aindex : tc_account_index c' = tc_account_index c;
  sg_live : tc_live_orders c' = tc_live_orders c;
  sg_client : tc_client_orders c' = tc_client_orders c;
  sg_order : tc_next_order_id c' = tc_next_order_id c;
  sg_priority : tc_next_priority c' = tc_next_priority c;
  sg_trade : tc_next_trade_id c' = tc_next_trade_id c;
  sg_fault : tc_fault c' = tc_fault c
}.

(** The counters of metrics, one input later. *)
Record metrics_step (m m' : EngineMetrics) : Prop := {
  ms_accepted : requests_accepted m <= requests_accepted m' <= requests_accepted m + 1;
  ms_rejected : requests_rejected m <= requests_rejected m' <= requests_rejected m + 1;
  ms_market : market_events m <= market_events m' <= market_events m + 1;
  ms_control : control_events m <= control_events m' <= control_events m + 1;
  ms_trades : trades m' = trades m
}.

Lemma retouched_refl accts : retouched accts accts.
Proof. constructor; [done | | done]. intros. eauto. Qed.

Lemma tinv_same_trading c c' : tinv c (lv c) -> same_trading c c' -> tinv c' (lv c').
Proof. intros T []. by eapply tinv_retouched. Qed.

Lemma runtimes_at c c' k r :
  runtimes c' = runtimes c -> tc_instruments c !! k = Some r ->
  exists r', tc_instruments c' !! k = Some r' /\ ir_config r' = ir_config r
    /\ ir_market r' = ir_market r.
Proof.
  intros E Hk. apply (f_equal (lookup k)) in E. unfold runtimes in E.
  rewrite !list_lookup_fmap, Hk in E. simpl in E.
  destruct (tc_instruments c' !! k) as [r' |]; [| done]. injection E as ? ?. eauto.
Qed.

Lemma close_step n c c1 c' evs :
  core_ok n c -> progress n c c1 evs -> 0 <= n -> same_trading c1 c' ->
  metrics_step (tc_metrics c1) (tc_metrics c') ->
  tc_output_seq c1 <= tc_output_seq c' <= tc_output_seq c1 + 1 ->
  (forall a ac, tc_accounts c' !! a = Some ac -> cache_inv (ac_cache ac)) ->
  core_ok (n + 1) c'.
Proof.
  intros O P Hn G [M1 M2 M3 M4 M5] Ho Hcache.
  pose proof (tinv_same_trading _ _ (pg_tinv _ _ _ _ P) G) as T'.
  pose proof (pg_insts _ _ _ _ P) as I1.
  destruct P as [_ _ [E0 E1 E2 E3 E4 E5 E6 E7 (N1 & N2 & N3 & N4 & N5 & N6)]
                 _ Por Ppr Po Pe Ptr Pp _].
  destruct O as [_ _ OI _ Of Oor Opr Otr Op Oo Oa Or Ots Om Oc].
  destruct G as [_ Gi Gii Ga Gl Gc Gor Gpr Gtr Gf].
  constructor; rewrite ?Gf, ?Gor, ?Gpr, ?Gtr, ?Gl; try done; try congruence; try lia.
  - intros k r. rewrite Gi. apply (insts_ok_mono n _ c1); [done | lia].
  - intros id k. rewrite Gii, Gi, E2. intros Hk. destruct (OI _ _ Hk) as (r & Hr & Hid).
    destruct (runtimes_at c c1 k r E0 Hr) as (r1 & Hr1 & Hc1 & _). exists r1. by rewrite Hc1.
Qed.

(** * Requests *)

Lemma account_ok c a ac : tc_accounts c !! a = Some ac -> Core.account c a = Ret ac.
Proof. intros Ha. unfold Core.account, index. by rewrite Ha. Qed.

Lemma put_account_ok c a ac ac' :
  tc_accounts c !! a = Some ac ->
  Core.put_account c a ac' = Ret (Core.set_accounts c (<[a := ac']> (tc_accounts c))).
Proof. intros Ha. unfold Core.put_account, index_set. by rewrite Ha. Qed.

(** The account after an outcome has been recorded. *)
Record recorded (request : OrderRequest) (fingerprint : Z) (report : ExecutionReport)
    (ac ac' : AccountState) : Prop := {
  re_id : ac_id ac' = ac_id ac;
  re_enabled : ac_enabled ac' = ac_enabled ac;
  re_limits : ac_limits ac' = ac_limits ac;
  re_positions : ac_positions ac' = ac_positions ac;
  re_cache : Cache.record (ac_cache ac) (req_request_id request) fingerprint report
             = Ret (ac_cache ac');
  re_seq : ac_last_client_seq ac'
           = if bool_decide (rep_reject_reason report = None) && (0 <? req_client_seq request)
             then req_client_seq request else ac_last_client_seq ac
}.

Lemma record_outcome_ok c a ac request fp report :
  tc_accounts c !! a = Some ac -> cache_inv (ac_cache ac) ->
  exists ac', Engine.record_outcome c a request fp report
              = Ret (Core.set_accounts c (<[a := ac']> (tc_accounts c)))
    /\ recorded request fp report ac ac' /\ cache_inv (ac_cache ac').
Proof.
  intros Ha Hc. unfold Engine.record_outcome. rewrite (account_ok _ _ _ Ha). cbn [rbind].
  destruct (record_ok (ac_cache ac) (req_request_id request) fp report Hc)
    as (cache & E & Hc' & _). rewrite E. cbn [rbind].
  destruct (_ && _) eqn:Hb; rewrite (put_account_ok _ _ _ _ Ha); (eexists; split; [done |]);
    (split; [constructor; try done; by rewrite Hb | done]).
Qed.

Lemma caches_insert (accts : list AccountState) a ac' :
  (forall a ac, accts !! a = Some ac -> cache_inv (ac_cache ac)) -> cache_inv (ac_cache ac') ->
  forall i ac, <[a := ac']> accts !! i = Some ac -> cache_inv (ac_cache ac).
Proof.
  intros H H' i ac. rewrite list_lookup_insert. case_decide; [by intros [= <-] | apply H].
Qed.

(** Only positions moved, so the windows are untouched. *)
Lemma caches_reposed accts accts' :
  reposed accts accts' -> (forall a ac, accts !! a = Some ac -> cache_inv (ac_cache ac)) ->
  forall a ac, accts' !! a = Some ac -> cache_inv (ac_cache ac).
Proof.
  intros R H a ac' Ha'. destruct (reposed_inv _ _ _ _ R Ha') as (ac & ps & Ha & ->). exact (H _ _ Ha).
Qed.

Lemma bump_accepted_ok c :
  0 <= requests_accepted (tc_metrics c) < u64_max ->
  exists m, Engine.bump_accepted c = Ret (Core.set_metrics c m)
    /\ metrics_step (tc_metrics c) m /\ same_io (tc_metrics c) m.
Proof.
  intros H. unfold Engine.bump_accepted. rewrite u64_plain_in by mach. simpl.
  eexists. split; [done |]. split; [constructor; simpl; lia | done].
Qed.

Lemma bump_rejected_ok c :
  0 <= requests_rejected (tc_metrics c) < u64_max ->
  exists m, Engine.bump_rejected c = Ret (Core.set_metrics c m)
    /\ metrics_step (tc_metrics c) m /\ same_io (tc_metrics c) m.
Proof.
  intros H. unfold Engine.bump_rejected. rewrite u64_plain_in by mach. simpl.
  eexists. split; [done |]. split; [constructor; simpl; lia | done].
Qed.

Lemma handled_request n c request :
  core_ok n c -> 0 <= n < u32_max -> in_u64 (req_quantity request) ->
  handled n c []
    (match req_kind request with
     | RequestKind.New => Engine.handle_new c request []
     | RequestKind.Cancel =>
         let! p := Engine.handle_cancel c request in Engine.with_out [] p
     | RequestKind.Replace => Engine.handle_replace c request []
     end).
Proof.
  intros O Hn Hq. assert (C : calm c) by (eapply core_ok_calm; [done | lia]).
  assert (Hids : ids_ok c) by (eapply core_ok_ids; [done | lia]). destruct O.
  destruct (req_kind request); [by apply handle_new_ok | by apply handle_cancel_ok
                               | by apply handle_replace_ok].
Qed.

(** The accounts after the outcome of a request has been recorded with its
    account, if it has one. *)
Definition recorded_in (aidx : gmap AccountId nat) (request : OrderRequest) (fp : Z)
    (report : ExecutionReport) (accts accts' : list AccountState) : Prop :=
  match aidx !! req_account request with
  | Some a => exists ac ac', accts !! a = Some ac /\ accts' = <[a := ac']> accts
                /\ recorded request fp report ac ac' /\ cache_inv (ac_cache ac')
  | None => accts' = accts
  end.

Lemma recorded_in_retouched aidx request fp report accts accts' :
  recorded_in aidx request fp report accts accts' -> retouched accts accts'.
Proof.
  unfold recorded_in. destruct (aidx !! _); [| intros ->; apply retouched_refl].
  intros (ac & ac' & Ha & -> & R & _). eapply retouched_insert; [done | apply R | apply R].
Qed.

Lemma recorded_in_caches aidx request fp report accts accts' :
  recorded_in aidx request fp report accts accts' ->
  (forall a ac, accts !! a = Some ac -> cache_inv (ac_cache ac)) ->
  forall a ac, accts' !! a = Some ac -> cache_inv (ac_cache ac).
Proof.
  unfold recorded_in. destruct (aidx !! _); [| by intros ->].
  intros (ac & ac' & Ha & -> & _ & Hc) H. by apply caches_insert.
Qed.

(** A request the window does not know: handled, counted, recorded. *)
Record fresh_result (n : Z) (c : TradingCore S) (request : OrderRequest) (fp : Z)
    (c' : TradingCore S) (evs : list OutputEvent.t) (report : ExecutionReport) : Prop := {
  fr_state : exists c1 m accts,
    c' = Core.set_accounts (Core.set_metrics
           (Core.set_output_seq c1 (tc_output_seq c1 + 1)) m) accts
    /\ progress n c c1 evs
    /\ metrics_step (tc_metrics c1) m /\ same_io (tc_metrics c1) m
    /\ recorded_in (tc_account_index c) request fp report (tc_accounts c1) accts
    /\ rep_output_seq report = tc_output_seq c1 + 1
    /\ rep_engine_seq report = tc_engine_seq c
    /\ (rep_reject_reason report = None \/ c1 = c /\ evs = [])
}.

Lemma fresh_request_result n c request fp :
  core_ok n c -> 0 <= n < u32_max -> in_u64 (req_quantity request) ->
  exists c' evs report,
    Engine.apply_fresh_request c request fp [] = Ret (c', evs ++ [OutputEvent.Report report])
    /\ fresh_result n c request fp c' evs report.
Proof.
  intros O Hn Hq. unfold Engine.apply_fresh_request.
  destruct (handled_request n c request O Hn Hq) as (c1 & c2 & evs & report & -> & P & R & Hrej).
  cbn [rbind app]. pose proof (rd_state _ _ _ R) as Ec2.
  pose proof (pg_static _ _ _ _ P) as St.
  assert (exists m, (if bool_decide (is_Some (rep_reject_reason report)) then Engine.bump_rejected c2
                     else Engine.bump_accepted c2) = Ret (Core.set_metrics c2 m)
            /\ metrics_step (tc_metrics c1) m /\ same_io (tc_metrics c1) m) as (m & -> & M & IO).
  { assert (Em : tc_metrics c2 = tc_metrics c1) by (by rewrite Ec2). rewrite <- Em.
    destruct (ss_metrics _ _ St) as (_ & Ma & Mr & _). destruct O.
    case_bool_decide; [apply bump_rejected_ok | apply bump_accepted_ok]; rewrite Em; mach. }
  cbn [rbind]. pose proof (caches_reposed _ _ (pg_reposed _ _ _ _ P) (ok_cache _ _ O)) as Hc1.
  assert (exists accts,
    match tc_account_index (Core.set_metrics c2 m) !! req_account request with
    | Some a => Engine.record_outcome (Core.set_metrics c2 m) a request fp report
    | None => Ret (Core.set_metrics c2 m)
    end = Ret (Core.set_accounts (Core.set_metrics c2 m) accts)
    /\ recorded_in (tc_account_index c) request fp report (tc_accounts c1) accts)
    as (accts & -> & Hre).
  { unfold recorded_in. rewrite <- (ss_aindex _ _ St). rewrite Ec2. simpl.
    destruct (tc_account_index c1 !! req_account request) as [a |] eqn:Ha.
    - apply (ti_index _ _ (pg_tinv _ _ _ _ P)) in Ha as (ac & Hac & _).
      destruct (record_outcome_ok
                  (Core.set_metrics (Core.set_output_seq c1 (tc_output_seq c1 + 1)) m) a ac
                  request fp report) as (ac' & -> & Hre & Hca); [done | by eapply Hc1 |].
      simpl. eauto 10.
    - exists (tc_accounts c1). by rewrite <- (set_accounts_id (Core.set_metrics _ m)) at 1. }
  cbn [rbind]. do 3 eexists. split; [done |]. constructor. exists c1, m, accts.
  rewrite Ec2. destruct R as [_ R1 R2]. split_and!; try done.
  by rewrite R2, (ss_seq _ _ St).
Qed.

Lemma apply_fresh_request_ok n c request fp :
  core_ok n c -> 0 <= n < u32_max -> in_u64 (req_quantity request) ->
  stepped n c (Engine.apply_fresh_request c request fp []).
Proof.
  intros O Hn Hq. destruct (fresh_request_result n c request fp O Hn Hq)
    as (c' & evs & report & -> & [(c1 & m & accts & -> & P & M & [IO1 IO2] & Hre & R1 & R2 & _)]).
  pose proof (pg_static _ _ _ _ P) as [E0 E1 E2 E3 E4 E5 E6 E7 (N1 & N2 & N3 & N4 & N5 & N6)].
  pose proof (caches_reposed _ _ (pg_reposed _ _ _ _ P) (ok_cache _ _ O)) as Hc1.
  do 2 eexists. split; [done |]. simpl. split_and!; try done.
  - eapply (close_step n c c1); try done; simpl; try lia.
    + constructor; try done. by eapply recorded_in_retouched.
    + by eapply recorded_in_caches.
  - apply numbered_app; [apply P |]. apply numbered_singleton; simpl; [| done].
    rewrite R1, (pg_output _ _ _ _ P). lia.
  - rewrite length_app, (pg_output _ _ _ _ P). simpl. lia.
  - split; congruence.
Qed.

Lemma metrics_step_refl m : metrics_step m m.
Proof. constructor; lia. Qed.

Lemma stepped_report n c c' report :
  core_ok n c -> 0 <= n -> same_trading c c' ->
  metrics_step (tc_metrics c) (tc_metrics c') -> same_io (tc_metrics c) (tc_metrics c') ->
  (forall a ac, tc_accounts c' !! a = Some ac -> cache_inv (ac_cache ac)) ->
  tc_output_seq c' = tc_output_seq c + 1 -> tc_engine_seq c' = tc_engine_seq c ->
  tc_engine_time_ns c' = tc_engine_time_ns c ->
  OutputEvent.output_seq report = tc_output_seq c + 1 ->
  OutputEvent.engine_seq report = tc_engine_seq c ->
  stepped n c (Ret (c', [report])).
Proof.
  intros O Hn G M IO Hc Ho He Ht R1 R2. do 2 eexists. split; [done |]. split_and!; try done.
  - eapply (close_step n c c); try done; [| lia]. destruct O. by apply progress_refl.
  - by apply numbered_singleton.
Qed.

Lemma stepped_quiet n c c' :
  core_ok n c -> 0 <= n -> same_trading c c' ->
  metrics_step (tc_metrics c) (tc_metrics c') -> same_io (tc_metrics c) (tc_metrics c') ->
  (forall a ac, tc_accounts c' !! a = Some ac -> cache_inv (ac_cache ac)) ->
  tc_output_seq c' = tc_output_seq c -> tc_engine_seq c' = tc_engine_seq c ->
  tc_engine_time_ns c' = tc_engine_time_ns c ->
  stepped n c (Ret (c', [])).
Proof.
  intros O Hn G M IO Hc Ho He Ht. do 2 eexists. split; [done |]. split_and!; try done.
  - eapply (close_step n c c); try done; [| lia]. destruct O. by apply progress_refl.
  - simpl. lia.
Qed.

Lemma core_ok_output n c : core_ok n c -> 0 <= n <= u32_max -> 0 <= tc_output_seq c < 2 ^ 62.
Proof. intros [] Hn. mach. Qed.

Lemma apply_request_ok n c request :
  core_ok n c -> 0 <= n < u32_max -> in_u64 (req_quantity request) ->
  stepped n c (Engine.apply_request c request []).
Proof.
  intros O Hn Hq. unfold Engine.apply_request.
  destruct (tc_account_index c !! req_account request) as [a |] eqn:Ha;
    [| by apply apply_fresh_request_ok].
  apply (ti_index _ _ (ok_tinv _ _ O)) in Ha as (ac & Hac & _).
  rewrite (account_ok _ _ _ Hac). cbn [rbind].
  pose proof (core_ok_output n c O) as Ho.
  destruct (Cache.lookup _ _ _) as [[previous |] |]; [| | by apply apply_fresh_request_ok].
  - unfold Engine.retry_report. rewrite take_output_seq_ok by lia. simpl.
    apply stepped_report; try done; simpl; try lia; [| apply metrics_step_refl | apply O].
    by constructor; try done; apply retouched_refl.
  - destruct (reject_report_ok c request RejectReason.DuplicateRequestConflict)
      as (c1 & rep & -> & R); [lia |].
    pose proof (rd_state _ _ _ R) as Ec1.
    destruct (record_outcome_ok c1 a ac request (request_fingerprint request) rep)
      as (ac' & -> & Hre & Hca); [by rewrite Ec1 | by eapply ok_cache |].
    simpl. rewrite Ec1. destruct R as [_ R1 R2].
    apply stepped_report; try done; simpl; try lia.
    + constructor; try done. eapply retouched_insert; [done | apply Hre | apply Hre].
    + apply metrics_step_refl.
    + apply caches_insert; [apply O | done].
Qed.

(** * Market data *)

Lemma lv_market c c' i r v k :
  tc_instruments c !! i = Some r ->
  tc_instruments c' = <[i := ir_set_market r v]> (tc_instruments c) -> lv c' k = lv c k.
Proof.
  intros Hi E. unfold lv. rewrite E, list_lookup_insert. case_decide as Ek; [| done].
  destruct Ek as [<- _]. by rewrite Hi.
Qed.

Lemma market_core_ok n c i r v m o :
  core_ok n c -> 0 <= n -> tc_instruments c !! i = Some r ->
  market_inv v -> market_budget (n + 1) v -> same_domain (ir_market r) v ->
  metrics_step (tc_metrics c) m -> tc_output_seq c <= o <= tc_output_seq c + 1 ->
  core_ok (n + 1)
    (Core.set_output_seq (Core.set_instruments (Core.set_metrics c m)
       (<[i := ir_set_market r v]> (tc_instruments c))) o).
Proof.
  intros O Hn Hi Hv Hb (D1 & D2 & D3) [M1 M2 M3 M4 M5] Ho.
  set (c' := Core.set_output_seq _ o).
  pose proof (insts_ok_mono n (n + 1) c (ok_insts _ _ O)) as I.
  destruct O as [T _ II Hc Of Oor Opr Otr Op Oo Oa Or Ots Om Oc].
  constructor; simpl; try done; try lia.
  - apply (tinv_ext _ (lv c)). { intros k. symmetry. by eapply (lv_market c c'). }
    destruct T as [T1 T2 T3 T4 T5 T6]. constructor; try done. simpl. by rewrite length_insert.
  - intros k r'. simpl. rewrite list_lookup_insert. case_decide as Ek; [| apply I; lia].
    destruct Ek as [<- _]. intros [= <-].
    destruct (I ltac:(lia) _ _ Hi) as [? ? ? ? [? ?] ? ? ?]. constructor; try done. simpl.
    rewrite D1, D2. done.
  - intros id k Hk. destruct (II _ _ Hk) as (r0 & Hr0 & Hid). simpl.
    rewrite list_lookup_insert. case_decide as Ek; [| by eauto].
    destruct Ek as [<- _]. exists (ir_set_market r v). split; [done |]. simpl. congruence.
Qed.

Lemma bump_market_ok c :
  0 <= market_events (tc_metrics c) < u64_max ->
  exists m, Engine.bump_market c = Ret (Core.set_metrics c m)
    /\ metrics_step (tc_metrics c) m /\ same_io (tc_metrics c) m.
Proof.
  intros H. unfold Engine.bump_market. rewrite u64_plain_in by mach. simpl.
  eexists. split; [done |]. split; [constructor; simpl; lia | done].
Qed.

Lemma bump_control_ok c :
  0 <= control_events (tc_metrics c) < u64_max ->
  exists m, Engine.bump_control c = Ret (Core.set_metrics c m)
    /\ metrics_step (tc_metrics c) m /\ same_io (tc_metrics c) m.
Proof.
  intros H. unfold Engine.bump_control. rewrite u64_plain_in by mach. simpl.
  eexists. split; [done |]. split; [constructor; simpl; lia | done].
Qed.

Lemma set_output_id c : Core.set_output_seq c (tc_output_seq c) = c.
Proof. by destruct c. Qed.

Lemma apply_market_ok n c event :
  core_ok n c -> 0 <= n < u32_max -> market_kind_wf (me_kind event) ->
  stepped n c (Engine.apply_market c event []).
Proof.
  intros O Hn Hwf. unfold Engine.apply_market.
  destruct (bump_market_ok c) as (m & -> & M & IO); [destruct O; mach |]. cbn [rbind].
  cbn [tc_instrument_index Core.set_metrics].
  destruct (tc_instrument_index c !! me_instrument event) as [i |] eqn:Hi.
  2: { apply stepped_quiet; try done; [lia | | apply O].
       by constructor; try done; apply retouched_refl. }
  destruct (ok_index _ _ O _ _ Hi) as (r & Hr & _).
  destruct (ok_insts _ _ O _ _ Hr) as [_ _ _ Hmi _ Hmb _ _].
  set (c0 := Core.set_metrics c m).
  assert (Core.instrument c0 i = Ret r) as -> by (unfold Core.instrument, index; simpl; by rewrite Hr).
  cbn [rbind].
  destruct (apply_ok (ir_market r) n (me_source_seq event) (me_kind event)
              (tc_engine_time_ns c0) Hmi Hmb) as (v & u & -> & Hv & Hb & Hd & _); [lia | done |].
  cbn [rbind]. unfold Core.put_instrument, index_set. simpl. rewrite Hr. simpl.
  pose proof (core_ok_output n c O) as Ho. destruct IO as [IO1 IO2].
  destruct (state_changed u).
  - unfold Core.push_state. rewrite take_output_seq_ok by (simpl; lia). simpl.
    do 2 eexists. split; [done |]. simpl. split_and!; try done.
    + apply (market_core_ok n c); try done; lia.
    + by apply numbered_singleton.
  - do 2 eexists. split; [done |]. simpl. split_and!; try done; try lia.
    rewrite <- (set_output_id (Core.set_instruments c0 _)).
    apply (market_core_ok n c); try done; simpl; lia.
Qed.

(** * Control commands *)

Lemma apply_control_ok n c command :
  core_ok n c -> 0 <= n < u32_max -> stepped n c (Engine.apply_control c command []).
Proof.
  intros O Hn. unfold Engine.apply_control.
  destruct (bump_control_ok c) as (m & -> & M & IO); [destruct O; mach |]. cbn [rbind].
  set (c0 := Core.set_metrics c m). pose proof (core_ok_output n c O) as Ho.
  assert (Hq : stepped n c (Ret (c0, []))).
  { apply stepped_quiet; try done; [lia | | apply O].
    by constructor; try done; apply retouched_refl. }
  assert (Hacc : forall a i ac ac' e,
    tc_account_index c !! a = Some i -> tc_accounts c !! i = Some ac ->
    ac_id ac' = ac_id ac -> ac_positions ac' = ac_positions ac -> ac_cache ac' = ac_cache ac ->
    stepped n c (let! c := Core.put_account c0 i ac' in Ret (Core.push_state c e []))).
  { intros a i ac ac' e Ha Hac E1 E2 E3. rewrite (put_account_ok c0 i ac ac' Hac). cbn [rbind].
    unfold Core.push_state. rewrite take_output_seq_ok by (simpl; lia). simpl.
    apply stepped_report; try done; simpl; try lia.
    - constructor; try done. by eapply retouched_insert.
    - apply caches_insert; [apply O |]. rewrite E3. by eapply ok_cache. }
  destruct command as [engaged | account enabled | account limits].
  - destruct (Bool.eqb _ _); [exact Hq |].
    unfold Core.push_state. rewrite take_output_seq_ok by (simpl; lia). simpl.
    apply stepped_report; try done; simpl; try lia; [| apply O].
    by constructor; try done; apply retouched_refl.
  - change (tc_account_index c0) with (tc_account_index c).
    destruct (tc_account_index c !! account) as [i |] eqn:Ha; [| exact Hq].
    apply (ti_index _ _ (ok_tinv _ _ O)) in Ha as Hac. destruct Hac as (ac & Hac & _).
    rewrite (account_ok c0 i ac Hac). cbn [rbind]. destruct (Bool.eqb _ _); [exact Hq |].
    by eapply Hacc.
  - change (tc_account_index c0) with (tc_account_index c).
    destruct (tc_account_index c !! account) as [i |] eqn:Ha; [| exact Hq].
    apply (ti_index _ _ (ok_tinv _ _ O)) in Ha as Hac. destruct Hac as (ac & Hac & _).
    rewrite (account_ok c0 i ac Hac). cbn [rbind]. by eapply Hacc.
Qed.

End Apply.
