(* ===== verification/CoreRun.v ===== *)
(** Runs of the engine from its initial state. *)

From S2P Require Import Prelude Enums Ids Events BTree Slab Book BookData BookInv BookSpec Matching.
From S2P Require Import MatchSpec MatchProps BookTheorems Market MarketInv MarketTheorems Account.
From S2P Require Import AccountProps Config CoreState Risk Core CoreAcct CoreExec CoreInv CoreRest.
From S2P Require Import RiskProps CoreHandlers CoreApply.

(** The machine ranges of an input's fields. *)
Definition input_wf (i : EngineInput) : Prop :=
  match in_event i with
  | InputEvent.Market e => market_kind_wf (me_kind e)
  | InputEvent.Order r => request_wf r
  | InputEvent.Control _ => True
  end.

(** A configuration the engine is meant for: distinct ids, positive lot and
    tick sizes, machine prices. *)
Record config_wf (cfg : EngineConfig) : Prop := {
  cw_instruments : NoDup (map ic_id (ec_instruments cfg));
  cw_accounts : NoDup (map acfg_id (ec_accounts cfg));
  cw_instrument i : i ∈ ec_instruments cfg ->
    1 <= ic_lot_size i /\ 1 <= ic_tick_size i
    /\ i64_min <= ic_min_price_ticks i /\ ic_max_price_ticks i <= i64_max
}.

(** The indexes list the ids at their positions. *)
Lemma index_ids_lookup ids i (m : gmap Z nat) id a :
  NoDup ids -> (forall x, x ∈ ids -> m !! x = None) ->
  index_ids ids i m !! id = Some a <->
  m !! id = Some a \/ exists j, a = (i + j)%nat /\ ids !! j = Some id.
Proof.
  revert i m. induction ids as [| x ids IH]; intros i m Hnd Hm; simpl.
  { split; [by left |]. intros [? | (j & _ & Hj)]; [done |]. by rewrite lookup_nil in Hj. }
  apply NoDup_cons in Hnd as [Hx Hnd]. rewrite IH; [| done |].
  2: { intros y Hy. rewrite lookup_insert_ne; [apply Hm; set_solver |]. intros ->. done. }
  split.
  - intros [Hl | (j & -> & Hj)].
    + rewrite lookup_insert in Hl. case_decide as E; [| by left].
      injection Hl as <-. right. exists 0%nat. subst. split; [lia | done].
    + right. exists (Datatypes.S j). split; [lia | done].
  - intros [Hl | ([| j] & -> & Hj)].
    + left. rewrite lookup_insert_ne; [done |]. intros <-. rewrite Hm in Hl; [done | set_solver].
    + left. simpl in Hj. injection Hj as ->. rewrite lookup_insert_eq. f_equal. lia.
    + right. exists j. simpl in Hj. split; [lia | done].
Qed.

Section Run.
Context {S : Type} `{SL : Slab OrderNode S} `{!SlabLaws SL}.
Implicit Types (c : TradingCore S).

(** The invariant between inputs. *)
Record core_inv (c : TradingCore S) : Prop := {
  cv_ok : core_ok (tc_engine_seq c) c;
  cv_seq : 0 <= tc_engine_seq c;
  cv_inputs : 0 <= inputs_applied (tc_metrics c) <= tc_engine_seq c;
  cv_reports : 0 <= reports_emitted (tc_metrics c) <= tc_output_seq c
}.

(** The result of one input. *)
Record applied (c c' : TradingCore S) (input : EngineInput) (out : list OutputEvent.t) : Prop := {
  ap_inv : core_inv c';
  ap_seq : tc_engine_seq c' = tc_engine_seq c + 1;
  ap_time : tc_engine_time_ns c' = in_recv_time_ns input;
  ap_numbered : numbered (tc_engine_seq c + 1) (tc_output_seq c) out;
  ap_output : tc_output_seq c' = tc_output_seq c + Z.of_nat (length out)
}.

Lemma count_reports_le out : 0 <= Engine.count_reports out <= Z.of_nat (length out).
Proof.
  unfold Engine.count_reports. split; [lia |]. apply inj_le. apply List.filter_length_le.
Qed.

Lemma core_ok_start n c t m :
  core_ok n c -> metrics_step (tc_metrics c) m -> requests_accepted m = requests_accepted (tc_metrics c) ->
  requests_rejected m = requests_rejected (tc_metrics c) ->
  market_events m = market_events (tc_metrics c) ->
  control_events m = control_events (tc_metrics c) ->
  core_ok n (Core.set_metrics (Core.set_engine_time_ns (Core.set_engine_seq c (n + 1)) t) m).
Proof.
  intros O M E1 E2 E3 E4. pose proof (ms_trades _ _ M) as E5.
  destruct O. constructor; simpl; rewrite ?E1, ?E2, ?E3, ?E4, ?E5; try done.
  eapply tinv_same_trading; [done |]. by constructor; try done; apply retouched_refl.
Qed.

Lemma apply_input_ok c input :
  core_inv c -> tc_engine_seq c < u32_max -> input_wf input ->
  exists c' out, Engine.apply c input = Ret (c', out) /\ applied c c' input out.
Proof.
  intros [O Hs Hin Hrep] Hlt Hwf. unfold Engine.apply. rewrite (ok_fault _ _ O).
  rewrite next_small by mach.
  unfold Engine.bump_inputs. cbn [tc_metrics Core.set_engine_time_ns Core.set_engine_seq].
  rewrite u64_plain_in by mach. cbn [rbind].
  set (n := tc_engine_seq c) in *. set (c0 := Core.set_metrics _ _).
  assert (O0 : core_ok n c0) by (apply core_ok_start; try done; constructor; simpl; lia).
  assert (Hstep : stepped n c0
    (match in_event input with
     | InputEvent.Market event => Engine.apply_market c0 event []
     | InputEvent.Order request => Engine.apply_request c0 request []
     | InputEvent.Control command => Engine.apply_control c0 command []
     end)).
  { unfold input_wf in Hwf. destruct (in_event input) as [e | q | cmd].
    - apply apply_market_ok; done || lia.
    - apply apply_request_ok; [done | lia | apply Hwf].
    - apply apply_control_ok; done || lia. }
  destruct Hstep as (c1 & out & -> & O1 & Hnum & Ho & He & Ht & [Hi Hr]). cbn [rbind].
  pose proof (count_reports_le out) as Hcnt. simpl in Hnum, Ho, He, Ht, Hi, Hr.
  pose proof (core_ok_output _ _ O1 ltac:(lia)) as Hout.
  unfold Engine.bump_reports. rewrite u64_plain_in by mach. cbn [rbind].
  do 2 eexists. split; [done |]. constructor; simpl; try done; try lia.
  constructor; simpl; try lia. rewrite He.
  destruct O1. constructor; simpl; try done.
  eapply tinv_same_trading; [done |]. by constructor; try done; apply retouched_refl.
Qed.

(** * The initial state *)

Lemma new_lv cfg k : lv (Core.new (S := S) cfg) k = ∅.
Proof.
  unfold lv, Core.new. simpl.
  destruct (map (Core.new_runtime cfg) (ec_instruments cfg) !! k) as [r |] eqn:E; [| done].
  apply list_lookup_fmap_Some in E as (i & -> & _). simpl.
  apply map_eq. intros id. rewrite lookup_empty. unfold live. rewrite lookup_omap.
  unfold Book.with_capacity. simpl. by rewrite lookup_empty.
Qed.

Lemma new_accounts cfg a ac :
  tc_accounts (Core.new (S := S) cfg) !! a = Some ac ->
  exists acfg, ec_accounts cfg !! a = Some acfg /\ ac_id ac = acfg_id acfg
    /\ ac_positions ac = replicate (length (ec_instruments cfg)) position_default
    /\ cache_inv (ac_cache ac).
Proof.
  unfold Core.new. simpl. intros (acfg & -> & Ha)%list_lookup_fmap_Some.
  exists acfg. simpl. rewrite length_map. split_and!; try done. apply new_cache_inv.
Qed.

Lemma pos_ok_empty id : pos_ok id ∅ position_default.
Proof.
  constructor.
  1, 2: intros []; by rewrite msum_empty.
  1, 2: simpl; mach.
  all: intros []; simpl; mach.
Qed.

Lemma new_core_inv cfg : config_wf cfg -> core_inv (Core.new (S := S) cfg).
Proof.
  intros [W1 W2 W3].
  assert (Hix : index_inv (tc_accounts (Core.new (S := S) cfg))
                  (tc_account_index (Core.new (S := S) cfg))).
  { intros id a. unfold Core.new. simpl. rewrite index_ids_lookup.
    - rewrite lookup_empty. rewrite map_map. split.
      + intros [? | (j & -> & Hj)]; [done |].
        apply list_lookup_fmap_Some in Hj as (acfg & -> & Hj).
        eexists. split; [apply list_lookup_fmap_Some; eauto | done].
      + intros (ac & Ha & <-). right. exists a. split; [done |].
        apply list_lookup_fmap_Some in Ha as (acfg & -> & Ha).
        apply list_lookup_fmap_Some. eauto.
    - by rewrite map_map.
    - intros x _. apply lookup_empty. }
  constructor; try (simpl; lia). constructor; simpl; try lia; try done.
  - constructor; try done.
    + constructor.
      1, 2: intros k id x; by rewrite new_lv, lookup_empty.
      * intros id l. split; [simpl; by rewrite lookup_empty |].
        intros (x & Hx & _). by rewrite new_lv, lookup_empty in Hx.
      * intros key id. split; [simpl; by rewrite lookup_empty |].
        intros (k & x & Hx & _). by rewrite new_lv, lookup_empty in Hx.
    + intros a k ac p Ha Hp. rewrite new_lv.
      apply new_accounts in Ha as (acfg & _ & _ & Hps & _). rewrite Hps in Hp.
      apply lookup_replicate in Hp as [-> _]. apply pos_ok_empty.
    + intros a ac Ha. apply new_accounts in Ha as (acfg & _ & _ & -> & _).
      rewrite length_replicate. simpl. by rewrite length_map.
    + intros k id x. by rewrite new_lv, lookup_empty.
    + intros k. apply lsum_zero. intros ac [a Ha]%list_elem_of_lookup.
      apply new_accounts in Ha as (acfg & _ & _ & Hps & _). unfold lots_at. rewrite Hps.
      destruct (replicate _ _ !! k) as [p |] eqn:Hp; [| done].
      by apply lookup_replicate in Hp as [-> _].
  - intros k r. simpl. intros (i & -> & Hi)%list_lookup_fmap_Some.
    destruct (W3 i) as (? & ? & ? & ?); [by eapply list_elem_of_lookup_2 |].
    constructor; simpl; try done.
    + apply new_inv.
    + apply with_capacity_wf.
  - intros id k. unfold Core.new. simpl. rewrite map_map. rewrite index_ids_lookup; [| done |].
    2: { intros x _. apply lookup_empty. }
    rewrite lookup_empty. intros [? | (j & -> & Hj)]; [done |].
    apply list_lookup_fmap_Some in Hj as (i & -> & Hi).
    eexists. split; [apply list_lookup_fmap_Some; eauto | done].
  - intros a ac Ha. by apply (new_accounts cfg) in Ha as (_ & _ & _ & _ & ?).
Qed.

(** * Runs *)

(** The inputs applied in order, with the outputs of all of them. *)
Fixpoint engine_run (c : TradingCore S) (inputs : list EngineInput)
  : res (TradingCore S * list OutputEvent.t) :=
  match inputs with
  | [] => Ret (c, [])
  | i :: inputs =>
      let! (c, out) := Engine.apply c i in
      let! (c, rest) := engine_run c inputs in
      Ret (c, out ++ rest)
  end.

(** Events numbered from [s + 1] on, of inputs [e + 1] to [e']. *)
Definition numbered_run (e e' s : Z) (evs : list OutputEvent.t) : Prop :=
  (forall i ev, evs !! i = Some ev ->
     OutputEvent.output_seq ev = s + 1 + Z.of_nat i /\ e < OutputEvent.engine_seq ev <= e')
  /\ (forall i j ev ev', (i <= j)%nat -> evs !! i = Some ev -> evs !! j = Some ev' ->
        OutputEvent.engine_seq ev <= OutputEvent.engine_seq ev').

Lemma numbered_run_app e e' s evs1 evs2 :
  numbered (e + 1) s evs1 -> e < e' -> numbered_run (e + 1) e' (s + Z.of_nat (length evs1)) evs2 ->
  numbered_run e e' s (evs1 ++ evs2).
Proof.
  intros H1 He [H2 H3].
  assert (H1' : forall i ev, evs1 !! i = Some ev -> OutputEvent.engine_seq ev = e + 1)
    by (intros i ev Hi; apply (H1 _ _ Hi)).
  split.
  - intros i ev. rewrite lookup_app. destruct (evs1 !! i) as [ev1 |] eqn:E.
    + intros [= <-]. destruct (H1 _ _ E) as [-> ->]. lia.
    + intros Hi. apply lookup_ge_None in E. destruct (H2 _ _ Hi) as [-> ?]. lia.
  - intros i j ev ev' Hij. rewrite !lookup_app.
    destruct (evs1 !! i) as [e1 |] eqn:Ei; destruct (evs1 !! j) as [e2 |] eqn:Ej.
    + intros [= <-] [= <-]. rewrite (H1' _ _ Ei), (H1' _ _ Ej). lia.
    + intros [= <-] Hj. rewrite (H1' _ _ Ei). apply H2 in Hj. lia.
    + apply lookup_ge_None in Ei. apply lookup_lt_Some in Ej. lia.
    + intros Hi Hj. apply lookup_ge_None in Ei, Ej. eapply H3; [| exact Hi | exact Hj]. lia.
Qed.

Lemma engine_run_ok c inputs :
  core_inv c -> tc_engine_seq c + Z.of_nat (length inputs) <= u32_max -> Forall input_wf inputs ->
  exists c' out, engine_run c inputs = Ret (c', out) /\ core_inv c'
    /\ tc_engine_seq c' = tc_engine_seq c + Z.of_nat (length inputs)
    /\ numbered_run (tc_engine_seq c) (tc_engine_seq c') (tc_output_seq c) out
    /\ tc_output_seq c' = tc_output_seq c + Z.of_nat (length out).
Proof.
  revert c. induction inputs as [| i inputs IH]; intros c I Hn Hwf; simpl.
  - exists c, []. split_and!; simpl; try done; lia.
  - apply Forall_cons in Hwf as [Hi Hwf]. simpl in Hn.
    destruct (apply_input_ok c i I) as (c1 & out & -> & [I1 S1 _ N1 O1]); [lia | done |].
    cbn [rbind].
    destruct (IH c1 I1) as (c' & rest & -> & I' & S' & N' & O'); [lia | done |]. cbn [rbind].
    exists c', (out ++ rest). rewrite length_app. split_and!; try done; try lia.
    rewrite S1, O1 in *. apply numbered_run_app; [done | lia | done].
Qed.

Lemma engine_run_new cfg inputs :
  config_wf cfg -> Z.of_nat (length inputs) < 2 ^ 32 -> Forall input_wf inputs ->
  exists c' out, engine_run (Core.new cfg) inputs = Ret (c', out) /\ core_inv c'
    /\ tc_engine_seq c' = Z.of_nat (length inputs)
    /\ numbered_run 0 (tc_engine_seq c') 0 out
    /\ tc_output_seq c' = Z.of_nat (length out).
Proof.
  intros W Hn Hwf. destruct (engine_run_ok (Core.new cfg) inputs (new_core_inv cfg W))
    as (c' & out & E & I & H1 & H2 & H3); [simpl; mach | done |]. eauto 10.
Qed.

End Run.
