(* ===== verification/CoreTheorems.v ===== *)
(** A concrete run of the engine, and what holds over every run: no fault, dense
    outputs, exact reservations, positions that sum to zero, books that are never
    crossed and exact order maps. *)

From S2P Require Import Prelude Enums Ids Events BTree Slab Book Matching BookData BookInv BookCheck.
From S2P Require Import BookSpec MatchSpec MatchProps BookTheorems Market MarketInv MarketTheorems.
From S2P Require Import Account AccountProps Config CoreState Risk Core CoreAcct CoreExec CoreInv.
From S2P Require Import CoreRest RiskProps CoreHandlers CoreApply CoreRun.

Abbreviation map_core := (TradingCore (gmap nat OrderNode)) (only parsing).

Definition sample_config : EngineConfig := single_instrument 1.

Definition order_input (time : Z) (r : OrderRequest) : EngineInput :=
  mkEngineInput 0 time (InputEvent.Order r).

Definition market_input (seq time : Z) (kind : MarketEventKind.t) : EngineInput :=
  mkEngineInput 0 time (InputEvent.Market (mkMarketEvent 1 seq 0 kind)).

Definition limit_order (account request_id client_id seq : Z) (side : Side.t) (price quantity : Z)
  : OrderRequest :=
  mkOrderRequest RequestKind.New account 1 request_id seq client_id 0 side OrderType.Limit price
    quantity.

Definition cancel_order (account request_id target : Z) : OrderRequest :=
  mkOrderRequest RequestKind.Cancel account 1 request_id 1 0 target Side.Buy OrderType.Limit 0 0.

(** A snapshot makes the feed live; account 1 rests an ask of 20 at 100, and
    account 2 buys 5 of it. *)
Definition sample_inputs : list EngineInput :=
  [ market_input 1 10 (MarketEventKind.SnapshotBegin 1);
    market_input 2 11 (MarketEventKind.SnapshotLevel Side.Buy 99 10);
    market_input 3 12 (MarketEventKind.SnapshotLevel Side.Sell 101 10);
    market_input 4 13 (MarketEventKind.SnapshotEnd 1 2);
    order_input 20 (limit_order 1 1 1 1 Side.Sell 100 20);
    order_input 21 (limit_order 2 1 1 1 Side.Buy 100 5) ].

Lemma sample_config_wf : config_wf sample_config.
Proof.
  constructor; simpl.
  - apply NoDup_singleton.
  - repeat constructor; set_solver.
  - intros i ->%list_elem_of_singleton. simpl. lia.
Qed.

Lemma limit_order_wf account request_id client_id seq side price quantity :
  in_u32 account -> in_u64 request_id -> in_u64 client_id -> in_u64 seq -> in_i64 price ->
  in_u64 quantity -> request_wf (limit_order account request_id client_id seq side price quantity).
Proof. intros. constructor; simpl; done || mach. Qed.

Lemma sample_inputs_wf : Forall input_wf sample_inputs.
Proof. repeat constructor; simpl; mach. Qed.

(** The state after the first [k] inputs. *)
Definition sample_state (k : nat) : map_core :=
  match engine_run (Core.new sample_config) (take k sample_inputs) with
  | Ret (c, _) => c
  | Panic => Core.new sample_config
  end.

Lemma sample_state_inv k : core_inv (sample_state k).
Proof.
  unfold sample_state.
  destruct (engine_run_ok (S := gmap nat OrderNode) (Core.new sample_config)
              (take k sample_inputs) (new_core_inv _ sample_config_wf))
    as (c & out & -> & I & _); [| | done].
  - rewrite length_take. simpl. mach.
  - apply Forall_take, sample_inputs_wf.
Qed.

Section Theorems.
Context {S : Type} `{SL : Slab OrderNode S} `{!SlabLaws SL}.
Implicit Types (c : TradingCore S).

(** The best prices are prices of live orders. *)
Lemma best_live b A side price l :
  repr b A -> BTree.get price (Book.side_levels b side) = Some l ->
  exists id x, live b !! id = Some x /\ no_side x = side /\ no_price x = price.
Proof.
  intros R Hg. pose proof (repr_level b A side price R) as Hl. rewrite Hg in Hl.
  destruct Hl as [Hne _]. destruct (A side price) as [| x xs] eqn:E; [done |].
  assert (Hx : x ∈ A side price) by (rewrite E; set_solver).
  eapply repr_elem in Hx as (? & ? & ?); [| done]. eauto.
Qed.

Lemma uncrossed_verdict b :
  book_wf b -> uncrossed_live (live b) -> Book.check_invariants b = Ret (Ok tt).
Proof.
  intros W U. rewrite (check_invariants_wf b W). destruct W as [[A R] _]. unfold crossing_verdict.
  destruct (Book.best_bid b) as [[bid lb] |] eqn:Eb; [| done].
  destruct (Book.best_ask b) as [[ask la] |] eqn:Ea; [| done].
  apply BTree.last_get in Eb; [| apply (repr_sorted b A Side.Buy R)].
  apply BTree.first_get in Ea.
  destruct (best_live b A Side.Buy bid lb R Eb) as (i & x & Hx & Sx & <-).
  destruct (best_live b A Side.Sell ask la R Ea) as (j & y & Hy & Sy & <-).
  pose proof (U _ _ _ _ Hx Hy Sx Sy). by destruct (Z.leb_spec (no_price y) (no_price x)); [lia |].
Qed.

(** * Whole runs *)

(** C6: the engine is total.  From the initial state of a well-formed
    configuration, every sequence of fewer than [2^32] inputs runs to the end:
    no handler panics, no fault is raised (the [Accounting] fault in
    particular is unreachable), and every input has been numbered. *)
Theorem engine_never_faults (cfg : EngineConfig) (inputs : list EngineInput)
    (Hcfg : config_wf cfg) (Hlen : Z.of_nat (length inputs) < 2 ^ 32)
    (Hwf : Forall input_wf inputs) :
  exists (c : TradingCore S) out,
    engine_run (Core.new cfg) inputs = Ret (c, out)
    /\ tc_fault c = None /\ tc_engine_seq c = Z.of_nat (length inputs).
Proof.
  destruct (engine_run_new cfg inputs Hcfg Hlen Hwf) as (c & out & E & I & Hs & _).
  exists c, out. split_and!; try done. apply (ok_fault _ _ (cv_ok _ I)).
Qed.

(** output sequence numbers are dense and ordered.  The [i]-th event of a
    whole run carries output sequence [i + 1], names the input that produced
    it, and the inputs named never go back. *)
Theorem outputs_dense (cfg : EngineConfig) (inputs : list EngineInput)
    (Hcfg : config_wf cfg) (Hlen : Z.of_nat (length inputs) < 2 ^ 32)
    (Hwf : Forall input_wf inputs) :
  exists (c : TradingCore S) out,
    engine_run (Core.new cfg) inputs = Ret (c, out)
    /\ tc_output_seq c = Z.of_nat (length out)
    /\ (forall i ev, out !! i = Some ev ->
          OutputEvent.output_seq ev = 1 + Z.of_nat i
          /\ 0 < OutputEvent.engine_seq ev <= Z.of_nat (length inputs))
    /\ (forall i j ev ev', (i <= j)%nat -> out !! i = Some ev -> out !! j = Some ev' ->
          OutputEvent.engine_seq ev <= OutputEvent.engine_seq ev').
Proof.
  destruct (engine_run_new cfg inputs Hcfg Hlen Hwf) as (c & out & E & I & Hs & [N1 N2] & Ho).
  exists c, out. rewrite Hs in N1. by split_and!.
Qed.

(** C8: reservations are exactly the working orders.  After any run, the open
    lots and the open notional of every account, instrument and side are the
    sums of the remaining quantity and remaining notional of that account's
    resting orders, and filling all of them keeps the position in [i64]. *)
Theorem reservations_match_live_orders (cfg : EngineConfig) (inputs : list EngineInput)
    (Hcfg : config_wf cfg) (Hlen : Z.of_nat (length inputs) < 2 ^ 32)
    (Hwf : Forall input_wf inputs) :
  exists (c : TradingCore S) out,
    engine_run (Core.new cfg) inputs = Ret (c, out)
    /\ forall a k ac p side,
         tc_accounts c !! a = Some ac -> ac_positions ac !! k = Some p ->
         Position.open_lots p side = msum (rsv_lots (ac_id ac) side) (lv c k)
         /\ Position.open_notional p side = msum (rsv_notional (ac_id ac) side) (lv c k)
         /\ position_lots p + open_buy_lots p <= i64_max
         /\ i64_min <= position_lots p - open_sell_lots p.
Proof.
  destruct (engine_run_new cfg inputs Hcfg Hlen Hwf) as (c & out & E & I & _).
  exists c, out. split; [done |]. intros a k ac p side Ha Hp.
  destruct (ti_pos _ _ (ok_tinv _ _ (cv_ok _ I)) _ _ _ _ Ha Hp). by split_and!.
Qed.

(** C9: positions are zero-sum.  After any run, the positions of all accounts
    in an instrument add up to zero. *)
Theorem positions_zero_sum (cfg : EngineConfig) (inputs : list EngineInput)
    (Hcfg : config_wf cfg) (Hlen : Z.of_nat (length inputs) < 2 ^ 32)
    (Hwf : Forall input_wf inputs) :
  exists (c : TradingCore S) out,
    engine_run (Core.new cfg) inputs = Ret (c, out)
    /\ forall k, total_position (tc_accounts c) k = 0.
Proof.
  destruct (engine_run_new cfg inputs Hcfg Hlen Hwf) as (c & out & E & I & _).
  exists c, out. split; [done |]. apply (ti_total _ _ (ok_tinv _ _ (cv_ok _ I))).
Qed.

(** the books are never crossed.  After any run, [check_invariants] of
    every book succeeds: the links, the aggregates and the index agree, and
    the best bid is below the best ask. *)
Theorem books_pass_invariants (cfg : EngineConfig) (inputs : list EngineInput)
    (Hcfg : config_wf cfg) (Hlen : Z.of_nat (length inputs) < 2 ^ 32)
    (Hwf : Forall input_wf inputs) :
  exists (c : TradingCore S) out,
    engine_run (Core.new cfg) inputs = Ret (c, out)
    /\ forall k r, tc_instruments c !! k = Some r -> Book.check_invariants (ir_book r) = Ret (Ok tt).
Proof.
  destruct (engine_run_new cfg inputs Hcfg Hlen Hwf) as (c & out & E & I & _).
  exists c, out. split; [done |]. intros k r Hk.
  destruct (ok_insts _ _ (cv_ok _ I) _ _ Hk). by apply uncrossed_verdict.
Qed.

(** the order maps are exact.  After any run, the live-order map lists
    precisely the orders resting in the books, with their account and
    instrument, and the client-order map lists precisely their
    (account, client order id) pairs. *)
Theorem order_maps_exact (cfg : EngineConfig) (inputs : list EngineInput)
    (Hcfg : config_wf cfg) (Hlen : Z.of_nat (length inputs) < 2 ^ 32)
    (Hwf : Forall input_wf inputs) :
  exists (c : TradingCore S) out,
    engine_run (Core.new cfg) inputs = Ret (c, out)
    /\ (forall id l, tc_live_orders c !! id = Some l <->
          exists x, lv c (lo_instrument_index l) !! id = Some x
            /\ tc_account_index c !! no_account x = Some (lo_account_index l))
    /\ (forall key id, tc_client_orders c !! key = Some id <->
          exists k x, lv c k !! id = Some x /\ key = (no_account x, no_client_order_id x)).
Proof.
  destruct (engine_run_new cfg inputs Hcfg Hlen Hwf) as (c & out & E & I & _).
  exists c, out. destruct (ti_maps _ _ (ok_tinv _ _ (cv_ok _ I))). by split_and!.
Qed.

End Theorems.

(** * Witnesses *)

Lemma engine_never_faults_witness :
  exists (c : map_core) out,
    engine_run (Core.new sample_config) sample_inputs = Ret (c, out)
    /\ tc_fault c = None /\ tc_engine_seq c = 6.
Proof.
  apply (engine_never_faults sample_config sample_inputs sample_config_wf);
    [reflexivity | apply sample_inputs_wf].
Defined.

Lemma outputs_dense_witness :
  exists (c : map_core) out,
    engine_run (Core.new sample_config) sample_inputs = Ret (c, out)
    /\ tc_output_seq c = Z.of_nat (length out)
    /\ (forall i ev, out !! i = Some ev ->
          OutputEvent.output_seq ev = 1 + Z.of_nat i
          /\ 0 < OutputEvent.engine_seq ev <= Z.of_nat (length sample_inputs))
    /\ (forall i j ev ev', (i <= j)%nat -> out !! i = Some ev -> out !! j = Some ev' ->
          OutputEvent.engine_seq ev <= OutputEvent.engine_seq ev').
Proof.
  apply (outputs_dense sample_config sample_inputs sample_config_wf);
    [reflexivity | apply sample_inputs_wf].
Defined.

Lemma reservations_match_live_orders_witness :
  exists (c : map_core) out,
    engine_run (Core.new sample_config) sample_inputs = Ret (c, out)
    /\ forall a k ac p side,
         tc_accounts c !! a = Some ac -> ac_positions ac !! k = Some p ->
         Position.open_lots p side = msum (rsv_lots (ac_id ac) side) (lv c k)
         /\ Position.open_notional p side = msum (rsv_notional (ac_id ac) side) (lv c k)
         /\ position_lots p + open_buy_lots p <= i64_max
         /\ i64_min <= position_lots p - open_sell_lots p.
Proof.
  apply (reservations_match_live_orders sample_config sample_inputs sample_config_wf);
    [reflexivity | apply sample_inputs_wf].
Defined.

Lemma positions_zero_sum_witness :
  exists (c : map_core) out,
    engine_run (Core.new sample_config) sample_inputs = Ret (c, out)
    /\ forall k, total_position (tc_accounts c) k = 0.
Proof.
  apply (positions_zero_sum sample_config sample_inputs sample_config_wf);
    [reflexivity | apply sample_inputs_wf].
Defined.

Lemma books_pass_invariants_witness :
  exists (c : map_core) out,
    engine_run (Core.new sample_config) sample_inputs = Ret (c, out)
    /\ forall k r, tc_instruments c !! k = Some r -> Book.check_invariants (ir_book r) = Ret (Ok tt).
Proof.
  apply (books_pass_invariants sample_config sample_inputs sample_config_wf);
    [reflexivity | apply sample_inputs_wf].
Defined.

Lemma order_maps_exact_witness :
  exists (c : map_core) out,
    engine_run (Core.new sample_config) sample_inputs = Ret (c, out)
    /\ (forall id l, tc_live_orders c !! id = Some l <->
          exists x, lv c (lo_instrument_index l) !! id = Some x
            /\ tc_account_index c !! no_account x = Some (lo_account_index l))
    /\ (forall key id, tc_client_orders c !! key = Some id <->
          exists k x, lv c k !! id = Some x /\ key = (no_account x, no_client_order_id x)).
Proof.
  apply (order_maps_exact sample_config sample_inputs sample_config_wf);
    [reflexivity | apply sample_inputs_wf].
Defined.
