(* ===== verification/CoreRequests.v ===== *)
(** Requests, input by input: rejections, retries, the kill switch, cancels
    and what an admitted order does; and, on concrete runs, behaviours of the
    engine that differ from what its documentation suggests. *)

From S2P Require Import Prelude Enums Ids Events BTree Slab Book Matching BookData BookInv BookCheck.
From S2P Require Import BookSpec MatchSpec MatchProps BookTheorems Market MarketInv MarketTheorems.
From S2P Require Import Account AccountProps Config CoreState Risk Core CoreAcct CoreExec CoreInv.
From S2P Require Import CoreRest RiskProps CoreHandlers CoreApply CoreRun CoreTheorems.

(** An account but its request window. *)
Definition account_core (ac : AccountState)
  : AccountId * bool * AccountLimits * Z * list InstrumentPosition :=
  (ac_id ac, ac_enabled ac, ac_limits ac, ac_last_client_seq ac, ac_positions ac).

(** The report with another number and time. *)
Definition renumbered (r : ExecutionReport) (output_seq engine_seq time : Z) : ExecutionReport :=
  mkExecutionReport output_seq engine_seq time (rep_account r) (rep_instrument r)
    (rep_request_id r) (rep_client_order_id r) (rep_order_id r) (rep_kind r) (rep_state r)
    (rep_side r) (rep_order_type r) (rep_price r) (rep_total_quantity r)
    (rep_cumulative_filled r) (rep_remaining r) (rep_last_fill_quantity r)
    (rep_last_fill_price r) (rep_reject_reason r).

Section Requests.
Context {S : Type} `{SL : Slab OrderNode S} `{!SlabLaws SL}.
Implicit Types (c : TradingCore S).

(** Nothing that decides a later request has changed, the request windows
    apart. *)
Record untouched (c c' : TradingCore S) : Prop := {
  un_instruments : tc_instruments c' = tc_instruments c;
  un_live : tc_live_orders c' = tc_live_orders c;
  un_client : tc_client_orders c' = tc_client_orders c;
  un_order : tc_next_order_id c' = tc_next_order_id c;
  un_trade : tc_next_trade_id c' = tc_next_trade_id c;
  un_priority : tc_next_priority c' = tc_next_priority c;
  un_kill : tc_global_kill c' = tc_global_kill c;
  un_accounts : account_core <$> tc_accounts c' = account_core <$> tc_accounts c
}.

(** The state an event starts from. *)
Definition started (c : TradingCore S) (input : EngineInput) : TradingCore S :=
  let m := tc_metrics c in
  Core.set_metrics
    (Core.set_engine_time_ns (Core.set_engine_seq c (tc_engine_seq c + 1)) (in_recv_time_ns input))
    (mkEngineMetrics (inputs_applied m + 1) (requests_accepted m) (requests_rejected m)
       (reports_emitted m) (trades m) (market_events m) (control_events m)).

Lemma started_ok c input : core_inv c -> core_ok (tc_engine_seq c) (started c input).
Proof. intros [O _ _ _]. apply core_ok_start; try done. constructor; simpl; lia. Qed.

(** [apply] on a request, as [apply_request] on the started state. *)
Lemma apply_order c input request c1 out :
  core_inv c -> tc_engine_seq c < u32_max -> in_event input = InputEvent.Order request ->
  in_u64 (req_quantity request) ->
  Engine.apply_request (started c input) request [] = Ret (c1, out) ->
  exists m, Engine.apply c input = Ret (Core.set_metrics c1 m, out).
Proof.
  intros I Hlt Hin Hq E. pose proof I as [O Hs Hi Hr].
  pose proof (apply_request_ok _ _ request (started_ok c input I) ltac:(lia) Hq)
    as (c2 & out2 & E2 & O2 & _ & Ho & _ & _ & [Hio1 Hio2]).
  rewrite E in E2. injection E2 as <- <-.
  unfold Engine.apply. rewrite (ok_fault _ _ O), next_small by mach.
  unfold Engine.bump_inputs. cbn [tc_metrics Core.set_engine_time_ns Core.set_engine_seq].
  rewrite u64_plain_in by mach. cbn [rbind]. fold (started c input). rewrite Hin, E. cbn [rbind].
  pose proof (count_reports_le out) as Hcnt. simpl in Ho, Hio2.
  pose proof (core_ok_output _ _ O2 ltac:(lia)) as Hout.
  unfold Engine.bump_reports. rewrite u64_plain_in by mach. cbn [rbind]. eauto.
Qed.

(** How [apply_request] answers. *)
Inductive answered (n : Z) (c : TradingCore S) (request : OrderRequest)
  : TradingCore S -> list OutputEvent.t -> ExecutionReport -> Prop :=
| answered_retry a ac previous :
    tc_account_index c !! req_account request = Some a -> tc_accounts c !! a = Some ac ->
    Cache.lookup (ac_cache ac) (req_request_id request) (request_fingerprint request)
    = Some (Retry previous) ->
    answered n c request (Core.set_output_seq c (tc_output_seq c + 1)) []
      (renumbered previous (tc_output_seq c + 1) (tc_engine_seq c) (tc_engine_time_ns c))
| answered_conflict a ac ac' report :
    tc_account_index c !! req_account request = Some a -> tc_accounts c !! a = Some ac ->
    Cache.lookup (ac_cache ac) (req_request_id request) (request_fingerprint request)
    = Some Conflict ->
    recorded request (request_fingerprint request) report ac ac' -> cache_inv (ac_cache ac') ->
    rep_reject_reason report = Some RejectReason.DuplicateRequestConflict ->
    answered n c request
      (Core.set_accounts (Core.set_output_seq c (tc_output_seq c + 1))
         (<[a := ac']> (tc_accounts c))) [] report
| answered_fresh c' evs report :
    (forall a ac, tc_account_index c !! req_account request = Some a ->
       tc_accounts c !! a = Some ac ->
       Cache.lookup (ac_cache ac) (req_request_id request) (request_fingerprint request) = None) ->
    Engine.apply_fresh_request c request (request_fingerprint request) []
    = Ret (c', evs ++ [OutputEvent.Report report]) ->
    fresh_result n c request (request_fingerprint request) c' evs report ->
    answered n c request c' evs report.

Lemma apply_request_answered n c request :
  core_ok n c -> 0 <= n < u32_max -> in_u64 (req_quantity request) ->
  exists c' evs report,
    Engine.apply_request c request [] = Ret (c', evs ++ [OutputEvent.Report report])
    /\ answered n c request c' evs report.
Proof.
  intros O Hn Hq. unfold Engine.apply_request.
  destruct (fresh_request_result n c request (request_fingerprint request) O Hn Hq)
    as (c1 & evs & report & E & F).
  destruct (tc_account_index c !! req_account request) as [a |] eqn:Ha.
  2: { exists c1, evs, report. split; [done |]. apply answered_fresh; try done.
       intros a ac. by rewrite Ha. }
  apply (ti_index _ _ (ok_tinv _ _ O)) in Ha as Hac. destruct Hac as (ac & Hac & _).
  rewrite (account_ok _ _ _ Hac). cbn [rbind]. pose proof (core_ok_output n c O) as Ho.
  destruct (Cache.lookup _ _ _) as [[previous |] |] eqn:El.
  - unfold Engine.retry_report. rewrite take_output_seq_ok by lia.
    exists (Core.set_output_seq c (tc_output_seq c + 1)), [],
      (renumbered previous (tc_output_seq c + 1) (tc_engine_seq c) (tc_engine_time_ns c)).
    split; [done |]. by eapply answered_retry.
  - destruct (reject_report_ok c request RejectReason.DuplicateRequestConflict)
      as (c2 & rep & Er & R); [lia |].
    assert (Hrej : rep_reject_reason rep = Some RejectReason.DuplicateRequestConflict).
    { unfold Core.reject_report in Er. destruct (Core.base_report c request 0).
      by injection Er as _ <-. }
    rewrite Er. pose proof (rd_state _ _ _ R) as ->.
    destruct (record_outcome_ok (Core.set_output_seq c (tc_output_seq c + 1)) a ac request
                (request_fingerprint request) rep) as (ac' & -> & Hre & Hca);
      [done | by eapply ok_cache |].
    exists (Core.set_accounts (Core.set_output_seq c (tc_output_seq c + 1))
              (<[a := ac']> (tc_accounts c))), [], rep. split; [done |].
    by eapply answered_conflict.
  - exists c1, evs, report. split; [done |]. apply answered_fresh; try done.
    intros a' ac1. rewrite Ha. intros [= <-]. rewrite Hac. by intros [= <-].
Qed.

Lemma account_core_insert (accts : list AccountState) a ac ac' :
  accts !! a = Some ac -> account_core ac' = account_core ac ->
  account_core <$> <[a := ac']> accts = account_core <$> accts.
Proof.
  intros Ha E. apply list_eq. intros i. rewrite !list_lookup_fmap, list_lookup_insert.
  case_decide as Ei; [| done]. destruct Ei as [<- _]. rewrite Ha. simpl. by rewrite E.
Qed.

(** An outcome that was rejected leaves the account's state alone. *)
Lemma recorded_rejected request fp report ac ac' :
  recorded request fp report ac ac' -> rep_reject_reason report <> None ->
  account_core ac' = account_core ac.
Proof.
  intros [E1 E2 E3 E4 _ E5] Hr. unfold account_core.
  rewrite bool_decide_eq_false_2 in E5 by done. simpl in E5. congruence.
Qed.

Lemma answered_rejected n c request c' evs report :
  answered n c request c' evs report -> rep_reject_reason report <> None ->
  evs = [] /\ untouched c c'.
Proof.
  intros [a ac previous Ha Hac Hl | a ac ac' rep Ha Hac Hc Hre Hca Hrej | c1 ev rep Hno E F] Hr.
  - split; [done |]. by constructor.
  - split; [done |]. constructor; try done. simpl. eapply account_core_insert; [done |].
    by eapply recorded_rejected.
  - destruct F as [(c0 & m & accts & -> & P & _ & _ & Hre & _ & _ & [? | [-> ->]])]; [done |].
    split; [done |]. constructor; try done. simpl. unfold recorded_in in Hre.
    destruct (tc_account_index c !! req_account request) as [a |]; [| by rewrite Hre].
    destruct Hre as (ac & ac' & Hac & -> & Hre & _). eapply account_core_insert; [done |].
    by eapply recorded_rejected.
Qed.

Lemma untouched_start c c1 input m :
  untouched (started c input) c1 -> untouched c (Core.set_metrics c1 m).
Proof. intros []. by constructor. Qed.

(** C10: a rejected request changes nothing.  Whatever the state between two
    inputs, a request input ends in exactly one final report, and when that
    report is a rejection it is the only output and the books, the order maps,
    the counters, the positions, the limits and the client sequence of every
    account are as before. *)
Theorem rejected_request_changes_nothing (c : TradingCore S) (input : EngineInput)
    (request : OrderRequest) (Hinv : core_inv c) (Hseq : tc_engine_seq c < u32_max)
    (Hin : in_event input = InputEvent.Order request) (Hwf : request_wf request) :
  exists c' evs report,
    Engine.apply c input = Ret (c', evs ++ [OutputEvent.Report report])
    /\ (rep_reject_reason report <> None -> evs = [] /\ untouched c c').
Proof.
  pose proof (rwf_quantity _ Hwf) as Hq. pose proof (cv_seq _ Hinv).
  destruct (apply_request_answered _ _ request (started_ok c input Hinv) ltac:(lia) Hq)
    as (c1 & evs & report & E & A).
  destruct (apply_order c input request c1 _ Hinv Hseq Hin Hq E) as (m & E').
  exists (Core.set_metrics c1 m), evs, report. split; [done |]. intros Hr.
  destruct (answered_rejected _ _ _ _ _ _ A Hr) as [-> U]. split; [done |].
  by apply (untouched_start _ _ input).
Qed.

(** * Retries *)

(** A request the window remembers is answered from it: the report is the only
    output and no trading state changes. *)
Lemma retry_answer c input request a ac previous :
  core_inv c -> tc_engine_seq c < u32_max -> in_event input = InputEvent.Order request ->
  in_u64 (req_quantity request) -> tc_account_index c !! req_account request = Some a ->
  tc_accounts c !! a = Some ac ->
  Cache.lookup (ac_cache ac) (req_request_id request) (request_fingerprint request)
  = Some (Retry previous) ->
  exists c', Engine.apply c input
    = Ret (c', [OutputEvent.Report (renumbered previous (tc_output_seq c + 1)
                                      (tc_engine_seq c + 1) (in_recv_time_ns input))])
    /\ untouched c c'.
Proof.
  intros I Hseq Hin Hq Ha Hac Hl. pose proof (cv_seq _ I).
  pose proof (core_ok_output _ _ (started_ok c input I) ltac:(lia)) as Ho. simpl in Ho.
  assert (E : Engine.apply_request (started c input) request []
              = Ret (Core.set_output_seq (started c input) (tc_output_seq c + 1),
                     [OutputEvent.Report (renumbered previous (tc_output_seq c + 1)
                                            (tc_engine_seq c + 1) (in_recv_time_ns input))])).
  { unfold Engine.apply_request. change (tc_account_index (started c input)) with (tc_account_index c).
    rewrite Ha, (account_ok (started c input) a ac Hac). cbn [rbind]. rewrite Hl.
    unfold Engine.retry_report. rewrite take_output_seq_ok by (simpl; lia). done. }
  destruct (apply_order c input request _ _ I Hseq Hin Hq E) as (m & E').
  eexists. split; [exact E' |]. by constructor.
Qed.

(** What an input does to the request windows. *)
Definition windows (c : TradingCore S) : gmap AccountId nat * list RequestCache :=
  (tc_account_index c, ac_cache <$> tc_accounts c).

Lemma push_state_windows c event out c' out' :
  Core.push_state c event out = (c', out') -> windows c' = windows c.
Proof.
  unfold Core.push_state, Core.take_output_seq. by destruct (next _); intros [= <- _].
Qed.

Lemma put_account_windows c i ac ac' c' :
  Core.account c i = Ret ac -> Core.put_account c i ac' = Ret c' -> ac_cache ac' = ac_cache ac ->
  windows c' = windows c.
Proof.
  unfold Core.account, index, Core.put_account, index_set, windows. intros Ha E Hc.
  destruct (tc_accounts c !! i) as [ac0 |] eqn:Hi; [| done]. injection Ha as ->. injection E as <-.
  simpl. f_equal. rewrite list_fmap_insert. apply list_insert_id. rewrite list_lookup_fmap, Hi.
  simpl. congruence.
Qed.

Lemma market_windows c event out c' out' :
  Engine.apply_market c event out = Ret (c', out') -> windows c' = windows c.
Proof.
  unfold Engine.apply_market. intros (c1 & B & E)%rbind_inv.
  assert (windows c1 = windows c) as <-.
  { unfold Engine.bump_market in B. by apply rbind_inv in B as (z & _ & [= <-]). }
  destruct (tc_instrument_index c1 !! _) as [k |]; [| by injection E as <- _].
  apply rbind_inv in E as (r & _ & E). apply rbind_inv in E as ([v u] & _ & E).
  apply rbind_inv in E as (c2 & Ep & E). assert (windows c2 = windows c1) as <-.
  { unfold Core.put_instrument in Ep. by apply rbind_inv in Ep as (l & _ & [= <-]). }
  destruct (state_changed u); injection E as E; [by eapply push_state_windows | by rewrite E].
Qed.

Lemma control_windows c command out c' out' :
  Engine.apply_control c command out = Ret (c', out') -> windows c' = windows c.
Proof.
  unfold Engine.apply_control. intros (c1 & B & E)%rbind_inv.
  assert (windows c1 = windows c) as <-.
  { unfold Engine.bump_control in B. by apply rbind_inv in B as (z & _ & [= <-]). }
  destruct command as [engaged | account enabled | account limits].
  - destruct (Bool.eqb _ _); [by injection E as <- _ |]. injection E as E.
    by apply push_state_windows in E as ->.
  - destruct (tc_account_index c1 !! account) as [i |]; [| by injection E as <- _].
    apply rbind_inv in E as (ac & Ha & E). destruct (Bool.eqb _ _); [by injection E as <- _ |].
    apply rbind_inv in E as (c2 & Ep & E). injection E as E. apply push_state_windows in E as ->.
    exact (put_account_windows _ _ _ _ _ Ha Ep eq_refl).
  - destruct (tc_account_index c1 !! account) as [i |]; [| by injection E as <- _].
    apply rbind_inv in E as (ac & Ha & E). apply rbind_inv in E as (c2 & Ep & E). injection E as E.
    apply push_state_windows in E as ->. exact (put_account_windows _ _ _ _ _ Ha Ep eq_refl).
Qed.

Lemma reposed_windows (accts accts' : list AccountState) :
  reposed accts accts' -> ac_cache <$> accts' = ac_cache <$> accts.
Proof.
  intros [Hl H]. apply list_eq. intros i. rewrite !list_lookup_fmap.
  destruct (accts !! i) as [ac |] eqn:E.
  - by destruct (H _ _ E) as (ps & -> & _).
  - apply lookup_ge_None in E. by rewrite (proj2 (lookup_ge_None accts' i)) by lia.
Qed.

(** A request that is not a retry records its final report in the window of its
    account; every other window stays. *)
Definition answered_in (c c' : TradingCore S) (request : OrderRequest) (report : ExecutionReport)
  : Prop :=
  match tc_account_index c !! req_account request with
  | None => windows c' = windows c
  | Some a =>
      exists ac, tc_accounts c !! a = Some ac
        /\ match Cache.lookup (ac_cache ac) (req_request_id request)
                   (request_fingerprint request) with
           | Some (Retry _) => windows c' = windows c
           | _ => exists cache,
                    Cache.record (ac_cache ac) (req_request_id request)
                      (request_fingerprint request) report = Ret cache
                    /\ windows c' = (tc_account_index c, <[a := cache]> (ac_cache <$> tc_accounts c))
           end
  end.

Lemma answered_windows n c request c' evs report :
  answered n c request c' evs report -> core_ok n c -> answered_in c c' request report.
Proof.
  unfold answered_in.
  intros [a ac previous Ha Hac Hl | a ac ac' rep Ha Hac Hc Hre Hca Hrej | c1 ev rep Hno E F] O.
  - rewrite Ha. exists ac. split; [done |]. by rewrite Hl.
  - rewrite Ha. exists ac. split; [done |].
    rewrite Hc. exists (ac_cache ac'). split; [apply Hre |]. unfold windows. simpl.
    by rewrite list_fmap_insert.
  - destruct F as [(c0 & m & accts & -> & P & _ & _ & Hre & _)]. unfold recorded_in in Hre.
    pose proof (reposed_windows _ _ (pg_reposed _ _ _ _ P)) as Hw.
    pose proof (ss_aindex _ _ (pg_static _ _ _ _ P)) as Hi.
    destruct (tc_account_index c !! req_account request) as [a |] eqn:Ha.
    + destruct Hre as (ac1 & ac' & Hac1 & -> & Hre & _).
      destruct (reposed_inv _ _ _ _ (pg_reposed _ _ _ _ P) Hac1) as (ac & ps & Hac & ->).
      exists ac. split; [done |]. rewrite (Hno a ac eq_refl Hac). exists (ac_cache ac').
      split; [apply Hre |]. unfold windows. simpl. by rewrite list_fmap_insert, Hw, Hi.
    + subst accts. unfold windows. simpl. by rewrite Hw, Hi.
Qed.

Lemma apply_windows c input c' out :
  core_inv c -> tc_engine_seq c < u32_max -> input_wf input -> Engine.apply c input = Ret (c', out) ->
  match in_event input with
  | InputEvent.Order request => exists report, answered_in c c' request report
  | _ => windows c' = windows c
  end.
Proof.
  intros I Hseq Hwf E. unfold input_wf in Hwf. destruct (in_event input) as [e | request | command] eqn:Hin.
  2: { pose proof (rwf_quantity _ Hwf) as Hq. pose proof (started_ok c input I) as O.
       pose proof (cv_seq _ I).
       destruct (apply_request_answered _ _ request O ltac:(lia) Hq) as (c1 & evs & report & E1 & A).
       destruct (apply_order c input request c1 _ I Hseq Hin Hq E1) as (m & E').
       rewrite E in E'. injection E' as -> ->. exists report.
       exact (answered_windows _ _ _ _ _ _ A O). }
  all: revert E; unfold Engine.apply; rewrite (ok_fault _ _ (cv_ok _ I)), Hin;
    destruct (next (tc_engine_seq c)) as [s |]; [| by intros [= <- _]];
    intros (c1 & B & E)%rbind_inv; apply rbind_inv in E as ([c2 o] & E & B2);
    apply rbind_inv in B2 as (c3 & B2 & [= <- _]);
    unfold Engine.bump_reports in B2; apply rbind_inv in B2 as (z & _ & [= <-]);
    unfold Engine.bump_inputs in B; apply rbind_inv in B as (z' & _ & [= <-]).
  - by apply market_windows in E.
  - by apply control_windows in E.
Qed.

(** The windows keep the size they were made with. *)
Definition sized (w : nat) (c : TradingCore S) : Prop :=
  Forall (fun cache => length (rc_entries cache) = w) (windows c).2.

Lemma sized_step c input c' out :
  core_inv c -> tc_engine_seq c < u32_max -> input_wf input -> Engine.apply c input = Ret (c', out) ->
  forall w, sized w c -> sized w c'.
Proof.
  intros I Hseq Hwf E. pose proof (apply_windows _ _ _ _ I Hseq Hwf E) as A. unfold sized.
  destruct (in_event input) as [e | request | command]; [by rewrite A | | by rewrite A].
  destruct A as (report & A). unfold answered_in in A.
  destruct (tc_account_index c !! req_account request) as [a |]; [| by rewrite A].
  destruct A as (ac & Hac & A).
  assert (Hcase : windows c' = windows c \/ exists cache,
    Cache.record (ac_cache ac) (req_request_id request) (request_fingerprint request) report = Ret cache
    /\ windows c' = (tc_account_index c, <[a := cache]> (ac_cache <$> tc_accounts c)))
    by (destruct (Cache.lookup _ _ _) as [[] |]; auto).
  destruct Hcase as [-> | (cache & Er & ->)]; [done |]. intros w Hw. simpl in *.
  apply Forall_insert; [done |].
  destruct (record_ok (ac_cache ac) (req_request_id request) (request_fingerprint request) report)
    as (c1 & E1 & _ & Hlen & _); [by eapply ok_cache, Hac; apply I |].
  rewrite Er in E1. injection E1 as <-. rewrite Hlen.
  rewrite Forall_fmap, Forall_lookup in Hw. exact (Hw _ _ Hac).
Qed.

Lemma sized_run inputs : forall c c' out w,
  core_inv c -> tc_engine_seq c + Z.of_nat (length inputs) <= u32_max -> Forall input_wf inputs ->
  engine_run c inputs = Ret (c', out) -> sized w c -> sized w c'.
Proof.
  induction inputs as [| i inputs IH]; intros c c' out w I Hn Hwf E Hw; simpl in *.
  - by injection E as <- _.
  - apply Forall_cons in Hwf as [Hi Hwf]. apply rbind_inv in E as ([c1 o] & E1 & E).
    apply rbind_inv in E as ([c2 rest] & E2 & [= <- _]).
    destruct (apply_input_ok c i I) as (c3 & o3 & E3 & [I3 S3 _ _ _]); [lia | done |].
    rewrite E1 in E3. injection E3 as <- <-. eapply (IH c1); try done; [lia |].
    by apply (sized_step _ _ _ _ I ltac:(lia) Hi E1).
Qed.

Lemma new_sized cfg : sized (Nat.max (ec_dedup_window cfg) 1) (Core.new cfg).
Proof.
  unfold sized, windows, Core.new. simpl. rewrite !Forall_fmap. apply Forall_true. intros x.
  simpl. apply length_replicate.
Qed.

(** ** A request that the window holds *)

(** A request of the same account under another id. *)
Definition other_request (request : OrderRequest) (input : EngineInput) : bool :=
  match in_event input with
  | InputEvent.Order r =>
      (req_account r =? req_account request) && negb (req_request_id r =? req_request_id request)
  | _ => false
  end.

(** No request of the account reuses the id for something else. *)
Definition no_reuse (request : OrderRequest) (input : EngineInput) : Prop :=
  match in_event input with
  | InputEvent.Order r =>
      req_account r = req_account request -> req_request_id r = req_request_id request ->
      request_fingerprint r = request_fingerprint request
  | _ => True
  end.

(** The window of the request's account holds its outcome, with at most [k]
    outcomes recorded since. *)
Definition held (c : TradingCore S) (request : OrderRequest) (outcome : ExecutionReport) (k : nat)
  : Prop :=
  exists a cache s j, tc_account_index c !! req_account request = Some a
    /\ (ac_cache <$> tc_accounts c) !! a = Some cache /\ (j <= k)%nat
    /\ rc_index cache !! req_request_id request = Some s
    /\ rc_entries cache !! s
       = Some (Some (mkCachedRequest (req_request_id request) (request_fingerprint request) outcome))
    /\ rc_next cache = ((s + 1 + j) mod length (rc_entries cache))%nat.

Lemma core_inv_cache c a cache :
  core_inv c -> (ac_cache <$> tc_accounts c) !! a = Some cache -> cache_inv cache.
Proof. intros I (ac & -> & Hac)%list_lookup_fmap_Some. by eapply ok_cache, Hac; apply I. Qed.

Lemma lookup_retry cache rid s fp outcome :
  cache_inv cache -> rc_index cache !! rid = Some s ->
  rc_entries cache !! s = Some (Some (mkCachedRequest rid fp outcome)) ->
  Cache.lookup cache rid fp = Some (Retry outcome).
Proof.
  intros CI Hi He. rewrite (lookup_cached _ _ _ CI). unfold cached. rewrite Hi, He. simpl.
  by rewrite Z.eqb_refl.
Qed.

Lemma held_lookup c request outcome k :
  core_inv c -> held c request outcome k ->
  exists a ac, tc_account_index c !! req_account request = Some a /\ tc_accounts c !! a = Some ac
    /\ Cache.lookup (ac_cache ac) (req_request_id request) (request_fingerprint request)
       = Some (Retry outcome).
Proof.
  intros I (a & cache & s & j & Ha & Hc & _ & Hi & He & _).
  pose proof (core_inv_cache _ _ _ I Hc) as CI. apply list_lookup_fmap_Some in Hc as (ac & -> & Hac).
  exists a, ac. split_and!; [done | done |]. by eapply lookup_retry.
Qed.

(** What was recorded last is held. *)
Lemma held_recorded c c' request report :
  core_inv c -> answered_in c c' request report ->
  (forall a ac previous, tc_account_index c !! req_account request = Some a ->
     tc_accounts c !! a = Some ac ->
     Cache.lookup (ac_cache ac) (req_request_id request) (request_fingerprint request)
     <> Some (Retry previous)) ->
  is_Some (tc_account_index c !! req_account request) -> held c' request report 0.
Proof.
  intros I A Hno [a Ha]. unfold answered_in in A. rewrite Ha in A. destruct A as (ac & Hac & A).
  assert (Hrec : exists cache,
    Cache.record (ac_cache ac) (req_request_id request) (request_fingerprint request) report = Ret cache
    /\ windows c' = (tc_account_index c, <[a := cache]> (ac_cache <$> tc_accounts c))).
  { specialize (Hno a ac). destruct (Cache.lookup _ _ _) as [[p |] |]; [| done..]. by destruct (Hno p). }
  destruct Hrec as (cache & Er & Hw). injection Hw as Hw1 Hw2.
  assert (CI : cache_inv (ac_cache ac)) by (by eapply ok_cache, Hac; apply I).
  destruct (record_ok _ (req_request_id request) (request_fingerprint request) report CI)
    as (c1 & E1 & _ & L1 & N1 & Een & Hi & _). rewrite Er in E1. injection E1 as <-.
  exists a, cache, (rc_next (ac_cache ac)), 0%nat. rewrite Hw1, Hw2. split_and!; try done.
  - apply list_lookup_insert_eq. rewrite length_fmap. by eapply lookup_lt_Some.
  - rewrite Een. apply list_lookup_insert_eq, CI.
  - rewrite N1, L1. f_equal. lia.
Qed.

(** One more input: the outcome stays as long as there are other slots. *)
Lemma held_step c c' input out request outcome k w :
  core_inv c -> tc_engine_seq c < u32_max -> input_wf input -> Engine.apply c input = Ret (c', out) ->
  no_reuse request input -> sized w c -> held c request outcome k ->
  (k + Nat.b2n (other_request request input) < w)%nat ->
  held c' request outcome (k + Nat.b2n (other_request request input)).
Proof.
  intros I Hseq Hwf E Hre Hw (a & cache & s & j & Ha & Hc & Hj & Hi & He & Hn) Hk.
  assert (Hsame : windows c' = windows c ->
            held c' request outcome (k + Nat.b2n (other_request request input))).
  { intros [= E1 E2]. exists a, cache, s, j. rewrite E1, E2. split_and!; try done. lia. }
  pose proof (apply_windows _ _ _ _ I Hseq Hwf E) as A.
  destruct (in_event input) as [e | r | command] eqn:Hin; [by apply Hsame | | by apply Hsame].
  destruct A as (report & A). unfold answered_in in A.
  destruct (tc_account_index c !! req_account r) as [a' |] eqn:Ha'; [| by apply Hsame].
  destruct A as (ac & Hac & A).
  destruct (decide (a' = a)) as [-> | Hne].
  2: { destruct (Cache.lookup _ _ _) as [[p |] |]; [by apply Hsame | |];
       destruct A as (cache' & _ & Hw'); injection Hw' as Hw1 Hw2;
       exists a, cache, s, j; rewrite Hw1, Hw2; rewrite list_lookup_insert_ne by done;
       split_and!; try done; lia. }
  rewrite list_lookup_fmap, Hac in Hc. injection Hc as <-.
  assert (Eacc : req_account r = req_account request).
  { pose proof (ti_index _ _ (ok_tinv _ _ (cv_ok _ I))) as HI.
    apply HI in Ha as (x & Hx & <-). apply HI in Ha' as (y & Hy & <-). congruence. }
  assert (CI : cache_inv (ac_cache ac)) by (by eapply ok_cache, Hac; apply I).
  unfold no_reuse in Hre. unfold other_request in *. rewrite Hin in *.
  rewrite (proj2 (Z.eqb_eq _ _) Eacc) in *. cbn [andb] in *.
  destruct (Z.eqb_spec (req_request_id r) (req_request_id request)) as [Er | Er].
  - rewrite Er, (Hre Eacc Er), (lookup_retry _ _ _ _ _ CI Hi He) in A. by apply Hsame.
  - cbn [negb Nat.b2n] in *.
    assert (Hrec : windows c' = windows c \/ exists cache,
      Cache.record (ac_cache ac) (req_request_id r) (request_fingerprint r) report = Ret cache
      /\ windows c' = (tc_account_index c, <[a := cache]> (ac_cache <$> tc_accounts c)))
      by (destruct (Cache.lookup _ _ _) as [[] |]; auto).
    destruct Hrec as [Hs | (cache' & Erec & Hw')]; [by apply Hsame |]. injection Hw' as Hw1 Hw2.
    assert (Hlen : length (rc_entries (ac_cache ac)) = w).
    { unfold sized, windows in Hw. cbn [snd] in Hw. rewrite Forall_fmap, Forall_lookup in Hw.
      exact (Hw _ _ Hac). }
    assert (Hs : (s < length (rc_entries (ac_cache ac)))%nat) by (by eapply lookup_lt_Some).
    assert (Hslot : s <> rc_next (ac_cache ac)) by (rewrite Hn; apply slot_not_reused; lia).
    destruct (record_keeps _ _ _ _ _ _ _ _ CI Hi He Er Hslot Erec) as [Hi' He'].
    destruct (record_ok _ (req_request_id r) (request_fingerprint r) report CI)
      as (c1 & E1 & _ & L1 & N1 & _). rewrite Erec in E1. injection E1 as <-.
    exists a, cache', s, (j + 1)%nat. rewrite Hw1, Hw2. split_and!; try done; [| lia |].
    + apply list_lookup_insert_eq. rewrite length_fmap. by eapply lookup_lt_Some.
    + rewrite N1, L1, Hn, Nat.Div0.add_mod_idemp_l. f_equal. lia.
Qed.

Definition others (request : OrderRequest) (inputs : list EngineInput) : nat :=
  length (List.filter (other_request request) inputs).

Lemma held_run inputs : forall c request outcome k w,
  core_inv c -> tc_engine_seq c + Z.of_nat (length inputs) <= u32_max -> Forall input_wf inputs ->
  Forall (no_reuse request) inputs -> sized w c -> held c request outcome k ->
  (k + others request inputs < w)%nat ->
  exists c' out, engine_run c inputs = Ret (c', out) /\ core_inv c'
    /\ tc_engine_seq c' = tc_engine_seq c + Z.of_nat (length inputs)
    /\ held c' request outcome (k + others request inputs).
Proof.
  induction inputs as [| i inputs IH]; intros c request outcome k w I Hn Hwf Hre Hw Hh Hk.
  - exists c, []. rewrite Nat.add_0_r. simpl. split_and!; try done. lia.
  - apply Forall_cons in Hwf as [Hi Hwf]. apply Forall_cons in Hre as [Hri Hre]. simpl length in Hn.
    assert (Eo : others request (i :: inputs)
                 = (Nat.b2n (other_request request i) + others request inputs)%nat)
      by (unfold others; simpl; by destruct (other_request request i)).
    rewrite Eo in Hk |- *. rewrite Nat.add_assoc.
    destruct (apply_input_ok c i I) as (c1 & o & E & [I1 S1 _ _ _]); [lia | done |].
    simpl engine_run. rewrite E. cbn [rbind].
    pose proof (sized_step _ _ _ _ I ltac:(lia) Hi E) as Hw1.
    pose proof (held_step _ _ _ _ _ _ _ _ I ltac:(lia) Hi E Hri Hw Hh ltac:(lia)) as H1.
    destruct (IH c1 request outcome _ w I1 ltac:(lia) Hwf Hre (Hw1 w Hw) H1 ltac:(lia))
      as (c' & rest & -> & I' & S' & H').
    simpl length. do 2 eexists. split; [done |]. split_and!; [done | lia | done].
Qed.

(** C11: an exact retry is answered from the window.  Take any request of a known
    account, on any state the engine reaches, that is not a retry itself.  After
    any inputs with fewer requests of that account under other ids than the
    configured window has slots, and none that reuses the request's id for
    something else, the same request is answered with the final report it got the
    first time, with a new output sequence, engine sequence and time; that report
    is the only output, and no trading state changes. *)
Theorem exact_retry_repeats_outcome (cfg : EngineConfig) (before between : list EngineInput)
    (input1 input2 : EngineInput) (request : OrderRequest) (c : TradingCore S) out
    (Hcfg : config_wf cfg)
    (Hlen : Z.of_nat (length before) + Z.of_nat (length between) + 2 < 2 ^ 32)
    (Hwf : Forall input_wf before) (Hwf' : Forall input_wf between) (Hrequest : request_wf request)
    (Hrun : engine_run (Core.new cfg) before = Ret (c, out))
    (Hin1 : in_event input1 = InputEvent.Order request)
    (Hin2 : in_event input2 = InputEvent.Order request)
    (Haccount : is_Some (tc_account_index c !! req_account request))
    (Hfirst : forall a ac previous, tc_account_index c !! req_account request = Some a ->
       tc_accounts c !! a = Some ac ->
       Cache.lookup (ac_cache ac) (req_request_id request) (request_fingerprint request)
       <> Some (Retry previous))
    (Hreuse : Forall (no_reuse request) between)
    (Hwindow : (others request between < Nat.max (ec_dedup_window cfg) 1)%nat) :
  exists c1 evs report c2 outs c3,
    Engine.apply c input1 = Ret (c1, evs ++ [OutputEvent.Report report])
    /\ engine_run c1 between = Ret (c2, outs)
    /\ Engine.apply c2 input2
       = Ret (c3, [OutputEvent.Report
                     (renumbered report (tc_output_seq c2 + 1) (tc_engine_seq c2 + 1)
                        (in_recv_time_ns input2))])
    /\ untouched c2 c3.
Proof.
  pose proof (rwf_quantity _ Hrequest) as Hq.
  destruct (engine_run_new cfg before Hcfg ltac:(lia) Hwf) as (c0 & out0 & E0 & I & Sq & _).
  rewrite Hrun in E0. injection E0 as <- <-.
  assert (Hsz : sized (Nat.max (ec_dedup_window cfg) 1) c).
  { eapply sized_run; [by apply new_core_inv | | exact Hwf | exact Hrun | apply new_sized].
    simpl. mach. }
  destruct (apply_request_answered _ _ request (started_ok c input1 I) ltac:(mach) Hq)
    as (s1 & evs & report & E1 & A1).
  destruct (apply_order c input1 request s1 _ I ltac:(mach) Hin1 Hq E1) as (m1 & E1').
  assert (Hi1 : input_wf input1) by (unfold input_wf; by rewrite Hin1).
  destruct (apply_input_ok c input1 I ltac:(mach) Hi1) as (c1 & out1 & E1'' & [I1 S1 _ _ _]).
  rewrite E1' in E1''. injection E1'' as Ec1 Eo1.
  pose proof (sized_step _ _ _ _ I ltac:(mach) Hi1 E1') as Hsz1. rewrite Ec1 in Hsz1.
  assert (Hh : held c1 request report 0).
  { apply (held_recorded c); try done. rewrite <- Ec1.
    exact (answered_windows _ _ _ _ _ _ A1 (started_ok c input1 I)). }
  destruct (held_run between c1 request report 0 _ I1 ltac:(mach) Hwf' Hreuse (Hsz1 _ Hsz) Hh
              ltac:(lia)) as (c2 & outs & E2 & I2 & S2 & H2).
  destruct (held_lookup _ _ _ _ I2 H2) as (a & ac & Ha & Hac & Hl).
  destruct (retry_answer c2 input2 request a ac report I2 ltac:(mach) Hin2 Hq Ha Hac Hl) as (c3 & E3 & U).
  exists c1, evs, report, c2, outs, c3. rewrite <- Ec1 at 1. by split_and!.
Qed.

(** * The kill switch *)

(** The handler a request goes to. *)
Definition dispatched (c : TradingCore S) (request : OrderRequest)
  : res (TradingCore S * list OutputEvent.t * ExecutionReport) :=
  match req_kind request with
  | RequestKind.New => Engine.handle_new c request []
  | RequestKind.Cancel => let! p := Engine.handle_cancel c request in Engine.with_out [] p
  | RequestKind.Replace => Engine.handle_replace c request []
  end.

(** Counting and recording add nothing to what the handler did to the orders. *)
Lemma fresh_of_handler c request fp c1 out rep c' evs report :
  dispatched c request = Ret (c1, out, rep) ->
  Engine.apply_fresh_request c request fp [] = Ret (c', evs ++ [OutputEvent.Report report]) ->
  evs = out /\ report = rep /\ tc_live_orders c' = tc_live_orders c1
  /\ tc_client_orders c' = tc_client_orders c1 /\ tc_instruments c' = tc_instruments c1.
Proof.
  unfold dispatched, Engine.apply_fresh_request. intros ->. cbn [rbind].
  intros (s1 & B1 & E)%rbind_inv. apply rbind_inv in E as (s2 & B2 & E).
  injection E as <- E. apply app_inj_tail in E as [-> [= ->]].
  assert (exists m, s1 = Core.set_metrics c1 m) as [m ->].
  { destruct (bool_decide _); apply rbind_inv in B1 as (z & _ & [= <-]); eauto. }
  split_and!; try done; revert B2; simpl;
    (destruct (tc_account_index c1 !! _) as [i |]; [| by intros [= <-]]);
    intros (ac1 & _ & B2)%rbind_inv; apply rbind_inv in B2 as (cache & _ & B2);
    apply rbind_inv in B2 as (l & _ & [= <-]); done.
Qed.

(** A handler that rejects makes the whole request a rejection. *)
Lemma fresh_rejects c request fp c' evs report reason :
  dispatched c request = Engine.with_out [] (Core.reject_report c request reason) ->
  Engine.apply_fresh_request c request fp [] = Ret (c', evs ++ [OutputEvent.Report report]) ->
  rep_reject_reason report = Some reason.
Proof.
  unfold Core.reject_report. destruct (Core.base_report c request 0) as [c1 rep]. cbn [Engine.with_out].
  intros Eh Ef. by destruct (fresh_of_handler _ _ _ _ _ _ _ _ _ Eh Ef) as (_ & -> & _).
Qed.

Lemma kill_rejects n c request :
  core_ok n c -> in_u64 (req_quantity request) -> tc_global_kill c = true ->
  req_kind request <> RequestKind.Cancel ->
  exists reason, dispatched c request = Engine.with_out [] (Core.reject_report c request reason).
Proof.
  intros O Hq Hkill Hkind. destruct O as [T I II _ _ _ _ _ _ _ _ _ _ _ _]. unfold dispatched.
  destruct (req_kind request); [| done |].
  - destruct (qwp_inv _ _ (check_new_order_ok n c _ request T I II Hq)) as (res & E & Hres).
    unfold Engine.handle_new. rewrite E. cbn [rbind]. destruct res as [checked | reason]; [| by eauto].
    destruct Hres as (ac & r & p & ref & A). destruct (na_permitted _ _ _ _ _ _ _ A). congruence.
  - destruct (qwp_inv _ _ (check_replace_ok n c request T I II Hq)) as (res & E & Hres).
    unfold Engine.handle_replace. rewrite E. cbn [rbind].
    destruct res as [checked | reason]; [| by eauto].
    destruct Hres as (ac & r & p & ref & A). destruct (ra_permitted _ _ _ _ _ _ _ A). congruence.
Qed.

(** C12: the kill switch stops trading.  While it is engaged, a new order or a
    replacement produces a single report and changes no trading state; the
    report is a rejection unless the request is an exact retry of one the
    window still remembers. *)
Theorem kill_switch_blocks (c : TradingCore S) (input : EngineInput) (request : OrderRequest)
    (Hinv : core_inv c) (Hseq : tc_engine_seq c < u32_max)
    (Hin : in_event input = InputEvent.Order request) (Hwf : request_wf request)
    (Hkill : tc_global_kill c = true) (Hkind : req_kind request <> RequestKind.Cancel) :
  exists c' report,
    Engine.apply c input = Ret (c', [OutputEvent.Report report]) /\ untouched c c'
    /\ (rep_reject_reason report <> None
        \/ exists a ac previous,
             tc_account_index c !! req_account request = Some a /\ tc_accounts c !! a = Some ac
             /\ Cache.lookup (ac_cache ac) (req_request_id request) (request_fingerprint request)
                = Some (Retry previous)).
Proof.
  pose proof (rwf_quantity _ Hwf) as Hq. pose proof (cv_seq _ Hinv).
  pose proof (started_ok c input Hinv) as O.
  destruct (apply_request_answered _ _ request O ltac:(lia) Hq) as (c1 & evs & report & E & A).
  destruct (apply_order c input request c1 _ Hinv Hseq Hin Hq E) as (m & E').
  assert (Hcase : evs = [] /\ untouched (started c input) c1 /\
    (rep_reject_reason report <> None \/ exists a ac previous,
       tc_account_index c !! req_account request = Some a /\ tc_accounts c !! a = Some ac
       /\ Cache.lookup (ac_cache ac) (req_request_id request) (request_fingerprint request)
          = Some (Retry previous))).
  { pose proof A as A0. destruct A as [a ac previous Ha Hac Hl | a ac ac' rep _ _ _ _ _ Hrej |
                                       c2 ev rep Hno Ef F].
    - split; [done |]. split; [by constructor |]. right. eauto 10.
    - destruct (answered_rejected _ _ _ _ _ _ A0) as [? ?]; [by rewrite Hrej |].
      split_and!; try done. left. by rewrite Hrej.
    - destruct (kill_rejects _ _ request O Hq Hkill Hkind) as (reason & Eh).
      pose proof (fresh_rejects _ _ _ _ _ _ _ Eh Ef) as Hr.
      destruct (answered_rejected _ _ _ _ _ _ A0) as [? ?]; [by rewrite Hr |].
      split_and!; try done. left. by rewrite Hr. }
  destruct Hcase as (-> & U & Hr). exists (Core.set_metrics c1 m), report.
  split_and!; [done | by apply (untouched_start _ _ input) | done].
Qed.

(** * Cancels *)



(** * Admission and execution *)

(** C14: the pre-trade checks are sound for new orders.  Between inputs the
    checks never panic, and an order they admit satisfies every limit at once:
    known account and instrument, aligned quantity and price, an unused client
    id, trading permitted, an increasing client sequence, a live and recent
    feed, the collar, the notional limit, the worst-case position and the gross
    exposure computed as a sum over the account's instruments, and a free slot
    in the book. *)
Theorem check_new_order_sound (c : TradingCore S) (request : OrderRequest)
    (Hinv : core_inv c) (Hwf : request_wf request) :
  exists verdict, Risk.check_new_order c request = Ret verdict
    /\ forall checked, verdict = Ok checked ->
         exists ac r p reference, new_admitted c request checked ac r p reference.
Proof.
  destruct (cv_ok _ Hinv) as [T I II _ _ _ _ _ _ _ _ _ _ _ _].
  destruct (qwp_inv _ _ (check_new_order_ok _ c _ request T I II (rwf_quantity _ Hwf)))
    as (res & E & Hres).
  exists res. split; [done |]. by intros checked ->.
Qed.

(** the pre-trade checks are sound for replacements.  Between inputs the
    checks never panic, and a replacement they admit names a live limit order
    of the same account and side, does not go below what is already filled,
    and the limits hold once the old order's reservation has been exchanged
    for the new one's. *)
Theorem check_replace_sound (c : TradingCore S) (request : OrderRequest)
    (Hinv : core_inv c) (Hwf : request_wf request) :
  exists verdict, Risk.check_replace c request = Ret verdict
    /\ forall checked, verdict = Ok checked ->
         exists ac r p reference, replace_admitted c request checked ac r p reference.
Proof.
  destruct (cv_ok _ Hinv) as [T I II _ _ _ _ _ _ _ _ _ _ _ _].
  destruct (qwp_inv _ _ (check_replace_ok _ c request T I II (rwf_quantity _ Hwf)))
    as (res & E & Hres).
  exists res. split; [done |]. by intros checked ->.
Qed.

(** C15: what an admitted new order produces.  Its events are, for each fill of
    [match_order] on the instrument's book and in the same order, the trade,
    the maker's report and the taker's report, numbered consecutively, and the
    final report carries the quantity filled: [Filled] when it is the whole
    order, otherwise [Cancelled] with nothing left for a market order and
    [Accepted] with the rest resting for a limit order. *)
Theorem new_order_outcome (c : TradingCore S) (request : OrderRequest) (checked : CheckedNewOrder)
    (out : list OutputEvent.t)
    (Hinv : core_inv c) (Hseq : tc_engine_seq c <= u32_max) (Hwf : request_wf request)
    (Hok : Risk.check_new_order c request = Ret (Ok checked)) :
  exists c' evs fs b' r report,
    Engine.handle_new c request out = Ret (c', out ++ evs, report)
    /\ tc_instruments c !! cn_instrument_index checked = Some r
    /\ match_order (ir_book r) (req_side request) (cn_execution_limit checked)
         (req_quantity request) [] = Ret (b', fs, filled_quantity fs)
    /\ fill_outputs (tc_engine_seq c) (tc_output_seq c) (tc_next_trade_id c)
         (tc_next_order_id c + 1) (req_account request) (req_side request) fs evs
    /\ 0 <= filled_quantity fs <= req_quantity request
    /\ new_report request (tc_next_order_id c + 1) (filled_quantity fs) report.
Proof.
  pose proof (cv_seq _ Hinv). pose proof (cv_ok _ Hinv) as O.
  assert (C : calm c) by (eapply core_ok_calm; [done | lia]).
  assert (Hids : ids_ok c) by (eapply core_ok_ids; [done | lia]).
  destruct O as [T I II _ _ _ _ _ _ _ _ _ _ _ _].
  destruct (handle_new_admitted _ c request checked out C Hids T I II (rwf_quantity _ Hwf) Hok)
    as (c' & evs & fs & report & E & [_ Ho (r & b' & Hr & Hm) Hf Hrep]).
  exists c', evs, fs, b', r, report. by do 5 (split; [done |]).
Qed.

End Requests.

(** * Witnesses *)

Definition big_order : OrderRequest := limit_order 2 7 7 5 Side.Buy 100 50.

Lemma big_order_wf : request_wf big_order.
Proof. apply limit_order_wf; mach. Qed.

(** An order larger than the account's limit is rejected. *)
Lemma rejected_request_changes_nothing_witness :
  exists c' evs report,
    Engine.apply (sample_state 6) (order_input 30 (limit_order 2 7 7 5 Side.Buy 100 20000))
    = Ret (c', evs ++ [OutputEvent.Report report])
    /\ (rep_reject_reason report <> None -> evs = [] /\ untouched (sample_state 6) c').
Proof.
  apply (rejected_request_changes_nothing (sample_state 6) _
           (limit_order 2 7 7 5 Side.Buy 100 20000)).
  - apply sample_state_inv.
  - vm_compute. reflexivity.
  - reflexivity.
  - apply limit_order_wf; mach.
Defined.

(** Another order of the account, a market event and the retry itself before it. *)
Definition between_retries : list EngineInput :=
  [ order_input 31 (limit_order 2 8 8 6 Side.Buy 90 5);
    market_input 5 32 (MarketEventKind.LevelSet Side.Buy 98 7);
    order_input 33 big_order ].

Lemma exact_retry_repeats_outcome_witness :
  exists c1 evs report c2 outs c3,
    Engine.apply (sample_state 6) (order_input 30 big_order)
    = Ret (c1, evs ++ [OutputEvent.Report report])
    /\ engine_run c1 between_retries = Ret (c2, outs)
    /\ Engine.apply c2 (order_input 34 big_order)
       = Ret (c3, [OutputEvent.Report
                     (renumbered report (tc_output_seq c2 + 1) (tc_engine_seq c2 + 1) 34)])
    /\ untouched c2 c3.
Proof.
  destruct (engine_run (S := gmap nat OrderNode) (Core.new sample_config) sample_inputs)
    as [[c out] |] eqn:E; [| by vm_compute in E].
  assert (c = sample_state 6) as ->
    by (unfold sample_state; change (take 6 sample_inputs) with sample_inputs; by rewrite E).
  apply (exact_retry_repeats_outcome sample_config sample_inputs between_retries (order_input 30 big_order)
           (order_input 34 big_order) big_order (sample_state 6) out).
  - apply sample_config_wf.
  - vm_compute. reflexivity.
  - apply sample_inputs_wf.
  - repeat constructor; simpl; mach.
  - apply big_order_wf.
  - exact E.
  - reflexivity.
  - reflexivity.
  - vm_compute. by eexists.
  - intros a ac previous Ha Hac. vm_compute in Ha. injection Ha as <-. vm_compute in Hac.
    injection Hac as <-. vm_compute. discriminate.
  - repeat constructor; vm_compute; intros; congruence.
  - vm_compute. lia.
Defined.

(** The state with the kill switch engaged. *)
Definition killed_state : map_core :=
  match Engine.apply (sample_state 6)
          (mkEngineInput 0 25 (InputEvent.Control (ControlCommand.SetGlobalKill true))) with
  | Ret (c, _) => c
  | Panic => sample_state 6
  end.

Lemma killed_state_inv : core_inv killed_state.
Proof.
  unfold killed_state.
  destruct (apply_input_ok (sample_state 6)
              (mkEngineInput 0 25 (InputEvent.Control (ControlCommand.SetGlobalKill true)))
              (sample_state_inv 6)) as (c & out & -> & A); [by vm_compute | done | apply A].
Qed.

Lemma kill_switch_blocks_witness :
  exists c' report,
    Engine.apply killed_state (order_input 30 big_order) = Ret (c', [OutputEvent.Report report])
    /\ untouched killed_state c'
    /\ (rep_reject_reason report <> None
        \/ exists a ac previous,
             tc_account_index killed_state !! req_account big_order = Some a
             /\ tc_accounts killed_state !! a = Some ac
             /\ Cache.lookup (ac_cache ac) (req_request_id big_order)
                  (request_fingerprint big_order) = Some (Retry previous)).
Proof.
  apply kill_switch_blocks.
  - apply killed_state_inv.
  - vm_compute. reflexivity.
  - reflexivity.
  - apply big_order_wf.
  - vm_compute. reflexivity.
  - discriminate.
Defined.



Lemma check_new_order_sound_witness :
  exists verdict, Risk.check_new_order (sample_state 6) big_order = Ret verdict
    /\ forall checked, verdict = Ok checked ->
         exists ac r p reference, new_admitted (sample_state 6) big_order checked ac r p reference.
Proof. apply check_new_order_sound; [apply sample_state_inv | apply big_order_wf]. Defined.

Lemma check_replace_sound_witness :
  exists verdict, Risk.check_replace (sample_state 6) big_order = Ret verdict
    /\ forall checked, verdict = Ok checked ->
         exists ac r p reference,
           replace_admitted (sample_state 6) big_order checked ac r p reference.
Proof. apply check_replace_sound; [apply sample_state_inv | apply big_order_wf]. Defined.

Lemma new_order_outcome_witness :
  exists c' evs fs b' r report,
    Engine.handle_new (sample_state 6) big_order [] = Ret (c', [] ++ evs, report)
    /\ tc_instruments (sample_state 6) !! 0%nat = Some r
    /\ match_order (ir_book r) Side.Buy 100 50 [] = Ret (b', fs, filled_quantity fs)
    /\ fill_outputs (tc_engine_seq (sample_state 6)) (tc_output_seq (sample_state 6))
         (tc_next_trade_id (sample_state 6)) (tc_next_order_id (sample_state 6) + 1) 2 Side.Buy
         fs evs
    /\ 0 <= filled_quantity fs <= 50
    /\ new_report big_order (tc_next_order_id (sample_state 6) + 1) (filled_quantity fs) report.
Proof.
  apply (new_order_outcome (sample_state 6) big_order (mkCheckedNewOrder 1 0 100)).
  - apply sample_state_inv.
  - vm_compute. discriminate.
  - apply big_order_wf.
  - vm_compute. reflexivity.
Defined.

(** The state after more inputs than [sample_inputs]. *)
Definition state_after (inputs : list EngineInput) : map_core :=
  match engine_run (sample_state 6) inputs with
  | Ret (c, _) => c
  | Panic => sample_state 6
  end.

Definition last_seq (c : map_core) (a : nat) : option Z := ac_last_client_seq <$> tc_accounts c !! a.

(** [handle_cancel] does not check the client sequence and [record_outcome]
    stores whatever the request carries: after an order with sequence 9, a
    cancel with sequence 1 takes the account back to 1, and an order with
    sequence 2 is accepted. *)
Example cancel_lowers_client_sequence :
  last_seq (state_after [order_input 30 (limit_order 1 7 7 9 Side.Sell 100 5)]) 0 = Some 9
  /\ last_seq (state_after [order_input 30 (limit_order 1 7 7 9 Side.Sell 100 5);
                            order_input 31 (cancel_order 1 8 7)]) 0 = Some 1
  /\ last_seq (state_after [order_input 30 (limit_order 1 7 7 9 Side.Sell 100 5);
                            order_input 31 (cancel_order 1 8 7);
                            order_input 32 (limit_order 1 9 9 2 Side.Sell 100 5)]) 0 = Some 2.
Proof. vm_compute. repeat split. Qed.

(** The final report of an input. *)
Definition final_reason (c : map_core) (i : EngineInput) : option RejectReason.t :=
  match Engine.apply c i with
  | Ret (_, out) =>
      match last out with
      | Some (OutputEvent.Report r) => rep_reject_reason r
      | _ => None
      end
  | Panic => None
  end.

(** A conflicting reuse of a request id is recorded over the original outcome:
    the exact retry, which was answered with the original report before the
    conflict, is itself reported as a conflict after it. *)
Example conflict_hides_original_outcome :
  let order := limit_order 1 7 7 9 Side.Sell 100 5 in
  let reuse := limit_order 1 7 7 9 Side.Sell 100 6 in
  final_reason (state_after [order_input 30 order]) (order_input 31 order) = None
  /\ final_reason (state_after [order_input 30 order; order_input 31 reuse])
       (order_input 32 order) = Some RejectReason.DuplicateRequestConflict.
Proof. vm_compute. repeat split. Qed.
