(* ===== verification/Replay.v ===== *)
(** Deterministic replay ([crates/trading-core/src/replay.rs]): the canonical
    bytes of inputs and of the engine's state, the digest recorder and the
    replay driver.

    The hash function is [blake3], code of another package: the class [Blake3]
    lists what the source calls, [Blake3Laws] what it relies on. *)

From S2P Require Import Prelude Enums Ids Events BTree Slab Book Matching Market Account Config.
From S2P Require Import CoreState Risk Core Read Canonical.

(** * The hasher *)

Class Blake3 (H : Type) := {
  hasher_new : H;
  hasher_update : H -> bytes -> H;
  hasher_finalize : H -> bytes
}.

(** The digest depends on the concatenation of what was fed, however it was
    cut into updates. *)
Class Blake3Laws {H : Type} (B : Blake3 H) := {
  blake3_hash : bytes -> bytes;
  finalize_updates (chunks : list bytes) :
    hasher_finalize (foldl hasher_update hasher_new chunks) = blake3_hash (mjoin chunks)
}.

(** * Canonical bytes *)

Definition STATE_SCHEMA_VERSION : Z := 2.

Definition SECTION_HEADER : Z := 1.
Definition SECTION_INSTRUMENT : Z := 2.
Definition SECTION_MARKET_LEVELS : Z := 3.
Definition SECTION_PENDING_LEVELS : Z := 4.
Definition SECTION_BOOK_LEVEL : Z := 5.
Definition SECTION_ACCOUNT : Z := 6.
Definition SECTION_POSITIONS : Z := 7.
Definition SECTION_DEDUP : Z := 8.

(** [section]; a [usize] is a [u64]. *)
Definition section (tag : Z) (count : nat) : bytes := [tag] ++ le_bytes 8 (Z.of_nat count).

Definition optional_price (price : option PriceTicks) : bytes :=
  match price with
  | Some price => [1] ++ le_bytes 8 (as_u64 price)
  | None => [0] ++ le_bytes 8 (as_u64 0)
  end.

Definition price_quantity (level : PriceTicks * QuantityLots) : bytes :=
  le_bytes 8 (as_u64 (fst level)) ++ le_bytes 8 (snd level).

(** ** Inputs *)

Definition market_kind_bytes (kind : MarketEventKind.t) : bytes :=
  match kind with
  | MarketEventKind.SnapshotBegin snapshot_seq => [1] ++ le_bytes 8 snapshot_seq
  | MarketEventKind.SnapshotLevel side price quantity =>
      [2] ++ [Side.wire side] ++ le_bytes 8 (as_u64 price) ++ le_bytes 8 quantity
  | MarketEventKind.SnapshotEnd snapshot_seq level_count =>
      [3] ++ le_bytes 8 snapshot_seq ++ le_bytes 4 level_count
  | MarketEventKind.LevelSet side price quantity =>
      [4] ++ [Side.wire side] ++ le_bytes 8 (as_u64 price) ++ le_bytes 8 quantity
  | MarketEventKind.Trade aggressor price quantity =>
      [5] ++ [Side.wire aggressor] ++ le_bytes 8 (as_u64 price) ++ le_bytes 8 quantity
  | MarketEventKind.Heartbeat => [6]
  | MarketEventKind.FeedReset new_epoch => [7] ++ le_bytes 8 new_epoch
  end.

Definition order_bytes (request : OrderRequest) : bytes :=
  [RequestKind.wire (req_kind request)] ++ [Side.wire (req_side request)]
  ++ [OrderType.wire (req_order_type request)] ++ le_bytes 4 (req_account request)
  ++ le_bytes 4 (req_instrument request) ++ le_bytes 8 (req_request_id request)
  ++ le_bytes 8 (req_client_seq request) ++ le_bytes 8 (req_client_order_id request)
  ++ le_bytes 8 (req_target_client_order_id request) ++ le_bytes 8 (as_u64 (req_price request))
  ++ le_bytes 8 (req_quantity request).

Definition limits_bytes (limits : AccountLimits) : bytes :=
  le_bytes 8 (max_order_quantity limits) ++ le_bytes 16 (max_order_notional limits)
  ++ le_bytes 8 (max_position_lots limits) ++ le_bytes 16 (max_gross_exposure limits)
  ++ le_bytes 8 (as_u64 (price_collar_ticks limits)).

Definition control_bytes (command : ControlCommand.t) : bytes :=
  match command with
  | ControlCommand.SetGlobalKill engaged => [1] ++ [Z.b2z engaged]
  | ControlCommand.SetAccountEnabled account enabled =>
      [2] ++ le_bytes 4 account ++ [Z.b2z enabled]
  | ControlCommand.SetAccountLimits account limits =>
      [3] ++ le_bytes 4 account ++ limits_bytes limits
  end.

Definition event_bytes (event : InputEvent.t) : bytes :=
  match event with
  | InputEvent.Market event =>
      [1] ++ le_bytes 4 (me_instrument event) ++ le_bytes 8 (me_source_seq event)
      ++ le_bytes 8 (me_source_time_ns event) ++ market_kind_bytes (me_kind event)
  | InputEvent.Order request => [2] ++ order_bytes request
  | InputEvent.Control command => [3] ++ control_bytes command
  end.

Definition input_bytes (input : EngineInput) : bytes :=
  le_bytes 8 (in_ingress_seq input) ++ le_bytes 8 (in_recv_time_ns input)
  ++ event_bytes (in_event input).

Definition encode_input (input : EngineInput) (out : bytes) : bytes := out ++ input_bytes input.

(** * State *)

(** [sort_by_key]: the stable sort. *)
Fixpoint insert_by {A} (key : A -> Z) (x : A) (l : list A) : list A :=
  match l with
  | [] => [x]
  | y :: l => if key x <? key y then x :: y :: l else y :: insert_by key x l
  end.

Definition sort_by {A} (key : A -> Z) (l : list A) : list A := foldl (flip (insert_by key)) [] l.

Section State.
Context {S : Type} `{SL : Slab OrderNode S}.

Definition state_header (c : TradingCore S) : bytes :=
  section SECTION_HEADER 0 ++ le_bytes 4 STATE_SCHEMA_VERSION
  ++ le_bytes 16 (ec_run_id (tc_config c))
  ++ le_bytes 8 (Z.of_nat (ec_max_market_depth (tc_config c)))
  ++ le_bytes 8 (Z.of_nat (ec_dedup_window (tc_config c)))
  ++ le_bytes 8 (tc_engine_seq c) ++ le_bytes 8 (tc_output_seq c)
  ++ le_bytes 8 (tc_engine_time_ns c) ++ le_bytes 8 (tc_next_order_id c)
  ++ le_bytes 8 (tc_next_trade_id c) ++ le_bytes 8 (tc_next_priority c)
  ++ [Z.b2z (tc_global_kill c)].

Definition side_section (market : MarketView) (side : Side.t) : bytes :=
  let levels := Market.levels market side in
  let pending := Market.pending_levels market side in
  section SECTION_MARKET_LEVELS (length levels) ++ [Side.wire side]
  ++ mjoin (price_quantity <$> levels)
  ++ section SECTION_PENDING_LEVELS (length pending) ++ [Side.wire side]
  ++ mjoin (price_quantity <$> pending).

Definition node_bytes (order : OrderNode) : bytes :=
  le_bytes 8 (node_order_id order) ++ le_bytes 4 (node_account order)
  ++ le_bytes 8 (node_client_order_id order) ++ le_bytes 8 (node_total_quantity order)
  ++ le_bytes 8 (node_cumulative_filled order) ++ le_bytes 8 (node_priority order).

Definition row_bytes (row : Side.t * PriceTicks * list OrderNode) : bytes :=
  let '(side, price, orders) := row in
  section SECTION_BOOK_LEVEL (length orders) ++ [Side.wire side] ++ le_bytes 8 (as_u64 price)
  ++ mjoin (node_bytes <$> orders).

Definition instrument_state (r : InstrumentRuntime S) : res bytes :=
  let market := ir_market r in
  let! book := Book.snapshot (ir_book r) in
  Ret (le_bytes 4 (ic_id (ir_config r)) ++ le_bytes 8 (as_u64 (ic_tick_size (ir_config r)))
       ++ le_bytes 8 (ic_lot_size (ir_config r))
       ++ le_bytes 8 (as_u64 (ic_min_price_ticks (ir_config r)))
       ++ le_bytes 8 (as_u64 (ic_max_price_ticks (ir_config r)))
       ++ [FeedState.wire (mv_state market)] ++ le_bytes 8 (mv_epoch market)
       ++ le_bytes 8 (mv_last_source_seq market) ++ le_bytes 8 (mv_last_update_time_ns market)
       ++ optional_price (mv_last_trade_price market) ++ le_bytes 8 (mv_snapshot_seq market)
       ++ le_bytes 4 (mv_scratch_levels market)
       ++ side_section market Side.Buy ++ side_section market Side.Sell
       ++ section SECTION_BOOK_LEVEL (length book) ++ mjoin (row_bytes <$> book)).

Definition position_bytes (p : InstrumentPosition) : bytes :=
  le_bytes 8 (as_u64 (position_lots p)) ++ le_bytes 8 (open_buy_lots p)
  ++ le_bytes 8 (open_sell_lots p) ++ le_bytes 16 (open_buy_notional p)
  ++ le_bytes 16 (open_sell_notional p).

Definition dedup_bytes (entry : RequestId * Z * ExecutionReport) : bytes :=
  let '(request_id, fingerprint, outcome) := entry in
  le_bytes 8 request_id ++ le_bytes 8 fingerprint ++ le_bytes 8 (rep_order_id outcome)
  ++ [ReportKind.wire (rep_kind outcome)]
  ++ [from_option RejectReason.wire 0 (rep_reject_reason outcome)].

(** A [for] loop over [&account.positions[*instrument_index]]. *)
Fixpoint collect {A B} (f : A -> res B) (l : list A) : res (list B) :=
  match l with
  | [] => Ret []
  | x :: l =>
      let! y := f x in
      let! ys := collect f l in
      Ret (y :: ys)
  end.

Definition account_state (instrument_order : list nat) (a : AccountState) : res bytes :=
  let! positions := collect (index (ac_positions a)) instrument_order in
  let dedup := Cache.canonical_entries (ac_cache a) in
  Ret (le_bytes 4 (ac_id a) ++ [Z.b2z (ac_enabled a)] ++ limits_bytes (ac_limits a)
       ++ le_bytes 8 (ac_last_client_seq a)
       ++ section SECTION_POSITIONS (length instrument_order) ++ mjoin (position_bytes <$> positions)
       ++ section SECTION_DEDUP (length dedup) ++ mjoin (dedup_bytes <$> dedup)).

(** The positions [0..len], sorted by the id found there. *)
Definition order_by {A} (id : A -> Z) (l : list A) : list nat :=
  fst <$> sort_by (fun p => id (snd p)) (zip (seq 0 (length l)) l).

Definition instrument_order (c : TradingCore S) : list nat :=
  order_by (fun r => ic_id (ir_config r)) (tc_instruments c).

Definition account_order (c : TradingCore S) : list nat := order_by ac_id (tc_accounts c).

Definition instrument_at (c : TradingCore S) (i : nat) : res bytes :=
  let! r := index (tc_instruments c) i in instrument_state r.

Definition account_at (c : TradingCore S) (i : nat) : res bytes :=
  let! a := index (tc_accounts c) i in account_state (instrument_order c) a.

(** The buffers [state_digest] hands to the hasher, in order.  The buffer is
    not cleared between the header and the instrument count, so the header is
    fed twice. *)
Definition state_chunks (c : TradingCore S) : res (list bytes) :=
  let! instruments := collect (instrument_at c) (instrument_order c) in
  let! accounts := collect (account_at c) (account_order c) in
  Ret ([state_header c;
        state_header c ++ section SECTION_INSTRUMENT (length (instrument_order c))]
       ++ instruments ++ [section SECTION_ACCOUNT (length (account_order c))] ++ accounts).

Context {H : Type} `{B : Blake3 H}.

Definition state_digest (c : TradingCore S) : res bytes :=
  let! chunks := state_chunks c in
  Ret (hasher_finalize (foldl hasher_update hasher_new chunks)).

End State.

(** * The recorder *)

Record DigestRecorder (H : Type) := mkDigestRecorder {
  dr_input : H;
  dr_output : H;
  dr_scratch : bytes;
  dr_inputs : Z;
  dr_outputs : Z
}.

Arguments mkDigestRecorder {H}.
Arguments dr_input {H}.
Arguments dr_output {H}.
Arguments dr_scratch {H}.
Arguments dr_inputs {H}.
Arguments dr_outputs {H}.

Module Recorder.
Section Recorder.
Context {H : Type} `{B : Blake3 H}.

Definition new : DigestRecorder H := mkDigestRecorder hasher_new hasher_new [] 0 0.

Definition record_input (d : DigestRecorder H) (input : EngineInput) : res (DigestRecorder H) :=
  let scratch := encode_input input [] in
  let! n := u64_plain (dr_inputs d + 1) in
  Ret (mkDigestRecorder (hasher_update (dr_input d) scratch) (dr_output d) scratch n (dr_outputs d)).

Definition record_output (d : DigestRecorder H) (event : OutputEvent.t) : res (DigestRecorder H) :=
  let scratch := encode_output event [] in
  let! n := u64_plain (dr_outputs d + 1) in
  Ret (mkDigestRecorder (dr_input d) (hasher_update (dr_output d) scratch) scratch (dr_inputs d) n).

Definition input_digest (d : DigestRecorder H) : bytes := hasher_finalize (dr_input d).
Definition output_digest (d : DigestRecorder H) : bytes := hasher_finalize (dr_output d).

(** [for event in &self.output]. *)
Fixpoint record_outputs (d : DigestRecorder H) (events : list OutputEvent.t)
  : res (DigestRecorder H) :=
  match events with
  | [] => Ret d
  | e :: events =>
      let! d := record_output d e in
      record_outputs d events
  end.

End Recorder.
End Recorder.

(** * The driver *)

Record Checkpoint := mkCheckpoint {
  cp_engine_seq : EngineSeq;
  cp_state : bytes
}.

Record ReplayResult := mkReplayResult {
  rr_inputs : Z;
  rr_outputs : Z;
  rr_input_digest : bytes;
  rr_output_digest : bytes;
  rr_state_digest : bytes;
  rr_checkpoints : list Checkpoint
}.

Record Replay (S H : Type) := mkReplay {
  rp_core : TradingCore S;
  rp_recorder : DigestRecorder H;
  rp_output : list OutputEvent.t;
  rp_checkpoint_interval : Z;
  rp_checkpoints : list Checkpoint
}.

Arguments mkReplay {S H}.
Arguments rp_core {S H}.
Arguments rp_recorder {S H}.
Arguments rp_output {S H}.
Arguments rp_checkpoint_interval {S H}.
Arguments rp_checkpoints {S H}.

Module Driver.
Section Driver.
Context {S : Type} `{SL : Slab OrderNode S} {H : Type} `{B : Blake3 H}.

Definition new (core : TradingCore S) (checkpoint_interval : Z) : Replay S H :=
  mkReplay core Recorder.new [] checkpoint_interval [].

(** [step]; the events it returns are the field [output] it leaves. *)
Definition step (r : Replay S H) (input : EngineInput) : res (Replay S H) :=
  let! recorder := Recorder.record_input (rp_recorder r) input in
  let! (core, output) := Engine.apply (rp_core r) input in
  let! recorder := Recorder.record_outputs recorder output in
  let engine_seq := tc_engine_seq core in
  let! checkpoints :=
    if 0 <? rp_checkpoint_interval r then
      let! k := u64_rem engine_seq (rp_checkpoint_interval r) in
      if k =? 0 then
        let! state := state_digest core in
        Ret (rp_checkpoints r ++ [mkCheckpoint engine_seq state])
      else Ret (rp_checkpoints r)
    else Ret (rp_checkpoints r) in
  Ret (mkReplay core recorder output (rp_checkpoint_interval r) checkpoints).

Fixpoint run (r : Replay S H) (inputs : list EngineInput) : res (Replay S H) :=
  match inputs with
  | [] => Ret r
  | i :: inputs =>
      let! r := step r i in
      run r inputs
  end.

Definition finish (r : Replay S H) : res ReplayResult :=
  let! state := state_digest (rp_core r) in
  Ret (mkReplayResult (dr_inputs (rp_recorder r)) (dr_outputs (rp_recorder r))
         (Recorder.input_digest (rp_recorder r)) (Recorder.output_digest (rp_recorder r))
         state (rp_checkpoints r)).

End Driver.
End Driver.

(** * Hexadecimal digests *)

(** [b"0123456789abcdef"]. *)
Definition HEX : bytes := [48; 49; 50; 51; 52; 53; 54; 55; 56; 57; 97; 98; 99; 100; 101; 102].

Fixpoint digest_hex (digest : bytes) : res bytes :=
  match digest with
  | [] => Ret []
  | byte :: digest =>
      let! high := index HEX (Z.to_nat (Z.shiftr byte 4)) in
      let! low := index HEX (Z.to_nat (Z.land byte 15)) in
      let! out := digest_hex digest in
      Ret ([high; low] ++ out)
  end.
