(* ===== verification/ReplayState.v ===== *)
(** The canonical encodings are prefix-free: from the bytes of a value followed
    by anything, the value and what follows can be told, so a stream of encodings
    determines the stream of values; and the state encoding determines everything
    it lists, the view of the engine's state that [state_digest] hashes. *)

From S2P Require Import Prelude Enums Ids Events Read Canonical CanonicalProps BTree Slab Book.
From S2P Require Import Market Account Config CoreState Replay.

Definition pfree {A} (P : A -> Prop) (enc : A -> bytes) : Prop :=
  forall a b x y, P a -> P b -> enc a ++ x = enc b ++ y -> a = b /\ x = y.

(** * Peeling fields *)

Lemma le_peel n v w x y :
  le_bytes n v ++ x = le_bytes n w ++ y ->
  0 <= v < 256 ^ Z.of_nat n -> 0 <= w < 256 ^ Z.of_nat n -> v = w /\ x = y.
Proof.
  intros E Hv Hw. apply app_inj_1 in E as [E ->]; [| by rewrite !le_bytes_length].
  split; [| done]. rewrite <- (from_le_le_bytes n v), <- (from_le_le_bytes n w) by done. by rewrite E.
Qed.

Lemma le_peel_i64 v w x y :
  le_bytes 8 (as_u64 v) ++ x = le_bytes 8 (as_u64 w) ++ y ->
  in_i64 v -> in_i64 w -> v = w /\ x = y.
Proof.
  intros E Hv Hw. pose proof (as_u64_range v). pose proof (as_u64_range w).
  apply le_peel in E as [E ->]; [| mach | mach]. split; [| done].
  by rewrite <- (as_i64_as_u64 v), <- (as_i64_as_u64 w), E.
Qed.

Lemma cons_peel (v w : Z) x y : [v] ++ x = [w] ++ y -> v = w /\ x = y.
Proof. by intros [= -> ->]. Qed.

#[export] Instance side_wire_inj : Inj (=) (=) Side.wire.
Proof. by intros [] []. Qed.
#[export] Instance order_type_wire_inj : Inj (=) (=) OrderType.wire.
Proof. by intros [] []. Qed.
#[export] Instance request_kind_wire_inj : Inj (=) (=) RequestKind.wire.
Proof. by intros [] []. Qed.
#[export] Instance report_kind_wire_inj : Inj (=) (=) ReportKind.wire.
Proof. by intros [] []. Qed.
#[export] Instance feed_state_wire_inj : Inj (=) (=) FeedState.wire.
Proof. by intros [] []. Qed.
#[export] Instance b2z_inj : Inj (=) (=) Z.b2z.
Proof. by intros [] []. Qed.
#[export] Instance reject_wire_inj : Inj (=) (=) (from_option RejectReason.wire 0).
Proof. by intros [[] |] [[] |]. Qed.

(** Removes the fields at the front of an equation of encodings. *)
Ltac peel1 H :=
  lazymatch type of H with
  | [_] ++ _ = [_] ++ _ => apply cons_peel in H as [? H]
  | _ :: _ = _ :: _ => apply cons_peel in H as [? H]
  | le_bytes _ (as_u64 _) ++ _ = _ =>
      apply le_peel_i64 in H as [? H]; [| solve [done | mach] | solve [done | mach]]
  | le_bytes _ _ ++ _ = le_bytes _ _ ++ _ =>
      apply le_peel in H as [? H]; [| solve [done | mach] | solve [done | mach]]
  end.

Ltac peel H := rewrite <- ?app_assoc in H; repeat (peel1 H; try done).

(** Two records whose fields agree. *)
Ltac same_record a b := split; [destruct a, b; simpl in *; simplify_eq; done | done].

(** * Inputs *)

(** The widths of the Rust types of an input's fields. *)
Definition control_wf (command : ControlCommand.t) : Prop :=
  match command with
  | ControlCommand.SetGlobalKill _ => True
  | ControlCommand.SetAccountEnabled account _ => in_u32 account
  | ControlCommand.SetAccountLimits account limits => in_u32 account /\ limits_wf limits
  end.

Record market_event_wf (e : MarketEvent) : Prop := {
  mewf_instrument : in_u32 (me_instrument e);
  mewf_source_seq : in_u64 (me_source_seq e);
  mewf_source_time : in_u64 (me_source_time_ns e);
  mewf_kind : market_kind_wf (me_kind e)
}.

Definition input_event_wf (e : InputEvent.t) : Prop :=
  match e with
  | InputEvent.Market event => market_event_wf event
  | InputEvent.Order request => request_wf request
  | InputEvent.Control command => control_wf command
  end.

Record input_typed (i : EngineInput) : Prop := {
  itwf_seq : in_u64 (in_ingress_seq i);
  itwf_time : in_u64 (in_recv_time_ns i);
  itwf_event : input_event_wf (in_event i)
}.

Lemma pfree_market_kind : pfree market_kind_wf market_kind_bytes.
Proof.
  intros a b x y Ha Hb H. destruct a, b; unfold market_kind_wf in *; destruct_and?;
    unfold market_kind_bytes in H; peel H; by simplify_eq.
Qed.

Lemma pfree_limits : pfree limits_wf limits_bytes.
Proof. intros a b x y [] [] H. unfold limits_bytes in H. peel H. same_record a b. Qed.

Lemma pfree_order : pfree request_wf order_bytes.
Proof. intros a b x y [] [] H. unfold order_bytes in H. peel H. same_record a b. Qed.

Lemma pfree_control : pfree control_wf control_bytes.
Proof.
  intros a b x y Ha Hb H. destruct a, b; unfold control_wf in *; destruct_and?;
    unfold control_bytes in H; peel H; try by simplify_eq.
  apply pfree_limits in H as [-> ->]; [by subst | done..].
Qed.

Lemma pfree_event : pfree input_event_wf event_bytes.
Proof.
  intros a b x y Ha Hb H. destruct a as [a | a | a], b as [b | b | b];
    unfold input_event_wf in *; unfold event_bytes in H; rewrite <- ?app_assoc in H;
    try (by peel1 H).
  - destruct Ha, Hb. peel H. apply pfree_market_kind in H as [? ->]; [| done..].
    split; [| done]. f_equal. destruct a, b. simpl in *. by simplify_eq.
  - peel H. by apply pfree_order in H as [-> ->].
  - peel H. by apply pfree_control in H as [-> ->].
Qed.

Lemma pfree_input : pfree input_typed input_bytes.
Proof.
  intros a b x y [] [] H. unfold input_bytes in H. peel H.
  apply pfree_event in H as [? ->]; [| done..]. same_record a b.
Qed.

(** * Outputs *)

Lemma bytes_app_inv (a b x y : bytes) :
  a ++ x = b ++ y -> (length a <= length b)%nat -> exists z, b = a ++ z /\ x = z ++ y.
Proof.
  intros E Hl. exists (drop (length a) b).
  assert (Ht : take (length a) b = a).
  { apply (f_equal (take (length a))) in E. rewrite take_app_length, take_app_le in E by done. done. }
  assert (Hb : b = a ++ drop (length a) b) by (rewrite <- Ht at 1; by rewrite take_drop).
  split; [done |]. rewrite Hb in E. rewrite <- app_assoc in E. by apply app_inv_head in E.
Qed.

Lemma output_prefix a b z :
  output_wf a -> output_wf b -> output_bytes b = output_bytes a ++ z -> a = b.
Proof.
  intros Ha Hb E. pose proof (canonical_decode b Hb) as D. unfold decode_output in D.
  rewrite E in D. pose proof (output_bytes_length b) as Hl. rewrite E in Hl.
  rewrite (reads_new _ _ a z (reads_output a Ha)) in D; [| | lia].
  - by injection D as -> _.
  - rewrite <- E. apply output_bytes_bytes.
Qed.

Lemma pfree_output : pfree output_wf output_bytes.
Proof.
  intros a b x y Ha Hb E. assert (a = b) as ->; [| split; [done | by apply app_inv_head in E]].
  destruct (Nat.le_ge_cases (length (output_bytes a)) (length (output_bytes b))).
  - destruct (bytes_app_inv _ _ _ _ E) as (z & Ez & _); [done |]. by eapply output_prefix.
  - destruct (bytes_app_inv _ _ _ _ (eq_sym E)) as (z & Ez & _); [done |].
    symmetry. by eapply output_prefix.
Qed.

(** * Streams *)

Lemma pfree_list {A} (P : A -> Prop) (enc : A -> bytes) l1 l2 x y :
  pfree P enc -> length l1 = length l2 -> Forall P l1 -> Forall P l2 ->
  mjoin (enc <$> l1) ++ x = mjoin (enc <$> l2) ++ y -> l1 = l2 /\ x = y.
Proof.
  intros Hp. revert l2. induction l1 as [| a l1 IH]; intros [| b l2] Hl H1 H2 E; try done.
  apply Forall_cons in H1 as [Ha H1]. apply Forall_cons in H2 as [Hb H2].
  cbn [fmap list_fmap mjoin list_join] in E. rewrite <- !app_assoc in E.
  apply Hp in E as [-> E]; [| done..]. apply IH in E as [-> ->]; [done | by injection Hl | done..].
Qed.

Lemma stream_inj {A} (P : A -> Prop) (enc : A -> bytes) l1 l2 :
  pfree P enc -> (forall a, enc a <> []) -> Forall P l1 -> Forall P l2 ->
  mjoin (enc <$> l1) = mjoin (enc <$> l2) -> l1 = l2.
Proof.
  intros Hp Hne. revert l2. induction l1 as [| a l1 IH]; intros [| b l2] H1 H2 E; try done;
    cbn [fmap list_fmap mjoin list_join] in E.
  - by symmetry in E; apply app_nil in E as [?%Hne _].
  - by apply app_nil in E as [?%Hne _].
  - apply Forall_cons in H1 as [Ha H1]. apply Forall_cons in H2 as [Hb H2].
    apply Hp in E as [-> E]; [| done..]. by rewrite (IH _ H1 H2 E).
Qed.

Lemma input_bytes_nonempty i : input_bytes i <> [].
Proof. intros E%(f_equal length). unfold input_bytes in E. by rewrite length_app, le_bytes_length in E. Qed.

Lemma output_bytes_ne e : output_bytes e <> [].
Proof. by destruct e. Qed.

Lemma input_stream_inj l1 l2 :
  Forall input_typed l1 -> Forall input_typed l2 ->
  mjoin (input_bytes <$> l1) = mjoin (input_bytes <$> l2) -> l1 = l2.
Proof. apply stream_inj; [apply pfree_input | apply input_bytes_nonempty]. Qed.

Lemma output_stream_inj l1 l2 :
  Forall output_wf l1 -> Forall output_wf l2 ->
  mjoin (output_bytes <$> l1) = mjoin (output_bytes <$> l2) -> l1 = l2.
Proof. apply stream_inj; [apply pfree_output | apply output_bytes_ne]. Qed.

(** * The hashed view of the state *)

(** An order as the encoding sees it: id, account, client id, total quantity,
    filled quantity, priority. *)
Record OrderView := mkOrderView {
  ov_order_id : Z; ov_account : Z; ov_client_order_id : Z;
  ov_total_quantity : Z; ov_cumulative_filled : Z; ov_priority : Z
}.

Record InstrumentView := mkInstrumentView {
  iv_id : Z; iv_tick_size : Z; iv_lot_size : Z; iv_min_price : Z; iv_max_price : Z;
  iv_state : FeedState.t; iv_epoch : Z; iv_last_source_seq : Z; iv_last_update : Z;
  iv_last_trade : option Z; iv_snapshot_seq : Z; iv_pending_count : Z;
  iv_bids : list (Z * Z); iv_pending_bids : list (Z * Z);
  iv_asks : list (Z * Z); iv_pending_asks : list (Z * Z);
  iv_book : list (Side.t * Z * list OrderView)
}.

Record DedupView := mkDedupView {
  dv_request_id : Z; dv_fingerprint : Z; dv_order_id : Z;
  dv_kind : ReportKind.t; dv_reject : option RejectReason.t
}.

Record AccountView := mkAccountView {
  av_id : Z; av_enabled : bool; av_limits : AccountLimits; av_last_client_seq : Z;
  av_positions : list InstrumentPosition; av_dedup : list DedupView
}.

Record StateView := mkStateView {
  sv_run_id : Z; sv_max_depth : nat; sv_dedup_window : nat;
  sv_engine_seq : Z; sv_output_seq : Z; sv_time : Z;
  sv_order_id : Z; sv_trade_id : Z; sv_priority : Z; sv_kill : bool;
  sv_instruments : list InstrumentView; sv_accounts : list AccountView
}.

Definition order_view (o : OrderNode) : OrderView :=
  mkOrderView (node_order_id o) (node_account o) (node_client_order_id o)
    (node_total_quantity o) (node_cumulative_filled o) (node_priority o).

Definition row_view (row : Side.t * Z * list OrderNode) : Side.t * Z * list OrderView :=
  let '(side, price, orders) := row in (side, price, order_view <$> orders).

Definition dedup_view (entry : RequestId * Z * ExecutionReport) : DedupView :=
  let '(request_id, fingerprint, outcome) := entry in
  mkDedupView request_id fingerprint (rep_order_id outcome) (rep_kind outcome)
    (rep_reject_reason outcome).

Section View.
Context {S : Type} `{SL : Slab OrderNode S}.

Definition instrument_view (r : InstrumentRuntime S) : res InstrumentView :=
  let cfg := ir_config r in
  let v := ir_market r in
  let! book := Book.snapshot (ir_book r) in
  Ret (mkInstrumentView (ic_id cfg) (ic_tick_size cfg) (ic_lot_size cfg) (ic_min_price_ticks cfg)
         (ic_max_price_ticks cfg) (mv_state v) (mv_epoch v) (mv_last_source_seq v)
         (mv_last_update_time_ns v) (mv_last_trade_price v) (mv_snapshot_seq v)
         (mv_scratch_levels v) (Market.levels v Side.Buy) (Market.pending_levels v Side.Buy)
         (Market.levels v Side.Sell) (Market.pending_levels v Side.Sell) (row_view <$> book)).

Definition account_view (order : list nat) (a : AccountState) : res AccountView :=
  let! positions := collect (index (ac_positions a)) order in
  Ret (mkAccountView (ac_id a) (ac_enabled a) (ac_limits a) (ac_last_client_seq a) positions
         (dedup_view <$> Cache.canonical_entries (ac_cache a))).

Definition state_view (c : TradingCore S) : res StateView :=
  let! instruments :=
    collect (fun i => let! r := index (tc_instruments c) i in instrument_view r)
      (instrument_order c) in
  let! accounts :=
    collect (fun i => let! a := index (tc_accounts c) i in account_view (instrument_order c) a)
      (account_order c) in
  Ret (mkStateView (ec_run_id (tc_config c)) (ec_max_market_depth (tc_config c))
         (ec_dedup_window (tc_config c)) (tc_engine_seq c) (tc_output_seq c) (tc_engine_time_ns c)
         (tc_next_order_id c) (tc_next_trade_id c) (tc_next_priority c) (tc_global_kill c)
         instruments accounts).

End View.

(** * The encoding of the view *)

Definition order_view_bytes (o : OrderView) : bytes :=
  le_bytes 8 (ov_order_id o) ++ le_bytes 4 (ov_account o) ++ le_bytes 8 (ov_client_order_id o)
  ++ le_bytes 8 (ov_total_quantity o) ++ le_bytes 8 (ov_cumulative_filled o)
  ++ le_bytes 8 (ov_priority o).

Definition row_view_bytes (row : Side.t * Z * list OrderView) : bytes :=
  let '(side, price, orders) := row in
  section SECTION_BOOK_LEVEL (length orders) ++ [Side.wire side] ++ le_bytes 8 (as_u64 price)
  ++ mjoin (order_view_bytes <$> orders).

Definition ladder_bytes (tag : Z) (side : Side.t) (l : list (Z * Z)) : bytes :=
  section tag (length l) ++ [Side.wire side] ++ mjoin (price_quantity <$> l).

Definition instrument_view_bytes (v : InstrumentView) : bytes :=
  le_bytes 4 (iv_id v) ++ le_bytes 8 (as_u64 (iv_tick_size v)) ++ le_bytes 8 (iv_lot_size v)
  ++ le_bytes 8 (as_u64 (iv_min_price v)) ++ le_bytes 8 (as_u64 (iv_max_price v))
  ++ [FeedState.wire (iv_state v)] ++ le_bytes 8 (iv_epoch v) ++ le_bytes 8 (iv_last_source_seq v)
  ++ le_bytes 8 (iv_last_update v) ++ optional_price (iv_last_trade v)
  ++ le_bytes 8 (iv_snapshot_seq v) ++ le_bytes 4 (iv_pending_count v)
  ++ ladder_bytes SECTION_MARKET_LEVELS Side.Buy (iv_bids v)
  ++ ladder_bytes SECTION_PENDING_LEVELS Side.Buy (iv_pending_bids v)
  ++ ladder_bytes SECTION_MARKET_LEVELS Side.Sell (iv_asks v)
  ++ ladder_bytes SECTION_PENDING_LEVELS Side.Sell (iv_pending_asks v)
  ++ section SECTION_BOOK_LEVEL (length (iv_book v)) ++ mjoin (row_view_bytes <$> iv_book v).

Definition dedup_view_bytes (d : DedupView) : bytes :=
  le_bytes 8 (dv_request_id d) ++ le_bytes 8 (dv_fingerprint d) ++ le_bytes 8 (dv_order_id d)
  ++ [ReportKind.wire (dv_kind d)] ++ [from_option RejectReason.wire 0 (dv_reject d)].

Definition account_view_bytes (a : AccountView) : bytes :=
  le_bytes 4 (av_id a) ++ [Z.b2z (av_enabled a)] ++ limits_bytes (av_limits a)
  ++ le_bytes 8 (av_last_client_seq a)
  ++ section SECTION_POSITIONS (length (av_positions a)) ++ mjoin (position_bytes <$> av_positions a)
  ++ section SECTION_DEDUP (length (av_dedup a)) ++ mjoin (dedup_view_bytes <$> av_dedup a).

Definition header_view_bytes (v : StateView) : bytes :=
  section SECTION_HEADER 0 ++ le_bytes 4 STATE_SCHEMA_VERSION ++ le_bytes 16 (sv_run_id v)
  ++ le_bytes 8 (Z.of_nat (sv_max_depth v)) ++ le_bytes 8 (Z.of_nat (sv_dedup_window v))
  ++ le_bytes 8 (sv_engine_seq v) ++ le_bytes 8 (sv_output_seq v) ++ le_bytes 8 (sv_time v)
  ++ le_bytes 8 (sv_order_id v) ++ le_bytes 8 (sv_trade_id v) ++ le_bytes 8 (sv_priority v)
  ++ [Z.b2z (sv_kill v)].

Definition state_view_bytes (v : StateView) : bytes :=
  header_view_bytes v ++ header_view_bytes v
  ++ section SECTION_INSTRUMENT (length (sv_instruments v))
  ++ mjoin (instrument_view_bytes <$> sv_instruments v)
  ++ section SECTION_ACCOUNT (length (sv_accounts v))
  ++ mjoin (account_view_bytes <$> sv_accounts v).

(** ** What is hashed is the encoding of the view *)

Lemma collect_map {A B C} (f : A -> res B) (g : A -> res C) (h : B -> C) l ys :
  (forall x y, f x = Ret y -> g x = Ret (h y)) ->
  collect f l = Ret ys -> collect g l = Ret (h <$> ys).
Proof.
  intros Hh. revert ys. induction l as [| x l IH]; intros ys; simpl; [by intros [= <-] |].
  intros (y & Hy & (ys' & Hys & [= <-])%rbind_inv)%rbind_inv.
  rewrite (Hh _ _ Hy). simpl. by rewrite (IH _ Hys).
Qed.

Lemma collect_length {A B} (f : A -> res B) l ys : collect f l = Ret ys -> length ys = length l.
Proof.
  revert ys. induction l as [| x l IH]; intros ys; simpl; [by intros [= <-] |].
  intros (y & Hy & (ys' & Hys & [= <-])%rbind_inv)%rbind_inv. simpl. by rewrite (IH _ Hys).
Qed.

Lemma row_view_same row : row_view_bytes (row_view row) = row_bytes row.
Proof.
  destruct row as [[side price] orders]. unfold row_view_bytes, row_view, row_bytes.
  by rewrite length_fmap, <- list_fmap_compose.
Qed.

Section Views.
Context {S : Type} `{SL : Slab OrderNode S}.

Lemma instrument_view_same (r : InstrumentRuntime S) v :
  instrument_view r = Ret v -> instrument_state r = Ret (instrument_view_bytes v).
Proof.
  unfold instrument_view, instrument_state. intros (book & -> & [= <-])%rbind_inv. cbn [rbind].
  f_equal. unfold instrument_view_bytes, side_section, ladder_bytes. cbn [iv_book].
  rewrite length_fmap, <- list_fmap_compose, <- !app_assoc.
  by rewrite (list_fmap_ext (row_view_bytes ∘ row_view) row_bytes)
    by (intros; apply row_view_same).
Qed.

Lemma account_view_same order (a : AccountState) v :
  account_view order a = Ret v -> account_state order a = Ret (account_view_bytes v).
Proof.
  unfold account_view, account_state. intros (ps & Hps & [= <-])%rbind_inv. rewrite Hps.
  cbn [rbind]. f_equal. unfold account_view_bytes. cbn [av_positions av_dedup].
  rewrite (collect_length _ _ _ Hps), length_fmap, <- list_fmap_compose.
  by rewrite (list_fmap_ext (dedup_view_bytes ∘ dedup_view) dedup_bytes)
    by (by intros ? [[? ?] ?]).
Qed.

Lemma state_view_same (c : TradingCore S) v :
  state_view c = Ret v ->
  exists chunks, state_chunks c = Ret chunks /\ mjoin chunks = state_view_bytes v.
Proof.
  unfold state_view. intros (ivs & His & (accs & Has & [= <-])%rbind_inv)%rbind_inv.
  unfold state_chunks.
  rewrite (collect_map _ (instrument_at c) instrument_view_bytes _ _ ) with (2 := His).
  2:{ unfold instrument_at. intros i v (r & -> & Hr)%rbind_inv. by apply instrument_view_same. }
  rewrite (collect_map _ (account_at c) account_view_bytes _ _) with (2 := Has).
  2:{ unfold account_at. intros i v (a & -> & Ha)%rbind_inv. by apply account_view_same. }
  cbn [rbind]. eexists. split; [done |].
  rewrite <- (collect_length _ _ _ His), <- (collect_length _ _ _ Has).
  rewrite !join_app. unfold state_view_bytes. cbn [mjoin list_join]. rewrite !app_nil_r.
  by rewrite <- !app_assoc.
Qed.

End Views.

(** * Injectivity *)

(** Lengths are [usize]s. *)
Definition count_ok {A} (l : list A) : Prop := Z.of_nat (length l) <= u64_max.

Record order_view_wf (o : OrderView) : Prop := {
  ovwf_order : in_u64 (ov_order_id o); ovwf_account : in_u32 (ov_account o);
  ovwf_client : in_u64 (ov_client_order_id o); ovwf_total : in_u64 (ov_total_quantity o);
  ovwf_filled : in_u64 (ov_cumulative_filled o); ovwf_priority : in_u64 (ov_priority o)
}.

Definition row_view_wf (row : Side.t * Z * list OrderView) : Prop :=
  let '(_, price, orders) := row in in_i64 price /\ count_ok orders /\ Forall order_view_wf orders.

Definition ladder_wf (l : list (Z * Z)) : Prop :=
  count_ok l /\ Forall (fun '(p, q) => in_i64 p /\ in_u64 q) l.

Record instrument_view_wf (v : InstrumentView) : Prop := {
  ivwf_id : in_u32 (iv_id v); ivwf_tick : in_i64 (iv_tick_size v);
  ivwf_lot : in_u64 (iv_lot_size v); ivwf_min : in_i64 (iv_min_price v);
  ivwf_max : in_i64 (iv_max_price v); ivwf_epoch : in_u64 (iv_epoch v);
  ivwf_seq : in_u64 (iv_last_source_seq v); ivwf_time : in_u64 (iv_last_update v);
  ivwf_trade : from_option in_i64 True (iv_last_trade v);
  ivwf_snapshot : in_u64 (iv_snapshot_seq v); ivwf_count : in_u32 (iv_pending_count v);
  ivwf_bids : ladder_wf (iv_bids v); ivwf_pending_bids : ladder_wf (iv_pending_bids v);
  ivwf_asks : ladder_wf (iv_asks v); ivwf_pending_asks : ladder_wf (iv_pending_asks v);
  ivwf_rows : count_ok (iv_book v); ivwf_book : Forall row_view_wf (iv_book v)
}.

Record position_wf (p : InstrumentPosition) : Prop := {
  pwf_lots : in_i64 (position_lots p); pwf_buy : in_u64 (open_buy_lots p);
  pwf_sell : in_u64 (open_sell_lots p); pwf_buy_notional : in_u128 (open_buy_notional p);
  pwf_sell_notional : in_u128 (open_sell_notional p)
}.

Record dedup_view_wf (d : DedupView) : Prop := {
  dvwf_request : in_u64 (dv_request_id d); dvwf_fingerprint : in_u64 (dv_fingerprint d);
  dvwf_order : in_u64 (dv_order_id d)
}.

Record account_view_wf (a : AccountView) : Prop := {
  avwf_id : in_u32 (av_id a); avwf_limits : limits_wf (av_limits a);
  avwf_seq : in_u64 (av_last_client_seq a); avwf_positions_count : count_ok (av_positions a);
  avwf_positions : Forall position_wf (av_positions a); avwf_dedup_count : count_ok (av_dedup a);
  avwf_dedup : Forall dedup_view_wf (av_dedup a)
}.

Record state_view_wf (v : StateView) : Prop := {
  svwf_run : in_u128 (sv_run_id v); svwf_depth : Z.of_nat (sv_max_depth v) <= u64_max;
  svwf_window : Z.of_nat (sv_dedup_window v) <= u64_max; svwf_engine : in_u64 (sv_engine_seq v);
  svwf_output : in_u64 (sv_output_seq v); svwf_time : in_u64 (sv_time v);
  svwf_order : in_u64 (sv_order_id v); svwf_trade : in_u64 (sv_trade_id v);
  svwf_priority : in_u64 (sv_priority v);
  svwf_instruments_count : count_ok (sv_instruments v);
  svwf_instruments : Forall instrument_view_wf (sv_instruments v);
  svwf_accounts_count : count_ok (sv_accounts v);
  svwf_accounts : Forall account_view_wf (sv_accounts v)
}.

Lemma section_peel {A B} tag (l : list A) (l' : list B) x y :
  count_ok l -> count_ok l' -> section tag (length l) ++ x = section tag (length l') ++ y ->
  length l = length l' /\ x = y.
Proof.
  unfold count_ok, section. intros Hl Hl' E. rewrite <- !app_assoc in E. apply cons_peel in E as [_ E].
  apply le_peel in E as [E ->]; [split; [lia | done] | split; [lia | simpl; lia] ..].
Qed.

(** A counted list of prefix-free encodings. *)
Lemma counted_peel {A} (P : A -> Prop) (enc : A -> bytes) tag (l l' : list A) pre pre' x y :
  pfree P enc -> count_ok l -> count_ok l' -> Forall P l -> Forall P l' ->
  (forall x y, pre ++ x = pre' ++ y -> x = y) ->
  section tag (length l) ++ pre ++ mjoin (enc <$> l) ++ x
  = section tag (length l') ++ pre' ++ mjoin (enc <$> l') ++ y ->
  l = l' /\ x = y.
Proof.
  intros Hp Hc Hc' Hl Hl' Hpre E. apply section_peel in E as [En E]; [| done..].
  apply Hpre in E. by eapply pfree_list.
Qed.

Lemma pfree_order_view : pfree order_view_wf order_view_bytes.
Proof. intros a b x y [] [] H. unfold order_view_bytes in H. peel H. same_record a b. Qed.

Lemma pfree_position : pfree position_wf position_bytes.
Proof. intros a b x y [] [] H. unfold position_bytes in H. peel H. same_record a b. Qed.

Lemma pfree_dedup : pfree dedup_view_wf dedup_view_bytes.
Proof. intros a b x y [] [] H. unfold dedup_view_bytes in H. peel H. same_record a b. Qed.

Lemma pfree_level : pfree (fun '(p, q) => in_i64 p /\ in_u64 q) price_quantity.
Proof.
  intros [p q] [p' q'] x y [Hp Hq] [Hp' Hq'] H. unfold price_quantity in H. cbn [fst snd] in H. peel H.
  by subst.
Qed.

Lemma optional_peel o o' x y :
  from_option in_i64 True o -> from_option in_i64 True o' ->
  optional_price o ++ x = optional_price o' ++ y -> o = o' /\ x = y.
Proof.
  intros Ho Ho' H. destruct o, o'; unfold optional_price in H; rewrite <- ?app_assoc in H;
    cbn [from_option] in *; peel1 H; try done.
  - peel1 H. by subst.
  - by peel1 H.
Qed.

Lemma ladder_peel tag side l l' x y :
  ladder_wf l -> ladder_wf l' -> ladder_bytes tag side l ++ x = ladder_bytes tag side l' ++ y ->
  l = l' /\ x = y.
Proof.
  intros [Hc Hl] [Hc' Hl'] H. unfold ladder_bytes in H. rewrite <- !app_assoc in H.
  eapply counted_peel in H; [done | apply pfree_level | done.. |].
  by intros ? ? [_ ?]%cons_peel.
Qed.

Lemma pfree_row : pfree row_view_wf row_view_bytes.
Proof.
  intros [[s p] os] [[s' p'] os'] x y (Hp & Hc & Ho) (Hp' & Hc' & Ho') H.
  unfold row_view_bytes in H. rewrite <- !app_assoc in H.
  apply section_peel in H as [En H]; [| done..]. peel H.
  apply (pfree_list _ _ _ _ _ _ pfree_order_view En Ho Ho') in H as [-> ->]. by simplify_eq.
Qed.

Lemma pfree_instrument : pfree instrument_view_wf instrument_view_bytes.
Proof.
  intros a b x y [] [] H. unfold instrument_view_bytes in H. peel H.
  apply optional_peel in H as [? H]; [| done..]. peel H.
  do 4 (apply ladder_peel in H as [? H]; [| done..]).
  apply section_peel in H as [En H]; [| done..].
  apply (pfree_list _ _ _ _ _ _ pfree_row En) in H as [? ->]; [| done..]. same_record a b.
Qed.

Lemma pfree_account : pfree account_view_wf account_view_bytes.
Proof.
  intros a b x y [] [] H. unfold account_view_bytes in H. peel H.
  apply pfree_limits in H as [? H]; [| done..]. peel H.
  apply section_peel in H as [En H]; [| done..].
  apply (pfree_list _ _ _ _ _ _ pfree_position En) in H as [? H]; [| done..].
  apply section_peel in H as [En2 H]; [| done..].
  apply (pfree_list _ _ _ _ _ _ pfree_dedup En2) in H as [? ->]; [| done..]. same_record a b.
Qed.

(** Everything of the view but its two tables. *)
Definition header_of (v : StateView) :=
  (sv_run_id v, sv_max_depth v, sv_dedup_window v, sv_engine_seq v, sv_output_seq v, sv_time v,
   sv_order_id v, sv_trade_id v, sv_priority v, sv_kill v).

Lemma header_peel v w x y :
  state_view_wf v -> state_view_wf w -> header_view_bytes v ++ x = header_view_bytes w ++ y ->
  header_of v = header_of w /\ x = y.
Proof.
  intros [] [] H. unfold header_view_bytes, section in H.
  assert (0 <= Z.of_nat (sv_max_depth v)) by lia. assert (0 <= Z.of_nat (sv_max_depth w)) by lia.
  peel H. split; [| done]. unfold header_of. simplify_eq. congruence.
Qed.

Lemma state_view_inj v w :
  state_view_wf v -> state_view_wf w -> state_view_bytes v = state_view_bytes w -> v = w.
Proof.
  intros Hv Hw H. rewrite <- (app_nil_r (state_view_bytes v)), <- (app_nil_r (state_view_bytes w)) in H.
  unfold state_view_bytes in H. rewrite <- !app_assoc in H.
  apply header_peel in H as [Eh H]; [| done..]. apply header_peel in H as [_ H]; [| done..].
  destruct Hv, Hw. apply section_peel in H as [En H]; [| done..].
  apply (pfree_list _ _ _ _ _ _ pfree_instrument En) in H as [Ei H]; [| done..].
  apply section_peel in H as [En2 H]; [| done..].
  apply (pfree_list _ _ _ _ _ _ pfree_account En2) in H as [Ea _]; [| done..].
  unfold header_of in Eh. destruct v, w. simpl in *. by simplify_eq.
Qed.
