(* ===== verification/ReplayTheorems.v ===== *)
(** What a replay establishes: complete evidence for every run, and digests
    that identify the streams and the state they were taken of. *)

From S2P Require Import Prelude Enums Ids Events BTree Slab Book BookData BookInv BookCheck.
From S2P Require Import BookSpec Matching MatchSpec MatchProps BookTheorems Market MarketInv.
From S2P Require Import MarketTheorems Account AccountProps Config CoreState Risk Core CoreAcct.
From S2P Require Import CoreExec CoreInv CoreRest RiskProps CoreHandlers CoreApply CoreRun.
From S2P Require Import CoreTheorems Read Canonical CanonicalProps Replay ReplayState.

(** * The state can always be digested *)

Lemma collect_total {A B} (f : A -> res B) l :
  (forall x, x ∈ l -> exists y, f x = Ret y) -> exists ys, collect f l = Ret ys.
Proof.
  induction l as [| x l IH]; intros H; simpl; [by eexists |].
  destruct (H x) as [y ->]; [set_solver |]. simpl.
  destruct IH as [ys ->]; [set_solver |]. by eexists.
Qed.

Lemma insert_by_elem {A} (key : A -> Z) x y l : y ∈ insert_by key x l -> y = x \/ y ∈ l.
Proof.
  induction l as [| z l IH]; simpl; [set_solver |]. case_match; set_solver.
Qed.

Lemma sort_by_elem {A} (key : A -> Z) x l : x ∈ sort_by key l -> x ∈ l.
Proof.
  unfold sort_by. induction l as [| y l IH] using rev_ind; [done |].
  rewrite foldl_app. simpl. intros [-> | Hx]%insert_by_elem; set_solver.
Qed.

Lemma order_by_valid {A} (id : A -> Z) l i : i ∈ order_by id l -> (i < length l)%nat.
Proof.
  unfold order_by. intros ([j a] & -> & Hj%sort_by_elem)%list_elem_of_fmap. simpl.
  apply elem_of_zip_l in Hj. apply elem_of_seq in Hj. lia.
Qed.

Lemma index_valid {A} (l : list A) i : (i < length l)%nat -> exists x, index l i = Ret x /\ l !! i = Some x.
Proof. intros [x Hx]%lookup_lt_is_Some_2. exists x. unfold index. by rewrite Hx. Qed.

Section Total.
Context {S : Type} `{SL : Slab OrderNode S} `{!SlabLaws SL}.

Lemma snapshot_total (b : OrderBook S) : book_wf b -> exists rows, Book.snapshot b = Ret rows.
Proof.
  intros [[A R] _]. destruct R as (q & B & _). unfold Book.snapshot.
  assert (H : forall side ls, exists rows, Book.snapshot_levels b side ls = Ret rows).
  { intros side. induction ls as [| [p l] ls [rows IH]]; simpl; [by eexists |].
    rewrite (level_orders_spec _ _ _ _ B). simpl. rewrite IH. simpl. by eexists. }
  destruct (H Side.Buy (Book.levels b Side.Buy)) as [r1 ->].
  destruct (H Side.Sell (Book.levels b Side.Sell)) as [r2 ->]. simpl. by eexists.
Qed.

Lemma state_view_total (c : TradingCore S) : core_inv c -> exists v, state_view c = Ret v.
Proof.
  intros I. pose proof (cv_ok _ I) as O. unfold state_view.
  match goal with |- exists v, rbind ?m _ = _ => assert (H1 : exists ys, m = Ret ys) end.
  { apply collect_total. intros i Hi%order_by_valid.
    destruct (index_valid _ _ Hi) as (r & -> & Hr). simpl. unfold instrument_view.
    destruct (snapshot_total (ir_book r)) as [rows ->]; [apply (ok_insts _ _ O _ _ Hr) |].
    by eexists. }
  destruct H1 as [ivs ->]. cbn [rbind].
  match goal with |- exists v, rbind ?m _ = _ => assert (H2 : exists ys, m = Ret ys) end.
  { apply collect_total. intros i Hi%order_by_valid.
    destruct (index_valid _ _ Hi) as (a & -> & Ha). simpl. unfold account_view.
    destruct (collect_total (index (ac_positions a)) (instrument_order c)) as [ps ->];
      [| by eexists].
    intros k Hk%order_by_valid. apply lookup_lt_is_Some_2 in Hk.
    destruct (ti_has _ _ k (ok_tinv _ _ O) Hk _ _ Ha) as [p Hp]. exists p. unfold index.
    by rewrite Hp. }
  destruct H2 as [avs ->]. by eexists.
Qed.

Context {H : Type} {B : Blake3 H} {BL : Blake3Laws B}.

Lemma state_digest_view (c : TradingCore S) v :
  state_view c = Ret v -> state_digest (B := B) c = Ret (blake3_hash (state_view_bytes v)).
Proof.
  intros (chunks & E & <-)%state_view_same. unfold state_digest. rewrite E. cbn [rbind].
  by rewrite finalize_updates.
Qed.

End Total.

(** * Replay runs *)

Section Run.
Context {S : Type} `{SL : Slab OrderNode S} `{!SlabLaws SL}.
Context {H : Type} {B : Blake3 H} {BL : Blake3Laws B}.
Implicit Types (c : TradingCore S) (d : DigestRecorder H).

(** What the recorder has been fed. *)
Record recorded d (ins : list EngineInput) (outs : list OutputEvent.t) : Prop := {
  rc_in : dr_input d = foldl hasher_update hasher_new (input_bytes <$> ins);
  rc_out : dr_output d = foldl hasher_update hasher_new (output_bytes <$> outs);
  rc_ins : dr_inputs d = Z.of_nat (length ins);
  rc_outs : dr_outputs d = Z.of_nat (length outs)
}.

Lemma record_input_ok d ins outs i :
  recorded d ins outs -> Z.of_nat (length ins) < u64_max ->
  exists d', Recorder.record_input d i = Ret d' /\ recorded d' (ins ++ [i]) outs.
Proof.
  intros [H1 H2 H3 H4] Hn. unfold Recorder.record_input. rewrite u64_plain_in by mach. cbn [rbind].
  eexists. split; [done |]. constructor; simpl; [| done | rewrite length_app; simpl; lia | done].
  by rewrite fmap_app, foldl_app, <- H1.
Qed.

Lemma record_outputs_ok d ins outs evs :
  recorded d ins outs -> Z.of_nat (length (outs ++ evs)) <= u64_max ->
  exists d', Recorder.record_outputs d evs = Ret d' /\ recorded d' ins (outs ++ evs).
Proof.
  revert d outs. induction evs as [| e evs IH]; intros d outs [H1 H2 H3 H4] Hn; simpl.
  - exists d. by rewrite app_nil_r.
  - rewrite length_app in Hn. simpl in Hn. unfold Recorder.record_output.
    rewrite u64_plain_in by mach. cbn [rbind].
    edestruct (IH (mkDigestRecorder (dr_input d)
                     (hasher_update (dr_output d) (encode_output e []))
                     (encode_output e []) (dr_inputs d) (dr_outputs d + 1)) (outs ++ [e]))
      as (d' & E & R).
    + constructor; simpl; [done | | done | rewrite length_app; simpl; lia].
      by rewrite fmap_app, foldl_app, <- H2.
    + rewrite !length_app. simpl. lia.
    + exists d'. rewrite <- app_assoc in R. done.
Qed.

Lemma engine_run_app c l1 l2 :
  engine_run c (l1 ++ l2)
  = (let! (c, o1) := engine_run c l1 in
     let! (c, o2) := engine_run c l2 in Ret (c, o1 ++ o2)).
Proof.
  revert c. induction l1 as [| i l1 IH]; intros c; simpl; [by destruct (engine_run c l2) as [[] |] |].
  destruct (Engine.apply c i) as [[c1 o1] |]; [| done]. cbn [rbind]. rewrite IH.
  destruct (engine_run c1 l1) as [[c2 o2] |]; [| done]. cbn [rbind].
  destruct (engine_run c2 l2) as [[c3 o3] |]; [| done]. cbn [rbind]. by rewrite app_assoc.
Qed.

Lemma driver_run_app (r : Replay S H) l1 l2 :
  Driver.run r (l1 ++ l2) = (let! r := Driver.run r l1 in Driver.run r l2).
Proof.
  revert r. induction l1 as [| i l1 IH]; intros r; simpl; [done |].
  destruct (Driver.step r i) as [r1 |]; [| done]. cbn [rbind]. apply IH.
Qed.

Context (c0 : TradingCore S) (interval : Z).
Hypothesis Hinterval : 0 < interval.

(** One checkpoint per [interval] inputs, of the state reached there. *)
Definition checkpoints_of (ins : list EngineInput) (cps : list Checkpoint) : Prop :=
  Z.of_nat (length cps) = Z.of_nat (length ins) / interval
  /\ forall j cp, cps !! j = Some cp ->
       cp_engine_seq cp = (Z.of_nat j + 1) * interval
       /\ exists c o, engine_run c0 (take (Z.to_nat ((Z.of_nat j + 1) * interval)) ins) = Ret (c, o)
                      /\ state_digest (B := B) c = Ret (cp_state cp).

Lemma checkpoints_extend ins i cps new :
  checkpoints_of ins cps ->
  let n := Z.of_nat (length ins) + 1 in
  (if n mod interval =? 0 then
     exists cp c o, new = cps ++ [cp] /\ cp_engine_seq cp = n
       /\ engine_run c0 (ins ++ [i]) = Ret (c, o) /\ state_digest (B := B) c = Ret (cp_state cp)
   else new = cps) ->
  checkpoints_of (ins ++ [i]) new.
Proof.
  intros [Hl Hc] n Hnew. unfold checkpoints_of. rewrite length_app. cbn [length].
  replace (Z.of_nat (length ins + 1)) with n by lia.
  assert (Hold : forall j cp, cps !! j = Some cp ->
    cp_engine_seq cp = (Z.of_nat j + 1) * interval
    /\ exists c o, engine_run c0 (take (Z.to_nat ((Z.of_nat j + 1) * interval)) (ins ++ [i]))
                   = Ret (c, o) /\ state_digest (B := B) c = Ret (cp_state cp)).
  { intros j cp Hj. pose proof (lookup_lt_Some _ _ _ Hj) as Hlt.
    destruct (Hc j cp Hj) as (E & c & o & Er & Ed). split; [done |]. exists c, o.
    assert (((Z.of_nat j + 1) * interval) <= Z.of_nat (length ins)).
    { pose proof (Z.mul_div_le (Z.of_nat (length ins)) interval Hinterval). nia. }
    by rewrite take_app_le by lia. }
  pose proof (Z.div_mod n interval ltac:(lia)) as Dn.
  pose proof (Z.mod_pos_bound n interval Hinterval) as Mn.
  pose proof (Z.div_mod (Z.of_nat (length ins)) interval ltac:(lia)) as Dm.
  pose proof (Z.mod_pos_bound (Z.of_nat (length ins)) interval Hinterval) as Mm.
  destruct (Z.eqb_spec (n mod interval) 0) as [E0 | E0].
  - destruct Hnew as (cp & c & o & -> & Es & Er & Ed).
    assert (En : n / interval = Z.of_nat (length cps) + 1) by nia.
    rewrite length_app. cbn [length]. split; [lia |]. intros j cp' Hj.
    apply lookup_app_Some in Hj as [Hj | [Hge Hj]]; [by apply Hold |].
    apply list_lookup_singleton_Some in Hj as [Hz <-].
    assert (Hn : (Z.of_nat j + 1) * interval = n)
      by (replace (Z.of_nat j + 1) with (n / interval) by lia; lia).
    rewrite Hn. split; [done |]. exists c, o. split; [| done].
    rewrite take_ge by (rewrite length_app; simpl; lia). done.
  - subst new. split; [| done]. rewrite Hl. nia.
Qed.

Lemma driver_run_ok ins :
  core_inv c0 -> tc_engine_seq c0 = 0 -> tc_output_seq c0 = 0 ->
  Z.of_nat (length ins) < 2 ^ 32 -> interval <= u64_max -> Forall input_wf ins ->
  exists c out r, engine_run c0 ins = Ret (c, out)
    /\ Driver.run (Driver.new c0 interval) ins = Ret r /\ rp_core r = c
    /\ rp_checkpoint_interval r = interval
    /\ recorded (rp_recorder r) ins out /\ checkpoints_of ins (rp_checkpoints r) /\ core_inv c
    /\ tc_engine_seq c = Z.of_nat (length ins) /\ tc_output_seq c = Z.of_nat (length out).
Proof.
  intros I Hs Ho Hn Hi Hwf. induction ins as [| i ins IH] using rev_ind.
  - exists c0, [], (Driver.new c0 interval). split_and!; try done.
  - apply Forall_app in Hwf as [Hwf [Hwi _]%Forall_cons]. rewrite length_app in Hn. simpl in Hn.
    destruct IH as (c & out & r & Er & Ed & <- & Ei & R & C & I' & S' & O'); [lia | done |].
    destruct (apply_input_ok (rp_core r) i I') as (c1 & o1 & Ea & [I1 S1 _ _ O1]); [mach | done |].
    rewrite engine_run_app, driver_run_app, Er, Ed. cbn [rbind engine_run]. rewrite Ea.
    cbn [rbind engine_run Driver.run]. unfold Driver.step.
    destruct (record_input_ok _ _ _ i R) as (d1 & -> & R1); [mach |]. cbn [rbind]. rewrite Ea.
    cbn [rbind].
    pose proof (core_ok_output _ _ (cv_ok _ I1)) as Hob.
    destruct (record_outputs_ok _ _ _ o1 R1) as (d2 & -> & R2).
    { rewrite length_app. specialize (Hob ltac:(mach)). mach. }
    cbn [rbind]. rewrite Ei, (proj2 (Z.ltb_lt _ _)), u64_rem_ok by lia. cbn [rbind].
    destruct (state_view_total c1 I1) as [v Hv]. apply (state_digest_view (B := B)) in Hv.
    assert (Hfull : engine_run c0 (ins ++ [i]) = Ret (c1, out ++ o1)).
    { rewrite engine_run_app, Er. cbn [rbind engine_run]. rewrite Ea. cbn [rbind].
      by rewrite app_nil_r. }
    exists c1, (out ++ o1). rewrite app_nil_r, length_app. cbn [length].
    replace (Z.of_nat (length ins + 1)) with (tc_engine_seq c1) by lia.
    destruct (tc_engine_seq c1 mod interval =? 0) eqn:Em; [rewrite Hv |]; cbn [rbind];
      (eexists; split; [done |]; split; [reflexivity |]); split_and!; try done;
      try (rewrite length_app; lia).
    all: eapply checkpoints_extend; [exact C |]; cbv zeta; rewrite <- S', <- S1, Em; try done.
    do 3 eexists. split_and!; [done | done | exact Hfull | exact Hv].
Qed.

End Run.

(** * Theorems *)

Section Theorems.
Context {S : Type} `{SL : Slab OrderNode S} `{!SlabLaws SL}.
Context {H : Type} {B : Blake3 H} {BL : Blake3Laws B}.

(** C21: Replay evidence.  A replay of fewer than [2^32] inputs from a
    well-formed configuration always finishes, ends in the state the engine
    reaches on its own, counts every input and every output, digests exactly
    the concatenated encodings of both streams, and takes one checkpoint per
    [interval] inputs, each the digest of the state the engine reaches on that
    prefix of the inputs. *)
Theorem replay_evidence cfg ins interval :
  config_wf cfg -> Z.of_nat (length ins) < 2 ^ 32 -> Forall input_wf ins ->
  0 < interval <= u64_max ->
  exists (c : TradingCore S) out (r : Replay S H) result,
    engine_run (Core.new cfg) ins = Ret (c, out)
    /\ Driver.run (Driver.new (Core.new cfg) interval) ins = Ret r
    /\ Driver.finish r = Ret result
    /\ rp_core r = c
    /\ rr_inputs result = Z.of_nat (length ins) /\ rr_outputs result = Z.of_nat (length out)
    /\ rr_input_digest result = blake3_hash (mjoin (input_bytes <$> ins))
    /\ rr_output_digest result = blake3_hash (mjoin (output_bytes <$> out))
    /\ state_digest (B := B) c = Ret (rr_state_digest result)
    /\ checkpoints_of (B := B) (Core.new cfg) interval ins (rr_checkpoints result).
Proof.
  intros Hcfg Hn Hwf [Hi Hi'].
  destruct (driver_run_ok (B := B) (Core.new cfg) interval Hi ins (new_core_inv cfg Hcfg))
    as (c & out & r & Er & Ed & Ec & _ & [R1 R2 R3 R4] & Hcp & I & _); try done.
  destruct (state_view_total c I) as [v Hv]. apply (state_digest_view (B := B)) in Hv.
  exists c, out, r. unfold Driver.finish. rewrite Ec, Hv. cbn [rbind]. eexists.
  split_and!; try done; simpl; unfold Recorder.input_digest, Recorder.output_digest;
    by rewrite ?R1, ?R2, finalize_updates.
Qed.

(** Digests identify streams.  If two replays end with the same input
    digest and the hash does not collide on the two input streams, they were
    given the same inputs, in the same order; likewise for the outputs. *)
Theorem digests_identify_streams cfg1 cfg2 interval1 interval2 ins1 ins2 (r1 r2 : Replay S H)
    out1 out2 (c1 c2 : TradingCore S) result1 result2 :
  config_wf cfg1 -> config_wf cfg2 ->
  Z.of_nat (length ins1) < 2 ^ 32 -> Z.of_nat (length ins2) < 2 ^ 32 ->
  Forall input_wf ins1 -> Forall input_wf ins2 ->
  Forall input_typed ins1 -> Forall input_typed ins2 ->
  0 < interval1 <= u64_max -> 0 < interval2 <= u64_max ->
  engine_run (Core.new cfg1) ins1 = Ret (c1, out1) ->
  engine_run (Core.new cfg2) ins2 = Ret (c2, out2) ->
  Driver.run (Driver.new (Core.new cfg1) interval1) ins1 = Ret r1 ->
  Driver.run (Driver.new (Core.new cfg2) interval2) ins2 = Ret r2 ->
  Driver.finish r1 = Ret result1 -> Driver.finish r2 = Ret result2 ->
  let no_collision x y := blake3_hash x = blake3_hash y -> x = y in
  (no_collision (mjoin (input_bytes <$> ins1)) (mjoin (input_bytes <$> ins2)) ->
   rr_input_digest result1 = rr_input_digest result2 -> ins1 = ins2)
  /\ (no_collision (mjoin (output_bytes <$> out1)) (mjoin (output_bytes <$> out2)) ->
      Forall output_wf out1 -> Forall output_wf out2 ->
      rr_output_digest result1 = rr_output_digest result2 -> out1 = out2).
Proof.
  intros W1 W2 L1 L2 F1 F2 T1 T2 I1 I2 E1 E2 D1 D2 N1 N2 no_collision.
  destruct (driver_run_ok (B := B) (Core.new cfg1) interval1 (proj1 I1) ins1 (new_core_inv _ W1))
    as (? & ? & ? & E1' & D1' & _ & _ & [A1 B1 _ _] & _); try done; [apply I1 |].
  destruct (driver_run_ok (B := B) (Core.new cfg2) interval2 (proj1 I2) ins2 (new_core_inv _ W2))
    as (? & ? & ? & E2' & D2' & _ & _ & [A2 B2 _ _] & _); try done; [apply I2 |].
  rewrite E1 in E1'. rewrite E2 in E2'. rewrite D1 in D1'. rewrite D2 in D2'. simplify_eq.
  unfold Driver.finish in N1, N2.
  apply rbind_inv in N1 as (s1 & _ & [= <-]), N2 as (s2 & _ & [= <-]).
  simpl. unfold Recorder.input_digest, Recorder.output_digest.
  rewrite A1, A2, B1, B2, !finalize_updates. split.
  - intros Hc Hd. apply input_stream_inj; auto.
  - intros Hc O1 O2 Hd. apply output_stream_inj; auto.
Qed.

(** C22: The state digest identifies the state.  Every variable part of the
    state encoding carries a tag and a count, so no two different states have
    the same encoding: if two digests agree and the hash does not collide on
    the two encodings, the engines agree on every counter, on every
    instrument's configuration, feed state, ladders and book with its queue
    order, and on every account's limits, positions, reservations and recent
    requests, in the order of their ids. *)
Theorem state_digest_identifies_state (c1 c2 : TradingCore S) v1 v2 :
  core_inv c1 -> core_inv c2 ->
  state_view c1 = Ret v1 -> state_view c2 = Ret v2 -> state_view_wf v1 -> state_view_wf v2 ->
  (blake3_hash (state_view_bytes v1) = blake3_hash (state_view_bytes v2) ->
   state_view_bytes v1 = state_view_bytes v2) ->
  (exists digest, state_digest (B := B) c1 = Ret digest)
  /\ (state_digest (B := B) c1 = state_digest (B := B) c2 -> v1 = v2).
Proof.
  intros I1 I2 V1 V2 W1 W2 Hc.
  rewrite (state_digest_view (B := B) c1 v1 V1), (state_digest_view (B := B) c2 v2 V2).
  split; [by eexists |]. intros [= Hd]. apply state_view_inj; auto.
Qed.

End Theorems.

(** * Witnesses

    The hash instantiated with the identity, which has no collisions. *)

#[export] Instance plain_hash : Blake3 bytes := {|
  hasher_new := [];
  hasher_update h bs := h ++ bs;
  hasher_finalize h := h
|}.

Lemma plain_updates (chunks : list bytes) (h : bytes) :
  foldl (fun h bs => h ++ bs) h chunks = h ++ mjoin chunks.
Proof.
  revert h. induction chunks as [| x chunks IH]; intros h; simpl; [by rewrite app_nil_r |].
  by rewrite IH, app_assoc.
Qed.

#[export] Instance plain_laws : Blake3Laws plain_hash.
Proof. exists (fun bs => bs). intros chunks. apply (plain_updates chunks []). Defined.

Lemma sample_inputs_typed : Forall input_typed sample_inputs.
Proof. by repeat constructor. Qed.

Lemma replay_evidence_witness :
  exists (c : TradingCore (gmap nat OrderNode)) out (r : Replay (gmap nat OrderNode) bytes) result,
    engine_run (Core.new sample_config) sample_inputs = Ret (c, out)
    /\ Driver.run (Driver.new (Core.new sample_config) 2) sample_inputs = Ret r
    /\ Driver.finish r = Ret result
    /\ rp_core r = c
    /\ rr_inputs result = Z.of_nat (length sample_inputs)
    /\ rr_outputs result = Z.of_nat (length out)
    /\ rr_input_digest result = blake3_hash (mjoin (input_bytes <$> sample_inputs))
    /\ rr_output_digest result = blake3_hash (mjoin (output_bytes <$> out))
    /\ state_digest (B := plain_hash) c = Ret (rr_state_digest result)
    /\ checkpoints_of (B := plain_hash) (Core.new sample_config) 2 sample_inputs
         (rr_checkpoints result).
Proof.
  apply (replay_evidence (B := plain_hash) sample_config sample_inputs 2);
    [apply sample_config_wf | done | apply sample_inputs_wf | done].
Defined.

(** The view of a state that has one. *)
Definition view_of (c : TradingCore (gmap nat OrderNode)) : StateView :=
  match state_view c with
  | Ret v => v
  | Panic => mkStateView 0 0 0 0 0 0 0 0 0 false [] []
  end.

Lemma view_of_ok c : core_inv c -> state_view c = Ret (view_of c).
Proof. intros I. unfold view_of. by destruct (state_view_total c I) as [v ->]. Qed.

Lemma sample_view_wf : state_view_wf (view_of (sample_state 6)).
Proof. vm_compute. constructor; vm_compute; try done; repeat constructor; done. Qed.

Lemma start_view_wf : state_view_wf (view_of (sample_state 0)).
Proof. vm_compute. constructor; vm_compute; try done; repeat constructor; done. Qed.

(** The states before and after the sample run. *)
Lemma state_digest_identifies_state_witness :
  (exists digest, state_digest (B := plain_hash) (sample_state 0) = Ret digest)
  /\ (state_digest (B := plain_hash) (sample_state 0)
      = state_digest (B := plain_hash) (sample_state 6) ->
      view_of (sample_state 0) = view_of (sample_state 6)).
Proof.
  exact (state_digest_identifies_state (B := plain_hash) (sample_state 0) (sample_state 6)
           (view_of (sample_state 0)) (view_of (sample_state 6))
           (sample_state_inv 0) (sample_state_inv 6)
           (view_of_ok _ (sample_state_inv 0)) (view_of_ok _ (sample_state_inv 6))
           start_view_wf sample_view_wf (fun E => E)).
Defined.

(** A replay of inputs of the sample, by its result. *)
Lemma sample_replay k :
  exists c out (r : Replay (gmap nat OrderNode) bytes) result,
    engine_run (Core.new sample_config) (take k sample_inputs) = Ret (c, out)
    /\ Driver.run (Driver.new (Core.new sample_config) 2) (take k sample_inputs) = Ret r
    /\ Driver.finish r = Ret result.
Proof.
  destruct (driver_run_ok (B := plain_hash) (S := gmap nat OrderNode) (Core.new sample_config) 2
              ltac:(lia) (take k sample_inputs) (new_core_inv _ sample_config_wf))
    as (c & out & r & E & D & Hc & _ & _ & _ & I & _); try done.
  - rewrite length_take. simpl length. lia.
  - apply Forall_take, sample_inputs_wf.
  - destruct (state_view_total c I) as [v Hv]. apply (state_digest_view (B := plain_hash)) in Hv.
    exists c, out, r. unfold Driver.finish. rewrite Hc, Hv. eexists. split_and!; done.
Qed.

Lemma two_interval : 0 < 2 <= u64_max.
Proof. lia. Qed.

Lemma digests_identify_streams_witness :
  exists out1 out2 result1 result2,
    let no_collision x y := blake3_hash (B := plain_hash) x = blake3_hash (B := plain_hash) y -> x = y in
    (no_collision (mjoin (input_bytes <$> take 6 sample_inputs))
       (mjoin (input_bytes <$> take 5 sample_inputs)) ->
     rr_input_digest result1 = rr_input_digest result2 ->
     take 6 sample_inputs = take 5 sample_inputs)
    /\ (no_collision (mjoin (output_bytes <$> out1)) (mjoin (output_bytes <$> out2)) ->
        Forall output_wf out1 -> Forall output_wf out2 ->
        rr_output_digest result1 = rr_output_digest result2 -> out1 = out2).
Proof.
  destruct (sample_replay 6) as (c1 & out1 & r1 & result1 & E1 & D1 & N1).
  destruct (sample_replay 5) as (c2 & out2 & r2 & result2 & E2 & D2 & N2).
  exists out1, out2, result1, result2.
  exact (digests_identify_streams (S := gmap nat OrderNode) (B := plain_hash)
           sample_config sample_config 2 2
           (take 6 sample_inputs) (take 5 sample_inputs) r1 r2 out1 out2 c1 c2 result1 result2
           sample_config_wf sample_config_wf eq_refl eq_refl
           (Forall_take _ 6 _ sample_inputs_wf) (Forall_take _ 5 _ sample_inputs_wf)
           (Forall_take _ 6 _ sample_inputs_typed) (Forall_take _ 5 _ sample_inputs_typed)
           two_interval two_interval E1 E2 D1 D2 N1 N2).
Defined.
