(* ===== verification/CoreTyped.v ===== *)
(** Every event the engine emits fits the widths of its fields, so that it has a
    canonical encoding that decodes to it.

    The state carries a typing: the nodes of the books, the recorded outcomes,
    the identifiers and the counters are in their widths.  The handlers keep it,
    whatever branch they take, so the proofs follow the code. *)

From S2P Require Import Prelude Enums Ids Events BTree Slab Book Matching Market Account Config.
From S2P Require Import CoreState Risk Core CoreApply CoreRun CoreTheorems Read Canonical CanonicalProps.
From S2P Require Import Replay ReplayState ReplayTheorems.

(** * Partial correctness *)

(** If the computation returns, its value satisfies [Q]. *)
Definition post {A} (m : res A) (Q : A -> Prop) : Prop := forall a, m = Ret a -> Q a.

Lemma post_ret {A} (a : A) (Q : A -> Prop) : Q a -> post (Ret a) Q.
Proof. by intros H b [= <-]. Qed.

Lemma post_bind {A B} (m : res A) (k : A -> res B) (P : A -> Prop) (Q : B -> Prop) :
  post m P -> (forall a, P a -> post (k a) Q) -> post (rbind m k) Q.
Proof. intros Hm Hk b (a & Ha & Hb)%rbind_inv. by apply (Hk a (Hm a Ha)). Qed.

Lemma post_any {A} (m : res A) : post m (fun _ => True).
Proof. done. Qed.

Lemma post_mono {A} (m : res A) (P Q : A -> Prop) : post m P -> (forall a, P a -> Q a) -> post m Q.
Proof. intros Hm H a Ha. auto. Qed.

Lemma post_unwrap {A} (o : option A) (Q : A -> Prop) :
  (forall a, o = Some a -> Q a) -> post (unwrap o) Q.
Proof. intros H a. destruct o; [intros [= <-]; auto | done]. Qed.

Lemma post_u64_checked z : post (unwrap (u64_checked z)) in_u64.
Proof. apply post_unwrap. intros a [-> H]%u64_checked_Some. done. Qed.

Lemma post_u64_plain z : post (u64_plain z) in_u64.
Proof. apply post_u64_checked. Qed.

Lemma post_index {A} (l : list A) i (Q : A -> Prop) : Forall Q l -> post (index l i) Q.
Proof. intros Hl. apply post_unwrap. intros a Ha. by eapply Forall_lookup_1. Qed.

Lemma post_index_set {A} (l : list A) i x (Q : A -> Prop) :
  Forall Q l -> Q x -> post (index_set l i x) (Forall Q).
Proof.
  intros Hl Hx l'. unfold index_set. destruct (l !! i); [| done]. intros [= <-]. by apply Forall_insert.
Qed.

(** The same for code with [?]: only a value that is [Ok] counts. *)
Definition qpost {A E} (m : res (Result A E)) (Q : A -> Prop) : Prop := forall a, m = Ret (Ok a) -> Q a.

Lemma qpost_ok {A E} (a : A) (Q : A -> Prop) : Q a -> qpost (E := E) (Ret (Ok a)) Q.
Proof. by intros H b [= <-]. Qed.

Lemma qpost_qbind {A B E} (m : res (Result A E)) (k : A -> res (Result B E)) (P : A -> Prop) (Q : B -> Prop) :
  qpost m P -> (forall a, P a -> qpost (k a) Q) -> qpost (qbind m k) Q.
Proof. intros Hm Hk b (a & Ha & Hb)%qbind_ok_inv. by apply (Hk a (Hm a Ha)). Qed.

Lemma qpost_rbind {A B E} (m : res A) (k : A -> res (Result B E)) (P : A -> Prop) (Q : B -> Prop) :
  post m P -> (forall a, P a -> qpost (k a) Q) -> qpost (rbind m k) Q.
Proof. intros Hm Hk b (a & Ha & Hb)%rbind_inv. by apply (Hk a (Hm a Ha)). Qed.

Lemma qpost_any {A E} (m : res (Result A E)) : qpost m (fun _ => True).
Proof. done. Qed.

Lemma qpost_ok_or {A E} (o : option A) (e : E) (Q : A -> Prop) :
  (forall a, o = Some a -> Q a) -> qpost (ok_or o e) Q.
Proof. intros H a Ha%ok_or_ok_inv. auto. Qed.

(** [bind_any] passes a computation whose value does not matter. *)
Ltac bind_with H := eapply post_bind; [apply H |].
Ltac bind_any := eapply post_bind; [apply post_any |]; intros ? _.

(** * The book *)

Record node_typed (n : OrderNode) : Prop := {
  nt_id : in_u64 (node_order_id n);
  nt_account : in_u32 (node_account n);
  nt_client : in_u64 (node_client_order_id n);
  nt_price : in_i64 (node_price n);
  nt_total : in_u64 (node_total_quantity n);
  nt_cumulative : in_u64 (node_cumulative_filled n)
}.

Record order_typed (o : NewOrder) : Prop := {
  ot_id : in_u64 (no_order_id o);
  ot_account : in_u32 (no_account o);
  ot_client : in_u64 (no_client_order_id o);
  ot_price : in_i64 (no_price o);
  ot_total : in_u64 (no_total_quantity o);
  ot_cumulative : in_u64 (no_cumulative_filled o)
}.

Record fill_typed (f : Fill) : Prop := {
  ft_id : in_u64 (fill_maker_order_id f);
  ft_account : in_u32 (fill_maker_account f);
  ft_client : in_u64 (fill_maker_client_order_id f);
  ft_price : in_i64 (fill_price f);
  ft_quantity : in_u64 (fill_quantity f);
  ft_total : in_u64 (fill_maker_total_quantity f);
  ft_cumulative : in_u64 (fill_maker_cumulative_filled f);
  ft_remaining : in_u64 (fill_maker_remaining f)
}.

Definition levels_typed (l : BTreeMap PriceLevel) : Prop := Forall (fun level => in_i64 level.1) l.

Section Books.
Context {S : Type} `{SL : Slab OrderNode S} `{!SlabLaws SL}.
Implicit Types (b : OrderBook S).

Record book_typed (b : OrderBook S) : Prop := {
  bt_bids : levels_typed (bids b);
  bt_asks : levels_typed (asks b);
  bt_orders : map_Forall (fun _ => node_typed) (slab_view (orders b))
}.

Lemma typed_insert_level k (v : PriceLevel) l : in_i64 k -> levels_typed l -> levels_typed (BTree.insert k v l).
Proof.
  intros Hk Hl. apply Forall_forall. intros kv [-> | H]%BTree.elem_insert; [done |].
  by eapply (proj1 (Forall_forall _ _) Hl).
Qed.

Lemma typed_remove_level k l : levels_typed l -> levels_typed (BTree.remove k l).
Proof.
  intros Hl. apply Forall_forall. intros kv H%BTree.elem_remove. by eapply (proj1 (Forall_forall _ _) Hl).
Qed.

Lemma side_levels_typed b side : book_typed b -> levels_typed (Book.side_levels b side).
Proof. intros []. by destruct side. Qed.

Lemma set_levels_typed b side l : book_typed b -> levels_typed l -> book_typed (Book.set_levels b side l).
Proof. intros [] Hl. by destruct side; constructor. Qed.

Lemma set_index_typed b i : book_typed b -> book_typed (Book.set_index b i).
Proof. intros []. by constructor. Qed.

Lemma put_level_typed b side k (v : PriceLevel) :
  book_typed b -> in_i64 k ->
  book_typed (Book.set_levels b side (BTree.insert k v (Book.side_levels b side))).
Proof. intros Hb Hk. apply set_levels_typed, typed_insert_level, side_levels_typed; done. Qed.

Lemma node_post b slot :
  book_typed b -> post (Book.node b slot) (fun n => node_typed n /\ is_Some (slab_view (orders b) !! slot)).
Proof.
  intros [_ _ Ho]. apply post_unwrap. intros n Hn. rewrite slab_get_view in Hn. split; [by eapply Ho | by eexists].
Qed.

Lemma set_node_typed b slot n :
  book_typed b -> is_Some (slab_view (orders b) !! slot) -> node_typed n ->
  book_typed (Book.set_orders b (slab_set (orders b) slot n)).
Proof.
  intros [] Hs Hn. constructor; simpl; try done. rewrite slab_set_view by done. by apply map_Forall_insert_2.
Qed.

Lemma node_update_post b slot f :
  book_typed b -> (forall n, node_typed n -> node_typed (f n)) -> post (Book.node_update b slot f) book_typed.
Proof.
  intros Hb Hf. eapply post_bind; [by apply node_post |]. intros n [Hn Hs]. apply post_ret.
  apply set_node_typed; auto.
Qed.

Lemma set_next_typed n p : node_typed n -> node_typed (node_set_next n p).
Proof. intros []. by constructor. Qed.

Lemma set_prev_typed n p : node_typed n -> node_typed (node_set_prev n p).
Proof. intros []. by constructor. Qed.

#[local] Hint Resolve set_next_typed set_prev_typed put_level_typed set_index_typed : core.

Lemma insert_post b order :
  book_typed b -> order_typed order -> post (Book.insert b order) (fun r => book_typed r.1).
Proof.
  intros Hb Ho. unfold Book.insert. destruct (Book.is_full b); [by apply post_ret |].
  destruct (u64_checked _) as [rem |]; [| by apply post_ret].
  destruct (Book.level_overflows b order rem); [by apply post_ret |].
  destruct (slab_insert _ (orders b)) as [slot s] eqn:Es.
  assert (Hb' : book_typed (Book.set_index (Book.set_orders b s) (<[no_order_id order := slot]>
                              (order_index (Book.set_orders b s))))).
  { apply set_index_typed. destruct Hb, Ho. constructor; simpl; try done.
    apply slab_insert_view in Es as ->. by apply map_Forall_insert_2. }
  eapply (post_bind _ _ (fun r => book_typed r.1)).
  - destruct (level_tail _); [| by apply post_ret].
    eapply post_bind; [apply node_update_post; auto |]. intros b1 Hb1.
    eapply post_bind; [apply node_update_post; auto |]. intros b2 Hb2. by apply post_ret.
  - intros [b1 level] Hb1. bind_any. bind_any. apply post_ret. simpl in *. apply put_level_typed; [done | apply Ho].
Qed.

Lemma unlink_post b n : book_typed b -> node_typed n -> post (Book.unlink b n) book_typed.
Proof.
  intros Hb Hn. unfold Book.unlink. destruct (BTree.get _ _) as [level |]; [| by apply post_ret].
  eapply (post_bind _ _ (fun r => book_typed r.1)).
  { destruct (node_prev n); [| by apply post_ret].
    eapply post_bind; [apply node_update_post; auto |]. intros b1 Hb1. by apply post_ret. }
  intros [b1 l1] Hb1. eapply (post_bind _ _ (fun r => book_typed r.1)).
  { destruct (node_next n); [| by apply post_ret].
    eapply post_bind; [apply node_update_post; auto |]. intros b2 Hb2. by apply post_ret. }
  intros [b2 l2] Hb2. bind_any. bind_any. apply post_ret. simpl in *. apply set_levels_typed; [done |].
  case_match; [apply typed_remove_level | apply typed_insert_level; [apply Hn |]]; by apply side_levels_typed.
Qed.

Lemma take_node_post b slot :
  book_typed b ->
  post (unwrap (slab_remove (orders b) slot)) (fun r => node_typed r.1 /\ book_typed (Book.set_orders b r.2)).
Proof.
  intros [Hbi Ha Ho]. apply post_unwrap. intros [n s] E.
  destruct (slab_view (orders b) !! slot) as [n' |] eqn:En.
  - destruct (slab_remove_view _ _ _ En) as (s' & E' & V). rewrite E in E'. injection E' as <- <-. simpl.
    split; [by eapply Ho |]. constructor; simpl; try done. rewrite V. by apply map_Forall_delete.
  - by rewrite slab_remove_vacant in E.
Qed.

Lemma remove_post b id :
  book_typed b ->
  post (Book.remove b id) (fun r => book_typed r.1 /\ forall n, r.2 = Some n -> node_typed n).
Proof.
  intros Hb. unfold Book.remove. destruct (order_index b !! id) as [slot |]; [| by apply post_ret].
  eapply post_bind; [apply take_node_post; by apply set_index_typed |]. intros [n s] [Hn Hb1]. simpl in *.
  eapply post_bind; [by apply unlink_post |]. intros b2 Hb2. apply post_ret. by split; [| intros ? [= <-]].
Qed.

Lemma set_total_typed n q : in_u64 q -> node_typed n -> node_typed (node_set_total n q).
Proof. intros Hq []. by constructor. Qed.

Lemma set_cumulative_typed n q : in_u64 q -> node_typed n -> node_typed (node_set_cumulative n q).
Proof. intros Hq []. by constructor. Qed.

Lemma reduce_total_post b id q : book_typed b -> in_u64 q -> post (Book.reduce_total b id q) book_typed.
Proof.
  intros Hb Hq. unfold Book.reduce_total. destruct (order_index b !! id) as [slot |]; [| by apply post_ret].
  eapply post_bind; [by apply node_post |]. intros n [Hn Hs]. bind_any. bind_any.
  assert (Hb1 : book_typed (Book.set_orders b (slab_set (orders b) slot (node_set_total n q))))
    by (apply set_node_typed; auto using set_total_typed).
  destruct (BTree.get _ _); [| by apply post_ret]. bind_any. apply post_ret.
  apply put_level_typed; [done | apply Hn].
Qed.

Lemma fill_maker_post b slot q :
  book_typed b -> post (Book.fill_maker b slot q) (fun r => book_typed r.1 /\ node_typed r.2).
Proof.
  intros Hb. unfold Book.fill_maker. eapply post_bind; [by apply node_post |]. intros n [Hn Hs].
  eapply post_bind; [apply post_u64_checked |]. intros k Hk. bind_any.
  pose proof (set_cumulative_typed n k Hk Hn) as Hn'.
  assert (Hb1 : book_typed (Book.set_orders b (slab_set (orders b) slot (node_set_cumulative n k))))
    by (by apply set_node_typed).
  eapply (post_bind _ _ book_typed).
  { destruct (BTree.get _ _); [| by apply post_ret]. bind_any. apply post_ret.
    apply put_level_typed; [done | apply Hn]. }
  intros b2 Hb2. destruct (QuantityLots.is_zero _); [| by apply post_ret].
  eapply post_bind; [apply take_node_post; by apply set_index_typed |]. intros [m s] [Hm Hb3]. simpl in *.
  eapply post_bind; [by apply unlink_post |]. intros b4 Hb4. by apply post_ret.
Qed.

Lemma get_post b id :
  book_typed b -> post (Book.get b id) (fun o => forall n, o = Some n -> node_typed n).
Proof.
  intros Hb. unfold Book.get. destruct (order_index b !! id); [| by apply post_ret].
  eapply post_bind; [by apply node_post |]. intros x [Hx _]. apply post_ret. by intros ? [= <-].
Qed.

Lemma remaining_post n : post (remaining n) in_u64.
Proof. apply post_u64_checked. Qed.

(** * Matching *)

Lemma eligible_typed b side limit p :
  book_typed b -> Book.next_eligible_price b side limit = Some p -> in_i64 p.
Proof.
  intros [Hbi Ha _]. unfold Book.next_eligible_price.
  destruct side; [destruct (BTree.last (bids b)) as [[k v] |] eqn:E | destruct (BTree.first (asks b)) as [[k v] |] eqn:E];
    try done.
  - apply BTree.last_elem in E. pose proof (proj1 (Forall_forall _ _) Hbi _ E).
    destruct limit; [case_match; [done |] |]; by intros [= <-].
  - unfold BTree.first in E. apply head_Some_elem_of in E. pose proof (proj1 (Forall_forall _ _) Ha _ E).
    destruct limit; [case_match; [done |] |]; by intros [= <-].
Qed.

Definition matched_typed (r : OrderBook S * Z * list Fill) : Prop :=
  book_typed r.1.1 /\ in_u64 r.1.2 /\ Forall fill_typed r.2.

Lemma match_level_post fuel : forall b side price rem fills,
  book_typed b -> in_i64 price -> in_u64 rem -> Forall fill_typed fills ->
  post (match_level fuel b side price rem fills) matched_typed.
Proof.
  induction fuel as [| fuel IH]; intros b side price rem fills Hb Hp Hr Hf; [done |]. cbn [match_level].
  destruct (Z.ltb_spec 0 rem); [| by apply post_ret].
  destruct (Book.head_slot b side price) as [slot |]; [| by apply post_ret].
  eapply post_bind; [by apply node_post |]. intros m [Hm _].
  eapply post_bind; [apply remaining_post |]. intros mr Hmr.
  eapply post_bind; [by apply fill_maker_post |]. intros [b1 m1] [Hb1 Hm1]. simpl in *.
  eapply post_bind; [apply post_u64_plain |]. intros rem1 Hrem1.
  eapply post_bind; [apply remaining_post |]. intros ar Har.
  apply IH; [done | done | done |]. apply Forall_app_2; [done |]. constructor; [| constructor].
  destruct Hm, Hm1. constructor; simpl; try done. mach.
Qed.

Lemma match_prices_post fuel : forall b side limit rem fills,
  book_typed b -> in_u64 rem -> Forall fill_typed fills ->
  post (match_prices fuel b side limit rem fills) matched_typed.
Proof.
  induction fuel as [| fuel IH]; intros b side limit rem fills Hb Hr Hf; [done |]. cbn [match_prices].
  destruct (Z.ltb_spec 0 rem); [| by apply post_ret].
  destruct (Book.next_eligible_price b side (Some limit)) as [p |] eqn:Ep; [| by apply post_ret].
  eapply post_bind; [apply match_level_post; try done; by eapply eligible_typed |].
  intros [[b1 r1] f1] (Hb1 & Hr1 & Hf1). by apply IH.
Qed.

Lemma match_order_post b side limit q fills :
  book_typed b -> in_u64 q -> Forall fill_typed fills ->
  post (match_order b side limit q fills)
    (fun r => book_typed r.1.1 /\ Forall fill_typed r.1.2 /\ in_u64 r.2).
Proof.
  intros Hb Hq Hf. unfold match_order. eapply post_bind; [by apply match_prices_post |].
  intros [[b1 r1] f1] (Hb1 & Hr1 & Hf1). simpl in *.
  eapply post_bind; [apply post_u64_plain |]. intros n Hn. by apply post_ret.
Qed.

End Books.

(** * The engine *)

Definition account_typed (a : AccountState) : Prop :=
  in_u32 (ac_id a)
  /\ Forall (fun cell => forall entry, cell = Some entry -> report_wf (cr_outcome entry)) (rc_entries (ac_cache a)).

Section Engine.
Context {S : Type} `{SL : Slab OrderNode S} `{!SlabLaws SL}.
Implicit Types (c : TradingCore S) (out : list OutputEvent.t).

Definition runtime_typed (r : InstrumentRuntime S) : Prop :=
  in_u32 (ic_id (ir_config r)) /\ book_typed (ir_book r).

Record typed (c : TradingCore S) : Prop := {
  ty_engine : in_u64 (tc_engine_seq c);
  ty_output : in_u64 (tc_output_seq c);
  ty_order : in_u64 (tc_next_order_id c);
  ty_time : in_u64 (tc_engine_time_ns c);
  ty_instruments : Forall runtime_typed (tc_instruments c);
  ty_accounts : Forall account_typed (tc_accounts c);
  ty_clients : map_Forall (fun _ id => in_u64 id) (tc_client_orders c)
}.

Ltac kept := by intros []; constructor.

Lemma typed_fault c f : typed c -> typed (Core.set_fault c f).
Proof. kept. Qed.
Lemma typed_metrics c m : typed c -> typed (Core.set_metrics c m).
Proof. kept. Qed.
Lemma typed_fills c f : typed c -> typed (Core.set_fills c f).
Proof. kept. Qed.
Lemma typed_live c m : typed c -> typed (Core.set_live_orders c m).
Proof. kept. Qed.
Lemma typed_trade_id c n : typed c -> typed (Core.set_next_trade_id c n).
Proof. kept. Qed.
Lemma typed_priority c n : typed c -> typed (Core.set_next_priority c n).
Proof. kept. Qed.
Lemma typed_kill c k : typed c -> typed (Core.set_global_kill c k).
Proof. kept. Qed.
Lemma typed_order_id c n : in_u64 n -> typed c -> typed (Core.set_next_order_id c n).
Proof. intros Hn. kept. Qed.
Lemma typed_forget c key : typed c -> typed (Core.set_client_orders c (delete key (tc_client_orders c))).
Proof. intros []. constructor; simpl; try done. by apply map_Forall_delete. Qed.
Lemma typed_remember c key id :
  in_u64 id -> typed c -> typed (Core.set_client_orders c (<[key := id]> (tc_client_orders c))).
Proof. intros Hi []. constructor; simpl; try done. by apply map_Forall_insert_2. Qed.

#[local] Hint Resolve typed_fault typed_metrics typed_fills typed_live typed_trade_id typed_priority
  typed_kill typed_order_id typed_forget typed_remember : core.

Lemma instrument_post c i : typed c -> post (Core.instrument c i) runtime_typed.
Proof. intros []. by apply post_index. Qed.

Lemma account_post c i : typed c -> post (Core.account c i) account_typed.
Proof. intros []. by apply post_index. Qed.

Lemma book_post c i : typed c -> post (Core.book c i) book_typed.
Proof. intros H. eapply post_bind; [by apply instrument_post |]. intros r [_ Hb]. by apply post_ret. Qed.

Lemma put_instrument_post c i r : typed c -> runtime_typed r -> post (Core.put_instrument c i r) typed.
Proof.
  intros [] Hr. eapply post_bind; [by apply post_index_set |]. intros l Hl. apply post_ret. by constructor.
Qed.

Lemma put_account_post c i a : typed c -> account_typed a -> post (Core.put_account c i a) typed.
Proof.
  intros [] Ha. eapply post_bind; [by apply post_index_set |]. intros l Hl. apply post_ret. by constructor.
Qed.

Lemma put_book_post c i b : typed c -> book_typed b -> post (Core.put_book c i b) typed.
Proof.
  intros Hc Hb. eapply post_bind; [by apply instrument_post |]. intros r [Hr _]. by apply put_instrument_post.
Qed.

Lemma put_position_post c i j p : typed c -> post (Core.put_position c i j p) typed.
Proof.
  intros Hc. eapply post_bind; [by apply account_post |]. intros a Ha. bind_any. by apply put_account_post.
Qed.

Lemma reserve_post c i j side lots price : typed c -> post (Engine.reserve c i j side lots price) typed.
Proof.
  intros Hc. unfold Engine.reserve. destruct (QuantityLots.checked_notional _ _); [| apply post_ret; by apply typed_fault].
  bind_any. destruct (Position.reserve _ _ _ _) as [p ok]. eapply post_bind; [by apply put_position_post |].
  intros c1 Hc1. apply post_ret. destruct ok; [done | by apply typed_fault].
Qed.

Lemma release_post c i j side lots price :
  typed c -> post (Engine.release_reservation c i j side lots price) typed.
Proof.
  intros Hc. unfold Engine.release_reservation. destruct (QuantityLots.is_zero lots); [by apply post_ret |].
  destruct (QuantityLots.checked_notional _ _); [| apply post_ret; by apply typed_fault].
  bind_any. destruct (Position.release _ _ _ _) as [p ok]. eapply post_bind; [by apply put_position_post |].
  intros c1 Hc1. apply post_ret. destruct ok; [done | by apply typed_fault].
Qed.

Lemma settle_taker_post c i j side q : typed c -> post (Engine.settle_taker c i j side q) typed.
Proof.
  intros Hc. unfold Engine.settle_taker. bind_any. destruct (apply_fill_to_position _ _ _) as [p ok].
  eapply post_bind; [by apply put_position_post |]. intros c1 Hc1. apply post_ret.
  destruct ok; [done | by apply typed_fault].
Qed.

Lemma settle_fill_post c i j fill side : typed c -> post (Engine.settle_fill c i j fill side) typed.
Proof.
  intros Hc. unfold Engine.settle_fill. eapply post_bind; [by apply release_post |]. intros c1 Hc1.
  by apply settle_taker_post.
Qed.

(** ** Reports *)

Lemma take_output_seq_typed c :
  typed c -> typed (Core.take_output_seq c).1 /\ in_u64 (Core.take_output_seq c).2.
Proof.
  intros Hc. unfold Core.take_output_seq. destruct (next (tc_output_seq c)) as [n |] eqn:En; simpl.
  - apply next_Some in En as [-> Hn]. split; [destruct Hc; by constructor | done].
  - split; [by apply typed_fault | apply Hc].
Qed.

Lemma base_report_typed c request id :
  typed c -> request_wf request -> in_u64 id ->
  typed (Core.base_report c request id).1 /\ report_wf (Core.base_report c request id).2.
Proof.
  intros Hc Hr Hi. unfold Core.base_report. destruct (take_output_seq_typed c Hc) as [Hc1 Hs].
  destruct (Core.take_output_seq c) as [c1 s]. simpl in *. split; [done |].
  destruct Hc1, Hr. constructor; simpl; try done; unfold QuantityLots.ZERO; mach.
Qed.

Lemma report_with_wf r kind state k rem :
  report_wf r -> in_u64 k -> in_u64 rem -> report_wf (Core.report_with r kind state k rem).
Proof. intros [] Hk Hm. by constructor. Qed.

Lemma report_of_order_wf r id side : report_wf r -> in_u64 id -> report_wf (Core.report_of_order r id side).
Proof. intros [] Hi. by constructor. Qed.

Lemma report_price_total_wf r p t :
  report_wf r -> in_i64 p -> in_u64 t -> report_wf (Core.report_price_total r p t).
Proof. intros [] Hp Ht. by constructor. Qed.

Lemma report_last_fill_wf r q p : report_wf r -> in_u64 q -> in_i64 p -> report_wf (Core.report_last_fill r q p).
Proof. intros [] Hq Hp. by constructor. Qed.

Lemma report_reject_wf r reason : report_wf r -> report_wf (Core.report_reject r reason).
Proof. intros []. by constructor. Qed.

Lemma zero_u64 : in_u64 0.
Proof. mach. Qed.

#[local] Hint Resolve report_with_wf report_of_order_wf report_price_total_wf report_last_fill_wf
  report_reject_wf zero_u64 : core.

(** What a handler hands back. *)
Definition reports (p : TradingCore S * ExecutionReport) : Prop := typed p.1 /\ report_wf p.2.

(** Every other report starts from [base_report]. *)
Lemma report_from c request id (f : ExecutionReport -> ExecutionReport) :
  typed c -> request_wf request -> in_u64 id -> (forall r, report_wf r -> report_wf (f r)) ->
  reports (let '(c, r) := Core.base_report c request id in (c, f r)).
Proof.
  intros Hc Hr Hi Hf. destruct (base_report_typed c request id Hc Hr Hi) as [H1 H2].
  destruct (Core.base_report c request id). split; simpl in *; auto.
Qed.

Lemma reject_typed c request reason : typed c -> request_wf request -> reports (Core.reject_report c request reason).
Proof.
  intros Hc Hr. apply (report_from c request 0); try done. intros r Hw.
  apply report_reject_wf, report_with_wf; [done | apply Hw | apply zero_u64].
Qed.

Lemma overflow_typed c request : typed c -> request_wf request -> reports (Engine.overflow_report c request).
Proof. intros Hc Hr. apply reject_typed; [by apply typed_fault | done]. Qed.

(** ** Execution *)

Definition emitted_typed (p : TradingCore S * list OutputEvent.t) : Prop := typed p.1 /\ Forall output_wf p.2.

Lemma bump_trades_post c : typed c -> post (Engine.bump_trades c) typed.
Proof. intros Hc. unfold Engine.bump_trades. bind_any. apply post_ret. by apply typed_metrics. Qed.

Lemma forget_maker_typed c fill : typed c -> typed (Engine.forget_maker c fill).
Proof.
  intros Hc. unfold Engine.forget_maker. destruct (maker_is_filled fill); [| done].
  by apply (typed_forget (Core.set_live_orders c _)), typed_live.
Qed.

Lemma maker_report_wf c s instrument fill side :
  typed c -> in_u64 s -> in_u32 instrument -> fill_typed fill ->
  report_wf (Engine.maker_report c s instrument fill side).
Proof. intros [] Hs Hi []. by constructor. Qed.

Lemma taker_report_typed c request id side q k fill :
  typed c -> request_wf request -> in_u64 id -> in_u64 k -> fill_typed fill ->
  reports (Engine.taker_report c request id side q k fill).
Proof.
  intros Hc Hr Hi Hk Hf. unfold Engine.taker_report.
  destruct (base_report_typed c request id Hc Hr Hi) as [H1 H2].
  destruct (Core.base_report c request id) as [c1 r]. simpl in *.
  assert (Hw : report_wf (Core.report_of_order r (rep_client_order_id r) side))
    by (apply report_of_order_wf; [done | apply H2]).
  destruct (u64_checked (q - k)) as [rem |] eqn:E.
  - apply u64_checked_Some in E as [-> Hrem]. split; [done |]. destruct Hf. by apply report_last_fill_wf; [apply report_with_wf | |].
  - split; [by apply typed_fault |]. destruct Hf.
    apply report_last_fill_wf; [apply report_with_wf; [done | done | apply zero_u64] | done | done].
Qed.

Lemma settle_fills_post fills : forall c i a request id side q instrument k out,
  typed c -> request_wf request -> in_u64 id -> in_u32 instrument -> Forall fill_typed fills ->
  Forall output_wf out ->
  post (Engine.settle_fills c i a request id side q instrument fills k out) emitted_typed.
Proof.
  induction fills as [| fill fills IH]; intros c i a request id side q instrument k out Hc Hr Hi Hn Hf Ho;
    cbn [Engine.settle_fills]; [by apply post_ret |].
  apply Forall_cons in Hf as [Hf Hfs].
  destruct (u64_checked (k + fill_quantity fill)) as [k1 |] eqn:Ek;
    [| apply post_ret; split; [by apply typed_fault | done]].
  apply u64_checked_Some in Ek as [-> Hk1].
  destruct (next (tc_next_trade_id c)) as [t |] eqn:Et;
    [| apply post_ret; split; [by apply typed_fault | done]].
  apply next_Some in Et as [-> Ht].
  eapply post_bind; [by apply bump_trades_post, typed_trade_id |]. intros c1 Hc1. bind_any.
  eapply post_bind; [by apply settle_fill_post |]. intros c2 Hc2.
  eapply post_bind; [by apply settle_taker_post |]. intros c3 Hc3.
  destruct (take_output_seq_typed c3 Hc3) as [Hc4 Hs4]. destruct (Core.take_output_seq c3) as [c4 s4]. simpl in *.
  destruct (take_output_seq_typed c4 Hc4) as [Hc5 Hs5]. destruct (Core.take_output_seq c4) as [c5 s5]. simpl in *.
  destruct (taker_report_typed (Engine.forget_maker c5 fill) request id side q (k + fill_quantity fill) fill)
    as [Hc6 Hw]; try done; [by apply forget_maker_typed |].
  destruct (Engine.taker_report _ _ _ _ _ _ _) as [c6 r6]. simpl in *.
  apply IH; try done. apply Forall_app_2; [apply Forall_app_2; [apply Forall_app_2; [done |] |] |];
    (constructor; [| constructor]).
  - destruct Hc4, Hf, Hr. by constructor.
  - by apply maker_report_wf.
  - done.
Qed.

Lemma execute_post c i a request id side limit q out :
  typed c -> request_wf request -> in_u64 id -> in_u64 q -> Forall output_wf out ->
  post (Engine.execute c i a request id side limit q out)
    (fun r => emitted_typed r.1 /\ in_u64 r.2).
Proof.
  intros Hc Hr Hi Hq Ho. unfold Engine.execute.
  eapply post_bind; [by apply book_post, typed_fills |]. intros b Hb.
  eapply post_bind; [by apply match_order_post |]. intros [[b1 fs] filled] (Hb1 & Hfs & Hfl). simpl in *.
  eapply post_bind; [apply put_book_post; [by apply typed_fills | done] |]. intros c1 Hc1.
  pose proof (typed_fills c1 fs Hc1) as Hc2.
  destruct (QuantityLots.is_zero filled); [by apply post_ret |].
  eapply post_bind; [by apply instrument_post |]. intros r [Hid _].
  eapply post_bind; [by apply settle_fills_post |]. intros [c3 out3] [Hc3 Ho3]. by apply post_ret.
Qed.

Lemma rest_order_post c i a client side price total filled id :
  typed c -> in_u64 client -> in_i64 price -> in_u64 total -> in_u64 filled -> in_u64 id ->
  post (Engine.rest_order_with c i a client side price total filled id) typed.
Proof.
  intros Hc Hcl Hp Ht Hf Hi. unfold Engine.rest_order_with.
  destruct (next (tc_next_priority c)) as [n |]; [| apply post_ret; by apply typed_fault].
  pose proof (typed_priority c n Hc) as Hc0.
  eapply post_bind; [by apply account_post |]. intros ac [Hac _].
  eapply post_bind; [by apply book_post |]. intros b Hb.
  eapply post_bind; [by apply insert_post |]. intros [b1 inserted] Hb1. simpl in *.
  eapply post_bind; [by apply put_book_post |]. intros c1 Hc1.
  destruct inserted; [| by apply post_ret].
  destruct (u64_checked (total - filled)); [| apply post_ret; by apply typed_fault].
  eapply post_bind; [by apply reserve_post |]. intros c2 Hc2. apply post_ret.
  by apply (typed_remember (Core.set_live_orders c2 _)), typed_live.
Qed.

(** ** Handlers *)

Definition handled_typed (r : TradingCore S * list OutputEvent.t * ExecutionReport) : Prop :=
  emitted_typed r.1 /\ report_wf r.2.

Lemma with_out_post out p : Forall output_wf out -> reports p -> post (Engine.with_out out p) handled_typed.
Proof. intros Ho [Hc Hw]. destruct p. by apply post_ret. Qed.

(** The last report of a handler. *)
Lemma final_post c request id out (f : ExecutionReport -> ExecutionReport) :
  typed c -> request_wf request -> in_u64 id -> Forall output_wf out ->
  (forall r, report_wf r -> report_wf (f r)) ->
  post (let '(c, r) := Core.base_report c request id in Ret (c, out, f r)) handled_typed.
Proof.
  intros Hc Hr Hi Ho Hf. destruct (base_report_typed c request id Hc Hr Hi) as [H1 H2].
  destruct (Core.base_report c request id) as [c1 r]. apply post_ret. split; [by split | by apply Hf].
Qed.

Lemma handle_new_post c request out :
  typed c -> request_wf request -> Forall output_wf out -> post (Engine.handle_new c request out) handled_typed.
Proof.
  intros Hc Hr Ho. unfold Engine.handle_new. bind_any.
  destruct a as [checked | reason]; [| apply with_out_post; [done | by apply reject_typed]].
  destruct (next (tc_next_order_id c)) as [id |] eqn:En;
    [| apply with_out_post; [done | apply reject_typed; [by apply typed_fault | done]]].
  apply next_Some in En as [-> Hid].
  eapply post_bind; [apply execute_post; try done; [by apply typed_order_id | apply Hr] |].
  intros [[c1 out1] filled] [[Hc1 Ho1] Hf]. simpl in *.
  destruct (u64_checked (req_quantity request - filled)) as [rem |] eqn:Er;
    [| apply with_out_post; [done | by apply overflow_typed]].
  apply u64_checked_Some in Er as [-> Hrem]. destruct (QuantityLots.is_zero _).
  { apply with_out_post; [done |]. apply report_from; auto. }
  case_bool_decide.
  { apply with_out_post; [done |]. apply report_from; [done | done | done |]. intros r Hw.
    apply report_with_wf; [apply report_price_total_wf; [done | apply Hw | apply Hr] | done | apply zero_u64]. }
  eapply post_bind; [destruct Hr; by apply rest_order_post |]. intros c2 Hc2.
  apply final_post; auto.
Qed.

Lemma handle_cancel_post c request :
  typed c -> request_wf request -> post (Engine.handle_cancel c request) reports.
Proof.
  intros Hc Hr. unfold Engine.handle_cancel. case_match; [apply post_ret; by apply reject_typed |].
  destruct (tc_client_orders c !! _) as [id |] eqn:Eid; [| apply post_ret; by apply reject_typed].
  assert (Hid : in_u64 id) by (by eapply (ty_clients c Hc)).
  destruct (tc_live_orders c !! id) as [live |]; [| apply post_ret; by apply reject_typed].
  eapply post_bind; [by apply book_post |]. intros b Hb.
  eapply post_bind; [by apply remove_post |]. intros [b1 removed] [Hb1 Hn]. simpl in *.
  eapply post_bind; [by apply put_book_post |]. intros c1 Hc1.
  eapply post_bind; [apply post_unwrap; exact Hn |]. intros n Hnt. bind_any.
  eapply post_bind; [by apply release_post |]. intros c2 Hc2.
  set (c3 := Core.set_client_orders _ _).
  assert (Hc3 : typed c3) by (apply (typed_forget (Core.set_live_orders c2 _)); by apply typed_live).
  pose proof (report_from c3 request id (fun report => Core.report_with
    (Core.report_price_total (Core.report_of_order report (node_client_order_id n) (node_side n))
       (node_price n) (node_total_quantity n)) ReportKind.Cancelled OrderState.Cancelled
    (node_cumulative_filled n) QuantityLots.ZERO) Hc3 Hr Hid) as H1.
  destruct (Core.base_report c3 request id). apply post_ret, H1. destruct Hnt. intros r Hw.
  apply report_with_wf; auto.
Qed.

Lemma check_replace_post c request :
  typed c ->
  qpost (Risk.check_replace c request) (fun k => in_u64 (cr_order_id k) /\ node_typed (cr_existing k)).
Proof.
  intros Hc. unfold Risk.check_replace.
  do 2 (eapply qpost_qbind; [apply qpost_any |]; intros ? _).
  eapply qpost_qbind; [apply qpost_ok_or; intros id Hid; exact (ty_clients c Hc _ _ Hid) |]. intros id Hid.
  eapply qpost_rbind; [by apply book_post |]. intros b Hb.
  eapply qpost_rbind; [by apply get_post |]. intros found Hf.
  eapply qpost_qbind; [apply qpost_ok_or; exact Hf |]. intros e He.
  repeat match goal with
         | |- qpost (qbind _ _) _ => eapply qpost_qbind; [apply qpost_any |]; intros ? _
         | |- qpost (rbind _ _) _ => eapply qpost_rbind; [apply post_any |]; intros ? _
         end.
  by apply qpost_ok.
Qed.

Section Replace.
Context (c : TradingCore S) (request : OrderRequest) (checked : CheckedReplace).
Hypothesis Hc : typed c.
Hypothesis Hr : request_wf request.
Hypothesis Hid : in_u64 (cr_order_id checked).
Hypothesis He : node_typed (cr_existing checked).

Lemma replace_cancelled_typed c' :
  typed c' -> reports (Core.replace_cancelled_report c' request (cr_order_id checked) (cr_existing checked)).
Proof.
  intros Hc'. apply report_from; [done | done | done |]. intros r Hw. destruct He. apply report_with_wf; auto.
Qed.

Lemma replace_reduce_post : post (Engine.replace_reduce c request checked) reports.
Proof.
  unfold Engine.replace_reduce. destruct (u64_checked _); [| apply post_ret; by apply overflow_typed].
  eapply post_bind; [by apply release_post |]. intros c1 Hc1.
  eapply post_bind; [by apply book_post |]. intros b Hb.
  eapply post_bind; [apply reduce_total_post; [done | apply Hr] |]. intros b1 Hb1.
  eapply post_bind; [by apply put_book_post |]. intros c2 Hc2.
  destruct (req_quantity request =? node_cumulative_filled (cr_existing checked)).
  - eapply post_bind; [by apply book_post |]. intros b2 Hb2.
    eapply post_bind; [by apply remove_post |]. intros [b3 o] [Hb3 _]. simpl in *.
    eapply post_bind; [by apply put_book_post |]. intros c3 Hc3. apply post_ret, replace_cancelled_typed.
    by apply (typed_forget (Core.set_live_orders c3 _)), typed_live.
  - destruct (base_report_typed c2 request (cr_order_id checked) Hc2 Hr Hid) as [H1 H2].
    destruct (Core.base_report c2 request (cr_order_id checked)) as [c3 r]. simpl in *.
    destruct (u64_checked _) as [rem |] eqn:Er; apply post_ret; [| by apply overflow_typed].
    apply u64_checked_Some in Er as [-> Hrem]. destruct He. split; simpl; auto.
Qed.

Lemma replace_reenter_post out :
  Forall output_wf out -> post (Engine.replace_reenter c request checked out) handled_typed.
Proof.
  intros Ho. unfold Engine.replace_reenter.
  eapply post_bind; [by apply book_post |]. intros b Hb.
  eapply post_bind; [by apply remove_post |]. intros [b1 o] [Hb1 _]. simpl in *.
  eapply post_bind; [by apply put_book_post |]. intros c1 Hc1. bind_any.
  eapply post_bind; [by apply release_post |]. intros c2 Hc2.
  set (c3 := Core.set_client_orders _ _).
  assert (Hc3 : typed c3) by (apply (typed_forget (Core.set_live_orders c2 _)); by apply typed_live).
  case_match; [apply with_out_post; [done | by apply replace_cancelled_typed] |].
  destruct (u64_checked (_ - _)) as [rem |] eqn:Er; [| apply with_out_post; [done | by apply overflow_typed]].
  apply u64_checked_Some in Er as [-> Hrem].
  eapply post_bind; [by apply execute_post |]. intros [[c4 out4] filled] [[Hc4 Ho4] Hf]. simpl in *.
  destruct (u64_checked (_ + _)) as [k |] eqn:Ek; [| apply with_out_post; [done | by apply overflow_typed]].
  apply u64_checked_Some in Ek as [-> Hk]. destruct He, Hr. case_match.
  { apply final_post; auto. }
  eapply post_bind; [by apply rest_order_post |]. intros c5 Hc5.
  destruct (base_report_typed c5 request (cr_order_id checked) Hc5 Hr Hid) as [H1 H2].
  destruct (Core.base_report c5 request (cr_order_id checked)) as [c6 r]. simpl in *.
  destruct (u64_checked _) as [rem |] eqn:Em; apply post_ret.
  - apply u64_checked_Some in Em as [-> Hm]. split; [by split | simpl; auto].
  - split; [split; [by apply typed_fault | done] |]. simpl. unfold QuantityLots.ZERO. auto.
Qed.

End Replace.

Lemma handle_replace_post c request out :
  typed c -> request_wf request -> Forall output_wf out -> post (Engine.handle_replace c request out) handled_typed.
Proof.
  intros Hc Hr Ho res. unfold Engine.handle_replace. intros (k & Ek & H)%rbind_inv. revert res H.
  change (post (match k with Err reason => Engine.with_out out (Core.reject_report c request reason) | Ok checked =>
    if (req_price request =? node_price (cr_existing checked))
         && (req_quantity request <? node_total_quantity (cr_existing checked)) then
        let! p := Engine.replace_reduce c request checked in Engine.with_out out p
      else Engine.replace_reenter c request checked out end) handled_typed).
  destruct k as [checked | reason]; [| apply with_out_post; [done | by apply reject_typed]].
  destruct (check_replace_post c request Hc checked Ek) as [Hid He]. case_match.
  - eapply post_bind; [by apply replace_reduce_post |]. intros p Hp. by apply with_out_post.
  - by apply replace_reenter_post.
Qed.

(** ** Inputs *)

Lemma record_outcome_post c i request fp report :
  typed c -> report_wf report -> post (Engine.record_outcome c i request fp report) typed.
Proof.
  intros Hc Hw. unfold Engine.record_outcome. eapply post_bind; [by apply account_post |]. intros a [Ha Hcache].
  eapply (post_bind _ _ (fun cache => Forall (fun cell => forall entry, cell = Some entry ->
    report_wf (cr_outcome entry)) (rc_entries cache))).
  - unfold Cache.record. bind_any. eapply post_bind; [apply post_index_set; [exact Hcache |] |].
    { by intros ? [= <-]. }
    intros entries Hes. bind_any. by apply post_ret.
  - intros cache Hk. apply put_account_post; [done |]. by case_match.
Qed.

Lemma lookup_typed (a : AccountState) id fp r :
  account_typed a -> Cache.lookup (ac_cache a) id fp = Some (Retry r) -> report_wf r.
Proof.
  intros [_ Hc]. unfold Cache.lookup. destruct (rc_index _ !! id) as [slot |]; [| done].
  destruct (rc_entries _ !! slot) as [[entry |] |] eqn:E; [| done | done].
  pose proof (Forall_lookup_1 _ _ _ _ Hc E entry eq_refl) as Hw.
  repeat case_match; intros [= <-]; done.
Qed.

(** A counter moves. *)
Ltac bumps := bind_any; apply post_ret; by apply typed_metrics.

Lemma apply_fresh_post c request fp out :
  typed c -> request_wf request -> Forall output_wf out ->
  post (Engine.apply_fresh_request c request fp out) emitted_typed.
Proof.
  intros Hc Hr Ho. unfold Engine.apply_fresh_request. eapply (post_bind _ _ handled_typed).
  { destruct (req_kind request); [by apply handle_new_post | | by apply handle_replace_post].
    eapply post_bind; [by apply handle_cancel_post |]. intros p Hp. by apply with_out_post. }
  intros [[c1 out1] report] [[Hc1 Ho1] Hw]. simpl in *. eapply (post_bind _ _ typed).
  { case_bool_decide; unfold Engine.bump_rejected, Engine.bump_accepted; bumps. }
  intros c2 Hc2. eapply (post_bind _ _ typed).
  { destruct (tc_account_index c2 !! _); [by apply record_outcome_post | by apply post_ret]. }
  intros c3 Hc3. apply post_ret. split; [done |]. apply Forall_app_2; [done |]. by constructor.
Qed.

Lemma apply_request_post c request out :
  typed c -> request_wf request -> Forall output_wf out -> post (Engine.apply_request c request out) emitted_typed.
Proof.
  intros Hc Hr Ho. unfold Engine.apply_request.
  destruct (tc_account_index c !! _) as [i |]; [| by apply apply_fresh_post].
  eapply post_bind; [by apply account_post |]. intros a Ha.
  destruct (Cache.lookup _ _ _) as [[previous |] |] eqn:El; [| | by apply apply_fresh_post].
  - apply lookup_typed in El; [| done]. unfold Engine.retry_report.
    destruct (take_output_seq_typed c Hc) as [Hc1 Hs]. destruct (Core.take_output_seq c) as [c1 s]. simpl in *.
    apply post_ret. split; [done |]. apply Forall_app_2; [done |]. constructor; [| constructor].
    destruct Hc1, El. by constructor.
  - destruct (reject_typed c request RejectReason.DuplicateRequestConflict Hc Hr) as [Hc1 Hw].
    destruct (Core.reject_report _ _ _) as [c1 r]. simpl in *.
    eapply post_bind; [by apply record_outcome_post |]. intros c2 Hc2. apply post_ret. split; [done |].
    apply Forall_app_2; [done | by constructor].
Qed.

Lemma push_state_typed c event out :
  typed c -> state_event_wf event -> Forall output_wf out -> emitted_typed (Core.push_state c event out).
Proof.
  intros Hc He Ho. unfold Core.push_state. destruct (take_output_seq_typed c Hc) as [Hc1 Hs].
  destruct (Core.take_output_seq c) as [c1 s]. simpl in *. split; [done |]. apply Forall_app_2; [done |].
  constructor; [| constructor]. destruct Hc1. by constructor.
Qed.

Lemma apply_market_post c event out :
  typed c -> market_event_wf event -> Forall output_wf out -> post (Engine.apply_market c event out) emitted_typed.
Proof.
  intros Hc He Ho. unfold Engine.apply_market. eapply (post_bind _ _ typed).
  { unfold Engine.bump_market. bumps. }
  intros c1 Hc1. destruct (tc_instrument_index c1 !! _); [| by apply post_ret].
  eapply post_bind; [by apply instrument_post |]. intros r Hr. bind_any. destruct a as [v update].
  eapply post_bind; [by apply put_instrument_post |]. intros c2 Hc2.
  destruct (state_changed update); apply post_ret; [| done]. apply push_state_typed; [done | apply He | done].
Qed.

Lemma apply_control_post c command out :
  typed c -> control_wf command -> Forall output_wf out -> post (Engine.apply_control c command out) emitted_typed.
Proof.
  intros Hc Hw Ho. unfold Engine.apply_control. eapply (post_bind _ _ typed).
  { unfold Engine.bump_control. bumps. }
  intros c1 Hc1. destruct command as [engaged | account enabled | account limits]; simpl in Hw.
  - case_match; apply post_ret; [done |]. apply push_state_typed; [by apply typed_kill | by destruct engaged | done].
  - destruct (tc_account_index c1 !! account); [| by apply post_ret].
    eapply post_bind; [by apply account_post |]. intros a Ha. case_match; [by apply post_ret |].
    eapply post_bind; [by apply put_account_post |]. intros c2 Hc2. apply post_ret. by apply push_state_typed.
  - destruct (tc_account_index c1 !! account); [| by apply post_ret].
    eapply post_bind; [by apply account_post |]. intros a Ha.
    eapply post_bind; [by apply put_account_post |]. intros c2 Hc2. apply post_ret.
    apply push_state_typed; [done | apply Hw | done].
Qed.

Lemma apply_post c input : typed c -> input_typed input -> post (Engine.apply c input) emitted_typed.
Proof.
  intros Hc [_ Ht He]. unfold Engine.apply. destruct (tc_fault c); [by apply post_ret |].
  destruct (next (tc_engine_seq c)) as [n |] eqn:En; [| apply post_ret; split; [by apply typed_fault | done]].
  apply next_Some in En as [-> Hn].
  assert (Hc1 : typed (Core.set_engine_time_ns (Core.set_engine_seq c (tc_engine_seq c + 1)) (in_recv_time_ns input)))
    by (destruct Hc; by constructor).
  eapply (post_bind _ _ typed).
  { unfold Engine.bump_inputs. bumps. }
  intros c2 Hc2. eapply (post_bind _ _ emitted_typed).
  { unfold input_event_wf in He. destruct (in_event input);
      [by apply apply_market_post | by apply apply_request_post | by apply apply_control_post]. }
  intros [c3 out] [Hc3 Ho]. simpl in *. eapply (post_bind _ _ typed).
  { unfold Engine.bump_reports. bumps. }
  intros c4 Hc4. by apply post_ret.
Qed.

Lemma run_post ins : forall c, typed c -> Forall input_typed ins -> post (engine_run c ins) emitted_typed.
Proof.
  induction ins as [| i ins IH]; intros c Hc Hi; cbn [engine_run]; [by apply post_ret |].
  apply Forall_cons in Hi as [Hi His]. eapply post_bind; [by apply apply_post |].
  intros [c1 out] [Hc1 Ho]. simpl in *. eapply post_bind; [by apply IH |]. intros [c2 rest] [Hc2 Hrest].
  apply post_ret. split; [done |]. by apply Forall_app_2.
Qed.

(** The identifiers of a configuration have the width of their types. *)
Definition config_typed (cfg : EngineConfig) : Prop :=
  Forall (fun i => in_u32 (ic_id i)) (ec_instruments cfg)
  /\ Forall (fun a => in_u32 (acfg_id a)) (ec_accounts cfg).

Lemma new_typed cfg : config_typed cfg -> typed (Core.new cfg).
Proof.
  intros [Hi Ha]. constructor; simpl; try mach.
  - apply Forall_map. eapply Forall_impl; [exact Hi |]. intros i Hid. split; [done |].
    constructor; simpl; [constructor | constructor |]. rewrite slab_new_view. apply map_Forall_empty.
  - apply Forall_map. eapply Forall_impl; [exact Ha |]. intros a Hid. split; [done |]. simpl.
    apply Forall_replicate. done.
  - apply map_Forall_empty.
Qed.

(** A value of the input type meets the conditions the handlers need. *)
Lemma typed_wf i : input_typed i -> input_wf i.
Proof. intros [_ _ H]. unfold input_wf, input_event_wf in *. destruct (in_event i); try done. apply H. Qed.

Lemma typed_all_wf ins : Forall input_typed ins -> Forall input_wf ins.
Proof. intros H. eapply Forall_impl; [exact H | exact typed_wf]. Qed.

(** C7: Every output fits.  From the initial state, fewer than [2^32] inputs of
    the input type run to the end, and every field of every event the engine
    emits is in the range of its Rust type: sequence numbers, order and trade
    identifiers, accounts, prices, quantities, remainders and totals.  They are
    numbered densely from one and name an input of the run.  The
    canonical encoder truncates nothing: every emitted event decodes from its
    encoding, all of it. *)
Theorem outputs_fit (cfg : EngineConfig) (inputs : list EngineInput)
    (Hcfg : config_wf cfg) (Hids : config_typed cfg) (Hlen : Z.of_nat (length inputs) < 2 ^ 32)
    (Hin : Forall input_typed inputs) :
  exists (c : TradingCore S) out,
    engine_run (Core.new cfg) inputs = Ret (c, out)
    /\ Forall output_wf out
    /\ (forall i e, out !! i = Some e ->
          OutputEvent.output_seq e = 1 + Z.of_nat i
          /\ 0 < OutputEvent.engine_seq e <= Z.of_nat (length inputs))
    /\ Forall (fun e => decode_output (output_bytes e) = Ret (Ok (e, length (output_bytes e)))) out.
Proof.
  destruct (engine_run_new cfg inputs Hcfg Hlen (typed_all_wf _ Hin)) as (c & out & E & _ & Es & [N _] & _).
  destruct (run_post inputs (Core.new cfg) (new_typed cfg Hids) Hin _ E) as [_ Ho]. simpl in Ho.
  rewrite Es in N. exists c, out. split_and!; [done | done | exact N |]. eapply Forall_impl; [exact Ho |].
  intros e. apply canonical_decode.
Qed.

End Engine.

(** * Witness *)

Lemma sample_config_typed : config_typed sample_config.
Proof. by split; repeat constructor. Qed.

Lemma outputs_fit_witness :
  exists (c : map_core) out,
    engine_run (Core.new sample_config) sample_inputs = Ret (c, out)
    /\ Forall output_wf out
    /\ (forall i e, out !! i = Some e ->
          OutputEvent.output_seq e = 1 + Z.of_nat i /\ 0 < OutputEvent.engine_seq e <= 6)
    /\ Forall (fun e => decode_output (output_bytes e) = Ret (Ok (e, length (output_bytes e)))) out.
Proof.
  apply (outputs_fit sample_config sample_inputs sample_config_wf sample_config_typed);
    [reflexivity | apply sample_inputs_typed].
Defined.
