(* ===== verification/Generator.v ===== *)
(** The seeded workload generator ([Generator] and [SplitMix64] of
    [crates/trading-core/src/generator.rs]). *)

From S2P Require Import Prelude Enums Ids Events BTree.

(** * SplitMix64 *)

Record SplitMix64 := mkSplitMix64 { sm_state : Z }.

Module SplitMix64.

Definition new (seed : Z) : SplitMix64 := mkSplitMix64 seed.

(** Wrapping arithmetic and shifts of [u64]. *)
Definition next (r : SplitMix64) : SplitMix64 * Z :=
  let state := u64_wrap (sm_state r + 0x9e3779b97f4a7c15) in
  let z := state in
  let z := u64_wrap (Z.lxor z (Z.shiftr z 30) * 0xbf58476d1ce4e5b9) in
  let z := u64_wrap (Z.lxor z (Z.shiftr z 27) * 0x94d049bb133111eb) in
  (mkSplitMix64 state, Z.lxor z (Z.shiftr z 31)).

Definition below (r : SplitMix64) (bound : Z) : SplitMix64 * Z :=
  if bound =? 0 then (r, 0)
  else let '(r, z) := next r in (r, z mod bound).

End SplitMix64.

(** * Configuration *)

Record GeneratorConfig := mkGeneratorConfig {
  gc_seed : Z;
  gc_instrument : InstrumentId;
  gc_accounts : list AccountId;
  gc_events : nat;
  gc_start_price_ticks : Z;
  gc_snapshot_levels : Z;
  gc_order_percent : Z;
  gc_market_order_percent : Z;
  gc_cancel_percent : Z;
  gc_replace_percent : Z;
  gc_inject_gaps : bool;
  gc_inject_duplicates : bool;
  gc_inter_arrival_ns : Z
}.

(** [GeneratorConfig::new]. *)
Definition generator_config_new (seed : Z) (events : nat) : GeneratorConfig :=
  mkGeneratorConfig seed 1 [1; 2] events 10000 10 60 10 20 15 false false 1000.

(** * State *)

Record LiveClientOrder := mkLiveClientOrder {
  lc_account_slot : nat;
  lc_client_order_id : ClientOrderId;
  lc_side : Side.t;
  lc_price : PriceTicks;
  lc_quantity : Z
}.

Record Generator := mkGenerator {
  g_config : GeneratorConfig;
  g_rng : SplitMix64;
  g_ingress : Z;
  g_source_seq : Z;
  g_time_ns : Z;
  g_request_id : Z;
  g_client_order_id : Z;
  g_client_seq : list Z;
  g_live : list LiveClientOrder;
  g_mid : Z;
  g_bids : BTreeMap Z;
  g_asks : BTreeMap Z
}.

(** [i64] arithmetic that would panic, and [i64::try_from(x).unwrap_or(0)]. *)
Definition i64_plain (z : Z) : res Z := unwrap (i64_checked z).
Definition i64_try_from (z : Z) : Z := if z <=? i64_max then z else 0.

(** [Vec::swap_remove]: the last element takes the place of the removed one. *)
Definition swap_remove {A} (l : list A) (i : nat) : res (list A * A) :=
  let! x := index l i in
  let! y := unwrap (list.last l) in
  let rest := removelast l in
  Ret (if (i =? length rest)%nat then rest else <[i := y]> rest, x).

(** The keys of [range(..=price)] and of [range(price..)]. *)
Definition keys_upto (price : Z) (m : BTreeMap Z) : list Z :=
  filter (fun k => k <= price) (map fst m).
Definition keys_from (price : Z) (m : BTreeMap Z) : list Z :=
  filter (fun k => price <= k) (map fst m).

Module Generator.

Definition set_rng (g : Generator) (r : SplitMix64) : Generator :=
  mkGenerator (g_config g) r (g_ingress g) (g_source_seq g) (g_time_ns g) (g_request_id g)
    (g_client_order_id g) (g_client_seq g) (g_live g) (g_mid g) (g_bids g) (g_asks g).
Definition set_clock (g : Generator) (ingress time_ns : Z) : Generator :=
  mkGenerator (g_config g) (g_rng g) ingress (g_source_seq g) time_ns (g_request_id g)
    (g_client_order_id g) (g_client_seq g) (g_live g) (g_mid g) (g_bids g) (g_asks g).
Definition set_source_seq (g : Generator) (source_seq : Z) : Generator :=
  mkGenerator (g_config g) (g_rng g) (g_ingress g) source_seq (g_time_ns g) (g_request_id g)
    (g_client_order_id g) (g_client_seq g) (g_live g) (g_mid g) (g_bids g) (g_asks g).
Definition set_request_id (g : Generator) (request_id : Z) : Generator :=
  mkGenerator (g_config g) (g_rng g) (g_ingress g) (g_source_seq g) (g_time_ns g) request_id
    (g_client_order_id g) (g_client_seq g) (g_live g) (g_mid g) (g_bids g) (g_asks g).
Definition set_client_order_id (g : Generator) (client_order_id : Z) : Generator :=
  mkGenerator (g_config g) (g_rng g) (g_ingress g) (g_source_seq g) (g_time_ns g) (g_request_id g)
    client_order_id (g_client_seq g) (g_live g) (g_mid g) (g_bids g) (g_asks g).
Definition set_client_seq (g : Generator) (client_seq : list Z) : Generator :=
  mkGenerator (g_config g) (g_rng g) (g_ingress g) (g_source_seq g) (g_time_ns g) (g_request_id g)
    (g_client_order_id g) client_seq (g_live g) (g_mid g) (g_bids g) (g_asks g).
Definition set_live (g : Generator) (live : list LiveClientOrder) : Generator :=
  mkGenerator (g_config g) (g_rng g) (g_ingress g) (g_source_seq g) (g_time_ns g) (g_request_id g)
    (g_client_order_id g) (g_client_seq g) live (g_mid g) (g_bids g) (g_asks g).
Definition set_mid (g : Generator) (mid : Z) : Generator :=
  mkGenerator (g_config g) (g_rng g) (g_ingress g) (g_source_seq g) (g_time_ns g) (g_request_id g)
    (g_client_order_id g) (g_client_seq g) (g_live g) mid (g_bids g) (g_asks g).
Definition set_depth (g : Generator) (bids asks : BTreeMap Z) : Generator :=
  mkGenerator (g_config g) (g_rng g) (g_ingress g) (g_source_seq g) (g_time_ns g) (g_request_id g)
    (g_client_order_id g) (g_client_seq g) (g_live g) (g_mid g) bids asks.

(** [self.rng.below(bound)]. *)
Definition roll (g : Generator) (bound : Z) : Generator * Z :=
  let '(r, z) := SplitMix64.below (g_rng g) bound in (set_rng g r, z).

Definition new (config : GeneratorConfig) : Generator :=
  mkGenerator config (SplitMix64.new (gc_seed config)) 0 0 1000000 0 0
    (replicate (length (gc_accounts config)) 0) [] (gc_start_price_ticks config) [] [].

Definition push (g : Generator) (event : InputEvent.t) (inputs : list EngineInput)
  : res (Generator * list EngineInput) :=
  let! ingress := u64_plain (g_ingress g + 1) in
  let! time_ns := u64_plain (g_time_ns g + gc_inter_arrival_ns (g_config g)) in
  Ret (set_clock g ingress time_ns, inputs ++ [mkEngineInput ingress time_ns event]).

(** The published depth after [kind]. *)
Definition publish (g : Generator) (kind : MarketEventKind.t) : Generator :=
  match kind with
  | MarketEventKind.SnapshotLevel side price quantity
  | MarketEventKind.LevelSet side price quantity =>
      let update levels :=
        if quantity =? 0 then BTree.remove price levels else BTree.insert price quantity levels in
      match side with
      | Side.Buy => set_depth g (update (g_bids g)) (g_asks g)
      | Side.Sell => set_depth g (g_bids g) (update (g_asks g))
      end
  | _ => g
  end.

Definition push_market (g : Generator) (kind : MarketEventKind.t) (inputs : list EngineInput)
  : res (Generator * list EngineInput) :=
  let g := publish g kind in
  let! source_seq := u64_plain (g_source_seq g + 1) in
  let g := set_source_seq g source_seq in
  push g (InputEvent.Market
            (mkMarketEvent (gc_instrument (g_config g)) (g_source_seq g) (g_time_ns g) kind)) inputs.

(** The loop of [emit_snapshot]. *)
Fixpoint emit_levels (depths : list Z) (g : Generator) (inputs : list EngineInput)
  : res (Generator * list EngineInput) :=
  match depths with
  | [] => Ret (g, inputs)
  | depth :: depths =>
      let! offset := i64_plain (depth + 1) in
      let! quantity := u64_plain (10 + depth) in
      let! bid := i64_plain (g_mid g - offset) in
      let! (g, inputs) := push_market g (MarketEventKind.SnapshotLevel Side.Buy bid quantity) inputs in
      let! ask := i64_plain (g_mid g + offset) in
      let! (g, inputs) := push_market g (MarketEventKind.SnapshotLevel Side.Sell ask quantity) inputs in
      emit_levels depths g inputs
  end.

Definition emit_snapshot (g : Generator) (inputs : list EngineInput)
  : res (Generator * list EngineInput) :=
  let! snapshot_seq := u64_plain (g_source_seq g + 1) in
  let! (g, inputs) := push_market g (MarketEventKind.SnapshotBegin snapshot_seq) inputs in
  let levels := gc_snapshot_levels (g_config g) in
  let! (g, inputs) := emit_levels (seqZ 0 levels) g inputs in
  let! level_count := u32_plain (levels * 2) in
  push_market g (MarketEventKind.SnapshotEnd snapshot_seq level_count) inputs.

(** The loop of [clear_crossing]. *)
Fixpoint clear_levels (other : Side.t) (crossed : list Z) (g : Generator) (inputs : list EngineInput)
  : res (Generator * list EngineInput) :=
  match crossed with
  | [] => Ret (g, inputs)
  | level :: crossed =>
      let! (g, inputs) := push_market g (MarketEventKind.LevelSet other level 0) inputs in
      clear_levels other crossed g inputs
  end.

Definition clear_crossing (g : Generator) (side : Side.t) (price : Z) (inputs : list EngineInput)
  : res (Generator * list EngineInput) :=
  let crossed :=
    match side with
    | Side.Buy => keys_upto price (g_asks g)
    | Side.Sell => keys_from price (g_bids g)
    end in
  let other := match side with Side.Buy => Side.Sell | Side.Sell => Side.Buy end in
  clear_levels other crossed g inputs.

(** [if self.rng.below(2) == 0 { Side::Buy } else { Side::Sell }]. *)
Definition roll_side (g : Generator) : Generator * Side.t :=
  let '(g, z) := roll g 2 in (g, if z =? 0 then Side.Buy else Side.Sell).

(** The injected faults: a sequence number used again, or three left out. *)
Definition inject_duplicate (g : Generator) : res Generator :=
  if gc_inject_duplicates (g_config g) then
    let '(g, z) := roll g 50 in
    if z =? 0 then
      let! source_seq := u64_plain (g_source_seq g - 1) in Ret (set_source_seq g source_seq)
    else Ret g
  else Ret g.

Definition inject_gap (g : Generator) : res Generator :=
  if gc_inject_gaps (g_config g) then
    let '(g, z) := roll g 200 in
    if z =? 0 then
      let! source_seq := u64_plain (g_source_seq g + 3) in Ret (set_source_seq g source_seq)
    else Ret g
  else Ret g.

(** The random walk at the head of [emit_market]. *)
Definition walk (g : Generator) : res Generator :=
  let '(g, z) := roll g 2 in
  let! mid := i64_plain (if z =? 0 then g_mid g + 1 else g_mid g - 1) in
  let! g := inject_duplicate (set_mid g mid) in
  inject_gap g.

(** A new level, after the levels it would trade through are gone. *)
Definition emit_level (g : Generator) (inputs : list EngineInput)
  : res (Generator * list EngineInput) :=
  let '(g, side) := roll_side g in
  let '(g, z) := roll g 5 in
  let! depth := i64_plain (i64_try_from z + 1) in
  let! price :=
    i64_plain (match side with Side.Buy => g_mid g - depth | Side.Sell => g_mid g + depth end) in
  let '(g, quantity) := roll g 50 in
  let! (g, inputs) :=
    if 0 <? quantity then clear_crossing g side price inputs else Ret (g, inputs) in
  push_market g (MarketEventKind.LevelSet side price quantity) inputs.

Definition emit_market (g : Generator) (inputs : list EngineInput)
  : res (Generator * list EngineInput) :=
  let! g := walk g in
  let '(g, z) := roll g 10 in
  if z <? 6 then emit_level g inputs
  else if z <? 9 then
    let '(g, side) := roll_side g in
    let '(g, z) := roll g 5 in
    let! quantity := u64_plain (1 + z) in
    push_market g (MarketEventKind.Trade side (g_mid g) quantity) inputs
  else push_market g MarketEventKind.Heartbeat inputs.

(** [self.client_seq[slot] += 1], with the new value. *)
Definition bump_client_seq (g : Generator) (slot : nat) : res (Generator * Z) :=
  let! n := index (g_client_seq g) slot in
  let! n := u64_plain (n + 1) in
  let! seqs := index_set (g_client_seq g) slot n in
  Ret (set_client_seq g seqs, n).

(** [request] of [emit_order] with the fields that its branches set. *)
Definition request_of (g : Generator) (kind : RequestKind.t) (account : AccountId)
    (client_seq client_order_id target_client_order_id : Z) (side : Side.t) (order_type : OrderType.t)
    (price quantity : Z) : OrderRequest :=
  mkOrderRequest kind account (gc_instrument (g_config g)) (g_request_id g) client_seq
    client_order_id target_client_order_id side order_type price quantity.

(** A cancel of a random live order. *)
Definition cancel_request (g : Generator) : res (Generator * OrderRequest) :=
  let '(g, z) := roll g (Z.of_nat (length (g_live g))) in
  let! (live, target) := swap_remove (g_live g) (Z.to_nat z) in
  let g := set_live g live in
  let! account := index (gc_accounts (g_config g)) (lc_account_slot target) in
  let! (g, client_seq) := bump_client_seq g (lc_account_slot target) in
  Ret (g, request_of g RequestKind.Cancel account client_seq 0 (lc_client_order_id target)
            Side.Buy OrderType.Limit 0 0).

(** A replacement of a random live order, at its side, type and price. *)
Definition replace_request (g : Generator) : res (Generator * OrderRequest) :=
  let '(g, z) := roll g (Z.of_nat (length (g_live g))) in
  let i := Z.to_nat z in
  let! target := index (g_live g) i in
  let! account := index (gc_accounts (g_config g)) (lc_account_slot target) in
  let! (g, client_seq) := bump_client_seq g (lc_account_slot target) in
  let! bound := u64_plain (Z.max (lc_quantity target) 1 + 5) in
  let '(g, z) := roll g bound in
  let! new_total := u64_plain (1 + z) in
  let! live := index_set (g_live g) i
                 (mkLiveClientOrder (lc_account_slot target) (lc_client_order_id target)
                    (lc_side target) (lc_price target) new_total) in
  Ret (set_live g live,
       request_of g RequestKind.Replace account client_seq 0 (lc_client_order_id target)
         (lc_side target) OrderType.Limit (lc_price target) new_total).

(** A new market or limit order; at most 512 limit orders are remembered. *)
Definition new_request (g : Generator) (account_slot : nat) (account : AccountId) (client_seq : Z)
  : res (Generator * OrderRequest) :=
  let! client_order_id := u64_plain (g_client_order_id g + 1) in
  let g := set_client_order_id g client_order_id in
  let '(g, side) := roll_side g in
  let '(g, z) := roll g 10 in
  let! quantity := u64_plain (1 + z) in
  let '(g, z) := roll g 100 in
  let request order_type price :=
    request_of g RequestKind.New account client_seq client_order_id 0 side order_type price quantity in
  if z <? gc_market_order_percent (g_config g) then Ret (g, request OrderType.Market 0)
  else
    let '(g, z) := roll g 6 in
    let! offset := i64_plain (i64_try_from z - 2) in
    let! base := i64_plain (match side with Side.Buy => g_mid g - 1 | Side.Sell => g_mid g + 1 end) in
    let! price := i64_plain (base + offset) in
    let price := Z.max price 1 in
    let g :=
      if (length (g_live g) <? 512)%nat
      then set_live g (g_live g ++ [mkLiveClientOrder account_slot client_order_id side price quantity])
      else g in
    Ret (g, request OrderType.Limit price).

Definition emit_order (g : Generator) (inputs : list EngineInput)
  : res (Generator * list EngineInput) :=
  let '(g, z) := roll g (Z.of_nat (length (gc_accounts (g_config g)))) in
  let account_slot := Z.to_nat z in
  let! account := index (gc_accounts (g_config g)) account_slot in
  let! request_id := u64_plain (g_request_id g + 1) in
  let g := set_request_id g request_id in
  let! (g, client_seq) := bump_client_seq g account_slot in
  let '(g, z) := roll g 100 in
  let cancel_bound := gc_cancel_percent (g_config g) in
  let! replace_bound := u64_plain (cancel_bound + gc_replace_percent (g_config g)) in
  let! (g, request) :=
    if (z <? cancel_bound) && negb (length (g_live g) =? 0)%nat then cancel_request g
    else if (z <? replace_bound) && negb (length (g_live g) =? 0)%nat then replace_request g
    else new_request g account_slot account client_seq in
  push g (InputEvent.Order request) inputs.

(** One turn of the loop of [generate]. *)
Definition emit_event (g : Generator) (inputs : list EngineInput)
  : res (Generator * list EngineInput) :=
  let '(g, z) := roll g 100 in
  if z <? gc_order_percent (g_config g) then emit_order g inputs else emit_market g inputs.

Fixpoint emit_events (n : nat) (g : Generator) (inputs : list EngineInput)
  : res (Generator * list EngineInput) :=
  match n with
  | O => Ret (g, inputs)
  | S n =>
      let! (g, inputs) := emit_event g inputs in
      emit_events n g inputs
  end.

Definition generate (g : Generator) : res (Generator * list EngineInput) :=
  let! _ := u64_plain (Z.of_nat (gc_events (g_config g)) + 32) in
  let! (g, inputs) := emit_snapshot g [] in
  emit_events (gc_events (g_config g)) g inputs.

End Generator.
