(* ===== verification/GeneratorProps.v ===== *)
(** A market view that is given the market events of a generator, one by one, in
    sequence, holds a part of what the generator has published; and the
    generator's invariant: what it has emitted and published so far, and that
    every emission keeps it. *)

From S2P Require Import Prelude Enums Ids Events Read Codec CodecProps Wire BTree Market MarketInv.
From S2P Require Import MarketTheorems ReplayState Generator.

Section Feed.
Implicit Types (v : MarketView) (g : Generator) (m M : BTreeMap Z).

(** * Ladders within ladders *)

Definition within m M : Prop := forall p q, BTree.get p m = Some q -> BTree.get p M = Some q.

Lemma within_nil M : within [] M.
Proof. done. Qed.

Lemma within_remove m M k :
  BTree.sorted m -> BTree.sorted M -> within m M -> within (BTree.remove k m) (BTree.remove k M).
Proof.
  intros H1 H2 H p q. rewrite !BTree.get_remove by done. case_match; [done |]. apply H.
Qed.

Lemma within_top_n side d m M : BTree.sorted m -> within m M -> within (top_n side d m) M.
Proof.
  intros Hs H p q Hp%BTree.get_elem%top_n_elem. apply H. by apply BTree.elem_get.
Qed.

Lemma within_set_bounded side d m M k x :
  BTree.sorted m -> (length m <= d)%nat -> (1 <= d)%nat -> within m M ->
  within (Market.set_bounded m side k x d) (BTree.insert k x M).
Proof.
  intros Hs Hl Hd H. rewrite set_bounded_top_n by done.
  apply within_top_n; [by apply BTree.sorted_insert |].
  intros p q. rewrite !BTree.get_insert. case_match; [done | apply H].
Qed.

Lemma u32_plain_inv z r : u32_plain z = Ret r -> r = z.
Proof.
  unfold u32_plain. destruct (u32_checked z) as [x |] eqn:E; [| done]. intros [= <-].
  by apply checked_Some in E as [-> _].
Qed.

(** * The view *)

(** The other counters stay at zero. *)
Definition undisturbed (c : FeedCounters) : Prop :=
  fc_duplicates c = 0 /\ fc_gaps c = 0 /\ fc_out_of_order c = 0 /\ fc_invalid_prices c = 0.

(** Either the opening snapshot is being applied, [Some n] levels so far, or the
    view is live. *)
Record follows (lo hi : Z) (phase : option Z) g v : Prop := {
  fo_inv : market_inv v;
  fo_domain : mv_min_price_ticks v = lo /\ mv_max_price_ticks v = hi;
  fo_state : mv_state v = match phase with
                          | Some _ => FeedState.ApplyingSnapshot
                          | None => FeedState.Live
                          end;
  fo_snapshot n : phase = Some n -> mv_snapshot_seq v = 1 /\ mv_scratch_levels v = n;
  fo_seq : mv_last_source_seq v = g_source_seq g /\ 0 < g_source_seq g;
  fo_bids : within (match phase with Some _ => mv_scratch_bids v | None => mv_bids v end) (g_bids g);
  fo_asks : within (match phase with Some _ => mv_scratch_asks v | None => mv_asks v end) (g_asks g);
  fo_clean : undisturbed (mv_counters v)
}.

(** The events a generator publishes in either phase, and the phase after. *)
Inductive expected : option Z -> MarketEventKind.t -> option Z -> Prop :=
| ex_snapshot_level n side price quantity :
    0 < quantity -> expected (Some n) (MarketEventKind.SnapshotLevel side price quantity) (Some (n + 1))
| ex_snapshot_end n : expected (Some n) (MarketEventKind.SnapshotEnd 1 n) None
| ex_level side price quantity :
    expected None (MarketEventKind.LevelSet side price quantity) None
| ex_trade side price quantity : expected None (MarketEventKind.Trade side price quantity) None
| ex_heartbeat : expected None MarketEventKind.Heartbeat None.

(** What the generator knows after publishing [kind]. *)
Definition announced g (kind : MarketEventKind.t) : Generator :=
  Generator.publish (Generator.set_source_seq g (g_source_seq g + 1)) kind.

(** An event in sequence, at a price of the domain, is counted and applied. *)
Lemma apply_in_sequence v kind t n :
  mv_state v = FeedState.ApplyingSnapshot \/ mv_state v = FeedState.Live ->
  0 < mv_last_source_seq v -> market_budget n v -> n < u32_max ->
  (forall p, Market.quoted_price kind = Some p -> mv_min_price_ticks v <= p <= mv_max_price_ticks v) ->
  (forall e, kind <> MarketEventKind.FeedReset e) ->
  exists c, (undisturbed (mv_counters v) -> undisturbed c)
    /\ Market.apply v (mv_last_source_seq v + 1) kind t
       = (let! v' := Market.apply_kind
                       (Market.set_update_time
                          (Market.set_counters (Market.set_last_source_seq v (mv_last_source_seq v + 1)) c) t)
                       kind in
          Ret (v', mkMarketUpdate (mv_state v) (mv_state v') false)).
Proof.
  intros Hst Hlast B Hn Hdom Hreset. unfold Market.apply.
  rewrite (proj2 (Z.eqb_neq (mv_last_source_seq v + 1) 0)) by lia. cbn [negb].
  assert (Hseq : Market.check_sequence v (mv_last_source_seq v + 1) = SeqOk).
  { unfold Market.check_sequence. repeat (rewrite ?Z.eqb_refl; case_match; try lia).
    all: destruct Hst; congruence. }
  rewrite Hseq. unfold Market.apply_checked.
  assert (Hvalid : match Market.quoted_price kind with
                   | Some price => (price <? mv_min_price_ticks v) || (mv_max_price_ticks v <? price)
                   | None => false
                   end = false).
  { destruct (Market.quoted_price kind) as [p |]; [| done]. specialize (Hdom p eq_refl). lia. }
  simpl. rewrite Hvalid. clear Hvalid.
  assert (Hk : match kind with MarketEventKind.FeedReset e => e <=? mv_epoch v | _ => false end = false)
    by (destruct kind; try done; by destruct (Hreset new_epoch)).
  rewrite Hk. unfold Market.bump_applied. simpl.
  rewrite u64_plain_in by (destruct B as ((? & ?) & _); mach). cbn [rbind].
  eexists. split; [| reflexivity]. by intros (H1 & H2 & H3 & H4).
Qed.

Lemma follows_numbered lo hi phase g v c t :
  follows lo hi phase g v -> undisturbed c ->
  follows lo hi phase (Generator.set_source_seq g (g_source_seq g + 1))
    (Market.set_update_time
       (Market.set_counters (Market.set_last_source_seq v (g_source_seq g + 1)) c) t).
Proof.
  intros [I D Est Esn [Eq Hq] Wb Wa C] Hc. constructor; try done; simpl; [by eapply inv_frame | lia].
Qed.

(** A level of the side that is being built or is visible. *)
Lemma follows_ladders lo hi phase g v side :
  follows lo hi phase g v ->
  let m := match phase with
           | Some _ => Market.pending_levels v side
           | None => Market.side_levels v side
           end in
  BTree.sorted m /\ (length m <= mv_max_depth v)%nat.
Proof. intros [I _ _ _ _ _ _ _]. destruct phase, side; split; apply I. Qed.

(** The effect of the event on the view is its effect on what was published. *)
Lemma kind_follows lo hi phase phase' g v kind v' :
  follows lo hi phase g v -> expected phase kind phase' ->
  BTree.sorted (g_bids g) -> BTree.sorted (g_asks g) ->
  Market.apply_kind v kind = Ret v' -> market_inv v' ->
  follows lo hi phase' (Generator.publish g kind) v'.
Proof.
  intros F Hex Sb Sa Ek I'. pose proof (fun side => follows_ladders _ _ _ _ _ side F) as Hl.
  destruct F as [I [D1 D2] Est Esn Eq Wb Wa C]. pose proof (mi_depth _ I) as Hd.
  destruct Hex as [k side price quantity Hpos | k | side price quantity | side price quantity |];
    simpl in Ek; rewrite ?Est in Ek; cbn [bool_decide decide] in Ek.
  - unfold QuantityLots.is_zero in Ek. rewrite (proj2 (Z.eqb_neq quantity 0)) in Ek by lia. simpl in Ek.
    apply rbind_inv in Ek as (m & Em%u32_plain_inv & [= <-]). destruct (Esn k eq_refl) as [E1 E2].
    destruct (Hl side) as [S1 S2].
    destruct side; constructor; simpl; rewrite ?(proj2 (Z.eqb_neq quantity 0)) by lia; try done;
      try (intros ? [= <-]; split; [done | lia]); by apply within_set_bounded.
  - destruct (Esn k eq_refl) as [E1 E2]. rewrite E1, E2, !Z.eqb_refl in Ek. simpl in Ek.
    apply rbind_inv in Ek as (v1 & Ev & [= <-]). unfold Market.bump_resyncs in Ev.
    apply rbind_inv in Ev as (r & _ & [= <-]). destruct (Hl Side.Buy) as [S1 _], (Hl Side.Sell) as [S2 _].
    constructor; try done; simpl; rewrite trim_top_n; by apply within_top_n.
  - destruct (Hl side) as [S1 S2]. unfold QuantityLots.is_zero in Ek. injection Ek as <-.
    destruct side; constructor; try done; simpl; destruct (quantity =? 0);
      (by apply within_remove) || by apply within_set_bounded.
  - injection Ek as <-. by constructor.
  - injection Ek as <-. by constructor.
Qed.

(** The view keeps following the generator. *)
Lemma follows_step lo hi phase phase' g v kind t n :
  follows lo hi phase g v -> expected phase kind phase' ->
  BTree.sorted (g_bids g) -> BTree.sorted (g_asks g) ->
  market_budget n v -> n < u32_max -> market_kind_wf kind ->
  (forall p, Market.quoted_price kind = Some p -> lo <= p <= hi) ->
  exists v' u, Market.apply v (g_source_seq g + 1) kind t = Ret (v', u)
    /\ follows lo hi phase' (announced g kind) v' /\ market_budget (n + 1) v'.
Proof.
  intros F Hex Sb Sa B Hn Hwf Hdom. pose proof F as [I [D1 D2] Est _ [Eq Hq] _ _ C].
  destruct (apply_ok v n (g_source_seq g + 1) kind t I B Hn Hwf) as (v' & u & E & I' & B' & _).
  exists v', u. split; [done |]. split; [| done].
  destruct (apply_in_sequence v kind t n) as (c & Hc & E'); try done.
  { destruct phase; auto. } { lia. } { by rewrite D1, D2. } { intros e ->. inversion Hex. }
  rewrite Eq, E in E'. symmetry in E'. apply rbind_inv in E' as (v1 & Ek & [= -> _]).
  eapply kind_follows; [by apply follows_numbered; [| apply Hc] | done..].
Qed.

(** The first event opens the snapshot. *)
Lemma follows_begin lo hi d t g :
  g_source_seq g = 0 ->
  exists v u, Market.apply (Market.new lo hi d) 1 (MarketEventKind.SnapshotBegin 1) t = Ret (v, u)
    /\ follows lo hi (Some 0) (announced g (MarketEventKind.SnapshotBegin 1)) v /\ market_budget 1 v.
Proof.
  intros Eg.
  destruct (apply_ok (Market.new lo hi d) 0 1 (MarketEventKind.SnapshotBegin 1) t (new_inv lo hi d))
    as (v & u & E & I & B & _); try done.
  exists v, u. split; [done |]. split; [| done]. unfold Market.apply, Market.apply_checked in E. simpl in E.
  injection E as <- _. constructor; try done; simpl; [| lia]. by intros n [= <-].
Qed.

End Feed.

(** * The random numbers *)

Lemma roll_spec g bound :
  0 <= bound ->
  exists r z, Generator.roll g bound = (Generator.set_rng g r, z)
    /\ 0 <= z /\ (0 < bound -> z < bound).
Proof.
  intros Hb. unfold Generator.roll, SplitMix64.below. destruct (Z.eqb_spec bound 0) as [-> | Hne].
  - exists (g_rng g), 0. split_and!; [by destruct g | lia | lia].
  - destruct (SplitMix64.next (g_rng g)) as [r z]. exists r, (z mod bound).
    pose proof (Z.mod_pos_bound z bound). split_and!; [done | lia | lia].
Qed.

Lemma roll_side_spec g : exists r side, Generator.roll_side g = (Generator.set_rng g r, side).
Proof.
  unfold Generator.roll_side. destruct (roll_spec g 2) as (r & z & -> & _); [done |]. by do 2 eexists.
Qed.

(** * Frames *)

(** An input that a feed file can carry. *)
Definition framed (i : EngineInput) : Prop := exists f, to_frame i = Some f /\ frame_wf f.

(** A market event within the widths of its fields; a trade has a quantity. *)
Definition kind_ok (kind : MarketEventKind.t) : Prop := body_wf 0 (frame_body kind).

Lemma kind_ok_wf kind : kind_ok kind -> market_kind_wf kind.
Proof. destruct kind; unfold kind_ok; simpl; tauto. Qed.

Lemma market_framed n time instrument seq source_time kind :
  in_u64 seq -> in_u64 source_time -> in_u64 time -> in_u32 instrument -> kind_ok kind ->
  framed (mkEngineInput n time (InputEvent.Market (mkMarketEvent instrument seq source_time kind))).
Proof. intros. eexists. split; [done |]. constructor; try done. by destruct kind. Qed.

Lemma order_framed n time request :
  in_u64 time -> request_wf request -> framed (mkEngineInput n time (InputEvent.Order request)).
Proof. intros Ht Hr. eexists. split; [done |]. constructor; simpl; try done. apply Hr. Qed.

(** * Configurations *)

Section Props.
Context (cfg : GeneratorConfig).

Abbreviation events := (Z.of_nat (gc_events cfg)) (only parsing).
Abbreviation levels := (gc_snapshot_levels cfg) (only parsing).
Abbreviation accounts := (length (gc_accounts cfg)) (only parsing).

(** No more inputs than this: every event after the snapshot adds at most one
    level, and a level is cleared at most once. *)
Definition budget : Z := 2 + 4 * levels + 2 * events.

(** The prices the random walk can reach. *)
Definition lowest : Z := gc_start_price_ticks cfg - levels - events - 5.
Definition highest : Z := gc_start_price_ticks cfg + levels + events + 5.

(** What [generate] needs: at least one account (an order picks one by index, and
    panics when there is none), ids of 32 bits, a snapshot whose level count is a
    [u32], percentages whose sum is a [u64], no more inputs than a [u32] counts,
    and times and prices that stay in their types. *)
Record generator_wf : Prop := {
  gw_accounts : gc_accounts cfg <> [];
  gw_account_ids : Forall in_u32 (gc_accounts cfg);
  gw_instrument : in_u32 (gc_instrument cfg);
  gw_levels : 0 <= levels /\ levels * 2 <= u32_max;
  gw_percent : 0 <= gc_cancel_percent cfg /\ 0 <= gc_replace_percent cfg
               /\ gc_cancel_percent cfg + gc_replace_percent cfg <= u64_max;
  gw_budget : budget <= u32_max;
  gw_time : 0 <= gc_inter_arrival_ns cfg
            /\ 1000000 + gc_inter_arrival_ns cfg * budget <= u64_max;
  gw_prices : i64_min <= lowest /\ highest <= i64_max
}.

Hypothesis W : generator_wf.

(** A market view whose domain holds those prices. *)
Context (lo hi : Z) (depth : nat).
Hypothesis Hdomain : lo <= lowest /\ highest <= hi.

(** * The invariant *)

(** [n] events after the snapshot have been started. *)
Record order_ok (n : Z) (o : LiveClientOrder) : Prop := {
  oo_slot : (lc_account_slot o < accounts)%nat;
  oo_id : 0 <= lc_client_order_id o <= n;
  oo_price : in_i64 (lc_price o);
  oo_quantity : 0 <= lc_quantity o <= 10 + 6 * n
}.

Definition market_feed (inputs : list EngineInput) : list FeedEvent :=
  omap (fun i => match in_event i with
                 | InputEvent.Market e => Some (me_source_seq e, me_kind e, in_recv_time_ns i)
                 | _ => None
                 end) inputs.

Definition side_of (g : Generator) (side : Side.t) : BTreeMap Z :=
  match side with Side.Buy => g_bids g | Side.Sell => g_asks g end.

Definition uncrossed (bids asks : BTreeMap Z) : Prop :=
  forall b x a y, (b, x) ∈ bids -> (a, y) ∈ asks -> b < a.

(** The inputs so far. *)
Record emitted (inputs : list EngineInput) : Prop := {
  em_typed : Forall input_typed inputs;
  em_frames : Forall framed inputs;
  em_numbered k i : inputs !! k = Some i ->
    in_ingress_seq i = Z.of_nat k + 1
    /\ in_recv_time_ns i = 1000000 + gc_inter_arrival_ns cfg * (Z.of_nat k + 1)
}.

Record gen_ok (n room : Z) (g : Generator) (inputs : list EngineInput) : Prop := {
  go_config : g_config g = cfg;
  go_count : g_ingress g = Z.of_nat (length inputs);
  go_time : g_time_ns g = 1000000 + gc_inter_arrival_ns cfg * Z.of_nat (length inputs);
  go_room : Z.of_nat (length inputs + length (g_bids g) + length (g_asks g)) <= room <= budget;
  go_events : 0 <= n <= events;
  go_seq : 0 <= g_source_seq g <= Z.of_nat (length inputs) + 3 * n;
  go_request : 0 <= g_request_id g <= n;
  go_client : 0 <= g_client_order_id g <= n;
  go_client_seq : length (g_client_seq g) = accounts
                  /\ Forall (fun s => 0 <= s <= 2 * n) (g_client_seq g);
  go_live : Forall (order_ok n) (g_live g);
  go_mid : Z.abs (g_mid g - gc_start_price_ticks cfg) <= n;
  go_sorted : BTree.sorted (g_bids g) /\ BTree.sorted (g_asks g);
  go_prices side p x : (p, x) ∈ side_of g side -> lowest <= p <= highest;
  go_uncrossed : uncrossed (g_bids g) (g_asks g);
  go_emitted : emitted inputs
}.

(** Without injected faults the view has applied every market event. *)
Definition tracked (phase : option Z) (g : Generator) (inputs : list EngineInput) : Prop :=
  gc_inject_gaps cfg = false -> gc_inject_duplicates cfg = false ->
  exists v, market_run (Market.new lo hi depth) (market_feed inputs) = Ret v
    /\ follows lo hi phase g v /\ market_budget (Z.of_nat (length inputs)) v.

(** * Pushing *)

Lemma market_run_app v es1 es2 :
  market_run v (es1 ++ es2) = (let! v' := market_run v es1 in market_run v' es2).
Proof.
  revert v. induction es1 as [| [[sq kind] t] es1 IH]; intros v; simpl; [done |].
  destruct (Market.apply v sq kind t) as [[v1 u] |]; simpl; [apply IH | done].
Qed.

Lemma emitted_snoc inputs ingress time event :
  emitted inputs -> ingress = Z.of_nat (length inputs) + 1 ->
  time = 1000000 + gc_inter_arrival_ns cfg * (Z.of_nat (length inputs) + 1) ->
  in_u64 ingress -> in_u64 time -> input_event_wf event ->
  framed (mkEngineInput ingress time event) ->
  emitted (inputs ++ [mkEngineInput ingress time event]).
Proof.
  intros [E1 E2 E3] Hi Ht U1 U2 Hw Hf. constructor.
  - apply Forall_app_2; [done |]. by apply Forall_singleton.
  - apply Forall_app_2; [done |]. by apply Forall_singleton.
  - intros k i Hk. apply lookup_app_Some in Hk as [Hk | [Hle Hk]]; [by apply E3 |].
    apply list_lookup_singleton_Some in Hk as [Hk <-]. simpl.
    replace k with (length inputs) by lia. done.
Qed.

(** The arithmetic of one more input. *)
Lemma clock_ok n room g inputs :
  gen_ok n room g inputs -> Z.of_nat (length inputs) + 1 <= budget ->
  u64_plain (g_ingress g + 1) = Ret (Z.of_nat (length inputs) + 1)
  /\ u64_plain (g_time_ns g + gc_inter_arrival_ns (g_config g))
     = Ret (1000000 + gc_inter_arrival_ns cfg * (Z.of_nat (length inputs) + 1))
  /\ in_u64 (g_time_ns g) /\ in_u64 (Z.of_nat (length inputs) + 1)
  /\ in_u64 (1000000 + gc_inter_arrival_ns cfg * (Z.of_nat (length inputs) + 1)).
Proof.
  intros G Hb. rewrite (go_count _ _ _ _ G), (go_time _ _ _ _ G), (go_config _ _ _ _ G).
  pose proof (gw_budget W). destruct (gw_time W) as [Hdt Ht].
  assert (0 <= gc_inter_arrival_ns cfg * (Z.of_nat (length inputs) + 1)
          <= gc_inter_arrival_ns cfg * budget) by nia.
  replace (1000000 + gc_inter_arrival_ns cfg * Z.of_nat (length inputs) + gc_inter_arrival_ns cfg)
    with (1000000 + gc_inter_arrival_ns cfg * (Z.of_nat (length inputs) + 1)) by lia.
  assert (0 <= gc_inter_arrival_ns cfg * Z.of_nat (length inputs)) by nia.
  rewrite !u64_plain_in by mach. split_and!; try done; mach.
Qed.

Lemma push_order_ok n room g inputs request :
  gen_ok n room g inputs -> room + 1 <= budget -> request_wf request ->
  exists g' inputs', Generator.push g (InputEvent.Order request) inputs = Ret (g', inputs')
    /\ gen_ok n (room + 1) g' inputs' /\ (tracked None g inputs -> tracked None g' inputs').
Proof.
  intros G Hb Hw. pose proof (go_room _ _ _ _ G) as Hr.
  destruct (clock_ok n room g inputs G) as (E1 & E2 & U1 & U2 & U3); [lia |].
  unfold Generator.push. rewrite E1, E2. cbn [rbind]. do 2 eexists. split; [done |]. split.
  - destruct G. constructor; simpl; rewrite ?length_app; simpl; try done; try lia.
    apply emitted_snoc; try done. by apply order_framed.
  - intros T H1 H2. destruct (T H1 H2) as (v & E & F & B). exists v.
    unfold market_feed. rewrite omap_app. simpl. rewrite app_nil_r. split; [done |].
    split; [by destruct F; constructor |]. rewrite length_app. simpl.
    unfold market_budget in *. lia.
Qed.

(** The state after a market event. *)
Definition ticked (g : Generator) (kind : MarketEventKind.t) (inputs : list EngineInput) : Generator :=
  Generator.set_clock (announced g kind) (Z.of_nat (length inputs) + 1)
    (1000000 + gc_inter_arrival_ns cfg * (Z.of_nat (length inputs) + 1)).

Lemma ticked_depth g kind inputs :
  g_bids (ticked g kind inputs) = g_bids (Generator.publish g kind)
  /\ g_asks (ticked g kind inputs) = g_asks (Generator.publish g kind)
  /\ g_mid (ticked g kind inputs) = g_mid g /\ g_config (ticked g kind inputs) = g_config g
  /\ g_source_seq (ticked g kind inputs) = g_source_seq g + 1.
Proof. by destruct kind as [| [] | | [] | | |]. Qed.

Lemma publish_seq g kind : g_source_seq (Generator.publish g kind) = g_source_seq g.
Proof. by destruct kind as [| [] | | [] | | |]. Qed.

Lemma announced_eq g kind :
  announced g kind = Generator.set_source_seq (Generator.publish g kind) (g_source_seq g + 1).
Proof. by destruct kind as [| [] | | [] | | |]. Qed.

(** What a level does to the published depth. *)
Lemma publish_sorted g kind :
  BTree.sorted (g_bids g) /\ BTree.sorted (g_asks g) ->
  BTree.sorted (g_bids (Generator.publish g kind)) /\ BTree.sorted (g_asks (Generator.publish g kind)).
Proof.
  intros [S1 S2]. destruct kind as [| [] ? q | | [] ? q | | |]; simpl; try done;
    destruct (q =? 0); split; auto using BTree.sorted_insert, BTree.sorted_remove.
Qed.

Lemma publish_prices g kind side p x :
  (p, x) ∈ side_of (Generator.publish g kind) side ->
  (p, x) ∈ side_of g side \/ Market.quoted_price kind = Some p.
Proof.
  destruct kind as [| [] ? q | | [] ? q | | |], side; simpl; auto; destruct (q =? 0);
    intros H; try (apply BTree.elem_remove in H; auto);
    apply BTree.elem_insert in H as [[= -> ->] | H]; auto.
Qed.

Lemma push_market_ok n room room' g inputs kind :
  gen_ok n room g inputs -> kind_ok kind ->
  (forall p, Market.quoted_price kind = Some p -> lowest <= p <= highest) ->
  Z.of_nat (length inputs + 1 + length (g_bids (Generator.publish g kind))
            + length (g_asks (Generator.publish g kind))) <= room' <= budget ->
  uncrossed (g_bids (Generator.publish g kind)) (g_asks (Generator.publish g kind)) ->
  exists inputs', Generator.push_market g kind inputs = Ret (ticked g kind inputs, inputs')
    /\ length inputs' = (length inputs + 1)%nat
    /\ gen_ok n room' (ticked g kind inputs) inputs'
    /\ forall phase phase', expected phase kind phase' -> tracked phase g inputs ->
         tracked phase' (ticked g kind inputs) inputs'.
Proof.
  intros G Hw Hp Hr Hu. pose proof (gw_budget W) as Hbud.
  destruct (clock_ok n room g inputs G) as (E1 & E2 & U1 & U2 & U3); [lia |].
  destruct (ticked_depth g kind inputs) as (T1 & T2 & T3 & T4 & T5).
  pose proof (go_seq _ _ _ _ G) as Hs. pose proof (go_events _ _ _ _ G) as Hn.
  assert (Hseq : in_u64 (g_source_seq g + 1))
    by (destruct (gw_levels W); unfold budget in *; mach).
  assert (E : Generator.push_market g kind inputs
              = Ret (ticked g kind inputs,
                     inputs ++ [mkEngineInput (Z.of_nat (length inputs) + 1)
                                  (1000000 + gc_inter_arrival_ns cfg * (Z.of_nat (length inputs) + 1))
                                  (InputEvent.Market (mkMarketEvent (gc_instrument cfg)
                                     (g_source_seq g + 1) (g_time_ns g) kind))])).
  { unfold Generator.push_market, Generator.push. rewrite publish_seq, u64_plain_in by done.
    cbn [rbind]. rewrite <- announced_eq.
    destruct kind as [| [] | | [] | | |]; simpl; rewrite E1, E2, (go_config _ _ _ _ G); done. }
  rewrite E. eexists. split; [done |]. rewrite length_app. split; [done |]. split.
  - destruct G. constructor; rewrite ?T1, ?T2, ?T3, ?T4, ?T5, ?length_app; simpl; try done; try lia.
    all: try by destruct kind as [| [] | | [] | | |].
    + by apply publish_sorted.
    + intros side p x Hx. assert (Hx' : (p, x) ∈ side_of (Generator.publish g kind) side)
        by (destruct side; simpl in *; congruence).
      apply publish_prices in Hx' as [? | ?]; eauto.
    + apply emitted_snoc; try done.
      * constructor; try done; [apply W | by apply kind_ok_wf].
      * apply market_framed; try done. apply W.
  - intros phase phase' Hex T H1 H2. destruct (T H1 H2) as (v & Ev & F & B).
    destruct (go_sorted _ _ _ _ G) as [S1 S2].
    destruct (follows_step lo hi phase phase' g v kind
                (1000000 + gc_inter_arrival_ns cfg * (Z.of_nat (length inputs) + 1))
                (Z.of_nat (length inputs))) as (v' & u & Ea & F' & B'); try done; [lia | by apply kind_ok_wf | |].
    { intros p Hq. specialize (Hp p Hq). lia. }
    exists v'. unfold market_feed. rewrite omap_app, market_run_app.
    unfold market_feed in Ev. rewrite Ev. simpl. rewrite Ea. cbn [rbind]. split; [done |].
    split; [by destruct F'; constructor |]. by rewrite length_app, Nat2Z.inj_add.
Qed.

(** ** Levels *)

(** A level of [side] at [price] crosses nothing. *)
Definition fits (g : Generator) (side : Side.t) (price : Z) : Prop :=
  match side with
  | Side.Buy => forall a y, (a, y) ∈ g_asks g -> price < a
  | Side.Sell => forall b x, (b, x) ∈ g_bids g -> b < price
  end.

Lemma insert_length_le (m : BTreeMap Z) k x : (length (BTree.insert k x m) <= length m + 1)%nat.
Proof.
  induction m as [| [k' x'] m IH]; simpl; [lia |]. repeat case_match; simpl; lia.
Qed.

Lemma push_level_ok n room g inputs kind side price quantity :
  kind = MarketEventKind.SnapshotLevel side price quantity
  \/ kind = MarketEventKind.LevelSet side price quantity ->
  gen_ok n room g inputs -> room + 2 <= budget -> in_u64 quantity -> lowest <= price <= highest ->
  (0 < quantity -> fits g side price) ->
  exists inputs', Generator.push_market g kind inputs = Ret (ticked g kind inputs, inputs')
    /\ gen_ok n (room + 2) (ticked g kind inputs) inputs'
    /\ forall phase phase', expected phase kind phase' -> tracked phase g inputs ->
         tracked phase' (ticked g kind inputs) inputs'.
Proof.
  intros Hk G Hb Hq Hp Hf. pose proof (go_room _ _ _ _ G) as Hr. destruct (gw_prices W).
  assert (E : Generator.publish g kind
              = Generator.publish g (MarketEventKind.LevelSet side price quantity))
    by (by destruct Hk as [-> | ->]).
  destruct (push_market_ok n room (room + 2) g inputs kind) as (inputs' & E' & _ & G' & T); try done.
  - destruct Hk as [-> | ->]; split; [mach | done | mach | done].
  - intros p Hpq. destruct Hk as [-> | ->]; by injection Hpq as <-.
  - rewrite E. simpl. destruct side, (quantity =? 0); simpl;
      pose proof (BTree.length_remove_le (g_bids g) price);
      pose proof (BTree.length_remove_le (g_asks g) price);
      pose proof (insert_length_le (g_bids g) price quantity);
      pose proof (insert_length_le (g_asks g) price quantity); lia.
  - rewrite E. pose proof (go_uncrossed _ _ _ _ G) as Hu. intros b x a y Hbx Hay. simpl in Hbx, Hay.
    destruct side, (Z.eqb_spec quantity 0) as [Hz | Hz]; simpl in Hbx, Hay.
    + apply BTree.elem_remove in Hbx. by eapply Hu.
    + apply BTree.elem_insert in Hbx as [[= -> ->] | Hbx]; [| by eapply Hu]. eapply Hf; [mach | done].
    + apply BTree.elem_remove in Hay. by eapply Hu.
    + apply BTree.elem_insert in Hay as [[= -> ->] | Hay]; [| by eapply Hu]. eapply Hf; [mach | done].
  - by exists inputs'.
Qed.

(** * The opening snapshot *)

(** Bids below the start, asks above it. *)
Definition around (g : Generator) : Prop :=
  g_mid g = gc_start_price_ticks cfg
  /\ (forall b x, (b, x) ∈ g_bids g -> b < g_mid g) /\ (forall a y, (a, y) ∈ g_asks g -> g_mid g < a).

Lemma ticked_around g side price quantity inputs :
  around g -> 0 < quantity ->
  match side with Side.Buy => price < g_mid g | Side.Sell => g_mid g < price end ->
  around (ticked g (MarketEventKind.SnapshotLevel side price quantity) inputs).
Proof.
  intros (Hm & Hb & Ha) Hq Hp. unfold around.
  destruct side; simpl; rewrite (proj2 (Z.eqb_neq quantity 0)) by lia; (split; [done |]); split; try done.
  - intros b x [[= -> ->] | H]%BTree.elem_insert; eauto.
  - intros a y [[= -> ->] | H]%BTree.elem_insert; eauto.
Qed.

Lemma i64_plain_in z : in_i64 z -> i64_plain z = Ret z.
Proof. intros H. unfold i64_plain. by rewrite i64_checked_in. Qed.

(** One side of one turn of the loop. *)
Lemma snapshot_level_ok room g inputs side d :
  gen_ok 0 room g inputs -> around g -> 0 <= d < levels -> room + 2 <= budget ->
  let price := match side with Side.Buy => g_mid g - (d + 1) | Side.Sell => g_mid g + (d + 1) end in
  let kind := MarketEventKind.SnapshotLevel side price (10 + d) in
  i64_plain price = Ret price
  /\ exists g' inputs', Generator.push_market g kind inputs = Ret (g', inputs')
    /\ gen_ok 0 (room + 2) g' inputs' /\ around g' /\ g_mid g' = g_mid g
    /\ forall c, tracked (Some c) g inputs -> tracked (Some (c + 1)) g' inputs'.
Proof.
  intros G A Hd Hb price kind. pose proof A as (Hm & Hbid & Hask).
  pose proof (gw_prices W) as Hpr. unfold lowest, highest in Hpr. destruct (gw_levels W).
  assert (Hp : lowest <= price <= highest) by (unfold price, lowest, highest; destruct side; lia).
  split; [apply i64_plain_in; unfold lowest, highest in Hp; mach |].
  destruct (push_level_ok 0 room g inputs kind side price (10 + d)) as (i1 & E1 & G1 & T1); try done.
  { by left. } { mach. }
  { intros _. unfold price. destruct side; simpl; intros k x Hk; [apply Hask in Hk | apply Hbid in Hk]; lia. }
  exists (ticked g kind inputs), i1. split_and!; try done.
  - apply ticked_around; [done | lia |]. unfold price. destruct side; lia.
  - apply ticked_depth.
  - intros c. apply T1. constructor. lia.
Qed.

Lemma emit_levels_ok k : forall d room g inputs,
  gen_ok 0 room g inputs -> around g -> 0 <= d -> d + Z.of_nat k <= levels ->
  room + 4 * Z.of_nat k <= budget ->
  exists g' inputs', Generator.emit_levels (seqZ d (Z.of_nat k)) g inputs = Ret (g', inputs')
    /\ gen_ok 0 (room + 4 * Z.of_nat k) g' inputs'
    /\ forall c, tracked (Some c) g inputs -> tracked (Some (c + 2 * Z.of_nat k)) g' inputs'.
Proof.
  induction k as [| k IH]; intros d room g inputs G A Hd Hk Hb.
  - exists g, inputs. rewrite !Z.add_0_r. split_and!; [done | done |]. intros c. by rewrite Z.add_0_r.
  - rewrite seqZ_cons by lia. replace (Z.pred (Z.of_nat (S k))) with (Z.of_nat k) by lia.
    destruct (gw_levels W). cbn [Generator.emit_levels].
    rewrite i64_plain_in, u64_plain_in by mach. cbn [rbind].
    destruct (snapshot_level_ok room g inputs Side.Buy d G A) as (-> & g1 & i1 & E1 & G1 & A1 & M1 & T1);
      [lia | lia |].
    cbn [rbind]. rewrite E1. cbn [rbind].
    destruct (snapshot_level_ok (room + 2) g1 i1 Side.Sell d G1 A1) as (-> & g2 & i2 & E2 & G2 & A2 & M2 & T2);
      [lia | lia |].
    cbn [rbind]. rewrite E2. cbn [rbind].
    destruct (IH (Z.succ d) (room + 2 + 2) g2 i2 G2 A2) as (g' & i' & E' & G' & T'); [lia | lia | lia |].
    exists g', i'. split; [done |].
    replace (room + 4 * Z.of_nat (S k)) with (room + 2 + 2 + 4 * Z.of_nat k) by lia. split; [done |].
    intros c Tc. replace (c + 2 * Z.of_nat (S k)) with (c + 1 + 1 + 2 * Z.of_nat k) by lia. auto.
Qed.

(** A market event that publishes no level. *)
Definition silent (kind : MarketEventKind.t) : bool :=
  match kind with
  | MarketEventKind.SnapshotLevel _ _ _ | MarketEventKind.LevelSet _ _ _ => false
  | _ => true
  end.

Lemma push_silent_ok n room g inputs kind :
  silent kind = true -> gen_ok n room g inputs -> room + 1 <= budget -> kind_ok kind ->
  (forall p, Market.quoted_price kind = Some p -> lowest <= p <= highest) ->
  exists inputs', Generator.push_market g kind inputs = Ret (ticked g kind inputs, inputs')
    /\ gen_ok n (room + 1) (ticked g kind inputs) inputs'
    /\ forall phase phase', expected phase kind phase' -> tracked phase g inputs ->
         tracked phase' (ticked g kind inputs) inputs'.
Proof.
  intros Hs G Hb Hw Hp. pose proof (go_room _ _ _ _ G) as Hr.
  assert (E : Generator.publish g kind = g) by (by destruct kind).
  destruct (push_market_ok n room (room + 1) g inputs kind) as (i' & E' & _ & G' & T); try done.
  - rewrite E. lia.
  - rewrite E. apply G.
  - by exists i'.
Qed.

Lemma new_ok : gen_ok 0 0 (Generator.new cfg) [].
Proof.
  destruct (gw_levels W). constructor; simpl; try done; try lia.
  - unfold budget. lia.
  - rewrite length_replicate. split; [done |]. by apply Forall_replicate.
  - split; apply BTree.sorted_nil.
  - intros [] p x Hx; by apply not_elem_of_nil in Hx.
  - intros b x a y Hx. by apply not_elem_of_nil in Hx.
Qed.

(** The first event. *)
Lemma snapshot_begin_ok :
  exists g inputs,
    Generator.push_market (Generator.new cfg) (MarketEventKind.SnapshotBegin 1) [] = Ret (g, inputs)
    /\ g_config g = cfg /\ gen_ok 0 1 g inputs /\ around g /\ tracked (Some 0) g inputs.
Proof.
  destruct (gw_levels W) as [HL HL2]. set (kind := MarketEventKind.SnapshotBegin 1).
  destruct (push_silent_ok 0 0 (Generator.new cfg) [] kind eq_refl new_ok) as (i1 & E1 & G1 & _);
    [unfold budget; lia | done | done |].
  eexists _, i1. split; [exact E1 |]. split; [done |]. split; [done |]. split.
  { split; [done |]. split; intros ? ? Hx; by apply not_elem_of_nil in Hx. }
  intros _ _. apply rbind_inv in E1 as (sq & Esq & E1). cbn in Esq. injection Esq as <-.
  apply rbind_inv in E1 as (ingress & _ & E1). apply rbind_inv in E1 as (time & _ & E1).
  apply (f_equal (fun r => match r with Ret p => p.2 | Panic => [] end)) in E1. simpl in E1. subst i1.
  destruct (follows_begin lo hi depth time (Generator.new cfg) eq_refl) as (v & u & Ea & F & B).
  exists v. split; [| split; [by destruct F; constructor | done]].
  transitivity (let! (v1, _) := Market.apply (Market.new lo hi depth) 1 kind time in Ret v1); [done |].
  unfold kind. by rewrite Ea.
Qed.

Lemma emit_snapshot_ok :
  exists g inputs, Generator.emit_snapshot (Generator.new cfg) [] = Ret (g, inputs)
    /\ gen_ok 0 (2 + 4 * levels) g inputs /\ 0 < g_source_seq g /\ tracked None g inputs.
Proof.
  destruct (gw_levels W) as [HL HL2]. unfold Generator.emit_snapshot.
  change (g_source_seq (Generator.new cfg) + 1) with 1.
  rewrite u64_plain_in by done. cbn [rbind].
  destruct snapshot_begin_ok as (g1 & i1 & E1 & C1 & G1 & A1 & T1).
  rewrite E1. cbn [rbind]. rewrite C1.
  destruct (emit_levels_ok (Z.to_nat levels) 0 1 g1 i1 G1 A1) as (g2 & i2 & E2 & G2 & T2);
    [lia | lia | unfold budget; lia |].
  rewrite Z2Nat.id in E2, G2, T2 by done. rewrite E2. cbn [rbind]. rewrite u32_plain_in by mach.
  cbn [rbind].
  destruct (push_silent_ok 0 (1 + 4 * levels) g2 i2 (MarketEventKind.SnapshotEnd 1 (levels * 2)) eq_refl G2)
    as (i3 & E3 & G3 & T3); [unfold budget; lia | split; mach | done |].
  exists (ticked g2 (MarketEventKind.SnapshotEnd 1 (levels * 2)) i2), i3. split; [done |].
  replace (2 + 4 * levels) with (1 + 4 * levels + 1) by lia. split; [done |]. split.
  - destruct (ticked_depth g2 (MarketEventKind.SnapshotEnd 1 (levels * 2)) i2) as (_ & _ & _ & _ & ->).
    pose proof (go_seq _ _ _ _ G2). lia.
  - apply (T3 (Some (levels * 2))); [constructor |]. replace (levels * 2) with (0 + 2 * levels) by lia.
    by apply T2.
Qed.

(** * Market events *)

(** Changes outside what the invariant reads. *)
Lemma gen_ok_rng n room g inputs r :
  gen_ok n room g inputs -> gen_ok n room (Generator.set_rng g r) inputs.
Proof. intros []. by constructor. Qed.

Lemma tracked_same phase g g' inputs :
  g_source_seq g' = g_source_seq g -> g_bids g' = g_bids g -> g_asks g' = g_asks g ->
  tracked phase g inputs -> tracked phase g' inputs.
Proof.
  intros E1 E2 E3 T H1 H2. destruct (T H1 H2) as (v & Ev & F & B). exists v. split; [done |].
  split; [| done]. destruct F. by constructor; rewrite ?E1, ?E2, ?E3.
Qed.

Lemma gen_ok_next n room g inputs :
  gen_ok n room g inputs -> n + 1 <= events -> gen_ok (n + 1) room g inputs.
Proof.
  intros [] Hn. constructor; try done; try lia.
  - split; [apply go_client_seq0 |]. eapply Forall_impl; [apply go_client_seq0 |]. simpl. lia.
  - eapply Forall_impl; [done |]. intros o []. constructor; try done; lia.
Qed.

(** Clearing levels that are there costs nothing: each event takes one away. *)
Lemma clear_level_ok n room other k g inputs :
  gen_ok n room g inputs -> is_Some (BTree.get k (side_of g other)) ->
  let kind := MarketEventKind.LevelSet other k 0 in
  exists inputs', Generator.push_market g kind inputs = Ret (ticked g kind inputs, inputs')
    /\ gen_ok n room (ticked g kind inputs) inputs'
    /\ (tracked None g inputs -> tracked None (ticked g kind inputs) inputs')
    /\ forall side, side_of (ticked g kind inputs) side
         = if decide (side = other) then BTree.remove k (side_of g side) else side_of g side.
Proof.
  intros G [x Hx] kind. pose proof (go_room _ _ _ _ G) as Hr.
  destruct (go_sorted _ _ _ _ G) as [S1 S2]. pose proof (gw_prices W) as Hpr.
  pose proof (go_prices _ _ _ _ G other k x (BTree.get_elem _ _ _ Hx)) as Hk.
  destruct (push_market_ok n room room g inputs kind G) as (i' & E & _ & G' & T).
  - split; mach.
  - by intros p [= <-].
  - pose proof (BTree.length_remove _ _ _ Hx). destruct other; simpl in *; lia.
  - pose proof (go_uncrossed _ _ _ _ G) as Hu. intros b y a z Hb Ha.
    destruct other; simpl in Hb, Ha; [apply BTree.elem_remove in Hb | apply BTree.elem_remove in Ha];
      by eapply Hu.
  - exists i'. split_and!; try done; [apply T; constructor |]. by intros []; destruct other.
Qed.

Lemma clear_levels_ok n room other crossed : forall g inputs,
  gen_ok n room g inputs ->
  NoDup crossed -> (forall k, k ∈ crossed -> is_Some (BTree.get k (side_of g other))) ->
  exists g' inputs', Generator.clear_levels other crossed g inputs = Ret (g', inputs')
    /\ gen_ok n room g' inputs' /\ g_config g' = g_config g /\ g_mid g' = g_mid g
    /\ (forall side p x, (p, x) ∈ side_of g' side ->
          (p, x) ∈ side_of g side /\ (side = other -> p ∉ crossed))
    /\ (tracked None g inputs -> tracked None g' inputs').
Proof.
  induction crossed as [| k crossed IH]; intros g inputs G Hnd Hin.
  - exists g, inputs. split_and!; try done. intros side p x Hx. split; [done |]. set_solver.
  - apply NoDup_cons in Hnd as [Hk Hnd].
    destruct (clear_level_ok n room other k g inputs G (Hin k ltac:(set_solver))) as (i1 & E1 & G1 & T1 & D1).
    destruct (ticked_depth g (MarketEventKind.LevelSet other k 0) inputs) as (_ & _ & M1 & C1 & _).
    assert (Sk : BTree.sorted (side_of g other)) by (destruct other; apply G).
    destruct (IH (ticked g (MarketEventKind.LevelSet other k 0) inputs) i1 G1 Hnd)
      as (g' & i' & E' & G' & C' & M' & D' & T').
    { intros k' Hk'. rewrite D1, decide_True, BTree.get_remove_ne by set_solver. apply Hin. set_solver. }
    exists g', i'. simpl. rewrite E1. cbn [rbind]. split_and!; try done; try congruence; auto.
    intros side p x [Hx Hn]%D'. rewrite D1 in Hx. destruct (decide (side = other)) as [-> |].
    + split; [by apply BTree.elem_remove in Hx |]. intros _ [-> | Hp]%elem_of_cons; [| by apply Hn].
      apply BTree.elem_get in Hx; [| by apply BTree.sorted_remove].
      by rewrite BTree.get_remove_eq in Hx.
    + split; [done |]. by intros ->.
Qed.

Lemma key_get (m : BTreeMap Z) k : BTree.sorted m -> k ∈ map fst m -> is_Some (BTree.get k m).
Proof.
  intros Hs ((k' & x) & -> & Hx)%list_elem_of_fmap. exists x. by apply BTree.elem_get.
Qed.

Lemma clear_crossing_ok n room g inputs side price :
  gen_ok n room g inputs ->
  exists g' inputs', Generator.clear_crossing g side price inputs = Ret (g', inputs')
    /\ gen_ok n room g' inputs' /\ g_config g' = g_config g /\ g_mid g' = g_mid g
    /\ fits g' side price /\ (tracked None g inputs -> tracked None g' inputs').
Proof.
  intros G. destruct (go_sorted _ _ _ _ G) as [S1 S2]. unfold Generator.clear_crossing.
  destruct side.
  - destruct (clear_levels_ok n room Side.Sell (keys_upto price (g_asks g)) g inputs G)
      as (g' & i' & E & G' & C & M & D & T).
    { apply NoDup_filter, (BTree.sorted_NoDup_keys _ S2). }
    { intros k [_ Hk]%list_elem_of_filter. by apply key_get. }
    exists g', i'. split_and!; try done. intros a y Ha. destruct (D Side.Sell a y Ha) as [Hg Hn].
    apply Z.nle_gt. intros Hle. apply (Hn eq_refl), list_elem_of_filter. split; [done |].
    apply list_elem_of_fmap. by exists (a, y).
  - destruct (clear_levels_ok n room Side.Buy (keys_from price (g_bids g)) g inputs G)
      as (g' & i' & E & G' & C & M & D & T).
    { apply NoDup_filter, (BTree.sorted_NoDup_keys _ S1). }
    { intros k [_ Hk]%list_elem_of_filter. by apply key_get. }
    exists g', i'. split_and!; try done. intros b x Hb. destruct (D Side.Buy b x Hb) as [Hg Hn].
    apply Z.nle_gt. intros Hle. apply (Hn eq_refl), list_elem_of_filter. split; [done |].
    apply list_elem_of_fmap. by exists (b, x).
Qed.

(** The faults move the sequence, the walk the price. *)
Definition wander (g : Generator) (r : SplitMix64) (mid seq : Z) : Generator :=
  Generator.set_source_seq (Generator.set_mid (Generator.set_rng g r) mid) seq.

Lemma inject_duplicate_ok g :
  0 < g_source_seq g <= u64_max ->
  exists r seq, Generator.inject_duplicate g = Ret (wander g r (g_mid g) seq)
    /\ g_source_seq g - 1 <= seq <= g_source_seq g
    /\ (gc_inject_duplicates (g_config g) = false -> seq = g_source_seq g).
Proof.
  intros Hs. unfold Generator.inject_duplicate, wander.
  destruct (gc_inject_duplicates (g_config g)).
  - destruct (roll_spec g 50) as (r & z & -> & _); [done |]. exists r. case_match.
    + simpl. rewrite u64_plain_in by mach. eexists. split; [done |]. split; [lia | done].
    + exists (g_source_seq g). split; [by destruct g |]. split; [lia | done].
  - exists (g_rng g), (g_source_seq g). split; [by destruct g |]. split; [lia | done].
Qed.

Lemma inject_gap_ok g :
  0 <= g_source_seq g -> g_source_seq g + 3 <= u64_max ->
  exists r seq, Generator.inject_gap g = Ret (wander g r (g_mid g) seq)
    /\ g_source_seq g <= seq <= g_source_seq g + 3
    /\ (gc_inject_gaps (g_config g) = false -> seq = g_source_seq g).
Proof.
  intros Hs Hu. unfold Generator.inject_gap, wander.
  destruct (gc_inject_gaps (g_config g)).
  - destruct (roll_spec g 200) as (r & z & -> & _); [done |]. exists r. case_match.
    + simpl. rewrite u64_plain_in by mach. eexists. split; [done |]. split; [lia | done].
    + exists (g_source_seq g). split; [by destruct g |]. split; [lia | done].
  - exists (g_rng g), (g_source_seq g). split; [by destruct g |]. split; [lia | done].
Qed.

Lemma gen_ok_wander n room g inputs r mid seq :
  gen_ok n room g inputs -> n + 1 <= events -> Z.abs (mid - g_mid g) <= 1 ->
  0 <= seq <= g_source_seq g + 3 -> gen_ok (n + 1) room (wander g r mid seq) inputs.
Proof.
  intros G Hn Hm Hs. pose proof (go_mid _ _ _ _ G). pose proof (go_seq _ _ _ _ G).
  apply gen_ok_next in G; [| done]. destruct G. constructor; try done; simpl; lia.
Qed.

Lemma walk_ok n room g inputs :
  gen_ok n room g inputs -> n + 1 <= events -> 0 < g_source_seq g ->
  exists g', Generator.walk g = Ret g' /\ gen_ok (n + 1) room g' inputs
    /\ (tracked None g inputs -> tracked None g' inputs).
Proof.
  intros G Hn Hs. unfold Generator.walk. destruct (roll_spec g 2) as (r & z & -> & _); [done |].
  pose proof (go_mid _ _ _ _ G) as Hm. pose proof (gw_prices W) as Hpr. destruct (gw_levels W).
  pose proof (go_seq _ _ _ _ G) as Hq. pose proof (go_room _ _ _ _ G) as Hr.
  pose proof (go_events _ _ _ _ G) as He. pose proof (gw_budget W) as Hbud.
  assert (Hu : g_source_seq g + 3 <= u64_max) by (unfold budget in *; lia).
  cbn [g_mid Generator.set_rng].
  set (mid := if z =? 0 then g_mid g + 1 else g_mid g - 1).
  assert (Hmid : Z.abs (mid - g_mid g) <= 1) by (unfold mid; destruct (z =? 0); lia).
  rewrite i64_plain_in by (unfold lowest, highest in Hpr; mach). cbn [rbind].
  destruct (inject_duplicate_ok (Generator.set_mid (Generator.set_rng g r) mid))
    as (r1 & s1 & -> & Hs1 & F1); [simpl; lia |]. cbn [rbind]. simpl in Hs1, F1.
  cbn [g_mid Generator.set_mid].
  destruct (inject_gap_ok (wander (Generator.set_mid (Generator.set_rng g r) mid) r1 mid s1))
    as (r2 & s2 & -> & Hs2 & F2); [simpl; lia | simpl; lia |]. simpl in Hs2, F2.
  exists (wander g r2 mid s2). split; [done |].
  split; [apply gen_ok_wander; [done | done | done | lia] |].
  intros T H1 H2. rewrite <- (go_config _ _ _ _ G) in H1, H2.
  apply (tracked_same _ g); simpl; try done. 1: rewrite F2, F1; done.
  all: by rewrite <- (go_config _ _ _ _ G).
Qed.

(** The outcome of an event. *)
Definition emits (n room : Z) (g : Generator) (inputs : list EngineInput)
    (m : res (Generator * list EngineInput)) : Prop :=
  exists g' inputs', m = Ret (g', inputs') /\ gen_ok n room g' inputs' /\ 0 < g_source_seq g'
    /\ (tracked None g inputs -> tracked None g' inputs').

Lemma emit_level_ok n room g inputs :
  gen_ok n room g inputs -> room + 2 <= budget ->
  emits n (room + 2) g inputs (Generator.emit_level g inputs).
Proof.
  intros G Hb. unfold Generator.emit_level.
  destruct (roll_side_spec g) as (r1 & side & ->). apply (gen_ok_rng _ _ _ _ r1) in G.
  destruct (roll_spec (Generator.set_rng g r1) 5) as (r2 & z & -> & Hz & Hz5); [done |].
  apply (gen_ok_rng _ _ _ _ r2) in G. specialize (Hz5 ltac:(lia)).
  pose proof (go_mid _ _ _ _ G) as Hm. pose proof (go_events _ _ _ _ G) as He. simpl in Hm.
  pose proof (gw_prices W) as Hpr. destruct (gw_levels W). unfold i64_try_from.
  rewrite (proj2 (Z.leb_le z i64_max)) by lia. rewrite i64_plain_in by mach. cbn [rbind].
  cbn [g_mid Generator.set_rng].
  set (price := match side with Side.Buy => g_mid g - (z + 1) | Side.Sell => g_mid g + (z + 1) end).
  assert (Hp : lowest <= price <= highest) by (unfold price, lowest, highest; destruct side; lia).
  rewrite i64_plain_in by mach. cbn [rbind].
  destruct (roll_spec (Generator.set_rng (Generator.set_rng g r1) r2) 50)
    as (r3 & q & -> & Hq & Hq50); [done |]. specialize (Hq50 ltac:(lia)).
  apply (gen_ok_rng _ _ _ _ r3) in G.
  set (g1 := Generator.set_rng (Generator.set_rng (Generator.set_rng g r1) r2) r3) in *.
  assert (Hcl : exists g2 i2,
            (if 0 <? q then Generator.clear_crossing g1 side price inputs else Ret (g1, inputs))
            = Ret (g2, i2)
            /\ gen_ok n room g2 i2 /\ (0 < q -> fits g2 side price)
            /\ (tracked None g1 inputs -> tracked None g2 i2)).
  { destruct (Z.ltb_spec 0 q).
    - destruct (clear_crossing_ok n room g1 inputs side price G) as (g2 & i2 & E & G2 & _ & _ & F & T).
      by exists g2, i2.
    - exists g1, inputs. split_and!; try done. lia. }
  destruct Hcl as (g2 & i2 & -> & G2 & F & T2). cbn [rbind].
  destruct (push_level_ok n room g2 i2 (MarketEventKind.LevelSet side price q) side price q)
    as (i3 & E3 & G3 & T3); try done; [by right | mach |].
  exists (ticked g2 (MarketEventKind.LevelSet side price q) i2), i3. split_and!; try done.
  - destruct (ticked_depth g2 (MarketEventKind.LevelSet side price q) i2) as (_ & _ & _ & _ & ->).
    pose proof (go_seq _ _ _ _ G2). lia.
  - intros T. eapply T3; [constructor |]. apply T2. by apply (tracked_same _ g).
Qed.

Lemma emit_silent_ok n room g g0 inputs kind :
  silent kind = true -> expected None kind None ->
  gen_ok n room g inputs -> room + 2 <= budget -> kind_ok kind ->
  (forall p, Market.quoted_price kind = Some p -> lowest <= p <= highest) ->
  (tracked None g0 inputs -> tracked None g inputs) ->
  emits n (room + 2) g0 inputs (Generator.push_market g kind inputs).
Proof.
  intros Hk Hex G Hb Hw Hp T0. destruct (push_silent_ok n room g inputs kind) as (i1 & E1 & G1 & T1); try done; [lia |].
  exists (ticked g kind inputs), i1. split_and!; try done.
  - destruct G1. constructor; try done. lia.
  - destruct (ticked_depth g kind inputs) as (_ & _ & _ & _ & ->). pose proof (go_seq _ _ _ _ G). lia.
  - intros T. eapply T1; [done | auto].
Qed.

Lemma emit_market_ok n room g inputs :
  gen_ok n room g inputs -> n + 1 <= events -> room + 2 <= budget -> 0 < g_source_seq g ->
  emits (n + 1) (room + 2) g inputs (Generator.emit_market g inputs).
Proof.
  intros G Hn Hb Hs. unfold Generator.emit_market.
  destruct (walk_ok n room g inputs G Hn Hs) as (g1 & -> & G1 & T1). cbn [rbind].
  destruct (roll_spec g1 10) as (r & z & -> & _); [done |]. apply (gen_ok_rng _ _ _ _ r) in G1.
  assert (T2 : tracked None g inputs -> tracked None (Generator.set_rng g1 r) inputs)
    by (intros T; by apply (tracked_same _ g1); auto).
  destruct (z <? 6).
  { destruct (emit_level_ok (n + 1) room _ inputs G1 Hb) as (g' & i' & E & G' & S' & T').
    exists g', i'. split_and!; auto. }
  destruct (z <? 9); [| by apply emit_silent_ok; try done; constructor].
  destruct (roll_side_spec (Generator.set_rng g1 r)) as (r2 & side & ->).
  apply (gen_ok_rng _ _ _ _ r2) in G1.
  destruct (roll_spec (Generator.set_rng (Generator.set_rng g1 r) r2) 5) as (r3 & q & -> & Hq & Hq5); [done |].
  apply (gen_ok_rng _ _ _ _ r3) in G1. specialize (Hq5 ltac:(lia)). rewrite u64_plain_in by mach.
  cbn [rbind]. pose proof (go_mid _ _ _ _ G1) as Hm. pose proof (gw_prices W) as Hpr.
  destruct (gw_levels W).
  assert (Hp : lowest <= g_mid g1 <= highest) by (unfold lowest, highest; simpl in Hm; lia).
  apply emit_silent_ok; try done; [constructor | split; simpl; mach | by intros p [= <-] |].
  intros T. by apply (tracked_same _ (Generator.set_rng g1 r)); auto.
Qed.

(** * Orders *)

Lemma swap_remove_ok {A} (l : list A) i :
  (i < length l)%nat ->
  exists rest x, swap_remove l i = Ret (rest, x) /\ x ∈ l /\ forall y, y ∈ rest -> y ∈ l.
Proof.
  intros Hi. destruct (lookup_lt_is_Some_2 l i Hi) as [x Hx]. unfold swap_remove, index. rewrite Hx.
  cbn [unwrap rbind]. destruct (list.last l) as [y |] eqn:Hy.
  2: { apply last_None in Hy. subst l. simpl in Hi. lia. }
  cbn [unwrap rbind]. do 2 eexists. split; [done |]. split; [by eapply list_elem_of_lookup_2 |].
  assert (Hr : forall z, z ∈ removelast l -> z ∈ l).
  { intros z Hz. rewrite removelast_take in Hz.
    rewrite <- (take_drop (length l - 1) l). set_solver. }
  assert (Hl : y ∈ l) by (rewrite last_lookup in Hy; by eapply list_elem_of_lookup_2).
  intros z Hz. case_match; [by apply Hr |].
  apply list_elem_of_lookup in Hz as [j Hj]. apply list_lookup_insert_Some in Hj as [(_ & <- & _) | (_ & Hj)].
  - done.
  - apply Hr. by eapply list_elem_of_lookup_2.
Qed.

(** [g'] is [g] with the counters and the remembered orders of its [n]th event;
    the client sequences are at most [m]. *)
Record ordered (n m : Z) (g g' : Generator) : Prop := {
  od_config : g_config g' = g_config g;
  od_ingress : g_ingress g' = g_ingress g;
  od_seq : g_source_seq g' = g_source_seq g;
  od_time : g_time_ns g' = g_time_ns g;
  od_mid : g_mid g' = g_mid g;
  od_bids : g_bids g' = g_bids g;
  od_asks : g_asks g' = g_asks g;
  od_request : 0 <= g_request_id g' <= n;
  od_client : 0 <= g_client_order_id g' <= n;
  od_client_seq : length (g_client_seq g') = accounts
                  /\ Forall (fun s => 0 <= s <= m) (g_client_seq g');
  od_live : Forall (order_ok n) (g_live g')
}.

Lemma ordered_rng n m g g' r : ordered n m g g' -> ordered n m g (Generator.set_rng g' r).
Proof. intros []. by constructor. Qed.

Lemma ordered_start n room g inputs :
  gen_ok n room g inputs -> ordered (n + 1) (2 * n) g g.
Proof.
  intros []. constructor; try done; try lia.
  eapply Forall_impl; [done |]. intros o []. constructor; try done; lia.
Qed.

Lemma ordered_ok n room g g' inputs :
  gen_ok n room g inputs -> n + 1 <= events -> ordered (n + 1) (2 * n + 2) g g' ->
  gen_ok (n + 1) room g' inputs /\ (tracked None g inputs -> tracked None g' inputs).
Proof.
  intros G Hn [E1 E2 E3 E4 E5 E6 E7 H1 H2 [H3 H3'] H4]. split; [| by apply tracked_same].
  destruct G. constructor; rewrite ?E1, ?E2, ?E3, ?E4, ?E5, ?E6, ?E7; try done; try lia.
  - split; [done |]. eapply Forall_impl; [done |]. simpl. lia.
  - intros [] p x; simpl; rewrite ?E6, ?E7; [apply (go_prices0 Side.Buy) | apply (go_prices0 Side.Sell)].
Qed.

Lemma bump_client_seq_ok n m g g' slot :
  ordered n m g g' -> (slot < accounts)%nat -> m + 1 <= u64_max ->
  exists g2 k, Generator.bump_client_seq g' slot = Ret (g2, k) /\ ordered n (m + 1) g g2
    /\ in_u64 k /\ g_live g2 = g_live g' /\ g_client_order_id g2 = g_client_order_id g'.
Proof.
  intros O Hs Hm. destruct (od_client_seq _ _ _ _ O) as [Hl Hf]. unfold Generator.bump_client_seq, index.
  destruct (lookup_lt_is_Some_2 (g_client_seq g') slot) as [s Es]; [lia |]. rewrite Es.
  cbn [unwrap rbind]. pose proof (proj1 (Forall_lookup _ _) Hf _ _ Es) as Hb. simpl in Hb.
  rewrite u64_plain_in by mach. cbn [rbind]. unfold index_set. rewrite Es. cbn [rbind].
  do 2 eexists. split; [done |]. split; [| split_and!; done || mach].
  destruct O. constructor; try done. simpl. rewrite length_insert. split; [done |].
  apply Forall_insert; [| simpl; lia]. eapply Forall_impl; [exact Hf |]. simpl. lia.
Qed.

Lemma account_slot_ok slot account : gc_accounts cfg !! slot = Some account -> in_u32 account.
Proof. intros H. by apply (proj1 (Forall_lookup _ _) (gw_account_ids W) _ _ H). Qed.

(** A random live order. *)
Lemma roll_live_ok n m g g' :
  ordered n m g g' -> g_live g' <> [] ->
  exists r z, Generator.roll g' (Z.of_nat (length (g_live g'))) = (Generator.set_rng g' r, z)
    /\ (Z.to_nat z < length (g_live g'))%nat.
Proof.
  intros O Hne. assert (0 < length (g_live g'))%nat by (destruct (g_live g'); simpl; [done | lia]).
  destruct (roll_spec g' (Z.of_nat (length (g_live g')))) as (r & z & E & Hz & Hlt); [lia |].
  exists r, z. split; [done |]. specialize (Hlt ltac:(lia)). lia.
Qed.

(** A request that an event turns out, with the state behind it. *)
Definition requests (n m : Z) (g : Generator) (r : res (Generator * OrderRequest)) : Prop :=
  exists g' request, r = Ret (g', request) /\ ordered n m g g' /\ request_wf request.

Lemma request_of_wf n m g g' kind account client_seq client_order_id target side order_type price quantity :
  ordered n m g g' -> g_config g = cfg -> n <= u32_max -> in_u32 account -> in_u64 client_seq -> in_u64 client_order_id ->
  in_u64 target -> in_i64 price -> in_u64 quantity ->
  request_wf (Generator.request_of g' kind account client_seq client_order_id target side order_type
                price quantity).
Proof.
  intros O Hc Hn H1 H2 H3 H4 H5 H6. pose proof (od_request _ _ _ _ O).
  constructor; simpl; try done; [| mach]. rewrite (od_config _ _ _ _ O), Hc. apply W.
Qed.

Lemma cancel_request_ok n m g g' :
  ordered n m g g' -> g_config g = cfg -> n <= u32_max -> m + 1 <= u64_max -> g_live g' <> [] ->
  requests n (m + 1) g (Generator.cancel_request g').
Proof.
  intros O Hc Hn Hm Hne. unfold Generator.cancel_request.
  destruct (roll_live_ok n m g g' O Hne) as (r & z & -> & Hz). apply (ordered_rng _ _ _ _ r) in O.
  destruct (swap_remove_ok (g_live g') (Z.to_nat z) Hz) as (rest & x & Es & Hx & Hrest).
  cbn [g_live Generator.set_rng]. rewrite Es. cbn [rbind].
  pose proof (proj1 (Forall_forall _ _) (od_live _ _ _ _ O) x Hx) as [Hslot Hid _ _].
  cbn [g_config Generator.set_live Generator.set_rng]. pose proof (od_config _ _ _ _ O) as Hc'. simpl in Hc'. rewrite Hc', Hc.
  destruct (lookup_lt_is_Some_2 (gc_accounts cfg) (lc_account_slot x) Hslot) as [account Ea].
  unfold index. rewrite Ea. cbn [unwrap rbind].
  assert (O2 : ordered n m g (Generator.set_live (Generator.set_rng g' r) rest)).
  { destruct O. constructor; try done. simpl. apply Forall_forall. intros o Ho.
    apply (proj1 (Forall_forall _ _) od_live0). by apply Hrest. }
  destruct (bump_client_seq_ok _ _ _ _ _ O2 Hslot Hm) as (g2 & k & -> & O3 & Hk & _). cbn [rbind].
  do 2 eexists. split; [done |]. split; [done |].
  eapply request_of_wf; try done; [by eapply account_slot_ok | mach].
Qed.

Lemma replace_request_ok n m g g' :
  ordered n m g g' -> g_config g = cfg -> n <= u32_max -> 0 <= m -> m + 1 <= u64_max ->
  1 <= n -> Forall (order_ok (n - 1)) (g_live g') -> g_live g' <> [] ->
  requests n (m + 1) g (Generator.replace_request g').
Proof.
  intros O Hc Hn Hm0 Hm Hn1 Hlive Hne. unfold Generator.replace_request.
  destruct (roll_live_ok n m g g' O Hne) as (r & z & -> & Hz). apply (ordered_rng _ _ _ _ r) in O.
  destruct (lookup_lt_is_Some_2 (g_live g') (Z.to_nat z) Hz) as [x Hx].
  pose proof (proj1 (Forall_lookup _ _) Hlive _ _ Hx) as [Hslot Hid Hp Hq].
  unfold index. cbn [g_live g_config Generator.set_rng]. rewrite Hx. cbn [unwrap rbind].
  pose proof (od_config _ _ _ _ O) as Hc'. simpl in Hc'. rewrite Hc', Hc.
  destruct (lookup_lt_is_Some_2 (gc_accounts cfg) (lc_account_slot x) Hslot) as [account Ea].
  rewrite Ea. cbn [unwrap rbind].
  destruct (bump_client_seq_ok _ _ _ _ _ O Hslot Hm) as (g2 & k & -> & O2 & Hk & El & _). cbn [rbind].
  rewrite u64_plain_in by mach. cbn [rbind].
  destruct (roll_spec g2 (Z.max (lc_quantity x) 1 + 5)) as (r2 & q & -> & Hq0 & Hq1); [lia |].
  specialize (Hq1 ltac:(lia)). rewrite u64_plain_in by mach. cbn [rbind].
  cbn [g_live Generator.set_rng]. rewrite El. cbn [g_live Generator.set_rng].
  unfold index_set. rewrite Hx. cbn [rbind]. apply (ordered_rng _ _ _ _ r2) in O2.
  do 2 eexists. split; [done |]. split.
  - destruct O2. constructor; try done. simpl. simpl in od_live0. rewrite El in od_live0. simpl in od_live0.
    apply Forall_insert; [done |]. constructor; simpl; try done; lia.
  - eapply request_of_wf; try done; [by eapply account_slot_ok | mach | mach].
Qed.

Lemma new_request_ok n m g g' slot account client_seq :
  ordered n m g g' -> g_config g = cfg -> n <= u32_max -> 0 <= g_client_order_id g' <= n - 1 ->
  lowest <= g_mid g - 5 -> g_mid g + 5 <= highest ->
  (slot < accounts)%nat -> in_u32 account -> in_u64 client_seq ->
  requests n m g (Generator.new_request g' slot account client_seq).
Proof.
  intros O Hc Hn Hid Hlow Hhigh Hslot Ha Hs. unfold Generator.new_request. pose proof (gw_prices W) as Hpr.
  rewrite u64_plain_in by mach. cbn [rbind].
  assert (O1 : ordered n m g (Generator.set_client_order_id g' (g_client_order_id g' + 1))).
  { destruct O. constructor; try done. simpl. lia. }
  destruct (roll_side_spec (Generator.set_client_order_id g' (g_client_order_id g' + 1))) as (r1 & side & ->).
  apply (ordered_rng _ _ _ _ r1) in O1. set (g1 := Generator.set_rng _ r1) in *.
  destruct (roll_spec g1 10) as (r2 & q & -> & Hq & Hq10); [done |]. specialize (Hq10 ltac:(lia)).
  apply (ordered_rng _ _ _ _ r2) in O1. set (g2 := Generator.set_rng g1 r2) in *.
  rewrite u64_plain_in by mach. cbn [rbind].
  destruct (roll_spec g2 100) as (r3 & z & -> & _); [done |].
  apply (ordered_rng _ _ _ _ r3) in O1. set (g3 := Generator.set_rng g2 r3) in *.
  destruct (z <? _).
  { do 2 eexists. split; [done |]. split; [done |]. eapply request_of_wf; try done; mach. }
  destruct (roll_spec g3 6) as (r4 & z4 & -> & Hz & Hz6); [done |]. specialize (Hz6 ltac:(lia)).
  pose proof (od_mid _ _ _ _ O1) as Hmid.
  pose proof (ordered_rng _ _ _ _ r4 O1) as O4. set (g4 := Generator.set_rng g3 r4) in *.
  unfold i64_try_from. rewrite (proj2 (Z.leb_le z4 i64_max)) by lia. rewrite i64_plain_in by mach.
  cbn [rbind]. change (g_mid g4) with (g_mid g3). rewrite Hmid.
  rewrite i64_plain_in by (destruct side; mach). cbn [rbind].
  rewrite i64_plain_in by (destruct side; mach). cbn [rbind].
  set (price := Z.max _ 1). assert (Hp : in_i64 price) by (unfold price; destruct side; mach).
  do 2 eexists. split; [done |]. split; [| eapply request_of_wf; try done; mach].
  destruct (length (g_live g4) <? 512)%nat; [| done]. destruct O4. constructor; try done.
  simpl. apply Forall_app_2; [done |]. apply Forall_singleton. constructor; simpl; try done; lia.
Qed.

(** The account and the counters at the head of [emit_order]. *)
Lemma order_head_ok n room g inputs :
  gen_ok n room g inputs -> n + 1 <= events ->
  exists r z account g1 k,
    Generator.roll g (Z.of_nat accounts) = (Generator.set_rng g r, z)
    /\ gc_accounts cfg !! Z.to_nat z = Some account
    /\ u64_plain (g_request_id g + 1) = Ret (g_request_id g + 1)
    /\ Generator.bump_client_seq
         (Generator.set_request_id (Generator.set_rng g r) (g_request_id g + 1)) (Z.to_nat z)
       = Ret (g1, k)
    /\ ordered (n + 1) (2 * n + 1) g g1 /\ in_u64 k
    /\ g_live g1 = g_live g /\ g_client_order_id g1 = g_client_order_id g.
Proof.
  intros G Hn. pose proof (gw_budget W) as Hbud. destruct (gw_levels W).
  assert (Hacc : (0 < accounts)%nat) by (pose proof (gw_accounts W); destruct (gc_accounts cfg); simpl; [done | lia]).
  destruct (roll_spec g (Z.of_nat accounts)) as (r & z & E & Hz & Hlt); [lia |].
  specialize (Hlt ltac:(lia)).
  destruct (lookup_lt_is_Some_2 (gc_accounts cfg) (Z.to_nat z)) as [account Ea]; [lia |].
  pose proof (go_request _ _ _ _ G) as Hreq. pose proof (go_events _ _ _ _ G) as He.
  assert (O : ordered (n + 1) (2 * n) g
                (Generator.set_request_id (Generator.set_rng g r) (g_request_id g + 1))).
  { destruct (ordered_start _ _ _ _ G). constructor; try done. simpl. lia. }
  destruct (bump_client_seq_ok _ _ _ _ (Z.to_nat z) O) as (g1 & k & Eb & O1 & Hk & El & Ec);
    [lia | unfold budget in *; lia |].
  exists r, z, account, g1, k. split_and!; try done. apply u64_plain_in. unfold budget in *. mach.
Qed.

Lemma emit_order_ok n room g inputs :
  gen_ok n room g inputs -> n + 1 <= events -> room + 1 <= budget -> 0 < g_source_seq g ->
  emits (n + 1) (room + 1) g inputs (Generator.emit_order g inputs).
Proof.
  intros G Hn Hb Hs. pose proof (gw_budget W) as Hbud. destruct (gw_levels W).
  pose proof (go_config _ _ _ _ G) as Hc. pose proof (go_mid _ _ _ _ G) as Hmid.
  pose proof (go_events _ _ _ _ G) as He. unfold Generator.emit_order. rewrite Hc.
  destruct (order_head_ok n room g inputs G Hn)
    as (r & z & account & g1 & k & -> & Ea & Er & Eb & O & Hk & El & Ec).
  cbn [g_config Generator.set_rng]. rewrite Hc. unfold index. rewrite Ea. cbn [unwrap rbind].
  cbn [g_request_id Generator.set_rng]. rewrite Er. cbn [rbind]. rewrite Eb. cbn [rbind].
  destruct (roll_spec g1 100) as (r2 & z2 & -> & _); [done |]. apply (ordered_rng _ _ _ _ r2) in O.
  set (g2 := Generator.set_rng g1 r2) in *.
  pose proof (od_config _ _ _ _ O) as Hc2. rewrite Hc2, Hc. destruct (gw_percent W) as (P1 & P2 & P3).
  rewrite u64_plain_in by mach. cbn [rbind].
  assert (Hlive : Forall (order_ok (n + 1 - 1)) (g_live g2)).
  { replace (n + 1 - 1) with n by lia. simpl. rewrite El. apply G. }
  assert (Hbound : 2 * n + 1 + 1 <= u64_max) by (unfold budget in *; lia).
  assert (Hn32 : n + 1 <= u32_max) by (unfold budget in *; lia).
  match goal with |- emits _ _ _ _ (rbind ?m _) => assert (R : requests (n + 1) (2 * n + 2) g m) end.
  { destruct (length (g_live g2) =? 0)%nat eqn:Ene; rewrite ?andb_false_r, ?andb_true_r.
    all: try (apply Nat.eqb_neq in Ene; assert (Hne : g_live g2 <> []) by by destruct (g_live g2)).
    2: replace (2 * n + 2) with (2 * n + 1 + 1) by lia; case_match; [by apply cancel_request_ok |];
       case_match; [apply replace_request_ok; done || lia |].
    all: destruct (new_request_ok (n + 1) (2 * n + 1) g g2 (Z.to_nat z) account k O Hc)
           as (g3 & request & E & O3 & Hw); try done;
           [simpl; rewrite Ec; pose proof (go_client _ _ _ _ G); lia
           | unfold lowest; lia | unfold highest; lia | by eapply lookup_lt_Some | by eapply account_slot_ok |].
    all: exists g3, request; split_and!; try done; destruct O3 as [? ? ? ? ? ? ? ? ? [? ?] ?];
         constructor; try done; split; [done |]; eapply Forall_impl; [done |]; simpl; lia. }
  destruct R as (g3 & request & -> & O3 & Hw). cbn [rbind].
  destruct (ordered_ok n room g g3 inputs G Hn O3) as [G3 T3].
  destruct (push_order_ok (n + 1) room g3 inputs request G3 Hb Hw) as (g4 & i4 & E4 & G4 & T4).
  exists g4, i4. split; [done |]. split; [done |]. split; [| auto].
  unfold Generator.push in E4. apply rbind_inv in E4 as (? & _ & E4).
  apply rbind_inv in E4 as (? & _ & E4). injection E4 as <- _. simpl.
  by rewrite (od_seq _ _ _ _ O3).
Qed.

Lemma emit_event_ok n room g inputs :
  gen_ok n room g inputs -> n + 1 <= events -> room + 2 <= budget -> 0 < g_source_seq g ->
  emits (n + 1) (room + 2) g inputs (Generator.emit_event g inputs).
Proof.
  intros G Hn Hb Hs. unfold Generator.emit_event. destruct (roll_spec g 100) as (r & z & -> & _); [done |].
  assert (T0 : tracked None g inputs -> tracked None (Generator.set_rng g r) inputs)
    by by apply tracked_same.
  apply (gen_ok_rng _ _ _ _ r) in G. destruct (z <? _).
  - destruct (emit_order_ok n room _ inputs G Hn) as (g' & i' & E & G' & S' & T'); [lia | done |].
    exists g', i'. split; [done |]. split; [| split; auto]. destruct G'. constructor; try done. lia.
  - destruct (emit_market_ok n room _ inputs G Hn Hb Hs) as (g' & i' & E & G' & S' & T').
    exists g', i'. split_and!; auto.
Qed.

Lemma emit_events_ok k : forall n room g inputs,
  gen_ok n room g inputs -> n + Z.of_nat k <= events -> room + 2 * Z.of_nat k <= budget ->
  0 < g_source_seq g ->
  emits (n + Z.of_nat k) (room + 2 * Z.of_nat k) g inputs (Generator.emit_events k g inputs).
Proof.
  induction k as [| k IH]; intros n room g inputs G Hn Hb Hs.
  - exists g, inputs. rewrite !Z.add_0_r. by split_and!.
  - destruct (emit_event_ok n room g inputs G) as (g1 & i1 & E1 & G1 & S1 & T1); [lia | lia | done |].
    destruct (IH (n + 1) (room + 2) g1 i1 G1) as (g' & i' & E' & G' & S' & T'); [lia | lia | done |].
    exists g', i'. simpl. rewrite E1. cbn [rbind]. split; [done |].
    replace (n + Z.of_nat (S k)) with (n + 1 + Z.of_nat k) by lia.
    replace (room + 2 * Z.of_nat (S k)) with (room + 2 + 2 * Z.of_nat k) by lia. split_and!; auto.
Qed.

Lemma generate_ok :
  exists g inputs, Generator.generate (Generator.new cfg) = Ret (g, inputs)
    /\ gen_ok events budget g inputs /\ tracked None g inputs.
Proof.
  pose proof (gw_budget W) as Hbud. destruct (gw_levels W).
  destruct emit_snapshot_ok as (g1 & i1 & E1 & G1 & S1 & T1).
  destruct (emit_events_ok (gc_events cfg) 0 (2 + 4 * levels) g1 i1 G1) as (g' & i' & E' & G' & S' & T');
    [lia | unfold budget; lia | done |].
  exists g', i'. unfold Generator.generate. rewrite u64_plain_in by (simpl; unfold budget in *; mach).
  cbn [rbind]. rewrite E1. cbn [rbind]. rewrite (go_config _ _ _ _ G1). split; [done |].
  split; [done | auto].
Qed.

End Props.
