(* ===== verification/GeneratorTheorems.v ===== *)
(** What a generated workload is: it exists, its inputs are well formed and
    numbered, and without injected faults its market data keeps a market view
    live and uncrossed. *)

From S2P Require Import Prelude Enums Ids Events BTree Market MarketInv MarketTheorems Wire ReplayState.
From S2P Require Import Generator GeneratorProps.

(** The best prices of a view within an uncrossed depth are uncrossed. *)
Lemma follows_uncrossed lo hi g v :
  follows lo hi None g v -> uncrossed (g_bids g) (g_asks g) ->
  forall bid ask, Market.best_bid v = Some bid -> Market.best_ask v = Some ask -> bid < ask.
Proof.
  intros F U bid ask. unfold Market.best_bid, Market.best_ask.
  destruct (BTree.last (mv_bids v)) as [[b x] |] eqn:Eb; [| done].
  destruct (BTree.first (mv_asks v)) as [[a y] |] eqn:Ea; [| done]. simpl. intros [= <-] [= <-].
  pose proof (fo_inv _ _ _ _ _ F) as I.
  eapply U; apply BTree.get_elem.
  - apply (fo_bids _ _ _ _ _ F), BTree.last_get; [apply I | done].
  - by apply (fo_asks _ _ _ _ _ F), BTree.first_get.
Qed.

(** C33: [generate] returns for every configuration that has at least one account
    and whose counts, times and prices stay within their machine types over the
    whole workload ([generator_wf]), and its inputs are a feed: at most [budget] of
    them, each within the widths of its fields and with a frame, numbered from one
    without a hole and received [inter_arrival_ns] apart. *)
Theorem generate_well_formed (cfg : GeneratorConfig) (W : generator_wf cfg) :
  exists g inputs, Generator.generate (Generator.new cfg) = Ret (g, inputs)
    /\ Z.of_nat (length inputs) <= budget cfg
    /\ emitted cfg inputs.
Proof.
  destruct (generate_ok cfg W (lowest cfg) (highest cfg) 1) as (g & inputs & E & G & _); [lia |].
  exists g, inputs. split; [done |]. split; [| apply G]. pose proof (go_room _ _ _ _ _ G). lia.
Qed.

(** without injected faults a market view whose price domain holds the
    reach of the random walk applies the whole feed: it ends live, has counted
    no duplicate, gap, event out of order or invalid price, and its best bid is
    below its best ask. *)
Theorem generated_feed_live (cfg : GeneratorConfig) (lo hi : Z) (depth : nat) (W : generator_wf cfg)
    (Hgaps : gc_inject_gaps cfg = false) (Hdups : gc_inject_duplicates cfg = false)
    (Hdomain : lo <= lowest cfg /\ highest cfg <= hi) :
  exists g inputs v, Generator.generate (Generator.new cfg) = Ret (g, inputs)
    /\ market_run (Market.new lo hi depth) (market_feed inputs) = Ret v
    /\ mv_state v = FeedState.Live
    /\ undisturbed (mv_counters v)
    /\ mv_last_source_seq v = g_source_seq g
    /\ forall bid ask, Market.best_bid v = Some bid -> Market.best_ask v = Some ask -> bid < ask.
Proof.
  destruct (generate_ok cfg W lo hi depth Hdomain) as (g & inputs & E & G & T).
  destruct (T Hgaps Hdups) as (v & Ev & F & _). exists g, inputs, v. split; [done |]. split; [done |].
  split; [apply F |]. split; [apply F |]. split; [apply F |].
  eapply follows_uncrossed; [done | apply G].
Qed.

(** The account is needed: without one, the first order is a panic. *)
Lemma order_without_accounts (g : Generator) inputs :
  gc_accounts (g_config g) = [] -> Generator.emit_order g inputs = Panic.
Proof.
  intros H. unfold Generator.emit_order. destruct (Generator.roll g _) as [g1 z] eqn:E.
  assert (g_config g1 = g_config g) as ->; [| by rewrite H].
  unfold Generator.roll in E. repeat case_match; by simplify_eq.
Qed.

(** * Witnesses *)

(** The simulator's own configuration, for as many events as 32 bits number. *)
Lemma generator_config_wf seed events :
  Z.of_nat events <= 1000000000 -> generator_wf (generator_config_new seed events).
Proof.
  intros He. constructor; simpl; try done; try lia.
  - repeat constructor; done.
  - unfold budget. simpl. mach.
  - split; [lia |]. unfold budget. simpl. mach.
  - unfold lowest, highest. simpl. mach.
Qed.

Lemma generate_well_formed_witness :
  exists g inputs, Generator.generate (Generator.new (generator_config_new 7 40)) = Ret (g, inputs)
    /\ Z.of_nat (length inputs) <= budget (generator_config_new 7 40)
    /\ emitted (generator_config_new 7 40) inputs.
Proof. apply generate_well_formed. apply generator_config_wf. lia. Defined.

Lemma generated_feed_live_witness :
  exists g inputs v, Generator.generate (Generator.new (generator_config_new 7 40)) = Ret (g, inputs)
    /\ market_run (Market.new 1 1000000 64) (market_feed inputs) = Ret v
    /\ mv_state v = FeedState.Live
    /\ undisturbed (mv_counters v)
    /\ mv_last_source_seq v = g_source_seq g
    /\ forall bid ask, Market.best_bid v = Some bid -> Market.best_ask v = Some ask -> bid < ask.
Proof.
  apply (generated_feed_live (generator_config_new 7 40)); try reflexivity.
  - apply generator_config_wf. lia.
  - unfold lowest, highest. simpl. lia.
Defined.
