(* ===== verification/CoreFrame.v ===== *)
(** What market events and requests leave alone: the kill switch, and the count
    of control events.  Partial correctness, in the order of the handlers. *)

From S2P Require Import Prelude Enums Ids Events BTree Slab Book Matching Market Account Config.
From S2P Require Import CoreState Risk Core CoreExec.

Create HintDb core_frame.

Section Frame.
Context {S : Type} `{SL : Slab OrderNode S}.
Implicit Types (c : TradingCore S).

(** What only control commands touch. *)
Definition controls (c : TradingCore S) : bool * Z :=
  (tc_global_kill c, control_events (tc_metrics c)).

(** ** Computations that return a core *)

Class CoreIn (A : Type) := core_in : A -> TradingCore S.
#[local] Instance core_in_core : CoreIn (TradingCore S) := fun c => c.
#[local] Instance core_in_pair {A B} `{CoreIn A} : CoreIn (A * B) := fun p => core_in p.1.

Definition keeps `{CoreIn A} (c : TradingCore S) (m : res A) : Prop :=
  forall x, m = Ret x -> controls (core_in x) = controls c.

Lemma keeps_ret `{CoreIn A} c (x : A) : controls (core_in x) = controls c -> keeps c (Ret x).
Proof. by intros H0 y [= <-]. Qed.

Lemma keeps_bind `{CoreIn A, CoreIn B} c (m : res A) (k : A -> res B) :
  keeps c m -> (forall x, controls (core_in x) = controls c -> keeps c (k x)) -> keeps c (rbind m k).
Proof. intros Hm Hk y (x & E & Ey)%rbind_inv. by eapply Hk; [apply Hm |]. Qed.

Lemma keeps_read {A} `{CoreIn B} c (m : res A) (k : A -> res B) :
  (forall x, keeps c (k x)) -> keeps c (rbind m k).
Proof. intros Hk y (x & E & Ey)%rbind_inv. by eapply Hk. Qed.

(** ** The helpers that return a pair *)

Lemma take_output_seq_controls c c' n : Core.take_output_seq c = (c', n) -> controls c' = controls c.
Proof. unfold Core.take_output_seq. by destruct (next _); intros [= <- _]. Qed.

Lemma push_state_controls c event out c' out' :
  Core.push_state c event out = (c', out') -> controls c' = controls c.
Proof.
  unfold Core.push_state. destruct (Core.take_output_seq c) eqn:E. intros [= <- _].
  by apply take_output_seq_controls in E.
Qed.

Lemma base_report_controls c request id c' r :
  Core.base_report c request id = (c', r) -> controls c' = controls c.
Proof.
  unfold Core.base_report. destruct (Core.take_output_seq c) eqn:E. intros [= <- _].
  by apply take_output_seq_controls in E.
Qed.

Lemma reject_report_controls c request reason c' r :
  Core.reject_report c request reason = (c', r) -> controls c' = controls c.
Proof.
  unfold Core.reject_report. destruct (Core.base_report _ _ _) eqn:E. intros [= <- _].
  by apply base_report_controls in E.
Qed.

Lemma terminal_report_controls c request id kind filled c' r :
  Core.terminal_report c request id kind filled = (c', r) -> controls c' = controls c.
Proof.
  unfold Core.terminal_report. destruct (Core.base_report _ _ _) eqn:E. intros [= <- _].
  by apply base_report_controls in E.
Qed.

Lemma cancelled_report_controls c request id total filled c' r :
  Core.cancelled_report c request id total filled = (c', r) -> controls c' = controls c.
Proof.
  unfold Core.cancelled_report. destruct (Core.base_report _ _ _) eqn:E. intros [= <- _].
  by apply base_report_controls in E.
Qed.

Lemma replace_cancelled_report_controls c request id existing c' r :
  Core.replace_cancelled_report c request id existing = (c', r) -> controls c' = controls c.
Proof.
  unfold Core.replace_cancelled_report. destruct (Core.base_report _ _ _) eqn:E. intros [= <- _].
  by apply base_report_controls in E.
Qed.

Lemma retry_report_controls c previous c' r :
  Engine.retry_report c previous = (c', r) -> controls c' = controls c.
Proof.
  unfold Engine.retry_report. destruct (Core.take_output_seq c) eqn:E. intros [= <- _].
  by apply take_output_seq_controls in E.
Qed.

Lemma forget_maker_controls c fill : controls (Engine.forget_maker c fill) = controls c.
Proof. unfold Engine.forget_maker. by destruct (maker_is_filled fill). Qed.

Lemma taker_report_controls c request id side quantity cumulative fill c' r :
  Engine.taker_report c request id side quantity cumulative fill = (c', r) ->
  controls c' = controls c.
Proof.
  unfold Engine.taker_report. destruct (Core.base_report c request id) eqn:E.
  apply base_report_controls in E. destruct (u64_checked _); intros [= <- _]; done.
Qed.

(** ** One handler after the other *)

Ltac helper E :=
  first [ apply take_output_seq_controls in E | apply push_state_controls in E
        | apply base_report_controls in E | apply retry_report_controls in E
        | apply taker_report_controls in E | apply reject_report_controls in E
        | apply terminal_report_controls in E | apply cancelled_report_controls in E
        | apply replace_cancelled_report_controls in E | idtac ].

(** [congruence] on what is known of the cores at hand. *)
Ltac kept :=
  rewrite ?forget_maker_controls in *;
  cbv [core_in core_in_pair core_in_core Engine.accounting_fault controls] in *;
  simpl in *; congruence.

Ltac frame :=
  lazymatch goal with
  | |- keeps _ (rbind _ _) =>
      first [ apply keeps_bind; [solve [eauto with core_frame; frame] |]; intros ? ?; frame
            | apply keeps_read; intros ?; frame ]
  | |- keeps _ (Ret _) => frame_ret
  | |- keeps _ (match (match ?x with _ => _ end) with _ => _ end) =>
      let E := fresh in destruct x eqn:E; helper E; frame
  | |- keeps _ (match ?x with _ => _ end) => let E := fresh in destruct x eqn:E; helper E; frame
  | |- keeps _ _ => solve [eauto with core_frame]
  end
with frame_ret :=
  apply keeps_ret;
  repeat match goal with
    | |- context [match ?y with _ => _ end] => let E := fresh in destruct y eqn:E; helper E
    end;
  first [ kept | lazymatch goal with
                 | |- controls (core_in ?p) = _ => let E := fresh in destruct p eqn:E; helper E; kept
                 end ].

#[local] Hint Extern 5 (controls _ = controls _) => kept : core_frame.

Lemma put_instrument_keeps c c1 i r :
  controls c1 = controls c -> keeps c (Core.put_instrument c1 i r).
Proof. intros K. unfold Core.put_instrument. frame. Qed.
#[local] Hint Resolve put_instrument_keeps : core_frame.

Lemma put_account_keeps c c1 i a : controls c1 = controls c -> keeps c (Core.put_account c1 i a).
Proof. intros K. unfold Core.put_account. frame. Qed.
#[local] Hint Resolve put_account_keeps : core_frame.

Lemma put_position_keeps c c1 a i p :
  controls c1 = controls c -> keeps c (Core.put_position c1 a i p).
Proof. intros K. unfold Core.put_position. frame. Qed.
#[local] Hint Resolve put_position_keeps : core_frame.

Lemma put_book_keeps c c1 i b : controls c1 = controls c -> keeps c (Core.put_book c1 i b).
Proof. intros K. unfold Core.put_book. frame. Qed.
#[local] Hint Resolve put_book_keeps : core_frame.

Lemma bump_trades_keeps c c1 : controls c1 = controls c -> keeps c (Engine.bump_trades c1).
Proof. intros K. unfold Engine.bump_trades. frame. Qed.
#[local] Hint Resolve bump_trades_keeps : core_frame.

Lemma bump_outcome_keeps c c1 (rejected : bool) :
  controls c1 = controls c ->
  keeps c (if rejected then Engine.bump_rejected c1 else Engine.bump_accepted c1).
Proof. intros K. unfold Engine.bump_rejected, Engine.bump_accepted. frame. Qed.
#[local] Hint Resolve bump_outcome_keeps : core_frame.

Lemma reserve_keeps c c1 a i side lots price :
  controls c1 = controls c -> keeps c (Engine.reserve c1 a i side lots price).
Proof. intros K. unfold Engine.reserve. frame. Qed.
#[local] Hint Resolve reserve_keeps : core_frame.

Lemma release_reservation_keeps c c1 a i side lots price :
  controls c1 = controls c -> keeps c (Engine.release_reservation c1 a i side lots price).
Proof. intros K. unfold Engine.release_reservation. frame. Qed.
#[local] Hint Resolve release_reservation_keeps : core_frame.

Lemma settle_taker_keeps c c1 a i side quantity :
  controls c1 = controls c -> keeps c (Engine.settle_taker c1 a i side quantity).
Proof. intros K. unfold Engine.settle_taker. frame. Qed.
#[local] Hint Resolve settle_taker_keeps : core_frame.

Lemma settle_fill_keeps c c1 a i fill side :
  controls c1 = controls c -> keeps c (Engine.settle_fill c1 a i fill side).
Proof. intros K. unfold Engine.settle_fill. frame. Qed.
#[local] Hint Resolve settle_fill_keeps : core_frame.

Lemma settle_fills_keeps fills : forall c c1 i a request id side quantity instrument cumulative out,
  controls c1 = controls c ->
  keeps c (Engine.settle_fills c1 i a request id side quantity instrument fills cumulative out).
Proof.
  induction fills as [| fill fills IH]; intros * K; simpl; [frame |].
  frame.
Qed.
#[local] Hint Resolve settle_fills_keeps : core_frame.

Lemma execute_keeps c c1 i a request id side limit quantity out :
  controls c1 = controls c ->
  keeps c (Engine.execute c1 i a request id side limit quantity out).
Proof. intros K. unfold Engine.execute. frame. Qed.
#[local] Hint Resolve execute_keeps : core_frame.

Lemma rest_order_with_keeps c c1 i a client_id side price total filled id :
  controls c1 = controls c ->
  keeps c (Engine.rest_order_with c1 i a client_id side price total filled id).
Proof. intros K. unfold Engine.rest_order_with. frame. Qed.
#[local] Hint Resolve rest_order_with_keeps : core_frame.

Lemma handle_new_keeps c c1 request out :
  controls c1 = controls c -> keeps c (Engine.handle_new c1 request out).
Proof.
  intros K. unfold Engine.handle_new, Engine.rest_order, Engine.with_out, Engine.overflow_report. frame.
Qed.
#[local] Hint Resolve handle_new_keeps : core_frame.

Lemma handle_cancel_keeps c c1 request :
  controls c1 = controls c -> keeps c (Engine.handle_cancel c1 request).
Proof. intros K. unfold Engine.handle_cancel. frame. Qed.
#[local] Hint Resolve handle_cancel_keeps : core_frame.

Lemma replace_reduce_keeps c c1 request checked :
  controls c1 = controls c -> keeps c (Engine.replace_reduce c1 request checked).
Proof. intros K. unfold Engine.replace_reduce, Engine.overflow_report. frame. Qed.
#[local] Hint Resolve replace_reduce_keeps : core_frame.

Lemma replace_reenter_keeps c c1 request checked out :
  controls c1 = controls c -> keeps c (Engine.replace_reenter c1 request checked out).
Proof.
  intros K. unfold Engine.replace_reenter, Engine.with_out, Engine.overflow_report. frame.
Qed.
#[local] Hint Resolve replace_reenter_keeps : core_frame.

Lemma handle_replace_keeps c c1 request out :
  controls c1 = controls c -> keeps c (Engine.handle_replace c1 request out).
Proof. intros K. unfold Engine.handle_replace, Engine.with_out. frame. Qed.
#[local] Hint Resolve handle_replace_keeps : core_frame.

Lemma record_outcome_keeps c c1 a request fingerprint report :
  controls c1 = controls c -> keeps c (Engine.record_outcome c1 a request fingerprint report).
Proof. intros K. unfold Engine.record_outcome. frame. Qed.
#[local] Hint Resolve record_outcome_keeps : core_frame.

Lemma apply_fresh_request_keeps c c1 request fingerprint out :
  controls c1 = controls c -> keeps c (Engine.apply_fresh_request c1 request fingerprint out).
Proof. intros K. unfold Engine.apply_fresh_request, Engine.with_out. frame. Qed.
#[local] Hint Resolve apply_fresh_request_keeps : core_frame.

Lemma apply_request_keeps c c1 request out :
  controls c1 = controls c -> keeps c (Engine.apply_request c1 request out).
Proof. intros K. unfold Engine.apply_request. frame. Qed.

Lemma apply_market_keeps c c1 event out :
  controls c1 = controls c -> keeps c (Engine.apply_market c1 event out).
Proof. intros K. unfold Engine.apply_market, Engine.bump_market. frame. Qed.

(** ** An input *)

Definition is_control (input : EngineInput) : bool :=
  match in_event input with InputEvent.Control _ => true | _ => false end.

Lemma push_state_counted c event out c' out' :
  Ret (Core.push_state c event out) = Ret (c', out') ->
  control_events (tc_metrics c') = control_events (tc_metrics c).
Proof. intros [= E%push_state_controls]. by injection E. Qed.

Lemma put_account_counted c c' i a :
  Core.put_account c i a = Ret c' -> control_events (tc_metrics c') = control_events (tc_metrics c).
Proof. intros E%(put_account_keeps c c i a eq_refl). by injection E. Qed.

Lemma apply_control_counted c c' command out out' :
  Engine.apply_control c command out = Ret (c', out') ->
  control_events (tc_metrics c') = control_events (tc_metrics c) + 1.
Proof.
  unfold Engine.apply_control, Engine.bump_control. intros (c1 & E1 & H)%rbind_inv.
  apply rbind_inv in E1 as (n & ->%u64_plain_inv & [= <-]). simpl in H.
  destruct command as [engaged | account enabled | account limits].
  - destruct (Bool.eqb _ _); [by injection H as <- _ |]. by apply push_state_counted in H.
  - destruct (tc_account_index c !! account); [| by injection H as <- _].
    apply rbind_inv in H as (a & _ & H). destruct (Bool.eqb _ _); [by injection H as <- _ |].
    apply rbind_inv in H as (c2 & E & ->%push_state_counted). by apply put_account_counted in E.
  - destruct (tc_account_index c !! account); [| by injection H as <- _].
    apply rbind_inv in H as (a & _ & H).
    apply rbind_inv in H as (c2 & E & ->%push_state_counted). by apply put_account_counted in E.
Qed.

(** A healthy core counts its control inputs, and only these touch the switch. *)
Lemma apply_controls c c' input out :
  tc_fault c = None -> 0 <= tc_engine_seq c < u32_max -> Engine.apply c input = Ret (c', out) ->
  control_events (tc_metrics c') = control_events (tc_metrics c) + Z.b2z (is_control input)
  /\ (is_control input = false -> controls c' = controls c).
Proof.
  intros Ef Hs. unfold Engine.apply. rewrite Ef, next_small by mach. unfold Engine.bump_inputs, is_control.
  intros (c1 & (n & _ & [= <-])%rbind_inv & ([c2 o] & E & H)%rbind_inv)%rbind_inv.
  unfold Engine.bump_reports in H.
  apply rbind_inv in H as (c3 & (m & _ & [= <-])%rbind_inv & [= <- _]).
  destruct (in_event input) as [event | request | command].
  - eapply apply_market_keeps in E; [| done]. cbv [core_in core_in_pair core_in_core] in E.
    split; [| done]. injection E as _ E. simpl in *. lia.
  - eapply apply_request_keeps in E; [| done]. cbv [core_in core_in_pair core_in_core] in E.
    split; [| done]. injection E as _ E. simpl in *. lia.
  - split; [| done]. by apply apply_control_counted in E.
Qed.

End Frame.
