(* ===== verification/Snapshot.v ===== *)
(** Read-model snapshots ([crates/engine-runtime/src/snapshot.rs]): the bounded
    copy of the engine's state that cold consumers read, and that it holds
    exactly the top of every book. *)

From Stdlib Require Import Strings.String.
From S2P Require Import Prelude Enums Ids Events BTree Slab Book BookData BookInv BookCheck.
From S2P Require Import BookSpec Matching MatchSpec MatchProps BookTheorems Market MarketInv.
From S2P Require Import Account AccountProps Config CoreState Core CoreAcct CoreExec CoreInv.
From S2P Require Import CoreApply CoreRun CoreTheorems Replay ReplayTheorems.

(** * Data *)

Record LevelSnapshot := mkLevelSnapshot {
  ls_side : Side.t;
  ls_price : PriceTicks;
  ls_quantity : QuantityLots;
  ls_order_count : Z
}.

Record OrderSnapshot := mkOrderSnapshot {
  os_order_id : OrderId;
  os_account : AccountId;
  os_client_order_id : ClientOrderId;
  os_side : Side.t;
  os_price : PriceTicks;
  os_total_quantity : QuantityLots;
  os_cumulative_filled : QuantityLots
}.

Record InstrumentSnapshot := mkInstrumentSnapshot {
  in_instrument : InstrumentId;
  in_symbol : string;
  in_feed_state : FeedState.t;
  in_last_source_seq : Z;
  in_best_bid : option PriceTicks;
  in_best_ask : option PriceTicks;
  in_levels : list LevelSnapshot;
  in_orders : list OrderSnapshot
}.

Record PositionSnapshot := mkPositionSnapshot {
  ps_account : AccountId;
  ps_instrument : InstrumentId;
  ps_position_lots : Z;
  ps_open_buy_lots : Z;
  ps_open_sell_lots : Z;
  ps_open_buy_notional : Z;
  ps_open_sell_notional : Z
}.

Record EngineSnapshot := mkEngineSnapshot {
  es_run_id : Z;
  es_as_of_engine_seq : EngineSeq;
  es_engine_time_ns : Z;
  es_global_kill : bool;
  es_metrics : EngineMetrics;
  es_instruments : list InstrumentSnapshot;
  es_positions : list PositionSnapshot
}.

Definition ORDERS_PER_LEVEL : Z := 8.

(** * Capture *)

Section Capture.
Context {S : Type} `{SL : Slab OrderNode S}.

Definition level_snapshot (side : Side.t) (price : PriceTicks) (level : PriceLevel)
  : LevelSnapshot :=
  mkLevelSnapshot side price (total_remaining level) (order_count level).

Definition order_snapshot (order : OrderNode) : OrderSnapshot :=
  mkOrderSnapshot (node_order_id order) (node_account order) (node_client_order_id order)
    (node_side order) (node_price order) (node_total_quantity order)
    (node_cumulative_filled order).

(** The loop over [top_levels]: a level is listed even when there is no room
    left for its orders. *)
Fixpoint capture_levels (book : OrderBook S) (side : Side.t) (max_orders : nat)
    (top : list (PriceTicks * PriceLevel)) (levels : list LevelSnapshot)
    (orders : list OrderSnapshot) : res (list LevelSnapshot * list OrderSnapshot) :=
  match top with
  | [] => Ret (levels, orders)
  | (price, level) :: top =>
      let levels := levels ++ [level_snapshot side price level] in
      let room := (max_orders - length orders)%nat in
      if (room =? 0)%nat then capture_levels book side max_orders top levels orders
      else
        let! here := Book.level_orders_upto book side price room in
        capture_levels book side max_orders top levels (orders ++ (order_snapshot <$> here))
  end.

(** [depth.saturating_mul(ORDERS_PER_LEVEL)]. *)
Definition max_orders (depth : nat) : nat :=
  Z.to_nat (Z.min u64_max (Z.of_nat depth * ORDERS_PER_LEVEL)).

(** The body of the loop over the instruments; [Vec::with_capacity(depth * 2)]
    is a plain product. *)
Definition capture_instrument (depth : nat) (r : InstrumentRuntime S) : res InstrumentSnapshot :=
  let! _ := u64_plain (Z.of_nat depth * 2) in
  let book := ir_book r in
  let! (levels, orders) :=
    capture_levels book Side.Buy (max_orders depth) (Book.top_levels book Side.Buy depth) [] [] in
  let! (levels, orders) :=
    capture_levels book Side.Sell (max_orders depth) (Book.top_levels book Side.Sell depth)
      levels orders in
  Ret (mkInstrumentSnapshot (ic_id (ir_config r)) (ic_symbol (ir_config r))
         (mv_state (ir_market r)) (mv_last_source_seq (ir_market r))
         (Market.best_bid (ir_market r)) (Market.best_ask (ir_market r)) levels orders).

(** One position of an account; its instrument is found by position. *)
Definition capture_position (c : TradingCore S) (account : AccountId)
    (p : nat * InstrumentPosition) : res PositionSnapshot :=
  let '(i, position) := p in
  let! r := index (tc_instruments c) i in
  Ret (mkPositionSnapshot account (ic_id (ir_config r)) (position_lots position)
         (open_buy_lots position) (open_sell_lots position) (open_buy_notional position)
         (open_sell_notional position)).

Definition capture_account (c : TradingCore S) (a : AccountState) : res (list PositionSnapshot) :=
  collect (capture_position c (ac_id a))
    (zip (seq 0 (length (ac_positions a))) (ac_positions a)).

Definition capture (c : TradingCore S) (depth : nat) : res EngineSnapshot :=
  let! instruments := collect (capture_instrument depth) (tc_instruments c) in
  let! positions := collect (capture_account c) (tc_accounts c) in
  Ret (mkEngineSnapshot (ec_run_id (tc_config c)) (tc_engine_seq c) (tc_engine_time_ns c)
         (tc_global_kill c) (tc_metrics c) instruments (mjoin positions)).

(** * What a snapshot holds *)

Context `{!SlabLaws SL}.

(** The queues of the levels [ls], best level first, each in time order. *)
Definition queue_nodes (b : OrderBook S) (q : queues) (side : Side.t)
    (ls : list (PriceTicks * PriceLevel)) : list OrderNode :=
  mjoin ((fun l => nodes b (q side l.1)) <$> ls).

Lemma capture_levels_spec b q side m ls lv pre :
  binv b q ->
  capture_levels b side m ls lv (order_snapshot <$> take m pre)
  = Ret (lv ++ ((fun l => level_snapshot side l.1 l.2) <$> ls),
         order_snapshot <$> take m (pre ++ queue_nodes b q side ls)).
Proof.
  intros B. revert lv pre. induction ls as [| [p l] ls IH]; intros lv pre; simpl.
  - by rewrite !app_nil_r.
  - rewrite length_fmap. destruct (Nat.eqb_spec (m - length (take m pre)) 0) as [E | E].
    + rewrite length_take in E. rewrite IH, <- app_assoc. simpl. do 3 f_equal.
      by rewrite !take_app_le by lia.
    + rewrite (level_orders_upto_spec _ _ _ _ _ B). cbn [rbind].
      rewrite <- fmap_app. rewrite length_take in E |- *.
      replace (take m pre ++ take (m - m `min` length pre) (nodes b (q side p)))
        with (take m (pre ++ nodes b (q side p))).
      2:{ rewrite firstn_app. do 2 f_equal. lia. }
      rewrite IH, <- !app_assoc. done.
Qed.

(** The orders of the best [depth] levels of both sides, bids first. *)
Definition top_nodes (b : OrderBook S) (q : queues) (depth : nat) : list OrderNode :=
  queue_nodes b q Side.Buy (Book.top_levels b Side.Buy depth)
  ++ queue_nodes b q Side.Sell (Book.top_levels b Side.Sell depth).

Definition top_level_snapshots (b : OrderBook S) (depth : nat) : list LevelSnapshot :=
  ((fun l => level_snapshot Side.Buy l.1 l.2) <$> Book.top_levels b Side.Buy depth)
  ++ ((fun l => level_snapshot Side.Sell l.1 l.2) <$> Book.top_levels b Side.Sell depth).

Lemma capture_instrument_spec depth (r : InstrumentRuntime S) q :
  binv (ir_book r) q -> Z.of_nat depth * 2 <= u64_max ->
  capture_instrument depth r
  = Ret (mkInstrumentSnapshot (ic_id (ir_config r)) (ic_symbol (ir_config r))
           (mv_state (ir_market r)) (mv_last_source_seq (ir_market r))
           (Market.best_bid (ir_market r)) (Market.best_ask (ir_market r))
           (top_level_snapshots (ir_book r) depth)
           (order_snapshot <$> take (max_orders depth) (top_nodes (ir_book r) q depth))).
Proof.
  intros B Hd. unfold capture_instrument. rewrite u64_plain_in by mach. cbn [rbind].
  pose proof (capture_levels_spec (ir_book r) q Side.Buy (max_orders depth)
                (Book.top_levels (ir_book r) Side.Buy depth) [] [] B) as E.
  rewrite take_nil in E. cbn [fmap list_fmap app] in E. rewrite E. cbn [rbind].
  rewrite (capture_levels_spec _ q) by done. done.
Qed.

(** The same orders, from the unbounded view of the book that hashing uses. *)
Lemma snapshot_levels_nodes b q side ls :
  binv b q ->
  Book.snapshot_levels b side ls = Ret ((fun l => (side, l.1, nodes b (q side l.1))) <$> ls).
Proof.
  intros B. induction ls as [| [p l] ls IH]; simpl; [done |].
  by rewrite (level_orders_spec _ _ _ _ B), IH.
Qed.

Lemma collect_all {A B} (f : A -> res B) (g : A -> B) l :
  (forall x, x ∈ l -> f x = Ret (g x)) -> collect f l = Ret (g <$> l).
Proof.
  induction l as [| x l IH]; intros H; simpl; [done |]. rewrite H by set_solver. cbn [rbind].
  rewrite IH by set_solver. done.
Qed.

Definition position_snapshot (account : AccountId) (r : InstrumentRuntime S)
    (p : InstrumentPosition) : PositionSnapshot :=
  mkPositionSnapshot account (ic_id (ir_config r)) (position_lots p) (open_buy_lots p)
    (open_sell_lots p) (open_buy_notional p) (open_sell_notional p).

Lemma capture_positions_spec c id (ps : list InstrumentPosition) off :
  (off + length ps <= length (tc_instruments c))%nat ->
  collect (capture_position c id) (zip (seq off (length ps)) ps)
  = Ret (zip_with (position_snapshot id) (drop off (tc_instruments c)) ps).
Proof.
  revert off. induction ps as [| p ps IH]; intros off Hl; simpl in *; [by rewrite zip_with_nil_r |].
  destruct (lookup_lt_is_Some_2 (tc_instruments c) off) as [r Hr]; [lia |].
  unfold index. rewrite Hr. cbn [unwrap rbind]. rewrite IH by lia. cbn [rbind].
  by rewrite (drop_S _ _ _ Hr).
Qed.

(** What the snapshot of one instrument says about it: the best [depth] levels
    of either side, best first, and their orders in time order, cut at
    [8 * depth] orders. *)
Record instrument_exact (depth : nat) (r : InstrumentRuntime S) (i : InstrumentSnapshot) : Prop := {
  ie_config : in_instrument i = ic_id (ir_config r) /\ in_symbol i = ic_symbol (ir_config r);
  ie_feed : in_feed_state i = mv_state (ir_market r)
            /\ in_last_source_seq i = mv_last_source_seq (ir_market r)
            /\ in_best_bid i = Market.best_bid (ir_market r)
            /\ in_best_ask i = Market.best_ask (ir_market r);
  ie_levels : in_levels i = top_level_snapshots (ir_book r) depth;
  ie_orders : exists buys sells,
    Book.snapshot_levels (ir_book r) Side.Buy (Book.top_levels (ir_book r) Side.Buy depth) = Ret buys
    /\ Book.snapshot_levels (ir_book r) Side.Sell (Book.top_levels (ir_book r) Side.Sell depth)
       = Ret sells
    /\ in_orders i = order_snapshot <$> take (max_orders depth) (mjoin (snd <$> (buys ++ sells)));
  ie_bounded : (length (in_levels i) <= 2 * depth)%nat /\ (length (in_orders i) <= 8 * depth)%nat
}.

Lemma max_orders_le depth : (max_orders depth <= 8 * depth)%nat.
Proof. unfold max_orders, ORDERS_PER_LEVEL. lia. Qed.

Lemma top_levels_length (b : OrderBook S) side depth :
  (length (Book.top_levels b side depth) <= depth)%nat.
Proof. destruct side; simpl; rewrite length_take; lia. Qed.

Lemma capture_instrument_exact depth (r : InstrumentRuntime S) :
  book_wf (ir_book r) -> Z.of_nat depth * 2 <= u64_max ->
  exists i, capture_instrument depth r = Ret i /\ instrument_exact depth r i.
Proof.
  intros [[A (q & B & _)] _] Hd. eexists. split; [by apply capture_instrument_spec |].
  constructor; simpl; try done.
  - do 2 eexists. split; [by apply snapshot_levels_nodes |].
    split; [by apply snapshot_levels_nodes |].
    unfold top_nodes, queue_nodes. rewrite fmap_app, join_app, <- !list_fmap_compose. done.
  - unfold top_level_snapshots. rewrite length_app, !length_fmap, length_take.
    pose proof (top_levels_length (ir_book r) Side.Buy depth).
    pose proof (top_levels_length (ir_book r) Side.Sell depth).
    pose proof (max_orders_le depth). lia.
Qed.

Lemma collect_related {A B} (f : A -> res B) (P : A -> B -> Prop) l :
  (forall x, x ∈ l -> exists y, f x = Ret y /\ P x y) ->
  exists ys, collect f l = Ret ys /\ Forall2 P l ys.
Proof.
  induction l as [| x l IH]; intros H; simpl; [by eexists |].
  destruct (H x) as (y & -> & Hy); [set_solver |]. cbn [rbind].
  destruct IH as (ys & -> & Hys); [set_solver |]. eexists. split; [done |]. by constructor.
Qed.

Lemma capture_ok (c : TradingCore S) depth :
  core_inv c -> Z.of_nat depth * 2 <= u64_max ->
  exists snap, capture c depth = Ret snap
    /\ es_run_id snap = ec_run_id (tc_config c) /\ es_as_of_engine_seq snap = tc_engine_seq c
    /\ es_engine_time_ns snap = tc_engine_time_ns c /\ es_global_kill snap = tc_global_kill c
    /\ es_metrics snap = tc_metrics c
    /\ Forall2 (instrument_exact depth) (tc_instruments c) (es_instruments snap)
    /\ es_positions snap
       = mjoin ((fun a => zip_with (position_snapshot (ac_id a)) (tc_instruments c) (ac_positions a))
                  <$> tc_accounts c).
Proof.
  intros I Hd. pose proof (cv_ok _ I) as O. unfold capture.
  destruct (collect_related (capture_instrument depth) (instrument_exact depth) (tc_instruments c))
    as (insts & -> & His).
  { intros r [k Hk]%list_elem_of_lookup. apply capture_instrument_exact; [| done].
    apply (ok_insts _ _ O _ _ Hk). }
  cbn [rbind].
  rewrite (collect_all (capture_account c)
             (fun a => zip_with (position_snapshot (ac_id a)) (tc_instruments c) (ac_positions a))).
  2:{ intros a [j Hj]%list_elem_of_lookup. unfold capture_account.
      rewrite capture_positions_spec; [by rewrite drop_0 |].
      by rewrite (ti_cover _ _ (ok_tinv _ _ O) _ _ Hj). }
  cbn [rbind]. eexists. split; [done |]. split_and!; done.
Qed.

(** C31: Snapshots are exact.  After any run of the engine a capture returns,
    and is the state it was taken from: the counters and the switch, for every
    instrument in order its market view and the exact top of its book within
    the bounds of the capture, and for every account in order its position on
    every instrument, under that instrument's identifier. *)
Theorem capture_exact cfg ins depth :
  config_wf cfg -> Z.of_nat (length ins) < 2 ^ 32 -> Forall input_wf ins ->
  Z.of_nat depth * 2 <= u64_max ->
  exists (c : TradingCore S) out snap, engine_run (Core.new cfg) ins = Ret (c, out)
    /\ capture c depth = Ret snap
    /\ es_run_id snap = ec_run_id (tc_config c)
    /\ es_as_of_engine_seq snap = Z.of_nat (length ins)
    /\ es_engine_time_ns snap = tc_engine_time_ns c /\ es_global_kill snap = tc_global_kill c
    /\ es_metrics snap = tc_metrics c
    /\ Forall2 (instrument_exact depth) (tc_instruments c) (es_instruments snap)
    /\ es_positions snap
       = mjoin ((fun a => zip_with (position_snapshot (ac_id a)) (tc_instruments c) (ac_positions a))
                  <$> tc_accounts c).
Proof.
  intros Hcfg Hn Hwf Hd.
  destruct (engine_run_ok (S := S) (Core.new cfg) ins (new_core_inv cfg Hcfg))
    as (c & out & E & I & Hs & _); [simpl; lia | done |].
  destruct (capture_ok c depth I Hd) as (snap & Ec & R1 & R2 & R).
  exists c, out, snap. split_and!; try apply R; try done. by rewrite R2, Hs.
Qed.

End Capture.

(** * Concrete inputs *)

Lemma capture_exact_witness :
  exists (c : map_core) out snap, engine_run (Core.new sample_config) sample_inputs = Ret (c, out)
    /\ capture c 4 = Ret snap
    /\ es_run_id snap = ec_run_id (tc_config c)
    /\ es_as_of_engine_seq snap = 6
    /\ es_engine_time_ns snap = tc_engine_time_ns c /\ es_global_kill snap = tc_global_kill c
    /\ es_metrics snap = tc_metrics c
    /\ Forall2 (instrument_exact 4) (tc_instruments c) (es_instruments snap)
    /\ es_positions snap
       = mjoin ((fun a => zip_with (position_snapshot (ac_id a)) (tc_instruments c) (ac_positions a))
                  <$> tc_accounts c).
Proof.
  apply (capture_exact (S := gmap nat OrderNode) sample_config sample_inputs 4);
    [apply sample_config_wf | done | apply sample_inputs_wf | done].
Defined.
