(* ===== verification/Pipeline.v ===== *)
(** The pipeline ([crates/engine-runtime/src/pipeline.rs]): a feed thread, an
    engine thread and an output thread, connected by bounded queues and watched
    by a control surface.

    Every thread is a machine whose program counter says where its closure
    stands; one step does one access to memory that another thread can see, and
    the local work up to the next one.  A schedule is the list of who moves: one
    of the threads, or a holder of the [ControlHandle].  Accesses are taken in
    one global order, as the acquire and release accesses of the source and the
    queues give; time ([elapsed_ns], sleeping) is not modelled. *)

From Stdlib Require Import Strings.String.
From S2P Require Import Prelude Enums Ids Events BTree Slab Book Matching Market Account Config.
From S2P Require Import CoreState Risk Core Read Canonical Codec Wire Journal Queue QueueProps Replay Snapshot.

(** * What the pipeline runs on

    The code of other packages, and the file system. *)

Class Platform := {
  Store : Type;
  store_slab :: Slab OrderNode Store;
  Hash : Type;
  hash_blake3 :: Blake3 Hash;
  InRing : Type;
  in_ring :: Ring EngineInput InRing;
  OutRing : Type;
  out_ring :: Ring OutputEvent.t OutRing;
  Commands : Type;
  commands_queue :: ArrayQueue ControlCommand.t Commands;
  Snapshots : Type;
  snapshots_queue :: ArrayQueue EngineSnapshot Snapshots;
  FileSink : Type;
  IoError : Type;
  file_sink :: Journal.Sink FileSink IoError;
  Path : Type;
  crc32 : bytes -> Z;
  open_file : Path -> Result FileSink IoError
}.

Class PlatformLaws (P : Platform) := {
  pl_slab :: SlabLaws store_slab;
  pl_hash :: Blake3Laws hash_blake3;
  pl_in_ring :: RingLaws in_ring;
  pl_out_ring :: RingLaws out_ring;
  pl_commands :: ArrayQueueLaws commands_queue;
  pl_snapshots :: ArrayQueueLaws snapshots_queue;
  pl_crc32 : forall bs, in_u32 (crc32 bs);
  (** [File::create] truncates. *)
  pl_open_file : forall path sink, open_file path = Ok sink -> Journal.accepted sink = []
}.

Section Pipeline.
Context {P : Platform}.

Abbreviation Writer := (Journal.JournalWriter (W := FileSink)) (only parsing).
Abbreviation WriteError := (Journal.JournalError IoError) (only parsing).
Abbreviation Core := (TradingCore Store) (only parsing).
Abbreviation InChannel := (Channel InRing) (only parsing).
Abbreviation OutChannel := (Channel OutRing) (only parsing).

(** * Configuration *)

Inductive JournalSync :=
| Buffered
| GroupCommit (records : Z)
| Durable.

Record PipelineConfig := mkPipelineConfig {
  pc_input_capacity : nat;
  pc_output_capacity : nat;
  pc_telemetry_capacity : nat;
  pc_wait : WaitStrategy;
  pc_journal_path : option Path;
  pc_journal_sync : JournalSync;
  pc_capture_inputs : bool;
  pc_checkpoint_interval : Z;
  pc_snapshot_interval : Z;
  pc_snapshot_depth : nat;
  pc_paced : bool
}.

(** [PipelineConfig::default]. *)
Definition pipeline_default : PipelineConfig :=
  mkPipelineConfig (Z.to_nat 8192) (Z.to_nat 8192) 64 wait_default None Buffered false 0 0 16 false.

Inductive FeedSource :=
| Memory (inputs : list EngineInput)
| Bytes (bs : bytes).

(** * The control surface *)

Record ControlHandle := mkControlHandle {
  ctl_kill : bool;
  ctl_commands : Commands;
  ctl_snapshots : Snapshots;
  ctl_telemetry_dropped : Z;
  ctl_shutdown : bool
}.

Definition control_new (command_capacity snapshot_capacity : nat) : res ControlHandle :=
  let! commands := aq_new (Nat.max command_capacity 1) in
  let! snapshots := aq_new (Nat.max snapshot_capacity 1) in
  Ret (mkControlHandle false commands snapshots 0 false).

(** [ControlHandle::default]. *)
Definition control_default : res ControlHandle := control_new 64 4.

Definition set_kill (h : ControlHandle) (engaged : bool) : ControlHandle :=
  mkControlHandle engaged (ctl_commands h) (ctl_snapshots h) (ctl_telemetry_dropped h)
    (ctl_shutdown h).

Definition engage_kill (h : ControlHandle) : ControlHandle := set_kill h true.
Definition release_kill (h : ControlHandle) : ControlHandle := set_kill h false.
Definition kill_engaged (h : ControlHandle) : bool := ctl_kill h.

Definition set_commands (h : ControlHandle) (q : Commands) : ControlHandle :=
  mkControlHandle (ctl_kill h) q (ctl_snapshots h) (ctl_telemetry_dropped h) (ctl_shutdown h).

Definition set_snapshots (h : ControlHandle) (q : Snapshots) : ControlHandle :=
  mkControlHandle (ctl_kill h) (ctl_commands h) q (ctl_telemetry_dropped h) (ctl_shutdown h).

(** [submit]; [false] when the queue is full. *)
Definition submit (h : ControlHandle) (command : ControlCommand.t) : ControlHandle * bool :=
  let '(q, ok) := aq_push (ctl_commands h) command in (set_commands h q, ok).

Definition take_snapshot (h : ControlHandle) : ControlHandle * option EngineSnapshot :=
  let '(q, snapshot) := aq_pop (ctl_snapshots h) in (set_snapshots h q, snapshot).

(** [telemetry_dropped.fetch_add(1)] wraps. *)
Definition count_dropped (h : ControlHandle) : ControlHandle :=
  mkControlHandle (ctl_kill h) (ctl_commands h) (ctl_snapshots h)
    (u64_wrap (ctl_telemetry_dropped h + 1)) (ctl_shutdown h).

Definition request_shutdown (h : ControlHandle) : ControlHandle :=
  mkControlHandle (ctl_kill h) (ctl_commands h) (ctl_snapshots h) (ctl_telemetry_dropped h) true.

Definition shutdown_requested (h : ControlHandle) : bool := ctl_shutdown h.

(** * Results *)

Record QueueReport := mkQueueReport {
  qr_capacity : nat;
  qr_pushed : Z;
  qr_popped : Z;
  qr_full_events : Z;
  qr_high_water : Z
}.

Definition report (stats : QueueStats) (capacity : nat) : QueueReport :=
  mkQueueReport capacity (qs_pushed stats) (qs_popped stats) (qs_full_events stats)
    (qs_high_water stats).

(** Without the elapsed time. *)
Record RunSummary := mkRunSummary {
  rs_inputs : Z;
  rs_feed_inputs : Z;
  rs_captured_inputs : list EngineInput;
  rs_outputs : Z;
  rs_trades : Z;
  rs_journal_records : Z;
  rs_input_digest : bytes;
  rs_output_digest : bytes;
  rs_state_digest : bytes;
  rs_input_queue : QueueReport;
  rs_output_queue : QueueReport;
  rs_telemetry_dropped : Z;
  rs_decode_errors : Z
}.

Inductive RuntimeError :=
| JournalFailed (error : WriteError)
| FeedFailed (message : string)
| OutputUnavailable (inputs_applied : Z).

Record EngineOutcome := mkEngineOutcome {
  eo_state_digest : bytes;
  eo_trades : Z;
  eo_inputs_applied : Z;
  eo_input_digest : bytes;
  eo_captured_inputs : list EngineInput;
  eo_output_lost : bool
}.

Record OutputOutcome := mkOutputOutcome {
  oo_outputs : Z;
  oo_digest : bytes;
  oo_journal_records : Z;
  oo_journal_error : option WriteError
}.

(** * Shared memory *)

Record Shared := mkShared {
  sh_input : InChannel;
  sh_output : OutChannel;
  sh_output_failed : bool;
  sh_control : ControlHandle
}.

Definition set_input (s : Shared) (c : InChannel) : Shared :=
  mkShared c (sh_output s) (sh_output_failed s) (sh_control s).
Definition set_output (s : Shared) (c : OutChannel) : Shared :=
  mkShared (sh_input s) c (sh_output_failed s) (sh_control s).
Definition set_control (s : Shared) (h : ControlHandle) : Shared :=
  mkShared (sh_input s) (sh_output s) (sh_output_failed s) h.
Definition fail_output (s : Shared) : Shared :=
  mkShared (sh_input s) (sh_output s) true (sh_control s).

(** * The feed thread *)

(** What is left to read. *)
Inductive FeedCursor :=
| AtInputs (rest : list EngineInput) (previous_recv_ns : Z)
| AtBytes (bs : bytes) (offset : nat).

Inductive FeedPc :=
| FeedStart (source : FeedSource)
| FeedNext
| FeedSend (s : SendPc EngineInput)
| FeedDrop
| FeedDone.

Record FeedThread := mkFeedThread {
  fd_pc : FeedPc;
  fd_cursor : FeedCursor;
  fd_produced : Z;
  fd_decode_errors : Z
}.

Definition fd_at (t : FeedThread) (pc : FeedPc) : FeedThread :=
  mkFeedThread pc (fd_cursor t) (fd_produced t) (fd_decode_errors t).

(** Before the loop: the first arrival time, or the file header. *)
Definition feed_start (source : FeedSource) (t : FeedThread) : res FeedThread :=
  match source with
  | Memory inputs =>
      Ret (mkFeedThread FeedNext (AtInputs inputs (from_option in_recv_time_ns 0 (head inputs)))
             (fd_produced t) (fd_decode_errors t))
  | Bytes bs =>
      let! header := decode_header crc32 bs in
      match header with
      | Ok (_, consumed) =>
          Ret (mkFeedThread FeedNext (AtBytes bs consumed) (fd_produced t) (fd_decode_errors t))
      | Err _ =>
          let! n := u64_plain (fd_decode_errors t + 1) in
          Ret (mkFeedThread FeedNext (AtBytes bs (length bs)) (fd_produced t) n)
      end
  end.

(** [delta] of a paced feed and the new [previous_recv_ns]; an unpaced feed
    touches neither. *)
Definition pace (paced : bool) (input : EngineInput) (previous_recv_ns : Z) : Z * Z :=
  if paced
  then (u64_saturating_sub (in_recv_time_ns input) previous_recv_ns, in_recv_time_ns input)
  else (0, previous_recv_ns).

(** The head of either loop up to the call of [send]; the flag is read only
    when there is something left. *)
Definition feed_next (paced shutdown : bool) (channel : InChannel) (t : FeedThread)
  : res FeedThread :=
  match fd_cursor t with
  | AtInputs [] _ => Ret (fd_at t FeedDrop)
  | AtInputs (input :: rest) previous_recv_ns =>
      if shutdown then Ret (fd_at t FeedDrop)
      else
        let '(_, previous_recv_ns) := pace paced input previous_recv_ns in
        let! n := u64_plain (fd_produced t + 1) in
        Ret (mkFeedThread (FeedSend (send channel input)) (AtInputs rest previous_recv_ns) n
               (fd_decode_errors t))
  | AtBytes bs offset =>
      if negb (offset <? length bs)%nat then Ret (fd_at t FeedDrop)
      else if shutdown then Ret (fd_at t FeedDrop)
      else
        let! rest := slice bs offset (length bs) in
        let! decoded := decode_frame crc32 rest in
        match decoded with
        | Ok (frame, consumed) =>
            let! n := u64_plain (fd_produced t + 1) in
            let! input := from_frame frame n in
            Ret (mkFeedThread (FeedSend (send channel input)) (AtBytes bs (offset + consumed)) n
                   (fd_decode_errors t))
        | Err _ =>
            let! n := u64_plain (fd_decode_errors t + 1) in
            Ret (mkFeedThread FeedDrop (fd_cursor t) (fd_produced t) n)
        end
  end.

Definition feed_step (cfg : PipelineConfig) (s : Shared) (t : FeedThread)
  : res (Shared * FeedThread) :=
  match fd_pc t with
  | FeedStart source =>
      let! t := feed_start source t in
      Ret (s, t)
  | FeedNext =>
      let! t := feed_next (pc_paced cfg) (shutdown_requested (sh_control s)) (sh_input s) t in
      Ret (s, t)
  | FeedSend pc =>
      let! (c, r) := send_step (sh_input s) pc in
      Ret (set_input s c, fd_at t (match r with
                                   | inl pc => FeedSend pc
                                   | inr true => FeedNext
                                   | inr false => FeedDrop
                                   end))
  | FeedDrop => Ret (set_input s (close_sender (sh_input s)), fd_at t FeedDone)
  | FeedDone => Ret (s, t)
  end.

(** * The engine thread *)

(** [struct Engine]. *)
Record Sequencer := mkSequencer {
  sq_core : Core;
  sq_recorder : DigestRecorder Hash;
  sq_captured : option (list EngineInput);
  sq_batch : list OutputEvent.t
}.

(** [Engine::new]. *)
Definition sequencer_new (config : EngineConfig) (capture_inputs : bool) : Sequencer :=
  mkSequencer (CoreState.Core.new config) Recorder.new (if capture_inputs then Some [] else None) [].

(** [Engine::apply] up to the sends of [batch]. *)
Definition sequence (q : Sequencer) (event : InputEvent.t) (recv_time_ns : option Z)
  : res Sequencer :=
  let! n := u64_plain (dr_inputs (sq_recorder q) + 1) in
  let input := mkEngineInput n (default (tc_engine_time_ns (sq_core q)) recv_time_ns) event in
  let! recorder := Recorder.record_input (sq_recorder q) input in
  let captured := (fun l => l ++ [input]) <$> sq_captured q in
  let! (core, batch) := Engine.apply (sq_core q) input in
  Ret (mkSequencer core recorder captured batch).

(** Where the loop goes on once a batch is sent. *)
Inductive AfterApply :=
| AfterControl (pending : EngineInput)
| AfterInput.

Inductive EnginePc :=
| EnReceive (r : RecvPc EngineInput)
| EnCheckFailed (pending : EngineInput)
| EnCheckKill (pending : EngineInput)
| EnCommands (pending : EngineInput)
| EnSend (after : AfterApply) (s : SendPc OutputEvent.t) (rest : list OutputEvent.t)
| EnPublish (last : bool)
| EnCountDrop (last : bool)
| EnShutdown
| EnFinish
| EnDropInput (outcome : EngineOutcome)
| EnDropOutput (outcome : EngineOutcome)
| EnDone (outcome : EngineOutcome).

Record EngineThread := mkEngineThread {
  et_pc : EnginePc;
  et_sequencer : Sequencer;
  et_output_lost : bool
}.

Definition et_at (t : EngineThread) (pc : EnginePc) : EngineThread :=
  mkEngineThread pc (et_sequencer t) (et_output_lost t).

(** After the loop. *)
Definition after_loop (cfg : PipelineConfig) : EnginePc :=
  if 0 <? pc_snapshot_interval cfg then EnPublish true else EnFinish.

(** [output_lost = true; break]. *)
Definition lose_output (t : EngineThread) : EngineThread :=
  mkEngineThread EnShutdown (et_sequencer t) true.

(** [Engine::apply] has returned [true]. *)
Definition resume (cfg : PipelineConfig) (s : Shared) (t : EngineThread) (after : AfterApply)
  : res EngineThread :=
  match after with
  | AfterControl pending => Ret (et_at t (EnCommands pending))
  | AfterInput =>
      let engine_seq := tc_engine_seq (sq_core (et_sequencer t)) in
      let! due :=
        if 0 <? pc_snapshot_interval cfg then
          let! k := u64_rem engine_seq (pc_snapshot_interval cfg) in Ret (k =? 0)
        else Ret false in
      Ret (et_at t (if due then EnPublish false else EnReceive (recv (sh_input s))))
  end.

(** The sends of [batch], in order. *)
Definition send_batch (cfg : PipelineConfig) (s : Shared) (t : EngineThread) (after : AfterApply)
    (batch : list OutputEvent.t) : res EngineThread :=
  match batch with
  | [] => resume cfg s t after
  | event :: rest => Ret (et_at t (EnSend after (send (sh_output s) event) rest))
  end.

(** [engine.apply(&mut output_tx, event, recv_time_ns)] is called. *)
Definition apply_event (cfg : PipelineConfig) (s : Shared) (t : EngineThread) (event : InputEvent.t)
    (recv_time_ns : option Z) (after : AfterApply) : res EngineThread :=
  let! q := sequence (et_sequencer t) event recv_time_ns in
  send_batch cfg s (mkEngineThread (et_pc t) q (et_output_lost t)) after (sq_batch q).

(** Once a snapshot has been published. *)
Definition published (s : Shared) (t : EngineThread) (last : bool) : EngineThread :=
  et_at t (if last then EnFinish else EnReceive (recv (sh_input s))).

Definition outcome (t : EngineThread) : res EngineOutcome :=
  let q := et_sequencer t in
  let! digest := state_digest (sq_core q) in
  Ret (mkEngineOutcome digest (trades (tc_metrics (sq_core q))) (dr_inputs (sq_recorder q))
         (Recorder.input_digest (sq_recorder q)) (default [] (sq_captured q)) (et_output_lost t)).

Definition engine_step (cfg : PipelineConfig) (s : Shared) (t : EngineThread)
  : res (Shared * EngineThread) :=
  match et_pc t with
  | EnReceive r =>
      let! (c, r) := recv_step (sh_input s) r in
      Ret (set_input s c, et_at t (match r with
                                   | inl r => EnReceive r
                                   | inr (Some pending) => EnCheckFailed pending
                                   | inr None => after_loop cfg
                                   end))
  | EnCheckFailed pending =>
      Ret (s, if sh_output_failed s then lose_output t else et_at t (EnCheckKill pending))
  | EnCheckKill pending =>
      let requested_kill := kill_engaged (sh_control s) in
      if Bool.eqb requested_kill (tc_global_kill (sq_core (et_sequencer t)))
      then Ret (s, et_at t (EnCommands pending))
      else
        let! t := apply_event cfg s t
                    (InputEvent.Control (ControlCommand.SetGlobalKill requested_kill)) None
                    (AfterControl pending) in
        Ret (s, t)
  | EnCommands pending =>
      let '(q, command) := aq_pop (ctl_commands (sh_control s)) in
      let s := set_control s (set_commands (sh_control s) q) in
      let! t :=
        match command with
        | Some command => apply_event cfg s t (InputEvent.Control command) None (AfterControl pending)
        | None => apply_event cfg s t (in_event pending) (Some (in_recv_time_ns pending)) AfterInput
        end in
      Ret (s, t)
  | EnSend after pc rest =>
      let! (c, r) := send_step (sh_output s) pc in
      let s := set_output s c in
      let! t :=
        match r with
        | inl pc => Ret (et_at t (EnSend after pc rest))
        | inr true => send_batch cfg s t after rest
        | inr false => Ret (lose_output t)
        end in
      Ret (s, t)
  | EnPublish last =>
      let! snapshot := capture (sq_core (et_sequencer t)) (pc_snapshot_depth cfg) in
      let '(q, dropped) := aq_force_push (ctl_snapshots (sh_control s)) snapshot in
      let s := set_control s (set_snapshots (sh_control s) q) in
      Ret (s, match dropped with
              | Some _ => et_at t (EnCountDrop last)
              | None => published s t last
              end)
  | EnCountDrop last =>
      let s := set_control s (count_dropped (sh_control s)) in
      Ret (s, published s t last)
  | EnShutdown => Ret (set_control s (request_shutdown (sh_control s)), et_at t (after_loop cfg))
  | EnFinish =>
      let! o := outcome t in
      Ret (s, et_at t (EnDropInput o))
  | EnDropInput o => Ret (set_input s (close_receiver (sh_input s)), et_at t (EnDropOutput o))
  | EnDropOutput o => Ret (set_output s (close_sender (sh_output s)), et_at t (EnDone o))
  | EnDone _ => Ret (s, t)
  end.

(** * The output thread *)

Inductive OutputPc :=
| OtOpen (journal : option Writer)
| OtOpenFailed (error : WriteError)
| OtTry (t : TryPc OutputEvent.t)
| OtReceive (r : RecvPc OutputEvent.t)
| OtFailed
| OtFinish
| OtDrop (outcome : OutputOutcome)
| OtDone (outcome : OutputOutcome).

Record OutputThread := mkOutputThread {
  ot_pc : OutputPc;
  ot_writer : option Writer;
  ot_recorder : DigestRecorder Hash;
  ot_journal_error : option WriteError;
  ot_since_flush : Z
}.

Definition ot_at (t : OutputThread) (pc : OutputPc) : OutputThread :=
  mkOutputThread pc (ot_writer t) (ot_recorder t) (ot_journal_error t) (ot_since_flush t).

(** The writer was given, or is opened from the configured path. *)
Definition open_journal (cfg : PipelineConfig) (run_id : Z) (journal : option Writer)
    (t : OutputThread) : OutputThread :=
  let ready w := mkOutputThread (OtTry TryPop) w (ot_recorder t) (ot_journal_error t)
                   (ot_since_flush t) in
  match journal, pc_journal_path cfg with
  | Some writer, _ => ready (Some writer)
  | None, Some path =>
      match Journal.create open_file path run_id with
      | Ok writer => ready (Some writer)
      | Err error => ot_at t (OtOpenFailed error)
      end
  | None, None => ready None
  end.

(** [journal_error = Some(error); break]. *)
Definition stop_output (t : OutputThread) (writer : Writer) (error : WriteError) : OutputThread :=
  mkOutputThread OtFailed (Some writer) (ot_recorder t) (Some error) (ot_since_flush t).

(** The queue drained: a partial group is flushed, then [recv] is called. *)
Definition drained (cfg : PipelineConfig) (s : Shared) (t : OutputThread) : OutputThread :=
  let receive := OtReceive (recv (sh_output s)) in
  match pc_journal_sync cfg with
  | GroupCommit _ =>
      if 0 <? ot_since_flush t then
        match ot_writer t with
        | Some writer =>
            match Journal.flush writer with
            | (writer, Err error) => stop_output t writer error
            | (writer, Ok _) =>
                mkOutputThread receive (Some writer) (ot_recorder t) (ot_journal_error t) 0
            end
        | None => mkOutputThread receive None (ot_recorder t) (ot_journal_error t) 0
        end
      else ot_at t receive
  | _ => ot_at t receive
  end.

(** How the record just appended is pushed on, and [since_flush] after it. *)
Definition push_record (sync : JournalSync) (writer : Writer) (since_flush : Z)
  : Writer * Result Z WriteError :=
  let reset r := match r with
                 | (writer, Ok _) => (writer, Ok 0)
                 | (writer, Err error) => (writer, Err error)
                 end in
  match sync with
  | Buffered => (writer, Ok since_flush)
  | GroupCommit records =>
      if Z.max records 1 <=? since_flush then reset (Journal.flush writer)
      else (writer, Ok since_flush)
  | Durable => reset (Journal.sync writer)
  end.

(** The body of the loop on an event. *)
Definition record_event (cfg : PipelineConfig) (t : OutputThread) (event : OutputEvent.t)
  : res OutputThread :=
  let! recorder := Recorder.record_output (ot_recorder t) event in
  match ot_writer t with
  | None => Ret (mkOutputThread (OtTry TryPop) None recorder (ot_journal_error t) (ot_since_flush t))
  | Some writer =>
      let! (writer, appended) := Journal.append crc32 writer event in
      match appended with
      | Err error =>
          Ret (mkOutputThread OtFailed (Some writer) recorder (Some error) (ot_since_flush t))
      | Ok _ =>
          let! n := u64_plain (ot_since_flush t + 1) in
          match push_record (pc_journal_sync cfg) writer n with
          | (writer, Err error) =>
              Ret (mkOutputThread OtFailed (Some writer) recorder (Some error) n)
          | (writer, Ok n) =>
              Ret (mkOutputThread (OtTry TryPop) (Some writer) recorder (ot_journal_error t) n)
          end
      end
  end.

(** The end of the closure: the last [sync]. *)
Definition finish_output (t : OutputThread) : OutputThread :=
  let close writer journal_records journal_error :=
    mkOutputThread
      (OtDrop (mkOutputOutcome (dr_outputs (ot_recorder t)) (Recorder.output_digest (ot_recorder t))
                 journal_records journal_error))
      writer (ot_recorder t) journal_error (ot_since_flush t) in
  match ot_writer t with
  | None => close None 0 (ot_journal_error t)
  | Some writer =>
      match Journal.sync writer with
      | (synced, Ok _) => close (Some synced) (Journal.records writer) (ot_journal_error t)
      | (synced, Err error) =>
          close (Some synced) (Journal.records writer)
            (match ot_journal_error t with Some first => Some first | None => Some error end)
      end
  end.

Definition output_step (cfg : PipelineConfig) (run_id : Z) (s : Shared) (t : OutputThread)
  : res (Shared * OutputThread) :=
  match ot_pc t with
  | OtOpen journal => Ret (s, open_journal cfg run_id journal t)
  | OtOpenFailed error =>
      Ret (fail_output s, ot_at t (OtDrop (mkOutputOutcome 0 (replicate 32 0) 0 (Some error))))
  | OtTry pc =>
      let '(c, r) := try_step (sh_output s) pc in
      let s := set_output s c in
      match r with
      | inl pc => Ret (s, ot_at t (OtTry pc))
      | inr (Some event) => let! t := record_event cfg t event in Ret (s, t)
      | inr None => Ret (s, drained cfg s t)
      end
  | OtReceive pc =>
      let! (c, r) := recv_step (sh_output s) pc in
      let s := set_output s c in
      match r with
      | inl pc => Ret (s, ot_at t (OtReceive pc))
      | inr (Some event) => let! t := record_event cfg t event in Ret (s, t)
      | inr None => Ret (s, ot_at t OtFinish)
      end
  | OtFailed => Ret (fail_output s, ot_at t OtFinish)
  | OtFinish => Ret (s, finish_output t)
  | OtDrop o => Ret (set_output s (close_receiver (sh_output s)), ot_at t (OtDone o))
  | OtDone _ => Ret (s, t)
  end.

(** * The system *)

Record System := mkSystem {
  sy_shared : Shared;
  sy_feed : FeedThread;
  sy_engine : EngineThread;
  sy_output : OutputThread
}.

(** Calls on a [ControlHandle] from outside, with what they return. *)
Inductive Call :=
| EngageKill
| ReleaseKill
| Submit (command : ControlCommand.t)
| TakeSnapshot
| RequestShutdown.

Inductive Returned :=
| Done
| Submitted (command : ControlCommand.t) (accepted : bool)
| Took (snapshot : option EngineSnapshot).

Definition call (h : ControlHandle) (c : Call) : ControlHandle * Returned :=
  match c with
  | EngageKill => (engage_kill h, Done)
  | ReleaseKill => (release_kill h, Done)
  | Submit command => let '(h, ok) := submit h command in (h, Submitted command ok)
  | TakeSnapshot => let '(h, snapshot) := take_snapshot h in (h, Took snapshot)
  | RequestShutdown => (request_shutdown h, Done)
  end.

Inductive Actor := Feed | EngineA | Output | Outside (c : Call).

(** The part of [run_with_journal] before the threads start. *)
Definition start (engine_config : EngineConfig) (cfg : PipelineConfig) (source : FeedSource)
    (control : ControlHandle) (journal : option Writer) : System :=
  let input := bounded (pc_input_capacity cfg) (pc_wait cfg) in
  mkSystem
    (mkShared input (bounded (pc_output_capacity cfg) (pc_wait cfg)) false control)
    (mkFeedThread (FeedStart source) (AtInputs [] 0) 0 0)
    (mkEngineThread (EnReceive (recv input)) (sequencer_new engine_config (pc_capture_inputs cfg))
       false)
    (mkOutputThread (OtOpen journal) None Recorder.new None 0).

Definition step (cfg : PipelineConfig) (run_id : Z) (sy : System) (a : Actor)
  : res (System * list Returned) :=
  match a with
  | Feed =>
      let! (s, t) := feed_step cfg (sy_shared sy) (sy_feed sy) in
      Ret (mkSystem s t (sy_engine sy) (sy_output sy), [])
  | EngineA =>
      let! (s, t) := engine_step cfg (sy_shared sy) (sy_engine sy) in
      Ret (mkSystem s (sy_feed sy) t (sy_output sy), [])
  | Output =>
      let! (s, t) := output_step cfg run_id (sy_shared sy) (sy_output sy) in
      Ret (mkSystem s (sy_feed sy) (sy_engine sy) t, [])
  | Outside c =>
      let '(h, r) := call (sh_control (sy_shared sy)) c in
      Ret (mkSystem (set_control (sy_shared sy) h) (sy_feed sy) (sy_engine sy) (sy_output sy), [r])
  end.

(** The steps of a schedule, with the results of the outside calls. *)
Fixpoint run (cfg : PipelineConfig) (run_id : Z) (sy : System) (schedule : list Actor)
  : res (System * list Returned) :=
  match schedule with
  | [] => Ret (sy, [])
  | a :: schedule =>
      let! (sy, log) := step cfg run_id sy a in
      let! (sy, rest) := run cfg run_id sy schedule in
      Ret (sy, log ++ rest)
  end.

(** The joins and the result; [None] while a thread still runs. *)
Definition joined (cfg : PipelineConfig) (sy : System) : option (Result RunSummary RuntimeError) :=
  match fd_pc (sy_feed sy), et_pc (sy_engine sy), ot_pc (sy_output sy) with
  | FeedDone, EnDone e, OtDone o =>
      Some match oo_journal_error o with
           | Some error => Err (JournalFailed error)
           | None =>
               if eo_output_lost e then Err (OutputUnavailable (eo_inputs_applied e))
               else
                 Ok (mkRunSummary (eo_inputs_applied e) (fd_produced (sy_feed sy))
                       (eo_captured_inputs e) (oo_outputs o) (eo_trades e) (oo_journal_records o)
                       (eo_input_digest e) (oo_digest o) (eo_state_digest e)
                       (report (ch_stats (sh_input (sy_shared sy))) (pc_input_capacity cfg))
                       (report (ch_stats (sh_output (sy_shared sy))) (pc_output_capacity cfg))
                       (ctl_telemetry_dropped (sh_control (sy_shared sy)))
                       (fd_decode_errors (sy_feed sy)))
           end
  | _, _, _ => None
  end.

End Pipeline.
