(* ===== verification/PipelineInv.v ===== *)
(** The invariant of the pipeline: where every input and every output is, in
    any state that any schedule reaches. *)

From S2P Require Import Prelude Enums Ids Events BTree Slab Book BookData BookInv BookCheck.
From S2P Require Import BookSpec Matching MatchSpec MatchProps BookTheorems Market MarketInv.
From S2P Require Import MarketTheorems Account AccountProps Config CoreState Risk Core CoreAcct.
From S2P Require Import CoreExec CoreInv CoreRest RiskProps CoreHandlers CoreApply CoreRun.
From S2P Require Import Read Canonical CanonicalProps Codec CodecProps Wire Journal JournalProps.
From S2P Require Import JournalTheorems Queue QueueProps Replay ReplayState ReplayTheorems Snapshot.
From S2P Require Import Pipeline.

(** * The applied inputs *)

(** Where an input of the canonical stream comes from. *)
Inductive Origin :=
| FromFeed (input : EngineInput)
| FromLatch (engaged : bool)
| FromQueue (command : ControlCommand.t).

Definition origin_event (o : Origin) : InputEvent.t :=
  match o with
  | FromFeed input => in_event input
  | FromLatch engaged => InputEvent.Control (ControlCommand.SetGlobalKill engaged)
  | FromQueue command => InputEvent.Control command
  end.

(** Control commands take the engine's clock. *)
Definition origin_time (clock : Z) (o : Origin) : Z :=
  match o with FromFeed input => in_recv_time_ns input | _ => clock end.

(** The canonical stream of a sequence of origins: numbered from one, with the
    clock of the last input before it for a control command. *)
Fixpoint stamp (n clock : Z) (os : list Origin) : list EngineInput :=
  match os with
  | [] => []
  | o :: os =>
      mkEngineInput (n + 1) (origin_time clock o) (origin_event o)
      :: stamp (n + 1) (origin_time clock o) os
  end.

Definition stamped (os : list Origin) : list EngineInput := stamp 0 0 os.

Definition clock_of (os : list Origin) : Z := foldl origin_time 0 os.

Definition fed (os : list Origin) : list EngineInput :=
  omap (fun o => match o with FromFeed input => Some input | _ => None end) os.

Definition queued (os : list Origin) : list ControlCommand.t :=
  omap (fun o => match o with FromQueue command => Some command | _ => None end) os.

Definition latched (os : list Origin) : list bool :=
  omap (fun o => match o with FromLatch engaged => Some engaged | _ => None end) os.

Lemma stamp_app n clock os1 os2 :
  stamp n clock (os1 ++ os2)
  = stamp n clock os1 ++ stamp (n + Z.of_nat (length os1)) (foldl origin_time clock os1) os2.
Proof.
  revert n clock. induction os1 as [| o os1 IH]; intros n clock; simpl.
  - by rewrite Z.add_0_r.
  - rewrite IH. do 3 f_equal. lia.
Qed.

Lemma stamped_snoc os o :
  stamped (os ++ [o])
  = stamped os ++ [mkEngineInput (Z.of_nat (length os) + 1) (origin_time (clock_of os) o)
                     (origin_event o)].
Proof. unfold stamped. by rewrite stamp_app. Qed.

Lemma clock_of_snoc os o : clock_of (os ++ [o]) = origin_time (clock_of os) o.
Proof. unfold clock_of. by rewrite foldl_app. Qed.

Lemma stamped_length os : length (stamped os) = length os.
Proof.
  induction os as [| o os IH] using rev_ind; [done |]. rewrite stamped_snoc, !length_app, IH. done.
Qed.

Lemma origins_length os :
  length os = (length (fed os) + length (latched os) + length (queued os))%nat.
Proof.
  induction os as [| o os IH]; [done |]. destruct o; simpl; lia.
Qed.

Lemma fed_snoc os o : fed (os ++ [o]) = fed os ++ fed [o].
Proof. apply omap_app. Qed.
Lemma queued_snoc os o : queued (os ++ [o]) = queued os ++ queued [o].
Proof. apply omap_app. Qed.
Lemma latched_snoc os o : latched (os ++ [o]) = latched os ++ latched [o].
Proof. apply omap_app. Qed.

Lemma stamped_wf os : Forall input_wf (fed os) -> Forall input_wf (stamped os).
Proof.
  induction os as [| o os IH] using rev_ind; intros H; [constructor |].
  rewrite fed_snoc in H. apply Forall_app in H as [H Ho].
  rewrite stamped_snoc. apply Forall_app_2; [auto |]. constructor; [| constructor].
  unfold input_wf. destruct o; simpl; try done. apply Forall_cons in Ho as [Ho _]. apply Ho.
Qed.

Lemma fed_length_le os : (length (fed os) <= length os)%nat.
Proof. rewrite (origins_length os). lia. Qed.

(** * What the feed delivers *)

Section Inv.
Context {P : Platform} {PL : PlatformLaws P}.
Context (ec : EngineConfig) (cfg : PipelineConfig) (source : FeedSource).
Context (journal : option (Journal.JournalWriter (W := FileSink))).

(** The inputs of the frames from [offset] on, up to the first malformed one;
    [n] inputs came before. *)
Fixpoint decode_feed (fuel : nat) (bs : bytes) (offset : nat) (n : Z) : list EngineInput :=
  match fuel with
  | O => []
  | S fuel =>
      if (offset <? length bs)%nat then
        match decode_frame crc32 (drop offset bs) with
        | Ret (Ok (frame, consumed)) =>
            match from_frame frame (n + 1) with
            | Ret input => input :: decode_feed fuel bs (offset + consumed) (n + 1)
            | Panic => []
            end
        | _ => []
        end
      else []
  end.

Definition frames_after (bs : bytes) (offset : nat) (n : Z) : list EngineInput :=
  decode_feed (length bs - offset) bs offset n.

(** Everything the feed has to deliver. *)
Definition feed_inputs : list EngineInput :=
  match source with
  | Memory inputs => inputs
  | Bytes bs =>
      match decode_header crc32 bs with
      | Ret (Ok (_, consumed)) => frames_after bs consumed 0
      | _ => []
      end
  end.

(** The widths of the fields of the inputs, or bytes. *)
Definition source_wf : Prop :=
  match source with
  | Memory inputs => Forall input_wf inputs
  | Bytes bs => Forall is_byte bs /\ Z.of_nat (length bs) <= u64_max
  end.

Definition upcoming (t : FeedThread) : list EngineInput :=
  match fd_cursor t with
  | AtInputs rest _ => rest
  | AtBytes bs offset => frames_after bs offset (fd_produced t)
  end.

Definition cursor_ok (t : FeedThread) : Prop :=
  match fd_cursor t with
  | AtInputs _ _ => True
  | AtBytes bs offset => source = Bytes bs /\ (offset <= length bs)%nat
  end.

(** * Where everything is *)

Record Ghost := mkGhost {
  (** the inputs the engine has applied, by origin *)
  g_origins : list Origin;
  (** the inputs pushed to, and popped from, the input queue *)
  g_sent : list EngineInput;
  g_taken : list EngineInput;
  (** the outputs of the engine, those pushed to the output queue, those popped
      from it, and those the output thread has recorded *)
  g_out : list OutputEvent.t;
  g_pushed : list OutputEvent.t;
  g_got : list OutputEvent.t;
  g_handled : list OutputEvent.t;
  (** the commands that [submit] accepted *)
  g_accepted : list ControlCommand.t
}.

(** ** The feed thread *)

Definition feed_ok (sent : list EngineInput) (shutdown lost : bool) (t : FeedThread) : Prop :=
  match fd_pc t with
  | FeedStart src => src = source /\ sent = [] /\ fd_produced t = 0 /\ fd_decode_errors t = 0
  | FeedNext =>
      sent ++ upcoming t = feed_inputs /\ fd_produced t = Z.of_nat (length sent)
      /\ cursor_ok t /\ 0 <= fd_decode_errors t <= 1
  | FeedSend s =>
      sent ++ send_holds s ++ upcoming t = feed_inputs
      /\ fd_produced t = Z.of_nat (length sent + length (send_holds s))
      /\ cursor_ok t /\ send_wait s (pc_wait cfg) /\ 0 <= fd_decode_errors t <= 1
  | FeedDrop | FeedDone =>
      sent `prefix_of` feed_inputs /\ (shutdown = true \/ sent = feed_inputs)
      /\ (lost = true \/ fd_produced t = Z.of_nat (length sent))
  end.

Definition feed_counting (t : FeedThread) : Counting :=
  match fd_pc t with FeedSend s => counting_pc s | _ => Counted end.

Definition feed_gone (t : FeedThread) : bool :=
  match fd_pc t with FeedDone => true | _ => false end.

(** ** The engine thread *)

Definition engine_holds (pc : EnginePc) : list EngineInput :=
  match pc with
  | EnReceive r => recv_holds r
  | EnCheckFailed p | EnCheckKill p | EnCommands p | EnSend (AfterControl p) _ _ => [p]
  | _ => []
  end.

Definition engine_unsent (pc : EnginePc) : list OutputEvent.t :=
  match pc with
  | EnSend _ s rest => send_holds s ++ rest
  | _ => []
  end.

Definition in_loop (pc : EnginePc) : bool :=
  match pc with
  | EnReceive _ | EnCheckFailed _ | EnCheckKill _ | EnCommands _ | EnSend _ _ _
  | EnPublish false | EnCountDrop false => true
  | _ => false
  end.

(** The latch has been read for the input in hand. *)
Definition latch_read (pc : EnginePc) : nat :=
  match pc with
  | EnCommands _ | EnSend (AfterControl _) _ _ => 1
  | _ => 0
  end.

Definition engine_pc_ok (t : EngineThread) (producer_gone : bool) : Prop :=
  match et_pc t with
  | EnReceive r =>
      recv_wait r (pc_wait cfg)
      /\ match r with RecvLast _ => producer_gone = true | _ => True end
  | EnSend _ s _ => send_wait s (pc_wait cfg)
  | EnShutdown => et_output_lost t = true
  | EnDropInput o | EnDropOutput o | EnDone o => outcome t = Ret o
  | _ => True
  end.

(** The core has applied the stamped origins, the recorder and the capture hold
    them. *)
Record sequenced (os : list Origin) (out : list OutputEvent.t) (q : Sequencer) : Prop := {
  sq_run : engine_run (Core.new ec) (stamped os) = Ret (sq_core q, out);
  sq_inv : core_inv (sq_core q);
  sq_seq : tc_engine_seq (sq_core q) = Z.of_nat (length os);
  sq_outs : tc_output_seq (sq_core q) = Z.of_nat (length out);
  sq_time : tc_engine_time_ns (sq_core q) = clock_of os;
  sq_recorded : recorded (sq_recorder q) (stamped os) [];
  sq_capture : sq_captured q = if pc_capture_inputs cfg then Some (stamped os) else None
}.

Record engine_ok (g : Ghost) (shutdown producer_gone : bool) (items : list EngineInput)
    (t : EngineThread) : Prop := {
  eo_sequenced : sequenced (g_origins g) (g_out g) (et_sequencer t);
  eo_feed : if et_output_lost t then fed (g_origins g) `prefix_of` g_taken g
            else g_taken g = fed (g_origins g) ++ engine_holds (et_pc t);
  eo_out : if et_output_lost t then g_pushed g `prefix_of` g_out g
           else g_out g = g_pushed g ++ engine_unsent (et_pc t);
  eo_latch : (length (latched (g_origins g))
              <= length (fed (g_origins g))
                 + if et_output_lost t then 1 else latch_read (et_pc t))%nat;
  eo_loop : et_output_lost t = true -> in_loop (et_pc t) = false;
  eo_shut : et_output_lost t = true -> et_pc t = EnShutdown \/ shutdown = true;
  eo_left : et_output_lost t = false -> in_loop (et_pc t) = false ->
            producer_gone = true /\ items = [];
  eo_pc : engine_pc_ok t producer_gone
}.

Definition engine_popping (t : EngineThread) : bool :=
  match et_pc t with EnReceive r => bool_decide (recv_holds r <> []) | _ => false end.

Definition engine_counting (t : EngineThread) : Counting :=
  match et_pc t with EnSend _ s _ => counting_pc s | _ => Counted end.

Definition input_dropped (t : EngineThread) : bool :=
  match et_pc t with EnDropOutput _ | EnDone _ => true | _ => false end.

Definition output_dropped (t : EngineThread) : bool :=
  match et_pc t with EnDone _ => true | _ => false end.

(** ** The output thread *)

(** What the sink held before the first record. *)
Definition journal_base : bytes :=
  match journal with
  | Some writer => Journal.accepted (Journal.jw_sink writer)
  | None => Journal.header (ec_run_id ec)
  end.

Definition writer_ok (handled : list OutputEvent.t)
    (writer : option (Journal.JournalWriter (W := FileSink))) : Prop :=
  match writer with
  | None => journal = None /\ pc_journal_path cfg = None
  | Some writer =>
      Journal.accepted (Journal.jw_sink writer) = journal_base ++ records_bytes crc32 handled
      /\ Journal.jw_records writer = Z.of_nat (length handled)
  end.

Definition output_holds (pc : OutputPc) : list OutputEvent.t :=
  match pc with
  | OtTry t => try_holds t
  | OtReceive r => recv_holds r
  | _ => []
  end.

Definition records_of (writer : option (Journal.JournalWriter (W := FileSink))) : Z :=
  from_option Journal.jw_records 0 writer.

Definition output_pc_ok (g : Ghost) (producer_gone : bool) (items : list OutputEvent.t)
    (t : OutputThread) : Prop :=
  match ot_pc t with
  | OtOpen j => j = journal /\ g_handled g = [] /\ ot_journal_error t = None
  | OtOpenFailed _ => g_handled g = [] /\ ot_journal_error t = None
  | OtTry _ => ot_journal_error t = None /\ writer_ok (g_handled g) (ot_writer t)
  | OtReceive r =>
      ot_journal_error t = None /\ writer_ok (g_handled g) (ot_writer t)
      /\ recv_wait r (pc_wait cfg)
      /\ match r with RecvLast _ => producer_gone = true | _ => True end
  | OtFailed => is_Some (ot_journal_error t)
  | OtFinish =>
      ot_journal_error t = None ->
      writer_ok (g_handled g) (ot_writer t) /\ producer_gone = true /\ items = []
  | OtDrop o | OtDone o =>
      oo_journal_error o = None ->
      writer_ok (g_handled g) (ot_writer t) /\ producer_gone = true /\ items = []
      /\ oo_outputs o = dr_outputs (ot_recorder t)
      /\ oo_digest o = Recorder.output_digest (ot_recorder t)
      /\ oo_journal_records o = records_of (ot_writer t)
  end.

Record output_ok (g : Ghost) (producer_gone : bool) (items : list OutputEvent.t)
    (t : OutputThread) : Prop := {
  oo_recorded : recorded (ot_recorder t) [] (g_handled g);
  oo_got : g_got g = g_handled g ++ output_holds (ot_pc t);
  oo_since : 0 <= ot_since_flush t <= Z.of_nat (length (g_handled g));
  oo_pc : output_pc_ok g producer_gone items t
}.

Definition output_popping (t : OutputThread) : bool := bool_decide (output_holds (ot_pc t) <> []).

Definition output_gone (t : OutputThread) : bool :=
  match ot_pc t with OtDone _ => true | _ => false end.

(** ** The system *)

Record sys_inv (g : Ghost) (sy : System) : Prop := {
  si_in : channel_ok (pc_wait cfg) (sh_input (sy_shared sy)) (pc_input_capacity cfg) (g_sent g) (g_taken g)
            (feed_counting (sy_feed sy)) (engine_popping (sy_engine sy))
            (feed_gone (sy_feed sy)) (input_dropped (sy_engine sy));
  si_out : channel_ok (pc_wait cfg) (sh_output (sy_shared sy)) (pc_output_capacity cfg) (g_pushed g) (g_got g)
             (engine_counting (sy_engine sy)) (output_popping (sy_output sy))
             (output_dropped (sy_engine sy)) (output_gone (sy_output sy));
  si_commands : queued (g_origins g) ++ aq_items (ctl_commands (sh_control (sy_shared sy)))
                = g_accepted g;
  si_feed : feed_ok (g_sent g) (ctl_shutdown (sh_control (sy_shared sy)))
              (et_output_lost (sy_engine sy)) (sy_feed sy);
  si_engine : engine_ok g (ctl_shutdown (sh_control (sy_shared sy)))
                (feed_gone (sy_feed sy)) (rv_items (cview (sh_input (sy_shared sy))))
                (sy_engine sy);
  si_output : output_ok g (output_dropped (sy_engine sy))
                (rv_items (cview (sh_output (sy_shared sy)))) (sy_output sy)
}.

(** The hypotheses of a run. *)
Record setup_wf : Prop := {
  sw_config : config_wf ec;
  sw_source : source_wf;
  sw_wait : wait_wf (pc_wait cfg);
  sw_interval : 0 <= pc_snapshot_interval cfg <= u64_max;
  sw_depth : Z.of_nat (pc_snapshot_depth cfg) * 2 <= u64_max;
  sw_journal writer : journal = Some writer -> Journal.jw_records writer = 0
}.

(** What is applied stays within the engine's capacity. *)
Definition in_budget (g : Ghost) : Prop :=
  2 * Z.of_nat (length feed_inputs) + Z.of_nat (length (g_accepted g)) < u32_max.

(** Each thread's part of the invariant reads only its own ghosts. *)
Lemma engine_ok_ext g g' shutdown pg items t :
  g_origins g' = g_origins g -> g_taken g' = g_taken g -> g_out g' = g_out g ->
  g_pushed g' = g_pushed g -> engine_ok g shutdown pg items t -> engine_ok g' shutdown pg items t.
Proof. intros E1 E2 E3 E4 []. constructor; rewrite ?E1, ?E2, ?E3, ?E4; done. Qed.

Lemma output_ok_ext g g' pg items t :
  g_got g' = g_got g -> g_handled g' = g_handled g ->
  output_ok g pg items t -> output_ok g' pg items t.
Proof.
  intros E1 E2 [H1 H2 H3 H4]. constructor; rewrite ?E1, ?E2; try done.
  unfold output_pc_ok in *. by rewrite E2.
Qed.

End Inv.
