(* ===== verification/PipelineFeed.v ===== *)
(** The feed thread, which delivers the inputs of its source, in order and once. *)

From S2P Require Import Prelude Enums Ids Events Read Canonical Codec CodecProps Wire Journal Queue QueueProps.
From S2P Require Import BTree Slab Book Market MarketInv MarketTheorems Account Config CoreState.
From S2P Require Import Core CoreRun Replay ReplayTheorems Snapshot Pipeline PipelineInv.

Section Feed.
Context {P : Platform} {PL : PlatformLaws P}.
Context (ec : EngineConfig) (cfg : PipelineConfig) (source : FeedSource).
Context (journal : option (Journal.JournalWriter (W := FileSink))).

(** * Frames *)

(** More fuel than bytes left changes nothing. *)
Lemma decode_feed_fuel bs fuel1 fuel2 offset n :
  Forall is_byte bs -> (length bs - offset <= fuel1)%nat -> (length bs - offset <= fuel2)%nat ->
  decode_feed fuel1 bs offset n = decode_feed fuel2 bs offset n.
Proof.
  intros Hb. revert fuel2 offset n. induction fuel1 as [| fuel1 IH]; intros [| fuel2] offset n H1 H2;
    simpl; try done.
  - destruct (Nat.ltb_spec offset (length bs)); [lia | done].
  - destruct (Nat.ltb_spec offset (length bs)); [lia | done].
  - destruct (Nat.ltb_spec offset (length bs)); [| done].
    destruct (decode_frame_sound crc32 (drop offset bs)) as (r & -> & Hr); [by apply Forall_drop |].
    destruct r as [[f k] | ]; [| done]. destruct Hr as (_ & -> & _ & _).
    case_match; [| done]. f_equal. apply IH; rewrite frame_bytes_length; lia.
Qed.

Lemma from_frame_wf f n input : frame_wf f -> from_frame f n = Ret input -> input_wf input.
Proof.
  intros [_ _ _ _ Hb]. unfold from_frame. destruct (fr_body f); simpl in *; intros [= <-];
    unfold input_wf; simpl; destruct_and?; done.
Qed.

Lemma frames_after_end bs offset n : (length bs <= offset)%nat -> frames_after bs offset n = [].
Proof. intros. unfold frames_after. by replace (length bs - offset)%nat with 0%nat by lia. Qed.

(** The next frame is the next input, and a malformed one ends the feed. *)
Lemma frames_after_step bs offset n :
  Forall is_byte bs -> (offset < length bs)%nat ->
  exists decoded, decode_frame crc32 (drop offset bs) = Ret decoded
    /\ match decoded with
       | Ok (f, consumed) =>
           exists input, from_frame f (n + 1) = Ret input /\ input_wf input
             /\ (offset + consumed <= length bs)%nat
             /\ frames_after bs offset n = input :: frames_after bs (offset + consumed) (n + 1)
       | Err _ => frames_after bs offset n = []
       end.
Proof.
  intros Hb Hlt. unfold frames_after at 1 3.
  destruct (length bs - offset)%nat as [| fuel] eqn:Ef; [lia |]. simpl.
  rewrite (proj2 (Nat.ltb_lt _ _) Hlt).
  destruct (decode_frame_sound crc32 (drop offset bs)) as (r & -> & Hr); [by apply Forall_drop |].
  exists r. split; [done |]. destruct r as [[f k] | ]; [| done].
  destruct Hr as (Hf & Hk & Hle & _). rewrite length_drop in Hle.
  destruct (from_frame_total f (n + 1)) as (input & Ei & _). rewrite Ei. exists input.
  split_and!; [done | by eapply from_frame_wf | lia |]. f_equal.
  apply decode_feed_fuel; [done | | lia]. rewrite frame_bytes_length in Hk. lia.
Qed.

Lemma feed_inputs_wf : source_wf source -> Forall input_wf (feed_inputs source).
Proof.
  unfold source_wf, feed_inputs. destruct source as [inputs | bs]; [done |]. intros [Hb _].
  destruct (decode_header crc32 bs) as [[[h k] | ] |]; try constructor.
  unfold frames_after. generalize (length bs - k)%nat as fuel. intros fuel. generalize 0.
  revert k. induction fuel as [| fuel IH]; intros k n; simpl; [constructor |].
  destruct (Nat.ltb_spec k (length bs)); [| constructor].
  destruct (decode_frame_sound crc32 (drop k bs)) as (r & -> & Hr); [by apply Forall_drop |].
  destruct r as [[f j] | ]; [| constructor]. destruct Hr as (Hf & _).
  destruct (from_frame_total f (n + 1)) as (input & Ei & _). rewrite Ei.
  constructor; [by eapply from_frame_wf | apply IH].
Qed.

(** * Starting *)

Abbreviation feed_ok := (PipelineInv.feed_ok cfg source) (only parsing).

Lemma feed_start_ok t shutdown lost src :
  source_wf source -> fd_pc t = FeedStart src -> feed_ok [] shutdown lost t ->
  exists t', feed_start src t = Ret t' /\ fd_pc t' = FeedNext /\ feed_ok [] shutdown lost t'.
Proof.
  unfold PipelineInv.feed_ok. intros Hs -> (-> & _ & Hp & He). unfold feed_start.
  destruct source as [inputs | bs] eqn:Esrc.
  - eexists. split; [done |]. split; [done |]. simpl. rewrite He, Hp. by split_and!.
  - destruct Hs as [Hb Hl].
    destruct (decode_header_sound crc32 bs Hb Hl) as (r & E & Hr). rewrite E. cbn [rbind].
    unfold feed_inputs. rewrite E. destruct r as [[h k] | e].
    + destruct Hr as (_ & _ & Hk & _). eexists. split; [done |]. split; [done |]. simpl.
      unfold upcoming, cursor_ok. simpl. rewrite He, Hp. split_and!; done.
    + rewrite He, u64_plain_in by mach. cbn [rbind]. eexists. split; [done |]. split; [done |]. simpl.
      unfold upcoming, cursor_ok. simpl. rewrite frames_after_end, Hp by lia. split_and!; done.
Qed.

(** * One turn of the loop *)

Lemma feed_next_ok t channel sent shutdown lost paced :
  source_wf source -> fd_pc t = FeedNext -> ch_strategy channel = pc_wait cfg ->
  Z.of_nat (length (feed_inputs source)) <= u32_max ->
  feed_ok sent shutdown lost t ->
  exists t', feed_next paced shutdown channel t = Ret t' /\ feed_ok sent shutdown lost t'
    /\ (fd_pc t' = FeedDrop \/ exists x, fd_pc t' = FeedSend (send channel x)).
Proof.
  intros Hs Epc Hst Hlen F. unfold PipelineInv.feed_ok in F. rewrite Epc in F.
  destruct F as (Ha & Hp & Hc & He). unfold feed_next, upcoming in *.
  assert (Hsent : (length sent <= length (feed_inputs source))%nat)
    by (rewrite <- Ha, length_app; lia).
  assert (Hstop : shutdown = true -> feed_ok sent shutdown lost (fd_at t FeedDrop)).
  { intros ->. unfold PipelineInv.feed_ok. simpl. split_and!; [| by left | by right].
    rewrite <- Ha. by apply prefix_app_r. }
  assert (Hend : forall t', fd_pc t' = FeedDrop -> fd_produced t' = fd_produced t ->
            sent = feed_inputs source -> feed_ok sent shutdown lost t').
  { intros t' E1 E2 E3. unfold PipelineInv.feed_ok. rewrite E1, E2.
    split_and!; [by rewrite E3 | by right | by right]. }
  destruct (fd_cursor t) as [[| input rest] prev | bs offset] eqn:Ecur.
  - eexists. split; [done |]. split; [| by left]. apply Hend; try done. by rewrite app_nil_r in Ha.
  - destruct shutdown; [eexists; split; [done |]; split; [by apply Hstop | by left] |].
    assert (Hn : (length sent < length (feed_inputs source))%nat)
      by (rewrite <- Ha, length_app; simpl; lia).
    destruct (pace paced input prev) as [d prev']. rewrite u64_plain_in by mach. cbn [rbind].
    eexists. split; [done |]. split; [| simpl; eauto]. unfold PipelineInv.feed_ok. simpl.
    unfold upcoming, cursor_ok. simpl. split_and!; try done; lia.
  - unfold cursor_ok in Hc. rewrite Ecur in Hc. destruct Hc as [Hsrc Ho].
    assert (Hb : Forall is_byte bs) by (rewrite Hsrc in Hs; apply Hs).
    destruct (Nat.ltb_spec offset (length bs)) as [Hlt | Hge]; simpl.
    2: { eexists. split; [done |]. split; [| by left]. apply Hend; try done.
         by rewrite frames_after_end, app_nil_r in Ha. }
    destruct shutdown; [eexists; split; [done |]; split; [by apply Hstop | by left] |].
    unfold slice. rewrite (proj2 (Nat.leb_le _ _)), (proj2 (Nat.leb_le _ _)) by lia. cbn [andb rbind].
    rewrite take_ge by (rewrite length_drop; lia).
    destruct (frames_after_step bs offset (fd_produced t) Hb Hlt) as (r & -> & Hr). cbn [rbind].
    destruct r as [[f k] | e].
    + destruct Hr as (input & Ei & Hw & Hk & Hf). rewrite Hf in Ha.
      assert (Hn : (length sent < length (feed_inputs source))%nat)
        by (rewrite <- Ha, length_app; simpl; lia).
      rewrite u64_plain_in by mach. cbn [rbind]. rewrite Ei. cbn [rbind].
      eexists. split; [done |]. split; [| simpl; eauto]. unfold PipelineInv.feed_ok. simpl.
      unfold upcoming, cursor_ok. simpl. split_and!; try done; lia.
    + rewrite u64_plain_in by mach. cbn [rbind]. eexists. split; [done |]. split; [| by left].
      apply Hend; try done. by rewrite Hr, app_nil_r in Ha.
Qed.

(** * Every step *)

(** The ghost state after the feed has pushed. *)
Definition g_send (g : Ghost) (sent : list EngineInput) : Ghost :=
  mkGhost (g_origins g) sent (g_taken g) (g_out g) (g_pushed g) (g_got g) (g_handled g)
    (g_accepted g).

Abbreviation sys_inv := (PipelineInv.sys_inv ec cfg source journal) (only parsing).

Lemma feed_sent_prefix sent shutdown lost t :
  feed_ok sent shutdown lost t -> sent `prefix_of` feed_inputs source.
Proof.
  unfold PipelineInv.feed_ok. destruct (fd_pc t).
  - intros (_ & -> & _). apply prefix_nil.
  - intros (<- & _). by apply prefix_app_r.
  - intros (<- & _). by apply prefix_app_r.
  - intros (H & _). done.
  - intros (H & _). done.
Qed.

(** The engine does not see a feed step that leaves what it has seen, as long
    as the feed had not gone. *)
Lemma engine_ok_send g sent shutdown pg items items' t :
  engine_ok ec cfg g shutdown false items t ->
  engine_ok ec cfg (g_send g sent) shutdown pg items' t.
Proof.
  intros []. constructor; try done.
  - intros Hl Hp. by destruct (eo_left Hl Hp).
  - unfold engine_pc_ok in *. destruct (et_pc t); try done. destruct eo_pc as [? Hr].
    split; [done |]. by destruct r.
Qed.

(** A step of the feed that leaves its end of the channel alone. *)
Lemma feed_local g sy t' :
  sys_inv g sy ->
  feed_counting t' = feed_counting (sy_feed sy) -> feed_gone t' = feed_gone (sy_feed sy) ->
  feed_ok (g_sent g) (ctl_shutdown (sh_control (sy_shared sy))) (et_output_lost (sy_engine sy)) t' ->
  sys_inv g (mkSystem (sy_shared sy) t' (sy_engine sy) (sy_output sy)).
Proof. intros [] E1 E2 F. constructor; simpl; rewrite ?E1, ?E2; done. Qed.

Lemma feed_send_ok g sy pc :
  setup_wf ec cfg source journal -> in_budget source g -> sys_inv g sy ->
  fd_pc (sy_feed sy) = FeedSend pc ->
  exists g' sy', step cfg (ec_run_id ec) sy Feed = Ret (sy', [])
    /\ sys_inv g' sy' /\ g_accepted g' = g_accepted g.
Proof.
  intros W Hb I Epc. pose proof I as [Ci Co Hc F E O].
  assert (Ecnt : feed_counting (sy_feed sy) = counting_pc pc)
    by (unfold feed_counting; rewrite Epc; by destruct pc).
  assert (Egone : feed_gone (sy_feed sy) = false) by (unfold feed_gone; by rewrite Epc).
  pose proof (prefix_length _ _ (feed_sent_prefix _ _ _ _ F)) as Hsl. rewrite Ecnt, Egone in *.
  unfold PipelineInv.feed_ok in F. rewrite Epc in F. destruct F as (Ha & Hp & Hcur & Hw & He).
  unfold step, feed_step. rewrite Epc.
  destruct (send_step_ok (pc_wait cfg) _ _ _ _ _ _ _ _ Ci Hw (sw_wait _ _ _ _ W)) as (c' & r & -> & Hr).
  { unfold in_budget in Hb. mach. }
  cbn [rbind]. destruct r as [pc' | [] ].
  - destruct Hr as (sent' & C' & Hw' & Hs). exists (g_send g sent'). eexists. split; [done |].
    split; [| done]. constructor; simpl; try done.
    + unfold PipelineInv.feed_ok. simpl. split_and!; try done; try lia.
      * by rewrite app_assoc, <- Hs, <- app_assoc.
      * rewrite Hp, <- !length_app. by rewrite Hs.
    + by eapply engine_ok_send.
    + by eapply output_ok_ext; [.. | exact O].
  - destruct Hr as (C' & Hh & _). exists g. eexists. split; [done |]. split; [| done].
    rewrite Hh in *. constructor; simpl; try done.
    + unfold PipelineInv.feed_ok. simpl. simpl in Ha, Hp. rewrite Nat.add_0_r in Hp.
      split_and!; done || lia.
    + by rewrite (chan_items (pc_wait cfg) _ _ _ _ _ _ _ _ _ _ _ _ _ _ Ci C').
  - destruct Hr as (C' & Hg & Hcnt). exists g. eexists. split; [done |]. split; [| done].
    assert (Hlost : et_output_lost (sy_engine sy) = true
                    /\ ctl_shutdown (sh_control (sy_shared sy)) = true).
    { unfold input_dropped in Hg. destruct (et_output_lost (sy_engine sy)) eqn:El.
      - split; [done |]. destruct (eo_shut _ _ _ _ _ _ _ E El) as [Ex | ?]; [| done].
        by rewrite Ex in Hg.
      - destruct (eo_left _ _ _ _ _ _ _ E El) as [? _]; [| done]. by destruct (et_pc (sy_engine sy)). }
    destruct Hlost as [El Es]. constructor; simpl; try done.
    + unfold PipelineInv.feed_ok. simpl. rewrite El, Es. split_and!; [| by left | by left].
      rewrite <- Ha. by apply prefix_app_r.
    + by rewrite (chan_items (pc_wait cfg) _ _ _ _ _ _ _ _ _ _ _ _ _ _ Ci C').
Qed.

Lemma feed_step_inv g sy :
  setup_wf ec cfg source journal -> in_budget source g -> sys_inv g sy ->
  exists g' sy', step cfg (ec_run_id ec) sy Feed = Ret (sy', [])
    /\ sys_inv g' sy' /\ g_accepted g' = g_accepted g.
Proof.
  intros W Hb I. destruct (fd_pc (sy_feed sy)) as [src | | pc | |] eqn:Epc.
  - pose proof (si_feed _ _ _ _ _ _ I) as F. assert (Hsent : g_sent g = []).
    { unfold PipelineInv.feed_ok in F. rewrite Epc in F. apply F. }
    rewrite Hsent in F.
    destruct (feed_start_ok _ _ _ _ (sw_source _ _ _ _ W) Epc F) as (t' & E & Epc' & F').
    exists g. unfold step, feed_step. rewrite Epc, E. cbn [rbind]. eexists. split; [done |].
    split; [| done]. apply feed_local; [done | | | by rewrite Hsent];
      unfold feed_counting, feed_gone; by rewrite Epc, Epc'.
  - destruct (feed_next_ok (sy_feed sy) (sh_input (sy_shared sy)) (g_sent g)
                (ctl_shutdown (sh_control (sy_shared sy))) (et_output_lost (sy_engine sy))
                (pc_paced cfg) (sw_source _ _ _ _ W) Epc) as (t' & E & F' & Hpc).
    { apply (si_in _ _ _ _ _ _ I). } { unfold in_budget in Hb. lia. } { apply I. }
    exists g. unfold step, feed_step, shutdown_requested. rewrite Epc, E. cbn [rbind].
    eexists. split; [done |]. split; [| done].
    apply feed_local; [done | | | done]; unfold feed_counting, feed_gone; rewrite Epc;
      by destruct Hpc as [-> | [x ->]].
  - by eapply feed_send_ok.
  - exists g. unfold step, feed_step. rewrite Epc. cbn [rbind]. eexists. split; [done |].
    split; [| done]. destruct I as [Ci Co Hc F E O].
    assert (Ecnt : feed_counting (sy_feed sy) = Counted) by (unfold feed_counting; by rewrite Epc).
    assert (Egone : feed_gone (sy_feed sy) = false) by (unfold feed_gone; by rewrite Epc).
    rewrite Ecnt, Egone in *. constructor; simpl; try done.
    + by eapply close_sender_ok.
    + unfold PipelineInv.feed_ok in *. rewrite Epc in F. done.
    + eapply engine_ok_ext; [.. | eapply (engine_ok_send g (g_sent g)), E]; done.
  - exists g. unfold step, feed_step. rewrite Epc. cbn [rbind]. eexists. split; [done |].
    split; [| done]. by destruct sy.
Qed.

End Feed.
