(* ===== verification/PipelineOut.v ===== *)
(** The output thread records every output it takes, in order and once, and
    without an error the journal holds exactly the recorded outputs. *)

From S2P Require Import Prelude Enums Ids Events BTree Slab Book Market MarketInv MarketTheorems.
From S2P Require Import Account Config CoreState Core CoreApply CoreRun Read Canonical Codec.
From S2P Require Import CanonicalProps CodecProps Wire Journal JournalProps JournalTheorems Queue QueueProps Replay.
From S2P Require Import ReplayTheorems Snapshot Pipeline PipelineInv PipelineFeed.

(** * The recorder and the writer *)

Section Writer.
Context {H : Type} {B : Blake3 H} {BL : Blake3Laws B}.

Lemma record_output_ok (d : DigestRecorder H) ins outs e :
  recorded d ins outs -> Z.of_nat (length outs) < u64_max ->
  exists d', Recorder.record_output d e = Ret d' /\ recorded d' ins (outs ++ [e]).
Proof.
  intros Hd Hl. destruct (record_outputs_ok d ins outs [e] Hd) as (d' & E & Hd').
  { rewrite length_app. simpl. lia. }
  exists d'. split; [| done]. simpl in E. by destruct (Recorder.record_output d e).
Qed.

Context {W IoError : Type} {SK : Journal.Sink W IoError} (crc : bytes -> Z).
Implicit Types jw : Journal.JournalWriter (W := W).

Definition same_records jw jw' : Prop :=
  Journal.accepted (Journal.jw_sink jw') = Journal.accepted (Journal.jw_sink jw)
  /\ Journal.jw_records jw' = Journal.jw_records jw.

Lemma flush_same jw jw' r : Journal.flush jw = (jw', r) -> same_records jw jw'.
Proof.
  unfold Journal.flush, Journal.on_sink.
  destruct (Journal.flush_sink (Journal.jw_sink jw)) as [w [|]] eqn:E;
    intros [= <- _]; split; try done; by eapply Journal.flush_sink_ok.
Qed.

Lemma sync_same jw jw' r : Journal.sync jw = (jw', r) -> same_records jw jw'.
Proof.
  unfold Journal.sync, Journal.on_sink.
  destruct (Journal.flush_sink (Journal.jw_sink jw)) as [w [|]] eqn:E.
  - apply Journal.flush_sink_ok in E. destruct (Journal.jw_file jw).
    + destruct (Journal.sync_data w) as [w' [|]] eqn:E'; apply Journal.sync_data_ok in E';
        intros [= <- _]; split; simpl; congruence.
    + intros [= <- _]. by split.
  - intros [= <- _]. split; [by eapply Journal.flush_sink_ok | done].
Qed.

Lemma append_total jw e :
  0 <= Journal.jw_records jw < u64_max -> exists jw' r, Journal.append crc jw e = Ret (jw', r).
Proof.
  intros Hr. unfold Journal.append. destruct (Journal.on_sink _ _) as [w [|]]; [| by do 2 eexists].
  rewrite u64_plain_in by mach. by do 2 eexists.
Qed.

End Writer.

Lemma records_bytes_nil crc : records_bytes crc [] = [].
Proof. done. Qed.

Section Out.
Context {P : Platform} {PL : PlatformLaws P}.
Context (ec : EngineConfig) (cfg : PipelineConfig) (source : FeedSource).
Context (journal : option (Journal.JournalWriter (W := FileSink))).
Implicit Types (t : OutputThread) (handled : list OutputEvent.t).

Abbreviation writer_ok := (PipelineInv.writer_ok ec cfg journal) (only parsing).
Abbreviation sys_inv := (PipelineInv.sys_inv ec cfg source journal) (only parsing).

Lemma writer_ok_same handled w w' :
  writer_ok handled (Some w) -> same_records w w' -> writer_ok handled (Some w').
Proof. intros [H1 H2] [E1 E2]. split; congruence. Qed.

Lemma push_record_same sync w n w' r :
  0 <= n -> push_record sync w n = (w', r) ->
  same_records w w' /\ (forall m, r = Ok m -> 0 <= m <= n).
Proof.
  intros Hn. unfold push_record. destruct sync as [| records |].
  - intros [= <- <-]. split; [done |]. intros m [= <-]. lia.
  - destruct (Z.max records 1 <=? n).
    + destruct (Journal.flush w) as [w1 [|]] eqn:E; intros [= <- <-]; apply flush_same in E;
        (split; [done |]); intros m [= <-]; lia.
    + intros [= <- <-]. split; [done |]. intros m [= <-]. lia.
  - destruct (Journal.sync w) as [w1 [|]] eqn:E; intros [= <- <-]; apply sync_same in E;
      (split; [done |]); intros m [= <-]; lia.
Qed.

(** * Recording one event *)

(** What recording leaves: the loop goes on, or the journal has failed. *)
Definition recorded_to handled t : Prop :=
  recorded (ot_recorder t) [] handled /\ 0 <= ot_since_flush t <= Z.of_nat (length handled)
  /\ (ot_pc t = OtTry TryPop /\ ot_journal_error t = None /\ writer_ok handled (ot_writer t)
      \/ ot_pc t = OtFailed /\ is_Some (ot_journal_error t)).

Lemma record_event_ok handled t e :
  recorded (ot_recorder t) [] handled -> 0 <= ot_since_flush t <= Z.of_nat (length handled) ->
  ot_journal_error t = None -> writer_ok handled (ot_writer t) ->
  Z.of_nat (length handled) < 2 ^ 62 ->
  exists t', record_event cfg t e = Ret t' /\ recorded_to (handled ++ [e]) t'.
Proof.
  intros Hr Hs He Hw Hl. unfold record_event.
  destruct (record_output_ok _ _ _ e Hr) as (d & -> & Hd); [lia |]. cbn [rbind].
  unfold recorded_to. rewrite length_app. cbn [length].
  destruct (ot_writer t) as [w |].
  - destruct Hw as [Hw1 Hw2].
    destruct (append_total crc32 w e) as (w1 & r & Ea); [lia |]. rewrite Ea. cbn [rbind].
    destruct r as [[] | err].
    + apply append_ok in Ea as [Ea1 Ea2]. rewrite u64_plain_in by mach. cbn [rbind].
      assert (Hw' : writer_ok (handled ++ [e]) (Some w1)).
      { split; [| rewrite Ea2, Hw2, length_app; simpl; lia].
        rewrite Ea1, Hw1, records_bytes_app, <- app_assoc. do 2 f_equal.
        unfold records_bytes. simpl. by rewrite app_nil_r. }
      destruct (push_record (pc_journal_sync cfg) w1 (ot_since_flush t + 1)) as [w2 r] eqn:Ep.
      apply push_record_same in Ep as [Hsame Hm]; [| lia].
      destruct r as [m | err]; eexists; (split; [done |]); simpl.
      * specialize (Hm _ eq_refl). split_and!; try done; try lia. left.
        split; [done |]. split; [done |]. by eapply writer_ok_same.
      * split_and!; try done; try lia. right. split; [done | by eexists].
    + eexists. split; [done |]. simpl. split_and!; try done; try lia. right.
      split; [done | by eexists].
  - eexists. split; [done |]. simpl. split_and!; try done; try lia. by left.
Qed.

(** * Opening, draining and finishing *)

Lemma open_journal_ok t g pg items j :
  setup_wf ec cfg source journal -> ot_pc t = OtOpen j -> output_ok ec cfg journal g pg items t ->
  output_ok ec cfg journal g pg items (open_journal cfg (ec_run_id ec) j t).
Proof.
  intros W Epc [Hr Hg Hs Hp]. unfold output_pc_ok in Hp. rewrite Epc in Hp, Hg.
  destruct Hp as (-> & Hh & He). rewrite Hh in *. unfold open_journal.
  assert (Hready : forall w, writer_ok [] w ->
    output_ok ec cfg journal g pg items
      (mkOutputThread (OtTry TryPop) w (ot_recorder t) (ot_journal_error t) (ot_since_flush t))).
  { intros w Hw. constructor; simpl; rewrite ?Hh; try done. unfold output_pc_ok. simpl. by rewrite Hh. }
  destruct journal as [w |] eqn:Ej.
  - apply Hready. split; [by rewrite records_bytes_nil, app_nil_r |]. by apply W.
  - destruct (pc_journal_path cfg) as [path |] eqn:Epath; [| by apply Hready].
    destruct (Journal.create open_file path (ec_run_id ec)) as [w | err] eqn:Ew.
    + apply Hready. unfold Journal.create in Ew.
      destruct (open_file path) as [sink |] eqn:Eo; [| done].
      apply with_sink_ok in Ew as [E1 E2]. split; [| done].
      rewrite E1, (pl_open_file _ _ Eo), records_bytes_nil, app_nil_r. done.
    + constructor; simpl; rewrite ?Hh; done.
Qed.

Lemma drained_ok t g s pg items pc :
  ot_pc t = OtTry pc -> try_holds pc = [] -> ch_strategy (sh_output s) = pc_wait cfg ->
  output_ok ec cfg journal g pg items t -> output_ok ec cfg journal g pg items (drained cfg s t)
  /\ output_popping (drained cfg s t) = false /\ output_gone (drained cfg s t) = false.
Proof.
  intros Epc Hpc Hst [Hr Hg Hs Hp]. unfold output_pc_ok in Hp. rewrite Epc in Hp, Hg.
  destruct Hp as (He & Hw). simpl in Hg. rewrite Hpc in Hg.
  assert (Hrecv : forall w n, writer_ok (g_handled g) w -> 0 <= n <= Z.of_nat (length (g_handled g)) ->
    output_ok ec cfg journal g pg items
      (mkOutputThread (OtReceive (recv (sh_output s))) w (ot_recorder t) (ot_journal_error t) n)).
  { intros w n Hw' Hn. by constructor. }
  unfold drained. destruct (pc_journal_sync cfg); try (split; [by apply Hrecv | done]).
  destruct (0 <? ot_since_flush t); [| split; [by apply Hrecv | done]].
  destruct (ot_writer t) as [w |]; [| split; [apply Hrecv; done || lia | done]].
  destruct (Journal.flush w) as [w' [|]] eqn:Ef; apply flush_same in Ef.
  - split; [| done]. apply Hrecv; [by eapply writer_ok_same | lia].
  - split; [| done]. constructor; simpl; try done. unfold output_pc_ok. simpl. by eexists.
Qed.

Lemma finish_output_ok t g pg items :
  ot_pc t = OtFinish -> output_ok ec cfg journal g pg items t ->
  output_ok ec cfg journal g pg items (finish_output t)
  /\ output_popping (finish_output t) = false /\ output_gone (finish_output t) = false.
Proof.
  intros Epc [Hr Hg Hs Hp]. unfold output_pc_ok in Hp. rewrite Epc in Hp, Hg. unfold finish_output.
  destruct (ot_writer t) as [w |].
  - destruct (Journal.sync w) as [w' [|]] eqn:Es; apply sync_same in Es; (split; [| done]);
      constructor; simpl; try done; unfold output_pc_ok; simpl.
    + intros He. destruct (Hp He) as (Hw & ? & ?). split; [by eapply writer_ok_same |].
      split_and!; try done. unfold records_of, Journal.records. simpl. symmetry. apply Es.
    + by destruct (ot_journal_error t).
  - split; [| done]. constructor; simpl; try done. unfold output_pc_ok. simpl.
    intros He. destruct (Hp He) as (Hw & ? & ?). split; [exact Hw | by split_and!].
Qed.

(** * Every step *)

(** The ghost state after the output thread has popped and recorded. *)
Definition g_take (g : Ghost) (got handled : list OutputEvent.t) : Ghost :=
  mkGhost (g_origins g) (g_sent g) (g_taken g) (g_out g) (g_pushed g) got handled (g_accepted g).

(** A step of the output thread that changes the output channel to [c']. *)
Lemma output_moves g sy c' failed t' got handled :
  sys_inv g sy ->
  channel_ok (pc_wait cfg) c' (pc_output_capacity cfg) (g_pushed g) got (engine_counting (sy_engine sy))
    (output_popping t') (output_dropped (sy_engine sy)) (output_gone t') ->
  output_ok ec cfg journal (g_take g got handled) (output_dropped (sy_engine sy))
    (rv_items (cview c')) t' ->
  sys_inv (g_take g got handled)
    (mkSystem (mkShared (sh_input (sy_shared sy)) c' failed (sh_control (sy_shared sy)))
       (sy_feed sy) (sy_engine sy) t').
Proof.
  intros [Ci Co Hc F E O] C' O'. constructor; simpl; try done.
  by eapply engine_ok_ext; [.. | exact E].
Qed.

Lemma out_bound g sy :
  setup_wf ec cfg source journal -> sys_inv g sy -> Z.of_nat (length (g_origins g)) <= u32_max ->
  Z.of_nat (length (g_out g)) < 2 ^ 62 /\ (length (g_pushed g) <= length (g_out g))%nat.
Proof.
  intros W [_ _ _ _ E _] Hn. split.
  - destruct (eo_sequenced _ _ _ _ _ _ _ E) as [_ Hi Hq Ho _ _ _].
    pose proof (core_ok_output _ _ (cv_ok _ Hi)) as Hb. rewrite Hq, Ho in Hb. mach.
  - pose proof (eo_out _ _ _ _ _ _ _ E) as Ho. destruct (et_output_lost (sy_engine sy)).
    + by apply prefix_length.
    + rewrite Ho, length_app. lia.
Qed.

(** Taking an event that was popped. *)
Lemma record_popped g sy c' e :
  setup_wf ec cfg source journal -> sys_inv g sy -> Z.of_nat (length (g_origins g)) <= u32_max ->
  output_holds (ot_pc (sy_output sy)) = [e] ->
  ot_journal_error (sy_output sy) = None -> writer_ok (g_handled g) (ot_writer (sy_output sy)) ->
  channel_ok (pc_wait cfg) c' (pc_output_capacity cfg) (g_pushed g) (g_got g) (engine_counting (sy_engine sy))
    false (output_dropped (sy_engine sy)) false ->
  exists g' t', record_event cfg (sy_output sy) e = Ret t'
    /\ sys_inv g' (mkSystem (set_output (sy_shared sy) c') (sy_feed sy) (sy_engine sy) t')
    /\ g_accepted g' = g_accepted g.
Proof.
  intros W I Hn Hh He Hw C'. pose proof (si_output _ _ _ _ _ _ I) as [Hr Hg Hs Hp].
  rewrite Hh in Hg. destruct (out_bound g sy W I Hn) as [Hb1 Hb2].
  assert (Hlen : (length (g_handled g) < length (g_pushed g))%nat).
  { pose proof (prefix_length _ _ (proj1 (chan_ahead (pc_wait cfg) _ _ _ _ _ _ _ _ C'))) as Hx.
    rewrite Hg, length_app in Hx. simpl in Hx. lia. }
  destruct (record_event_ok (g_handled g) (sy_output sy) e Hr Hs He Hw) as (t' & -> & Hr' & Hs' & Hp');
    [lia |].
  exists (g_take g (g_got g) (g_handled g ++ [e])), t'. split; [done |]. split; [| done].
  apply (output_moves g sy c' _ t').
  - done.
  - destruct Hp' as [(Epc & _) | (Epc & _)]; unfold output_popping, output_gone; rewrite Epc; done.
  - constructor; simpl; try done.
    + rewrite Hg. destruct Hp' as [(-> & _) | (-> & _)]; simpl; by rewrite app_nil_r.
    + unfold output_pc_ok. destruct Hp' as [(-> & Hp') | (-> & Hp')]; done.
Qed.

(** A step that takes nothing from the channel. *)
Lemma output_keeps g sy c' failed t' :
  sys_inv g sy ->
  channel_ok (pc_wait cfg) c' (pc_output_capacity cfg) (g_pushed g) (g_got g) (engine_counting (sy_engine sy))
    (output_popping t') (output_dropped (sy_engine sy)) (output_gone t') ->
  output_ok ec cfg journal g (output_dropped (sy_engine sy)) (rv_items (cview c')) t' ->
  sys_inv (g_take g (g_got g) (g_handled g))
    (mkSystem (mkShared (sh_input (sy_shared sy)) c' failed (sh_control (sy_shared sy)))
       (sy_feed sy) (sy_engine sy) t').
Proof.
  intros I C' O'. apply output_moves; [done | done |]. by eapply output_ok_ext; [.. | exact O'].
Qed.

Lemma shared_eta (s : Shared) :
  s = mkShared (sh_input s) (sh_output s) (sh_output_failed s) (sh_control s).
Proof. by destruct s. Qed.

Section Steps.
Context (g : Ghost) (sy : System).
Hypothesis W : setup_wf ec cfg source journal.
Hypothesis I : sys_inv g sy.
Hypothesis Hn : Z.of_nat (length (g_origins g)) <= u32_max.

(** The step is made, and the invariant holds after it. *)
Definition output_stepped : Prop :=
  exists g' sy', step cfg (ec_run_id ec) sy Output = Ret (sy', [])
    /\ sys_inv g' sy' /\ g_accepted g' = g_accepted g.

Lemma got_bound : Z.of_nat (length (g_got g)) <= u64_max.
Proof.
  destruct (out_bound g sy W I Hn) as [Hb1 Hb2].
  pose proof (prefix_length _ _ (proj1 (chan_ahead (pc_wait cfg) _ _ _ _ _ _ _ _ (si_out _ _ _ _ _ _ I)))). lia.
Qed.

Lemma output_open_step j : ot_pc (sy_output sy) = OtOpen j -> output_stepped.
Proof.
  intros Epc. pose proof I as [_ C _ _ _ O]. unfold output_stepped, step, output_step. rewrite Epc.
  exists (g_take g (g_got g) (g_handled g)). eexists. split; [done |]. split; [| done].
  assert (O' := open_journal_ok _ _ _ _ _ W Epc O). rewrite (shared_eta (sy_shared sy)) at 1.
  apply output_keeps; [done | | done].
  assert (E1 : output_popping (sy_output sy) = false) by (unfold output_popping; by rewrite Epc).
  assert (E2 : output_gone (sy_output sy) = false) by (unfold output_gone; by rewrite Epc).
  rewrite E1, E2 in C. unfold open_journal, output_popping, output_gone. destruct j; [done |].
  destruct (pc_journal_path cfg); [| done]. by destruct (Journal.create _ _ _).
Qed.

Lemma output_try_step pc : ot_pc (sy_output sy) = OtTry pc -> output_stepped.
Proof.
  intros Epc. pose proof I as [_ C _ _ _ O]. unfold output_stepped, step, output_step. rewrite Epc.
  assert (Epop : output_popping (sy_output sy) = holding (try_holds pc))
    by (unfold output_popping; by rewrite Epc).
  assert (Egone : output_gone (sy_output sy) = false) by (unfold output_gone; by rewrite Epc).
  rewrite Epop, Egone in C.
  destruct (try_step_ok (pc_wait cfg) _ _ _ _ _ _ _ _ C got_bound) as (c' & r & -> & Hr).
  destruct O as [Hrec Hg Hs Hp]. unfold output_pc_ok in Hp. rewrite Epc in Hp, Hg. simpl in Hg.
  destruct Hp as [He Hw]. destruct r as [pc' | [e |]].
  - destruct Hr as [Ht C']. exists (g_take g (g_got g ++ try_holds pc') (g_handled g)).
    eexists. split; [done |]. split; [| done]. apply output_moves; [done | done |].
    rewrite Ht in Hg. constructor; simpl; try done. by rewrite Hg, app_nil_r.
  - destruct Hr as [Ht C'].
    destruct (record_popped g sy c' e W I Hn) as (g' & t' & -> & I' & Ha); try done;
      [by rewrite Epc |]. exists g'. eexists. split; [done |]. done.
  - destruct Hr as (Ht & C' & _). exists (g_take g (g_got g) (g_handled g)).
    eexists. split; [done |]. split; [| done].
    destruct (drained_ok (sy_output sy) g (set_output (sy_shared sy) c')
                (output_dropped (sy_engine sy)) (rv_items (cview c')) pc Epc Ht)
      as (O' & E1 & E2).
    + apply C'.
    + constructor; try done; rewrite ?Epc; try done. unfold output_pc_ok. by rewrite Epc.
    + apply output_keeps; [done | | done]. by rewrite E1, E2.
Qed.

Lemma output_recv_step pc : ot_pc (sy_output sy) = OtReceive pc -> output_stepped.
Proof.
  intros Epc. pose proof I as [_ C _ _ _ O]. unfold output_stepped, step, output_step. rewrite Epc.
  assert (Epop : output_popping (sy_output sy) = holding (recv_holds pc))
    by (unfold output_popping; by rewrite Epc).
  assert (Egone : output_gone (sy_output sy) = false) by (unfold output_gone; by rewrite Epc).
  rewrite Epop, Egone in C.
  destruct O as [Hrec Hg Hs Hp]. unfold output_pc_ok in Hp. rewrite Epc in Hp, Hg. simpl in Hg.
  destruct Hp as (He & Hw & Hwait & Hlast).
  destruct (recv_step_ok (pc_wait cfg) _ _ _ _ _ _ _ _ C Hwait (sw_wait _ _ _ _ W) Hlast got_bound)
    as (c' & r & -> & Hr). cbn [rbind]. destruct r as [pc' | [e |]].
  - destruct Hr as (Ht & Hw' & Hl' & C'). exists (g_take g (g_got g ++ recv_holds pc') (g_handled g)).
    eexists. split; [done |]. split; [| done]. apply output_moves; [done | done |].
    rewrite Ht in Hg. constructor; simpl; try done. by rewrite Hg, app_nil_r.
  - destruct Hr as [Ht C'].
    destruct (record_popped g sy c' e W I Hn) as (g' & t' & -> & I' & Ha); try done;
      [by rewrite Epc |]. exists g'. eexists. split; [done |]. done.
  - destruct Hr as (Ht & C' & Hgone & Hall). exists (g_take g (g_got g) (g_handled g)).
    eexists. split; [done |]. split; [| done]. apply output_keeps; [done | done |].
    rewrite Ht in Hg. constructor; simpl; try done. unfold output_pc_ok. simpl. intros _.
    split_and!; try done. pose proof (co_items _ _ _ _ _ _ _ _ _ C') as Ei.
    rewrite Hall in Ei. rewrite <- (app_nil_r (g_got g)) in Ei at 2. by apply app_inv_head in Ei.
Qed.

End Steps.

Lemma output_step_inv g sy :
  setup_wf ec cfg source journal -> sys_inv g sy -> Z.of_nat (length (g_origins g)) <= u32_max ->
  exists g' sy', step cfg (ec_run_id ec) sy Output = Ret (sy', [])
    /\ sys_inv g' sy' /\ g_accepted g' = g_accepted g.
Proof.
  intros W I Hn. pose proof I as [_ C _ _ _ O].
  destruct (ot_pc (sy_output sy)) as [j | err | pc | pc | | | o | o] eqn:Epc.
  - by apply (output_open_step g sy W I j).
  - unfold step, output_step. rewrite Epc.
    exists (g_take g (g_got g) (g_handled g)). eexists. split; [done |]. split; [| done].
    apply output_keeps; [done | |].
    + by unfold output_popping, output_gone in *; rewrite Epc in C.
    + destruct O as [Hr Hg Hs Hp]. rewrite Epc in Hg. constructor; done.
  - by apply (output_try_step g sy W I Hn pc).
  - by apply (output_recv_step g sy W I Hn pc).
  - unfold step, output_step. rewrite Epc.
    exists (g_take g (g_got g) (g_handled g)). eexists. split; [done |]. split; [| done].
    apply output_keeps; [done | |].
    + by unfold output_popping, output_gone in *; rewrite Epc in C.
    + destruct O as [Hr Hg Hs Hp]. rewrite Epc in Hg. constructor; try done.
      unfold output_pc_ok in *. rewrite Epc in Hp. simpl. destruct Hp as [? ->]. done.
  - unfold step, output_step. rewrite Epc.
    exists (g_take g (g_got g) (g_handled g)). eexists. split; [done |]. split; [| done].
    destruct (finish_output_ok _ _ _ _ Epc O) as (O' & E1 & E2). rewrite (shared_eta (sy_shared sy)) at 1.
    apply output_keeps; [done | | done]. rewrite E1, E2.
    by unfold output_popping, output_gone in *; rewrite Epc in C.
  - unfold step, output_step. rewrite Epc.
    exists (g_take g (g_got g) (g_handled g)). eexists. split; [done |]. split; [| done].
    unfold output_popping, output_gone in C. rewrite Epc in C.
    assert (C' := close_receiver_ok (pc_wait cfg) _ _ _ _ _ _ _ _ C).
    apply output_keeps; [done | done |]. rewrite (chan_items (pc_wait cfg) _ _ _ _ _ _ _ _ _ _ _ _ _ _ C C').
    destruct O as [Hr Hg Hs Hp]. rewrite Epc in Hg. constructor; try done.
    unfold output_pc_ok in *. rewrite Epc in Hp. done.
  - unfold step, output_step. rewrite Epc. exists g, sy. split; [by destruct sy |]. done.
Qed.

End Out.
