(* ===== verification/PipelineEng.v ===== *)
(** The engine thread applies the feed's inputs and the control commands as one
    numbered stream, and its outputs leave in order. *)

From S2P Require Import Prelude Enums Ids Events BTree Slab Book Market MarketInv MarketTheorems.
From S2P Require Import Account Config CoreState Core CoreApply CoreRun Read Canonical Codec.
From S2P Require Import CanonicalProps CodecProps Wire Journal Queue QueueProps Replay ReplayTheorems Snapshot.
From S2P Require Import Pipeline PipelineInv PipelineFeed.

Section Eng.
Context {P : Platform} {PL : PlatformLaws P}.
Context (ec : EngineConfig) (cfg : PipelineConfig) (source : FeedSource).
Context (journal : option (Journal.JournalWriter (W := FileSink))).
Hypothesis W : setup_wf ec cfg source journal.

Abbreviation sys_inv := (PipelineInv.sys_inv ec cfg source journal) (only parsing).
Abbreviation engine_ok := (PipelineInv.engine_ok ec cfg) (only parsing).
Abbreviation sequenced := (PipelineInv.sequenced ec cfg) (only parsing).

(** * Applying one input *)

Lemma sequence_ok os out q o :
  sequenced os out q -> Z.of_nat (length os) < u32_max -> Forall input_wf (fed (os ++ [o])) ->
  exists q', sequence q (origin_event o)
               (match o with FromFeed i => Some (in_recv_time_ns i) | _ => None end) = Ret q'
    /\ sequenced (os ++ [o]) (out ++ sq_batch q') q'.
Proof.
  intros [Hr Hi Hs Ho Ht Hd Hc] Hn Hwf. unfold sequence.
  assert (Ei : dr_inputs (sq_recorder q) = Z.of_nat (length os))
    by (rewrite (rc_ins _ _ _ Hd), stamped_length; done).
  rewrite Ei, u64_plain_in by mach. cbn [rbind].
  set (input := mkEngineInput _ _ _).
  assert (Es : stamped (os ++ [o]) = stamped os ++ [input]).
  { rewrite stamped_snoc. unfold input. do 3 f_equal. destruct o; simpl; done. }
  destruct (record_input_ok (sq_recorder q) (stamped os) [] input Hd) as (d & -> & Hd').
  { rewrite stamped_length. mach. }
  cbn [rbind].
  assert (Hiw : input_wf input).
  { pose proof (stamped_wf _ Hwf) as H. rewrite Es in H. by apply Forall_app in H as [_ [H _]%Forall_cons]. }
  destruct (apply_input_ok (sq_core q) input Hi) as (c & batch & Ea & [Hi' Hs' Ht' _ Ho']); [lia | done |].
  rewrite Ea. cbn [rbind]. eexists. split; [done |]. constructor; simpl; rewrite ?Es; try done.
  - rewrite engine_run_app, Hr. cbn [rbind engine_run]. rewrite Ea. cbn [rbind]. by rewrite app_nil_r.
  - rewrite Hs', Hs, length_app. simpl. lia.
  - rewrite Ho', Ho, length_app. lia.
  - rewrite Ht', clock_of_snoc. unfold input. simpl. rewrite Ht. by destruct o.
  - rewrite Hc. by destruct (pc_capture_inputs cfg).
Qed.

(** * The other threads under an engine step *)

Lemma feed_ok_mono sent b1 b2 b1' b2' t :
  (b1 = true -> b1' = true) -> (b2 = true -> b2' = true) ->
  feed_ok cfg source sent b1 b2 t -> feed_ok cfg source sent b1' b2' t.
Proof.
  intros H1 H2. unfold feed_ok. destruct (fd_pc t); try done; intros (? & [? | ?] & [? | ?]);
    split_and!; auto.
Qed.

Lemma output_ok_open g pg items items' t :
  output_ok ec cfg journal g false items t -> output_ok ec cfg journal g pg items' t.
Proof.
  intros [Hr Hg Hs Hp]. constructor; try done. unfold output_pc_ok in *.
  destruct (ot_pc t) as [| | | r | | | |]; try done; try (intros He; by destruct (Hp He) as (_ & ? & _)).
  destruct Hp as (? & ? & ? & Hl). split_and!; try done. by destruct r.
Qed.

Lemma engine_moves g g' sy s' t' :
  sys_inv g sy -> output_dropped (sy_engine sy) = false ->
  g_sent g' = g_sent g -> g_got g' = g_got g -> g_handled g' = g_handled g ->
  g_accepted g' = g_accepted g ->
  channel_ok (pc_wait cfg) (sh_input s') (pc_input_capacity cfg) (g_sent g) (g_taken g')
    (feed_counting (sy_feed sy)) (engine_popping t') (feed_gone (sy_feed sy)) (input_dropped t') ->
  channel_ok (pc_wait cfg) (sh_output s') (pc_output_capacity cfg) (g_pushed g') (g_got g)
    (engine_counting t') (output_popping (sy_output sy)) (output_dropped t')
    (output_gone (sy_output sy)) ->
  queued (g_origins g') ++ aq_items (ctl_commands (sh_control s')) = g_accepted g ->
  (ctl_shutdown (sh_control (sy_shared sy)) = true -> ctl_shutdown (sh_control s') = true) ->
  (et_output_lost (sy_engine sy) = true -> et_output_lost t' = true) ->
  engine_ok g' (ctl_shutdown (sh_control s')) (feed_gone (sy_feed sy))
    (rv_items (cview (sh_input s'))) t' ->
  sys_inv g' (mkSystem s' (sy_feed sy) t' (sy_output sy)).
Proof.
  intros [Ci Co Hc F E O] Hopen Es Eg Eh Ea Ci' Co' Hc' Hsh Hlost E'.
  constructor; simpl; rewrite ?Es, ?Eg, ?Ea; try done.
  - by eapply feed_ok_mono; [.. | exact F].
  - rewrite Hopen in O. eapply output_ok_ext; [.. | by eapply output_ok_open, O]; done.
Qed.

(** ** The ghost state *)

Definition g_pop (g : Ghost) (taken : list EngineInput) : Ghost :=
  mkGhost (g_origins g) (g_sent g) taken (g_out g) (g_pushed g) (g_got g) (g_handled g)
    (g_accepted g).

Definition g_push (g : Ghost) (pushed : list OutputEvent.t) : Ghost :=
  mkGhost (g_origins g) (g_sent g) (g_taken g) (g_out g) pushed (g_got g) (g_handled g)
    (g_accepted g).

Definition g_apply (g : Ghost) (o : Origin) (batch : list OutputEvent.t) : Ghost :=
  mkGhost (g_origins g ++ [o]) (g_sent g) (g_taken g) (g_out g ++ batch) (g_pushed g) (g_got g)
    (g_handled g) (g_accepted g).

(** * Steps inside the loop *)

(** What the engine thread's state says in the loop. *)
Lemma engine_loop g sy :
  sys_inv g sy -> in_loop (et_pc (sy_engine sy)) = true ->
  et_output_lost (sy_engine sy) = false
  /\ g_taken g = fed (g_origins g) ++ engine_holds (et_pc (sy_engine sy))
  /\ g_out g = g_pushed g ++ engine_unsent (et_pc (sy_engine sy))
  /\ output_dropped (sy_engine sy) = false /\ input_dropped (sy_engine sy) = false.
Proof.
  intros [_ _ _ _ E _] Hl. destruct (et_output_lost (sy_engine sy)) eqn:El.
  - pose proof (eo_loop _ _ _ _ _ _ _ E El). congruence.
  - pose proof (eo_feed _ _ _ _ _ _ _ E) as H1. pose proof (eo_out _ _ _ _ _ _ _ E) as H2.
    rewrite El in H1, H2. unfold output_dropped, input_dropped.
    destruct (et_pc (sy_engine sy)); by split_and!.
Qed.

(** The input in hand leaves room for what is applied before it and for it. *)
Lemma apply_room g sy p :
  sys_inv g sy -> in_budget source g -> in_loop (et_pc (sy_engine sy)) = true ->
  engine_holds (et_pc (sy_engine sy)) = [p] ->
  Z.of_nat (length (g_origins g)) < u32_max
  /\ Forall input_wf (fed (g_origins g) ++ [p]).
Proof.
  intros I Hb Hl Hp. destruct (engine_loop g sy I Hl) as (El & Et & _ & _).
  pose proof I as [Ci _ Hc F E _]. rewrite Hp in Et.
  assert (Hpre : g_taken g `prefix_of` feed_inputs source).
  { transitivity (g_sent g); [by eapply chan_ahead | by eapply feed_sent_prefix]. }
  pose proof (prefix_length _ _ Hpre) as Hlen. rewrite Et, length_app in Hlen. simpl in Hlen.
  pose proof (eo_latch _ _ _ _ _ _ _ E) as Hlat. rewrite El in Hlat.
  assert (Hread : (latch_read (et_pc (sy_engine sy)) <= 1)%nat)
    by (destruct (et_pc (sy_engine sy)) as [| | | | [] | | | | | | |]; simpl; lia).
  rewrite <- Et. split.
  - rewrite origins_length. unfold in_budget in Hb. rewrite <- Hc, length_app in Hb. lia.
  - destruct Hpre as [rest Er]. pose proof (feed_inputs_wf source (sw_source _ _ _ _ W)) as Hwf.
    rewrite Er in Hwf. by apply Forall_app in Hwf as [? _].
Qed.

(** The thread after [Engine::apply] has returned true: nothing is left to
    send, and the loop goes on. *)
Lemma resume_ok s t after :
  exists t', resume cfg s t after = Ret t' /\ et_sequencer t' = et_sequencer t
    /\ et_output_lost t' = et_output_lost t
    /\ match after with
       | AfterControl p => et_pc t' = EnCommands p
       | AfterInput => et_pc t' = EnPublish false \/ et_pc t' = EnReceive (recv (sh_input s))
       end.
Proof.
  unfold resume. destruct after as [p |]; [by eexists |].
  destruct (Z.ltb_spec 0 (pc_snapshot_interval cfg)).
  - rewrite u64_rem_ok by lia. cbn [rbind]. eexists. split; [done |]. simpl. split_and!; try done.
    case_match; auto.
  - eexists. split; [done |]. simpl. auto.
Qed.

Definition held_after (after : AfterApply) : list EngineInput :=
  match after with AfterControl p => [p] | AfterInput => [] end.

(** An engine thread in the loop, between two calls. *)
Definition running (t : EngineThread) : Prop :=
  et_output_lost t = false /\ in_loop (et_pc t) = true /\ engine_popping t = false
  /\ engine_counting t = Counted /\ input_dropped t = false /\ output_dropped t = false.

Lemma send_batch_ok g s t after batch shutdown pg items :
  sequenced (g_origins g) (g_out g) (et_sequencer t) -> et_output_lost t = false ->
  g_out g = g_pushed g ++ batch -> g_taken g = fed (g_origins g) ++ held_after after ->
  (length (latched (g_origins g)) <= length (fed (g_origins g)) + length (held_after after))%nat ->
  ch_strategy (sh_input s) = pc_wait cfg -> ch_strategy (sh_output s) = pc_wait cfg ->
  exists t', send_batch cfg s t after batch = Ret t' /\ running t'
    /\ engine_ok g shutdown pg items t'.
Proof.
  intros Hq El Ho Ht Hl Hi Hout. unfold send_batch. destruct batch as [| e rest].
  - destruct (resume_ok s t after) as (t' & -> & Eq & El' & Hpc). exists t'. split; [done |].
    unfold running. rewrite El', El.
    destruct after as [p |]; [| destruct Hpc as [Hpc | Hpc]].
    all: unfold engine_popping, engine_counting, input_dropped, output_dropped; rewrite Hpc;
      (split; [by split_and! |]); constructor; rewrite ?Eq, ?El', ?El, ?Hpc; try done;
      unfold engine_pc_ok; rewrite Hpc; try done; by rewrite <- Hi.
  - eexists. split; [done |]. split; [by unfold running |].
    constructor; simpl; rewrite ?El; try done; by destruct after.
Qed.

(** [Engine::apply] is called with an origin. *)
Lemma apply_event_ok g sy s' o after :
  sys_inv g sy -> in_budget source g -> in_loop (et_pc (sy_engine sy)) = true ->
  engine_unsent (et_pc (sy_engine sy)) = [] ->
  engine_holds (et_pc (sy_engine sy)) = fed [o] ++ held_after after ->
  (latch_read (et_pc (sy_engine sy)) + length (latched [o]) <= length (fed [o]) + length (held_after after))%nat ->
  ch_strategy (sh_input s') = pc_wait cfg -> ch_strategy (sh_output s') = pc_wait cfg ->
  length (engine_holds (et_pc (sy_engine sy))) = 1%nat ->
  exists t' batch,
    apply_event cfg s' (sy_engine sy) (origin_event o)
      (match o with FromFeed i => Some (in_recv_time_ns i) | _ => None end) after = Ret t'
    /\ running t' /\ forall shutdown pg items, engine_ok (g_apply g o batch) shutdown pg items t'.
Proof.
  intros I Hb Hl Hu Hh Hlat Hi Ho Hone. destruct (engine_loop g sy I Hl) as (El & Et & Eo & _).
  rewrite Hu, app_nil_r in Eo. pose proof (si_engine _ _ _ _ _ _ I) as E.
  pose proof (eo_latch _ _ _ _ _ _ _ E) as Hlat0. rewrite El in Hlat0.
  destruct (engine_holds (et_pc (sy_engine sy))) as [| p [|]] eqn:Ep; try done.
  destruct (apply_room g sy p I Hb Hl Ep) as [Hroom Hwf].
  destruct (sequence_ok _ _ _ o (eo_sequenced _ _ _ _ _ _ _ E) Hroom) as (q' & Eq & Hq).
  { rewrite fed_snoc. pose proof (proj1 (Forall_app _ _ _) Hwf) as [Hwf' _].
    destruct o as [i | |]; simpl in Hh |- *; [| by rewrite app_nil_r..].
    injection Hh as -> _. done. }
  assert (Hbatch : forall shutdown pg items,
    exists t', send_batch cfg s' (mkEngineThread (et_pc (sy_engine sy)) q' false) after (sq_batch q')
               = Ret t' /\ running t'
      /\ engine_ok (g_apply g o (sq_batch q')) shutdown pg items t').
  { intros shutdown pg items. apply send_batch_ok; simpl; try done.
    - by rewrite Eo.
    - by rewrite Et, fed_snoc, <- app_assoc, <- Hh.
    - rewrite latched_snoc, fed_snoc, !length_app. lia. }
  destruct (Hbatch false false []) as (t' & Es & Hr & _).
  exists t', (sq_batch q'). unfold apply_event. rewrite Eq. cbn [rbind]. rewrite El.
  split; [done |]. split; [done |]. intros shutdown pg items.
  destruct (Hbatch shutdown pg items) as (t'' & Es' & _ & E'). rewrite Es in Es'. by simplify_eq.
Qed.

(** The system after such a call. *)
Lemma applied_moves g sy s' o batch t' :
  sys_inv g sy -> in_loop (et_pc (sy_engine sy)) = true -> engine_popping (sy_engine sy) = false ->
  engine_counting (sy_engine sy) = Counted -> running t' ->
  (forall shutdown pg items, engine_ok (g_apply g o batch) shutdown pg items t') ->
  sh_input s' = sh_input (sy_shared sy) -> sh_output s' = sh_output (sy_shared sy) ->
  ctl_shutdown (sh_control s') = ctl_shutdown (sh_control (sy_shared sy)) ->
  queued [o] ++ aq_items (ctl_commands (sh_control s'))
  = aq_items (ctl_commands (sh_control (sy_shared sy))) ->
  sys_inv (g_apply g o batch) (mkSystem s' (sy_feed sy) t' (sy_output sy)).
Proof.
  intros I Hl Hp Hc Hr E' Ei Eo Es Eq. destruct (engine_loop g sy I Hl) as (El & _ & _ & Hd & Hdi).
  destruct Hr as (El' & _ & Hp' & Hc' & Hdi' & Hd'). pose proof I as [Ci Co Hcmd _ _ _].
  apply (engine_moves g); try done; rewrite ?Ei, ?Eo, ?Es, ?Hp', ?Hc', ?Hdi', ?Hd'; simpl; try done.
  - by rewrite Hp, Hdi in Ci.
  - by rewrite Hc, Hd in Co.
  - by rewrite queued_snoc, <- app_assoc, Eq.
  - congruence.
Qed.

(** A step that leaves the channels and the commands alone. *)
Lemma engine_stays g sy s' t' :
  sys_inv g sy ->
  engine_popping t' = engine_popping (sy_engine sy) ->
  engine_counting t' = engine_counting (sy_engine sy) ->
  input_dropped t' = input_dropped (sy_engine sy) ->
  output_dropped t' = false -> output_dropped (sy_engine sy) = false ->
  sh_input s' = sh_input (sy_shared sy) -> sh_output s' = sh_output (sy_shared sy) ->
  aq_items (ctl_commands (sh_control s')) = aq_items (ctl_commands (sh_control (sy_shared sy))) ->
  (ctl_shutdown (sh_control (sy_shared sy)) = true -> ctl_shutdown (sh_control s') = true) ->
  (et_output_lost (sy_engine sy) = true -> et_output_lost t' = true) ->
  engine_ok g (ctl_shutdown (sh_control s')) (feed_gone (sy_feed sy))
    (rv_items (cview (sh_input (sy_shared sy)))) t' ->
  sys_inv g (mkSystem s' (sy_feed sy) t' (sy_output sy)).
Proof.
  intros I Ep Ec Ed Eo Eo' Ei Eout Eq Hs Hl E'. pose proof I as [Ci Co Hc _ _ _].
  apply (engine_moves g); rewrite ?Ei, ?Eout, ?Eq, ?Ep, ?Ec, ?Ed, ?Eo; try done.
  by rewrite Eo' in Co.
Qed.

(** What a thread that leaves the loop because its output is lost keeps. *)
Lemma lose_output_ok g sy shutdown pg items :
  sys_inv g sy -> in_loop (et_pc (sy_engine sy)) = true ->
  engine_ok g shutdown pg items (lose_output (sy_engine sy)).
Proof.
  intros I Hl. destruct (engine_loop g sy I Hl) as (El & Et & Eo & _).
  pose proof (si_engine _ _ _ _ _ _ I) as E. destruct E as [Hq _ _ Hlat _ _ _ _].
  rewrite El in Hlat. constructor; simpl; try done.
  - rewrite Et. by apply prefix_app_r.
  - rewrite Eo. by apply prefix_app_r.
  - destruct (et_pc (sy_engine sy)) as [| | | | [] | | | | | | |]; simpl in Hlat; lia.
  - by left.
Qed.

(** An engine thread that has left the loop. *)
Lemma engine_leaves g t t' shutdown shutdown' pg items :
  engine_ok g shutdown pg items t -> in_loop (et_pc t) = false -> in_loop (et_pc t') = false ->
  et_sequencer t' = et_sequencer t -> et_output_lost t' = et_output_lost t ->
  (shutdown = true \/ et_pc t = EnShutdown -> shutdown' = true) ->
  engine_pc_ok cfg t' pg -> engine_ok g shutdown' pg items t'.
Proof.
  intros [Hq Hf Ho Hl _ Hs Hleft _] Hin Hin' Eq El Hsh Hpc.
  assert (Hnone : engine_holds (et_pc t) = [] /\ engine_unsent (et_pc t) = []
                  /\ latch_read (et_pc t) = 0%nat) by (by destruct (et_pc t)).
  assert (Hnone' : engine_holds (et_pc t') = [] /\ engine_unsent (et_pc t') = []
                   /\ latch_read (et_pc t') = 0%nat) by (by destruct (et_pc t')).
  destruct Hnone as (E1 & E2 & E3), Hnone' as (E1' & E2' & E3'). rewrite E1, E2, E3 in *.
  constructor; rewrite ?Eq, ?El, ?E1', ?E2', ?E3'; try done.
  - intros Hlost. right. apply Hsh. destruct (Hs Hlost); auto.
  - intros Hlost _. by apply Hleft.
Qed.

Abbreviation stepped g sy :=
  (exists g' sy', step cfg (ec_run_id ec) sy EngineA = Ret (sy', [])
     /\ sys_inv g' sy' /\ g_accepted g' = g_accepted g) (only parsing).

Lemma engine_receive_ok g sy r :
  in_budget source g -> sys_inv g sy -> et_pc (sy_engine sy) = EnReceive r -> stepped g sy.
Proof.
  intros Hb I Epc. assert (Hl : in_loop (et_pc (sy_engine sy)) = true) by by rewrite Epc.
  destruct (engine_loop g sy I Hl) as (El & Et & Eo & Hd & Hdi).
  pose proof I as [Ci Co Hc F E _]. rewrite Epc in Et, Eo. simpl in Et, Eo.
  assert (Ep : engine_popping (sy_engine sy) = holding (recv_holds r))
    by (unfold engine_popping; by rewrite Epc).
  assert (Ecnt : engine_counting (sy_engine sy) = Counted) by (unfold engine_counting; by rewrite Epc).
  rewrite Ep, Hdi in Ci. rewrite Ecnt, Hd in Co.
  pose proof E as [Hq _ _ Hlat _ _ _ Hpc]. rewrite El, Epc in Hlat.
  unfold engine_pc_ok in Hpc. rewrite Epc in Hpc. destruct Hpc as [Hw Hlast].
  destruct (recv_step_ok (pc_wait cfg) _ _ _ _ _ _ _ _ Ci Hw (sw_wait _ _ _ _ W) Hlast) as (c' & x & Ex & Hx).
  { pose proof (prefix_length _ _ (feed_sent_prefix _ _ _ _ _ _ F)).
    pose proof (prefix_length _ _ (proj1 (chan_ahead (pc_wait cfg) _ _ _ _ _ _ _ _ Ci))).
    unfold in_budget in Hb. mach. }
  unfold step, engine_step. rewrite Epc, Ex. cbn [rbind]. destruct x as [r' | [p |]].
  - destruct Hx as (Hr & Hw' & Hl' & C'). rewrite Hr, app_nil_r in Et.
    exists (g_pop g (g_taken g ++ recv_holds r')). eexists. split; [done |]. split; [| done].
    apply (engine_moves g); simpl; try done. constructor; simpl; rewrite ?El; try done.
    + by rewrite Et.
  - destruct Hx as (Hr & C'). rewrite Hr in Et. exists g. eexists. split; [done |]. split; [| done].
    apply (engine_moves g); simpl; try done. constructor; simpl; rewrite ?El; try done.
  - destruct Hx as (Hr & C' & Hgone & Hall). rewrite Hr, app_nil_r in Et. exists g. eexists.
    split; [done |]. split; [| done].
    assert (Hitems : rv_items (cview c') = []).
    { pose proof (co_items _ _ _ _ _ _ _ _ _ C') as Hi. rewrite Hall in Hi.
      rewrite <- (app_nil_r (g_taken g)) in Hi at 2. by apply app_inv_head in Hi. }
    unfold after_loop. destruct (0 <? pc_snapshot_interval cfg);
      (apply (engine_moves g); simpl; try done); constructor; simpl; rewrite ?El; try done;
      by rewrite ?app_nil_r.
Qed.

Lemma engine_check_ok g sy p :
  sys_inv g sy -> et_pc (sy_engine sy) = EnCheckFailed p -> stepped g sy.
Proof.
  intros I Epc. assert (Hl : in_loop (et_pc (sy_engine sy)) = true) by by rewrite Epc.
  destruct (engine_loop g sy I Hl) as (El & Et & Eo & Hd & Hdi). rewrite Epc in Et, Eo.
  assert (Hp : engine_popping (sy_engine sy) = false) by (unfold engine_popping; by rewrite Epc).
  assert (Hc : engine_counting (sy_engine sy) = Counted) by (unfold engine_counting; by rewrite Epc).
  exists g. unfold step, engine_step. rewrite Epc. cbn [rbind]. eexists. split; [done |].
  split; [| done]. pose proof (si_engine _ _ _ _ _ _ I) as E.
  destruct (sh_output_failed (sy_shared sy)).
  - apply engine_stays; rewrite ?Hp, ?Hc, ?Hdi; try done. by apply lose_output_ok.
  - apply engine_stays; rewrite ?Hp, ?Hc, ?Hdi; try done.
    destruct E as [Hq _ _ Hlat _ _ _ _]. rewrite El, Epc in Hlat.
    constructor; simpl; rewrite ?El; try done.
Qed.

Lemma engine_kill_ok g sy p :
  in_budget source g -> sys_inv g sy -> et_pc (sy_engine sy) = EnCheckKill p -> stepped g sy.
Proof.
  intros Hb I Epc. assert (Hl : in_loop (et_pc (sy_engine sy)) = true) by by rewrite Epc.
  destruct (engine_loop g sy I Hl) as (El & Et & Eo & Hd & Hdi). rewrite Epc in Et, Eo.
  pose proof I as [Ci Co _ _ E _].
  assert (Hp : engine_popping (sy_engine sy) = false) by (unfold engine_popping; by rewrite Epc).
  assert (Hc : engine_counting (sy_engine sy) = Counted) by (unfold engine_counting; by rewrite Epc).
  unfold step, engine_step. rewrite Epc. destruct (Bool.eqb _ _).
  - exists g. eexists. split; [done |]. split; [| done].
    apply engine_stays; rewrite ?Hp, ?Hc, ?Hdi; try done.
    destruct E as [Hq _ _ Hlat _ _ _ _]. rewrite El, Epc in Hlat.
    constructor; simpl; rewrite ?El; try done. simpl in Hlat. lia.
  - destruct (apply_event_ok g sy (sy_shared sy) (FromLatch (kill_engaged (sh_control (sy_shared sy))))
                (AfterControl p) I Hb Hl) as (t' & batch & Ea & Hr & E'); rewrite ?Epc; try done.
    { apply Ci. } { apply Co. }
    exists (g_apply g (FromLatch (kill_engaged (sh_control (sy_shared sy)))) batch).
    simpl in Ea. rewrite Ea. cbn [rbind]. eexists. split; [done |]. split; [| done].
    by apply applied_moves.
Qed.

Lemma engine_commands_ok g sy p :
  in_budget source g -> sys_inv g sy -> et_pc (sy_engine sy) = EnCommands p -> stepped g sy.
Proof.
  intros Hb I Epc. assert (Hl : in_loop (et_pc (sy_engine sy)) = true) by by rewrite Epc.
  pose proof I as [Ci Co _ _ _ _].
  assert (Hp : engine_popping (sy_engine sy) = false) by (unfold engine_popping; by rewrite Epc).
  assert (Hc : engine_counting (sy_engine sy) = Counted) by (unfold engine_counting; by rewrite Epc).
  unfold step, engine_step. rewrite Epc.
  destruct (aq_items (ctl_commands (sh_control (sy_shared sy)))) as [| cmd cmds] eqn:Eq.
  - rewrite (aq_pop_empty _ Eq).
    set (s' := set_control _ _).
    destruct (apply_event_ok g sy s' (FromFeed p) AfterInput I Hb Hl)
      as (t' & batch & Ea & Hr & E'); rewrite ?Epc; try done.
    { apply Ci. } { apply Co. }
    exists (g_apply g (FromFeed p) batch). simpl in Ea. rewrite Ea. cbn [rbind].
    eexists. split; [done |]. split; [| done]. apply applied_moves; try done.
  - destruct (aq_pop_ok _ _ _ Eq) as (E1 & E2 & E3).
    destruct (aq_pop (ctl_commands (sh_control (sy_shared sy)))) as [q o]. simpl in E1, E2. subst o.
    set (s' := set_control _ _).
    destruct (apply_event_ok g sy s' (FromQueue cmd) (AfterControl p) I Hb Hl)
      as (t' & batch & Ea & Hr & E'); rewrite ?Epc; try done.
    { apply Ci. } { apply Co. }
    exists (g_apply g (FromQueue cmd) batch). simpl in Ea. rewrite Ea. cbn [rbind].
    eexists. split; [done |]. split; [| done]. apply applied_moves; try done. simpl.
    by rewrite Eq, E2.
Qed.

Lemma engine_send_ok g sy after pc rest :
  sys_inv g sy -> Z.of_nat (length (g_pushed g)) <= u64_max ->
  et_pc (sy_engine sy) = EnSend after pc rest -> stepped g sy.
Proof.
  intros I Hlen Epc. assert (Hl : in_loop (et_pc (sy_engine sy)) = true) by by rewrite Epc.
  destruct (engine_loop g sy I Hl) as (El & Et & Eo & Hd & Hdi). rewrite Epc in Et, Eo.
  pose proof I as [Ci Co Hc F E _].
  assert (Hp : engine_popping (sy_engine sy) = false) by (unfold engine_popping; by rewrite Epc).
  assert (Hcnt : engine_counting (sy_engine sy) = counting_pc pc)
    by (unfold engine_counting; rewrite Epc; by destruct pc).
  rewrite Hp, Hdi in Ci. rewrite Hcnt, Hd in Co.
  pose proof E as [Hq _ _ Hlat _ _ _ Hpc]. rewrite El, Epc in Hlat.
  unfold engine_pc_ok in Hpc. rewrite Epc in Hpc.
  destruct (send_step_ok (pc_wait cfg) _ _ _ _ _ _ _ _ Co Hpc (sw_wait _ _ _ _ W) Hlen) as (c' & r & Es & Hr).
  unfold step, engine_step. rewrite Epc, Es. cbn [rbind]. destruct r as [pc' | []].
  - destruct Hr as (pushed' & C' & Hw' & Hs). exists (g_push g pushed'). eexists.
    split; [done |]. split; [| done]. apply (engine_moves g); simpl; try done.
    constructor; simpl; rewrite ?El; try done.
    rewrite Eo. simpl. by rewrite !app_assoc, Hs.
  - destruct Hr as (C' & Hh & _). simpl in Eo. rewrite Hh in Eo.
    destruct (send_batch_ok g (set_output (sy_shared sy) c') (sy_engine sy) after rest
                (ctl_shutdown (sh_control (sy_shared sy))) (feed_gone (sy_feed sy))
                (rv_items (cview (sh_input (sy_shared sy)))) Hq El Eo) as (t' & Eb & Hrun & E').
    { by destruct after. } { by destruct after. } { apply Ci. } { apply C'. }
    exists g. rewrite Eb. cbn [rbind]. eexists. split; [done |]. split; [| done].
    destruct Hrun as (El' & _ & Hp' & Hc' & Hdi' & Hd').
    apply (engine_moves g); simpl; rewrite ?Hp', ?Hc', ?Hdi', ?Hd'; try done. congruence.
  - destruct Hr as (C' & Hg & Hn). exists g. eexists. split; [done |]. split; [| done].
    apply (engine_moves g); simpl; try done. by apply lose_output_ok.
Qed.

(** A snapshot has been published: the loop goes on, or the thread ends. *)
Lemma published_ok g sy s' last :
  sys_inv g sy ->
  et_pc (sy_engine sy) = EnPublish last \/ et_pc (sy_engine sy) = EnCountDrop last ->
  sh_input s' = sh_input (sy_shared sy) -> sh_output s' = sh_output (sy_shared sy) ->
  aq_items (ctl_commands (sh_control s')) = aq_items (ctl_commands (sh_control (sy_shared sy))) ->
  ctl_shutdown (sh_control s') = ctl_shutdown (sh_control (sy_shared sy)) ->
  sys_inv g (mkSystem s' (sy_feed sy) (published s' (sy_engine sy) last) (sy_output sy))
  /\ sys_inv g (mkSystem s' (sy_feed sy) (et_at (sy_engine sy) (EnCountDrop last)) (sy_output sy)).
Proof.
  intros I Hpc Ei Eo Ec Es. pose proof I as [Ci _ _ _ E _].
  assert (Hst : ch_strategy (sh_input s') = pc_wait cfg) by (rewrite Ei; apply Ci).
  assert (Hkeep : forall t', et_sequencer t' = et_sequencer (sy_engine sy) ->
    et_output_lost t' = et_output_lost (sy_engine sy) ->
    et_pc t' = EnCountDrop last \/ et_pc t' = (if last then EnFinish else EnReceive (recv (sh_input s'))) ->
    sys_inv g (mkSystem s' (sy_feed sy) t' (sy_output sy))).
  { intros t' Eq El Ht. destruct last.
    - apply engine_stays; rewrite ?Es; try done.
      all: try (unfold engine_popping, engine_counting, input_dropped, output_dropped;
        destruct Hpc as [Hx | Hx], Ht as [Hy | Hy]; rewrite ?Hx, ?Hy; done).
      { congruence. }
      apply (engine_leaves g (sy_engine sy) t' _ _ _ _ E); try done.
      + by destruct Hpc as [-> | ->].
      + by destruct Ht as [-> | ->].
      + intros [? | Hx]; [done |]. rewrite Hx in Hpc. by destruct Hpc.
      + unfold engine_pc_ok. by destruct Ht as [-> | ->].
    - assert (Hl : in_loop (et_pc (sy_engine sy)) = true) by by destruct Hpc as [-> | ->].
      destruct (engine_loop g sy I Hl) as (El0 & Et & Eout & _). destruct E as [Hq _ _ Hlat _ _ _ _].
      assert (Hnone : engine_holds (et_pc (sy_engine sy)) = []
                      /\ engine_unsent (et_pc (sy_engine sy)) = []
                      /\ latch_read (et_pc (sy_engine sy)) = 0%nat) by by destruct Hpc as [-> | ->].
      destruct Hnone as (E1 & E2 & E3). rewrite E1 in Et. rewrite E2 in Eout. rewrite El0, E3 in Hlat.
      apply engine_stays; rewrite ?Es; try done.
      all: try (unfold engine_popping, engine_counting, input_dropped, output_dropped;
        destruct Hpc as [Hx | Hx], Ht as [Hy | Hy]; rewrite ?Hx, ?Hy; done).
      { congruence. }
      constructor; rewrite ?Eq, ?El, ?El0; try done;
        try (destruct Ht as [-> | ->]; simpl; by rewrite ?Et, ?Eout).
      unfold engine_pc_ok. destruct Ht as [-> | ->]; [done |]. by rewrite <- Hst. }
  split; apply Hkeep; try done; [by right | by left].
Qed.

Lemma engine_publish_ok g sy last :
  sys_inv g sy ->
  et_pc (sy_engine sy) = EnPublish last \/ et_pc (sy_engine sy) = EnCountDrop last -> stepped g sy.
Proof.
  intros I Hpc. exists g. unfold step, engine_step. destruct Hpc as [Epc | Epc]; rewrite Epc.
  - destruct (capture_ok (sq_core (et_sequencer (sy_engine sy))) (pc_snapshot_depth cfg))
      as (snap & -> & _); [apply (eo_sequenced _ _ _ _ _ _ _ (si_engine _ _ _ _ _ _ I)) | apply W |].
    cbn [rbind]. destruct (aq_force_push _ snap) as [q [old |]]; eexists; (split; [done |]);
      (split; [| done]); apply published_ok; auto.
  - eexists. split; [done |]. split; [| done]. apply published_ok; auto.
Qed.

Lemma outcome_total t g shutdown pg items :
  engine_ok g shutdown pg items t -> exists o, outcome t = Ret o.
Proof.
  intros E. unfold outcome.
  destruct (state_view_total _ (sq_inv _ _ _ _ _ (eo_sequenced _ _ _ _ _ _ _ E))) as [v Hv].
  rewrite (state_digest_view _ _ Hv). by eexists.
Qed.

(** The steps after the loop. *)
Lemma engine_end_ok g sy :
  sys_inv g sy -> in_loop (et_pc (sy_engine sy)) = false ->
  (forall last, et_pc (sy_engine sy) <> EnPublish last) ->
  (forall last, et_pc (sy_engine sy) <> EnCountDrop last) -> stepped g sy.
Proof.
  intros I Hl Hp Hc. pose proof I as [Ci Co Hq F E O]. pose proof (eo_pc _ _ _ _ _ _ _ E) as Hpc.
  exists g. unfold step, engine_step. unfold engine_pc_ok in Hpc.
  unfold engine_popping, engine_counting, input_dropped, output_dropped in *.
  destruct (et_pc (sy_engine sy)) eqn:Epc; try done; try (by edestruct Hp); try (by edestruct Hc).
  - eexists. split; [done |]. split; [| done]. unfold after_loop.
    destruct (0 <? pc_snapshot_interval cfg);
      (apply engine_stays; unfold engine_popping, engine_counting, input_dropped, output_dropped;
       rewrite ?Epc; try done);
      (eapply (engine_leaves g (sy_engine sy)); rewrite ?Epc; done).
  - destruct (outcome_total _ _ _ _ _ E) as [o Ho]. rewrite Ho. cbn [rbind]. eexists.
    split; [done |]. split; [| done].
    apply engine_stays; unfold engine_popping, engine_counting, input_dropped, output_dropped;
      rewrite ?Epc; try done.
    eapply (engine_leaves g (sy_engine sy)); rewrite ?Epc; try done. by intros [? | ?].
  - eexists. split; [done |]. split; [| done].
    assert (Ci' := close_receiver_ok (pc_wait cfg) _ _ _ _ _ _ _ _ Ci).
    apply (engine_moves g); unfold output_dropped; simpl; rewrite ?Epc; try done.
    rewrite (chan_items (pc_wait cfg) _ _ _ _ _ _ _ _ _ _ _ _ _ _ Ci Ci').
    eapply (engine_leaves g (sy_engine sy)); rewrite ?Epc; try done. by intros [? | ?].
  - eexists. split; [done |]. split; [| done].
    assert (Co' := close_sender_ok (pc_wait cfg) _ _ _ _ _ _ _ _ Co).
    apply (engine_moves g); unfold output_dropped; simpl; rewrite ?Epc; try done.
    eapply (engine_leaves g (sy_engine sy)); rewrite ?Epc; try done. by intros [? | ?].
  - eexists. split; [done |]. split; [| done]. by destruct sy.
Qed.

Lemma engine_step_inv g sy :
  in_budget source g -> sys_inv g sy -> Z.of_nat (length (g_pushed g)) <= u64_max -> stepped g sy.
Proof.
  intros Hb I Hlen. destruct (et_pc (sy_engine sy)) as [r | p | p | p | after pc rest | last | last
    | | | o | o | o] eqn:Epc.
  - by eapply engine_receive_ok.
  - by eapply engine_check_ok.
  - by eapply engine_kill_ok.
  - by eapply engine_commands_ok.
  - by eapply engine_send_ok.
  - eapply engine_publish_ok; eauto.
  - eapply engine_publish_ok; eauto.
  - apply engine_end_ok; by rewrite ?Epc.
  - apply engine_end_ok; by rewrite ?Epc.
  - apply engine_end_ok; by rewrite ?Epc.
  - apply engine_end_ok; by rewrite ?Epc.
  - apply engine_end_ok; by rewrite ?Epc.
Qed.

End Eng.
