(* ===== verification/PipelineRun.v ===== *)
(** Every step of every thread and every call from outside keeps the invariant of
    the pipeline and none panics; and what the kill latch guarantees. *)

From S2P Require Import Prelude Enums Ids Events Read Canonical CanonicalProps Codec CodecProps Wire.
From S2P Require Import Journal JournalProps Queue QueueProps BTree Slab Book Market MarketInv MarketTheorems.
From S2P Require Import Account Config CoreState Core CoreExec CoreApply CoreRun Replay.
From S2P Require Import ReplayTheorems Snapshot Pipeline PipelineInv PipelineFeed PipelineOut.
From S2P Require Import PipelineEng.

(** The commands that [submit] accepted, from what the outside calls returned. *)
Definition accepted_of (log : list Returned) : list ControlCommand.t :=
  omap (fun r => match r with Submitted command true => Some command | _ => None end) log.

(** The calls of [submit] in a schedule. *)
Definition submits (schedule : list Actor) : nat :=
  length (List.filter (fun a => match a with Outside (Submit _) => true | _ => false end) schedule).

Section Run.
Context {P : Platform} {PL : PlatformLaws P}.
Context (ec : EngineConfig) (cfg : PipelineConfig) (source : FeedSource).
Context (journal : option (Journal.JournalWriter (W := FileSink))).
Hypothesis W : setup_wf ec cfg source journal.

Abbreviation sys_inv := (PipelineInv.sys_inv ec cfg source journal) (only parsing).

(** * Outside calls *)

Lemma engine_ok_shutdown g b b' pg items t :
  (b = true -> b' = true) -> engine_ok ec cfg g b pg items t -> engine_ok ec cfg g b' pg items t.
Proof. intros Hb []. constructor; try done. intros Hl. destruct (eo_shut Hl); auto. Qed.

(** The ghost state after commands have been accepted. *)
Definition g_accept (g : Ghost) (commands : list ControlCommand.t) : Ghost :=
  mkGhost (g_origins g) (g_sent g) (g_taken g) (g_out g) (g_pushed g) (g_got g) (g_handled g)
    (g_accepted g ++ commands).

Lemma call_effect h c h' r :
  call h c = (h', r) ->
  aq_items (ctl_commands h') = aq_items (ctl_commands h) ++ accepted_of [r]
  /\ (ctl_shutdown h = true -> ctl_shutdown h' = true).
Proof.
  destruct c as [| | command | |]; simpl.
  - intros [= <- <-]. simpl. by rewrite app_nil_r.
  - intros [= <- <-]. simpl. by rewrite app_nil_r.
  - unfold submit. destruct (Nat.lt_ge_cases (length (aq_items (ctl_commands h)))
                               (aq_slots (ctl_commands h))) as [Hlt | Hge].
    + destruct (aq_push_ok _ command Hlt) as (E1 & E2 & _).
      destruct (aq_push (ctl_commands h) command) as [q ok]. simpl in E1, E2. subst ok.
      intros [= <- <-]. simpl. by rewrite E2.
    + rewrite (aq_push_full _ command Hge). intros [= <- <-]. simpl. by rewrite app_nil_r.
  - unfold take_snapshot. destruct (aq_pop (ctl_snapshots h)) as [q snapshot].
    intros [= <- <-]. simpl. by rewrite app_nil_r.
  - intros [= <- <-]. simpl. by rewrite app_nil_r.
Qed.

Lemma outside_step_inv g sy c :
  sys_inv g sy ->
  exists g' sy' r, step cfg (ec_run_id ec) sy (Outside c) = Ret (sy', [r])
    /\ sys_inv g' sy' /\ g_accepted g' = g_accepted g ++ accepted_of [r].
Proof.
  intros [Ci Co Hc F E O]. unfold step. destruct (call _ c) as [h r] eqn:Ecall.
  apply call_effect in Ecall as [Eq Hs].
  exists (g_accept g (accepted_of [r])). do 2 eexists. split; [done |]. split; [| done].
  constructor; simpl; try done.
  - by rewrite Eq, app_assoc, Hc.
  - by eapply feed_ok_mono; [exact Hs | |].
  - eapply engine_ok_shutdown; [exact Hs |]. by eapply engine_ok_ext; [.. | exact E].
  - by eapply output_ok_ext; [.. | exact O].
Qed.

(** * Any actor *)

Lemma origins_bound g sy :
  sys_inv g sy -> in_budget source g -> Z.of_nat (length (g_origins g)) <= u32_max.
Proof.
  intros [Ci _ Hc F E _] Hb. rewrite origins_length.
  pose proof (prefix_length _ _ (feed_sent_prefix _ _ _ _ _ _ F)) as H1.
  pose proof (prefix_length _ _ (proj1 (chan_ahead (pc_wait cfg) _ _ _ _ _ _ _ _ Ci))) as H2.
  assert (H3 : (length (fed (g_origins g)) <= length (g_taken g))%nat).
  { pose proof (eo_feed _ _ _ _ _ _ _ E) as Hf. destruct (et_output_lost (sy_engine sy)).
    - by apply prefix_length.
    - rewrite Hf, length_app. lia. }
  pose proof (eo_latch _ _ _ _ _ _ _ E) as Hl.
  assert (H4 : ((if et_output_lost (sy_engine sy) then 1 else latch_read (et_pc (sy_engine sy))) <= 1)%nat).
  { destruct (et_output_lost _); [lia |].
    destruct (et_pc (sy_engine sy)) as [| | | | [] | | | | | | |]; simpl; lia. }
  unfold in_budget in Hb. rewrite <- Hc, length_app in Hb. lia.
Qed.

Lemma step_inv g sy a :
  in_budget source g -> sys_inv g sy ->
  exists g' sy' log, step cfg (ec_run_id ec) sy a = Ret (sy', log)
    /\ sys_inv g' sy' /\ g_accepted g' = g_accepted g ++ accepted_of log
    /\ (length (accepted_of log) <= submits [a])%nat.
Proof.
  intros Hb I. pose proof (origins_bound g sy I Hb) as Hn.
  destruct (out_bound ec cfg source journal g sy W I Hn) as [Hb1 Hb2].
  destruct a as [| | | c].
  - destruct (feed_step_inv ec cfg source journal g sy W Hb I) as (g' & sy' & E & I' & Ea).
    exists g', sy', []. split; [done |]. split; [done |]. simpl. by rewrite app_nil_r.
  - destruct (engine_step_inv ec cfg source journal W g sy Hb I) as (g' & sy' & E & I' & Ea); [lia |].
    exists g', sy', []. split; [done |]. split; [done |]. simpl. by rewrite app_nil_r.
  - destruct (output_step_inv ec cfg source journal g sy W I Hn) as (g' & sy' & E & I' & Ea).
    exists g', sy', []. split; [done |]. split; [done |]. simpl. by rewrite app_nil_r.
  - destruct (outside_step_inv g sy c I) as (g' & sy' & r & E & I' & Ea).
    exists g', sy', [r]. split; [done |]. split; [done |]. split; [done |].
    unfold step in E. destruct (call _ c) as [h r'] eqn:Ec. injection E as _ ->.
    destruct c; simpl in Ec; try (injection Ec as _ <-; simpl; lia).
    + destruct (submit _ _) as [? []]; injection Ec as _ <-; unfold submits; simpl; lia.
    + destruct (take_snapshot _) as [? ?]. injection Ec as _ <-. simpl. lia.
Qed.

Lemma submits_cons a schedule : submits (a :: schedule) = (submits [a] + submits schedule)%nat.
Proof. unfold submits. simpl. by destruct a as [| | | []]. Qed.

Lemma submits_app l1 l2 : submits (l1 ++ l2) = (submits l1 + submits l2)%nat.
Proof. unfold submits. by rewrite List.filter_app, length_app. Qed.

Lemma run_inv g sy schedule :
  sys_inv g sy ->
  2 * Z.of_nat (length (feed_inputs source)) + Z.of_nat (length (g_accepted g))
  + Z.of_nat (submits schedule) < u32_max ->
  exists g' sy' log, run cfg (ec_run_id ec) sy schedule = Ret (sy', log)
    /\ sys_inv g' sy' /\ g_accepted g' = g_accepted g ++ accepted_of log /\ in_budget source g'
    /\ (length (accepted_of log) <= submits schedule)%nat.
Proof.
  revert g sy. induction schedule as [| a schedule IH]; intros g sy I Hb.
  - exists g, sy, []. simpl. rewrite app_nil_r. split_and!; try done. unfold in_budget. simpl in Hb. lia.
  - rewrite submits_cons in Hb.
    destruct (step_inv g sy a) as (g1 & sy1 & log1 & E1 & I1 & A1 & L1); [unfold in_budget; lia | done |].
    destruct (IH g1 sy1 I1) as (g2 & sy2 & log2 & E2 & I2 & A2 & B2 & L2).
    { rewrite A1, length_app. lia. }
    exists g2, sy2, (log1 ++ log2). simpl. rewrite E1. cbn [rbind]. rewrite E2. cbn [rbind].
    assert (Eacc : accepted_of (log1 ++ log2) = accepted_of log1 ++ accepted_of log2)
      by apply omap_app.
    rewrite Eacc, length_app, submits_cons. split_and!; try done; [| lia].
    by rewrite A2, A1, app_assoc.
Qed.

(** * The start *)

Lemma start_inv control :
  sys_inv (mkGhost [] [] [] [] [] [] [] (aq_items (ctl_commands control)))
    (start ec cfg source control journal).
Proof.
  constructor; simpl; try apply bounded_ok; try done.
  - constructor; simpl; try done. constructor; simpl; try done.
    + by apply new_core_inv, W.
Qed.

Lemma start_run control schedule :
  2 * Z.of_nat (length (feed_inputs source)) + Z.of_nat (length (aq_items (ctl_commands control)))
  + Z.of_nat (submits schedule) < u32_max ->
  exists g sy log,
    run cfg (ec_run_id ec) (start ec cfg source control journal) schedule = Ret (sy, log)
    /\ sys_inv g sy /\ g_accepted g = aq_items (ctl_commands control) ++ accepted_of log
    /\ in_budget source g /\ (length (accepted_of log) <= submits schedule)%nat.
Proof.
  intros Hb. destruct (run_inv _ _ schedule (start_inv control) Hb) as (g & sy & log & E & I & A & B & L).
  eauto 10.
Qed.

End Run.

(** * The switch in the core *)

Definition is_kill (command : ControlCommand.t) : bool :=
  match command with ControlCommand.SetGlobalKill _ => true | _ => false end.

Definition kill_after (command : ControlCommand.t) (kill : bool) : bool :=
  match command with ControlCommand.SetGlobalKill engaged => engaged | _ => kill end.

Section Core.
Context {S : Type} `{SL : Slab OrderNode S} `{!SlabLaws SL}.

Lemma push_state_kill (c : TradingCore S) event out c' out' :
  Ret (Core.push_state c event out) = Ret (c', out') -> tc_global_kill c' = tc_global_kill c.
Proof.
  unfold Core.push_state, Core.take_output_seq. destruct (Ids.next _); by intros [= <- _].
Qed.

Lemma put_account_kill (c c' : TradingCore S) i a :
  Core.put_account c i a = Ret c' -> tc_global_kill c' = tc_global_kill c.
Proof. unfold Core.put_account. by intros (l & _ & [= <-])%rbind_inv. Qed.

Lemma apply_control_kill (c c' : TradingCore S) command out out' :
  Engine.apply_control c command out = Ret (c', out') ->
  tc_global_kill c' = kill_after command (tc_global_kill c).
Proof.
  unfold Engine.apply_control, Engine.bump_control. intros (c1 & E1 & H)%rbind_inv.
  apply rbind_inv in E1 as (n & _ & [= <-]). simpl in H.
  destruct command as [engaged | account enabled | account limits]; simpl.
  - destruct (Bool.eqb_spec (tc_global_kill c) engaged); [by injection H as <- _ |].
    by apply push_state_kill in H.
  - destruct (tc_account_index c !! account); [| by injection H as <- _].
    apply rbind_inv in H as (a & _ & H). destruct (Bool.eqb _ _); [by injection H as <- _ |].
    apply rbind_inv in H as (c2 & E & ->%push_state_kill). by apply put_account_kill in E.
  - destruct (tc_account_index c !! account); [| by injection H as <- _].
    apply rbind_inv in H as (a & _ & H).
    apply rbind_inv in H as (c2 & E & ->%push_state_kill). by apply put_account_kill in E.
Qed.

Lemma apply_kill (c c' : TradingCore S) input command out :
  core_inv c -> tc_engine_seq c < u32_max -> in_event input = InputEvent.Control command ->
  Engine.apply c input = Ret (c', out) ->
  tc_global_kill c' = kill_after command (tc_global_kill c).
Proof.
  intros I Hn Ev. unfold Engine.apply. rewrite (ok_fault _ _ (cv_ok _ I)).
  rewrite next_small by (pose proof (cv_seq _ I); mach). rewrite Ev. unfold Engine.bump_inputs.
  intros (c1 & (n & _ & [= <-])%rbind_inv & ([c2 o] & E & H)%rbind_inv)%rbind_inv.
  apply apply_control_kill in E. simpl in E. unfold Engine.bump_reports in H.
  apply rbind_inv in H as (c3 & Em & [= <- _]). by apply rbind_inv in Em as (m & _ & [= <-]).
Qed.

End Core.

(** * The latch *)

Section Kill.
Context {P : Platform} {PL : PlatformLaws P}.
Context (ec : EngineConfig) (cfg : PipelineConfig) (source : FeedSource).
Context (journal : option (Journal.JournalWriter (W := FileSink))).
Hypothesis W : setup_wf ec cfg source journal.

Abbreviation sys_inv := (PipelineInv.sys_inv ec cfg source journal) (only parsing).

Definition core_of (sy : System) : TradingCore Store := sq_core (et_sequencer (sy_engine sy)).

(** The latch is engaged, no command in the queue touches the switch, and an
    engine that has read the latch for its input has the switch on. *)
Record armed (sy : System) : Prop := {
  ar_latch : kill_engaged (sh_control (sy_shared sy)) = true;
  ar_queue : Forall (fun c => is_kill c = false) (aq_items (ctl_commands (sh_control (sy_shared sy))));
  ar_core : latch_read (et_pc (sy_engine sy)) = 1%nat -> tc_global_kill (core_of sy) = true
}.

(** Actors that neither release the latch nor submit a kill command. *)
Definition keeps_kill (a : Actor) : bool :=
  match a with
  | Outside ReleaseKill => false
  | Outside (Submit command) => negb (is_kill command)
  | _ => true
  end.

(** Sequencing a control command. *)
Lemma sequence_kill g sy command q' :
  sys_inv g sy -> Z.of_nat (length (g_origins g)) < u32_max ->
  sequence (et_sequencer (sy_engine sy)) (InputEvent.Control command) None = Ret q' ->
  tc_global_kill (sq_core q') = kill_after command (tc_global_kill (core_of sy)).
Proof.
  intros I Hn. pose proof (eo_sequenced _ _ _ _ _ _ _ (si_engine _ _ _ _ _ _ I)) as Hq.
  unfold sequence. intros (n & _ & (d & _ & ([c batch] & E & [= <-])%rbind_inv)%rbind_inv)%rbind_inv.
  apply (apply_kill _ _ _ command) in E; try done; [apply Hq |].
  rewrite (sq_seq _ _ _ _ _ Hq). done.
Qed.

Lemma send_batch_latch s t after batch t' :
  send_batch cfg s t after batch = Ret t' ->
  et_sequencer t' = et_sequencer t /\ latch_read (et_pc t') = length (held_after after).
Proof.
  unfold send_batch, resume. destruct batch as [| e rest].
  - destruct after as [p |]; [by intros [= <-] |].
    intros (due & _ & [= <-])%rbind_inv. simpl. by destruct due.
  - intros [= <-]. simpl. by destruct after.
Qed.

Lemma apply_event_kill g sy s command after t' :
  sys_inv g sy -> Z.of_nat (length (g_origins g)) < u32_max ->
  apply_event cfg s (sy_engine sy) (InputEvent.Control command) None after = Ret t' ->
  tc_global_kill (sq_core (et_sequencer t')) = kill_after command (tc_global_kill (core_of sy)).
Proof.
  intros I Hn (q & E & H)%rbind_inv. apply send_batch_latch in H as [-> _].
  by eapply sequence_kill.
Qed.

(** An engine step that is not past the latch has nothing to keep. *)
Lemma armed_moves sy s' t' :
  armed sy -> sh_control s' = sh_control (sy_shared sy) ->
  (latch_read (et_pc t') = 1%nat -> tc_global_kill (sq_core (et_sequencer t')) = true) ->
  armed (mkSystem s' (sy_feed sy) t' (sy_output sy)).
Proof. intros [H1 H2 H3] E H. constructor; simpl; rewrite ?E; done. Qed.

(** The engine reads the latch. *)
Lemma check_kill_armed g sy p s' t' :
  Z.of_nat (length (g_origins g)) < u32_max -> sys_inv g sy -> armed sy ->
  et_pc (sy_engine sy) = EnCheckKill p ->
  engine_step cfg (sy_shared sy) (sy_engine sy) = Ret (s', t') ->
  armed (mkSystem s' (sy_feed sy) t' (sy_output sy)).
Proof.
  intros Hn I A Epc. pose proof A as [Hlatch _ _]. unfold engine_step. rewrite Epc.
  destruct (Bool.eqb_spec (kill_engaged (sh_control (sy_shared sy))) (tc_global_kill (core_of sy)))
    as [Ek | Ek]; unfold core_of in Ek.
  - rewrite <- Ek, Bool.eqb_reflx. intros [= <- <-]. apply armed_moves; try done. intros _. simpl.
    by rewrite <- Ek.
  - rewrite (proj2 (Bool.eqb_false_iff _ _) Ek). intros (t & E & [= <- <-])%rbind_inv.
    apply (apply_event_kill g) in E; try done. apply armed_moves; try done. intros _. by rewrite E.
Qed.

(** The engine takes a command, or its input. *)
Lemma commands_armed g sy p s' t' :
  Z.of_nat (length (g_origins g)) < u32_max -> sys_inv g sy -> armed sy ->
  et_pc (sy_engine sy) = EnCommands p ->
  engine_step cfg (sy_shared sy) (sy_engine sy) = Ret (s', t') ->
  armed (mkSystem s' (sy_feed sy) t' (sy_output sy)).
Proof.
  intros Hn I [Hlatch Hqueue Hcore] Epc. unfold engine_step. rewrite Epc in *.
  destruct (aq_items (ctl_commands (sh_control (sy_shared sy)))) as [| cmd cmds] eqn:Eq.
  - rewrite (aq_pop_empty _ Eq). intros (t & (q & _ & H)%rbind_inv & [= <- <-])%rbind_inv.
    apply send_batch_latch in H as [_ Hl]. constructor; simpl; rewrite ?Eq; try done. by rewrite Hl.
  - destruct (aq_pop_ok _ _ _ Eq) as (E1 & E2 & _).
    destruct (aq_pop (ctl_commands (sh_control (sy_shared sy)))) as [q o]. simpl in E1, E2. subst o.
    intros (t & E & [= <- <-])%rbind_inv. apply (apply_event_kill g) in E; try done.
    apply Forall_cons in Hqueue as [Hk Hq]. constructor; simpl; rewrite ?E2; try done.
    intros _. unfold core_of. simpl. rewrite E, (Hcore eq_refl). by destruct cmd.
Qed.

Lemma engine_armed g sy sy' log :
  in_budget source g -> sys_inv g sy -> armed sy ->
  step cfg (ec_run_id ec) sy EngineA = Ret (sy', log) -> armed sy'.
Proof.
  intros Hb I A ([s t] & H & [= <- _])%rbind_inv. pose proof A as [Hlatch Hqueue Hcore].
  assert (Hroom : forall p, in_loop (et_pc (sy_engine sy)) = true ->
            engine_holds (et_pc (sy_engine sy)) = [p] -> Z.of_nat (length (g_origins g)) < u32_max)
    by (intros p Hl Hh; by eapply apply_room).
  destruct (et_pc (sy_engine sy)) as [r | p | p | p | after pc rest | last | last | | | o | o | o]
    eqn:Epc.
  3: by eapply check_kill_armed; [eapply Hroom | ..].
  3: by eapply commands_armed; [eapply Hroom | ..].
  all: unfold engine_step in H; rewrite Epc in H.
  - apply rbind_inv in H as ([c' x] & _ & [= <- <-]). apply armed_moves; try done.
    simpl. destruct x as [? | [? |]]; try done. unfold after_loop. by destruct (0 <? _).
  - injection H as <- <-. apply armed_moves; try done. by destruct (sh_output_failed _).
  - apply rbind_inv in H as ([c' x] & _ & (t1 & H & [= <- <-])%rbind_inv). destruct x as [pc' | []].
    + injection H as <-. by apply armed_moves.
    + apply send_batch_latch in H as [Es Hl]. apply armed_moves; try done. rewrite Es, Hl.
      intros Ha. apply Hcore. by destruct after.
    + injection H as <-. by apply armed_moves.
  - apply rbind_inv in H as (snap & _ & H).
    destruct (aq_force_push _ snap) as [q [old |]]; injection H as <- <-;
      (constructor; simpl; try done). by destruct last.
  - injection H as <- <-. constructor; simpl; try done. by destruct last.
  - injection H as <- <-. constructor; simpl; try done. unfold after_loop. by destruct (0 <? _).
  - apply rbind_inv in H as (o & _ & [= <- <-]). by apply armed_moves.
  - injection H as <- <-. by apply armed_moves.
  - injection H as <- <-. by apply armed_moves.
  - injection H as <- <-. apply armed_moves; try done. by rewrite Epc.
Qed.

(** Only the engine and the holders of the handle touch the control surface. *)
Lemma feed_step_control s t s' t' :
  feed_step cfg s t = Ret (s', t') -> sh_control s' = sh_control s.
Proof.
  unfold feed_step. intros H. destruct (fd_pc t); try (injection H as <- _; done);
    apply rbind_inv in H as (x & _ & H); try destruct x; injection H as <- _; done.
Qed.

Lemma output_step_control s t s' t' :
  output_step cfg (ec_run_id ec) s t = Ret (s', t') -> sh_control s' = sh_control s.
Proof.
  unfold output_step. intros H.
  destruct (ot_pc t) as [| | pc | pc | | | |]; try (injection H as <- _; done).
  - destruct (try_step _ pc) as [c' [| [|]]]; try (injection H as <- _; done).
    by apply rbind_inv in H as (t1 & _ & [= <- _]).
  - apply rbind_inv in H as ([c' [| [|]]] & _ & H); try (injection H as <- _; done).
    by apply rbind_inv in H as (t1 & _ & [= <- _]).
Qed.

Lemma step_armed g sy a sy' log :
  in_budget source g -> sys_inv g sy -> keeps_kill a = true -> armed sy ->
  step cfg (ec_run_id ec) sy a = Ret (sy', log) -> armed sy'.
Proof.
  intros Hb I Hk A. destruct a as [| | | c].
  - intros ([s t] & Ec%feed_step_control & [= <- <-])%rbind_inv.
    destruct A. constructor; simpl; rewrite ?Ec; done.
  - by eapply engine_armed.
  - intros ([s t] & Ec%output_step_control & [= <- <-])%rbind_inv.
    destruct A. constructor; simpl; rewrite ?Ec; done.
  - destruct A as [A1 A2 A3]. unfold step. destruct (call _ c) as [h r] eqn:Ec. intros [= <- _].
    pose proof (call_effect _ _ _ _ Ec) as [Eq _].
    constructor; simpl; [| | done].
    + destruct c as [| | command | |]; simpl in Ec; try done.
      * by injection Ec as <- _.
      * unfold submit in Ec. destruct (aq_push _ _) as [? ?]. by injection Ec as <- _.
      * unfold take_snapshot in Ec. destruct (aq_pop _) as [? ?]. by injection Ec as <- _.
      * by injection Ec as <- _.
    + rewrite Eq. apply Forall_app_2; [done |].
      destruct c as [| | command | |]; simpl in Ec; try (injection Ec as _ <-; constructor).
      * destruct (submit _ _) as [? []]; injection Ec as _ <-; simpl; [| constructor].
        constructor; [| constructor]. by apply negb_true_iff.
      * destruct (take_snapshot _) as [? ?]. injection Ec as _ <-. constructor.
Qed.

Lemma run_armed g sy schedule sy' log :
  2 * Z.of_nat (length (feed_inputs source)) + Z.of_nat (length (g_accepted g))
  + Z.of_nat (submits schedule) < u32_max ->
  sys_inv g sy -> armed sy -> Forall (fun a => keeps_kill a = true) schedule ->
  run cfg (ec_run_id ec) sy schedule = Ret (sy', log) -> armed sy'.
Proof.
  revert g sy log. induction schedule as [| a schedule IH]; intros g sy log Hb I A Hk.
  - by intros [= <- _].
  - apply Forall_cons in Hk as [Ha Hk]. rewrite submits_cons in Hb. simpl.
    assert (Hbg : in_budget source g) by (unfold in_budget; lia).
    destruct (step_inv ec cfg source journal W g sy a Hbg I) as (g1 & sy1 & log1 & E1 & I1 & A1 & L1).
    rewrite E1. cbn [rbind]. intros ([sy2 log2] & E2 & [= <- _])%rbind_inv.
    eapply (IH g1 sy1); try done.
    + rewrite A1, length_app. lia.
    + by eapply step_armed.
Qed.

End Kill.
