(* ===== verification/PipelineLive.v ===== *)
(** Progress of the pipeline: a measure that every step lowers unless the
    thread that steps is blocked, and no state in which every thread is. *)

From S2P Require Import Prelude Enums Ids Events BTree Slab Book Market MarketInv MarketTheorems.
From S2P Require Import Account Config CoreState Core CoreApply CoreRun Read Canonical Codec.
From S2P Require Import CanonicalProps CodecProps Wire Journal JournalProps Queue QueueProps Replay.
From S2P Require Import ReplayTheorems Snapshot Pipeline PipelineInv PipelineFeed.
From S2P Require Import PipelineOut PipelineEng PipelineRun.

(** * Channels

    An element in a queue weighs ten: taking it out pays for handling it. *)

Section Ranks.
Context {T R : Type} {RG : Ring T R} {RL : RingLaws RG}.
Implicit Types (v : RingView T) (c : Channel R).

Definition full (v : RingView T) : bool := (rv_slots v <=? length (rv_items v))%nat.

Definition empty (v : RingView T) : bool := (length (rv_items v) =? 0)%nat.

Definition weight (v : RingView T) : nat := 10 * length (rv_items v).

Definition send_blocked (v : RingView T) (pc : SendPc T) : bool :=
  match pc with
  | SendPush _ _ _ | SendFull _ _ _ => full v && negb (rv_consumer_gone v)
  | _ => false
  end.

Definition send_rank (v : RingView T) (pc : SendPc T) : nat :=
  match pc with
  | SendMax _ => 1
  | SendSample _ => 2
  | SendCount => 3
  | SendPush _ _ _ =>
      if full v then if rv_consumer_gone v then 15 else 16 else 14
  | SendFull _ _ _ =>
      if rv_consumer_gone v then 14 else if full v then 16 else 15
  end.

Definition recv_blocked (v : RingView T) (pc : RecvPc T) : bool :=
  match pc with
  | RecvTry TryPop _ | RecvEmpty _ => empty v && negb (rv_producer_gone v)
  | _ => false
  end.

Definition recv_rank (v : RingView T) (pc : RecvPc T) : nat :=
  match pc with
  | RecvTry (TryCount _) _ | RecvLast (TryCount _) => 6
  | RecvLast TryPop => 1
  | RecvTry TryPop _ =>
      if empty v then if rv_producer_gone v then 3 else 4 else 1
  | RecvEmpty _ => if empty v && negb (rv_producer_gone v) then 4 else 2
  end.

Lemma send_rank_le v pc : (1 <= send_rank v pc <= 16)%nat.
Proof. destruct pc; simpl; repeat case_match; lia. Qed.

Lemma recv_rank_le v pc : (1 <= recv_rank v pc)%nat
  /\ (recv_holds pc = [] -> recv_rank v pc <= 4)%nat.
Proof. destruct pc as [[] | | []]; simpl; repeat case_match; split; try done; lia. Qed.

(** What is pushed or popped, or only looked at. *)
Record moved v v' (grow shrink : nat) : Prop := {
  mv_slots : rv_slots v' = rv_slots v;
  mv_producer : rv_producer_gone v' = rv_producer_gone v;
  mv_consumer : rv_consumer_gone v' = rv_consumer_gone v;
  mv_items : (length (rv_items v') + shrink = length (rv_items v) + grow)%nat
}.

Lemma moved_refl v : moved v v 0 0.
Proof. done. Qed.

Lemma rerung_view c c' v : rerung c c' v -> cview c' = v.
Proof. by intros [? _]. Qed.

Lemma send_step_rank c c' pc r :
  send_step c pc = Ret (c', r) ->
  if send_blocked (cview c) pc
  then cview c' = cview c
       /\ exists pc', r = inl pc' /\ send_blocked (cview c) pc' = true
          /\ length (send_holds pc') = length (send_holds pc)
          /\ send_rank (cview c) pc' = send_rank (cview c) pc
  else match r with
       | inl pc' =>
           exists k, moved (cview c) (cview c') k 0
             /\ (k + length (send_holds pc') = length (send_holds pc))%nat
             /\ (weight (cview c') + send_rank (cview c') pc'
                 < weight (cview c) + send_rank (cview c) pc)%nat
       | inr b => cview c' = cview c /\ (b = true -> send_holds pc = [])
       end.
Proof.
  destruct pc as [x cf b | x cf b | | pushed | depth].
  - destruct (send_push_spec c x cf b) as (c1 & pc1 & E & H). rewrite E. intros [= <- <-].
    unfold send_blocked, full. destruct H as [(Hlt & -> & HR) | (Hge & -> & HR)];
      apply rerung_view in HR.
    + destruct (Nat.leb_spec (rv_slots (cview c)) (length (rv_items (cview c)))); [lia |]. simpl.
      exists 1%nat. rewrite HR. unfold weight, full. simpl. rewrite length_app. simpl.
      destruct (Nat.leb_spec (rv_slots (cview c)) (length (rv_items (cview c)))); [lia |].
      split_and!; try done; try lia. constructor; simpl; rewrite ?length_app; simpl; done || lia.
    + destruct (Nat.leb_spec (rv_slots (cview c)) (length (rv_items (cview c)))) as [Hf | Hf]; [| lia].
      apply Nat.leb_le in Hf. simpl. destruct (rv_consumer_gone (cview c)) eqn:Eg; simpl.
      * exists 0%nat. rewrite HR. split_and!; try done. unfold full. rewrite Hf, Eg. lia.
      * split; [done |]. eexists. split; [done |]. unfold send_blocked, full. simpl.
        unfold full. rewrite Hf, Eg. done.
  - simpl. rewrite producer_abandoned_view. fold (cview c).
    destruct (rv_consumer_gone (cview c)) eqn:Eg; rewrite ?andb_false_r, ?andb_true_r; simpl.
    + by intros [= <- <-].
    + intros ([b' p] & _ & [= <- <-])%rbind_inv.
      assert (Ev : cview (if cf then c else set_stats c (count_full (ch_stats c))) = cview c)
        by by destruct cf.
      rewrite Ev. destruct (full (cview c)) eqn:Ef; simpl; rewrite ?Eg.
      * split; [done |]. eexists. split; [done |]. simpl. by rewrite Ef, Eg.
      * exists 0%nat. split_and!; try done. rewrite Ef. lia.
  - unfold send_step. intros (n & _ & (k & _ & [= <- <-])%rbind_inv)%rbind_inv. simpl.
    destruct (k =? 0); [| done]. exists 0%nat. split_and!; try done. simpl.
    change (cview (set_stats c (count_pushed (ch_stats c)))) with (cview c). lia.
  - intros [= <- <-]. exists 0%nat. split_and!; try done. simpl. lia.
  - by intros [= <- <-].
Qed.

Lemma try_step_rank c c' pc r :
  try_step c pc = (c', r) ->
  match r with
  | inl pc' => try_holds pc = [] /\ length (try_holds pc') = 1%nat /\ moved (cview c) (cview c') 0 1
  | inr o => cview c' = cview c
             /\ length (try_holds pc) = match o with Some _ => 1%nat | None => 0%nat end
             /\ (o = None -> empty (cview c) = true)
  end.
Proof.
  destruct pc as [| x].
  - destruct (try_pop_spec c) as (c1 & r1 & E & H). rewrite E. intros [= <- <-].
    destruct H as [(x & items & Hi & -> & HR) | (Hi & -> & HR)]; apply rerung_view in HR; rewrite HR.
    + split_and!; try done. constructor; simpl; try done. rewrite Hi. simpl. lia.
    + split_and!; try done. intros _. unfold empty. by rewrite Hi.
  - simpl. intros [= <- <-]. done.
Qed.

Lemma recv_step_rank c c' pc r :
  recv_step c pc = Ret (c', r) ->
  if recv_blocked (cview c) pc
  then cview c' = cview c
       /\ exists pc', r = inl pc' /\ recv_blocked (cview c) pc' = true /\ recv_holds pc' = []
          /\ recv_holds pc = [] /\ recv_rank (cview c) pc' = recv_rank (cview c) pc
  else match r with
       | inl pc' =>
           recv_holds pc = [] /\ moved (cview c) (cview c') 0 (length (recv_holds pc'))
           /\ (weight (cview c') + recv_rank (cview c') pc'
               < weight (cview c) + recv_rank (cview c) pc)%nat
       | inr o => cview c' = cview c
                  /\ length (recv_holds pc) = match o with Some _ => 1%nat | None => 0%nat end
       end.
Proof.
  destruct pc as [t b | b | t]; cbn [recv_step].
  - destruct (try_step c t) as [c1 r1] eqn:E. apply try_step_rank in E.
    destruct r1 as [t1 | [x |]]; intros [= <- <-].
    + destruct E as (Ht & H1 & M). destruct t; [| done]. destruct t1 as [| x]; [done |].
      pose proof (mv_items _ _ _ _ M) as Hm. simpl. unfold empty, weight.
      destruct (Nat.eqb_spec (length (rv_items (cview c))) 0); [lia |]. simpl.
      split_and!; try done. lia.
    + destruct E as (Ev & H1 & _). destruct t; [done |]. simpl. done.
    + destruct E as (Ev & H1 & He). destruct t; [| done]. specialize (He eq_refl). simpl.
      rewrite Ev, He. simpl. destruct (rv_producer_gone (cview c)) eqn:Eg; simpl.
      * split_and!; try done. lia.
      * split; [done |]. eexists. split; [done |]. simpl. rewrite He, Eg. done.
  - rewrite consumer_abandoned_view. fold (cview c).
    destruct (rv_producer_gone (cview c)) eqn:Eg.
    + intros [= <- <-]. simpl. rewrite Eg, andb_false_r. split_and!; try done. lia.
    + intros ([b' p] & _ & [= <- <-])%rbind_inv. simpl. rewrite Eg, andb_true_r.
      destruct (empty (cview c)) eqn:Ee; simpl.
      * split; [done |]. eexists. split; [done |]. simpl. by rewrite Ee, Eg.
      * split_and!; try done. lia.
  - destruct (try_step c t) as [c1 r1] eqn:E. apply try_step_rank in E.
    destruct r1 as [t1 | o]; intros [= <- <-].
    + destruct E as (Ht & H1 & M). destruct t; [| done]. destruct t1 as [| x]; [done |].
      pose proof (mv_items _ _ _ _ M) as Hm. simpl. unfold weight. split_and!; try done. lia.
    + destruct E as (Ev & H1 & _). simpl. done.
Qed.

(** ** What the other end does never raises a rank *)

(** The other end has taken an element, or is gone. *)
Lemma send_rank_mono v v' pc :
  rv_slots v' = rv_slots v -> (length (rv_items v') <= length (rv_items v))%nat ->
  (rv_consumer_gone v = true -> rv_consumer_gone v' = true) ->
  (send_rank v' pc <= send_rank v pc)%nat.
Proof.
  intros Es Hl Hg. unfold send_rank, full. rewrite Es.
  destruct pc; [| | lia..].
  all: destruct (Nat.leb_spec (rv_slots v) (length (rv_items v'))),
         (Nat.leb_spec (rv_slots v) (length (rv_items v))),
         (rv_consumer_gone v), (rv_consumer_gone v'); try lia; specialize (Hg eq_refl); done.
Qed.

(** The other end has added an element, or is gone. *)
Lemma recv_rank_mono v v' pc :
  (length (rv_items v) <= length (rv_items v'))%nat ->
  (rv_producer_gone v = true -> rv_producer_gone v' = true) ->
  (recv_rank v' pc <= recv_rank v pc)%nat.
Proof.
  intros Hl Hg. unfold recv_rank, empty.
  destruct pc as [[] b | b | []]; try lia.
  all: destruct (Nat.eqb_spec (length (rv_items v')) 0), (Nat.eqb_spec (length (rv_items v)) 0),
         (rv_producer_gone v), (rv_producer_gone v'); simpl; try lia; specialize (Hg eq_refl); done.
Qed.

End Ranks.

(** * The system *)

Section Live.
Context {P : Platform} {PL : PlatformLaws P}.
Context (ec : EngineConfig) (cfg : PipelineConfig) (source : FeedSource).
Context (journal : option (Journal.JournalWriter (W := FileSink))).
Hypothesis W : setup_wf ec cfg source journal.

Abbreviation sys_inv := (PipelineInv.sys_inv ec cfg source journal) (only parsing).
Abbreviation view_in sy := (cview (sh_input (sy_shared sy))) (only parsing).
Abbreviation view_out sy := (cview (sh_output (sy_shared sy))) (only parsing).

(** The inputs the feed has not pushed yet. *)
Definition feed_left (t : FeedThread) : nat :=
  match fd_pc t with
  | FeedStart _ => length (feed_inputs source)
  | FeedNext => length (upcoming t)
  | FeedSend s => length (send_holds s) + length (upcoming t)
  | FeedDrop | FeedDone => 0
  end.

Definition feed_work (v : RingView EngineInput) (t : FeedThread) : nat :=
  match fd_pc t with
  | FeedStart _ => 3 + 17 * length (feed_inputs source)
  | FeedNext => 2 + 17 * length (upcoming t)
  | FeedSend s => 2 + 17 * length (upcoming t) + send_rank v s
  | FeedDrop => 1
  | FeedDone => 0
  end.

Definition engine_work (vi : RingView EngineInput) (vo : RingView OutputEvent.t) (pc : EnginePc) : nat :=
  match pc with
  | EnSend _ s rest => 14 + send_rank vo s + 17 * length rest
  | EnPublish false => 13
  | EnCountDrop false => 12
  | EnReceive r => 7 + recv_rank vi r
  | EnCheckFailed _ => 8
  | EnCheckKill _ | EnCommands _ => 7
  | EnShutdown => 6
  | EnPublish true => 5
  | EnCountDrop true => 4
  | EnFinish => 3
  | EnDropInput _ => 2
  | EnDropOutput _ => 1
  | EnDone _ => 0
  end.

Definition output_work (v : RingView OutputEvent.t) (pc : OutputPc) : nat :=
  match pc with
  | OtOpen _ => 10
  | OtOpenFailed _ | OtTry (TryCount _) => 9
  | OtTry TryPop => 8
  | OtReceive r => 3 + recv_rank v r
  | OtFailed => 3
  | OtFinish => 2
  | OtDrop _ => 1
  | OtDone _ => 0
  end.

(** At least the number of inputs still to be applied. *)
Definition to_apply (sy : System) : nat :=
  if in_loop (et_pc (sy_engine sy)) then
    2 * (feed_left (sy_feed sy) + length (rv_items (view_in sy))
         + length (engine_holds (et_pc (sy_engine sy))))
    + length (aq_items (ctl_commands (sh_control (sy_shared sy))))
    - latch_read (et_pc (sy_engine sy))
  else 0.

(** The work left until the next input is applied. *)
Definition work (sy : System) : nat :=
  feed_work (view_in sy) (sy_feed sy) + weight (view_in sy)
  + engine_work (view_in sy) (view_out sy) (et_pc (sy_engine sy)) + weight (view_out sy)
  + output_work (view_out sy) (ot_pc (sy_output sy)).

Definition lower (sy' sy : System) : Prop :=
  (to_apply sy' <= to_apply sy)%nat /\ ((to_apply sy' < to_apply sy)%nat \/ (work sy' < work sy)%nat).

(** A thread that can only wait, or has ended. *)
Definition blocked (sy : System) (a : Actor) : bool :=
  match a with
  | Feed => match fd_pc (sy_feed sy) with
            | FeedSend s => send_blocked (view_in sy) s
            | FeedDone => true
            | _ => false
            end
  | EngineA => match et_pc (sy_engine sy) with
               | EnReceive r => recv_blocked (view_in sy) r
               | EnSend _ s _ => send_blocked (view_out sy) s
               | EnDone _ => true
               | _ => false
               end
  | Output => match ot_pc (sy_output sy) with
              | OtReceive r => recv_blocked (view_out sy) r
              | OtDone _ => true
              | _ => false
              end
  | Outside _ => false
  end.

(** The step of a blocked thread changes nothing that matters. *)
Definition stalled (sy' sy : System) : Prop :=
  to_apply sy' = to_apply sy /\ work sy' = work sy /\ forall a, blocked sy' a = blocked sy a.

(** ** Changes of one channel *)

Lemma feed_work_mono v v' t :
  rv_slots v' = rv_slots v -> (length (rv_items v') <= length (rv_items v))%nat ->
  (rv_consumer_gone v = true -> rv_consumer_gone v' = true) ->
  (feed_work v' t <= feed_work v t)%nat.
Proof.
  intros H1 H2 H3. unfold feed_work. destruct (fd_pc t) as [| | s | |]; try lia.
  pose proof (send_rank_mono v v' s H1 H2 H3). lia.
Qed.

Lemma output_work_mono v v' pc :
  (length (rv_items v) <= length (rv_items v'))%nat ->
  (rv_producer_gone v = true -> rv_producer_gone v' = true) ->
  (output_work v' pc <= output_work v pc)%nat.
Proof.
  intros H1 H2. unfold output_work. destruct pc as [| | | r | | | |]; try apply Nat.le_refl.
  pose proof (recv_rank_mono v v' r H1 H2). lia.
Qed.

Lemma engine_work_in vi vi' vo pc :
  (length (rv_items vi) <= length (rv_items vi'))%nat ->
  (rv_producer_gone vi = true -> rv_producer_gone vi' = true) ->
  (engine_work vi' vo pc <= engine_work vi vo pc)%nat.
Proof.
  intros H1 H2. unfold engine_work. destruct pc as [r | | | | | | | | | | |]; try apply Nat.le_refl.
  pose proof (recv_rank_mono vi vi' r H1 H2). lia.
Qed.

Lemma engine_work_out vi vo vo' pc :
  rv_slots vo' = rv_slots vo -> (length (rv_items vo') <= length (rv_items vo))%nat ->
  (rv_consumer_gone vo = true -> rv_consumer_gone vo' = true) ->
  (engine_work vi vo' pc <= engine_work vi vo pc)%nat.
Proof.
  intros H1 H2 H3. unfold engine_work. destruct pc as [| | | | a s rest | | | | | | |]; try apply Nat.le_refl.
  pose proof (send_rank_mono vo vo' s H1 H2 H3). lia.
Qed.

(** ** The feed *)

(** The feed has moved with what it pushed; the engine sees at least as much. *)
Lemma feed_lower sy s' t' :
  sh_output s' = sh_output (sy_shared sy) -> sh_control s' = sh_control (sy_shared sy) ->
  (length (rv_items (view_in sy)) <= length (rv_items (cview (sh_input s'))))%nat ->
  (rv_producer_gone (view_in sy) = true -> rv_producer_gone (cview (sh_input s')) = true) ->
  (feed_left t' + length (rv_items (cview (sh_input s')))
   <= feed_left (sy_feed sy) + length (rv_items (view_in sy)))%nat ->
  (feed_work (cview (sh_input s')) t' + weight (cview (sh_input s'))
   < feed_work (view_in sy) (sy_feed sy) + weight (view_in sy))%nat ->
  lower (mkSystem s' t' (sy_engine sy) (sy_output sy)) sy.
Proof.
  intros Eo Ec Hl Hg Hf Hw. unfold lower, to_apply, work. simpl. rewrite Eo, Ec. split.
  - destruct (in_loop _); lia.
  - right. pose proof (engine_work_in (view_in sy) (cview (sh_input s')) (view_out sy)
                         (et_pc (sy_engine sy)) Hl Hg). lia.
Qed.

Lemma feed_progress g sy sy' log :
  sys_inv g sy -> in_budget source g -> step cfg (ec_run_id ec) sy Feed = Ret (sy', log) ->
  if blocked sy Feed then stalled sy' sy else lower sy' sy.
Proof.
  intros I Hb. unfold step, feed_step, blocked. pose proof (si_feed _ _ _ _ _ _ I) as F.
  destruct (fd_pc (sy_feed sy)) as [src | | pc | |] eqn:Epc.
  - assert (Hsent : g_sent g = []) by (unfold feed_ok in F; rewrite Epc in F; apply F).
    rewrite Hsent in F.
    destruct (feed_start_ok cfg source _ _ _ _ (sw_source _ _ _ _ W) Epc F) as (t' & -> & Epc' & F').
    cbn [rbind]. intros [= <- <-]. unfold feed_ok in F'. rewrite Epc' in F'.
    pose proof (f_equal length (proj1 F')) as Hl. simpl in Hl.
    apply feed_lower; try done; unfold feed_left, feed_work; rewrite Epc, Epc'; lia.
  - destruct (feed_next_ok cfg source (sy_feed sy) (sh_input (sy_shared sy)) (g_sent g)
                (ctl_shutdown (sh_control (sy_shared sy))) (et_output_lost (sy_engine sy))
                (pc_paced cfg) (sw_source _ _ _ _ W) Epc) as (t' & E & F' & Hpc).
    { apply (si_in _ _ _ _ _ _ I). } { unfold in_budget in Hb. lia. } { done. }
    unfold shutdown_requested. rewrite E. cbn [rbind]. intros [= <- <-].
    unfold feed_ok in F, F'. rewrite Epc in F. pose proof (f_equal length (proj1 F)) as Hl.
    rewrite length_app in Hl. destruct Hpc as [Epc' | [x Epc']]; rewrite Epc' in F'.
    + apply feed_lower; try done; unfold feed_left, feed_work; rewrite Epc, Epc'; lia.
    + pose proof (f_equal length (proj1 F')) as Hl'. rewrite !length_app in Hl'. simpl in Hl'.
      pose proof (send_rank_le (view_in sy) (send (sh_input (sy_shared sy)) x)).
      apply feed_lower; try done; unfold feed_left, feed_work; rewrite Epc, Epc'; simpl; simpl in *; lia.
  - intros ([s t] & ([c' r] & Es & [= <- <-])%rbind_inv & [= <- <-])%rbind_inv.
    apply send_step_rank in Es. destruct (send_blocked (view_in sy) pc) eqn:Ebl.
    + destruct Es as (Ev & pc' & -> & Hb' & Hh & Hr). unfold stalled, to_apply, work, feed_left, feed_work.
      simpl. rewrite Epc, Ev, Hh, Hr. split_and!; try done. intros [| | |]; simpl; rewrite ?Ev, ?Epc; try done.
      by rewrite Hb', Ebl.
    + destruct r as [pc' | b].
      * destruct Es as (k & [M1 M2 M3 M4] & Hk & Hw).
        apply feed_lower; simpl; try done; try lia; [by rewrite M2 | |];
          unfold feed_left, feed_work; rewrite Epc; simpl; unfold upcoming in *; simpl; lia.
      * destruct Es as (Ev & Hh). pose proof (send_rank_le (view_in sy) pc) as Hr.
        destruct b; apply feed_lower; simpl; rewrite ?Ev; try done; try lia;
          unfold feed_left, feed_work; rewrite Epc; simpl; unfold upcoming in *; simpl; lia.
  - intros [= <- <-]. apply feed_lower; try done; simpl; unfold feed_left, feed_work, cview, weight;
      simpl; rewrite ?drop_producer_view, ?Epc; simpl; try done; try lia.
  - intros [= <- <-]. unfold stalled. destruct sy. done.
Qed.

(** ** The output thread *)

Lemma output_lower sy s' t' :
  sh_input s' = sh_input (sy_shared sy) -> sh_control s' = sh_control (sy_shared sy) ->
  rv_slots (cview (sh_output s')) = rv_slots (view_out sy) ->
  (length (rv_items (cview (sh_output s'))) <= length (rv_items (view_out sy)))%nat ->
  (rv_consumer_gone (view_out sy) = true -> rv_consumer_gone (cview (sh_output s')) = true) ->
  (output_work (cview (sh_output s')) (ot_pc t') + weight (cview (sh_output s'))
   < output_work (view_out sy) (ot_pc (sy_output sy)) + weight (view_out sy))%nat ->
  lower (mkSystem s' (sy_feed sy) (sy_engine sy) t') sy.
Proof.
  intros Ei Ec Hs Hl Hg Hw. unfold lower, to_apply, work. simpl. rewrite Ei, Ec. split; [done |].
  right. pose proof (engine_work_out (view_in sy) (view_out sy) (cview (sh_output s'))
                       (et_pc (sy_engine sy)) Hs Hl Hg). lia.
Qed.

Lemma record_event_pc t e t' :
  record_event cfg t e = Ret t' -> ot_pc t' = OtTry TryPop \/ ot_pc t' = OtFailed.
Proof.
  unfold record_event. intros (d & _ & H)%rbind_inv. destruct (ot_writer t) as [w |].
  - apply rbind_inv in H as ([w1 [u | err]] & _ & H).
    + apply rbind_inv in H as (n & _ & H). destruct (push_record _ w1 n) as [w2 []];
        injection H as <-; auto.
    + injection H as <-. auto.
  - injection H as <-. auto.
Qed.

Lemma drained_pc s t :
  ot_pc (drained cfg s t) = OtReceive (recv (sh_output s)) \/ ot_pc (drained cfg s t) = OtFailed.
Proof.
  unfold drained. destruct (pc_journal_sync cfg); auto. destruct (0 <? ot_since_flush t); auto.
  destruct (ot_writer t) as [w |]; auto. destruct (Journal.flush w) as [w' []]; auto.
Qed.

Lemma output_progress sy sy' log :
  step cfg (ec_run_id ec) sy Output = Ret (sy', log) ->
  if blocked sy Output then stalled sy' sy else lower sy' sy.
Proof.
  unfold step, output_step, blocked.
  destruct (ot_pc (sy_output sy)) as [j | err | pc | pc | | | o | o] eqn:Epc.
  - intros [= <- <-]. apply output_lower; try done. rewrite Epc. unfold open_journal.
    destruct j; [simpl; lia |]. destruct (pc_journal_path cfg); [| simpl; lia].
    destruct (Journal.create _ _ _); simpl; lia.
  - intros [= <- <-]. apply output_lower; try done. rewrite Epc. simpl. lia.
  - destruct (try_step _ pc) as [c' r] eqn:Et. apply try_step_rank in Et. destruct r as [pc' | [e |]].
    + destruct Et as (Ht & Ht' & [M1 M2 M3 M4]). intros [= <- <-].
      apply output_lower; simpl; try done; try lia; [by rewrite M3 |].
      rewrite Epc. unfold weight. destruct pc, pc'; simpl in *; try done; lia.
    + destruct Et as (Ev & Ht & _).
      intros ([s t] & (t' & E & [= <- <-])%rbind_inv & [= <- <-])%rbind_inv.
      apply output_lower; simpl; rewrite ?Ev; try done. rewrite Epc.
      destruct pc; [done |]. destruct (record_event_pc _ _ _ E) as [-> | ->]; simpl; lia.
    + destruct Et as (Ev & Ht & _). intros [= <- <-].
      apply output_lower; simpl; rewrite ?Ev; try done. rewrite Epc. destruct pc; [| done].
      destruct (drained_pc (set_output (sy_shared sy) c') (sy_output sy)) as [-> | ->]; simpl; [| lia].
      pose proof (proj2 (recv_rank_le (view_out sy) (recv c')) eq_refl). simpl in *. lia.
  - intros ([s t] & ([c' r] & Es & H)%rbind_inv & [= <- <-])%rbind_inv. apply recv_step_rank in Es.
    destruct (recv_blocked (view_out sy) pc) eqn:Ebl.
    + destruct Es as (Ev & pc' & -> & Hb' & Hh & Hh0 & Hr). injection H as <- <-.
      unfold stalled, to_apply, work. simpl. rewrite Epc, Ev. simpl. rewrite Hr.
      split_and!; try done. intros [| | |]; simpl; rewrite ?Ev, ?Epc; try done. by rewrite Hb', Ebl.
    + pose proof (proj1 (recv_rank_le (view_out sy) pc)) as Hr. destruct r as [pc' | [e |]].
      * destruct Es as (Hh & [M1 M2 M3 M4] & Hw). injection H as <- <-.
        apply output_lower; simpl; try done; try lia; [by rewrite M3 |]. rewrite Epc. simpl. lia.
      * destruct Es as (Ev & Hh). apply rbind_inv in H as (t' & E & [= <- <-]).
        apply output_lower; simpl; rewrite ?Ev; try done. rewrite Epc. simpl.
        assert (recv_rank (view_out sy) pc = 6%nat) by (destruct pc as [[] | | []]; done).
        destruct (record_event_pc _ _ _ E) as [-> | ->]; simpl; lia.
      * destruct Es as (Ev & Hh). injection H as <- <-.
        apply output_lower; simpl; rewrite ?Ev; try done. rewrite Epc. simpl. lia.
  - intros [= <- <-]. apply output_lower; try done. rewrite Epc. simpl. lia.
  - intros [= <- <-]. apply output_lower; try done. rewrite Epc. unfold finish_output.
    destruct (ot_writer _); [destruct (Journal.sync _) as [? []] |]; simpl; lia.
  - intros [= <- <-]. apply output_lower; simpl; unfold cview, weight; simpl;
      rewrite ?drop_consumer_view; simpl; try done. rewrite Epc. simpl. lia.
  - intros [= <- <-]. unfold stalled. destruct sy. done.
Qed.

(** ** The engine *)

Lemma engine_lower sy s' t' :
  (to_apply (mkSystem s' (sy_feed sy) t' (sy_output sy)) <= to_apply sy)%nat ->
  (to_apply (mkSystem s' (sy_feed sy) t' (sy_output sy)) < to_apply sy)%nat
  \/ rv_slots (cview (sh_input s')) = rv_slots (view_in sy)
     /\ (length (rv_items (cview (sh_input s'))) <= length (rv_items (view_in sy)))%nat
     /\ (rv_consumer_gone (view_in sy) = true -> rv_consumer_gone (cview (sh_input s')) = true)
     /\ (length (rv_items (view_out sy)) <= length (rv_items (cview (sh_output s'))))%nat
     /\ (rv_producer_gone (view_out sy) = true -> rv_producer_gone (cview (sh_output s')) = true)
     /\ (engine_work (cview (sh_input s')) (cview (sh_output s')) (et_pc t')
         + weight (cview (sh_input s')) + weight (cview (sh_output s'))
         < engine_work (view_in sy) (view_out sy) (et_pc (sy_engine sy))
           + weight (view_in sy) + weight (view_out sy))%nat ->
  lower (mkSystem s' (sy_feed sy) t' (sy_output sy)) sy.
Proof.
  intros Hn [Hlt | (H1 & H2 & H3 & H4 & H5 & H6)]; [by split; [| left] |]. split; [done |]. right.
  unfold work. simpl. pose proof (feed_work_mono _ _ (sy_feed sy) H1 H2 H3).
  pose proof (output_work_mono _ _ (ot_pc (sy_output sy)) H4 H5). lia.
Qed.

(** A step that leaves both channels as they look. *)
Lemma engine_lower_local sy s' t' :
  cview (sh_input s') = view_in sy -> cview (sh_output s') = view_out sy ->
  (to_apply (mkSystem s' (sy_feed sy) t' (sy_output sy)) <= to_apply sy)%nat ->
  (to_apply (mkSystem s' (sy_feed sy) t' (sy_output sy)) < to_apply sy)%nat
  \/ (engine_work (view_in sy) (view_out sy) (et_pc t')
      < engine_work (view_in sy) (view_out sy) (et_pc (sy_engine sy)))%nat ->
  lower (mkSystem s' (sy_feed sy) t' (sy_output sy)) sy.
Proof.
  intros Ei Eo Hn [H | H]; apply engine_lower; try done; [by left |]. right. rewrite Ei, Eo.
  split_and!; try done. lia.
Qed.

(** Where the thread stands once a batch is on its way. *)
Lemma send_batch_pc s t after batch t' :
  send_batch cfg s t after batch = Ret t' ->
  in_loop (et_pc t') = true /\ length (engine_holds (et_pc t')) = length (held_after after)
  /\ latch_read (et_pc t') = length (held_after after)
  /\ forall vi vo, (engine_work vi vo (et_pc t') < 15 + 17 * length batch)%nat.
Proof.
  unfold send_batch. destruct batch as [| e rest].
  - unfold resume. destruct after as [p |].
    + intros [= <-]. simpl. split_and!; try done. intros. lia.
    + intros (due & _ & [= <-])%rbind_inv. simpl. destruct due; simpl; split_and!; try done; intros; try lia.
      pose proof (proj2 (recv_rank_le vi (recv (sh_input s))) eq_refl). simpl in *. lia.
  - intros [= <-]. simpl. destruct after; simpl; split_and!; try done; intros vi vo;
      pose proof (send_rank_le vo (send (sh_output s) e)); simpl in *; lia.
Qed.

Lemma apply_event_pc s t event recv_time after t' :
  apply_event cfg s t event recv_time after = Ret t' ->
  in_loop (et_pc t') = true /\ length (engine_holds (et_pc t')) = length (held_after after)
  /\ latch_read (et_pc t') = length (held_after after).
Proof. intros (q & _ & H)%rbind_inv. apply send_batch_pc in H as (? & ? & ? & _). done. Qed.

Lemma after_loop_pc vi vo :
  in_loop (after_loop cfg) = false /\ (engine_work vi vo (after_loop cfg) <= 5)%nat.
Proof. unfold after_loop. destruct (0 <? pc_snapshot_interval cfg); simpl; split; done || lia. Qed.

Lemma receive_progress sy sy' log r :
  et_pc (sy_engine sy) = EnReceive r -> step cfg (ec_run_id ec) sy EngineA = Ret (sy', log) ->
  if blocked sy EngineA then stalled sy' sy else lower sy' sy.
Proof.
  intros Epc. unfold step, engine_step, blocked. rewrite Epc.
  intros ([s t] & ([c' x] & Es & [= <- <-])%rbind_inv & [= <- <-])%rbind_inv.
  apply recv_step_rank in Es. destruct (recv_blocked (view_in sy) r) eqn:Ebl.
  - destruct Es as (Ev & r' & -> & Hb & Hh & Hh0 & Hr). unfold stalled, to_apply, work. simpl.
    rewrite Epc, Ev. simpl. rewrite Hh, Hh0, Hr. split_and!; try done.
    intros [| | |]; simpl; rewrite ?Ev, ?Epc; try done. by rewrite Hb, Ebl.
  - pose proof (proj1 (recv_rank_le (view_in sy) r)) as Hr. destruct x as [r' | [p |]].
    + destruct Es as (Hh & [M1 M2 M3 M4] & Hw). apply engine_lower; simpl.
      * unfold to_apply. simpl. rewrite Epc. simpl. rewrite Hh. simpl. lia.
      * right. rewrite Epc, M1. simpl. split_and!; try done; try lia. by rewrite M3.
    + destruct Es as (Ev & Hh).
      assert (recv_rank (view_in sy) r = 6%nat) by (destruct r as [[] | | []]; done).
      apply engine_lower_local; simpl; try done.
      * unfold to_apply. simpl. rewrite Epc, Ev. simpl. lia.
      * right. rewrite Epc. simpl. lia.
    + destruct Es as (Ev & Hh). destruct (after_loop_pc (view_in sy) (view_out sy)) as [Hl Hw].
      apply engine_lower_local; simpl; try done.
      * unfold to_apply. simpl. rewrite Hl. lia.
      * right. rewrite Epc. simpl. lia.
Qed.

Lemma send_progress sy sy' log after pc rest :
  et_pc (sy_engine sy) = EnSend after pc rest -> step cfg (ec_run_id ec) sy EngineA = Ret (sy', log) ->
  if blocked sy EngineA then stalled sy' sy else lower sy' sy.
Proof.
  intros Epc. unfold step, engine_step, blocked. rewrite Epc.
  assert (Hlatch : forall a s r, latch_read (EnSend a s r) = length (held_after a)
                     /\ length (engine_holds (EnSend a s r)) = length (held_after a)) by by intros [].
  intros ([s t] & ([c' x] & Es & (t1 & H & [= <- <-])%rbind_inv)%rbind_inv & [= <- <-])%rbind_inv.
  apply send_step_rank in Es. destruct (send_blocked (view_out sy) pc) eqn:Ebl.
  - destruct Es as (Ev & pc' & -> & Hb & Hh & Hr). injection H as <-.
    unfold stalled, to_apply, work. simpl. rewrite Epc, Ev. simpl. rewrite Hr.
    split_and!; try done. intros [| | |]; simpl; rewrite ?Ev, ?Epc; try done. by rewrite Hb, Ebl.
  - pose proof (send_rank_le (view_out sy) pc) as Hr. destruct x as [pc' | []].
    + destruct Es as (k & [M1 M2 M3 M4] & Hk & Hw). injection H as <-. apply engine_lower; simpl.
      * unfold to_apply. simpl. rewrite Epc. simpl. lia.
      * right. rewrite Epc. simpl. split_and!; try done; try lia. by rewrite M2.
    + destruct Es as (Ev & Hh). apply send_batch_pc in H as (Hl & Hn & Hla & Hw).
      apply engine_lower_local; simpl; try done.
      * unfold to_apply. simpl. rewrite Epc, Hl, Hn, Hla. destruct (Hlatch after pc rest) as [-> ->].
        done.
      * right. rewrite Epc. simpl. specialize (Hw (view_in sy) (view_out sy)). lia.
    + destruct Es as (Ev & _). injection H as <-. apply engine_lower_local; simpl; try done.
      * unfold to_apply. simpl. lia.
      * right. rewrite Epc. simpl. lia.
Qed.

(** The steps that read the latch and the commands lower what is to be applied. *)
Lemma control_progress sy sy' log p :
  et_pc (sy_engine sy) = EnCheckKill p \/ et_pc (sy_engine sy) = EnCommands p ->
  step cfg (ec_run_id ec) sy EngineA = Ret (sy', log) -> lower sy' sy.
Proof.
  intros [Epc | Epc]; unfold step, engine_step; rewrite Epc.
  - destruct (Bool.eqb _ _).
    + intros [= <- <-]. apply engine_lower_local; [done | done | | left]; unfold to_apply; simpl; rewrite Epc;
        simpl; lia.
    + intros ([s t] & (t' & H & [= <- <-])%rbind_inv & [= <- <-])%rbind_inv.
      apply apply_event_pc in H as (Hl & Hn & Hla). simpl in Hn, Hla.
      apply engine_lower_local; [done | done | | left]; unfold to_apply; simpl; rewrite Epc, Hl, Hn, Hla;
        simpl; lia.
  - destruct (aq_items (ctl_commands (sh_control (sy_shared sy)))) as [| cmd cmds] eqn:Eq.
    + rewrite (aq_pop_empty _ Eq).
      intros ([s t] & (t' & H & [= <- <-])%rbind_inv & [= <- <-])%rbind_inv.
      apply apply_event_pc in H as (Hl & Hn & Hla). simpl in Hn, Hla.
      apply engine_lower_local; [done | done | | left]; unfold to_apply; simpl; rewrite Epc, Hl, Hn, Hla, Eq;
        simpl; lia.
    + destruct (aq_pop_ok _ _ _ Eq) as (E1 & E2 & _).
      destruct (aq_pop (ctl_commands (sh_control (sy_shared sy)))) as [q o]. simpl in E1, E2. subst o.
      intros ([s t] & (t' & H & [= <- <-])%rbind_inv & [= <- <-])%rbind_inv.
      apply apply_event_pc in H as (Hl & Hn & Hla). simpl in Hn, Hla.
      apply engine_lower_local; [done | done | | left]; unfold to_apply; simpl;
        rewrite Epc, Hl, Hn, Hla, Eq, E2; simpl; lia.
Qed.

Lemma engine_progress sy sy' log :
  step cfg (ec_run_id ec) sy EngineA = Ret (sy', log) ->
  if blocked sy EngineA then stalled sy' sy else lower sy' sy.
Proof.
  intros H. destruct (et_pc (sy_engine sy)) as [r | p | p | p | after pc rest | last | last
    | | | o | o | o] eqn:Epc.
  - by eapply receive_progress.
  - unfold blocked. rewrite Epc. unfold step, engine_step in H. rewrite Epc in H. injection H as <- <-.
    destruct (sh_output_failed (sy_shared sy)); apply engine_lower_local; simpl; try done;
      unfold to_apply; simpl; rewrite ?Epc; simpl; lia.
  - unfold blocked. rewrite Epc. eapply control_progress; eauto.
  - unfold blocked. rewrite Epc. eapply control_progress; eauto.
  - by eapply send_progress.
  - unfold blocked. rewrite Epc. unfold step, engine_step in H. rewrite Epc in H.
    apply rbind_inv in H as ([s t] & H & [= <- <-]). apply rbind_inv in H as (snap & _ & H).
    destruct (aq_force_push _ snap) as [q [old |]]; injection H as <- <-;
      apply engine_lower_local; simpl; try done; unfold to_apply; simpl; rewrite Epc;
      destruct last; simpl; try lia;
      pose proof (proj2 (recv_rank_le (view_in sy) (recv (sh_input (sy_shared sy)))) eq_refl);
      simpl in *; lia.
  - unfold blocked. rewrite Epc. unfold step, engine_step in H. rewrite Epc in H. injection H as <- <-.
    apply engine_lower_local; simpl; try done; unfold to_apply; simpl; rewrite Epc;
      destruct last; simpl; try lia;
      pose proof (proj2 (recv_rank_le (view_in sy) (recv (sh_input (sy_shared sy)))) eq_refl);
      simpl in *; lia.
  - unfold blocked. rewrite Epc. unfold step, engine_step in H. rewrite Epc in H. injection H as <- <-.
    destruct (after_loop_pc (view_in sy) (view_out sy)) as [Hl Hw].
    apply engine_lower_local; simpl; try done; unfold to_apply; simpl; rewrite Epc, ?Hl; simpl; lia.
  - unfold blocked. rewrite Epc. unfold step, engine_step in H. rewrite Epc in H.
    apply rbind_inv in H as ([s t] & H & [= <- <-]). apply rbind_inv in H as (o & _ & [= <- <-]).
    apply engine_lower_local; simpl; try done; unfold to_apply; simpl; rewrite Epc; simpl; lia.
  - unfold blocked. rewrite Epc. unfold step, engine_step in H. rewrite Epc in H. injection H as <- <-.
    apply engine_lower; [unfold to_apply; simpl; lia |]. right. simpl. unfold cview, weight. simpl.
    rewrite drop_consumer_view, Epc. simpl. split_and!; try done. lia.
  - unfold blocked. rewrite Epc. unfold step, engine_step in H. rewrite Epc in H. injection H as <- <-.
    apply engine_lower; [unfold to_apply; simpl; lia |]. right. simpl. unfold cview, weight. simpl.
    rewrite drop_producer_view, Epc. simpl. split_and!; try done. lia.
  - unfold blocked. rewrite Epc. unfold step, engine_step in H. rewrite Epc in H. injection H as <- <-.
    unfold stalled. destruct sy. done.
Qed.

(** ** No deadlock *)

Definition threads : list Actor := [Feed; EngineA; Output].

Lemma send_blocked_inv {T} (v : RingView T) pc :
  (0 < rv_slots v)%nat -> send_blocked v pc = true -> empty v = false /\ rv_consumer_gone v = false.
Proof.
  unfold send_blocked, full, empty. intros Hs H.
  destruct pc; [| | done..]; apply andb_true_iff in H as [H1%Nat.leb_le H2%negb_true_iff];
    (split; [| done]); apply Nat.eqb_neq; lia.
Qed.

Lemma recv_blocked_inv {T} (v : RingView T) pc :
  recv_blocked v pc = true -> empty v = true /\ rv_producer_gone v = false.
Proof.
  destruct pc as [[] b | b | t]; simpl; try done;
    intros [H1 H2%negb_true_iff]%andb_true_iff; done.
Qed.

(** When every thread is blocked, every thread has ended. *)
Lemma no_deadlock g sy :
  (0 < pc_input_capacity cfg)%nat -> (0 < pc_output_capacity cfg)%nat -> sys_inv g sy ->
  Forall (fun a => blocked sy a = true) threads -> is_Some (joined cfg sy).
Proof.
  intros Hi Ho [Ci Co _ _ _ _] H. apply Forall_cons in H as [Hf H].
  apply Forall_cons in H as [He H]. apply Forall_cons in H as [Hout _].
  destruct Ci as [_ Si _ Pi Gi _ _], Co as [_ So _ Po Go _ _].
  unfold blocked in Hf, He, Hout. unfold feed_gone, input_dropped in Pi, Gi.
  unfold output_dropped, output_gone in Po, Go. unfold joined.
  assert (Hout' : (exists o, ot_pc (sy_output sy) = OtDone o)
                  \/ empty (view_out sy) = true /\ rv_producer_gone (view_out sy) = false
                     /\ rv_consumer_gone (view_out sy) = false).
  { destruct (ot_pc (sy_output sy)) eqn:E; try done; [right | eauto].
    apply recv_blocked_inv in Hout as [? ?]. done. }
  assert (Hf' : fd_pc (sy_feed sy) = FeedDone
                \/ empty (view_in sy) = false /\ rv_consumer_gone (view_in sy) = false
                   /\ rv_producer_gone (view_in sy) = false).
  { destruct (fd_pc (sy_feed sy)) eqn:E; try done; [right | auto].
    apply send_blocked_inv in Hf as [? ?]; [done | lia]. }
  destruct (et_pc (sy_engine sy)) as [r | | | | a s rest | | | | | | | e] eqn:Ee; try done.
  - apply recv_blocked_inv in He as [He Hg]. destruct Hf' as [Hd | (? & _)]; [| congruence].
    rewrite Hd in Pi. congruence.
  - apply send_blocked_inv in He as [He Hg]; [| lia].
    destruct Hout' as [[o Hd] | (? & _)]; [| congruence]. rewrite Hd in Go. congruence.
  - destruct Hf' as [-> | (_ & ? & _)]; [| congruence].
    destruct Hout' as [[o ->] | (_ & ? & _)]; [by eexists | congruence].
Qed.

(** ** Fair schedules *)

(** Every thread runs again and again, and nobody calls from outside. *)
Definition fair (schedule : nat -> Actor) : Prop :=
  (forall n, schedule n ∈ threads)
  /\ forall a n, a ∈ threads -> exists m, (n <= m)%nat /\ schedule m = a.

Definition steps (schedule : nat -> Actor) (n k : nat) : list Actor := map schedule (seq n k).

Lemma run_app sy l1 l2 :
  run cfg (ec_run_id ec) sy (l1 ++ l2)
  = (let! (sy1, log1) := run cfg (ec_run_id ec) sy l1 in
     let! (sy2, log2) := run cfg (ec_run_id ec) sy1 l2 in Ret (sy2, log1 ++ log2)).
Proof.
  revert sy. induction l1 as [| a l1 IH]; intros sy; simpl.
  - by destruct (run _ _ sy l2) as [[] |].
  - destruct (step _ _ sy a) as [[sy1 log1] |]; [| done]. cbn [rbind]. rewrite IH.
    destruct (run _ _ sy1 l1) as [[sy2 log2] |]; [| done]. cbn [rbind].
    destruct (run _ _ sy2 l2) as [[sy3 log3] |]; [| done]. cbn [rbind]. by rewrite app_assoc.
Qed.

(** The step of a thread: it keeps the invariant, and it makes progress unless
    it is blocked. *)
Lemma thread_step g sy a :
  a ∈ threads -> sys_inv g sy -> in_budget source g ->
  exists g' sy', run cfg (ec_run_id ec) sy [a] = Ret (sy', []) /\ sys_inv g' sy'
    /\ in_budget source g' /\ if blocked sy a then stalled sy' sy else lower sy' sy.
Proof.
  intros Ha I Hb.
  destruct (step_inv ec cfg source journal W g sy a Hb I) as (g' & sy' & log & E & I' & A & L).
  assert (Hs : submits [a] = 0%nat /\ accepted_of log = [] /\ log = []
               /\ if blocked sy a then stalled sy' sy else lower sy' sy).
  { unfold threads in Ha. assert (a = Feed \/ a = EngineA \/ a = Output) as [-> | [-> | ->]] by set_solver.
    - pose proof (feed_progress g sy sy' log I Hb E) as Hp.
      unfold step in E. apply rbind_inv in E as ([s t] & _ & [= <- <-]). done.
    - pose proof (engine_progress sy sy' log E) as Hp.
      unfold step in E. apply rbind_inv in E as ([s t] & _ & [= <- <-]). done.
    - pose proof (output_progress sy sy' log E) as Hp.
      unfold step in E. apply rbind_inv in E as ([s t] & _ & [= <- <-]). done. }
  destruct Hs as (_ & Ea & -> & Hp). exists g', sy'. simpl. rewrite E. cbn [rbind].
  split_and!; try done. unfold in_budget in *. by rewrite A, Ea, app_nil_r.
Qed.

(** Where a thread can move, a fair schedule gets to lower the measure. *)
Lemma fair_lowers schedule a m n g sy :
  fair schedule -> a ∈ threads -> schedule m = a -> (n <= m)%nat ->
  sys_inv g sy -> in_budget source g -> blocked sy a = false ->
  exists k g' sy', run cfg (ec_run_id ec) sy (steps schedule n k) = Ret (sy', [])
    /\ sys_inv g' sy' /\ in_budget source g' /\ lower sy' sy.
Proof.
  intros F Ha Hm. remember (m - n)%nat as d eqn:Ed. revert n g sy Ed.
  induction d as [| d IH]; intros n g sy Ed Hn I Hb Hbl;
    destruct (thread_step g sy (schedule n) (proj1 F n) I Hb) as (g1 & sy1 & E1 & I1 & B1 & Hp).
  - assert (n = m) as -> by lia. rewrite Hm, Hbl in Hp. exists 1%nat, g1, sy1. done.
  - destruct (blocked sy (schedule n)) eqn:Eb; [| exists 1%nat, g1, sy1; done].
    destruct Hp as (H1 & H2 & H3).
    destruct (IH (S n) g1 sy1) as (k & g2 & sy2 & E2 & I2 & B2 & L2); try done; try lia.
    { by rewrite H3. }
    exists (S k), g2, sy2. unfold steps. cbn [seq map].
    change (schedule n :: map schedule (seq (S n) k)) with ([schedule n] ++ steps schedule (S n) k).
    rewrite run_app, E1. cbn [rbind]. rewrite E2. split_and!; try done.
    unfold lower in *. by rewrite H1, H2 in L2.
Qed.

Lemma fair_finishes schedule n g sy :
  (0 < pc_input_capacity cfg)%nat -> (0 < pc_output_capacity cfg)%nat ->
  fair schedule -> sys_inv g sy -> in_budget source g ->
  exists k sy', run cfg (ec_run_id ec) sy (steps schedule n k) = Ret (sy', [])
    /\ is_Some (joined cfg sy').
Proof.
  intros Hi Ho F. remember (to_apply sy) as N eqn:EN. revert n g sy EN.
  induction N as [N IHN] using lt_wf_ind. intros n g sy EN.
  remember (work sy) as M eqn:EM. revert n g sy EN EM.
  induction M as [M IHM] using lt_wf_ind. intros n g sy EN EM I Hb.
  destruct (decide (Forall (fun a => blocked sy a = true) threads)) as [Hall | Hsome].
  { exists 0%nat, sy. split; [done |]. by eapply no_deadlock. }
  apply not_Forall_Exists in Hsome; [| apply _].
  apply Exists_exists in Hsome as (a & Ha & Hbl%not_true_iff_false).
  destruct (proj2 F a n Ha) as (m & Hnm & Hm).
  destruct (fair_lowers schedule a m n g sy F Ha Hm Hnm I Hb Hbl) as (k & g1 & sy1 & E1 & I1 & B1 & L1).
  assert (Hrest : exists k' sy', run cfg (ec_run_id ec) sy1 (steps schedule (n + k) k') = Ret (sy', [])
                                 /\ is_Some (joined cfg sy')).
  { destruct L1 as [Hle Hlt]. destruct (decide (to_apply sy1 < to_apply sy)%nat) as [Hd | Hd].
    - eapply (IHN (to_apply sy1)); [lia | done | exact I1 | done].
    - eapply (IHM (work sy1)); [lia | lia | done | exact I1 | done]. }
  destruct Hrest as (k' & sy' & E' & J). exists (k + k')%nat, sy'. split; [| done].
  unfold steps in *. rewrite seq_app, map_app, run_app, E1. cbn [rbind]. by rewrite E'.
Qed.

End Live.
