(* ===== verification/PipelineSamples.v ===== *)
(** A concrete platform and a concrete run of the pipeline, on which its theorems
    are instantiated. *)

From S2P Require Import Prelude Enums Ids Events BTree Slab Book Market MarketInv MarketTheorems.
From S2P Require Import Account Config CoreState Core CoreApply CoreRun CoreTheorems Read Canonical.
From S2P Require Import Codec CodecTheorems Wire Journal JournalTheorems Queue QueueProps Replay.
From S2P Require Import ReplayTheorems Snapshot Pipeline PipelineInv PipelineLive.

(** Lists for the queues, a map for the slab, the bytes themselves as their hash
    and as a file. *)
#[export] Instance list_platform : Platform := {|
  Store := gmap nat OrderNode;
  Hash := bytes;
  InRing := RingView EngineInput;
  OutRing := RingView OutputEvent.t;
  Commands := list ControlCommand.t * nat;
  Snapshots := list EngineSnapshot * nat;
  FileSink := bytes;
  IoError := unit;
  Path := unit;
  crc32 := sum32;
  open_file _ := Ok []
|}.

#[export] Instance list_platform_laws : PlatformLaws list_platform.
Proof.
  split; try exact _.
  - apply sum32_u32.
  - by intros [] sink [= <-].
Defined.

Definition sample_control : ControlHandle := mkControlHandle false ([], 4%nat) ([], 2%nat) 0 false.

(** Small queues, a journal on a file, a snapshot after every second input. *)
Definition sample_pipeline : PipelineConfig :=
  mkPipelineConfig 2 2 64 (Adaptive 1 1) (Some tt) (GroupCommit 2) true 0 2 4 false.

Definition sample_start : System :=
  start sample_config sample_pipeline (Memory sample_inputs) sample_control None.

Lemma sample_setup : setup_wf sample_config sample_pipeline (Memory sample_inputs) None.
Proof.
  constructor; try done.
  - apply sample_config_wf.
  - apply sample_inputs_wf.
Qed.

(** The three threads in turn. *)
Definition turns (n : nat) : Actor :=
  match (n mod 3)%nat with 0%nat => Feed | 1%nat => EngineA | _ => Output end.

Definition reached (before : list Actor) : System :=
  match run sample_pipeline 1 sample_start before with
  | Ret (sy, _) => sy
  | Panic => sample_start
  end.

Definition returned (before : list Actor) : list Returned :=
  match run sample_pipeline 1 sample_start before with
  | Ret (_, log) => log
  | Panic => []
  end.

Definition returns (before : list Actor) : bool :=
  match run sample_pipeline 1 sample_start before with Ret _ => true | Panic => false end.

Lemma reached_ok before :
  returns before = true ->
  run sample_pipeline 1 sample_start before = Ret (reached before, returned before).
Proof. unfold returns, reached, returned. by destruct (run _ _ _ before) as [[] |]. Qed.

Lemma reached_after before after :
  returns (before ++ after) = true ->
  exists log, run sample_pipeline 1 (reached before) after = Ret (reached (before ++ after), log).
Proof.
  unfold returns, reached. rewrite (run_app sample_config sample_pipeline).
  destruct (run _ _ _ before) as [[sy1 log1] |]; [| done]. cbn [rbind].
  destruct (run _ _ sy1 after) as [[sy2 log2] |]; [| done]. by eexists.
Qed.
