(* ===== verification/PipelineTheorems.v ===== *)
(** What the pipeline promises, for every interleaving of its threads with each
    other and with the holders of the control handle. *)

From S2P Require Import Prelude Enums Ids Events BTree Slab Book Market MarketInv MarketTheorems.
From S2P Require Import Account Config CoreState Core CoreApply CoreRun CoreTheorems Read Canonical.
From S2P Require Import Codec CanonicalProps CodecProps CodecTheorems Wire Journal JournalProps.
From S2P Require Import JournalTheorems Queue QueueProps Replay ReplayState ReplayTheorems CoreTyped Snapshot.
From S2P Require Import Pipeline PipelineInv PipelineFeed PipelineOut PipelineEng.
From S2P Require Import PipelineRun PipelineLive PipelineSamples.

(** * Typed streams *)

Lemma stamp_typed os : forall n clock,
  0 <= n -> n + Z.of_nat (length os) <= u32_max -> in_u64 clock ->
  Forall input_typed (fed os) -> Forall control_wf (queued os) -> Forall input_typed (stamp n clock os).
Proof.
  induction os as [| o os IH]; intros n clock H0 Hn Hc Hf Hq; [constructor |]. cbn [length] in Hn.
  assert (Ho : in_u64 (origin_time clock o) /\ input_event_wf (origin_event o)
               /\ Forall input_typed (fed os) /\ Forall control_wf (queued os)).
  { destruct o as [input | engaged | command]; [apply Forall_cons in Hf as [[] Hf] | | apply Forall_cons in Hq as [? Hq]];
      by split_and!. }
  destruct Ho as (Ht & He & Hfs & Hqs). cbn [stamp]. constructor.
  - constructor; simpl; [mach | done | done].
  - apply IH; [lia | lia | done..].
Qed.

Lemma stamped_typed os :
  Z.of_nat (length os) <= u32_max -> Forall input_typed (fed os) -> Forall control_wf (queued os) ->
  Forall input_typed (stamped os).
Proof. intros Hn. apply stamp_typed; [done | done | mach]. Qed.

Lemma records_complete crc (l : list OutputEvent.t) k :
  (length (records_bytes crc l) <= k)%nat -> take (complete crc l k) l = l.
Proof.
  intros Hk. apply take_ge. destruct (Nat.lt_ge_cases (complete crc l k) (length l)) as [Hn | ?]; [| done].
  pose proof (complete_max crc l k Hn) as Hm.
  assert (Hle : (length (records_bytes crc (take (S (complete crc l k)) l)) <= length (records_bytes crc l))%nat).
  { pose proof (f_equal (length ∘ records_bytes crc) (take_drop (S (complete crc l k)) l)) as E.
    simpl in E. rewrite records_bytes_app, length_app in E. lia. }
  lia.
Qed.

Section Theorems.
Context {P : Platform} {PL : PlatformLaws P}.

(** The schedule leaves the engine within its capacity: every feed input can be
    preceded by one change of the kill latch, and every accepted command is an
    input. *)
Definition schedule_fits (source : FeedSource) (control : ControlHandle) (schedule : list Actor) : Prop :=
  2 * Z.of_nat (length (feed_inputs source))
  + Z.of_nat (length (aq_items (ctl_commands control))) + Z.of_nat (submits schedule) < u32_max.

(** Where everything is in a state of the system: [os] are the origins of the
    inputs the engine has applied, [out] its outputs and [handled] the ones the
    output thread has recorded. *)
Record conserved (ec : EngineConfig) (cfg : PipelineConfig) (source : FeedSource)
    (control : ControlHandle) (journal : option (Journal.JournalWriter (W := FileSink)))
    (sy : System) (log : list Returned) (os : list Origin) (out handled : list OutputEvent.t)
  : Prop := {
  cs_engine : engine_run (Core.new ec) (stamped os)
              = Ret (sq_core (et_sequencer (sy_engine sy)), out);
  cs_commands : queued os ++ aq_items (ctl_commands (sh_control (sy_shared sy)))
                = aq_items (ctl_commands control) ++ accepted_of log;
  cs_fed : fed os `prefix_of` feed_inputs source;
  cs_inputs : et_output_lost (sy_engine sy) = false ->
    fed os ++ engine_holds (et_pc (sy_engine sy)) ++ rv_items (cview (sh_input (sy_shared sy)))
    `prefix_of` feed_inputs source;
  cs_handled : handled `prefix_of` out;
  cs_outputs : et_output_lost (sy_engine sy) = false ->
    out = handled ++ output_holds (ot_pc (sy_output sy))
          ++ rv_items (cview (sh_output (sy_shared sy))) ++ engine_unsent (et_pc (sy_engine sy));
  cs_recorded : recorded (ot_recorder (sy_output sy)) [] handled;
  cs_journal pc : ot_pc (sy_output sy) = OtTry pc ->
    writer_ok ec cfg journal handled (ot_writer (sy_output sy));
  cs_input_bound :
    (length (rv_items (cview (sh_input (sy_shared sy)))) <= pc_input_capacity cfg)%nat
    /\ qs_high_water (ch_stats (sh_input (sy_shared sy))) <= Z.of_nat (pc_input_capacity cfg) + 1;
  cs_output_bound :
    (length (rv_items (cview (sh_output (sy_shared sy)))) <= pc_output_capacity cfg)%nat
    /\ qs_high_water (ch_stats (sh_output (sy_shared sy))) <= Z.of_nat (pc_output_capacity cfg) + 1
}.

(** C26: Nothing is lost, duplicated or reordered on the way.  Under every
    schedule no thread panics, and in the state reached the engine has applied
    exactly the inputs of [stamped os]: the feed's inputs in feed order, the
    accepted commands in submission order and the changes of the latch.  What
    the engine has not yet applied is in its hand or in the input queue, in
    order; every output of the engine is recorded, in the output thread's hand,
    in the output queue or still to be sent, in order; without a journal error
    the journal holds exactly the recorded outputs.  The queues never exceed
    their capacity, and the sampled high-water marks exceed it by one at most. *)
Theorem pipeline_conserves ec cfg source control journal schedule :
  setup_wf ec cfg source journal -> schedule_fits source control schedule ->
  exists sy log os out handled,
    run cfg (ec_run_id ec) (start ec cfg source control journal) schedule = Ret (sy, log)
    /\ conserved ec cfg source control journal sy log os out handled.
Proof.
  intros W Hb. destruct (start_run ec cfg source journal W control schedule Hb)
    as (g & sy & log & E & [Ci Co Hc F Eng O] & A & B & _).
  exists sy, log, (g_origins g), (g_out g), (g_handled g). split; [done |].
  pose proof Eng as [Hq Hf Ho _ _ _ _ _]. destruct O as [Hr Hg Hs Hp].
  pose proof (feed_sent_prefix _ _ _ _ _ _ F) as Hsent.
  pose proof (proj1 (chan_ahead (pc_wait cfg) _ _ _ _ _ _ _ _ Ci)) as Htaken.
  pose proof (proj1 (chan_ahead (pc_wait cfg) _ _ _ _ _ _ _ _ Co)) as Hgot.
  assert (Hhandled : g_handled g `prefix_of` g_pushed g)
    by (etrans; [| exact Hgot]; rewrite Hg; by apply prefix_app_r).
  constructor; try done.
  - apply Hq.
  - by rewrite Hc, A.
  - etrans; [| exact Hsent]. etrans; [| exact Htaken].
    destruct (et_output_lost (sy_engine sy)); [done |]. rewrite Hf. by apply prefix_app_r.
  - intros El. rewrite El in Hf. by rewrite app_assoc, <- Hf, (co_items _ _ _ _ _ _ _ _ _ Ci).
  - etrans; [exact Hhandled |]. destruct (et_output_lost (sy_engine sy)); [done |].
    rewrite Ho. by apply prefix_app_r.
  - intros El. rewrite El in Ho.
    by rewrite Ho, <- (co_items _ _ _ _ _ _ _ _ _ Co), Hg, <- !app_assoc.
  - intros pc Epc. unfold output_pc_ok in Hp. rewrite Epc in Hp. apply Hp.
  - split; [apply Ci | apply (so_high _ _ _ _ _ _ (co_stats _ _ _ _ _ _ _ _ _ Ci))].
  - split; [apply Co | apply (so_high _ _ _ _ _ _ (co_stats _ _ _ _ _ _ _ _ _ Co))].
Qed.

(** * Completed runs *)

(** The journal after a run: the records of the outputs, after what the sink
    held, or no journal at all. *)
Definition journal_holds (ec : EngineConfig) (cfg : PipelineConfig)
    (journal writer : option (Journal.JournalWriter (W := FileSink)))
    (out : list OutputEvent.t) (records : Z) : Prop :=
  writer_ok ec cfg journal out writer
  /\ records = match writer with Some _ => Z.of_nat (length out) | None => 0 end.

(** Where a completed run without errors leaves the invariant. *)
Lemma joined_done ec cfg source journal g sy summary :
  sys_inv ec cfg source journal g sy -> joined cfg sy = Some (Ok summary) ->
  et_output_lost (sy_engine sy) = false
  /\ g_taken g = g_sent g /\ fed (g_origins g) = g_taken g
  /\ g_pushed g = g_out g /\ g_handled g = g_out g
  /\ fd_produced (sy_feed sy) = Z.of_nat (length (g_sent g))
  /\ (ctl_shutdown (sh_control (sy_shared sy)) = false -> g_sent g = feed_inputs source).
Proof.
  intros [Ci Co Hc F E O] Hj. unfold joined in Hj.
  destruct (fd_pc (sy_feed sy)) eqn:Ef; try done.
  destruct (et_pc (sy_engine sy)) as [| | | | | | | | | | | e] eqn:Ee; try done.
  destruct (ot_pc (sy_output sy)) as [| | | | | | | o] eqn:Eo; try done.
  destruct (oo_journal_error o) eqn:Eerr; [done |]. destruct (eo_output_lost e) eqn:El; [done |].
  destruct E as [Hq Hf Hout _ _ _ Hleft Hpc]. unfold engine_pc_ok in Hpc. rewrite Ee in *.
  assert (Elost : et_output_lost (sy_engine sy) = false).
  { unfold outcome in Hpc. apply rbind_inv in Hpc as (d & _ & [= <-]). done. }
  rewrite Elost in Hf, Hout. destruct (Hleft Elost eq_refl) as [_ Hitems].
  destruct O as [Hr Hg Hs Hp]. unfold output_pc_ok in Hp. rewrite Eo in Hp, Hg.
  destruct (Hp Eerr) as (_ & _ & Hitems' & _). simpl in Hf, Hout, Hg.
  rewrite app_nil_r in Hf, Hout, Hg.
  pose proof (chan_empty (pc_wait cfg) _ _ _ _ _ _ _ _ Ci Hitems) as E1.
  pose proof (chan_empty (pc_wait cfg) _ _ _ _ _ _ _ _ Co Hitems') as E2.
  unfold feed_ok in F. rewrite Ef, Elost in F. destruct F as (_ & Hall & [? | Hprod]); [done |].
  split_and!; try done; try congruence. intros Hsh. destruct Hall; [congruence | done].
Qed.

Lemma joined_wf ec cfg source journal g sy summary :
  setup_wf ec cfg source journal -> sys_inv ec cfg source journal g sy ->
  joined cfg sy = Some (Ok summary) -> Forall input_wf (stamped (g_origins g)).
Proof.
  intros W I Hj. destruct (joined_done _ _ _ _ _ _ _ I Hj) as (_ & Etk & Efed & _).
  destruct I as [_ _ _ F _ _]. destruct (feed_sent_prefix _ _ _ _ _ _ F) as [k Hk].
  pose proof (feed_inputs_wf source (sw_source _ _ _ _ W)) as Hx. rewrite Hk in Hx.
  apply stamped_wf. rewrite Efed, Etk. by apply Forall_app in Hx as [? _].
Qed.

(** What a summary says of the stream [os], its outputs and the state [core]
    the engine reaches on it. *)
Record summarises (ec : EngineConfig) (cfg : PipelineConfig)
    (journal writer : option (Journal.JournalWriter (W := FileSink))) (os : list Origin)
    (out : list OutputEvent.t) (core : TradingCore Store) (summary : RunSummary) : Prop := {
  su_inputs : rs_inputs summary = Z.of_nat (length os);
  su_feed_inputs : rs_feed_inputs summary = Z.of_nat (length (fed os));
  su_captured : rs_captured_inputs summary = if pc_capture_inputs cfg then stamped os else [];
  su_outputs : rs_outputs summary = Z.of_nat (length out);
  su_trades : rs_trades summary = trades (tc_metrics core);
  su_journal : journal_holds ec cfg journal writer out (rs_journal_records summary);
  su_in_pushed : qr_pushed (rs_input_queue summary) = Z.of_nat (length (fed os));
  su_in_popped : qr_popped (rs_input_queue summary) = Z.of_nat (length (fed os));
  su_out_pushed : qr_pushed (rs_output_queue summary) = Z.of_nat (length out);
  su_out_popped : qr_popped (rs_output_queue summary) = Z.of_nat (length out);
  su_input_digest : rs_input_digest summary = blake3_hash (mjoin (input_bytes <$> stamped os));
  su_output_digest : rs_output_digest summary = blake3_hash (mjoin (output_bytes <$> out));
  su_state_digest : state_digest core = Ret (rs_state_digest summary)
}.

Lemma joined_summary ec cfg source journal g sy summary :
  sys_inv ec cfg source journal g sy -> joined cfg sy = Some (Ok summary) ->
  summarises ec cfg journal (ot_writer (sy_output sy)) (g_origins g) (g_out g)
    (sq_core (et_sequencer (sy_engine sy))) summary.
Proof.
  intros I Hj. destruct (joined_done _ _ _ _ _ _ _ I Hj) as (El & Etk & Efed & Epu & Ehd & Eprod & _).
  destruct I as [Ci Co Hc F [Hq _ _ _ _ _ _ Hpc] [Hr Hg _ Hp]].
  destruct Hq as [_ _ _ _ _ [Q1 _ Q3 _] Hcap], Hr as [_ Q2 _ Q4]. rewrite stamped_length in Q3.
  unfold joined in Hj. destruct (fd_pc (sy_feed sy)) eqn:Ef; try done.
  destruct (et_pc (sy_engine sy)) as [| | | | | | | | | | | e] eqn:Ee; try done.
  destruct (ot_pc (sy_output sy)) as [| | | | | | | o] eqn:Eo; try done.
  destruct (oo_journal_error o) eqn:Eerr; [done |]. destruct (eo_output_lost e); [done |].
  injection Hj as <-. unfold engine_pc_ok in Hpc. rewrite Ee in Hpc.
  apply rbind_inv in Hpc as (d & Hd & [= <-]). unfold output_pc_ok in Hp. rewrite Eo in Hp.
  destruct (Hp Eerr) as (Hw & _ & _ & -> & -> & ->).
  pose proof (co_stats _ _ _ _ _ _ _ _ _ Ci) as [S1 S2 _ _ _].
  pose proof (co_stats _ _ _ _ _ _ _ _ _ Co) as [S3 S4 _ _ _].
  unfold feed_counting, engine_popping, engine_counting, output_popping in S1, S2, S3, S4.
  rewrite Ef in S1. rewrite Ee in S2, S3. rewrite Eo in S4. simpl in S1, S2, S3, S4, Hg.
  rewrite app_nil_r in Hg. rewrite Hg, Ehd in S4. rewrite Epu in S3. rewrite Ehd in *.
  constructor; simpl; rewrite ?Efed, ?Etk; rewrite ?Etk in S2; try done; try lia.
  - rewrite Hcap. by destruct (pc_capture_inputs cfg).
  - split; [done |]. unfold records_of. destruct (ot_writer (sy_output sy)); [apply Hw | done].
  - unfold Recorder.input_digest. by rewrite Q1, finalize_updates.
  - unfold Recorder.output_digest. by rewrite Q2, finalize_updates.
Qed.

(** C27: A run is one stream that replays exactly.  When a run ends without an
    error, whatever the schedule was, there is one sequence of origins (the
    feed's inputs in order, all of them unless a shutdown was requested, mixed
    with accepted commands in their order and changes of the latch) such that
    the summary counts and digests exactly that stream, its outputs and the
    state the engine reaches on it, the captured inputs are that stream, every
    output was recorded and is in the journal, both queues were emptied, and
    replaying the stream gives the same three digests. *)
Theorem run_replays_exactly ec cfg source control journal schedule sy log summary interval :
  setup_wf ec cfg source journal -> schedule_fits source control schedule ->
  0 < interval <= u64_max ->
  run cfg (ec_run_id ec) (start ec cfg source control journal) schedule = Ret (sy, log) ->
  joined cfg sy = Some (Ok summary) ->
  exists os out r result,
    fed os `prefix_of` feed_inputs source
    /\ (ctl_shutdown (sh_control (sy_shared sy)) = false -> fed os = feed_inputs source)
    /\ queued os `prefix_of` aq_items (ctl_commands control) ++ accepted_of log
    /\ engine_run (Core.new ec) (stamped os) = Ret (rp_core r, out)
    /\ summarises ec cfg journal (ot_writer (sy_output sy)) os out (rp_core r) summary
    /\ Driver.run (Driver.new (Core.new ec) interval) (stamped os) = Ret r
    /\ Driver.finish r = Ret result
    /\ rr_inputs result = rs_inputs summary /\ rr_outputs result = rs_outputs summary
    /\ rr_input_digest result = rs_input_digest summary
    /\ rr_output_digest result = rs_output_digest summary
    /\ rr_state_digest result = rs_state_digest summary.
Proof.
  intros W Hb Hi Erun Hj.
  destruct (start_run ec cfg source journal W control schedule Hb) as (g & sy' & log' & E & I & A & B & _).
  rewrite Erun in E. injection E as <- <-.
  destruct (joined_done _ _ _ _ _ _ _ I Hj) as (_ & Etk & Efed & _ & _ & _ & Eall).
  pose proof (joined_summary _ _ _ _ _ _ _ I Hj) as Sm.
  pose proof (joined_wf _ _ _ _ _ _ _ W I Hj) as Hwf.
  pose proof (origins_bound ec cfg source journal g sy I B) as Hob.
  destruct I as [_ _ Hc F Eng _]. destruct (eo_sequenced _ _ _ _ _ _ _ Eng) as [Hrun _ _ _ _ _ _].
  pose proof (feed_sent_prefix _ _ _ _ _ _ F) as Hpre.
  destruct (driver_run_ok (S := Store) (H := Hash) (Core.new ec) interval (proj1 Hi) (stamped (g_origins g))
              (new_core_inv ec (sw_config _ _ _ _ W)))
    as (c & out & r & Er & Ed & Ec & _ & [R1 R2 R3 R4] & _ & _); try done.
  { rewrite stamped_length. mach. } { apply Hi. }
  rewrite Hrun in Er. injection Er as Ecore <-. rewrite Ecore, <- Ec in Sm, Hrun.
  exists (g_origins g), (g_out g), r. unfold Driver.finish.
  pose proof (su_state_digest _ _ _ _ _ _ _ _ Sm) as Hv. rewrite Hv. cbn [rbind]. eexists.
  rewrite Efed, Etk. split_and!; try done; simpl.
  - rewrite <- A, <- Hc. by apply prefix_app_r.
  - by rewrite R3, stamped_length, (su_inputs _ _ _ _ _ _ _ _ Sm).
  - by rewrite R4, (su_outputs _ _ _ _ _ _ _ _ Sm).
  - unfold Recorder.input_digest. by rewrite R1, finalize_updates, (su_input_digest _ _ _ _ _ _ _ _ Sm).
  - unfold Recorder.output_digest.
    by rewrite R2, finalize_updates, (su_output_digest _ _ _ _ _ _ _ _ Sm).
Qed.

(** * The journal of a run *)

(** What a run of the pipeline is given: identifiers, feed and commands in the
    ranges of their types, and a path to create the journal at. *)
Record inputs_typed (ec : EngineConfig) (source : FeedSource) (control : ControlHandle)
    (log : list Returned) : Prop := {
  it_run : in_u128 (ec_run_id ec);
  it_config : config_typed ec;
  it_feed : Forall input_typed (feed_inputs source);
  it_queued : Forall control_wf (aq_items (ctl_commands control));
  it_submitted : Forall control_wf (accepted_of log)
}.

(** C28: The journal is the run.  When a run that created its journal ends
    without an error, reading the file back gives the run's id and exactly the
    outputs of the engine on the one stream the summary describes, without a
    truncation mark; and had the file been cut at any byte after its header,
    by a crash, reading what is left gives a prefix of those outputs. *)
Theorem journal_recovers_run ec cfg source control path schedule sy log summary :
  setup_wf ec cfg source None -> schedule_fits source control schedule ->
  inputs_typed ec source control log -> pc_journal_path cfg = Some path ->
  run cfg (ec_run_id ec) (start ec cfg source control None) schedule = Ret (sy, log) ->
  joined cfg sy = Some (Ok summary) ->
  exists writer os core out,
    ot_writer (sy_output sy) = Some writer
    /\ engine_run (Core.new ec) (stamped os) = Ret (core, out)
    /\ summarises ec cfg None (Some writer) os out core summary
    /\ Journal.read_journal (IoError := IoError) crc32 (Journal.accepted (Journal.jw_sink writer))
       = Ret (Ok (Journal.mkJournalRecovery (ec_run_id ec) out None))
    /\ forall k, (24 <= k)%nat -> exists n tr,
         Journal.read_journal (IoError := IoError) crc32 (take k (Journal.accepted (Journal.jw_sink writer)))
         = Ret (Ok (Journal.mkJournalRecovery (ec_run_id ec) (take n out) tr)).
Proof.
  intros W Hb [Hid Hcfg Hfeed Hq Hl] Hpath Erun Hj.
  destruct (start_run ec cfg source None W control schedule Hb) as (g & sy' & log' & E & I & A & B & _).
  rewrite Erun in E. injection E as <- <-.
  destruct (joined_done _ _ _ _ _ _ _ I Hj) as (_ & Etk & Efed & _).
  pose proof (joined_summary _ _ _ _ _ _ _ I Hj) as Sm.
  pose proof (origins_bound ec cfg source None g sy I B) as Hob.
  destruct I as [_ _ Hc F Eng _]. destruct (eo_sequenced _ _ _ _ _ _ _ Eng) as [Hrun _ _ _ _ _ _].
  destruct (feed_sent_prefix _ _ _ _ _ _ F) as [rest Hpre].
  assert (Ht : Forall input_typed (stamped (g_origins g))).
  { apply stamped_typed; [done | |].
    - rewrite Efed, Etk. rewrite Hpre in Hfeed. by apply Forall_app in Hfeed as [? _].
    - pose proof (Forall_app_2 _ _ _ Hq Hl) as Hql. rewrite <- A, <- Hc in Hql.
      by apply Forall_app in Hql as [? _]. }
  destruct (run_post _ _ (new_typed ec Hcfg) Ht _ Hrun) as [_ Ho]. simpl in Ho.
  pose proof (proj1 (su_journal _ _ _ _ _ _ _ _ Sm)) as Hw. unfold writer_ok in Hw.
  destruct (ot_writer (sy_output sy)) as [writer |]; [| destruct Hw; congruence].
  destruct Hw as [Hacc _]. unfold journal_base in Hacc.
  exists writer, (g_origins g), (sq_core (et_sequencer (sy_engine sy))), (g_out g).
  rewrite Hacc. split_and!; [done | done | done | |].
  - destruct (read_journal_prefix crc32 pl_crc32 (IoError := IoError) (ec_run_id ec) (g_out g)
                (length (records_bytes crc32 (g_out g))) Hid Ho) as (tr & Er & Htr).
    rewrite take_ge in Er, Htr by lia. rewrite records_complete in Er, Htr by lia.
    by rewrite Er, (proj2 Htr eq_refl).
  - intros k Hk. rewrite take_app_ge by (rewrite header_length; lia).
    destruct (read_journal_prefix crc32 pl_crc32 (IoError := IoError) (ec_run_id ec) (g_out g)
                (k - length (Journal.header (ec_run_id ec))) Hid Ho) as (tr & Er & _). eauto.
Qed.

(** C29: The pipeline terminates.  Let both queues hold at least one element.
    Whatever has happened before, once the holders of the control handle are quiet
    and every thread keeps being scheduled, the three threads end after finitely many steps and the run has a result: no
    deadlock between the bounded queues, no thread that waits for ever on one
    that is gone, on success and after a journal error alike. *)
Theorem pipeline_terminates ec cfg source control journal before sy log schedule :
  setup_wf ec cfg source journal -> schedule_fits source control before ->
  (0 < pc_input_capacity cfg)%nat -> (0 < pc_output_capacity cfg)%nat -> fair schedule ->
  run cfg (ec_run_id ec) (start ec cfg source control journal) before = Ret (sy, log) ->
  exists k sy' result,
    run cfg (ec_run_id ec) sy (steps schedule 0 k) = Ret (sy', []) /\ joined cfg sy' = Some result.
Proof.
  intros W Hb Hi Ho F Erun.
  destruct (start_run ec cfg source journal W control before Hb) as (g & sy1 & log1 & E & I & A & B & _).
  rewrite Erun in E. injection E as <- <-.
  destruct (fair_finishes ec cfg source journal W schedule 0 g sy Hi Ho F I B)
    as (k & sy' & Ek & result & Ej). by exists k, sy', result.
Qed.

(** The capacities are needed.  A queue of capacity zero, which nothing rejects,
    takes no value: the feed waits for room and the engine for an input. *)
Record starved (inputs : list EngineInput) (sy : System) : Prop := {
  sv_ring : ring_view (ch_ring (sh_input (sy_shared sy))) = mkRingView [] 0 false false;
  sv_shutdown : ctl_shutdown (sh_control (sy_shared sy)) = false;
  sv_feed : match fd_pc (sy_feed sy) with
            | FeedStart source => source = Memory inputs
            | FeedNext => exists previous, fd_cursor (sy_feed sy) = AtInputs inputs previous
            | FeedSend (SendPush _ _ _) | FeedSend (SendFull _ _ _) => True
            | _ => False
            end;
  sv_engine : match et_pc (sy_engine sy) with
              | EnReceive (RecvTry TryPop _) | EnReceive (RecvEmpty _) => True
              | _ => False
              end
}.

Lemma starved_feed i inputs cfg run_id sy sy' log :
  starved (i :: inputs) sy -> step cfg run_id sy Feed = Ret (sy', log) -> starved (i :: inputs) sy'.
Proof.
  intros [Hr Hs Hf He] ([s t] & E & [= <- _])%rbind_inv. unfold feed_step in E.
  destruct (fd_pc (sy_feed sy)) as [source | | pc | |] eqn:Epc; try done.
  - subst source. injection E as <- <-. constructor; simpl; try done. by eexists.
  - destruct Hf as [previous Ec]. unfold feed_next in E. rewrite Ec in E. unfold shutdown_requested in E.
    rewrite Hs in E. destruct (pace _ _ _) as [d p]. apply rbind_inv in E as (t1 & E & [= <- <-]).
    apply rbind_inv in E as (n & _ & [= <-]). constructor; simpl; done.
  - apply rbind_inv in E as ([c r] & E & [= <- <-]).
    destruct pc as [value full backoff | value full backoff | | |]; try done; simpl in E.
    + pose proof (ring_push_view (ch_ring (sh_input (sy_shared sy))) value) as Hp. rewrite Hr in Hp.
      destruct (ring_push _ value) as [r' [x |]]; injection Hp as Hp; [| done].
      injection E as <- <-. constructor; simpl; done.
    + rewrite producer_abandoned_view, Hr in E. simpl in E.
      apply rbind_inv in E as ([b p] & _ & [= <- <-]).
      constructor; simpl; try done. by destruct full.
Qed.

Lemma starved_engine i inputs cfg run_id sy sy' log :
  starved (i :: inputs) sy -> step cfg run_id sy EngineA = Ret (sy', log) ->
  starved (i :: inputs) sy' /\ et_sequencer (sy_engine sy') = et_sequencer (sy_engine sy).
Proof.
  intros [Hr Hs Hf He] ([s t] & E & [= <- _])%rbind_inv. unfold engine_step in E.
  destruct (et_pc (sy_engine sy)) as [r | | | | | | | | | | |] eqn:Epc; try done.
  apply rbind_inv in E as ([c r'] & E & [= <- <-]).
  destruct r as [[|] backoff | backoff |]; try done; simpl in E.
  - pose proof (ring_pop_view (ch_ring (sh_input (sy_shared sy)))) as Hp. rewrite Hr in Hp.
    destruct (ring_pop _) as [q [x |]]; injection Hp as Hp; [done |].
    injection E as <- <-. split; [constructor; simpl; done | done].
  - rewrite consumer_abandoned_view, Hr in E. simpl in E.
    apply rbind_inv in E as ([b p] & _ & [= <- <-]). split; [constructor; simpl; done | done].
Qed.

Lemma output_step_input cfg run_id s t s' t' :
  output_step cfg run_id s t = Ret (s', t') -> sh_input s' = sh_input s /\ sh_control s' = sh_control s.
Proof.
  unfold output_step. intros H.
  destruct (ot_pc t) as [| | pc | pc | | | |]; try (injection H as <- _; done).
  - destruct (try_step _ pc) as [c' [| [|]]]; try (injection H as <- _; done).
    by apply rbind_inv in H as (t1 & _ & [= <- _]).
  - apply rbind_inv in H as ([c' [| [|]]] & _ & H); try (injection H as <- _; done).
    by apply rbind_inv in H as (t1 & _ & [= <- _]).
Qed.

Lemma starved_run i inputs cfg run_id schedule : forall sy sy' log,
  starved (i :: inputs) sy -> Forall (fun a => a ∈ threads) schedule ->
  run cfg run_id sy schedule = Ret (sy', log) ->
  starved (i :: inputs) sy' /\ et_sequencer (sy_engine sy') = et_sequencer (sy_engine sy).
Proof.
  induction schedule as [| a schedule IH]; intros sy sy' log V Ha E; [by injection E as <- _ |].
  apply Forall_cons in Ha as [Ha Hall]. cbn [run] in E.
  apply rbind_inv in E as ([sy1 log1] & E1 & E). apply rbind_inv in E as ([sy2 log2] & E2 & [= <- _]).
  assert (V1 : starved (i :: inputs) sy1
               /\ et_sequencer (sy_engine sy1) = et_sequencer (sy_engine sy)).
  { unfold threads in Ha. set_unfold. destruct Ha as [-> | [-> | [-> | []]]].
    - split; [by eapply starved_feed |]. by apply rbind_inv in E1 as ([s t] & _ & [= <- _]).
    - by eapply starved_engine.
    - apply rbind_inv in E1 as ([s t] & [Ei Ec]%output_step_input & [= <- _]).
      destruct V. split; [constructor; simpl; rewrite ?Ei, ?Ec; done | done]. }
  destruct V1 as [V1 Eq1]. destruct (IH _ _ _ V1 Hall E2) as [V2 Eq2]. split; [done | congruence].
Qed.

(** Without a slot in the input queue a run with something to feed never ends: on
    no schedule of the threads is there a result, and the engine applies nothing. *)
Theorem zero_capacity_never_ends ec cfg i inputs control journal schedule sy log :
  pc_input_capacity cfg = 0%nat -> ctl_shutdown control = false ->
  Forall (fun a => a ∈ threads) schedule ->
  run cfg (ec_run_id ec) (start ec cfg (Memory (i :: inputs)) control journal) schedule = Ret (sy, log) ->
  joined cfg sy = None /\ sq_core (et_sequencer (sy_engine sy)) = Core.new ec.
Proof.
  intros Hc Hs Ha E.
  assert (V0 : starved (i :: inputs) (start ec cfg (Memory (i :: inputs)) control journal)).
  { constructor; simpl; try done. by rewrite Hc, ring_new_view. }
  destruct (starved_run _ _ _ _ _ _ _ _ V0 Ha E) as [V Eq]. split; [| by rewrite Eq].
  unfold joined. pose proof (sv_feed _ _ V) as Hf. by destruct (fd_pc (sy_feed sy)).
Qed.

(** C30: A kill is not overtaken.  Take a moment when the latch is engaged, the
    engine is not between reading the latch and applying the input it read it
    for, and no queued command touches the switch.  As long as nobody releases
    the latch or submits such a command, every input the engine is about to
    apply finds the switch engaged, inputs that were already queued included. *)
Theorem kill_not_overtaken ec cfg source control journal before sy log after sy' log' p :
  setup_wf ec cfg source journal -> schedule_fits source control (before ++ after) ->
  run cfg (ec_run_id ec) (start ec cfg source control journal) before = Ret (sy, log) ->
  kill_engaged (sh_control (sy_shared sy)) = true ->
  latch_read (et_pc (sy_engine sy)) = 0%nat ->
  Forall (fun c => is_kill c = false) (aq_items (ctl_commands (sh_control (sy_shared sy)))) ->
  Forall (fun a => keeps_kill a = true) after ->
  run cfg (ec_run_id ec) sy after = Ret (sy', log') ->
  et_pc (sy_engine sy') = EnCommands p ->
  tc_global_kill (sq_core (et_sequencer (sy_engine sy'))) = true.
Proof.
  intros W Hb Erun Hkill Hpc Hq Hafter Eafter Ep. unfold schedule_fits in Hb.
  rewrite submits_app in Hb.
  destruct (start_run ec cfg source journal W control before) as (g & sy1 & log1 & E & I & A & _ & L); [lia |].
  rewrite Erun in E. injection E as <- <-.
  destruct (run_armed ec cfg source journal W g sy after sy' log') as [_ _ Hcore]; try done.
  - rewrite A, length_app. lia.
  - constructor; [done | done |]. by rewrite Hpc.
  - apply Hcore. by rewrite Ep.
Qed.

End Theorems.

(** * Concrete runs *)

Lemma turns_at n r :
  (r < 3)%nat -> turns (3 * n + r) = match r with 0%nat => Feed | 1%nat => EngineA | _ => Output end.
Proof.
  intros Hr. unfold turns. by rewrite Nat.add_comm, Nat.mul_comm, Nat.Div0.mod_add, Nat.mod_small.
Qed.

Lemma turns_fair : fair turns.
Proof.
  split.
  - intros n. unfold turns, threads. destruct (n mod 3)%nat as [| [| ?]]; set_solver.
  - intros a n Ha. unfold threads in Ha. set_unfold. destruct Ha as [-> | [-> | [-> | []]]].
    + exists (3 * n + 0)%nat. by rewrite turns_at by lia; split; [lia |].
    + exists (3 * n + 1)%nat. by rewrite turns_at by lia; split; [lia |].
    + exists (3 * n + 2)%nat. by rewrite turns_at by lia; split; [lia |].
Qed.

Lemma pipeline_conserves_witness :
  let schedule := steps turns 0 20 ++ [Outside EngageKill] ++ steps turns 20 70 in
  exists sy log os out handled,
    run sample_pipeline 1 sample_start schedule = Ret (sy, log)
    /\ conserved sample_config sample_pipeline (Memory sample_inputs) sample_control None
         sy log os out handled.
Proof.
  cbv zeta.
  apply (pipeline_conserves sample_config sample_pipeline (Memory sample_inputs) sample_control None).
  - apply sample_setup.
  - by vm_compute.
Defined.

(** Where a schedule of the sample ends. *)
Definition finished (before : list Actor) : option RunSummary :=
  match joined sample_pipeline (reached before) with
  | Some (Ok summary) => Some summary
  | _ => None
  end.

Lemma finished_ok before :
  match finished before with Some _ => true | None => false end = true -> is_Some (finished before).
Proof. by destruct (finished before) as [summary |]; [eexists |]. Qed.

Lemma finished_joined before summary :
  finished before = Some summary -> joined sample_pipeline (reached before) = Some (Ok summary).
Proof. unfold finished. destruct (joined _ _) as [[] |]; congruence. Qed.

Definition killed_once : list Actor :=
  steps turns 0 20 ++ [Outside EngageKill; Outside (Submit (ControlCommand.SetAccountEnabled 2 true))]
  ++ steps turns 20 230.

Lemma killed_once_finishes : is_Some (finished killed_once).
Proof. apply finished_ok. by vm_compute. Qed.

Lemma run_replays_exactly_witness :
  exists summary os out r result,
    finished killed_once = Some summary
    /\ fed os = sample_inputs
    /\ engine_run (Core.new sample_config) (stamped os) = Ret (rp_core r, out)
    /\ summarises sample_config sample_pipeline None
         (ot_writer (sy_output (reached killed_once))) os out (rp_core r) summary
    /\ Driver.run (Driver.new (Core.new sample_config) 3) (stamped os) = Ret r
    /\ Driver.finish r = Ret result
    /\ rr_inputs result = rs_inputs summary /\ rr_outputs result = rs_outputs summary
    /\ rr_input_digest result = rs_input_digest summary
    /\ rr_output_digest result = rs_output_digest summary
    /\ rr_state_digest result = rs_state_digest summary.
Proof.
  destruct killed_once_finishes as [summary Ef].
  destruct (run_replays_exactly sample_config sample_pipeline (Memory sample_inputs) sample_control
              None killed_once (reached killed_once) (returned killed_once) summary 3)
    as (os & out & r & result & _ & Hall & _ & H).
  - apply sample_setup.
  - by vm_compute.
  - lia.
  - apply reached_ok. by vm_compute.
  - by apply finished_joined.
  - exists summary, os, out, r, result. split; [done |]. split; [| exact H]. apply Hall.
    by vm_compute.
Defined.

Lemma killed_once_typed :
  inputs_typed sample_config (Memory sample_inputs) sample_control (returned killed_once).
Proof.
  assert (E : accepted_of (returned killed_once) = [ControlCommand.SetAccountEnabled 2 true])
    by (vm_compute; reflexivity).
  constructor.
  - by split.
  - apply sample_config_typed.
  - apply sample_inputs_typed.
  - constructor.
  - rewrite E. constructor; [| constructor]. simpl. mach.
Qed.

Lemma journal_recovers_run_witness :
  exists summary writer os core out,
    finished killed_once = Some summary
    /\ engine_run (Core.new sample_config) (stamped os) = Ret (core, out)
    /\ summarises sample_config sample_pipeline None (Some writer) os out core summary
    /\ Journal.read_journal (IoError := unit) sum32 (Journal.accepted (Journal.jw_sink writer))
       = Ret (Ok (Journal.mkJournalRecovery 1 out None)).
Proof.
  destruct killed_once_finishes as [summary Ef].
  destruct (journal_recovers_run sample_config sample_pipeline (Memory sample_inputs) sample_control
              tt killed_once (reached killed_once) (returned killed_once) summary)
    as (writer & os & core & out & _ & H1 & H2 & H3 & _).
  - apply sample_setup.
  - by vm_compute.
  - apply killed_once_typed.
  - reflexivity.
  - apply reached_ok. by vm_compute.
  - by apply finished_joined.
  - exists summary, writer, os, core, out. by split_and!.
Defined.

(** The sample with no room in its input queue. *)
Definition zero_capacity : PipelineConfig :=
  mkPipelineConfig 0 2 64 (Adaptive 1 1) None Buffered true 0 0 4 false.

Abbreviation starving :=
  (run zero_capacity (ec_run_id sample_config)
    (start sample_config zero_capacity
       (Memory (market_input 1 10 (MarketEventKind.SnapshotBegin 1) :: tail sample_inputs))
       sample_control None)
    (steps turns 0 300)) (only parsing).

Lemma starving_returns : exists x, starving = Ret x.
Proof.
  assert (H : match starving with Ret _ => true | Panic => false end = true)
    by (vm_compute; reflexivity).
  destruct starving as [x |]; [by exists x | discriminate H].
Qed.

Lemma zero_capacity_never_ends_witness :
  exists sy log, starving = Ret (sy, log) /\ joined zero_capacity sy = None
    /\ sq_core (et_sequencer (sy_engine sy)) = Core.new sample_config.
Proof.
  destruct starving_returns as [[sy log] E]. exists sy, log. split; [exact E |].
  apply (zero_capacity_never_ends sample_config zero_capacity
           (market_input 1 10 (MarketEventKind.SnapshotBegin 1))
           (tail sample_inputs) sample_control None (steps turns 0 300) sy log).
  - reflexivity.
  - reflexivity.
  - apply Forall_map, Forall_true. intros n. apply turns_fair.
  - exact E.
Defined.

Lemma pipeline_terminates_witness :
  exists k sy' result,
    run sample_pipeline 1 (reached [Outside RequestShutdown; Feed; Feed; EngineA]) (steps turns 0 k)
    = Ret (sy', [])
    /\ joined sample_pipeline sy' = Some result.
Proof.
  set (before := [Outside RequestShutdown; Feed; Feed; EngineA]).
  apply (pipeline_terminates sample_config sample_pipeline (Memory sample_inputs) sample_control None
           before (reached before) (returned before) turns).
  - apply sample_setup.
  - by vm_compute.
  - simpl. lia.
  - simpl. lia.
  - apply turns_fair.
  - apply reached_ok. by vm_compute.
Defined.

(** The latch is engaged early; the order already queued behind it is the input
    the engine is about to apply. *)
Definition killed_early : list Actor := steps turns 0 20 ++ [Outside EngageKill].
Definition first_order : list Actor := steps turns 20 78.

Definition pending_of (sy : System) : option EngineInput :=
  match et_pc (sy_engine sy) with EnCommands p => Some p | _ => None end.

Lemma pending_pc sy p : pending_of sy = Some p -> et_pc (sy_engine sy) = EnCommands p.
Proof. unfold pending_of. destruct (et_pc (sy_engine sy)); congruence. Qed.

Lemma kill_not_overtaken_witness :
  pending_of (reached (killed_early ++ first_order)) = sample_inputs !! 4%nat
  /\ tc_global_kill (sq_core (et_sequencer (sy_engine (reached (killed_early ++ first_order)))))
     = true.
Proof.
  assert (Hp : pending_of (reached (killed_early ++ first_order)) = sample_inputs !! 4%nat)
    by by vm_compute.
  split; [exact Hp |]. apply pending_pc in Hp.
  destruct (reached_after killed_early first_order) as [log' Ea]; [by vm_compute |].
  refine (kill_not_overtaken sample_config sample_pipeline (Memory sample_inputs) sample_control None
            killed_early (reached killed_early) (returned killed_early) first_order
            (reached (killed_early ++ first_order)) log' _ _ _ _ _ _ _ _ Ea Hp).
  - apply sample_setup.
  - by vm_compute.
  - apply reached_ok. by vm_compute.
  - by vm_compute.
  - by vm_compute.
  - vm_compute. constructor.
  - apply Forall_forall. intros a Ha.
    assert (E : forallb keeps_kill first_order = true) by by vm_compute.
    apply (proj1 (forallb_forall keeps_kill first_order) E). by apply list_elem_of_In.
Defined.

(** * The latch is not the only source of kill state

    The latch is engaged from the first step on and never released.  A queued
    [SetGlobalKill { engaged: false }] is applied after the latch was read for
    the pending input, so the switch is off for that input: the order is
    accepted, and only the input after it finds the switch engaged again. *)

Definition queued_release : list Actor :=
  [Outside EngageKill] ++ steps turns 0 90
  ++ [Outside (Submit (ControlCommand.SetGlobalKill false))] ++ steps turns 90 160.

Theorem queued_release_passes_latch :
  let sy := reached queued_release in
  is_Some (finished queued_release)
  /\ kill_engaged (sh_control (sy_shared sy)) = true
  /\ requests_accepted (tc_metrics (sq_core (et_sequencer (sy_engine sy)))) = 1
  /\ tc_global_kill (sq_core (et_sequencer (sy_engine sy))) = true.
Proof.
  cbv zeta. split; [apply finished_ok; by vm_compute | split_and!; by vm_compute].
Qed.
