(* ===== verification/PipelineQuiet.v ===== *)
(** Runs that nobody disturbs apply exactly the feed, so that two of them agree on
    every digest; and a run without a journal ends with a summary. *)

From S2P Require Import Prelude Enums Ids Events Read Canonical CanonicalProps Codec CodecProps Wire.
From S2P Require Import Journal JournalProps Queue QueueProps BTree Slab Book Market MarketInv MarketTheorems.
From S2P Require Import Account Config CoreState Core CoreExec CoreApply CoreRun CoreTheorems Replay.
From S2P Require Import ReplayState ReplayTheorems CoreFrame Snapshot Pipeline PipelineInv.
From S2P Require Import PipelineFeed PipelineOut PipelineEng PipelineRun PipelineLive.
From S2P Require Import PipelineSamples PipelineTheorems.

(** * Control inputs of a run of the core *)

Section Count.
Context {S : Type} `{SL : Slab OrderNode S} `{!SlabLaws SL}.

Definition control_count (inputs : list EngineInput) : Z :=
  Z.of_nat (length (List.filter is_control inputs)).

Lemma engine_run_counted inputs : forall (c c' : TradingCore S) out,
  core_inv c -> tc_engine_seq c + Z.of_nat (length inputs) <= u32_max -> Forall input_wf inputs ->
  engine_run c inputs = Ret (c', out) ->
  control_events (tc_metrics c') = control_events (tc_metrics c) + control_count inputs.
Proof.
  induction inputs as [| i inputs IH]; intros c c' out I Hn Hw; simpl in Hn |- *.
  - intros [= <- _]. unfold control_count. simpl. lia.
  - apply Forall_cons in Hw as [Hi Hw].
    destruct (apply_input_ok c i I) as (c1 & o1 & E1 & A1); [lia | done |]. rewrite E1. cbn [rbind].
    intros ([c2 o2] & E2 & [= <- _])%rbind_inv.
    destruct (apply_controls c c1 i o1) as [Ec _]; try done.
    { apply (ok_fault _ _ (cv_ok _ I)). } { pose proof (cv_seq _ I). lia. }
    apply IH in E2; [| apply A1 | rewrite (ap_seq _ _ _ _ A1); lia | done].
    rewrite E2, Ec. unfold control_count. simpl. destruct (is_control i); simpl; lia.
Qed.

End Count.

(** Without control inputs every origin is the feed. *)
Lemma stamped_controls os :
  Forall (fun i => is_control i = false) (stamped os) -> os = FromFeed <$> fed os.
Proof.
  induction os as [| o os IH] using rev_ind; [done |]. rewrite stamped_snoc, fed_snoc, fmap_app.
  intros [H1 H2]%Forall_app. apply Forall_cons in H2 as [H2 _]. rewrite <- IH by done. by destruct o.
Qed.

Section Quiet.
Context {P : Platform} {PL : PlatformLaws P}.
Context (ec : EngineConfig) (cfg : PipelineConfig) (source : FeedSource).
Context (journal : option (Journal.JournalWriter (W := FileSink))).
Hypothesis W : setup_wf ec cfg source journal.
Hypothesis Hfeed : Forall (fun i => is_control i = false) (feed_inputs source).

Abbreviation sys_inv := (PipelineInv.sys_inv ec cfg source journal) (only parsing).

(** * The invariant *)

(** A holder of the handle that only looks at snapshots. *)
Definition watches (a : Actor) : bool :=
  match a with Outside TakeSnapshot => true | Outside _ => false | _ => true end.

Record quiet_control (h : ControlHandle) (lost : bool) : Prop := {
  qc_latch : kill_engaged h = false;
  qc_queue : aq_items (ctl_commands h) = [];
  qc_shutdown : ctl_shutdown h = true -> lost = true
}.

Record quiet (sy : System) : Prop := {
  qt_control : quiet_control (sh_control (sy_shared sy)) (et_output_lost (sy_engine sy));
  qt_core : controls (core_of sy) = (false, 0)
}.

Lemma pending_fed g sy p :
  sys_inv g sy -> et_pc (sy_engine sy) = EnCommands p -> p ∈ feed_inputs source.
Proof.
  intros I Ep. destruct (engine_loop ec cfg source journal g sy I) as (_ & Et & _ & _); [by rewrite Ep |].
  rewrite Ep in Et. pose proof I as [Ci _ _ F _ _].
  assert (Hpre : g_taken g `prefix_of` feed_inputs source).
  { transitivity (g_sent g); [by eapply chan_ahead | by eapply feed_sent_prefix]. }
  eapply elem_of_prefix; [| done]. rewrite Et. apply elem_of_app. right. apply list_elem_of_here.
Qed.

(** Sequencing an input of the feed. *)
Lemma sequence_quiet g sy p q' :
  sys_inv g sy -> Z.of_nat (length (g_origins g)) < u32_max -> is_control p = false ->
  sequence (et_sequencer (sy_engine sy)) (in_event p) (Some (in_recv_time_ns p)) = Ret q' ->
  controls (sq_core q') = controls (core_of sy).
Proof.
  intros I Hn Hp. pose proof (eo_sequenced _ _ _ _ _ _ _ (si_engine _ _ _ _ _ _ I)) as Hq.
  unfold sequence. intros (n & _ & (d & _ & ([c batch] & E & [= <-])%rbind_inv)%rbind_inv)%rbind_inv.
  pose proof (sq_inv _ _ _ _ _ Hq) as Ic.
  apply apply_controls in E as [_ E]; [by apply E | apply (ok_fault _ _ (cv_ok _ Ic)) |].
  rewrite (sq_seq _ _ _ _ _ Hq). lia.
Qed.

Lemma send_batch_lost s t after batch t' :
  send_batch cfg s t after batch = Ret t' -> et_output_lost t' = et_output_lost t.
Proof.
  unfold send_batch, resume. destruct batch; [destruct after |]; try by intros [= <-].
  by intros (due & _ & [= <-])%rbind_inv.
Qed.

Lemma commands_quiet g sy p s' t' :
  Z.of_nat (length (g_origins g)) < u32_max -> sys_inv g sy -> quiet sy ->
  et_pc (sy_engine sy) = EnCommands p ->
  engine_step cfg (sy_shared sy) (sy_engine sy) = Ret (s', t') ->
  quiet (mkSystem s' (sy_feed sy) t' (sy_output sy)).
Proof.
  intros Hn I [[Hk Hq Hs] Hc] Epc. unfold engine_step. rewrite Epc, (aq_pop_empty _ Hq).
  intros (t & (q & Eq & H)%rbind_inv & [= <- <-])%rbind_inv.
  apply (sequence_quiet g) in Eq; try done.
  2: { eapply (proj1 (Forall_forall _ _) Hfeed). by eapply pending_fed. }
  pose proof (send_batch_lost _ _ _ _ _ H) as El. apply send_batch_latch in H as [Et _].
  constructor; [constructor |]; simpl; rewrite ?El; try done. unfold core_of in *. simpl. by rewrite Et, <- Hc.
Qed.

Lemma quiet_control_same h h' (lost lost' : bool) :
  ctl_kill h' = ctl_kill h -> ctl_commands h' = ctl_commands h ->
  (ctl_shutdown h' = true -> ctl_shutdown h = true \/ lost' = true) -> (lost = true -> lost' = true) ->
  quiet_control h lost -> quiet_control h' lost'.
Proof.
  intros E1 E2 E3 El [H1 H2 H3]. constructor; unfold kill_engaged in *; rewrite ?E1, ?E2; try done.
  intros [? | ?]%E3; auto.
Qed.

(** The other steps of the engine leave the core alone. *)
Lemma engine_step_idle s t s' t' :
  engine_step cfg s t = Ret (s', t') ->
  (forall p, et_pc t <> EnCheckKill p) -> (forall p, et_pc t <> EnCommands p) ->
  (et_pc t = EnShutdown -> et_output_lost t = true) ->
  et_sequencer t' = et_sequencer t
  /\ (quiet_control (sh_control s) (et_output_lost t) ->
      quiet_control (sh_control s') (et_output_lost t')).
Proof.
  intros H N1 N2 Hs. unfold engine_step in H.
  destruct (et_pc t) as [r | p | p | p | after pc rest | last | last | | | o | o | o];
    [| | by edestruct N1 | by edestruct N2 | | | | | | | |].
  - apply rbind_inv in H as ([c' x] & _ & [= <- <-]). done.
  - injection H as <- <-. destruct (sh_output_failed s); [| done]. split; [done |].
    apply quiet_control_same; auto.
  - apply rbind_inv in H as ([c' x] & _ & (t1 & H & [= <- <-])%rbind_inv). destruct x as [pc' | []].
    + by injection H as <-.
    + rewrite (send_batch_lost _ _ _ _ _ H). by apply send_batch_latch in H as [-> _].
    + injection H as <-. split; [done |]. apply quiet_control_same; auto.
  - apply rbind_inv in H as (snap & _ & H).
    destruct (aq_force_push _ snap) as [q [old |]]; injection H as <- <-;
      (split; [done |]); apply quiet_control_same; auto.
  - injection H as <- <-. split; [done |]. apply quiet_control_same; auto.
  - injection H as <- <-. split; [done |]. apply quiet_control_same; auto.
  - by apply rbind_inv in H as (o & _ & [= <- <-]).
  - by injection H as <- <-.
  - by injection H as <- <-.
  - by injection H as <- <-.
Qed.

Lemma engine_quiet g sy sy' log :
  in_budget source g -> sys_inv g sy -> quiet sy ->
  step cfg (ec_run_id ec) sy EngineA = Ret (sy', log) -> quiet sy'.
Proof.
  intros Hb I Q ([s t] & H & [= <- _])%rbind_inv.
  destruct (et_pc (sy_engine sy)) as [r | p | p | p | after pc rest | last | last | | | o | o | o]
    eqn:Epc.
  4: { eapply commands_quiet; try done. eapply apply_room; try done; by rewrite Epc. }
  3: { unfold engine_step in H. rewrite Epc in H. destruct Q as [Qc Qk]. pose proof (qc_latch _ _ Qc) as Hk.
       rewrite Hk in H. unfold core_of, controls in Qk. injection Qk as Ek Ec. rewrite Ek in H. simpl in H.
       injection H as <- <-. constructor; [done |]. unfold core_of, controls. simpl. by rewrite Ek, Ec. }
  all: apply engine_step_idle in H as [Es Hc]; try (by rewrite Epc).
  all: try (constructor; simpl; [apply Hc, Q | unfold core_of; simpl; rewrite Es; apply Q]).
  intros _. pose proof (eo_pc _ _ _ _ _ _ _ (si_engine _ _ _ _ _ _ I)) as Hpc. unfold engine_pc_ok in Hpc.
  by rewrite Epc in Hpc.
Qed.

Lemma step_quiet g sy a sy' log :
  in_budget source g -> sys_inv g sy -> watches a = true -> quiet sy ->
  step cfg (ec_run_id ec) sy a = Ret (sy', log) -> quiet sy'.
Proof.
  intros Hb I Hw Q. destruct a as [| | | c].
  - intros ([s t] & Ec%feed_step_control & [= <- <-])%rbind_inv. destruct Q.
    constructor; simpl; rewrite ?Ec; done.
  - by eapply engine_quiet.
  - intros ([s t] & Ec%output_step_control & [= <- <-])%rbind_inv. destruct Q.
    constructor; simpl; rewrite ?Ec; done.
  - destruct c as [| | | |]; try done. simpl. unfold take_snapshot.
    destruct (aq_pop (ctl_snapshots _)) as [q snap]. simpl. intros [= <- _]. destruct Q as [Qc Qk].
    constructor; [| done]. revert Qc. apply quiet_control_same; auto.
Qed.

Lemma run_quiet g sy schedule sy' log :
  2 * Z.of_nat (length (feed_inputs source)) + Z.of_nat (length (g_accepted g)) < u32_max ->
  sys_inv g sy -> quiet sy -> Forall (fun a => watches a = true) schedule ->
  run cfg (ec_run_id ec) sy schedule = Ret (sy', log) -> quiet sy'.
Proof.
  revert g sy log. induction schedule as [| a schedule IH]; intros g sy log Hb I Q Hw.
  - by intros [= <- _].
  - apply Forall_cons in Hw as [Ha Hw]. simpl.
    destruct (step_inv ec cfg source journal W g sy a Hb I) as (g1 & sy1 & log1 & E1 & I1 & A1 & L1).
    rewrite E1. cbn [rbind]. intros ([sy2 log2] & E2 & [= <- _])%rbind_inv.
    eapply (IH g1 sy1); try done; [| by eapply step_quiet].
    assert (En : submits [a] = 0%nat) by (by destruct a as [| | | []]).
    rewrite A1, length_app. lia.
Qed.

End Quiet.

(** * What an undisturbed run returns *)

(** The stream of a feed on its own. *)
Definition feed_stream (inputs : list EngineInput) : list EngineInput := stamped (FromFeed <$> inputs).

Section Result.
Context {P : Platform} {PL : PlatformLaws P}.
Implicit Types (control : ControlHandle).

(** Nobody has touched the handle. *)
Definition untouched (control : ControlHandle) : Prop :=
  kill_engaged control = false /\ aq_items (ctl_commands control) = [] /\ ctl_shutdown control = false.

Lemma no_controls (l : list EngineInput) :
  control_count l = 0 -> Forall (fun i => is_control i = false) l.
Proof.
  unfold control_count. induction l as [| i l IH]; [constructor |]. simpl.
  destruct (is_control i) eqn:E; simpl; [lia |]. intros H. constructor; auto.
Qed.

Lemma watches_submits schedule :
  Forall (fun a => watches a = true) schedule -> submits schedule = 0%nat.
Proof.
  induction 1 as [| a l Ha _ IH]; [done |]. rewrite submits_cons, IH. by destruct a as [| | | []].
Qed.

Lemma fair_watches schedule n k :
  fair schedule -> Forall (fun a => watches a = true) (steps schedule n k).
Proof.
  intros [Ht _]. unfold steps. apply Forall_map, Forall_forall. intros m _. pose proof (Ht m) as Hm.
  unfold threads in Hm. set_unfold. by destruct Hm as [-> | [-> | [-> | []]]].
Qed.

Lemma quiet_summary ec cfg source control journal schedule sy log summary :
  setup_wf ec cfg source journal -> 2 * Z.of_nat (length (feed_inputs source)) < u32_max ->
  Forall (fun i => is_control i = false) (feed_inputs source) ->
  untouched control -> Forall (fun a => watches a = true) schedule ->
  run cfg (ec_run_id ec) (start ec cfg source control journal) schedule = Ret (sy, log) ->
  joined cfg sy = Some (Ok summary) ->
  exists c out, engine_run (Core.new ec) (feed_stream (feed_inputs source)) = Ret (c, out)
    /\ summarises ec cfg journal (ot_writer (sy_output sy)) (FromFeed <$> feed_inputs source) out c
         summary.
Proof.
  intros W Hb Hfeed (Hk & Hq & Hs) Hw Erun Hj.
  pose proof (watches_submits _ Hw) as Hn.
  destruct (start_run ec cfg source journal W control schedule) as (g & sy' & log' & E & I & A & B & L).
  { rewrite Hq, Hn. simpl. lia. }
  rewrite Erun in E. injection E as <- <-.
  assert (Q : quiet sy).
  { eapply (run_quiet ec cfg source journal W Hfeed); [| apply start_inv; apply W | | done | done].
    - simpl. rewrite Hq. simpl. lia.
    - constructor; [constructor |]; simpl; try done. by rewrite Hs. }
  destruct (joined_done _ _ _ _ _ _ _ I Hj) as (El & Etk & Efed & _ & _ & _ & Eall).
  pose proof (joined_summary _ _ _ _ _ _ _ I Hj) as Sm.
  pose proof (origins_bound ec cfg source journal g sy I B) as Hob.
  destruct Q as [[_ _ Hsh] Hc]. rewrite El in Hsh.
  assert (Es : g_sent g = feed_inputs source).
  { apply Eall, not_true_is_false. intros E%Hsh. done. }
  pose proof (sq_run _ _ _ _ _ (eo_sequenced _ _ _ _ _ _ _ (si_engine _ _ _ _ _ _ I))) as Hrun.
  pose proof (joined_wf _ _ _ _ _ _ _ W I Hj) as Hwf.
  assert (Eos : g_origins g = FromFeed <$> feed_inputs source).
  { rewrite <- Es, <- Etk, <- Efed. apply stamped_controls, no_controls.
    apply engine_run_counted in Hrun; [| apply new_core_inv, W | | done].
    - unfold core_of, controls in Hc. injection Hc as _ Hc. simpl in Hrun. lia.
    - rewrite stamped_length. simpl. lia. }
  rewrite Eos in Sm, Hrun. by exists (core_of sy), (g_out g).
Qed.

(** C32: Two undisturbed runs of one feed agree.  Whatever the two schedules, queue
    capacities, wait strategies, journals and snapshot intervals are, if nobody
    but readers of snapshots touches the control handle and the feed has no
    control inputs, then two runs that end without an error report the same
    input, output and state digests and the same counts. *)
Theorem undisturbed_runs_agree ec source cfg1 cfg2 control1 control2 journal1 journal2
    schedule1 schedule2 sy1 sy2 log1 log2 summary1 summary2 :
  setup_wf ec cfg1 source journal1 -> setup_wf ec cfg2 source journal2 ->
  2 * Z.of_nat (length (feed_inputs source)) < u32_max ->
  Forall (fun i => is_control i = false) (feed_inputs source) ->
  untouched control1 -> untouched control2 ->
  Forall (fun a => watches a = true) schedule1 -> Forall (fun a => watches a = true) schedule2 ->
  run cfg1 (ec_run_id ec) (start ec cfg1 source control1 journal1) schedule1 = Ret (sy1, log1) ->
  run cfg2 (ec_run_id ec) (start ec cfg2 source control2 journal2) schedule2 = Ret (sy2, log2) ->
  joined cfg1 sy1 = Some (Ok summary1) -> joined cfg2 sy2 = Some (Ok summary2) ->
  rs_input_digest summary1 = rs_input_digest summary2
  /\ rs_output_digest summary1 = rs_output_digest summary2
  /\ rs_state_digest summary1 = rs_state_digest summary2
  /\ rs_inputs summary1 = rs_inputs summary2
  /\ rs_outputs summary1 = rs_outputs summary2
  /\ rs_trades summary1 = rs_trades summary2.
Proof.
  intros W1 W2 Hb Hf U1 U2 Hw1 Hw2 E1 E2 J1 J2.
  destruct (quiet_summary _ _ _ _ _ _ _ _ _ W1 Hb Hf U1 Hw1 E1 J1) as (c & out & R1 & S1).
  destruct (quiet_summary _ _ _ _ _ _ _ _ _ W2 Hb Hf U2 Hw2 E2 J2) as (c2 & out2 & R2 & S2).
  rewrite R1 in R2. injection R2 as <- <-. destruct S1, S2. split_and!; congruence.
Qed.

End Result.

(** * Concrete runs *)

(** Large queues, no journal, no snapshots: the feed runs to its end, then the
    engine, then the output thread. *)
Definition wide_pipeline : PipelineConfig :=
  mkPipelineConfig 64 64 64 BusySpin None Buffered false 0 0 4 false.

Definition one_by_one : list Actor := replicate 60 Feed ++ replicate 120 EngineA ++ replicate 120 Output.

(** The end of a schedule that completes without an error. *)
Definition completes (cfg : PipelineConfig) (schedule : list Actor) : option (System * RunSummary) :=
  match run cfg 1 (start sample_config cfg (Memory sample_inputs) sample_control None) schedule with
  | Ret (sy, _) => match joined cfg sy with Some (Ok summary) => Some (sy, summary) | _ => None end
  | Panic => None
  end.

Lemma completes_run cfg schedule sy summary :
  completes cfg schedule = Some (sy, summary) ->
  exists log,
    run cfg 1 (start sample_config cfg (Memory sample_inputs) sample_control None) schedule = Ret (sy, log)
    /\ joined cfg sy = Some (Ok summary).
Proof.
  unfold completes. destruct (run _ _ _ _) as [[sy1 log] |]; [| done].
  destruct (joined cfg sy1) as [[s | e] |] eqn:E; try done. intros [= -> ->]. by exists log.
Qed.

Lemma completes_some cfg schedule :
  match completes cfg schedule with Some _ => true | None => false end = true ->
  exists sy summary, completes cfg schedule = Some (sy, summary).
Proof. destruct (completes cfg schedule) as [[sy summary] |]; [by eauto | done]. Qed.

Lemma wide_setup : setup_wf sample_config wide_pipeline (Memory sample_inputs) None.
Proof.
  constructor; try done.
  - apply sample_config_wf.
  - apply sample_inputs_wf.
Qed.

Lemma forallb_watches schedule :
  forallb watches schedule = true -> Forall (fun a => watches a = true) schedule.
Proof. intros H. apply Forall_forall. intros a Ha. eapply forallb_forall; [done |]. by apply list_elem_of_In. Qed.

Lemma undisturbed_runs_agree_witness :
  exists sy1 summary1 sy2 summary2,
    completes sample_pipeline (steps turns 0 250) = Some (sy1, summary1)
    /\ completes wide_pipeline one_by_one = Some (sy2, summary2)
    /\ rs_input_digest summary1 = rs_input_digest summary2
    /\ rs_output_digest summary1 = rs_output_digest summary2
    /\ rs_state_digest summary1 = rs_state_digest summary2
    /\ rs_inputs summary1 = rs_inputs summary2
    /\ rs_outputs summary1 = rs_outputs summary2
    /\ rs_trades summary1 = rs_trades summary2.
Proof.
  destruct (completes_some sample_pipeline (steps turns 0 250)) as (sy1 & summary1 & C1); [by vm_compute |].
  destruct (completes_some wide_pipeline one_by_one) as (sy2 & summary2 & C2); [by vm_compute |].
  exists sy1, summary1, sy2, summary2. split; [exact C1 |]. split; [exact C2 |].
  destruct (completes_run _ _ _ _ C1) as (log1 & E1 & J1).
  destruct (completes_run _ _ _ _ C2) as (log2 & E2 & J2).
  refine (undisturbed_runs_agree sample_config (Memory sample_inputs) sample_pipeline wide_pipeline
            sample_control sample_control None None (steps turns 0 250) one_by_one sy1 sy2 log1 log2
            summary1 summary2 _ _ _ _ _ _ _ _ E1 E2 J1 J2).
  - apply sample_setup.
  - apply wide_setup.
  - by vm_compute.
  - repeat constructor.
  - by split_and!.
  - by split_and!.
  - apply forallb_watches. by vm_compute.
  - apply forallb_watches. by vm_compute.
Defined.

Section Sound.
Context {P : Platform} {PL : PlatformLaws P}.
Context (ec : EngineConfig) (cfg : PipelineConfig) (source : FeedSource).
Hypothesis W : setup_wf ec cfg source None.
Hypothesis Hpath : pc_journal_path cfg = None.

Abbreviation sys_inv := (PipelineInv.sys_inv ec cfg source None) (only parsing).

(** The output thread has no writer and no error. *)
Record recording (t : OutputThread) : Prop := {
  rc_writer : ot_writer t = None;
  rc_error : ot_journal_error t = None;
  rc_pc : match ot_pc t with
          | OtOpen j => j = None
          | OtOpenFailed _ | OtFailed => False
          | OtDrop o | OtDone o => oo_journal_error o = None
          | _ => True
          end
}.

Record sound (sy : System) : Prop := {
  sn_failed : sh_output_failed (sy_shared sy) = false;
  sn_output : recording (sy_output sy);
  sn_lost : et_output_lost (sy_engine sy) = false
}.

Lemma record_event_recording t event t' :
  recording t -> record_event cfg t event = Ret t' -> recording t'.
Proof.
  intros [E1 E2 _]. unfold record_event. rewrite E1.
  by intros (d & _ & [= <-])%rbind_inv.
Qed.

Lemma drained_recording s t : recording t -> recording (drained cfg s t).
Proof.
  intros [E1 E2 _]. unfold drained. destruct (pc_journal_sync cfg); try by constructor.
  destruct (0 <? ot_since_flush t); [| by constructor]. rewrite E1. by constructor.
Qed.

Lemma output_step_recording s t s' t' :
  recording t -> output_step cfg (ec_run_id ec) s t = Ret (s', t') ->
  recording t' /\ sh_output_failed s' = sh_output_failed s.
Proof.
  intros R. pose proof R as [E1 E2 E3]. unfold output_step.
  destruct (ot_pc t) as [j | | pc | pc | | | o | o]; try done.
  - intros [= <- <-]. split; [| done]. unfold open_journal. rewrite E3, Hpath. by constructor.
  - destruct (try_step _ pc) as [c' [pc' | [event |]]].
    + by intros [= <- <-].
    + intros (t1 & H & [= <- <-])%rbind_inv. by apply record_event_recording in H.
    + intros [= <- <-]. split; [by apply drained_recording | done].
  - intros ([c' [pc' | [event |]]] & _ & H)%rbind_inv.
    + by injection H as <- <-.
    + apply rbind_inv in H as (t1 & H & [= <- <-]). by apply record_event_recording in H.
    + by injection H as <- <-.
  - intros [= <- <-]. split; [| done]. unfold finish_output. rewrite E1. by constructor.
  - by intros [= <- <-].
  - by intros [= <- <-].
Qed.

(** A send is not refused while the output thread is there. *)
Lemma send_step_kept {T R} {RG : Ring T R} {RL : RingLaws RG} (c c' : Channel R) pc r :
  rv_consumer_gone (cview c) = false -> send_step c pc = Ret (c', r) -> r <> inr false.
Proof.
  intros Hg. destruct pc as [x cf b | x cf b | | |]; simpl.
  - destruct (ring_push _ _) as [? []]; by intros [= _ <-].
  - rewrite producer_abandoned_view. fold (cview c). rewrite Hg.
    by intros ([b' p] & _ & [= _ <-])%rbind_inv.
  - intros (n & _ & [= _ <-])%rbind_inv. by destruct (_ =? 0).
  - by intros [= _ <-].
  - by intros [= _ <-].
Qed.

Lemma output_there g sy :
  sys_inv g sy -> sound sy -> output_dropped (sy_engine sy) = false ->
  rv_consumer_gone (cview (sh_output (sy_shared sy))) = false.
Proof.
  intros I [_ R _] Hd. rewrite (co_consumer _ _ _ _ _ _ _ _ _ (si_out _ _ _ _ _ _ I)).
  unfold output_gone. pose proof (rc_pc _ R) as Hpc.
  pose proof (oo_pc _ _ _ _ _ _ _ (si_output _ _ _ _ _ _ I)) as Ho.
  unfold output_pc_ok in Ho. destruct (ot_pc (sy_output sy)); try done.
  destruct (Ho Hpc) as (_ & Hgone & _). congruence.
Qed.

Lemma engine_step_sound g sy s' t' :
  sys_inv g sy -> sound sy -> engine_step cfg (sy_shared sy) (sy_engine sy) = Ret (s', t') ->
  et_output_lost t' = false /\ sh_output_failed s' = false.
Proof.
  intros I Sn H. pose proof (output_there g sy I Sn) as Hthere. destruct Sn as [Hf _ Hl].
  assert (Hpc : et_pc (sy_engine sy) <> EnShutdown).
  { intros E. pose proof (eo_pc _ _ _ _ _ _ _ (si_engine _ _ _ _ _ _ I)) as Hp. unfold engine_pc_ok in Hp.
    rewrite E in Hp. congruence. }
  unfold engine_step in H. unfold output_dropped in Hthere.
  destruct (et_pc (sy_engine sy)) as [r | p | p | p | after pc rest | last | last | | | o | o | o]; try done.
  - by apply rbind_inv in H as ([c' x] & _ & [= <- <-]).
  - rewrite Hf in H. by injection H as <- <-.
  - destruct (Bool.eqb _ _); [by injection H as <- <- |].
    apply rbind_inv in H as (t & (q & _ & H)%rbind_inv & [= <- <-]).
    by rewrite (send_batch_lost _ _ _ _ _ _ H).
  - destruct (aq_pop _) as [q command]. apply rbind_inv in H as (t & H & [= <- <-]).
    destruct command; apply rbind_inv in H as (q' & _ & H); by rewrite (send_batch_lost _ _ _ _ _ _ H).
  - apply rbind_inv in H as ([c' x] & Es & (t1 & H & [= <- <-])%rbind_inv).
    apply send_step_kept in Es; [| by apply Hthere]. destruct x as [pc' | []]; [| | done].
    + by injection H as <-.
    + by rewrite (send_batch_lost _ _ _ _ _ _ H).
  - apply rbind_inv in H as (snap & _ & H). destruct (aq_force_push _ snap) as [q [old |]];
      by injection H as <- <-.
  - by injection H as <- <-.
  - by apply rbind_inv in H as (o & _ & [= <- <-]).
  - by injection H as <- <-.
  - by injection H as <- <-.
  - by injection H as <- <-.
Qed.

Lemma feed_step_failed s t s' t' :
  feed_step cfg s t = Ret (s', t') -> sh_output_failed s' = sh_output_failed s.
Proof.
  unfold feed_step. intros H. destruct (fd_pc t); try (injection H as <- _; done);
    apply rbind_inv in H as (x & _ & H); try destruct x; injection H as <- _; done.
Qed.

Lemma step_sound g sy a sy' log :
  sys_inv g sy -> sound sy -> step cfg (ec_run_id ec) sy a = Ret (sy', log) -> sound sy'.
Proof.
  intros I Sn. pose proof Sn as [Hf R Hl]. destruct a as [| | | c]; simpl.
  - intros ([s t] & E%feed_step_failed & [= <- _])%rbind_inv. constructor; simpl; congruence || done.
  - intros ([s t] & E & [= <- _])%rbind_inv. apply (engine_step_sound g) in E as [E1 E2]; try done.
  - intros ([s t] & E & [= <- _])%rbind_inv. apply output_step_recording in E as [E1 E2]; [| done].
    constructor; simpl; congruence || done.
  - destruct (call _ c) as [h r]. by intros [= <- _].
Qed.

Lemma run_sound g sy schedule sy' log :
  2 * Z.of_nat (length (feed_inputs source)) + Z.of_nat (length (g_accepted g))
  + Z.of_nat (submits schedule) < u32_max ->
  sys_inv g sy -> sound sy -> run cfg (ec_run_id ec) sy schedule = Ret (sy', log) -> sound sy'.
Proof.
  revert g sy log. induction schedule as [| a schedule IH]; intros g sy log Hb I Sn.
  - by intros [= <- _].
  - rewrite submits_cons in Hb. simpl.
    assert (Hbg : in_budget source g) by (unfold in_budget; lia).
    destruct (step_inv ec cfg source None W g sy a Hbg I) as (g1 & sy1 & log1 & E1 & I1 & A1 & L1).
    rewrite E1. cbn [rbind]. intros ([sy2 log2] & E2 & [= <- _])%rbind_inv.
    eapply (IH g1 sy1); try done; [| exact (step_sound g sy a sy1 log1 I Sn E1)].
    rewrite A1, length_app. lia.
Qed.

(** A run that ends, ends with a summary. *)
Lemma unjournalled_result control schedule sy log result :
  schedule_fits source control schedule ->
  run cfg (ec_run_id ec) (start ec cfg source control None) schedule = Ret (sy, log) ->
  joined cfg sy = Some result -> exists summary, result = Ok summary.
Proof.
  intros Hb Erun Hj.
  destruct (start_run ec cfg source None W control schedule Hb) as (g & sy' & log' & E & I & _).
  rewrite Erun in E. injection E as <- <-.
  assert (Sn : sound sy).
  { eapply run_sound; [| apply (start_inv ec cfg source None W control) | | exact Erun]; [done |].
    by constructor. }
  destruct Sn as [_ [_ _ Hpc] Hl]. unfold joined in Hj.
  destruct (fd_pc (sy_feed sy)); try done. destruct (et_pc (sy_engine sy)) as [| | | | | | | | | | | e] eqn:Ee; try done.
  destruct (ot_pc (sy_output sy)) as [| | | | | | | o]; try done. rewrite Hpc in Hj.
  pose proof (eo_pc _ _ _ _ _ _ _ (si_engine _ _ _ _ _ _ I)) as He. unfold engine_pc_ok in He.
  rewrite Ee in He. apply rbind_inv in He as (d & _ & [= <-]). simpl in Hj. rewrite Hl in Hj.
  injection Hj as <-. by eexists.
Qed.


(** A run without a journal succeeds.  Whatever the schedule and the calls on
    the control handle were so far, kills and a shutdown request included, once
    its holders are quiet and every thread keeps being scheduled, a run that was
    given no journal and no journal path ends after finitely many steps with a
    summary: it neither waits for ever nor ends with an error. *)
Theorem unjournalled_run_completes control before sy log schedule :
  schedule_fits source control before ->
  (0 < pc_input_capacity cfg)%nat -> (0 < pc_output_capacity cfg)%nat -> fair schedule ->
  run cfg (ec_run_id ec) (start ec cfg source control None) before = Ret (sy, log) ->
  exists k sy' summary,
    run cfg (ec_run_id ec) sy (steps schedule 0 k) = Ret (sy', []) /\ joined cfg sy' = Some (Ok summary).
Proof.
  intros Hb Hi Ho F Erun.
  destruct (start_run ec cfg source None W control before Hb) as (g & sy1 & log1 & E & I & A & B & _).
  rewrite Erun in E. injection E as <- <-.
  destruct (fair_finishes ec cfg source None W schedule 0 g sy Hi Ho F I B) as (k & sy' & Ek & result & Ej).
  destruct (unjournalled_result control (before ++ steps schedule 0 k) sy' log result) as [summary ->].
  - unfold schedule_fits in *. rewrite submits_app, (watches_submits (steps schedule 0 k)) by by apply fair_watches. lia.
  - rewrite run_app, Erun. cbn [rbind]. rewrite Ek. cbn [rbind]. by rewrite app_nil_r.
  - done.
  - by exists k, sy', summary.
Qed.

End Sound.

(** * A concrete run *)

(** Killed and shut down half way. *)
Definition cut_short : list Actor :=
  replicate 20 Feed ++ [Outside EngageKill; EngineA; Outside RequestShutdown].

Definition wide_start : System :=
  start sample_config wide_pipeline (Memory sample_inputs) sample_control None.

Lemma unjournalled_run_completes_witness :
  exists sy log k sy' summary,
    run wide_pipeline 1 wide_start cut_short = Ret (sy, log)
    /\ run wide_pipeline 1 sy (steps turns 0 k) = Ret (sy', [])
    /\ joined wide_pipeline sy' = Some (Ok summary).
Proof.
  destruct (start_run sample_config wide_pipeline (Memory sample_inputs) None wide_setup sample_control
              cut_short) as (g & sy & log & E & _); [by vm_compute |].
  destruct (unjournalled_run_completes sample_config wide_pipeline (Memory sample_inputs) wide_setup eq_refl
              sample_control cut_short sy log turns) as (k & sy' & summary & Ek & Ej).
  - by vm_compute.
  - simpl. lia.
  - simpl. lia.
  - apply turns_fair.
  - exact E.
  - exists sy, log, k, sy', summary. by split_and!.
Defined.
