(* ===== verification/Harness.v ===== *)
(** The measurement harness ([crates/engine-runtime/src/harness.rs]).

    What it measures is the host's time, which is not ours to say: every step
    that reads the clock is given the value read.  What it does around the
    measurements is code like any other: three threads over two bounded queues,
    stamps that travel with the inputs and the outputs, and samples that are
    taken for some of the reports.  The histogram is [hdrhistogram], code of
    another package: the class [Histogram]. *)

From S2P Require Import Prelude Enums Ids Events BTree Slab Book Account Config CoreState Core Queue.

(** * The histogram *)

Class Histogram (H : Type) := {
  (** [Histogram::new_with_bounds]; [None] is an error. *)
  new_with_bounds : Z -> Z -> Z -> option H;
  (** [record]; [false] is [Err(_)]. *)
  hist_record : H -> Z -> H * bool;
  hist_len : H -> Z;
  hist_min : H -> Z;
  hist_max : H -> Z;
  (** [value_at_quantile], in thousandths. *)
  value_at_quantile : H -> Z -> Z
}.

(** What is documented of it: the harness's bounds are valid, a value within the
    bounds is recorded, a value is recorded whole or not at all, and [len] counts
    the recorded values. *)
Class HistogramLaws {H : Type} (HG : Histogram H) := {
  hist_samples : H -> list Z;
  hist_new_ok : exists h, new_with_bounds 1 60000000000 3 = Some h /\ hist_samples h = [];
  hist_record_ok h v : 1 <= v <= 60000000000 -> (hist_record h v).2 = true;
  hist_record_samples h v :
    hist_samples (hist_record h v).1 = hist_samples h ++ (if (hist_record h v).2 then [v] else []);
  hist_len_ok h : Z.of_nat (length (hist_samples h)) <= u64_max ->
    hist_len h = Z.of_nat (length (hist_samples h))
}.

(** * Results *)

Record LatencyStats := mkLatencyStats {
  ls_count : Z;
  ls_min_ns : Z;
  ls_p50_ns : Z;
  ls_p95_ns : Z;
  ls_p99_ns : Z;
  ls_p999_ns : Z;
  ls_max_ns : Z
}.

Record PipelineBench := mkPipelineBench {
  pb_arrival_to_report : LatencyStats;
  pb_enqueue_to_report : LatencyStats;
  pb_inputs : Z;
  pb_outputs : Z;
  pb_elapsed_ns : Z;
  pb_offered_rate_hz : Z;
  pb_generator_behind : Z;
  pb_input_high_water : Z;
  pb_output_high_water : Z
}.

Record BenchConfig := mkBenchConfig {
  bc_capacity : nat;
  bc_wait : WaitStrategy;
  bc_target_rate_hz : Z;
  bc_producer_delay_ns : Z
}.

(** [BenchConfig::new]. *)
Definition bench_config_new (capacity : nat) (wait : WaitStrategy) (target_rate_hz : Z) : BenchConfig :=
  mkBenchConfig capacity wait target_rate_hz 0.

Record Stamp := mkStamp {
  st_scheduled_ns : Z;
  st_enqueue_ns : Z
}.

Section Stats.
Context {H : Type} `{HG : Histogram H}.

(** [LatencyStats::from]. *)
Definition stats_from (h : H) : LatencyStats :=
  mkLatencyStats (hist_len h) (hist_min h) (value_at_quantile h 500) (value_at_quantile h 950)
    (value_at_quantile h 990) (value_at_quantile h 999) (hist_max h).

(** [histogram()]. *)
Definition histogram : res H := unwrap (new_with_bounds 1 60000000000 3).

(** [histogram.record(now.saturating_sub(since).max(1)).ok()]. *)
Definition latency (now since : Z) : Z := Z.max (u64_saturating_sub now since) 1.

Definition record_latency (h : H) (now since : Z) : H := (hist_record h (latency now since)).1.

(** [timer_read_pair_baseline]: [reads] are the pairs of clock readings of the
    loop; the thousand readings before it are dropped. *)
Definition timer_read_pair_baseline (reads : list (Z * Z)) : res LatencyStats :=
  let! h := histogram in
  Ret (stats_from (foldl (fun h '(first, second) => record_latency h second first) h reads)).

End Stats.

(** * The threads of [open_loop_pipeline] *)

(** What the benchmark runs on. *)
Class BenchPlatform := {
  BStore : Type;
  bench_slab :: Slab OrderNode BStore;
  BHist : Type;
  bench_hist :: Histogram BHist;
  BInRing : Type;
  bench_in_ring :: Ring (EngineInput * Stamp) BInRing;
  BOutRing : Type;
  bench_out_ring :: Ring (OutputEvent.t * Stamp) BOutRing
}.

Class BenchLaws (P : BenchPlatform) := {
  bl_slab :: SlabLaws bench_slab;
  bl_hist :: HistogramLaws bench_hist;
  bl_in_ring :: RingLaws bench_in_ring;
  bl_out_ring :: RingLaws bench_out_ring
}.

Section Bench.
Context {P : BenchPlatform}.

(** [1_000_000_000u64.checked_div(target_rate_hz).unwrap_or(0)]. *)
Definition interval_ns (cfg : BenchConfig) : Z :=
  if bc_target_rate_hz cfg =? 0 then 0 else 1000000000 / bc_target_rate_hz cfg.

(** [order_inputs]: by engine sequence, whether the input is an order. *)
Definition is_order (input : EngineInput) : bool :=
  match in_event input with InputEvent.Order _ => true | _ => false end.

Definition order_inputs (inputs : list EngineInput) : list bool := false :: (is_order <$> inputs).

(** ** The feed thread *)

Inductive BFeedPc :=
| BfNext
| BfPace (input : EngineInput) (scheduled_ns : Z)
| BfStamp (input : EngineInput) (scheduled_ns : Z)
| BfSend (pc : SendPc (EngineInput * Stamp))
| BfDrop
| BfDone.

Record BFeed := mkBFeed {
  bf_pc : BFeedPc;
  bf_rest : list EngineInput;
  bf_index : Z;
  bf_behind : Z
}.

Definition bf_at (t : BFeed) (pc : BFeedPc) : BFeed := mkBFeed pc (bf_rest t) (bf_index t) (bf_behind t).

(** One step at clock reading [now].  In [BfPace] the thread sleeps or spins until
    its time has come; in [BfStamp] it has slept for [producer_delay_ns]. *)
Definition bfeed_step (cfg : BenchConfig) (now : Z) (c : Channel BInRing) (t : BFeed)
  : res (Channel BInRing * BFeed) :=
  match bf_pc t with
  | BfNext =>
      match bf_rest t with
      | [] => Ret (c, bf_at t BfDrop)
      | input :: rest =>
          let t := mkBFeed (bf_pc t) rest (bf_index t + 1) (bf_behind t) in
          if 0 <? interval_ns cfg then
            let! scheduled_ns := u64_plain (bf_index t * interval_ns cfg) in
            Ret (c, bf_at t (BfPace input scheduled_ns))
          else Ret (c, bf_at t (BfStamp input now))
      end
  | BfPace input scheduled_ns =>
      if scheduled_ns <=? now then
        let! late := u64_plain (scheduled_ns + interval_ns cfg) in
        if late <? now then
          let! behind := u64_plain (bf_behind t + 1) in
          Ret (c, mkBFeed (BfStamp input scheduled_ns) (bf_rest t) (bf_index t) behind)
        else Ret (c, bf_at t (BfStamp input scheduled_ns))
      else Ret (c, t)
  | BfStamp input scheduled_ns =>
      Ret (c, bf_at t (BfSend (send c (input, mkStamp scheduled_ns now))))
  | BfSend pc =>
      let! (c, r) := send_step c pc in
      Ret (c, bf_at t (match r with
                       | inl pc => BfSend pc
                       | inr true => BfNext
                       | inr false => BfDrop
                       end))
  | BfDrop => Ret (close_sender c, bf_at t BfDone)
  | BfDone => Ret (c, t)
  end.

(** ** The engine thread *)

Inductive BEnginePc :=
| BeReceive (r : RecvPc (EngineInput * Stamp))
| BeSend (stamp : Stamp) (s : SendPc (OutputEvent.t * Stamp)) (rest : list OutputEvent.t)
| BeDropInput
| BeDropOutput
| BeDone.

Record BEngine := mkBEngine {
  be_pc : BEnginePc;
  be_core : TradingCore BStore;
  be_applied : Z
}.

Definition be_at (t : BEngine) (pc : BEnginePc) : BEngine := mkBEngine pc (be_core t) (be_applied t).

(** [for event in &batch], and the head of the loop after it. *)
Definition bsend_batch (input : Channel BInRing) (output : Channel BOutRing) (stamp : Stamp)
    (batch : list OutputEvent.t) : BEnginePc :=
  match batch with
  | [] => BeReceive (recv input)
  | event :: rest => BeSend stamp (send output (event, stamp)) rest
  end.

Definition bengine_step (input : Channel BInRing) (output : Channel BOutRing) (t : BEngine)
  : res (Channel BInRing * Channel BOutRing * BEngine) :=
  match be_pc t with
  | BeReceive r =>
      let! (input, r) := recv_step input r in
      match r with
      | inl r => Ret (input, output, be_at t (BeReceive r))
      | inr None => Ret (input, output, be_at t BeDropInput)
      | inr (Some (i, stamp)) =>
          let! (core, batch) := Engine.apply (be_core t) i in
          let! applied := u64_plain (be_applied t + 1) in
          Ret (input, output, mkBEngine (bsend_batch input output stamp batch) core applied)
      end
  | BeSend stamp s rest =>
      let! (output, r) := send_step output s in
      Ret (input, output,
           be_at t (match r with
                    | inl s => BeSend stamp s rest
                    | inr true => bsend_batch input output stamp rest
                    | inr false => BeReceive (recv input)
                    end))
  | BeDropInput => Ret (close_receiver input, output, be_at t BeDropOutput)
  | BeDropOutput => Ret (input, close_sender output, be_at t BeDone)
  | BeDone => Ret (input, output, t)
  end.

(** ** The output thread *)

Inductive BOutputPc :=
| BoReceive (r : RecvPc (OutputEvent.t * Stamp))
| BoHandle (event : OutputEvent.t) (stamp : Stamp)
| BoDrop
| BoDone.

Record BOutput := mkBOutput {
  bo_pc : BOutputPc;
  bo_arrival : BHist;
  bo_enqueue : BHist;
  bo_outputs : Z
}.

Definition bo_at (t : BOutput) (pc : BOutputPc) : BOutput :=
  mkBOutput pc (bo_arrival t) (bo_enqueue t) (bo_outputs t).

(** Whether an event is a report on an order input. *)
Definition sampled (orders : list bool) (event : OutputEvent.t) : bool :=
  match event with
  | OutputEvent.Report report =>
      bool_decide (orders !! Z.to_nat (rep_engine_seq report) = Some true)
  | _ => false
  end.

Definition boutput_step (orders : list bool) (now : Z) (c : Channel BOutRing) (t : BOutput)
  : res (Channel BOutRing * BOutput) :=
  match bo_pc t with
  | BoReceive r =>
      let! (c, r) := recv_step c r in
      Ret (c, bo_at t (match r with
                       | inl r => BoReceive r
                       | inr (Some (event, stamp)) => BoHandle event stamp
                       | inr None => BoDrop
                       end))
  | BoHandle event stamp =>
      let! outputs := u64_plain (bo_outputs t + 1) in
      let next := BoReceive (recv c) in
      if sampled orders event then
        Ret (c, mkBOutput next (record_latency (bo_arrival t) now (st_scheduled_ns stamp))
                  (record_latency (bo_enqueue t) now (st_enqueue_ns stamp)) outputs)
      else Ret (c, mkBOutput next (bo_arrival t) (bo_enqueue t) outputs)
  | BoDrop => Ret (close_receiver c, bo_at t BoDone)
  | BoDone => Ret (c, t)
  end.

(** ** The system *)

Record Bench := mkBench {
  bn_input : Channel BInRing;
  bn_output : Channel BOutRing;
  bn_feed : BFeed;
  bn_engine : BEngine;
  bn_out : BOutput
}.

Inductive BActor := BFeedA | BEngineA | BOutputA.

Definition bench_start (ec : EngineConfig) (inputs : list EngineInput) (cfg : BenchConfig) : res Bench :=
  let input := bounded (bc_capacity cfg) (bc_wait cfg) in
  let output := bounded (bc_capacity cfg) (bc_wait cfg) in
  let! arrival := histogram in
  let! enqueue := histogram in
  Ret (mkBench input output (mkBFeed BfNext inputs 0 0)
         (mkBEngine (BeReceive (recv input)) (Core.new ec) 0)
         (mkBOutput (BoReceive (recv output)) arrival enqueue 0)).

(** One step of one thread, at a clock reading. *)
Definition bench_step (cfg : BenchConfig) (orders : list bool) (b : Bench) (a : BActor * Z) : res Bench :=
  match a.1 with
  | BFeedA =>
      let! (c, t) := bfeed_step cfg a.2 (bn_input b) (bn_feed b) in
      Ret (mkBench c (bn_output b) t (bn_engine b) (bn_out b))
  | BEngineA =>
      let! (i, o, t) := bengine_step (bn_input b) (bn_output b) (bn_engine b) in
      Ret (mkBench i o (bn_feed b) t (bn_out b))
  | BOutputA =>
      let! (c, t) := boutput_step orders a.2 (bn_output b) (bn_out b) in
      Ret (mkBench (bn_input b) c (bn_feed b) (bn_engine b) t)
  end.

Fixpoint bench_run (cfg : BenchConfig) (orders : list bool) (b : Bench) (schedule : list (BActor * Z))
  : res Bench :=
  match schedule with
  | [] => Ret b
  | a :: schedule =>
      let! b := bench_step cfg orders b a in
      bench_run cfg orders b schedule
  end.

(** The three joins and the result; [None] while a thread still runs. *)
Definition bench_joined (cfg : BenchConfig) (elapsed_ns : Z) (b : Bench) : option PipelineBench :=
  match bf_pc (bn_feed b), be_pc (bn_engine b), bo_pc (bn_out b) with
  | BfDone, BeDone, BoDone =>
      Some (mkPipelineBench (stats_from (bo_arrival (bn_out b))) (stats_from (bo_enqueue (bn_out b)))
              (be_applied (bn_engine b)) (bo_outputs (bn_out b)) elapsed_ns (bc_target_rate_hz cfg)
              (bf_behind (bn_feed b)) (qs_high_water (ch_stats (bn_input b)))
              (qs_high_water (ch_stats (bn_output b))))
  | _, _, _ => None
  end.

End Bench.

(** * [queue_round_trip]

    The main thread asks and waits, the echo thread answers, over two queues with
    room for one value each. *)

Section RoundTrip.
Context {R : Type} `{RG : Ring Z R} {H : Type} `{HG : Histogram H}.

Inductive AskPc :=
| AkNext
| AkSend (sent : Z) (pc : SendPc Z)
| AkReceive (sent : Z) (pc : RecvPc Z)
| AkRecord (sent : Z)
| AkDrop
| AkJoin.

Record Ask := mkAsk {
  ak_pc : AskPc;
  ak_left : nat;
  ak_hist : H
}.

Definition ak_at (t : Ask) (pc : AskPc) : Ask := mkAsk pc (ak_left t) (ak_hist t).

Inductive EchoPc :=
| EcReceive (pc : RecvPc Z)
| EcSend (pc : SendPc Z)
| EcDropInput
| EcDropOutput
| EcDone.

Record RoundTrip := mkRoundTrip {
  rt_request : Channel R;
  rt_response : Channel R;
  rt_ask : Ask;
  rt_echo : EchoPc
}.

Definition ask_step (now : Z) (request response : Channel R) (t : Ask)
  : res (Channel R * Channel R * Ask) :=
  match ak_pc t with
  | AkNext =>
      match ak_left t with
      | O => Ret (request, response, ak_at t AkDrop)
      | S n => Ret (request, response, mkAsk (AkSend now (send request now)) n (ak_hist t))
      end
  | AkSend sent pc =>
      let! (request, r) := send_step request pc in
      Ret (request, response, ak_at t (match r with
                                       | inl pc => AkSend sent pc
                                       | inr true => AkReceive sent (recv response)
                                       | inr false => AkDrop
                                       end))
  | AkReceive sent pc =>
      let! (response, r) := recv_step response pc in
      Ret (request, response, ak_at t (match r with
                                       | inl pc => AkReceive sent pc
                                       | inr (Some _) => AkRecord sent
                                       | inr None => AkDrop
                                       end))
  | AkRecord sent =>
      Ret (request, response, mkAsk AkNext (ak_left t) (record_latency (ak_hist t) now sent))
  | AkDrop => Ret (close_sender request, response, ak_at t AkJoin)
  | AkJoin => Ret (request, response, t)
  end.

Definition echo_step (request response : Channel R) (pc : EchoPc)
  : res (Channel R * Channel R * EchoPc) :=
  match pc with
  | EcReceive pc =>
      let! (request, r) := recv_step request pc in
      Ret (request, response, match r with
                              | inl pc => EcReceive pc
                              | inr (Some value) => EcSend (send response value)
                              | inr None => EcDropInput
                              end)
  | EcSend pc =>
      let! (response, r) := send_step response pc in
      Ret (request, response, match r with
                              | inl pc => EcSend pc
                              | inr true => EcReceive (recv request)
                              | inr false => EcDropInput
                              end)
  | EcDropInput => Ret (close_receiver request, response, EcDropOutput)
  | EcDropOutput => Ret (request, close_sender response, EcDone)
  | EcDone => Ret (request, response, EcDone)
  end.

Inductive RtActor := AskA | EchoA.

Definition round_trip_step (s : RoundTrip) (a : RtActor * Z) : res RoundTrip :=
  match a.1 with
  | AskA =>
      let! (q, p, t) := ask_step a.2 (rt_request s) (rt_response s) (rt_ask s) in
      Ret (mkRoundTrip q p t (rt_echo s))
  | EchoA =>
      let! (q, p, e) := echo_step (rt_request s) (rt_response s) (rt_echo s) in
      Ret (mkRoundTrip q p (rt_ask s) e)
  end.

Fixpoint round_trip_run (s : RoundTrip) (schedule : list (RtActor * Z)) : res RoundTrip :=
  match schedule with
  | [] => Ret s
  | a :: schedule =>
      let! s := round_trip_step s a in
      round_trip_run s schedule
  end.

Definition round_trip_start (samples : nat) (wait : WaitStrategy) : res RoundTrip :=
  let request := bounded 1 wait in
  let response := bounded 1 wait in
  let! h := histogram in
  Ret (mkRoundTrip request response (mkAsk AkNext samples h) (EcReceive (recv request))).

(** The join and the result. *)
Definition queue_round_trip (s : RoundTrip) : option LatencyStats :=
  match ak_pc (rt_ask s), rt_echo s with
  | AkJoin, EcDone => Some (stats_from (ak_hist (rt_ask s)))
  | _, _ => None
  end.

End RoundTrip.
