(* ===== verification/HarnessProps.v ===== *)
(** The benchmark's threads: the invariant that every step of every thread keeps,
    whatever the clock shows, and the measure that shows that they end. *)

From S2P Require Import Prelude Enums Ids Events BTree Slab Book Account Config CoreState Core CoreApply.
From S2P Require Import CoreExec CoreInv CoreRun CoreTheorems ReplayTheorems Queue QueueProps PipelineLive.
From S2P Require Import Harness.

(** * The invariant *)

Section Inv.
Context {P : BenchPlatform} {PL : BenchLaws P}.
Context (ec : EngineConfig) (inputs : list EngineInput) (cfg : BenchConfig) (hist0 : BHist).

Abbreviation orders := (order_inputs inputs) (only parsing).
Abbreviation w := (bc_wait cfg) (only parsing).

(** An output with its stamp and the clock reading at which it was handled. *)
Abbreviation Handled := (OutputEvent.t * Stamp * Z)%type (only parsing).

Record BGhost := mkBGhost {
  (** pushed to and popped from the input queue, applied by the engine *)
  gb_sent : list (EngineInput * Stamp);
  gb_taken : list (EngineInput * Stamp);
  gb_done : list (EngineInput * Stamp);
  (** the engine's outputs, those pushed to and popped from the output queue,
      those that were handled *)
  gb_out : list (OutputEvent.t * Stamp);
  gb_pushed : list (OutputEvent.t * Stamp);
  gb_got : list (OutputEvent.t * Stamp);
  gb_handled : list Handled
}.

(** The clock had shown no more than [now]. *)
Definition stamp_ok (now : Z) (s : Stamp) : Prop :=
  0 <= st_scheduled_ns s <= st_enqueue_ns s /\ st_enqueue_ns s <= now.

Definition bfeed_gone (t : BFeed) : bool := match bf_pc t with BfDone => true | _ => false end.

Definition bfeed_counting (t : BFeed) : Counting :=
  match bf_pc t with BfSend s => counting_pc s | _ => Counted end.

(** What the feed has sent, holds and has left are the inputs. *)
Definition bfeed_pc_ok (now : Z) (sent : list (EngineInput * Stamp)) (t : BFeed) : Prop :=
  match bf_pc t with
  | BfNext => sent.*1 ++ bf_rest t = inputs /\ bf_index t = Z.of_nat (length sent)
  | BfPace input s =>
      sent.*1 ++ input :: bf_rest t = inputs /\ bf_index t = Z.of_nat (length sent) + 1
      /\ 0 < interval_ns cfg /\ s = bf_index t * interval_ns cfg
  | BfStamp input s =>
      sent.*1 ++ input :: bf_rest t = inputs /\ bf_index t = Z.of_nat (length sent) + 1
      /\ 0 <= s <= now
  | BfSend pc =>
      (sent ++ send_holds pc).*1 ++ bf_rest t = inputs
      /\ bf_index t = Z.of_nat (length (sent ++ send_holds pc))
      /\ Forall (fun x => stamp_ok now x.2) (send_holds pc) /\ send_wait pc w
  | BfDrop | BfDone => sent.*1 = inputs /\ bf_index t = Z.of_nat (length sent)
  end.

(** The input being paced has not been counted as late yet. *)
Definition uncounted (t : BFeed) : Z := match bf_pc t with BfPace _ _ => 1 | _ => 0 end.

Record bfeed_ok (now : Z) (sent : list (EngineInput * Stamp)) (t : BFeed) : Prop := {
  bfo_pc : bfeed_pc_ok now sent t;
  bfo_behind : 0 <= bf_behind t <= bf_index t - uncounted t;
  bfo_stamps : Forall (fun x => stamp_ok now x.2) sent
}.

Definition bengine_holds (pc : BEnginePc) : list (EngineInput * Stamp) :=
  match pc with BeReceive r => recv_holds r | _ => [] end.

Definition bengine_unsent (pc : BEnginePc) : list (OutputEvent.t * Stamp) :=
  match pc with BeSend stamp s rest => send_holds s ++ ((fun e => (e, stamp)) <$> rest) | _ => [] end.

Definition bengine_counting (t : BEngine) : Counting :=
  match be_pc t with BeSend _ s _ => counting_pc s | _ => Counted end.

Definition binput_dropped (t : BEngine) : bool :=
  match be_pc t with BeDropOutput | BeDone => true | _ => false end.

Definition boutput_dropped (t : BEngine) : bool :=
  match be_pc t with BeDone => true | _ => false end.

Definition bengine_pc_ok (feed_gone : bool) (g : BGhost) (t : BEngine) : Prop :=
  match be_pc t with
  | BeReceive r => recv_wait r w /\ recv_last r feed_gone
  | BeSend _ s _ => send_wait s w
  | _ => feed_gone = true /\ gb_taken g = gb_sent g
  end.

(** An output carries the stamp of the input that its engine sequence names. *)
Definition stamped_by (done : list (EngineInput * Stamp)) (x : OutputEvent.t * Stamp) : Prop :=
  0 < OutputEvent.engine_seq x.1
  /\ (snd <$> done) !! Z.to_nat (OutputEvent.engine_seq x.1 - 1) = Some x.2.

Record bengine_ok (feed_gone : bool) (g : BGhost) (t : BEngine) : Prop := {
  beo_run : engine_run (Core.new ec) (gb_done g).*1 = Ret (be_core t, (gb_out g).*1);
  beo_inv : core_inv (be_core t);
  beo_seq : tc_engine_seq (be_core t) = Z.of_nat (length (gb_done g));
  beo_outs : tc_output_seq (be_core t) = Z.of_nat (length (gb_out g));
  beo_applied : be_applied t = Z.of_nat (length (gb_done g));
  beo_taken : gb_taken g = gb_done g ++ bengine_holds (be_pc t);
  beo_pushed : gb_out g = gb_pushed g ++ bengine_unsent (be_pc t);
  beo_stamped : Forall (stamped_by (gb_done g)) (gb_out g);
  beo_pc : bengine_pc_ok feed_gone g t
}.

(** The readings of the reports on orders, against the start of each latency. *)
Definition latencies (since : Stamp -> Z) (handled : list Handled) : list Z :=
  (fun x => latency x.2 (since x.1.2)) <$> List.filter (fun x => sampled orders x.1.1) handled.

Definition recorded_in (values : list Z) : BHist := foldl (fun h v => (hist_record h v).1) hist0 values.

Definition boutput_holds (pc : BOutputPc) : list (OutputEvent.t * Stamp) :=
  match pc with
  | BoReceive r => recv_holds r
  | BoHandle event stamp => [(event, stamp)]
  | _ => []
  end.

Definition boutput_popping (t : BOutput) : bool :=
  match bo_pc t with BoReceive r => holding (recv_holds r) | _ => false end.

Definition boutput_gone (t : BOutput) : bool := match bo_pc t with BoDone => true | _ => false end.

Definition handled_ok (x : Handled) : Prop := stamp_ok x.2 x.1.2.

Record boutput_ok (engine_gone : bool) (g : BGhost) (t : BOutput) : Prop := {
  boo_got : gb_got g = (gb_handled g).*1 ++ boutput_holds (bo_pc t);
  boo_outputs : bo_outputs t = Z.of_nat (length (gb_handled g));
  boo_arrival : bo_arrival t = recorded_in (latencies st_scheduled_ns (gb_handled g));
  boo_enqueue : bo_enqueue t = recorded_in (latencies st_enqueue_ns (gb_handled g));
  boo_handled : Forall handled_ok (gb_handled g);
  boo_pc : match bo_pc t with
           | BoReceive r => recv_wait r w /\ recv_last r engine_gone
           | BoHandle _ _ => True
           | _ => engine_gone = true /\ gb_got g = gb_pushed g
           end
}.

Definition bengine_popping (t : BEngine) : bool := holding (bengine_holds (be_pc t)).

Record bench_inv (now : Z) (g : BGhost) (b : Bench) : Prop := {
  bi_in : channel_ok w (bn_input b) (bc_capacity cfg) (gb_sent g) (gb_taken g)
            (bfeed_counting (bn_feed b)) (bengine_popping (bn_engine b))
            (bfeed_gone (bn_feed b)) (binput_dropped (bn_engine b));
  bi_out : channel_ok w (bn_output b) (bc_capacity cfg) (gb_pushed g) (gb_got g)
             (bengine_counting (bn_engine b)) (boutput_popping (bn_out b))
             (boutput_dropped (bn_engine b)) (boutput_gone (bn_out b));
  bi_feed : bfeed_ok now (gb_sent g) (bn_feed b);
  bi_engine : bengine_ok (bfeed_gone (bn_feed b)) g (bn_engine b);
  bi_output : boutput_ok (boutput_dropped (bn_engine b)) g (bn_out b)
}.

(** The hypotheses of a benchmark. *)
Record bench_wf : Prop := {
  bw_config : config_wf ec;
  bw_inputs : Forall input_wf inputs;
  bw_length : Z.of_nat (length inputs) < u32_max;
  bw_wait : wait_wf w;
  bw_rate : 0 <= bc_target_rate_hz cfg
}.

Hypothesis W : bench_wf.

Lemma stamp_ok_mono now now' s : now <= now' -> stamp_ok now s -> stamp_ok now' s.
Proof. intros Hn [H1 H2]. split; [done | lia]. Qed.

Lemma stamps_mono {A} now now' (l : list (A * Stamp)) :
  now <= now' -> Forall (fun x => stamp_ok now x.2) l -> Forall (fun x => stamp_ok now' x.2) l.
Proof. intros Hn H. eapply Forall_impl; [exact H |]. intros x. by apply stamp_ok_mono. Qed.

Lemma bfeed_ok_mono now now' sent t : now <= now' -> bfeed_ok now sent t -> bfeed_ok now' sent t.
Proof.
  intros Hn [Hp Hb Hs]. constructor; [| done | by eapply stamps_mono].
  unfold bfeed_pc_ok in *. destruct (bf_pc t); try done.
  - destruct Hp as (? & ? & ?). split_and!; try done; lia.
  - destruct Hp as (? & ? & ? & ?). split_and!; try done. by eapply stamps_mono.
Qed.

Lemma interval_bound : 0 <= interval_ns cfg <= 1000000000.
Proof.
  unfold interval_ns. pose proof (bw_rate W). destruct (Z.eqb_spec (bc_target_rate_hz cfg) 0); [lia |].
  split; [apply Z.div_pos; lia |]. apply Z.div_le_upper_bound; nia.
Qed.

Lemma schedule_bound i : 0 <= i <= u32_max -> 0 <= i * interval_ns cfg <= 4294967295 * 1000000000.
Proof.
  intros Hi. pose proof interval_bound.
  split; [lia | apply Z.mul_le_mono_nonneg; mach].
Qed.

Lemma feed_index now sent t :
  bfeed_ok now sent t -> Z.of_nat (length sent) <= bf_index t <= Z.of_nat (length inputs).
Proof.
  intros [Hp _ _]. unfold bfeed_pc_ok in Hp.
  destruct (bf_pc t); destruct Hp as [E Hp]; destruct_and?; apply (f_equal length) in E;
    rewrite ?fmap_app, ?length_app, ?length_fmap in *; simpl in *; lia.
Qed.

(** While the feed runs, what the engine knows of it does not matter. *)
Definition g_send (g : BGhost) (sent : list (EngineInput * Stamp)) : BGhost :=
  mkBGhost sent (gb_taken g) (gb_done g) (gb_out g) (gb_pushed g) (gb_got g) (gb_handled g).

Lemma bengine_ok_live g t gone sent : bengine_ok false g t -> bengine_ok gone (g_send g sent) t.
Proof.
  intros []. constructor; try done. unfold bengine_pc_ok in *.
  destruct (be_pc t) as [r | | | |]; try done; try by destruct beo_pc0.
  destruct beo_pc0 as [? Hl]. split; [done |]. by destruct r.
Qed.

Lemma boutput_ok_send gone g t sent : boutput_ok gone g t -> boutput_ok gone (g_send g sent) t.
Proof. intros []. by constructor. Qed.

(** A step of the feed that leaves the queue alone. *)
Lemma bfeed_local now now' g b t :
  now <= now' -> bench_inv now g b -> bfeed_gone (bn_feed b) = false -> bfeed_gone t = false ->
  bfeed_counting (bn_feed b) = Counted -> bfeed_counting t = Counted ->
  bfeed_ok now' (gb_sent g) t ->
  bench_inv now' g (mkBench (bn_input b) (bn_output b) t (bn_engine b) (bn_out b)).
Proof.
  intros Hn [Ci Co F E O] G1 G2 C1 C2 F'. rewrite G1, C1 in Ci. rewrite G1 in E.
  constructor; simpl; rewrite ?G2, ?C2; done.
Qed.

(** The thread [a] has a step that keeps the invariant. *)
Definition advances (now : Z) (a : BActor) (b : Bench) : Prop :=
  exists g' b', bench_step cfg orders b (a, now) = Ret b' /\ bench_inv now g' b'.

Lemma bfeed_next_advances now now' g b :
  now <= now' -> 0 <= now' -> bench_inv now g b -> bf_pc (bn_feed b) = BfNext -> advances now' BFeedA b.
Proof.
  intros Hn H0 I Epc. pose proof (bfeed_ok_mono _ _ _ _ Hn (bi_feed _ _ _ I)) as F.
  pose proof (feed_index _ _ _ F) as Hidx. pose proof (bw_length W) as Hlen. pose proof interval_bound as Hint.
  destruct F as [Hp Hb Hs]. unfold bfeed_pc_ok, uncounted in Hp, Hb. rewrite Epc in Hp, Hb. destruct Hp as [E Ei].
  assert (Hcnt : bfeed_counting (bn_feed b) = Counted) by (unfold bfeed_counting; by rewrite Epc).
  assert (Hgone : bfeed_gone (bn_feed b) = false) by (unfold bfeed_gone; by rewrite Epc).
  exists g. unfold bench_step, bfeed_step. cbn [fst snd]. rewrite Epc.
  destruct (bf_rest (bn_feed b)) as [| input rest] eqn:Er.
  - rewrite rbind_ret. eexists. split; [done |]. apply (bfeed_local now now'); try done.
    constructor; unfold uncounted; simpl; [| lia | done]. rewrite app_nil_r in E. by split.
  - cbn [bf_index]. destruct (Z.ltb_spec 0 (interval_ns cfg)).
    + rewrite u64_plain_in, !rbind_ret.
      2: { pose proof (schedule_bound (bf_index (bn_feed b) + 1) ltac:(mach)). mach. }
      eexists. split; [done |]. apply (bfeed_local now now'); try done.
      constructor; unfold uncounted; simpl; [| lia | done]. split_and!; simpl; try done; lia.
    + rewrite rbind_ret. eexists. split; [done |]. apply (bfeed_local now now'); try done.
      constructor; unfold uncounted; simpl; [| lia | done]. split_and!; simpl; try done; lia.
Qed.

Lemma bfeed_pace_advances now now' g b input s :
  now <= now' -> 0 <= now' -> bench_inv now g b -> bf_pc (bn_feed b) = BfPace input s ->
  advances now' BFeedA b.
Proof.
  intros Hn H0 I Epc. pose proof (bfeed_ok_mono _ _ _ _ Hn (bi_feed _ _ _ I)) as F.
  pose proof (feed_index _ _ _ F) as Hidx. pose proof (bw_length W) as Hlen. pose proof interval_bound as Hint.
  pose proof F as [Hp Hb Hs]. unfold bfeed_pc_ok, uncounted in Hp, Hb. rewrite Epc in Hp, Hb.
  destruct Hp as (E & Ei & H1 & Hsch).
  assert (Hcnt : bfeed_counting (bn_feed b) = Counted) by (unfold bfeed_counting; by rewrite Epc).
  assert (Hgone : bfeed_gone (bn_feed b) = false) by (unfold bfeed_gone; by rewrite Epc).
  exists g. unfold bench_step, bfeed_step. cbn [fst snd]. rewrite Epc.
  pose proof (schedule_bound (bf_index (bn_feed b)) ltac:(mach)) as Hs0. rewrite <- Hsch in Hs0.
  destruct (Z.leb_spec s now').
  - rewrite u64_plain_in, rbind_ret by mach. destruct (Z.ltb_spec (s + interval_ns cfg) now').
    + rewrite u64_plain_in, !rbind_ret by mach. eexists. split; [done |].
      apply (bfeed_local now now'); try done. constructor; unfold uncounted; simpl; [| lia | done]. split_and!; done || lia.
    + rewrite rbind_ret. eexists. split; [done |].
      apply (bfeed_local now now'); try done. constructor; unfold uncounted; simpl; [| lia | done]. split_and!; done || lia.
  - rewrite rbind_ret. eexists. split; [done |]. by apply (bfeed_local now now').
Qed.

Lemma bfeed_send_advances now now' g b pc :
  now <= now' -> bench_inv now g b -> bf_pc (bn_feed b) = BfSend pc -> advances now' BFeedA b.
Proof.
  intros Hn I Epc. pose proof (bfeed_ok_mono _ _ _ _ Hn (bi_feed _ _ _ I)) as F.
  pose proof (feed_index _ _ _ F) as Hidx. pose proof (bw_length W) as Hlen.
  pose proof F as [Hp Hb Hs]. unfold bfeed_pc_ok, uncounted in Hp, Hb. rewrite Epc in Hp, Hb.
  destruct Hp as (E & Ei & Hst & Hw). destruct I as [Ci Co _ Eng O].
  assert (Hcnt : bfeed_counting (bn_feed b) = counting_pc pc) by (unfold bfeed_counting; by rewrite Epc).
  assert (Hgone : bfeed_gone (bn_feed b) = false) by (unfold bfeed_gone; by rewrite Epc).
  rewrite Hcnt, Hgone in Ci. rewrite Hgone in Eng.
  destruct (send_step_ok w _ _ _ _ _ _ _ _ Ci Hw (bw_wait W) ltac:(mach)) as (c' & r & Er & Hr).
  unfold advances, bench_step, bfeed_step. cbn [fst snd]. rewrite Epc, Er. cbn [rbind].
  destruct r as [pc' | []].
  - destruct Hr as (sent' & C' & Hw' & Hh). exists (g_send g sent'). eexists. split; [done |].
    rewrite Hh in E, Ei.
    assert (Hall : Forall (fun x => stamp_ok now' x.2) (sent' ++ send_holds pc'))
      by (rewrite <- Hh; by apply Forall_app_2).
    apply Forall_app in Hall as [Hs' Hh']. constructor; simpl; try done.
    + by apply bengine_ok_live.
    + by apply boutput_ok_send.
  - destruct Hr as (C' & Hh & _). rewrite Hh, app_nil_r in E, Ei. exists g. eexists. split; [done |].
    by constructor.
  - destruct Hr as (C' & Hcg & _). exfalso. destruct Eng as [_ _ _ _ _ _ _ _ Hpc].
    unfold bengine_pc_ok, binput_dropped in *. destruct (be_pc (bn_engine b)); naive_solver.
Qed.

Lemma bfeed_step_inv now now' g b :
  now <= now' -> 0 <= now' -> bench_inv now g b -> advances now' BFeedA b.
Proof.
  intros Hn H0 I. destruct (bf_pc (bn_feed b)) as [| input s | input s | pc | |] eqn:Epc.
  - by apply (bfeed_next_advances now now' g b).
  - by apply (bfeed_pace_advances now now' g b input s).
  - pose proof (bfeed_ok_mono _ _ _ _ Hn (bi_feed _ _ _ I)) as [Hp Hb Hs].
    unfold bfeed_pc_ok, uncounted in Hp, Hb. rewrite Epc in Hp, Hb. destruct Hp as (E & Ei & Hsch).
    unfold advances, bench_step, bfeed_step. cbn [fst snd]. rewrite Epc, rbind_ret.
    exists g. eexists. split; [done |]. apply (bfeed_local now now'); try done.
    + unfold bfeed_gone. by rewrite Epc.
    + unfold bfeed_counting. by rewrite Epc.
    + constructor; unfold uncounted; simpl; [| lia | done].
      split_and!; simpl.
      * by rewrite fmap_app, <- app_assoc.
      * rewrite length_app. simpl. lia.
      * repeat constructor; simpl; lia.
      * apply (co_strategy _ _ _ _ _ _ _ _ _ (bi_in _ _ _ I)).
  - by apply (bfeed_send_advances now now' g b pc).
  - pose proof (bfeed_ok_mono _ _ _ _ Hn (bi_feed _ _ _ I)) as [Hp Hb Hs].
    unfold bfeed_pc_ok, uncounted in Hp, Hb. rewrite Epc in Hp, Hb.
    destruct I as [Ci Co _ Eng O]. unfold bfeed_gone, bfeed_counting in *. rewrite Epc in *.
    unfold advances, bench_step, bfeed_step. cbn [fst snd]. rewrite Epc, rbind_ret.
    exists (g_send g (gb_sent g)). eexists. split; [done |]. constructor; simpl; try done.
    + by eapply close_sender_ok.
    + by apply bengine_ok_live.
    + by apply boutput_ok_send.
  - unfold advances, bench_step, bfeed_step. cbn [fst snd]. rewrite Epc, rbind_ret.
    exists g. eexists. split; [done |]. pose proof (bfeed_ok_mono _ _ _ _ Hn (bi_feed _ _ _ I)) as F.
    destruct I. by constructor.
Qed.

(** ** The engine *)

Lemma feed_sent_inputs now sent t : bfeed_ok now sent t -> exists rest, sent.*1 ++ rest = inputs.
Proof.
  intros [Hp _ _]. unfold bfeed_pc_ok in Hp. destruct (bf_pc t) as [| input s | input s | pc | |];
    destruct Hp as [E _]; try (by eexists).
  - rewrite fmap_app, <- app_assoc in E. by eexists.
  - exists []. by rewrite app_nil_r.
  - exists []. by rewrite app_nil_r.
Qed.

(** The inputs the engine has taken are inputs of the benchmark, in order. *)
Lemma taken_inputs now g b : bench_inv now g b -> exists rest, (gb_taken g).*1 ++ rest = inputs.
Proof.
  intros I. destruct (feed_sent_inputs _ _ _ (bi_feed _ _ _ I)) as [rest E].
  destruct (proj1 (chan_ahead w _ _ _ _ _ _ _ _ (bi_in _ _ _ I))) as [more Em].
  rewrite Em, fmap_app, <- app_assoc in E. by eexists.
Qed.

Lemma taken_bound now g b : bench_inv now g b -> (length (gb_taken g) <= length inputs)%nat.
Proof.
  intros I. destruct (taken_inputs _ _ _ I) as [rest E]. apply (f_equal length) in E.
  rewrite length_app, length_fmap in E. lia.
Qed.

Lemma outs_bound now g b : bench_inv now g b -> Z.of_nat (length (gb_out g)) < 2 ^ 62.
Proof.
  intros I. pose proof (taken_bound _ _ _ I) as Ht. pose proof (bw_length W) as Hl.
  destruct (bi_engine _ _ _ I) as [_ [Hok Hseq _ _] Es Eo _ Et _ _ _].
  rewrite Et, length_app in Ht. rewrite <- Eo. apply (core_ok_output _ _ Hok). mach.
Qed.

Lemma pushed_bound now g b : bench_inv now g b -> (length (gb_pushed g) <= length (gb_out g))%nat.
Proof. intros I. rewrite (beo_pushed _ _ _ (bi_engine _ _ _ I)), length_app. lia. Qed.

(** While the engine runs, what the output thread knows of it does not matter. *)
Lemma boutput_ok_live g g' t gone :
  gb_got g' = gb_got g -> gb_handled g' = gb_handled g ->
  boutput_ok false g t -> boutput_ok gone g' t.
Proof.
  intros E1 E2 []. constructor; rewrite ?E1, ?E2; try done.
  destruct (bo_pc t) as [r | | |]; try done; try by destruct boo_pc0.
  destruct boo_pc0 as [? Hl]. split; [done |]. by destruct r.
Qed.

Lemma stamped_fst (st : Stamp) (l : list OutputEvent.t) : ((fun e => (e, st)) <$> l).*1 = l.
Proof. induction l as [| e l IH]; [done |]. simpl. by f_equal. Qed.

Lemma stamped_by_app done more x : stamped_by done x -> stamped_by (done ++ more) x.
Proof. intros [H1 H2]. split; [done |]. rewrite fmap_app. by apply lookup_app_l_Some. Qed.

(** The engine applies an input. *)
Lemma bengine_applies gone g t i st :
  bengine_ok gone g t -> bengine_holds (be_pc t) = [(i, st)] -> bengine_unsent (be_pc t) = [] ->
  (length (gb_taken g) <= length inputs)%nat -> input_wf i ->
  exists core batch, Engine.apply (be_core t) i = Ret (core, batch)
    /\ forall pc, bengine_holds pc = [] -> bengine_unsent pc = (fun e => (e, st)) <$> batch ->
       bengine_pc_ok gone g (be_at t pc) ->
       bengine_ok gone
         (mkBGhost (gb_sent g) (gb_taken g) (gb_taken g) (gb_out g ++ ((fun e => (e, st)) <$> batch))
            (gb_pushed g) (gb_got g) (gb_handled g))
         (mkBEngine pc core (be_applied t + 1)).
Proof.
  intros [Hrun Hinv Hseq Houts Happ Ht Hp Hst Hpc] Hh Hu Hlen Hwf. pose proof (bw_length W) as Hl.
  rewrite Hh in Ht. rewrite Hu, app_nil_r in Hp. rewrite Ht, length_app in Hlen. cbn [length] in Hlen.
  destruct (apply_input_ok (be_core t) i Hinv) as (core & batch & Ea & [I1 I2 _ I4 I5]); [lia | done |].
  exists core, batch. split; [done |]. intros pc H1 H2 H3. constructor; simpl; rewrite ?Ht, ?length_app; simpl.
  - rewrite fmap_app, engine_run_app, Hrun. cbn. rewrite Ea. cbn.
    by rewrite app_nil_r, fmap_app, stamped_fst.
  - done.
  - lia.
  - rewrite I5, Houts, length_fmap. lia.
  - lia.
  - by rewrite H1, app_nil_r.
  - by rewrite H2, Hp.
  - apply Forall_app_2.
    + eapply Forall_impl; [exact Hst |]. intros x. apply stamped_by_app.
    + apply Forall_fmap, Forall_lookup_2. intros k e He. destruct (I4 k e He) as [_ Heq].
      unfold stamped_by. simpl. rewrite Heq, Hseq. split; [lia |].
      replace (Z.to_nat (Z.of_nat (length (gb_done g)) + 1 - 1)) with (length (gb_done g)) by lia.
      by rewrite fmap_app, lookup_app_r, length_fmap, Nat.sub_diag by by rewrite length_fmap.
  - unfold bengine_pc_ok in *. simpl in *. by rewrite <- Ht.
Qed.

Lemma bsend_batch_holds i o st batch : bengine_holds (bsend_batch i o st batch) = [].
Proof. by destruct batch. Qed.

Lemma bsend_batch_unsent i o st batch :
  bengine_unsent (bsend_batch i o st batch) = (fun e => (e, st)) <$> batch.
Proof. by destruct batch. Qed.

Lemma bsend_batch_ok gone g i o st batch t :
  ch_strategy i = w -> ch_strategy o = w -> bengine_pc_ok gone g (be_at t (bsend_batch i o st batch)).
Proof. intros H1 H2. by destruct batch. Qed.

(** What the new state of the engine thread has to satisfy. *)
Lemma bengine_moves now now' g g' b i o t :
  now <= now' -> bench_inv now g b -> boutput_dropped (bn_engine b) = false ->
  gb_sent g' = gb_sent g -> gb_got g' = gb_got g -> gb_handled g' = gb_handled g ->
  channel_ok w i (bc_capacity cfg) (gb_sent g) (gb_taken g') (bfeed_counting (bn_feed b))
    (bengine_popping t) (bfeed_gone (bn_feed b)) (binput_dropped t) ->
  channel_ok w o (bc_capacity cfg) (gb_pushed g') (gb_got g) (bengine_counting t)
    (boutput_popping (bn_out b)) (boutput_dropped t) (boutput_gone (bn_out b)) ->
  bengine_ok (bfeed_gone (bn_feed b)) g' t ->
  bench_inv now' g' (mkBench i o (bn_feed b) t (bn_out b)).
Proof.
  intros Hn I Hd E1 E2 E3 Ci Co E. destruct I as [_ _ F _ O]. rewrite Hd in O.
  constructor; simpl; rewrite ?E1, ?E2; try done.
  - by apply (bfeed_ok_mono now).
  - by eapply boutput_ok_live.
Qed.

Lemma bengine_receive_advances now now' g b r :
  now <= now' -> bench_inv now g b -> be_pc (bn_engine b) = BeReceive r -> advances now' BEngineA b.
Proof.
  intros Hn I Epc. pose proof (taken_bound _ _ _ I) as Htb. pose proof (bw_length W) as Hl.
  pose proof I as [Ci Co _ E _]. pose proof E as [Hrun Hinv Hseq Houts Happ Ht Hp Hst Hpc].
  assert (Hd : boutput_dropped (bn_engine b) = false) by (unfold boutput_dropped; by rewrite Epc).
  unfold bengine_popping, binput_dropped, bengine_counting, bengine_pc_ok in Ci, Co, Hpc.
  rewrite Hd in Co. rewrite Epc in Ci, Co, Hpc, Ht, Hp. simpl in Ci, Ht, Hp. destruct Hpc as [Hw Hlast].
  destruct (recv_step_ok w _ _ _ _ _ _ _ _ Ci Hw (bw_wait W) Hlast ltac:(mach)) as (c' & x & Ex & Hx).
  unfold advances, bench_step, bengine_step. cbn [fst]. rewrite Epc, Ex. cbn [rbind].
  destruct x as [r' | [[i st] |]].
  - destruct Hx as (Hr & Hw' & Hl' & C'). rewrite Hr, app_nil_r in Ht.
    exists (mkBGhost (gb_sent g) (gb_taken g ++ recv_holds r') (gb_done g) (gb_out g) (gb_pushed g)
              (gb_got g) (gb_handled g)).
    eexists. split; [done |]. apply (bengine_moves now now' g); try done.
    constructor; simpl; try done. by rewrite Ht.
  - destruct Hx as (Hr & C').
    assert (Hwf : input_wf i).
    { destruct (taken_inputs _ _ _ I) as [rest Ei]. pose proof (bw_inputs W) as Hall.
      rewrite <- Ei, Ht, Hr, fmap_app in Hall. apply Forall_app in Hall as [Hall _].
      apply Forall_app in Hall as [_ Hall]. by apply Forall_cons in Hall as [? _]. }
    destruct (bengine_applies _ g (bn_engine b) i st E) as (core & batch & Ea & Hnext); try done;
      [by rewrite Epc | by rewrite Epc |].
    rewrite Ea. cbn [rbind]. rewrite u64_plain_in by (rewrite Ht, length_app in Htb; mach). cbn [rbind].
    eexists. eexists. split; [done |].
    refine (bengine_moves now now' g _ b _ _ _ Hn I Hd _ _ _ _ _ (Hnext _ _ _ _)); simpl; try done.
    + unfold bengine_popping, binput_dropped. simpl. rewrite bsend_batch_holds. by destruct batch.
    + unfold bengine_counting, boutput_dropped. simpl. by destruct batch.
    + apply bsend_batch_holds.
    + apply bsend_batch_unsent.
    + apply bsend_batch_ok; [apply C' | apply Co].
  - destruct Hx as (Hr & C' & Hgone & Hall). exists g. eexists. split; [done |].
    apply (bengine_moves now now' g); try done. rewrite Hr, app_nil_r in Ht.
    constructor; simpl; try done. by rewrite app_nil_r.
Qed.

Lemma bengine_send_advances now now' g b st s rest :
  now <= now' -> bench_inv now g b -> be_pc (bn_engine b) = BeSend st s rest -> advances now' BEngineA b.
Proof.
  intros Hn I Epc. pose proof (outs_bound _ _ _ I) as Hob. pose proof (pushed_bound _ _ _ I) as Hpb.
  pose proof I as [Ci Co _ E O]. pose proof E as [Hrun Hinv Hseq Houts Happ Ht Hp Hst Hpc].
  assert (Hd : boutput_dropped (bn_engine b) = false) by (unfold boutput_dropped; by rewrite Epc).
  unfold bengine_popping, binput_dropped, bengine_counting, bengine_pc_ok in Ci, Co, Hpc.
  rewrite Hd in Co, O. rewrite Epc in Ci, Co, Hpc, Ht, Hp. simpl in Ci, Co, Ht, Hp.
  destruct (send_step_ok w _ _ _ _ _ _ _ _ Co Hpc (bw_wait W) ltac:(mach)) as (c' & x & Ex & Hx).
  unfold advances, bench_step, bengine_step. cbn [fst]. rewrite Epc, Ex. cbn [rbind].
  destruct x as [s' | []].
  - destruct Hx as (pushed' & C' & Hw' & Hh).
    exists (mkBGhost (gb_sent g) (gb_taken g) (gb_done g) (gb_out g) pushed' (gb_got g) (gb_handled g)).
    eexists. split; [done |]. apply (bengine_moves now now' g); try done.
    constructor; simpl; try done. by rewrite Hp, !app_assoc, Hh.
  - destruct Hx as (C' & Hh & _). rewrite Hh in Hp. exists g. eexists. split; [done |].
    apply (bengine_moves now now' g); try done.
    + unfold bengine_popping, binput_dropped. simpl. rewrite bsend_batch_holds. by destruct rest.
    + unfold bengine_counting, boutput_dropped. simpl. by destruct rest.
    + constructor; simpl; rewrite ?bsend_batch_holds, ?bsend_batch_unsent; try done.
      apply bsend_batch_ok; [apply Ci | apply C'].
  - destruct Hx as (C' & Hcg & _). exfalso. destruct O as [_ _ _ _ _ Hbo].
    unfold boutput_gone in Hcg. destruct (bo_pc (bn_out b)); try done. by destruct Hbo.
Qed.

Lemma bengine_step_inv now now' g b : now <= now' -> bench_inv now g b -> advances now' BEngineA b.
Proof.
  intros Hn I. destruct (be_pc (bn_engine b)) as [r | st s rest | | |] eqn:Epc.
  - by apply (bengine_receive_advances now now' g b r).
  - by apply (bengine_send_advances now now' g b st s rest).
  - unfold advances, bench_step, bengine_step. cbn [fst]. rewrite Epc. cbn [rbind].
    exists g. eexists. split; [done |]. pose proof I as [Ci Co _ [] _].
    unfold bengine_popping, binput_dropped, bengine_counting, boutput_dropped in *. rewrite Epc in *.
    apply (bengine_moves now now' g); try done.
    + unfold boutput_dropped. by rewrite Epc.
    + by eapply close_receiver_ok.
    + constructor; try done. unfold bengine_pc_ok in *. by rewrite Epc in *.
  - unfold advances, bench_step, bengine_step. cbn [fst]. rewrite Epc. cbn [rbind].
    exists g. eexists. split; [done |]. pose proof I as [Ci Co _ [] _].
    unfold bengine_popping, binput_dropped, bengine_counting, boutput_dropped in *. rewrite Epc in *.
    apply (bengine_moves now now' g); try done.
    + unfold boutput_dropped. by rewrite Epc.
    + by eapply close_sender_ok.
    + constructor; try done. unfold bengine_pc_ok in *. by rewrite Epc in *.
  - unfold advances, bench_step, bengine_step. cbn [fst]. rewrite Epc. cbn [rbind].
    exists g. eexists. split; [done |]. pose proof (bfeed_ok_mono _ _ _ _ Hn (bi_feed _ _ _ I)).
    destruct I. by constructor.
Qed.

(** ** The output thread *)

Lemma bgot_bound now g b : bench_inv now g b -> (length (gb_got g) <= length (gb_out g))%nat.
Proof.
  intros I. pose proof (pushed_bound _ _ _ I).
  pose proof (prefix_length _ _ (proj1 (chan_ahead w _ _ _ _ _ _ _ _ (bi_out _ _ _ I)))). lia.
Qed.

(** A stamp that travels with an output was written before. *)
Lemma got_stamps now g b :
  bench_inv now g b -> Forall (fun x => stamp_ok now x.2) (gb_got g).
Proof.
  intros I. destruct (proj1 (chan_ahead w _ _ _ _ _ _ _ _ (bi_out _ _ _ I))) as [more Em].
  destruct (proj1 (chan_ahead w _ _ _ _ _ _ _ _ (bi_in _ _ _ I))) as [later El].
  destruct (bi_engine _ _ _ I) as [_ _ _ _ _ Ht Hp Hst _].
  pose proof (bfo_stamps _ _ _ (bi_feed _ _ _ I)) as Hs. rewrite El, Ht in Hs.
  apply Forall_app in Hs as [Hs _]. apply Forall_app in Hs as [Hs _].
  assert (Hall : Forall (fun x => stamp_ok now x.2) (gb_out g)).
  { eapply Forall_impl; [exact Hst |]. intros x [_ Hx]. rewrite list_lookup_fmap in Hx.
    apply fmap_Some in Hx as (y & Hy & ->). by apply (Forall_lookup_1 _ _ _ _ Hs Hy). }
  rewrite Hp, Em in Hall. apply Forall_app in Hall as [Hall _]. by apply Forall_app in Hall as [? _].
Qed.

Lemma latencies_snoc since handled e st now :
  recorded_in (latencies since (handled ++ [(e, st, now)]))
  = if sampled orders e then record_latency (recorded_in (latencies since handled)) now (since st)
    else recorded_in (latencies since handled).
Proof.
  unfold latencies. rewrite List.filter_app, fmap_app. unfold recorded_in at 1. rewrite foldl_app.
  simpl. by destruct (sampled orders e).
Qed.

(** What the new state of the output thread has to satisfy. *)
Lemma boutput_moves now now' g b c t got handled :
  now <= now' -> bench_inv now g b ->
  let g' := mkBGhost (gb_sent g) (gb_taken g) (gb_done g) (gb_out g) (gb_pushed g) got handled in
  channel_ok w c (bc_capacity cfg) (gb_pushed g) got (bengine_counting (bn_engine b))
    (boutput_popping t) (boutput_dropped (bn_engine b)) (boutput_gone t) ->
  boutput_ok (boutput_dropped (bn_engine b)) g' t ->
  bench_inv now' g' (mkBench (bn_input b) c (bn_feed b) (bn_engine b) t).
Proof.
  intros Hn [Ci Co F E O] g' Co' O'. constructor; simpl; try done.
  - by apply (bfeed_ok_mono now).
  - destruct E. by constructor.
Qed.

Lemma boutput_receive_advances now now' g b r :
  now <= now' -> bench_inv now g b -> bo_pc (bn_out b) = BoReceive r -> advances now' BOutputA b.
Proof.
  intros Hn I Epc. pose proof (bgot_bound _ _ _ I) as Hgb. pose proof (outs_bound _ _ _ I) as Hob.
  pose proof I as [_ Co _ _ O]. pose proof O as [Hg Hn' Ha He Hh Hpc]. rewrite Epc in Hg, Hpc.
  unfold boutput_popping, boutput_gone in Co. rewrite Epc in Co. destruct Hpc as [Hw Hlast]. simpl in Hg.
  destruct (recv_step_ok w _ _ _ _ _ _ _ _ Co Hw (bw_wait W) Hlast ltac:(mach)) as (c' & x & Ex & Hx).
  unfold advances, bench_step, boutput_step. cbn [fst snd]. rewrite Epc, Ex. cbn [rbind].
  destruct x as [r' | [[e st] |]].
  - destruct Hx as (Hr & Hw' & Hl' & C'). rewrite Hr, app_nil_r in Hg. eexists. eexists. split; [done |].
    apply (boutput_moves now now' g b c' _ (gb_got g ++ recv_holds r') (gb_handled g)); try done.
    constructor; simpl; try done. by rewrite Hg.
  - destruct Hx as (Hr & C'). rewrite Hr in Hg. eexists. eexists. split; [done |].
    by apply (boutput_moves now now' g b c' _ (gb_got g) (gb_handled g)).
  - destruct Hx as (Hr & C' & Hgone & Hall). rewrite Hr in Hg. eexists. eexists. split; [done |].
    by apply (boutput_moves now now' g b c' _ (gb_got g) (gb_handled g)).
Qed.

Lemma boutput_handle_advances now now' g b e st :
  now <= now' -> bench_inv now g b -> bo_pc (bn_out b) = BoHandle e st -> advances now' BOutputA b.
Proof.
  intros Hn I Epc. pose proof (bgot_bound _ _ _ I) as Hgb. pose proof (outs_bound _ _ _ I) as Hob.
  pose proof (got_stamps _ _ _ I) as Hgs.
  pose proof I as [_ Co _ _ O]. pose proof O as [Hg Hn' Ha He Hh Hpc]. rewrite Epc in Hg.
  unfold boutput_popping, boutput_gone in Co. rewrite Epc in Co. simpl in Hg.
  assert (Hst : stamp_ok now' st).
  { rewrite Hg in Hgs. apply Forall_app in Hgs as [_ Hgs]. apply Forall_cons in Hgs as [Hgs _].
    by apply (stamp_ok_mono now). }
  unfold advances, bench_step, boutput_step. cbn [fst snd]. rewrite Epc.
  rewrite Hg, length_app, length_fmap in Hgb. cbn [length] in Hgb.
  rewrite u64_plain_in by mach. cbn [rbind].
  assert (Hnew : forall arrival enqueue,
    arrival = recorded_in (latencies st_scheduled_ns (gb_handled g ++ [(e, st, now')])) ->
    enqueue = recorded_in (latencies st_enqueue_ns (gb_handled g ++ [(e, st, now')])) ->
    bench_inv now'
      (mkBGhost (gb_sent g) (gb_taken g) (gb_done g) (gb_out g) (gb_pushed g) (gb_got g)
         (gb_handled g ++ [(e, st, now')]))
      (mkBench (bn_input b) (bn_output b) (bn_feed b) (bn_engine b)
         (mkBOutput (BoReceive (recv (bn_output b))) arrival enqueue (bo_outputs (bn_out b) + 1)))).
  { intros arrival enqueue -> ->. apply (boutput_moves now now' g b); try done. constructor; simpl; try done.
    - by rewrite Hg, fmap_app, app_nil_r.
    - rewrite length_app. simpl. lia.
    - apply Forall_app_2; [done |]. by apply Forall_singleton.
    - split; [apply Co | done]. }
  destruct (sampled orders e) eqn:Es; cbn [rbind]; eexists; eexists; (split; [done |]); apply Hnew;
    by rewrite latencies_snoc, Es, ?Ha, ?He.
Qed.

Lemma boutput_step_inv now now' g b : now <= now' -> bench_inv now g b -> advances now' BOutputA b.
Proof.
  intros Hn I. destruct (bo_pc (bn_out b)) as [r | e st | |] eqn:Epc.
  - by apply (boutput_receive_advances now now' g b r).
  - by apply (boutput_handle_advances now now' g b e st).
  - unfold advances, bench_step, boutput_step. cbn [fst snd]. rewrite Epc. cbn [rbind].
    eexists. eexists. split; [done |]. pose proof I as [_ Co _ _ []].
    unfold boutput_popping, boutput_gone in Co. rewrite Epc in *.
    apply (boutput_moves now now' g b _ _ (gb_got g) (gb_handled g)); try done.
    by eapply close_receiver_ok.
  - unfold advances, bench_step, boutput_step. cbn [fst snd]. rewrite Epc. cbn [rbind].
    exists g. eexists. split; [done |]. pose proof (bfeed_ok_mono _ _ _ _ Hn (bi_feed _ _ _ I)).
    destruct I. by constructor.
Qed.

(** ** Schedules *)

(** The clock does not go back. *)
Fixpoint clock_ok (now : Z) (schedule : list (BActor * Z)) : Prop :=
  match schedule with
  | [] => True
  | a :: schedule => now <= a.2 /\ clock_ok a.2 schedule
  end.

Lemma bench_step_inv now now' g b a :
  0 <= now' -> now <= now' -> bench_inv now g b -> advances now' a b.
Proof.
  intros H0 Hn I. destruct a.
  - by apply (bfeed_step_inv now now' g b).
  - by apply (bengine_step_inv now now' g b).
  - by apply (boutput_step_inv now now' g b).
Qed.

Lemma bench_run_inv schedule : forall now g b,
  0 <= now -> clock_ok now schedule -> bench_inv now g b ->
  exists now' g' b', bench_run cfg orders b schedule = Ret b' /\ bench_inv now' g' b'.
Proof.
  induction schedule as [| [a now'] schedule IH]; intros now g b H0 Hc I; [by exists now, g, b |].
  destruct Hc as [Hn Hc]. simpl in Hn, Hc.
  destruct (bench_step_inv now now' g b a ltac:(lia) Hn I) as (g' & b' & Es & I'). cbn [bench_run]. rewrite Es. cbn [rbind]. apply (IH now' g'); [lia | done | done].
Qed.

Lemma bench_start_inv :
  new_with_bounds 1 60000000000 3 = Some hist0 ->
  exists b, bench_start ec inputs cfg = Ret b /\ bench_inv 0 (mkBGhost [] [] [] [] [] [] []) b.
Proof.
  intros Eh. unfold bench_start, histogram. rewrite Eh. cbn. eexists. split; [done |].
  constructor; simpl; try apply bounded_ok; try done.
  constructor; simpl; try done. by apply new_core_inv, W.
Qed.

End Inv.

(** * Progress

    The measure of the pipeline, for the threads of the benchmark; the pacing loop
    is left once the clock has passed the last scheduled arrival. *)

Section Live.
Context {P : BenchPlatform} {PL : BenchLaws P}.
Context (ec : EngineConfig) (inputs : list EngineInput) (cfg : BenchConfig) (hist0 : BHist).
Hypothesis W : bench_wf ec inputs cfg.

Abbreviation orders := (order_inputs inputs) (only parsing).
Abbreviation inv := (bench_inv ec inputs cfg hist0) (only parsing).
Abbreviation view_in b := (cview (bn_input b)) (only parsing).
Abbreviation view_out b := (cview (bn_output b)) (only parsing).

(** The last scheduled arrival. *)
Definition horizon : Z := Z.of_nat (length inputs) * interval_ns cfg.

Definition bfeed_left (t : BFeed) : nat :=
  match bf_pc t with
  | BfNext => length (bf_rest t)
  | BfPace _ _ | BfStamp _ _ => 1 + length (bf_rest t)
  | BfSend s => length (send_holds s) + length (bf_rest t)
  | BfDrop | BfDone => 0
  end.

Definition bfeed_work (v : RingView (EngineInput * Stamp)) (t : BFeed) : nat :=
  match bf_pc t with
  | BfNext => 2 + 20 * length (bf_rest t)
  | BfPace _ _ => 2 + 20 * length (bf_rest t) + 18
  | BfStamp _ _ => 2 + 20 * length (bf_rest t) + 17
  | BfSend s => 2 + 20 * length (bf_rest t) + send_rank v s
  | BfDrop => 1
  | BfDone => 0
  end.

Definition bengine_work (vi : RingView (EngineInput * Stamp)) (vo : RingView (OutputEvent.t * Stamp))
    (pc : BEnginePc) : nat :=
  match pc with
  | BeSend _ s rest => 14 + send_rank vo s + 17 * length rest
  | BeReceive r => 7 + recv_rank vi r
  | BeDropInput => 2
  | BeDropOutput => 1
  | BeDone => 0
  end.

Definition boutput_work (v : RingView (OutputEvent.t * Stamp)) (pc : BOutputPc) : nat :=
  match pc with
  | BoReceive r => 3 + recv_rank v r
  | BoHandle _ _ => 8
  | BoDrop => 1
  | BoDone => 0
  end.

(** The inputs still to be applied, and the work left until the next one is. *)
Definition bto_apply (b : Bench) : nat :=
  bfeed_left (bn_feed b) + length (rv_items (view_in b)) + length (bengine_holds (be_pc (bn_engine b))).

Definition bwork (b : Bench) : nat :=
  bfeed_work (view_in b) (bn_feed b) + weight (view_in b)
  + bengine_work (view_in b) (view_out b) (be_pc (bn_engine b)) + weight (view_out b)
  + boutput_work (view_out b) (bo_pc (bn_out b)).

Definition blower (b' b : Bench) : Prop :=
  (bto_apply b' <= bto_apply b)%nat
  /\ ((bto_apply b' < bto_apply b)%nat \/ (bwork b' < bwork b)%nat).

(** A thread that can only wait, or has ended. *)
Definition bblocked (b : Bench) (a : BActor) : bool :=
  match a with
  | BFeedA => match bf_pc (bn_feed b) with
              | BfSend s => send_blocked (view_in b) s
              | BfDone => true
              | _ => false
              end
  | BEngineA => match be_pc (bn_engine b) with
                | BeReceive r => recv_blocked (view_in b) r
                | BeSend _ s _ => send_blocked (view_out b) s
                | BeDone => true
                | _ => false
                end
  | BOutputA => match bo_pc (bn_out b) with
                | BoReceive r => recv_blocked (view_out b) r
                | BoDone => true
                | _ => false
                end
  end.

Definition bstalled (b' b : Bench) : Prop :=
  bto_apply b' = bto_apply b /\ bwork b' = bwork b /\ forall a, bblocked b' a = bblocked b a.

(** ** What one end does to the work of the others *)

Lemma bfeed_work_mono v v' t :
  rv_slots v' = rv_slots v -> (length (rv_items v') <= length (rv_items v))%nat ->
  (rv_consumer_gone v = true -> rv_consumer_gone v' = true) ->
  (bfeed_work v' t <= bfeed_work v t)%nat.
Proof.
  intros H1 H2 H3. unfold bfeed_work. destruct (bf_pc t) as [| | | s | |]; try lia.
  pose proof (send_rank_mono v v' s H1 H2 H3). lia.
Qed.

Lemma boutput_work_mono v v' pc :
  (length (rv_items v) <= length (rv_items v'))%nat ->
  (rv_producer_gone v = true -> rv_producer_gone v' = true) ->
  (boutput_work v' pc <= boutput_work v pc)%nat.
Proof.
  intros H1 H2. destruct pc as [r | | |]; simpl; try lia. pose proof (recv_rank_mono v v' r H1 H2). lia.
Qed.

Lemma bengine_work_in vi vi' vo pc :
  (length (rv_items vi) <= length (rv_items vi'))%nat ->
  (rv_producer_gone vi = true -> rv_producer_gone vi' = true) ->
  (bengine_work vi' vo pc <= bengine_work vi vo pc)%nat.
Proof.
  intros H1 H2. destruct pc as [r | | | |]; simpl; try lia. pose proof (recv_rank_mono vi vi' r H1 H2). lia.
Qed.

Lemma bengine_work_out vi vo vo' pc :
  rv_slots vo' = rv_slots vo -> (length (rv_items vo') <= length (rv_items vo))%nat ->
  (rv_consumer_gone vo = true -> rv_consumer_gone vo' = true) ->
  (bengine_work vi vo' pc <= bengine_work vi vo pc)%nat.
Proof.
  intros H1 H2 H3. destruct pc as [| st s rest | | |]; simpl; try lia.
  pose proof (send_rank_mono vo vo' s H1 H2 H3). lia.
Qed.

(** ** The feed *)

Lemma bfeed_lower b c t :
  (length (rv_items (view_in b)) <= length (rv_items (cview c)))%nat ->
  (rv_producer_gone (view_in b) = true -> rv_producer_gone (cview c) = true) ->
  (bfeed_left t + length (rv_items (cview c)) <= bfeed_left (bn_feed b) + length (rv_items (view_in b)))%nat ->
  (bfeed_work (cview c) t + weight (cview c) < bfeed_work (view_in b) (bn_feed b) + weight (view_in b))%nat ->
  blower (mkBench c (bn_output b) t (bn_engine b) (bn_out b)) b.
Proof.
  intros Hl Hg Hf Hw. unfold blower, bto_apply, bwork. simpl. split; [lia |]. right.
  pose proof (bengine_work_in (view_in b) (cview c) (view_out b) (be_pc (bn_engine b)) Hl Hg). lia.
Qed.

Lemma bfeed_progress now g b b' now' :
  inv now g b -> horizon <= now' -> bench_step cfg orders b (BFeedA, now') = Ret b' ->
  if bblocked b BFeedA then bstalled b' b else blower b' b.
Proof.
  intros I Hn. unfold bench_step, bfeed_step, bblocked. cbn [fst snd].
  destruct (bf_pc (bn_feed b)) as [| input s | input s | pc | |] eqn:Epc.
  - destruct (bf_rest (bn_feed b)) as [| input rest] eqn:Er.
    + intros [= <-]. apply bfeed_lower; try done; unfold bfeed_left, bfeed_work; rewrite Epc; simpl; lia.
    + destruct (0 <? interval_ns cfg); [intros ([c t] & (s & _ & [= <- <-])%rbind_inv & [= <-])%rbind_inv
                                       | intros [= <-]];
        apply bfeed_lower; try done; unfold bfeed_left, bfeed_work; rewrite Epc, ?Er; simpl; lia.
  - assert (Hs : s <= now').
    { pose proof (feed_index _ _ _ _ _ (bi_feed _ _ _ _ _ _ _ I)) as Hidx.
      destruct (bi_feed _ _ _ _ _ _ _ I) as [Hp _ _]. unfold bfeed_pc_ok in Hp. rewrite Epc in Hp.
      destruct Hp as (_ & _ & H0 & ->). etrans; [| exact Hn]. unfold horizon.
      apply Z.mul_le_mono_nonneg_r; lia. }
    rewrite (proj2 (Z.leb_le _ _) Hs).
    intros ([c t] & (late & _ & H)%rbind_inv & [= <-])%rbind_inv.
    destruct (late <? now'); [apply rbind_inv in H as (n & _ & [= <- <-]) | injection H as <- <-];
      apply bfeed_lower; try done; unfold bfeed_left, bfeed_work; rewrite Epc; simpl; lia.
  - intros [= <-]. pose proof (send_rank_le (view_in b) (send (bn_input b) (input, mkStamp s now'))).
    apply bfeed_lower; try done; unfold bfeed_left, bfeed_work; rewrite Epc; simpl; simpl in *; lia.
  - intros ([c t] & ([c' r] & Es & [= <- <-])%rbind_inv & [= <-])%rbind_inv.
    apply send_step_rank in Es. destruct (send_blocked (view_in b) pc) eqn:Ebl.
    + destruct Es as (Ev & pc' & -> & Hb' & Hh & Hr).
      unfold bstalled, bto_apply, bwork, bfeed_left, bfeed_work. simpl. rewrite Epc, Ev, Hh, Hr.
      split_and!; try done. intros []; simpl; rewrite ?Ev, ?Epc; try done. by rewrite Hb', Ebl.
    + destruct r as [pc' | r].
      * destruct Es as (k & [M1 M2 M3 M4] & Hk & Hw).
        apply bfeed_lower; simpl; try done; try lia; [by rewrite M2 | |];
          unfold bfeed_left, bfeed_work; rewrite Epc; simpl; lia.
      * destruct Es as (Ev & Hh). pose proof (send_rank_le (view_in b) pc) as Hr.
        destruct r; apply bfeed_lower; simpl; rewrite ?Ev; try done; try lia;
          unfold bfeed_left, bfeed_work; rewrite Epc; simpl; lia.
  - intros [= <-]. apply bfeed_lower; try done; unfold bfeed_left, bfeed_work, cview, weight; simpl;
      rewrite ?drop_producer_view, ?Epc; simpl; try done; lia.
  - intros [= <-]. unfold bstalled. destruct b. done.
Qed.

(** ** The output thread *)

Lemma boutput_lower b c t :
  rv_slots (cview c) = rv_slots (view_out b) ->
  (length (rv_items (cview c)) <= length (rv_items (view_out b)))%nat ->
  (rv_consumer_gone (view_out b) = true -> rv_consumer_gone (cview c) = true) ->
  (boutput_work (cview c) (bo_pc t) + weight (cview c)
   < boutput_work (view_out b) (bo_pc (bn_out b)) + weight (view_out b))%nat ->
  blower (mkBench (bn_input b) c (bn_feed b) (bn_engine b) t) b.
Proof.
  intros Hs Hl Hg Hw. unfold blower, bto_apply, bwork. simpl. split; [lia |]. right.
  pose proof (bengine_work_out (view_in b) (view_out b) (cview c) (be_pc (bn_engine b)) Hs Hl Hg). lia.
Qed.

Lemma boutput_progress b b' now :
  bench_step cfg orders b (BOutputA, now) = Ret b' ->
  if bblocked b BOutputA then bstalled b' b else blower b' b.
Proof.
  unfold bench_step, boutput_step, bblocked. cbn [fst snd].
  destruct (bo_pc (bn_out b)) as [pc | e st | |] eqn:Epc.
  - intros ([c t] & ([c' r] & Es & [= <- <-])%rbind_inv & [= <-])%rbind_inv. apply recv_step_rank in Es.
    destruct (recv_blocked (view_out b) pc) eqn:Ebl.
    + destruct Es as (Ev & pc' & -> & Hb' & Hh & Hh0 & Hr).
      unfold bstalled, bto_apply, bwork. simpl. rewrite Epc, Ev. simpl. rewrite Hr.
      split_and!; try done. intros []; simpl; rewrite ?Ev, ?Epc; try done. by rewrite Hb', Ebl.
    + pose proof (proj1 (recv_rank_le (view_out b) pc)) as Hr. destruct r as [pc' | [[e st] |]].
      * destruct Es as (Hh & [M1 M2 M3 M4] & Hw).
        apply boutput_lower; simpl; try done; try lia; [by rewrite M3 |]. rewrite Epc. simpl. lia.
      * destruct Es as (Ev & Hh). apply boutput_lower; simpl; rewrite ?Ev; try done. rewrite Epc. simpl.
        assert (recv_rank (view_out b) pc = 6%nat) by (destruct pc as [[] | | []]; done). lia.
      * destruct Es as (Ev & Hh). apply boutput_lower; simpl; rewrite ?Ev; try done. rewrite Epc. simpl. lia.
  - pose proof (proj2 (recv_rank_le (view_out b) (recv (bn_output b))) eq_refl) as Hr.
    intros ([c t] & (n & _ & H)%rbind_inv & [= <-])%rbind_inv.
    destruct (sampled orders e); injection H as <- <-; apply boutput_lower; try done; rewrite Epc;
      simpl; simpl in *; lia.
  - intros [= <-]. apply boutput_lower; unfold cview, weight; simpl; rewrite ?drop_consumer_view; try done.
    rewrite Epc. simpl. lia.
  - intros [= <-]. unfold bstalled. destruct b. done.
Qed.

(** ** The engine *)

Lemma bengine_lower b i o t :
  (length (rv_items (cview i)) + length (bengine_holds (be_pc t))
   <= length (rv_items (view_in b)) + length (bengine_holds (be_pc (bn_engine b))))%nat ->
  (length (rv_items (cview i)) + length (bengine_holds (be_pc t))
   < length (rv_items (view_in b)) + length (bengine_holds (be_pc (bn_engine b))))%nat
  \/ rv_slots (cview i) = rv_slots (view_in b)
     /\ (length (rv_items (cview i)) <= length (rv_items (view_in b)))%nat
     /\ (rv_consumer_gone (view_in b) = true -> rv_consumer_gone (cview i) = true)
     /\ (length (rv_items (view_out b)) <= length (rv_items (cview o)))%nat
     /\ (rv_producer_gone (view_out b) = true -> rv_producer_gone (cview o) = true)
     /\ (bengine_work (cview i) (cview o) (be_pc t) + weight (cview i) + weight (cview o)
         < bengine_work (view_in b) (view_out b) (be_pc (bn_engine b)) + weight (view_in b)
           + weight (view_out b))%nat ->
  blower (mkBench i o (bn_feed b) t (bn_out b)) b.
Proof.
  intros Hn H. unfold blower, bto_apply, bwork. simpl. split; [lia |].
  destruct H as [Hlt | (H1 & H2 & H3 & H4 & H5 & H6)]; [left; lia | right].
  pose proof (bfeed_work_mono _ _ (bn_feed b) H1 H2 H3).
  pose proof (boutput_work_mono _ _ (bo_pc (bn_out b)) H4 H5). lia.
Qed.

Lemma bsend_batch_work i o st batch vi vo :
  (bengine_work vi vo (bsend_batch i o st batch) < 15 + 17 * length batch)%nat.
Proof.
  destruct batch as [| e rest]; simpl.
  - pose proof (proj2 (recv_rank_le vi (recv i)) eq_refl). simpl in *. lia.
  - pose proof (send_rank_le vo (send o (e, st))). simpl in *. lia.
Qed.

Lemma breceive_progress b b' now r :
  be_pc (bn_engine b) = BeReceive r -> bench_step cfg orders b (BEngineA, now) = Ret b' ->
  if bblocked b BEngineA then bstalled b' b else blower b' b.
Proof.
  intros Epc. unfold bench_step, bengine_step, bblocked. cbn [fst]. rewrite Epc.
  intros ([[i o] t] & ([c' x] & Es & H)%rbind_inv & [= <-])%rbind_inv.
  apply recv_step_rank in Es. destruct (recv_blocked (view_in b) r) eqn:Ebl.
  - destruct Es as (Ev & r' & -> & Hb & Hh & Hh0 & Hr). injection H as <- <- <-.
    unfold bstalled, bto_apply, bwork. simpl. rewrite Epc, Ev. simpl. rewrite Hh, Hh0, Hr.
    split_and!; try done. intros []; simpl; rewrite ?Ev, ?Epc; try done. by rewrite Hb, Ebl.
  - pose proof (proj1 (recv_rank_le (view_in b) r)) as Hr. destruct x as [r' | [[p st] |]].
    + destruct Es as (Hh & [M1 M2 M3 M4] & Hw). injection H as <- <- <-. apply bengine_lower; simpl; rewrite Epc; simpl.
      * rewrite Hh. simpl. lia.
      * right. rewrite M1. split_and!; try done; try lia. by rewrite M3.
    + destruct Es as (Ev & Hh). apply rbind_inv in H as ([core batch] & _ & (n & _ & [= <- <- <-])%rbind_inv).
      apply bengine_lower; simpl; rewrite Epc, Ev, bsend_batch_holds; simpl; rewrite Hh; [lia |]. left. lia.
    + destruct Es as (Ev & Hh). injection H as <- <- <-. apply bengine_lower; simpl; rewrite Epc, Ev; simpl.
      * lia.
      * right. split_and!; try done. lia.
Qed.

Lemma bsend_progress b b' now st s rest :
  be_pc (bn_engine b) = BeSend st s rest -> bench_step cfg orders b (BEngineA, now) = Ret b' ->
  if bblocked b BEngineA then bstalled b' b else blower b' b.
Proof.
  intros Epc. unfold bench_step, bengine_step, bblocked. cbn [fst]. rewrite Epc.
  intros ([[i o] t] & ([c' x] & Es & [= <- <- <-])%rbind_inv & [= <-])%rbind_inv.
  apply send_step_rank in Es. destruct (send_blocked (view_out b) s) eqn:Ebl.
  - destruct Es as (Ev & s' & -> & Hb & Hh & Hr).
    unfold bstalled, bto_apply, bwork. simpl. rewrite Epc, Ev. simpl. rewrite Hr.
    split_and!; try done. intros []; simpl; rewrite ?Ev, ?Epc; try done. by rewrite Hb, Ebl.
  - pose proof (send_rank_le (view_out b) s) as Hr. destruct x as [s' | []].
    + destruct Es as (k & [M1 M2 M3 M4] & Hk & Hw). apply bengine_lower; simpl; rewrite Epc; simpl; [lia |].
      right. split_and!; try done; try lia. by rewrite M2.
    + destruct Es as (Ev & Hh). apply bengine_lower; simpl; rewrite Epc, ?Ev, bsend_batch_holds; simpl; [lia |].
      right. pose proof (bsend_batch_work (bn_input b) c' st rest (view_in b) (view_out b)).
      split_and!; try done. lia.
    + destruct Es as (Ev & _). apply bengine_lower; simpl; rewrite Epc, ?Ev; simpl; [lia |].
      right. pose proof (proj2 (recv_rank_le (view_in b) (recv (bn_input b))) eq_refl).
      split_and!; try done. simpl in *. lia.
Qed.

Lemma bengine_progress b b' now :
  bench_step cfg orders b (BEngineA, now) = Ret b' ->
  if bblocked b BEngineA then bstalled b' b else blower b' b.
Proof.
  intros H. destruct (be_pc (bn_engine b)) as [r | st s rest | | |] eqn:Epc.
  - by eapply breceive_progress.
  - by eapply bsend_progress.
  - unfold bblocked. rewrite Epc. unfold bench_step, bengine_step in H. cbn [fst] in H. rewrite Epc in H.
    injection H as <-. apply bengine_lower; simpl; unfold cview, weight; simpl; rewrite drop_consumer_view, Epc;
      simpl; [lia |]. right. split_and!; try done. lia.
  - unfold bblocked. rewrite Epc. unfold bench_step, bengine_step in H. cbn [fst] in H. rewrite Epc in H.
    injection H as <-. apply bengine_lower; simpl; unfold cview, weight; simpl; rewrite ?drop_producer_view, Epc;
      simpl; [lia |]. right. split_and!; try done. lia.
  - unfold bblocked. rewrite Epc. unfold bench_step, bengine_step in H. cbn [fst] in H. rewrite Epc in H.
    injection H as <-. unfold bstalled. destruct b. done.
Qed.

(** ** No deadlock *)

Definition bthreads : list BActor := [BFeedA; BEngineA; BOutputA].

Lemma bno_deadlock now g b :
  (0 < bc_capacity cfg)%nat -> inv now g b ->
  Forall (fun a => bblocked b a = true) bthreads -> forall elapsed, is_Some (bench_joined cfg elapsed b).
Proof.
  intros Hc [Ci Co _ _ _] H elapsed. apply Forall_cons in H as [Hf H].
  apply Forall_cons in H as [He H]. apply Forall_cons in H as [Hout _].
  destruct Ci as [_ Si _ Pi Gi _ _], Co as [_ So _ Po Go _ _].
  unfold bblocked in Hf, He, Hout. unfold bfeed_gone, binput_dropped in Pi, Gi.
  unfold boutput_dropped, boutput_gone in Po, Go. unfold bench_joined.
  assert (Hout' : bo_pc (bn_out b) = BoDone
                  \/ empty (view_out b) = true /\ rv_producer_gone (view_out b) = false
                     /\ rv_consumer_gone (view_out b) = false).
  { destruct (bo_pc (bn_out b)) eqn:E; try done; [right | auto].
    apply recv_blocked_inv in Hout as [? ?]. done. }
  assert (Hf' : bf_pc (bn_feed b) = BfDone
                \/ empty (view_in b) = false /\ rv_consumer_gone (view_in b) = false
                   /\ rv_producer_gone (view_in b) = false).
  { destruct (bf_pc (bn_feed b)) eqn:E; try done; [right | auto].
    apply send_blocked_inv in Hf as [? ?]; [done | lia]. }
  destruct (be_pc (bn_engine b)) as [r | st s rest | | |] eqn:Ee; try done.
  - apply recv_blocked_inv in He as [He Hg]. destruct Hf' as [Hd | (? & _)]; [| congruence].
    rewrite Hd in Pi. congruence.
  - apply send_blocked_inv in He as [He Hg]; [| lia].
    destruct Hout' as [Hd | (? & _)]; [| congruence]. rewrite Hd in Go. congruence.
  - destruct Hf' as [-> | (_ & ? & _)]; [| congruence].
    destruct Hout' as [-> | (_ & ? & _)]; [by eexists | congruence].
Qed.

(** ** Fair schedules *)

(** Every thread runs again and again, the clock does not go back, and in the end
    it has passed the last scheduled arrival. *)
Record bfair (schedule : nat -> BActor * Z) : Prop := {
  bfa_again a n : exists m, (n <= m)%nat /\ (schedule m).1 = a;
  bfa_start : 0 <= (schedule 0%nat).2;
  bfa_clock n m : (n <= m)%nat -> (schedule n).2 <= (schedule m).2;
  bfa_passes : exists n, horizon <= (schedule n).2
}.

Definition bsteps (schedule : nat -> BActor * Z) (n k : nat) : list (BActor * Z) := map schedule (seq n k).

Lemma bench_run_app b l1 l2 :
  bench_run cfg orders b (l1 ++ l2)
  = (let! b1 := bench_run cfg orders b l1 in bench_run cfg orders b1 l2).
Proof.
  revert b. induction l1 as [| a l1 IH]; intros b; simpl; [done |].
  destruct (bench_step cfg orders b a) as [b1 |]; [| done]. cbn [rbind]. apply IH.
Qed.

Lemma bthread_step now g b a now' :
  0 <= now' -> now <= now' -> horizon <= now' -> inv now g b ->
  exists g' b', bench_step cfg orders b (a, now') = Ret b' /\ inv now' g' b'
    /\ if bblocked b a then bstalled b' b else blower b' b.
Proof.
  intros H0 Hn Hh I.
  destruct (bench_step_inv ec inputs cfg hist0 W now now' g b a H0 Hn I) as (g' & b' & E & I').
  exists g', b'. split_and!; try done. destruct a.
  - by eapply bfeed_progress.
  - by eapply bengine_progress.
  - by eapply boutput_progress.
Qed.

(** The state before the [n]-th step of a schedule. *)
Record at_step (schedule : nat -> BActor * Z) (n : nat) (b : Bench) : Prop := {
  as_inv : exists now g, inv now g b /\ now <= (schedule n).2;
  as_late : horizon <= (schedule n).2;
  as_pos : 0 <= (schedule n).2
}.

Lemma bfair_step schedule n b :
  bfair schedule -> at_step schedule n b ->
  exists b', bench_run cfg orders b (bsteps schedule n 1) = Ret b' /\ at_step schedule (S n) b'
    /\ if bblocked b (schedule n).1 then bstalled b' b else blower b' b.
Proof.
  intros F [(now & g & I & Hn) Hl H0]. pose proof (bfa_clock _ F n (S n) ltac:(lia)) as Hc.
  destruct (schedule n) as [a now'] eqn:En. simpl in *.
  destruct (bthread_step now g b a now' H0 Hn Hl I) as (g' & b' & E & I' & Hp).
  exists b'. unfold bsteps. simpl. rewrite En, E. split_and!; try done.
  constructor; [by exists now', g' | lia | lia].
Qed.

Lemma bfair_lowers schedule a m n b :
  bfair schedule -> (schedule m).1 = a -> (n <= m)%nat -> at_step schedule n b -> bblocked b a = false ->
  exists k b', bench_run cfg orders b (bsteps schedule n k) = Ret b' /\ at_step schedule (n + k) b'
    /\ blower b' b.
Proof.
  intros F Hm. remember (m - n)%nat as d eqn:Ed. revert n b Ed.
  induction d as [| d IH]; intros n b Ed Hn A Hbl;
    destruct (bfair_step schedule n b F A) as (b1 & E1 & A1 & Hp).
  - assert (n = m) as -> by lia. rewrite Hm, Hbl in Hp. exists 1%nat, b1. by rewrite Nat.add_1_r.
  - destruct (bblocked b (schedule n).1) eqn:Eb; [| exists 1%nat, b1; by rewrite Nat.add_1_r].
    destruct Hp as (H1 & H2 & H3).
    destruct (IH (S n) b1) as (k & b2 & E2 & A2 & L2); try done; try lia.
    { by rewrite H3. }
    exists (S k), b2. change (bsteps schedule n (S k)) with (bsteps schedule n 1 ++ bsteps schedule (S n) k).
    rewrite bench_run_app, E1. cbn [rbind]. rewrite E2.
    replace (n + S k)%nat with (S n + k)%nat by lia. split_and!; try done.
    unfold blower in *. by rewrite H1, H2 in L2.
Qed.

Lemma bfair_finishes schedule n b :
  (0 < bc_capacity cfg)%nat -> bfair schedule -> at_step schedule n b ->
  exists k b', bench_run cfg orders b (bsteps schedule n k) = Ret b'
    /\ forall elapsed, is_Some (bench_joined cfg elapsed b').
Proof.
  intros Hc F. remember (bto_apply b) as N eqn:EN. revert n b EN.
  induction N as [N IHN] using lt_wf_ind. intros n b EN.
  remember (bwork b) as M eqn:EM. revert n b EN EM.
  induction M as [M IHM] using lt_wf_ind. intros n b EN EM A.
  destruct (decide (Forall (fun a => bblocked b a = true) bthreads)) as [Hall | Hsome].
  { exists 0%nat, b. split; [done |]. destruct A as [(now & g & I & _) _ _]. by eapply bno_deadlock. }
  apply not_Forall_Exists in Hsome; [| apply _].
  apply Exists_exists in Hsome as (a & _ & Hbl%not_true_iff_false).
  destruct (bfa_again _ F a n) as (m & Hnm & Hm).
  destruct (bfair_lowers schedule a m n b F Hm Hnm A Hbl) as (k & b1 & E1 & A1 & Hle & Hlt).
  assert (Hrest : exists k' b', bench_run cfg orders b1 (bsteps schedule (n + k) k') = Ret b'
                                /\ forall elapsed, is_Some (bench_joined cfg elapsed b')).
  { destruct (decide (bto_apply b1 < bto_apply b)%nat) as [Hd | Hd].
    - by eapply (IHN (bto_apply b1)); [lia | done |].
    - by eapply (IHM (bwork b1)); [lia | lia | done |]. }
  destruct Hrest as (k' & b' & E' & J). exists (k + k')%nat, b'. split; [| done].
  unfold bsteps in *. rewrite seq_app, map_app, bench_run_app, E1. cbn [rbind]. by rewrite E'.
Qed.

(** The first steps, up to the moment when the clock has passed the horizon. *)
Lemma bfair_reaches schedule n g b :
  bfair schedule -> inv 0 g b ->
  exists b', bench_run cfg orders b (bsteps schedule 0 n) = Ret b'
    /\ exists now' g', inv now' g' b' /\ now' <= (schedule n).2.
Proof.
  intros F I. induction n as [| n IH].
  - exists b. split; [done |]. exists 0, g. split; [done | apply F].
  - destruct IH as (b1 & E1 & now & g1 & I1 & Hn). pose proof (bfa_clock _ F 0 n ltac:(lia)) as H0.
    pose proof (bfa_start _ F) as Hs. pose proof (bfa_clock _ F n (S n) ltac:(lia)) as Hc.
    destruct (schedule n) as [a now'] eqn:En. simpl in Hn, H0, Hc.
    destruct (bench_step_inv ec inputs cfg hist0 W now now' g1 b1 a ltac:(lia) Hn I1) as (g2 & b2 & E2 & I2).
    exists b2. unfold bsteps in *. rewrite seq_S, map_app, bench_run_app, E1. simpl. rewrite En, E2.
    split; [done |]. by exists now', g2.
Qed.

Lemma bfair_completes schedule g b :
  (0 < bc_capacity cfg)%nat -> bfair schedule -> inv 0 g b ->
  exists k b', bench_run cfg orders b (bsteps schedule 0 k) = Ret b'
    /\ forall elapsed, is_Some (bench_joined cfg elapsed b').
Proof.
  intros Hc F I. destruct (bfa_passes _ F) as [n Hn].
  destruct (bfair_reaches schedule n g b F I) as (b1 & E1 & I1).
  destruct (bfair_finishes schedule n b1 Hc F) as (k & b' & E2 & J).
  { constructor; [| done |]; [destruct I1 as (now & g1 & ? & ?); by exists now, g1 |].
    pose proof (bfa_start _ F). pose proof (bfa_clock _ F 0 n ltac:(lia)). lia. }
  exists (n + k)%nat, b'. split; [| done]. unfold bsteps in *.
  rewrite seq_app, map_app, bench_run_app, E1. cbn [rbind]. exact E2.
Qed.

End Live.
