(* ===== verification/HarnessTheorems.v ===== *)
(** What the harness measures.  Under every schedule and every clock that does not
    go back, the engine has run on exactly the inputs, each sample is for one report to an
    order, taken with the stamp of that order, and the latency from the scheduled
    arrival is never below the latency from the enqueue; a round trip measures
    every request with its own answer. *)

From S2P Require Import Prelude Enums Ids Events BTree Slab Book Account Config CoreState Core CoreApply.
From S2P Require Import CoreExec CoreInv CoreRun CoreTheorems ReplayTheorems Queue QueueProps PipelineLive.
From S2P Require Import Harness HarnessProps.

(** * What a benchmark measures *)

Section Measures.
Context {P : BenchPlatform} {PL : BenchLaws P}.
Context (ec : EngineConfig) (inputs : list EngineInput) (cfg : BenchConfig).

Abbreviation orders := (order_inputs inputs) (only parsing).

(** A report on an input that is an order. *)
Definition order_report (event : OutputEvent.t) : bool :=
  match event, inputs !! Z.to_nat (OutputEvent.engine_seq event - 1) with
  | OutputEvent.Report _, Some input => is_order input
  | _, _ => false
  end.

Lemma sampled_order_report event :
  0 < OutputEvent.engine_seq event -> sampled orders event = order_report event.
Proof.
  destruct event as [t | r | e]; try done. simpl. intros Hs. unfold order_report. simpl.
  replace (Z.to_nat (rep_engine_seq r)) with (S (Z.to_nat (rep_engine_seq r - 1))) by lia.
  change (order_inputs inputs !! S ?k) with ((is_order <$> inputs) !! k). rewrite list_lookup_fmap.
  destruct (inputs !! Z.to_nat (rep_engine_seq r - 1)) as [i |]; [| done]. cbn. by destruct (is_order i).
Qed.

Lemma sampled_order_reports (events : list OutputEvent.t) :
  Forall (fun e => 0 < OutputEvent.engine_seq e) events ->
  List.filter (sampled orders) events = List.filter order_report events.
Proof.
  induction 1 as [| e l He _ IH]; [done |]. simpl. by rewrite sampled_order_report, IH.
Qed.

(** The outputs with their stamps and the readings at which they were handled,
    and the stamps of the inputs, behind a result. *)
Record measured (result : PipelineBench) (core : TradingCore BStore) (stamps : list Stamp)
    (handled : list (OutputEvent.t * Stamp * Z)) : Prop := {
  me_run : engine_run (Core.new ec) inputs = Ret (core, handled.*1.*1);
  me_stamps : length stamps = length inputs;
  me_inputs : pb_inputs result = Z.of_nat (length inputs);
  me_outputs : pb_outputs result = Z.of_nat (length handled);
  me_own : Forall (fun x => stamps !! Z.to_nat (OutputEvent.engine_seq x.1.1 - 1) = Some x.1.2) handled;
  me_order : Forall (fun x => 0 <= st_scheduled_ns x.1.2 <= st_enqueue_ns x.1.2
                              /\ st_enqueue_ns x.1.2 <= x.2) handled;
  me_dominates : Forall2 Z.le (latencies inputs st_enqueue_ns handled)
                   (latencies inputs st_scheduled_ns handled);
  me_stats : exists h,
    histogram = Ret h
    /\ pb_arrival_to_report result = stats_from (recorded_in h (latencies inputs st_scheduled_ns handled))
    /\ pb_enqueue_to_report result = stats_from (recorded_in h (latencies inputs st_enqueue_ns handled));
  me_counts : Forall (fun v => v <= 60000000000) (latencies inputs st_scheduled_ns handled) ->
    ls_count (pb_arrival_to_report result)
    = Z.of_nat (length (List.filter order_report handled.*1.*1))
    /\ ls_count (pb_enqueue_to_report result) = ls_count (pb_arrival_to_report result);
  me_behind : 0 <= pb_generator_behind result <= Z.of_nat (length inputs);
  me_queues : pb_input_high_water result <= Z.of_nat (bc_capacity cfg) + 1
              /\ pb_output_high_water result <= Z.of_nat (bc_capacity cfg) + 1
}.

Lemma latency_pos now since : 1 <= latency now since.
Proof. unfold latency. lia. Qed.

(** Values in the histogram's range are all recorded. *)
Lemma recorded_samples (h : BHist) values :
  Forall (fun v => 1 <= v <= 60000000000) values ->
  hist_samples (recorded_in h values) = hist_samples h ++ values.
Proof.
  intros Hv. revert h. induction Hv as [| v values Hv _ IH]; intros h; [by rewrite app_nil_r |].
  change (recorded_in h (v :: values)) with (recorded_in (hist_record h v).1 values).
  by rewrite IH, hist_record_samples, hist_record_ok, <- app_assoc.
Qed.

Lemma filter_handled (handled : list (OutputEvent.t * Stamp * Z)) :
  length (List.filter (fun x => sampled orders x.1.1) handled)
  = length (List.filter (sampled orders) handled.*1.*1).
Proof. induction handled as [| x l IH]; [done |]. simpl. destruct (sampled orders x.1.1); simpl; by rewrite IH. Qed.

Lemma latencies_dominate (handled : list (OutputEvent.t * Stamp * Z)) :
  Forall handled_ok handled ->
  Forall2 Z.le (latencies inputs st_enqueue_ns handled) (latencies inputs st_scheduled_ns handled).
Proof.
  unfold latencies. intros Hh. induction Hh as [| x l [Hx _] _ IH]; [constructor |]. simpl.
  destruct (sampled orders x.1.1); [| done]. constructor; [| done].
  unfold latency, u64_saturating_sub. lia.
Qed.

(** What the counts of a result are. *)
Lemma recorded_count (h : BHist) values :
  hist_samples h = [] -> Forall (fun v => 1 <= v <= 60000000000) values ->
  Z.of_nat (length values) <= u64_max ->
  ls_count (stats_from (recorded_in h values)) = Z.of_nat (length values).
Proof.
  intros Hh Hv Hl. simpl. pose proof (recorded_samples h values Hv) as E. rewrite Hh in E. simpl in E.
  by rewrite hist_len_ok, E by (by rewrite E).
Qed.

Lemma latencies_range since (handled : list (OutputEvent.t * Stamp * Z)) :
  Forall (fun v => v <= 60000000000) (latencies inputs since handled) ->
  Forall (fun v => 1 <= v <= 60000000000) (latencies inputs since handled).
Proof.
  unfold latencies. rewrite !Forall_fmap. intros H. eapply Forall_impl; [exact H |]. simpl. intros x Hx.
  split; [apply latency_pos | exact Hx].
Qed.

Lemma counts_recorded (hist0 : BHist) (handled : list (OutputEvent.t * Stamp * Z)) :
  hist_samples hist0 = [] -> Forall handled_ok handled -> Z.of_nat (length handled) <= u64_max ->
  Forall (fun v => v <= 60000000000) (latencies inputs st_scheduled_ns handled) ->
  hist_len (recorded_in hist0 (latencies inputs st_scheduled_ns handled))
  = Z.of_nat (length (List.filter (sampled orders) handled.*1.*1))
  /\ hist_len (recorded_in hist0 (latencies inputs st_enqueue_ns handled))
     = hist_len (recorded_in hist0 (latencies inputs st_scheduled_ns handled)).
Proof.
  intros Hh Ho Hl Hr. pose proof (latencies_dominate _ Ho) as Hd. pose proof (Forall2_length _ _ _ Hd) as Hlen.
  assert (Hr' : Forall (fun v => v <= 60000000000) (latencies inputs st_enqueue_ns handled)).
  { revert Hr. induction Hd as [| x y l k Hxy _ IH]; [done |]. intros [Hy Hr]%Forall_cons.
    constructor; [lia | auto]. }
  assert (Hn : length (latencies inputs st_scheduled_ns handled)
               = length (List.filter (sampled orders) handled.*1.*1))
    by (unfold latencies; rewrite length_fmap; apply filter_handled).
  pose proof (List.filter_length_le (sampled orders) handled.*1.*1) as Hf. rewrite !length_fmap in Hf.
  pose proof (recorded_count hist0 _ Hh (latencies_range _ _ Hr) ltac:(lia)) as E1.
  pose proof (recorded_count hist0 _ Hh (latencies_range _ _ Hr') ltac:(lia)) as E2.
  simpl in E1, E2. rewrite E1, E2, Hlen, Hn. done.
Qed.

Lemma joined_measured now g b hist0 elapsed result :
  bench_wf ec inputs cfg -> histogram = Ret hist0 -> hist_samples hist0 = [] -> bench_inv ec inputs cfg hist0 now g b ->
  bench_joined cfg elapsed b = Some result ->
  exists core stamps, measured result core stamps (gb_handled g).
Proof.
  intros W Eh Hh0 I Hj. pose proof (outs_bound _ _ _ _ W _ _ _ I) as Hob.
  pose proof I as [Ci Co [Fp Fb _] [Er _ _ _ Ea Et Ep Es Epc] [Og On Oa Oe Oh Opc]].
  unfold bench_joined in Hj. destruct (bf_pc (bn_feed b)) eqn:Ef; try done.
  destruct (be_pc (bn_engine b)) eqn:Ee; try done. destruct (bo_pc (bn_out b)) eqn:Eo; try done.
  injection Hj as <-. unfold bfeed_pc_ok, uncounted in Fp, Fb. rewrite Ef in Fp, Fb.
  unfold bengine_pc_ok in Epc. rewrite Ee in Epc. simpl in Et, Ep, Og. rewrite app_nil_r in Et, Ep, Og.
  destruct Fp as [Fp Fi], Epc as [_ Epc], Opc as [_ Opc].
  assert (Eout : gb_out g = (gb_handled g).*1) by congruence.
  assert (Edone : (gb_done g).*1 = inputs) by congruence. rewrite Edone, Eout in Er.
  exists (be_core (bn_engine b)), (snd <$> gb_done g). constructor; simpl; try done.
  - by rewrite <- Edone, !length_fmap.
  - by rewrite Ea, <- Edone, length_fmap.
  - rewrite Eout, Forall_fmap in Es. eapply Forall_impl; [exact Es |]. by intros x [_ Hx].
  - by apply latencies_dominate.
  - exists hist0. by rewrite Oa, Oe.
  - intros Hr. rewrite Oa, Oe, <- sampled_order_reports.
    + apply counts_recorded; try done. rewrite Eout, length_fmap in Hob. mach.
    + rewrite !Forall_fmap, Eout, Forall_fmap in *. eapply Forall_impl; [exact Es |]. by intros x [Hx _].
  - rewrite <- Fp, length_fmap. lia.
  - split; [apply (so_high _ _ _ _ _ _ (co_stats _ _ _ _ _ _ _ _ _ Ci))
           | apply (so_high _ _ _ _ _ _ (co_stats _ _ _ _ _ _ _ _ _ Co))].
Qed.

(** C40: A benchmark measures what it says, and ends.  Under every interleaving of
    the three threads and whatever the clock shows, as long as it does not go
    back, no thread panics; and when the benchmark has ended, the engine has run
    on exactly the inputs in order, every output was handled once and in order,
    carrying the stamp of the input that caused it, every stamp was written after
    the scheduled arrival and before the output was handled, so no latency from
    enqueue exceeds the one from the scheduled arrival, the statistics are those
    of one sample for each report on an order, and the reported high-water marks
    exceed the queues' capacity by one at most.  And it does end: when the
    queues hold at least one element, every thread runs again and again, and the
    clock does not go back and passes the last scheduled arrival, all three threads
    are done after finitely many steps. *)
Theorem bench_measures :
  bench_wf ec inputs cfg ->
  exists b0, bench_start ec inputs cfg = Ret b0
    /\ (forall schedule, clock_ok 0 schedule ->
        exists b, bench_run cfg orders b0 schedule = Ret b
          /\ forall elapsed result, bench_joined cfg elapsed b = Some result ->
             exists core stamps handled, measured result core stamps handled)
    /\ (forall schedule, (0 < bc_capacity cfg)%nat -> bfair inputs cfg schedule ->
        exists k b, bench_run cfg orders b0 (bsteps schedule 0 k) = Ret b
          /\ forall elapsed, is_Some (bench_joined cfg elapsed b)).
Proof.
  intros W. destruct hist_new_ok as (hist0 & Eh & Hh).
  destruct (bench_start_inv ec inputs cfg hist0 W Eh) as (b0 & E0 & I0).
  exists b0. split_and!; [done | |].
  - intros schedule Hc.
    destruct (bench_run_inv ec inputs cfg hist0 W schedule 0 _ b0 ltac:(lia) Hc I0) as (now & g & b & Er & I).
    exists b. split; [done |]. intros elapsed result Hj.
    destruct (joined_measured now g b hist0 elapsed result W ltac:(by unfold histogram; rewrite Eh) Hh I Hj)
      as (core & stamps & M). eauto.
  - intros schedule Hc F. by eapply bfair_completes.
Qed.

End Measures.

(** * The round trip *)

Section RoundTripInv.
Context {R : Type} {RG : Ring Z R} {RL : RingLaws RG} {H : Type} {HG : Histogram H} {HL : HistogramLaws HG}.
Context (samples : nat) (w : WaitStrategy) (hist0 : H).
Implicit Types (s : RoundTrip (R := R) (H := H)).

(** Values asked, taken by the echo, answered and received; and the answered ones
    with the clock reading at the answer. *)
Record RtGhost := mkRtGhost {
  rg_asked : list Z;
  rg_taken : list Z;
  rg_answered : list Z;
  rg_received : list Z;
  rg_recorded : list (Z * Z)
}.

Definition ask_counting (t : Ask (H := H)) : Counting :=
  match ak_pc t with AkSend _ pc => counting_pc pc | _ => Counted end.
Definition ask_popping (t : Ask (H := H)) : bool :=
  match ak_pc t with AkReceive _ pc => holding (recv_holds pc) | _ => false end.
Definition ask_gone (t : Ask (H := H)) : bool := match ak_pc t with AkJoin => true | _ => false end.

Definition echo_counting (e : EchoPc) : Counting := match e with EcSend pc => counting_pc pc | _ => Counted end.
Definition echo_popping (e : EchoPc) : bool :=
  match e with EcReceive pc => holding (recv_holds pc) | _ => false end.
Definition echo_input_gone (e : EchoPc) : bool := match e with EcDropOutput | EcDone => true | _ => false end.
Definition echo_gone (e : EchoPc) : bool := match e with EcDone => true | _ => false end.

Definition echo_holds (e : EchoPc) : list Z :=
  match e with EcReceive pc => recv_holds pc | EcSend pc => send_holds pc | _ => [] end.

Definition ask_pc_ok (g : RtGhost) (t : Ask (H := H)) : Prop :=
  match ak_pc t with
  | AkNext => rg_received g = rg_asked g /\ (rg_recorded g).*1 = rg_asked g
              /\ (length (rg_asked g) + ak_left t = samples)%nat
  | AkSend sent pc =>
      rg_asked g ++ send_holds pc = rg_received g ++ [sent] /\ (rg_recorded g).*1 = rg_received g
      /\ (length (rg_received g) + 1 + ak_left t = samples)%nat /\ send_wait pc w
  | AkReceive sent pc =>
      rg_asked g = (rg_recorded g).*1 ++ [sent] /\ rg_received g = (rg_recorded g).*1 ++ recv_holds pc
      /\ (length (rg_recorded g) + 1 + ak_left t = samples)%nat
      /\ recv_wait pc w /\ recv_last pc false
  | AkRecord sent =>
      rg_asked g = (rg_recorded g).*1 ++ [sent] /\ rg_received g = rg_asked g
      /\ (length (rg_recorded g) + 1 + ak_left t = samples)%nat
  | AkDrop | AkJoin => rg_received g = rg_asked g /\ (rg_recorded g).*1 = rg_asked g
                       /\ length (rg_asked g) = samples
  end.

Definition echo_pc_ok (ask_gone : bool) (e : EchoPc) : Prop :=
  match e with
  | EcReceive pc => recv_wait pc w /\ recv_last pc ask_gone
  | EcSend pc => send_wait pc w
  | _ => ask_gone = true
  end.

Record rt_inv (g : RtGhost) s : Prop := {
  ri_request : channel_ok w (rt_request s) 1 (rg_asked g) (rg_taken g) (ask_counting (rt_ask s))
                 (echo_popping (rt_echo s)) (ask_gone (rt_ask s)) (echo_input_gone (rt_echo s));
  ri_response : channel_ok w (rt_response s) 1 (rg_answered g) (rg_received g) (echo_counting (rt_echo s))
                  (ask_popping (rt_ask s)) (echo_gone (rt_echo s)) false;
  ri_echo : rg_taken g = rg_answered g ++ echo_holds (rt_echo s);
  ri_ask_pc : ask_pc_ok g (rt_ask s);
  ri_echo_pc : echo_pc_ok (ask_gone (rt_ask s)) (rt_echo s);
  ri_hist : ak_hist (rt_ask s)
            = foldl (fun h x => record_latency h x.2 x.1) hist0 (rg_recorded g)
}.

Hypothesis Hw : wait_wf w.
Hypothesis Hsamples : Z.of_nat samples <= u64_max.

(** What the asker has received it had asked, in order. *)
Lemma rt_prefixes g s :
  rt_inv g s ->
  rg_received g `prefix_of` rg_answered g /\ rg_answered g `prefix_of` rg_taken g
  /\ rg_taken g `prefix_of` rg_asked g.
Proof.
  intros I. split_and!.
  - apply (chan_ahead w _ _ _ _ _ _ _ _ (ri_response _ _ I)).
  - rewrite (ri_echo _ _ I). by apply prefix_app_r.
  - apply (chan_ahead w _ _ _ _ _ _ _ _ (ri_request _ _ I)).
Qed.

Lemma rt_bounds g s :
  rt_inv g s ->
  Z.of_nat (length (rg_asked g)) <= u64_max /\ Z.of_nat (length (rg_taken g)) <= u64_max
  /\ Z.of_nat (length (rg_answered g)) <= u64_max /\ Z.of_nat (length (rg_received g)) <= u64_max.
Proof.
  intros I. destruct (rt_prefixes _ _ I) as (P1 & P2 & P3).
  apply prefix_length in P1, P2, P3.
  assert (Ha : (length (rg_asked g) <= samples)%nat).
  { pose proof (ri_ask_pc _ _ I) as Hp. unfold ask_pc_ok in Hp.
    destruct (ak_pc (rt_ask s)) as [| v pc | v pc | v | |]; destruct Hp as [E Hp]; destruct_and?;
      apply (f_equal length) in E; rewrite ?length_app, ?length_fmap in *; simpl in *; lia. }
  lia.
Qed.

Definition rt_advances (a : RtActor * Z) s : Prop :=
  exists g' s', round_trip_step s a = Ret s' /\ rt_inv g' s'.

(** The echo does not leave before the asker. *)
Lemma echo_waits g s : rt_inv g s -> ask_gone (rt_ask s) = false ->
  echo_input_gone (rt_echo s) = false /\ echo_gone (rt_echo s) = false.
Proof.
  intros I Hg. pose proof (ri_echo_pc _ _ I) as He. rewrite Hg in He.
  by destruct (rt_echo s).
Qed.

(** Once the asker is gone the echo may find out. *)
Lemma echo_pc_gone e : echo_pc_ok false e -> echo_pc_ok true e.
Proof. destruct e as [pc | | | |]; try done. intros [? Hl]. split; [done |]. by destruct pc. Qed.

Lemma ask_send_advances g s now v pc :
  rt_inv g s -> ak_pc (rt_ask s) = AkSend v pc -> rt_advances (AskA, now) s.
Proof.
  intros I Epc. destruct (rt_bounds _ _ I) as (B1 & _).
  assert (Hg : ask_gone (rt_ask s) = false) by (unfold ask_gone; by rewrite Epc).
  destruct (echo_waits _ _ I Hg) as [Hi _]. destruct I as [Cq Cp Ee Ha He Eh].
  unfold ask_pc_ok in Ha. rewrite Epc in Ha. destruct Ha as (Ha1 & Ha2 & Ha3 & Ha4).
  unfold ask_counting, ask_popping in Cq, Cp. rewrite Epc in Cq, Cp. rewrite Hg, Hi in Cq. rewrite Hg in He.
  destruct (send_step_ok w _ _ _ _ _ _ _ _ Cq Ha4 Hw B1) as (c' & r & Er & Hr).
  unfold rt_advances, round_trip_step, ask_step. cbn [fst snd]. rewrite Epc, Er. cbn [rbind].
  destruct r as [pc' | []].
  - destruct Hr as (asked' & C' & Hw' & Hh).
    exists (mkRtGhost asked' (rg_taken g) (rg_answered g) (rg_received g) (rg_recorded g)).
    eexists. split; [done |]. constructor; simpl; try done.
    + by rewrite Hi.
    + unfold ask_pc_ok. simpl. by rewrite <- Hh.
  - destruct Hr as (C' & Hh & _). rewrite Hh, app_nil_r in Ha1. exists g. eexists. split; [done |].
    constructor; simpl; try done.
    + by rewrite Hi.
    + unfold ask_pc_ok. simpl. rewrite Ha2, app_nil_r. split_and!; try done.
      * rewrite <- (length_fmap fst), Ha2. lia.
      * apply Cp.
  - by destruct Hr as (_ & Hcg & _).
Qed.

Lemma ask_receive_advances g s now v pc :
  rt_inv g s -> ak_pc (rt_ask s) = AkReceive v pc -> rt_advances (AskA, now) s.
Proof.
  intros I Epc. destruct (rt_bounds _ _ I) as (_ & _ & _ & B4).
  destruct (rt_prefixes _ _ I) as (P1 & P2 & P3).
  assert (Hg : ask_gone (rt_ask s) = false) by (unfold ask_gone; by rewrite Epc).
  destruct (echo_waits _ _ I Hg) as [Hi Hgo]. destruct I as [Cq Cp Ee Ha He Eh].
  unfold ask_pc_ok in Ha. rewrite Epc in Ha. destruct Ha as (Ha1 & Ha2 & Ha3 & Ha4 & Ha5).
  unfold ask_counting, ask_popping in Cq, Cp. rewrite Epc in Cq, Cp. rewrite Hg, Hi in Cq. rewrite Hg in He.
  rewrite Hgo in Cp.
  destruct (recv_step_ok w _ _ _ _ _ _ _ _ Cp Ha4 Hw Ha5 B4) as (c' & r & Er & Hr).
  unfold rt_advances, round_trip_step, ask_step. cbn [fst snd]. rewrite Epc, Er. cbn [rbind].
  destruct r as [pc' | [x |]].
  - destruct Hr as (Hr & Hw' & Hl' & C'). rewrite Hr, app_nil_r in Ha2.
    exists (mkRtGhost (rg_asked g) (rg_taken g) (rg_answered g) (rg_received g ++ recv_holds pc') (rg_recorded g)).
    eexists. split; [done |]. constructor; simpl; rewrite ?Hi, ?Hgo; try done.
    unfold ask_pc_ok. simpl. rewrite Ha2. by split_and!.
  - destruct Hr as (Hr & C'). rewrite Hr in Ha2. exists g. eexists. split; [done |].
    assert (Ex : rg_received g = rg_asked g).
    { apply prefix_length_eq; [by do 2 (etrans; [eassumption |]) |].
      rewrite Ha1, Ha2, !length_app. simpl. lia. }
    constructor; simpl; rewrite ?Hi, ?Hgo; try done.
  - by destruct Hr as (_ & _ & Hpg & _).
Qed.

Lemma ask_step_inv g s now : rt_inv g s -> rt_advances (AskA, now) s.
Proof.
  intros I. destruct (ak_pc (rt_ask s)) as [| v pc | v pc | v | |] eqn:Epc.
  - assert (Hg : ask_gone (rt_ask s) = false) by (unfold ask_gone; by rewrite Epc).
    pose proof I as [Cq Cp Ee Ha He Eh]. unfold ask_pc_ok in Ha. rewrite Epc in Ha. destruct Ha as (Ha1 & Ha2 & Ha3).
    unfold ask_counting, ask_popping in Cq, Cp. rewrite Epc in Cq, Cp. rewrite Hg in Cq, He.
    unfold rt_advances, round_trip_step, ask_step. cbn [fst snd]. rewrite Epc.
    destruct (ak_left (rt_ask s)) as [| n] eqn:El; cbn [rbind]; exists g; eexists; (split; [done |]);
      constructor; simpl; try done; unfold ask_pc_ok; simpl; split_and!; try done; try lia.
    + by rewrite Ha1.
    + by rewrite Ha1.
    + rewrite Ha1. lia.
    + apply Cq.
  - by apply (ask_send_advances g s now v pc).
  - by apply (ask_receive_advances g s now v pc).
  - assert (Hg : ask_gone (rt_ask s) = false) by (unfold ask_gone; by rewrite Epc).
    pose proof I as [Cq Cp Ee Ha He Eh]. unfold ask_pc_ok in Ha. rewrite Epc in Ha. destruct Ha as (Ha1 & Ha2 & Ha3).
    unfold ask_counting, ask_popping in Cq, Cp. rewrite Epc in Cq, Cp. rewrite Hg in Cq, He.
    unfold rt_advances, round_trip_step, ask_step. cbn [fst snd]. rewrite Epc. cbn [rbind].
    exists (mkRtGhost (rg_asked g) (rg_taken g) (rg_answered g) (rg_received g) (rg_recorded g ++ [(v, now)])).
    eexists. split; [done |]. constructor; simpl; try done.
    + unfold ask_pc_ok. simpl. rewrite fmap_app, Ha2, Ha1, length_app, length_fmap. simpl. by split_and!.
    + by rewrite foldl_app, <- Eh.
  - assert (Hg : ask_gone (rt_ask s) = false) by (unfold ask_gone; by rewrite Epc).
    pose proof I as [Cq Cp Ee Ha He Eh]. unfold ask_pc_ok in Ha. rewrite Epc in Ha.
    unfold ask_counting, ask_popping in Cq, Cp. rewrite Epc in Cq, Cp. rewrite Hg in Cq, He.
    unfold rt_advances, round_trip_step, ask_step. cbn [fst snd]. rewrite Epc. cbn [rbind].
    exists g. eexists. split; [done |]. constructor; simpl; try done.
    + by eapply close_sender_ok.
    + by apply echo_pc_gone.
  - unfold rt_advances, round_trip_step, ask_step. cbn [fst snd]. rewrite Epc. cbn [rbind].
    exists g. eexists. split; [done |]. destruct I. by constructor.
Qed.

Lemma echo_step_inv g s now : rt_inv g s -> rt_advances (EchoA, now) s.
Proof.
  intros I. destruct (rt_bounds _ _ I) as (_ & B2 & B3 & _).
  pose proof I as [Cq Cp Ee Ha He Eh].
  unfold rt_advances, round_trip_step, echo_step. cbn [fst].
  destruct (rt_echo s) as [pc | pc | | |] eqn:Epc; simpl in Cq, Cp, Ee, He.
  - destruct He as [Hwt Hlast].
    destruct (recv_step_ok w _ _ _ _ _ _ _ _ Cq Hwt Hw Hlast B2) as (c' & r & Er & Hr).
    rewrite Er. cbn [rbind]. destruct r as [pc' | [x |]].
    + destruct Hr as (Hr & Hw' & Hl' & C'). rewrite Hr, app_nil_r in Ee.
      exists (mkRtGhost (rg_asked g) (rg_taken g ++ recv_holds pc') (rg_answered g) (rg_received g) (rg_recorded g)).
      eexists. split; [done |]. constructor; simpl; try done. by rewrite Ee.
    + destruct Hr as (Hr & C'). rewrite Hr in Ee. exists g. eexists. split; [done |].
      constructor; simpl; try done. apply Cp.
    + destruct Hr as (Hr & C' & Hg & _). rewrite Hr in Ee. exists g. eexists. split; [done |].
      by constructor.
  - destruct (send_step_ok w _ _ _ _ _ _ _ _ Cp He Hw B3) as (c' & r & Er & Hr).
    rewrite Er. cbn [rbind]. destruct r as [pc' | []].
    + destruct Hr as (answered' & C' & Hw' & Hh).
      exists (mkRtGhost (rg_asked g) (rg_taken g) answered' (rg_received g) (rg_recorded g)).
      eexists. split; [done |]. constructor; simpl; try done. by rewrite Ee, Hh.
    + destruct Hr as (C' & Hh & _). rewrite Hh in Ee. exists g. eexists. split; [done |].
      constructor; simpl; try done. split; [apply Cq | done].
    + by destruct Hr as (_ & Hcg & _).
  - exists g. eexists. split; [done |]. constructor; simpl; try done. by eapply close_receiver_ok.
  - exists g. eexists. split; [done |]. constructor; simpl; try done. by eapply close_sender_ok.
  - exists g. eexists. split; [done |]. constructor; simpl; rewrite ?Epc; try done.
Qed.

Lemma round_trip_run_inv schedule : forall g s,
  rt_inv g s -> exists g' s', round_trip_run s schedule = Ret s' /\ rt_inv g' s'.
Proof.
  induction schedule as [| [[] now] schedule IH]; intros g s I; [by exists g, s | |];
    [destruct (ask_step_inv g s now I) as (g' & s' & E & I')
    | destruct (echo_step_inv g s now I) as (g' & s' & E & I')];
    cbn [round_trip_run]; rewrite E; cbn [rbind]; by apply (IH g').
Qed.

End RoundTripInv.

Section RoundTripTheorem.
Context {R : Type} {RG : Ring Z R} {RL : RingLaws RG} {H : Type} {HG : Histogram H} {HL : HistogramLaws HG}.

Lemma round_trip_samples (h : H) recorded :
  Forall (fun x => latency x.2 x.1 <= 60000000000) recorded ->
  hist_samples (foldl (fun h x => record_latency h x.2 x.1) h recorded)
  = hist_samples h ++ ((fun x => latency x.2 x.1) <$> recorded).
Proof.
  intros Hr. revert h. induction Hr as [| x l Hx _ IH]; intros h; simpl; [by rewrite app_nil_r |].
  pose proof (latency_pos x.2 x.1). rewrite IH. unfold record_latency.
  rewrite hist_record_samples, hist_record_ok by done. by rewrite <- app_assoc.
Qed.

(** The round trip measures every request with its own answer.  Under every
    interleaving no thread panics; when the measurement ends, every one of the
    requests was answered with the value that was asked, and the histogram holds
    one latency per request, of the reading at its answer against the value
    itself, as long as they are within its range. *)
Theorem round_trip_measures samples w schedule :
  wait_wf w -> Z.of_nat samples <= u64_max ->
  exists s0 s,
    round_trip_start (R := R) (H := H) samples w = Ret s0 /\ round_trip_run s0 schedule = Ret s
    /\ forall stats, queue_round_trip s = Some stats ->
       exists recorded,
         length recorded = samples
         /\ (Forall (fun x => latency x.2 x.1 <= 60000000000) recorded ->
             hist_samples (ak_hist (rt_ask s)) = (fun x => latency x.2 x.1) <$> recorded
             /\ ls_count stats = Z.of_nat samples).
Proof.
  intros Hw Hs. destruct hist_new_ok as (hist0 & Eh & Hh).
  unfold round_trip_start, histogram. rewrite Eh. cbn [unwrap rbind].
  set (s0 := mkRoundTrip _ _ _ _).
  assert (I0 : rt_inv samples w hist0 (mkRtGhost [] [] [] [] []) s0)
    by (constructor; simpl; try apply bounded_ok; done).
  destruct (round_trip_run_inv samples w hist0 Hw Hs schedule _ s0 I0) as (g & s & Er & I).
  exists s0, s. split_and!; [done | done |]. intros stats Hst. unfold queue_round_trip in Hst.
  pose proof I as [_ _ _ Ha _ Ehist]. unfold ask_pc_ok in Ha. destruct (ak_pc (rt_ask s)) eqn:Epc; try done.
  destruct (rt_echo s); try done. injection Hst as <-. destruct Ha as (_ & Ha & Hl).
  assert (Hn : length (rg_recorded g) = samples) by (by rewrite <- Hl, <- Ha, length_fmap).
  exists (rg_recorded g). split; [done |]. intros Hr.
  assert (Es : hist_samples (ak_hist (rt_ask s)) = (fun x => latency x.2 x.1) <$> rg_recorded g)
    by (by rewrite Ehist, round_trip_samples, Hh).
  split; [done |]. simpl. by rewrite hist_len_ok, Es, length_fmap, Hn by (by rewrite Es, length_fmap, Hn).
Qed.

(** The same for the pairs of readings of the timer. *)
Lemma timer_baseline_counts (reads : list (Z * Z)) :
  Z.of_nat (length reads) <= u64_max ->
  Forall (fun x => latency x.2 x.1 <= 60000000000) reads ->
  exists stats, timer_read_pair_baseline (H := H) reads = Ret stats /\ ls_count stats = Z.of_nat (length reads).
Proof.
  intros Hl Hr. destruct hist_new_ok as (hist0 & Eh & Hh). unfold timer_read_pair_baseline, histogram.
  rewrite Eh. cbn [unwrap rbind]. eexists. split; [done |].
  pose proof (round_trip_samples hist0 reads Hr) as E. rewrite Hh in E. simpl in E.
  assert (Ef : forall h, foldl (fun h '(first, second) => record_latency h second first) h reads
                         = foldl (fun h x => record_latency h x.2 x.1) h reads).
  { clear. induction reads as [| [a b] l IH]; intros h; [done |]. simpl. apply IH. }
  rewrite Ef. simpl. by rewrite hist_len_ok, E, length_fmap by by rewrite E, length_fmap.
Qed.

End RoundTripTheorem.

(** * Concrete runs *)

(** The values themselves as the histogram. *)
#[export] Instance list_histogram : Histogram (list Z) := {|
  new_with_bounds _ _ _ := Some [];
  hist_record h v := if v <=? 60000000000 then (h ++ [v], true) else (h, false);
  hist_len h := Z.of_nat (length h);
  hist_min h := foldr Z.min u64_max h;
  hist_max h := foldr Z.max 0 h;
  value_at_quantile h _ := foldr Z.max 0 h
|}.

#[export] Instance list_histogram_laws : HistogramLaws list_histogram.
Proof.
  exists (fun h => h); simpl.
  - by eexists.
  - intros h v Hv. by rewrite (proj2 (Z.leb_le _ _)) by lia.
  - intros h v. destruct (v <=? 60000000000); simpl; by rewrite ?app_nil_r.
  - done.
Defined.

#[export] Instance list_bench : BenchPlatform := {|
  BStore := gmap nat OrderNode;
  BHist := list Z;
  BInRing := RingView (EngineInput * Stamp);
  BOutRing := RingView (OutputEvent.t * Stamp)
|}.

#[export] Instance list_bench_laws : BenchLaws list_bench.
Proof. by split; exact _. Defined.

(** The threads in turn, a microsecond apart. *)
Fixpoint in_turn {A} (threads : list A) (now : Z) (rounds : nat) : list (A * Z) :=
  match rounds with
  | O => []
  | S rounds =>
      imap (fun k a => (a, now + 1000 * Z.of_nat k)) threads
      ++ in_turn threads (now + 1000 * Z.of_nat (length threads)) rounds
  end.

Definition paced_bench : BenchConfig := mkBenchConfig 2 (Adaptive 1 1) 100000 0.

Definition bench_turns : list (BActor * Z) := in_turn [BFeedA; BEngineA; BOutputA] 0 120.

Definition bench_result : option PipelineBench :=
  match bench_start sample_config sample_inputs paced_bench with
  | Ret b0 =>
      match bench_run paced_bench (order_inputs sample_inputs) b0 bench_turns with
      | Ret b => bench_joined paced_bench 360000 b
      | Panic => None
      end
  | Panic => None
  end.

Fixpoint clock_okb (now : Z) (schedule : list (BActor * Z)) : bool :=
  match schedule with
  | [] => true
  | a :: schedule => (now <=? a.2) && clock_okb a.2 schedule
  end.

Lemma clock_okb_ok now schedule : clock_okb now schedule = true -> clock_ok now schedule.
Proof.
  revert now. induction schedule as [| a schedule IH]; intros now; [done |]. simpl.
  intros [H1 H2]%andb_true_iff. split; [by apply Z.leb_le | auto].
Qed.

Lemma paced_bench_wf : bench_wf sample_config sample_inputs paced_bench.
Proof. constructor; [apply sample_config_wf | apply sample_inputs_wf | done | by simpl | done]. Qed.

(** The same for ever. *)
Definition bench_turn (n : nat) : BActor * Z :=
  (match (n mod 3)%nat with 0%nat => BFeedA | 1%nat => BEngineA | _ => BOutputA end, 1000 * Z.of_nat n).

Lemma bench_turn_fair : bfair sample_inputs paced_bench bench_turn.
Proof.
  constructor.
  - intros a n. set (r := match a with BFeedA => 0%nat | BEngineA => 1%nat | BOutputA => 2%nat end).
    exists (3 * n + r)%nat. split; [lia |]. unfold bench_turn. cbn [fst].
    rewrite Nat.add_comm, Nat.mul_comm, Nat.Div0.mod_add. by destruct a.
  - done.
  - intros n m Hn. simpl. lia.
  - exists 100%nat. by vm_compute.
Qed.

Lemma bench_measures_witness :
  (exists result core stamps handled,
     bench_result = Some result
     /\ measured sample_config sample_inputs paced_bench result core stamps handled)
  /\ exists b0 k b,
       bench_start sample_config sample_inputs paced_bench = Ret b0
       /\ bench_run paced_bench (order_inputs sample_inputs) b0 (bsteps bench_turn 0 k) = Ret b
       /\ is_Some (bench_joined paced_bench 0 b).
Proof.
  assert (Hsome : is_Some bench_result) by (vm_compute; by eexists). destruct Hsome as [result Hres].
  destruct (bench_measures sample_config sample_inputs paced_bench paced_bench_wf)
    as (b0 & E0 & Hrun & Hends). split.
  - destruct (Hrun bench_turns) as (b & Er & H); [apply clock_okb_ok; by vm_compute |].
    unfold bench_result in *. rewrite E0, Er in *.
    destruct (H 360000 result Hres) as (core & stamps & handled & M).
    by exists result, core, stamps, handled.
  - destruct (Hends bench_turn) as (k & b & Ek & J); [simpl; lia | apply bench_turn_fair |].
    exists b0, k, b. by split_and!.
Defined.

Definition round_trip_turns : list (RtActor * Z) := in_turn [AskA; EchoA] 0 60.

Definition round_trip_result : option LatencyStats :=
  match round_trip_start (R := RingView Z) (H := list Z) 3 (Adaptive 1 1) with
  | Ret s0 =>
      match round_trip_run s0 round_trip_turns with Ret s => queue_round_trip s | Panic => None end
  | Panic => None
  end.

Example round_trip_ends : ls_count <$> round_trip_result = Some 3.
Proof. by vm_compute. Qed.

Lemma round_trip_measures_witness :
  exists s0 s,
    round_trip_start (R := RingView Z) (H := list Z) 3 (Adaptive 1 1) = Ret s0
    /\ round_trip_run s0 round_trip_turns = Ret s
    /\ forall stats, queue_round_trip s = Some stats ->
       exists recorded,
         length recorded = 3%nat
         /\ (Forall (fun x => latency x.2 x.1 <= 60000000000) recorded ->
             hist_samples (ak_hist (rt_ask s)) = (fun x => latency x.2 x.1) <$> recorded /\ ls_count stats = 3).
Proof. apply (round_trip_measures (R := RingView Z) (H := list Z) 3 (Adaptive 1 1) round_trip_turns); [by simpl | done]. Defined.
