(* ===== verification/Simulator.v ===== *)
(** The simulator's commands ([apps/simulator/src/main.rs]): [generate] writes a
    feed file, [replay] runs a feed through the pipeline, [step] replays in one
    thread, [verify] runs the same feed twice and compares the digests.

    What is printed, the parsing of the command line, the sleeping of a paced
    replay and [bench] are left out. *)

From S2P Require Import Prelude Enums Ids Events BTree Slab Book Matching Market Account Config.
From S2P Require Import CoreState Risk Core Read Canonical Codec Wire Generator Journal Queue QueueProps Replay.
From S2P Require Import Snapshot Pipeline.

Module Sim.

Section Simulator.
Context {P : Platform}.

(** * Arguments *)

(** [enum Journal] and [Journal::resolve]. *)
Inductive JournalMode :=
| JournalBuffered
| JournalGroupCommit
| JournalDurable.

Definition resolve (mode : JournalMode) (records : Z) : JournalSync :=
  match mode with
  | JournalBuffered => Buffered
  | JournalGroupCommit => GroupCommit records
  | JournalDurable => Durable
  end.

(** [enum Wait] and its conversion to a [WaitStrategy]. *)
Inductive Wait :=
| WaitAdaptive
| WaitBusySpin
| WaitSleep.

Definition wait_from (value : Wait) : WaitStrategy :=
  match value with
  | WaitAdaptive => wait_default
  | WaitBusySpin => BusySpin
  | WaitSleep => Sleep
  end.

(** What the commands return as [Box<dyn Error>]. *)
Inductive SimError :=
| ReadFailed (error : IoError)
| HeaderFailed (error : DecodeError)
| RunFailed (error : RuntimeError)
| DigestsDiffer.

(** * Workloads *)

Definition workload_config (seed : Z) (events : nat) (gaps duplicates : bool) : GeneratorConfig :=
  let config := generator_config_new seed events in
  mkGeneratorConfig (gc_seed config) (gc_instrument config) (gc_accounts config) (gc_events config)
    (gc_start_price_ticks config) (gc_snapshot_levels config) (gc_order_percent config)
    (gc_market_order_percent config) (gc_cancel_percent config) (gc_replace_percent config)
    gaps duplicates (gc_inter_arrival_ns config).

Definition workload (seed : Z) (events : nat) (gaps duplicates : bool) : res (list EngineInput) :=
  let! (_, inputs) := Generator.generate (Generator.new (workload_config seed events gaps duplicates)) in
  Ret inputs.

(** ["LAB-USD"]. *)
Definition LAB_USD : bytes := [76; 65; 66; 45; 85; 83; 68].

(** The loop of [generate]. *)
Fixpoint encode_inputs (inputs : list EngineInput) (bs : bytes) (frames : Z) : res (bytes * Z) :=
  match inputs with
  | [] => Ret (bs, frames)
  | input :: inputs =>
      match to_frame input with
      | Some frame =>
          let! bs := encode_frame crc32 frame bs in
          let! frames := u64_plain (frames + 1) in
          encode_inputs inputs bs frames
      | None => encode_inputs inputs bs frames
      end
  end.

(** The bytes of the file and the number of frames; [now] is what
    [duration_since(UNIX_EPOCH)] gives in nanoseconds. *)
Definition generate (now : option Z) (seed : Z) (events : nat) (inject_gaps inject_duplicates : bool)
  : res (bytes * Z) :=
  let! inputs := workload seed events inject_gaps inject_duplicates in
  let! _ := u64_plain (Z.of_nat (length inputs) * 64) in
  let! spec := instrument_spec_new 1 LAB_USD 1 1 in
  let! bs := encode_header crc32 (mkFileHeader seed seed (from_option u64_wrap 0 now) [spec]) [] in
  encode_inputs inputs bs 0.

(** [std::fs::read]. *)
Context (read_file : Path -> Result bytes IoError).

(** A recorded feed owns its run identity; only generated workloads use the
    seed. *)
Definition load_source (input : option Path) (seed : Z) (events : nat)
  : res (Result (FeedSource * Z) SimError) :=
  match input with
  | Some path =>
      match read_file path with
      | Err error => Ret (Err (ReadFailed error))
      | Ok bs =>
          let! header := decode_header crc32 bs in
          match header with
          | Err error => Ret (Err (HeaderFailed error))
          | Ok (header, _) => Ret (Ok (Bytes bs, fh_run_id header))
          end
      end
  | None =>
      let! inputs := workload seed events false false in
      Ret (Ok (Memory inputs, seed))
  end.

(** * Threaded runs *)

(** [engine_runtime::run] with [ControlHandle::default()], on a schedule; [None]
    while a thread is still running. *)
Definition run_default (schedule : list Actor) (ec : EngineConfig) (cfg : PipelineConfig)
    (source : FeedSource) : res (option (Result RunSummary RuntimeError)) :=
  let! control := control_default in
  let! (sy, _) := run cfg (ec_run_id ec) (start ec cfg source control None) schedule in
  Ret (joined cfg sy).

(** The configuration of [replay]. *)
Definition replay_config (journal : option Path) (checkpoint_interval : Z) (capacity : nat)
    (wait : WaitStrategy) (journal_sync : JournalSync) : PipelineConfig :=
  mkPipelineConfig capacity capacity (pc_telemetry_capacity pipeline_default) wait journal journal_sync
    (pc_capture_inputs pipeline_default) checkpoint_interval 0 (pc_snapshot_depth pipeline_default)
    (pc_paced pipeline_default).

Definition replay (schedule : list Actor) (input : option Path) (seed : Z) (events : nat)
    (journal : option Path) (checkpoint_interval : Z) (capacity : nat) (wait : WaitStrategy)
    (journal_sync : JournalSync) : res (option (Result RunSummary SimError)) :=
  let! loaded := load_source input seed events in
  match loaded with
  | Err error => Ret (Some (Err error))
  | Ok (source, run_id) =>
      let! result := run_default schedule (single_instrument run_id)
                       (replay_config journal checkpoint_interval capacity wait journal_sync) source in
      Ret (match result with
           | None => None
           | Some (Err error) => Some (Err (RunFailed error))
           | Some (Ok summary) => Some (Ok summary)
           end)
  end.

(** One turn of the loop of [verify]. *)
Definition verify_run (schedule : list Actor) (input : option Path) (seed : Z) (events : nat)
  : res (option (Result RunSummary SimError)) :=
  let! loaded := load_source input seed events in
  match loaded with
  | Err error => Ret (Some (Err error))
  | Ok (source, run_id) =>
      let! result := run_default schedule (single_instrument run_id) pipeline_default source in
      Ret (match result with
           | None => None
           | Some (Err error) => Some (Err (RunFailed error))
           | Some (Ok summary) => Some (Ok summary)
           end)
  end.

Definition digests_match (a b : RunSummary) : bool :=
  bool_decide (rs_input_digest a = rs_input_digest b)
  && bool_decide (rs_output_digest a = rs_output_digest b)
  && bool_decide (rs_state_digest a = rs_state_digest b).

Definition verify (schedule1 schedule2 : list Actor) (input : option Path) (seed : Z) (events : nat)
  : res (option (Result unit SimError)) :=
  let! first := verify_run schedule1 input seed events in
  match first with
  | None => Ret None
  | Some (Err error) => Ret (Some (Err error))
  | Some (Ok a) =>
      let! second := verify_run schedule2 input seed events in
      Ret (match second with
           | None => None
           | Some (Err error) => Some (Err error)
           | Some (Ok b) => Some (if digests_match a b then Ok tt else Err DigestsDiffer)
           end)
  end.

(** * Single-threaded replay *)

(** The loop of [step]; [delta] of a paced replay only sleeps. *)
Fixpoint step_inputs (paced : bool) (until : option Z) (inputs : list EngineInput)
    (previous_recv_ns : Z) (r : Replay Store Hash) : res (Replay Store Hash) :=
  match inputs with
  | [] => Ret r
  | input :: inputs =>
      let '(_, previous_recv_ns) := pace paced input previous_recv_ns in
      let! r := Driver.step r input in
      match until with
      | Some until =>
          if until <=? tc_engine_seq (rp_core r) then Ret r
          else step_inputs paced (Some until) inputs previous_recv_ns r
      | None => step_inputs paced None inputs previous_recv_ns r
      end
  end.

Definition step (seed : Z) (events : nat) (until : option Z) (checkpoint_interval : Z) (paced : bool)
  : res (Replay Store Hash * ReplayResult) :=
  let! inputs := workload seed events false false in
  let r := Driver.new (Core.new (single_instrument seed)) checkpoint_interval in
  let! r := step_inputs paced until inputs (from_option in_recv_time_ns 0 (head inputs)) r in
  let! result := Driver.finish r in
  Ret (r, result).

End Simulator.

End Sim.
