(* ===== verification/SimulatorTheorems.v ===== *)
(** The simulator's workloads and feed files, and what the simulator promises: a
    generated file reads back, the threaded replay agrees with the single-threaded
    one, and [verify] succeeds. *)

From S2P Require Import Prelude Enums Ids Events Read Canonical CanonicalProps Codec CodecProps.
From S2P Require Import CodecTheorems Wire Journal Queue QueueProps BTree Slab Book Market MarketInv.
From S2P Require Import MarketTheorems Account Config CoreState Core CoreApply CoreRun CoreTheorems.
From S2P Require Import Replay ReplayState ReplayTheorems Generator GeneratorProps.
From S2P Require Import GeneratorTheorems CoreFrame Snapshot Pipeline PipelineInv.
From S2P Require Import PipelineFeed PipelineRun PipelineLive PipelineSamples PipelineTheorems.
From S2P Require Import PipelineQuiet CoreTyped Simulator.

(** * Workloads *)

Lemma workload_config_wf seed events gaps duplicates :
  Z.of_nat events <= 1000000000 -> generator_wf (Sim.workload_config seed events gaps duplicates).
Proof. intros [] %(generator_config_wf seed). by constructor. Qed.

Lemma workload_ok seed events gaps duplicates :
  Z.of_nat events <= 1000000000 ->
  exists inputs, Sim.workload seed events gaps duplicates = Ret inputs
    /\ emitted (Sim.workload_config seed events gaps duplicates) inputs
    /\ Z.of_nat (length inputs) <= 42 + 2 * Z.of_nat events.
Proof.
  intros He. pose proof (workload_config_wf seed events gaps duplicates He) as W.
  destruct (generate_ok _ W (lowest _) (highest _) 1 ltac:(done)) as (g & inputs & E & G & _).
  exists inputs. unfold Sim.workload. rewrite E. split; [done |]. split; [apply G |].
  pose proof (go_room _ _ _ _ _ G) as Hr. unfold budget in Hr. simpl in Hr. lia.
Qed.

(** Inputs numbered from [n + 1] and received in the order of their numbers are
    stamped with their own numbers. *)
Lemma stamp_numbered inputs : forall n clock,
  (forall k i, inputs !! k = Some i -> in_ingress_seq i = n + Z.of_nat k + 1) ->
  stamp n clock (FromFeed <$> inputs) = inputs.
Proof.
  induction inputs as [| i inputs IH]; intros n clock H; [done |]. simpl. rewrite IH.
  - pose proof (H 0%nat i eq_refl) as H0. destruct i as [s t e]. simpl in *. do 2 f_equal. lia.
  - intros k j Hk. rewrite (H (S k) j Hk). lia.
Qed.

Lemma fed_feed inputs : fed (FromFeed <$> inputs) = inputs.
Proof. induction inputs as [| i inputs IH]; [done |]. cbn. by f_equal. Qed.

Lemma emitted_stream cfg inputs : emitted cfg inputs -> feed_stream inputs = inputs.
Proof.
  intros [_ _ En]. apply stamp_numbered. intros k i Hk. destruct (En k i Hk) as [-> _]. lia.
Qed.

Lemma framed_uncontrolled i : framed i -> is_control i = false.
Proof. intros (f & E & _). unfold to_frame, is_control in *. by destruct (in_event i). Qed.

Lemma emitted_uncontrolled cfg inputs :
  emitted cfg inputs -> Forall (fun i => is_control i = false) inputs.
Proof. intros [_ Ef _]. eapply Forall_impl; [done |]. apply framed_uncontrolled. Qed.

Lemma emitted_wf cfg inputs : emitted cfg inputs -> Forall input_wf inputs.
Proof. intros [Et _ _]. eapply Forall_impl; [done |]. apply typed_wf. Qed.

(** * Feed files *)

Section Files.
Context {P : Platform} {PL : PlatformLaws P}.

Definition input_frame (i : EngineInput) : bytes := from_option (frame_bytes crc32) [] (to_frame i).

Definition feed_bytes (inputs : list EngineInput) : bytes := mjoin (input_frame <$> inputs).

Lemma feed_bytes_bytes inputs : Forall is_byte (feed_bytes inputs).
Proof.
  unfold feed_bytes. induction inputs as [| i inputs IH]; [constructor |]. simpl.
  apply Forall_app_2; [| done]. unfold input_frame. destruct (to_frame i); [| constructor].
  simpl. apply frame_bytes_bytes.
Qed.

Lemma encode_inputs_ok inputs : forall bs n,
  Forall framed inputs -> 0 <= n -> n + Z.of_nat (length inputs) <= u64_max ->
  Sim.encode_inputs inputs bs n = Ret (bs ++ feed_bytes inputs, n + Z.of_nat (length inputs)).
Proof.
  induction inputs as [| i inputs IH]; intros bs n Hf Hn Hb; simpl in *.
  - unfold feed_bytes. simpl. by rewrite app_nil_r, Z.add_0_r.
  - apply Forall_cons in Hf as [(f & Ef & _) Hf]. rewrite Ef, encode_frame_eq. cbn [rbind].
    rewrite u64_plain_in by mach. cbn [rbind]. rewrite IH by (done || lia).
    unfold feed_bytes. simpl. unfold input_frame at 2. rewrite Ef. simpl. rewrite <- app_assoc.
    do 2 f_equal. lia.
Qed.

(** The frames of the inputs numbered from [n + 1], behind [pre]. *)
Lemma decode_feed_bytes inputs : forall fuel pre n,
  Forall framed inputs -> (length (feed_bytes inputs) <= fuel)%nat ->
  (forall k i, inputs !! k = Some i -> in_ingress_seq i = n + Z.of_nat k + 1) ->
  decode_feed fuel (pre ++ feed_bytes inputs) (length pre) n = inputs.
Proof.
  induction inputs as [| i inputs IH]; intros fuel pre n Hf Hl Hn.
  - destruct fuel; [done |]. cbn [decode_feed]. by rewrite app_nil_r, Nat.ltb_irrefl.
  - apply Forall_cons in Hf as [(f & Ef & Hw) Hf].
    assert (Eb : feed_bytes (i :: inputs) = frame_bytes crc32 f ++ feed_bytes inputs)
      by (unfold feed_bytes; simpl; unfold input_frame at 1; by rewrite Ef).
    rewrite Eb in Hl |- *. rewrite length_app in Hl. pose proof (frame_bytes_length crc32 f) as Hfl.
    destruct fuel as [| fuel]; [lia |]. cbn [decode_feed].
    rewrite (proj2 (Nat.ltb_lt _ _)) by (rewrite !length_app; lia).
    rewrite drop_app_length, decode_frame_bytes by (apply pl_crc32 || done).
    pose proof (Hn 0%nat i eq_refl) as H0. replace (n + Z.of_nat 0 + 1) with (n + 1) in H0 by lia.
    rewrite <- H0, (from_to_frame i f Ef). f_equal.
    rewrite app_assoc, <- length_app. rewrite H0. apply IH; [done | lia |].
    intros k j Hk. rewrite (Hn (S k) j Hk). lia.
Qed.

(** The header that [generate] writes. *)
Definition lab_header (now : option Z) (seed : Z) : FileHeader :=
  mkFileHeader seed seed (from_option u64_wrap 0 now) [mkInstrumentSpec 1 (Sim.LAB_USD ++ [0]) 1 1 2 0].

Lemma lab_header_wf now seed : in_u64 seed -> header_wf (lab_header now seed).
Proof.
  intros Hs. constructor; simpl.
  - mach.
  - done.
  - destruct now as [t |]; [| done]. simpl. unfold u64_wrap. pose proof (Z.mod_pos_bound t (2 ^ 64)). mach.
  - repeat constructor; done.
  - apply NoDup_singleton.
  - lia.
Qed.

Lemma generate_file now seed events gaps duplicates :
  in_u64 seed -> Z.of_nat events <= 1000000000 ->
  exists inputs, Sim.workload seed events gaps duplicates = Ret inputs
    /\ emitted (Sim.workload_config seed events gaps duplicates) inputs
    /\ Z.of_nat (length inputs) <= 42 + 2 * Z.of_nat events
    /\ Sim.generate now seed events gaps duplicates
       = Ret (header_bytes crc32 (lab_header now seed) ++ feed_bytes inputs, Z.of_nat (length inputs)).
Proof.
  intros Hs He. destruct (workload_ok seed events gaps duplicates He) as (inputs & E & Em & Hl).
  exists inputs. split; [done |]. split; [done |]. split; [done |]. unfold Sim.generate. rewrite E. cbn [rbind].
  rewrite u64_plain_in by mach. cbn [rbind].
  change (instrument_spec_new 1 Sim.LAB_USD 1 1) with (Ret (mkInstrumentSpec 1 (Sim.LAB_USD ++ [0]) 1 1 2 0)).
  cbn [rbind]. fold (lab_header now seed).
  rewrite encode_header_eq by by apply lab_header_wf. cbn [rbind app].
  rewrite encode_inputs_ok; [done | apply Em | lia | mach].
Qed.

Lemma feed_bytes_length inputs : (length (feed_bytes inputs) <= 95 * length inputs)%nat.
Proof.
  induction inputs as [| i inputs IH]; [done |].
  change (feed_bytes (i :: inputs)) with (input_frame i ++ feed_bytes inputs). rewrite length_app, length_cons.
  assert (length (input_frame i) <= 95)%nat; [| lia].
  unfold input_frame. destruct (to_frame i) as [f |]; [| simpl; lia]. cbn [from_option].
  rewrite frame_bytes_length. pose proof (payload_bytes_length (fr_body f)). lia.
Qed.

(** The feed thread reads the workload from the file. *)
Lemma file_inputs now seed cfg inputs :
  in_u64 seed -> emitted cfg inputs -> Z.of_nat (length inputs) <= u32_max ->
  let bs := header_bytes crc32 (lab_header now seed) ++ feed_bytes inputs in
  decode_header crc32 bs
  = Ret (Ok (lab_header now seed, length (header_bytes crc32 (lab_header now seed))))
  /\ feed_inputs (Bytes bs) = inputs /\ Forall is_byte bs /\ Z.of_nat (length bs) <= u64_max.
Proof.
  intros Hs [_ Ef En] Hl bs. pose proof (lab_header_wf now seed Hs) as Hw.
  pose proof (feed_bytes_length inputs) as Hfl.
  assert (Hb : Forall is_byte bs)
    by (apply Forall_app_2; [apply header_bytes_bytes, Hw | apply feed_bytes_bytes]).
  assert (Hsz : Z.of_nat (length bs) <= u64_max).
  { unfold bs. rewrite length_app, header_bytes_length by apply Hw. simpl. mach. }
  assert (Hd : decode_header crc32 bs
               = Ret (Ok (lab_header now seed, length (header_bytes crc32 (lab_header now seed)))))
    by (apply decode_header_bytes; done || apply feed_bytes_bytes || apply pl_crc32).
  split; [done |]. split; [| done]. unfold feed_inputs. rewrite Hd. unfold frames_after, bs.
  apply decode_feed_bytes; [done | rewrite length_app; lia |].
  intros k i Hk. destruct (En k i Hk) as [-> _]. lia.
Qed.

(** No frame carries a control command. *)
Lemma decode_feed_uncontrolled bs fuel : forall offset n,
  Forall (fun i => is_control i = false) (decode_feed fuel bs offset n)
  /\ (length (decode_feed fuel bs offset n) <= fuel)%nat.
Proof.
  induction fuel as [| fuel IH]; intros offset n; simpl; [split; [constructor | lia] |].
  destruct (offset <? length bs)%nat; [| split; [constructor | simpl; lia]].
  destruct (decode_frame crc32 _) as [[[frame consumed] |] |]; try (split; [constructor | simpl; lia]).
  destruct (from_frame frame (n + 1)) as [input |] eqn:E; [| split; [constructor | simpl; lia]].
  destruct (IH (offset + consumed)%nat (n + 1)) as [H1 H2]. simpl. split; [| lia].
  constructor; [| done]. unfold from_frame in E. unfold is_control.
  apply rbind_inv in E as (event & E & [= <-]). simpl.
  by destruct (fr_body frame); [apply rbind_inv in E as (k & _ & [= <-]).. | injection E as <-].
Qed.

End Files.

(** The engine configuration of every command. *)
Lemma single_instrument_wf run_id : config_wf (single_instrument run_id).
Proof.
  constructor; simpl.
  - apply NoDup_singleton.
  - repeat constructor; set_solver.
  - intros i ->%list_elem_of_singleton. simpl. lia.
Qed.

Section Theorems.
Context {P : Platform} {PL : PlatformLaws P}.
Context (read_file : Path -> Result bytes IoError).

(** * Single-threaded replay *)

(** The inputs that [step] applies: it looks at [until] after an input. *)
Definition until_prefix (until : option Z) (inputs : list EngineInput) : list EngineInput :=
  match until with Some u => take (Z.to_nat (Z.max u 1)) inputs | None => inputs end.

Lemma step_inputs_all paced inputs : forall previous (r : Replay Store Hash),
  Sim.step_inputs paced None inputs previous r = Driver.run r inputs.
Proof.
  induction inputs as [| i inputs IH]; intros previous r; [done |]. simpl.
  destruct (pace paced i previous) as [d p]. destruct (Driver.step r i); [apply IH | done].
Qed.

Lemma driver_step_inv (r r' : Replay Store Hash) i :
  Driver.step r i = Ret r' -> exists out, Engine.apply (rp_core r) i = Ret (rp_core r', out).
Proof.
  unfold Driver.step.
  intros (d & _ & ([c out] & E & (d' & _ & (k & _ & [= <-])%rbind_inv)%rbind_inv)%rbind_inv)%rbind_inv.
  by exists out.
Qed.

Lemma step_inputs_until paced u inputs : forall previous (r : Replay Store Hash),
  core_inv (rp_core r) -> tc_engine_seq (rp_core r) + Z.of_nat (length inputs) <= u32_max ->
  Forall input_wf inputs ->
  Sim.step_inputs paced (Some u) inputs previous r
  = Driver.run r (take (Z.to_nat (Z.max (u - tc_engine_seq (rp_core r)) 1)) inputs).
Proof.
  induction inputs as [| i inputs IH]; intros previous r I Hn Hw.
  - by rewrite take_nil.
  - apply Forall_cons in Hw as [Hi Hw]. cbn [length] in Hn. cbn [Sim.step_inputs].
    destruct (pace paced i previous) as [d p].
    destruct (Z.to_nat (Z.max (u - tc_engine_seq (rp_core r)) 1)) as [| k] eqn:Ek; [lia |]. cbn [take Driver.run].
    destruct (Driver.step r i) as [r' |] eqn:Er; [| done]. cbn [rbind].
    destruct (driver_step_inv r r' i Er) as (out & Ea).
    destruct (apply_input_ok (rp_core r) i I) as (c' & o' & Ea' & A); [lia | done |].
    rewrite Ea in Ea'. injection Ea' as <- <-. pose proof (ap_seq _ _ _ _ A) as Hseq.
    destruct (Z.leb_spec u (tc_engine_seq (rp_core r'))).
    + replace k with 0%nat by lia. done.
    + rewrite (IH p r') by (apply A || lia || done). do 2 f_equal. lia.
Qed.

(** What [step] returns, against the engine on the same inputs. *)
Record stepped_to (seed : Z) (ins : list EngineInput) (interval : Z) (r : Replay Store Hash)
    (result : ReplayResult) : Prop := {
  st_driver : Driver.run (Driver.new (Core.new (single_instrument seed)) interval) ins = Ret r;
  st_seq : tc_engine_seq (rp_core r) = Z.of_nat (length ins);
  st_inputs : rr_inputs result = Z.of_nat (length ins);
  st_engine : exists out, engine_run (Core.new (single_instrument seed)) ins = Ret (rp_core r, out)
    /\ rr_outputs result = Z.of_nat (length out)
    /\ rr_input_digest result = blake3_hash (mjoin (input_bytes <$> ins))
    /\ rr_output_digest result = blake3_hash (mjoin (output_bytes <$> out))
    /\ state_digest (rp_core r) = Ret (rr_state_digest result)
}.

Lemma step_returns seed events until interval paced :
  Z.of_nat events <= 1000000000 -> 0 < interval <= u64_max ->
  exists inputs r result, Sim.workload seed events false false = Ret inputs
    /\ emitted (Sim.workload_config seed events false false) inputs
    /\ Sim.step seed events until interval paced = Ret (r, result)
    /\ stepped_to seed (until_prefix until inputs) interval r result.
Proof.
  intros He Hi. destruct (workload_ok seed events false false He) as (inputs & E & Em & Hl).
  pose proof (emitted_wf _ _ Em) as Hw. set (c0 := Core.new (S := Store) (single_instrument seed)).
  assert (I0 : core_inv c0) by apply new_core_inv, single_instrument_wf.
  assert (Hpre : (length (until_prefix until inputs) <= length inputs)%nat)
    by (unfold until_prefix; destruct until; rewrite ?length_take; lia).
  destruct (driver_run_ok (S := Store) (H := Hash) c0 interval (proj1 Hi) (until_prefix until inputs) I0)
    as (c & out & r & Er & Ed & Ec & _ & [R1 R2 R3 R4] & _ & I & Sq & _); try done; [mach | apply Hi | |].
  { unfold until_prefix. destruct until; [by apply Forall_take | done]. }
  destruct (state_view_total c I) as [v Hv]. apply (state_digest_view (B := hash_blake3)) in Hv.
  exists inputs, r. unfold Sim.step. rewrite E. cbn [rbind]. fold c0.
  assert (Es : Sim.step_inputs paced until inputs (from_option in_recv_time_ns 0 (head inputs))
                 (Driver.new c0 interval) = Ret r).
  { rewrite <- Ed. destruct until as [u |]; [| apply step_inputs_all].
    rewrite step_inputs_until by (done || (simpl; mach)). simpl. by rewrite Z.sub_0_r. }
  rewrite Es. cbn [rbind]. unfold Driver.finish. rewrite Ec, Hv. cbn [rbind]. eexists.
  split; [done |]. split; [done |]. split; [done |]. constructor; try done; [by rewrite Ec |].
  exists out. simpl. unfold Recorder.input_digest, Recorder.output_digest.
  rewrite R1, R2, !finalize_updates, Ec. by split_and!.
Qed.

(** [step] stops where it is told to.  For every seed, up to a billion events
    and every checkpoint interval, [step] returns; it has applied the workload
    up to the engine sequence [until] (its first input even when [until] is
    zero, the whole workload without [until]), the engine stands at that
    sequence, and pacing changes nothing. *)
Theorem step_stops_at_until seed events until interval paced :
  Z.of_nat events <= 1000000000 -> 0 < interval <= u64_max ->
  exists inputs r result, Sim.workload seed events false false = Ret inputs
    /\ Sim.step seed events until interval paced = Ret (r, result)
    /\ Driver.run (Driver.new (Core.new (single_instrument seed)) interval) (until_prefix until inputs)
       = Ret r
    /\ tc_engine_seq (rp_core r) = Z.of_nat (length (until_prefix until inputs))
    /\ rr_inputs result = Z.of_nat (length (until_prefix until inputs)).
Proof.
  intros He Hi. destruct (step_returns seed events until interval paced He Hi)
    as (inputs & r & result & E & _ & Es & [S1 S2 S3 _]).
  exists inputs, r, result. by split_and!.
Qed.

(** * Threaded runs *)

Lemma control_default_untouched :
  exists control, control_default = Ret control /\ untouched control.
Proof.
  unfold control_default, control_new. simpl.
  destruct (aq_new_ok (AQ := commands_queue) 64) as (q1 & E1 & Eq & _); [lia |].
  destruct (aq_new_ok (AQ := snapshots_queue) 4) as (q2 & E2 & _ & _); [lia |].
  unfold aq_new in *. rewrite E1, E2. eexists. split; [done |]. by split_and!.
Qed.

(** The digests and counts of an undisturbed run of [source]. *)
Record evidence (run_id : Z) (source : FeedSource) (summary : RunSummary) : Prop := {
  ev_run : exists c out,
    engine_run (S := Store) (Core.new (single_instrument run_id)) (feed_stream (feed_inputs source))
      = Ret (c, out)
    /\ rs_inputs summary = Z.of_nat (length (feed_inputs source))
    /\ rs_outputs summary = Z.of_nat (length out)
    /\ rs_input_digest summary = blake3_hash (mjoin (input_bytes <$> feed_stream (feed_inputs source)))
    /\ rs_output_digest summary = blake3_hash (mjoin (output_bytes <$> out))
    /\ state_digest c = Ret (rs_state_digest summary)
}.

Lemma run_default_summary schedule run_id cfg source summary :
  setup_wf (single_instrument run_id) cfg source None ->
  2 * Z.of_nat (length (feed_inputs source)) < u32_max ->
  Forall (fun i => is_control i = false) (feed_inputs source) ->
  Forall (fun a => watches a = true) schedule ->
  Sim.run_default schedule (single_instrument run_id) cfg source = Ret (Some (Ok summary)) ->
  exists c out writer,
    engine_run (S := Store) (Core.new (single_instrument run_id)) (feed_stream (feed_inputs source))
      = Ret (c, out)
    /\ summarises (single_instrument run_id) cfg None writer (FromFeed <$> feed_inputs source) out c
         summary.
Proof.
  intros W Hb Hf Hw. destruct control_default_untouched as (control & Ec & U).
  unfold Sim.run_default. rewrite Ec. cbn [rbind]. intros ([sy log] & Er & [= Hj])%rbind_inv.
  destruct (quiet_summary _ _ _ _ _ _ _ _ _ W Hb Hf U Hw Er Hj) as (c & out & R & Sm). eauto.
Qed.

Lemma run_default_evidence schedule run_id cfg source summary :
  setup_wf (single_instrument run_id) cfg source None ->
  2 * Z.of_nat (length (feed_inputs source)) < u32_max ->
  Forall (fun i => is_control i = false) (feed_inputs source) ->
  Forall (fun a => watches a = true) schedule ->
  Sim.run_default schedule (single_instrument run_id) cfg source = Ret (Some (Ok summary)) ->
  evidence run_id source summary.
Proof.
  intros W Hb Hf Hw Er.
  destruct (run_default_summary _ _ _ _ _ W Hb Hf Hw Er) as (c & out & writer & R & Sm).
  constructor. exists c, out. destruct Sm. rewrite length_fmap in *. by split_and!.
Qed.

(** A run without a journal that nobody disturbs ends with a summary. *)
Lemma run_default_ends schedule run_id cfg source :
  setup_wf (single_instrument run_id) cfg source None -> pc_journal_path cfg = None ->
  2 * Z.of_nat (length (feed_inputs source)) < u32_max ->
  (0 < pc_input_capacity cfg)%nat -> (0 < pc_output_capacity cfg)%nat -> fair schedule ->
  exists k summary,
    Sim.run_default (steps schedule 0 k) (single_instrument run_id) cfg source = Ret (Some (Ok summary)).
Proof.
  intros W Hjp Hb Hi Ho F. destruct control_default_untouched as (control & Ec & U).
  pose proof U as (_ & Hq & _).
  destruct (fair_finishes _ _ _ _ W schedule 0 _ _ Hi Ho F (start_inv _ _ _ _ W control))
    as (k & sy & Er & [result Hj]).
  { unfold in_budget. simpl. rewrite Hq. simpl. lia. }
  assert (Hn : submits (steps schedule 0 k) = 0%nat) by by apply watches_submits, fair_watches.
  destruct (unjournalled_result _ _ _ W Hjp control (steps schedule 0 k) sy [] result) as [summary ->];
    [unfold schedule_fits; rewrite Hq, Hn; simpl; lia | done | done |].
  exists k, summary. unfold Sim.run_default. rewrite Ec. cbn [rbind]. rewrite Er. cbn [rbind].
  by rewrite Hj.
Qed.

Lemma evidence_unique run_id source a b :
  evidence run_id source a -> evidence run_id source b -> Sim.digests_match a b = true.
Proof.
  intros [(c & out & R & _ & _ & H1 & H2 & H3)] [(c' & out' & R' & _ & _ & H1' & H2' & H3')].
  rewrite R in R'. injection R' as <- <-. unfold Sim.digests_match.
  rewrite !bool_decide_true by congruence. done.
Qed.

(** A source that [load_source] gives: the workload of the seed, or a readable
    feed file of less than 2 GiB. *)
Definition loadable (input : option Path) : Prop :=
  match input with
  | None => True
  | Some path => exists bs h n, read_file path = Ok bs /\ Forall is_byte bs
      /\ 2 * Z.of_nat (length bs) < u32_max /\ decode_header crc32 bs = Ret (Ok (h, n))
  end.

Lemma load_source_ok input seed events :
  loadable input -> Z.of_nat events <= 1000000000 ->
  exists source run_id, Sim.load_source read_file input seed events = Ret (Ok (source, run_id))
    /\ source_wf source /\ 2 * Z.of_nat (length (feed_inputs source)) < u32_max
    /\ Forall (fun i => is_control i = false) (feed_inputs source).
Proof.
  intros Hl He. destruct input as [path |]; simpl in Hl |- *.
  - destruct Hl as (bs & h & n & -> & Hb & Hn & Hd). rewrite Hd. cbn [rbind]. do 2 eexists.
    split; [done |]. split; [split; [done | mach] |]. unfold feed_inputs. rewrite Hd.
    destruct (decode_feed_uncontrolled bs (length bs - n) n 0) as [H1 H2]. unfold frames_after.
    split; [lia | done].
  - destruct (workload_ok seed events false false He) as (inputs & E & Em & Hlen). rewrite E. cbn [rbind].
    do 2 eexists. split; [done |]. simpl. split; [by eapply emitted_wf |].
    split; [mach | by eapply emitted_uncontrolled].
Qed.

Lemma default_setup run_id source :
  source_wf source -> setup_wf (single_instrument run_id) pipeline_default source None.
Proof. intros Hs. constructor; try done. apply single_instrument_wf. Qed.

(** A turn of [verify] on a fair schedule ends with the evidence. *)
Lemma verify_run_ends schedule input seed events :
  loadable input -> Z.of_nat events <= 1000000000 -> fair schedule ->
  exists source run_id k summary,
    Sim.load_source read_file input seed events = Ret (Ok (source, run_id))
    /\ Sim.verify_run read_file (steps schedule 0 k) input seed events = Ret (Some (Ok summary))
    /\ evidence run_id source summary.
Proof.
  intros Hl He F. destruct (load_source_ok input seed events Hl He) as (source & run_id & E & Hs & Hb & Hf).
  pose proof (default_setup run_id source Hs) as W. pose proof (fun k => fair_watches schedule 0 k F) as Hw.
  destruct (run_default_ends schedule run_id pipeline_default source W eq_refl Hb ltac:(simpl; lia)
              ltac:(simpl; lia) F)
    as (k & summary & Hrun).
  exists source, run_id, k, summary. split; [done |]. split.
  - unfold Sim.verify_run. rewrite E. cbn [rbind]. by rewrite Hrun.
  - by eapply run_default_evidence.
Qed.

(** C34: A recorded feed is the workload.  [generate] returns for every seed and
    up to a billion events; the file it writes has one frame per input; loading
    it gives back the seed as the run's identity; and a threaded run of the file
    that nobody disturbs, on any fair schedule and with any configuration without
    a journal whose queues hold at least one element, ends with a summary: the
    feed thread has delivered exactly the inputs of the workload, with their
    numbers and times, and the captured inputs and the input digest are theirs. *)
Theorem generated_file_reads_back now seed events gaps duplicates :
  in_u64 seed -> Z.of_nat events <= 1000000000 ->
  exists inputs bs, Sim.workload seed events gaps duplicates = Ret inputs
    /\ Sim.generate now seed events gaps duplicates = Ret (bs, Z.of_nat (length inputs))
    /\ (forall path other n, read_file path = Ok bs ->
          Sim.load_source read_file (Some path) other n = Ret (Ok (Bytes bs, seed)))
    /\ forall cfg schedule, pc_journal_path cfg = None ->
         (0 < pc_input_capacity cfg)%nat -> (0 < pc_output_capacity cfg)%nat ->
         wait_wf (pc_wait cfg) -> 0 <= pc_snapshot_interval cfg <= u64_max ->
         Z.of_nat (pc_snapshot_depth cfg) * 2 <= u64_max -> fair schedule ->
         exists k summary,
           Sim.run_default (steps schedule 0 k) (single_instrument seed) cfg (Bytes bs)
             = Ret (Some (Ok summary))
           /\ rs_inputs summary = Z.of_nat (length inputs)
           /\ rs_feed_inputs summary = Z.of_nat (length inputs)
           /\ rs_captured_inputs summary = (if pc_capture_inputs cfg then inputs else [])
           /\ rs_input_digest summary = blake3_hash (mjoin (input_bytes <$> inputs)).
Proof.
  intros Hs He. destruct (generate_file now seed events gaps duplicates Hs He) as (inputs & E & Em & Hl & Eg).
  destruct (file_inputs now seed _ inputs Hs Em) as (Hd & Hf & Hb & Hsz); [mach |].
  set (bs := header_bytes crc32 (lab_header now seed) ++ feed_bytes inputs) in *.
  exists inputs, bs. split_and!; try done.
  - intros path other n Hr. unfold Sim.load_source. rewrite Hr, Hd. done.
  - intros cfg schedule Hj Hi Ho Hw Hsi Hsd F.
    assert (W : setup_wf (single_instrument seed) cfg (Bytes bs) None)
      by (constructor; try done; apply single_instrument_wf).
    assert (Hn : 2 * Z.of_nat (length (feed_inputs (Bytes bs))) < u32_max) by (rewrite Hf; mach).
    assert (Hu : Forall (fun i => is_control i = false) (feed_inputs (Bytes bs)))
      by (rewrite Hf; by eapply emitted_uncontrolled).
    destruct (run_default_ends schedule seed cfg (Bytes bs) W Hj Hn Hi Ho F) as (k & summary & Er).
    destruct (run_default_summary _ _ _ _ _ W Hn Hu (fair_watches schedule 0 k F) Er)
      as (c & out & writer & _ & [S1 S2 S3 _ _ _ _ _ _ _ S4 _ _]).
    rewrite Hf in *. fold (feed_stream inputs) in S3, S4. rewrite (emitted_stream _ _ Em) in S3, S4.
    rewrite length_fmap in S1. exists k, summary. split_and!; try done.
    rewrite S2. do 2 f_equal. apply fed_feed.
Qed.

Lemma ret_pair_inj {A B} (a c : A) (b d : B) : Ret (a, b) = Ret (c, d) -> a = c /\ b = d.
Proof. by intros [= -> ->]. Qed.

(** The workload is what is loaded, from memory or from its file. *)
Lemma source_loads input seed events inputs :
  in_u64 seed -> Z.of_nat events <= 1000000000 -> Sim.workload seed events false false = Ret inputs ->
  emitted (Sim.workload_config seed events false false) inputs ->
  input = None
  \/ (exists path now bs n, input = Some path /\ read_file path = Ok bs
        /\ Sim.generate now seed events false false = Ret (bs, n)) ->
  exists source, Sim.load_source read_file input seed events = Ret (Ok (source, seed))
    /\ feed_inputs source = inputs /\ source_wf source
    /\ 2 * Z.of_nat (length inputs) < u32_max.
Proof.
  intros Hs He E Em Hin.
  destruct (generate_file None seed events false false Hs He) as (inputs' & E' & _ & Hl & _).
  rewrite E in E'. injection E' as <-. destruct Hin as [-> | (path & now & bs & n & -> & Hr & Hg)].
  - exists (Memory inputs). simpl. rewrite E. split; [done |]. split; [done |].
    split; [by eapply emitted_wf | mach].
  - destruct (generate_file now seed events false false Hs He) as (inputs' & E' & _ & _ & Eg).
    rewrite E in E'. injection E' as <-. rewrite Hg in Eg. apply ret_pair_inj in Eg as [Eb _].
    destruct (file_inputs now seed _ inputs Hs Em) as (Hd & Hf & Hb & Hsz); [mach |].
    rewrite <- Eb in Hd, Hf, Hb, Hsz. exists (Bytes bs).
    split; [unfold Sim.load_source; by rewrite Hr, Hd |]. split; [done |]. split; [done | mach].
Qed.

(** The two replays agree.  A threaded replay of a workload, from memory or
    from the file that [generate] wrote for it, that ends without an error and
    undisturbed has the counts and the input, output and state digests of the
    single-threaded replay, whatever the schedule, the capacities, the wait
    strategy and the journal are. *)
Theorem replay_matches_step schedule input seed events journal checkpoints capacity wait sync summary
    interval paced :
  in_u64 seed -> Z.of_nat events <= 1000000000 -> 0 < interval <= u64_max -> wait_wf wait ->
  Forall (fun a => watches a = true) schedule ->
  input = None
  \/ (exists path now bs n, input = Some path /\ read_file path = Ok bs
        /\ Sim.generate now seed events false false = Ret (bs, n)) ->
  Sim.replay read_file schedule input seed events journal checkpoints capacity wait sync
  = Ret (Some (Ok summary)) ->
  exists r result, Sim.step seed events None interval paced = Ret (r, result)
    /\ rr_inputs result = rs_inputs summary /\ rr_outputs result = rs_outputs summary
    /\ rr_input_digest result = rs_input_digest summary
    /\ rr_output_digest result = rs_output_digest summary
    /\ rr_state_digest result = rs_state_digest summary.
Proof.
  intros Hs He Hi Hwt Hw Hin Hrep.
  destruct (step_returns seed events None interval paced He Hi)
    as (inputs & r & result & E & Em & Es & [_ _ S3 (out & So & S4 & S5 & S6 & S7)]). simpl in *.
  exists r, result. split; [done |].
  destruct (source_loads input seed events inputs Hs He E Em Hin) as (source & El & Ef & Hsw & Hb).
  unfold Sim.replay in Hrep. rewrite El in Hrep. cbn [rbind] in Hrep.
  apply rbind_inv in Hrep as (o & Hr & Ho). destruct o as [[s' |] |]; try done. injection Ho as <-.
  apply run_default_evidence in Hr; try done.
  - destruct Hr as [(c & out' & Er & H1 & H2 & H3 & H4 & H5)].
    rewrite Ef, (emitted_stream _ _ Em) in *. rewrite So in Er. injection Er as <- <-.
    split_and!; congruence.
  - constructor; try done. apply single_instrument_wf.
  - by rewrite Ef.
  - rewrite Ef. by eapply emitted_uncontrolled.
Qed.

(** [verify] succeeds.  On the workload of any seed and up to a billion
    events, and on any readable feed file of less than 2 GiB, malformed frames
    included, the two runs of [verify] end under every pair of fair schedules
    and it reports identical digests. *)
Theorem verify_succeeds schedule1 schedule2 input seed events :
  loadable input -> Z.of_nat events <= 1000000000 -> fair schedule1 -> fair schedule2 ->
  exists k1 k2,
    Sim.verify read_file (steps schedule1 0 k1) (steps schedule2 0 k2) input seed events
    = Ret (Some (Ok tt)).
Proof.
  intros Hl He F1 F2.
  destruct (verify_run_ends schedule1 input seed events Hl He F1) as (source & run_id & k1 & a & E & Ea & Va).
  destruct (verify_run_ends schedule2 input seed events Hl He F2) as (s' & i' & k2 & b & E' & Eb & Vb).
  rewrite E in E'. injection E' as <- <-. exists k1, k2. unfold Sim.verify. rewrite Ea. cbn [rbind].
  rewrite Eb. cbn [rbind]. by rewrite (evidence_unique _ _ _ _ Va Vb).
Qed.

(** The file of up to ten million events is less than 2 GiB. *)
Lemma generated_loadable now seed events path bs n gaps duplicates :
  in_u64 seed -> Z.of_nat events <= 10000000 -> read_file path = Ok bs ->
  Sim.generate now seed events gaps duplicates = Ret (bs, n) -> loadable (Some path).
Proof.
  intros Hs He Hr Hg.
  destruct (generate_file now seed events gaps duplicates Hs) as (inputs & _ & Em & Hl & Eg); [lia |].
  rewrite Hg in Eg. apply ret_pair_inj in Eg as [Eb _].
  destruct (file_inputs now seed _ inputs Hs Em) as (Hd & _ & Hb & _); [mach |]. rewrite <- Eb in Hd, Hb.
  do 3 eexists. split; [done |]. split; [done |]. split; [| done]. rewrite Eb.
  rewrite length_app, header_bytes_length by by apply lab_header_wf.
  pose proof (feed_bytes_length inputs). simpl. mach.
Qed.

End Theorems.

(** * Concrete commands *)

(** The file that [generate] writes for seed 7, read by every path. *)
Definition sample_file (events : nat) : bytes :=
  match Sim.generate (P := list_platform) (Some 5) 7 events false false with
  | Ret (bs, _) => bs
  | Panic => []
  end.

Definition sample_read (path : unit) : Result bytes unit := Ok (sample_file 3).

Lemma step_stops_at_until_witness :
  exists inputs r result, Sim.workload 7 40 false false = Ret inputs
    /\ Sim.step (P := list_platform) 7 40 (Some 12) 10 true = Ret (r, result)
    /\ Driver.run (Driver.new (Core.new (single_instrument 7)) 10) (until_prefix (Some 12) inputs)
       = Ret r
    /\ tc_engine_seq (rp_core r) = Z.of_nat (length (until_prefix (Some 12) inputs))
    /\ rr_inputs result = Z.of_nat (length (until_prefix (Some 12) inputs)).
Proof. apply (step_stops_at_until (P := list_platform)); lia. Defined.

Lemma sample_file_generated :
  exists n, Sim.generate (P := list_platform) (Some 5) 7 3 false false = Ret (sample_file 3, n).
Proof.
  unfold sample_file. destruct (generate_file (P := list_platform) (Some 5) 7 3 false false) as (i & _ & _ & _ & ->);
    [done | lia |]. by eexists.
Qed.

(** Queues of four, with the inputs captured. *)
Definition capturing : PipelineConfig (P := list_platform) :=
  mkPipelineConfig 4 4 64 (Adaptive 1 1) None Buffered true 0 0 16 false.

Lemma capturing_ranges :
  wait_wf (pc_wait capturing) /\ 0 <= pc_snapshot_interval capturing <= u64_max
  /\ Z.of_nat (pc_snapshot_depth capturing) * 2 <= u64_max.
Proof. split_and!; done || (simpl; lia). Qed.

Lemma generated_file_reads_back_witness :
  exists inputs n, Sim.workload 7 3 false false = Ret inputs
    /\ Sim.generate (P := list_platform) (Some 5) 7 3 false false = Ret (sample_file 3, n)
    /\ Sim.load_source (P := list_platform) sample_read (Some tt) 0 0 = Ret (Ok (Bytes (sample_file 3), 7))
    /\ exists k summary,
         Sim.run_default (P := list_platform) (steps turns 0 k) (single_instrument 7) capturing
           (Bytes (sample_file 3)) = Ret (Some (Ok summary))
         /\ rs_inputs summary = Z.of_nat (length inputs)
         /\ rs_captured_inputs summary = inputs.
Proof.
  assert (Hs : in_u64 7) by done. assert (He : Z.of_nat 3 <= 1000000000) by lia.
  destruct sample_file_generated as [n Eg].
  destruct (generated_file_reads_back (P := list_platform) sample_read (Some 5) 7 3 false false Hs He)
    as (inputs & bs & Ew & Eb & Hload & Hrun).
  rewrite Eg in Eb. apply ret_pair_inj in Eb as [<- ->]. exists inputs, (Z.of_nat (length inputs)).
  split; [exact Ew |]. split; [exact Eg |]. split; [exact (Hload tt 0 0%nat eq_refl) |].
  destruct capturing_ranges as (Hw & Hi & Hd). destruct (Hrun capturing turns eq_refl (Nat.lt_0_succ 3) (Nat.lt_0_succ 3) Hw Hi Hd turns_fair)
    as (k & summary & Er & H1 & _ & H2 & _).
  exists k, summary. split; [exact Er |]. split; [exact H1 | exact H2].
Defined.

Lemma sample_loadable : loadable (P := list_platform) sample_read (Some tt).
Proof.
  assert (Hs : in_u64 7) by done. assert (He : Z.of_nat 3 <= 10000000) by lia.
  destruct sample_file_generated as [n Eg].
  exact (generated_loadable (P := list_platform) sample_read (Some 5) 7 3 tt (sample_file 3) n false false
           Hs He eq_refl Eg).
Qed.

Lemma verify_succeeds_witness :
  exists k1 k2,
    Sim.verify (P := list_platform) sample_read (steps turns 0 k1) (steps turns 0 k2) (Some tt) 0 0
    = Ret (Some (Ok tt)).
Proof.
  apply (verify_succeeds (P := list_platform) sample_read turns turns (Some tt) 0 0).
  - apply sample_loadable.
  - lia.
  - apply turns_fair.
  - apply turns_fair.
Defined.

(** A threaded replay of the file, with queues of four. *)
Abbreviation sample_replay :=
  (Sim.replay (P := list_platform) sample_read (steps turns 0 1200) (Some tt) 7 3 None 0 4 BusySpin Buffered)
  (only parsing).

Definition replayed : bool :=
  match sample_replay with Ret (Some (Ok _)) => true | _ => false end.

Lemma replayed_ok : replayed = true -> exists summary, sample_replay = Ret (Some (Ok summary)).
Proof. unfold replayed. destruct sample_replay as [[[s |] |] |]; try done. by exists s. Qed.

Lemma replay_matches_step_witness :
  exists summary r result, sample_replay = Ret (Some (Ok summary))
    /\ Sim.step (P := list_platform) 7 3 None 10 true = Ret (r, result)
    /\ rr_inputs result = rs_inputs summary /\ rr_outputs result = rs_outputs summary
    /\ rr_input_digest result = rs_input_digest summary
    /\ rr_output_digest result = rs_output_digest summary
    /\ rr_state_digest result = rs_state_digest summary.
Proof.
  assert (Hs : in_u64 7) by done. assert (He : Z.of_nat 3 <= 1000000000) by lia.
  assert (Hi : 0 < 10 <= u64_max) by lia. assert (Hr : replayed = true) by by vm_compute.
  assert (Hw : Forall (fun a => watches a = true) (steps turns 0 1200)) by apply fair_watches, turns_fair.
  destruct sample_file_generated as [n Eg]. destruct (replayed_ok Hr) as [summary E].
  destruct (replay_matches_step (P := list_platform) sample_read (steps turns 0 1200) (Some tt) 7 3 None 0 4
              BusySpin Buffered summary 10 true Hs He Hi I Hw
              (or_intror (ex_intro _ tt (ex_intro _ (Some 5) (ex_intro _ (sample_file 3)
                 (ex_intro _ n (conj eq_refl (conj eq_refl Eg))))))) E) as (r & result & H).
  exists summary, r, result. exact (conj E H).
Defined.
