(* ===== verification/Json.v ===== *)
(** JSON projections of the engine's output
    ([crates/control-gateway/src/json.rs]), and that they lose nothing.

    [Value] is the data type of [serde_json]; the order of an object's fields is
    the one in which they are written.  [pretty] is the decimal representation
    that [to_string] gives. *)

From stdpp Require Import strings pretty.
From S2P Require Import Prelude Enums Ids Events CoreState Account Snapshot.

#[warnings="-register-all"]
Inductive Value :=
| Null
| Bool (b : bool)
| Number (n : Z)
| Str (s : string)
| Array (items : list Value)
| Object (fields : list (string * Value)).

(** [x.to_string()] as a JSON string. *)
Definition wide (n : Z) : Value := Str (pretty n).

(** [value.map(..)] as JSON: [None] is [null]. *)
Definition optional {A} (f : A -> Value) (o : option A) : Value :=
  match o with Some a => f a | None => Null end.

(** * Labels *)

Module Label.

Definition reject (r : RejectReason.t) : string :=
  match r with
  | RejectReason.MalformedRequest => "malformed_request"
  | RejectReason.UnknownInstrument => "unknown_instrument"
  | RejectReason.UnknownAccount => "unknown_account"
  | RejectReason.UnknownOrder => "unknown_order"
  | RejectReason.InvalidSide => "invalid_side"
  | RejectReason.InvalidOrderType => "invalid_order_type"
  | RejectReason.InvalidPrice => "invalid_price"
  | RejectReason.InvalidQuantity => "invalid_quantity"
  | RejectReason.PriceNotAligned => "price_not_aligned"
  | RejectReason.QuantityNotAligned => "quantity_not_aligned"
  | RejectReason.DuplicateRequestConflict => "duplicate_request_conflict"
  | RejectReason.SequenceTooOld => "sequence_too_old"
  | RejectReason.SequenceOutOfOrder => "sequence_out_of_order"
  | RejectReason.DuplicateClientOrderId => "duplicate_client_order_id"
  | RejectReason.AccountDisabled => "account_disabled"
  | RejectReason.GlobalKillActive => "global_kill_active"
  | RejectReason.MarketDataUnsynchronized => "market_data_unsynchronized"
  | RejectReason.MarketDataStale => "market_data_stale"
  | RejectReason.MaxOrderQuantity => "max_order_quantity"
  | RejectReason.MaxOrderNotional => "max_order_notional"
  | RejectReason.PriceCollar => "price_collar"
  | RejectReason.MaxPosition => "max_position"
  | RejectReason.MaxGrossExposure => "max_gross_exposure"
  | RejectReason.CapacityExhausted => "capacity_exhausted"
  | RejectReason.ArithmeticOverflow => "arithmetic_overflow"
  | RejectReason.OrderAlreadyTerminal => "order_already_terminal"
  | RejectReason.InvalidReplaceQuantity => "invalid_replace_quantity"
  | RejectReason.NoReferencePrice => "no_reference_price"
  end.

Definition feed (s : FeedState.t) : string :=
  match s with
  | FeedState.Unsynchronized => "unsynchronized"
  | FeedState.ApplyingSnapshot => "applying_snapshot"
  | FeedState.Live => "live"
  | FeedState.Gap => "gap"
  end.

(** [format!("{:?}", ..).to_lowercase()]. *)
Definition report_kind (k : ReportKind.t) : string :=
  match k with
  | ReportKind.Accepted => "accepted"
  | ReportKind.Rejected => "rejected"
  | ReportKind.PartiallyFilled => "partiallyfilled"
  | ReportKind.Filled => "filled"
  | ReportKind.Cancelled => "cancelled"
  | ReportKind.Replaced => "replaced"
  end.

Definition order_state (s : OrderState.t) : string :=
  match s with
  | OrderState.Working => "working"
  | OrderState.PartiallyFilled => "partiallyfilled"
  | OrderState.Filled => "filled"
  | OrderState.Cancelled => "cancelled"
  end.

Definition order_type (o : OrderType.t) : string :=
  match o with OrderType.Limit => "limit" | OrderType.Market => "market" end.

Definition side (s : Side.t) : string :=
  match s with Side.Buy => "buy" | Side.Sell => "sell" end.

End Label.

(** * Events *)

Definition json_state_event (event : EngineStateEvent.t) : Value :=
  match event with
  | EngineStateEvent.KillSwitchEngaged => Object [("type", Str "killSwitchEngaged")]
  | EngineStateEvent.KillSwitchReleased => Object [("type", Str "killSwitchReleased")]
  | EngineStateEvent.AccountEnabledChanged account enabled =>
      Object [("type", Str "accountEnabledChanged"); ("account", Number account);
              ("enabled", Bool enabled)]
  | EngineStateEvent.AccountLimitsChanged account =>
      Object [("type", Str "accountLimitsChanged"); ("account", Number account)]
  | EngineStateEvent.FeedStateChanged instrument state =>
      Object [("type", Str "feedStateChanged"); ("instrument", Number instrument);
              ("feedState", Str (Label.feed state))]
  end.

Definition json_trade (t : TradeEvent) : Value :=
  Object [("kind", Str "trade");
          ("outputSeq", wide (tr_output_seq t));
          ("engineSeq", wide (tr_engine_seq t));
          ("engineTimeNs", wide (tr_engine_time_ns t));
          ("tradeId", wide (tr_trade_id t));
          ("instrument", Number (tr_instrument t));
          ("makerOrderId", wide (tr_maker_order_id t));
          ("takerOrderId", wide (tr_taker_order_id t));
          ("makerAccount", Number (tr_maker_account t));
          ("takerAccount", Number (tr_taker_account t));
          ("aggressor", Str (Label.side (tr_aggressor t)));
          ("priceTicks", wide (tr_price t));
          ("quantityLots", wide (tr_quantity t))].

Definition json_report (r : ExecutionReport) : Value :=
  Object [("kind", Str "report");
          ("outputSeq", wide (rep_output_seq r));
          ("engineSeq", wide (rep_engine_seq r));
          ("engineTimeNs", wide (rep_engine_time_ns r));
          ("account", Number (rep_account r));
          ("instrument", Number (rep_instrument r));
          ("requestId", wide (rep_request_id r));
          ("clientOrderId", wide (rep_client_order_id r));
          ("orderId", wide (rep_order_id r));
          ("reportKind", Str (Label.report_kind (rep_kind r)));
          ("orderState", Str (Label.order_state (rep_state r)));
          ("side", Str (Label.side (rep_side r)));
          ("orderType", Str (Label.order_type (rep_order_type r)));
          ("priceTicks", wide (rep_price r));
          ("totalQuantityLots", wide (rep_total_quantity r));
          ("cumulativeFilledLots", wide (rep_cumulative_filled r));
          ("remainingLots", wide (rep_remaining r));
          ("lastFillQuantityLots", wide (rep_last_fill_quantity r));
          ("lastFillPriceTicks", wide (rep_last_fill_price r));
          ("rejectReason", optional (fun reason => Str (Label.reject reason)) (rep_reject_reason r))].

Definition json_output_event (event : OutputEvent.t) : Value :=
  match event with
  | OutputEvent.Trade trade => json_trade trade
  | OutputEvent.Report report => json_report report
  | OutputEvent.State state =>
      Object [("kind", Str "state");
              ("outputSeq", wide (st_output_seq state));
              ("engineSeq", wide (st_engine_seq state));
              ("engineTimeNs", wide (st_engine_time_ns state));
              ("event", json_state_event (st_event state))]
  end.

(** * Snapshots *)

Definition json_level (l : LevelSnapshot) : Value :=
  Object [("side", Str (Label.side (ls_side l)));
          ("priceTicks", wide (ls_price l));
          ("quantityLots", wide (ls_quantity l));
          ("orderCount", Number (ls_order_count l))].

Definition json_order (o : OrderSnapshot) : Value :=
  Object [("orderId", wide (os_order_id o));
          ("account", Number (os_account o));
          ("clientOrderId", wide (os_client_order_id o));
          ("side", Str (Label.side (os_side o)));
          ("priceTicks", wide (os_price o));
          ("totalQuantityLots", wide (os_total_quantity o));
          ("cumulativeFilledLots", wide (os_cumulative_filled o))].

Definition json_instrument (i : InstrumentSnapshot) : Value :=
  Object [("instrument", Number (in_instrument i));
          ("symbol", Str (in_symbol i));
          ("feedState", Str (Label.feed (in_feed_state i)));
          ("lastSourceSeq", wide (in_last_source_seq i));
          ("marketBestBidTicks", optional wide (in_best_bid i));
          ("marketBestAskTicks", optional wide (in_best_ask i));
          ("bookLevels", Array (json_level <$> in_levels i));
          ("bookOrders", Array (json_order <$> in_orders i))].

Definition json_position (p : PositionSnapshot) : Value :=
  Object [("account", Number (ps_account p));
          ("instrument", Number (ps_instrument p));
          ("positionLots", wide (ps_position_lots p));
          ("openBuyLots", wide (ps_open_buy_lots p));
          ("openSellLots", wide (ps_open_sell_lots p));
          ("openBuyNotional", wide (ps_open_buy_notional p));
          ("openSellNotional", wide (ps_open_sell_notional p))].

Definition json_metrics (m : EngineMetrics) : Value :=
  Object [("inputsApplied", wide (inputs_applied m));
          ("requestsAccepted", wide (requests_accepted m));
          ("requestsRejected", wide (requests_rejected m));
          ("reportsEmitted", wide (reports_emitted m));
          ("trades", wide (trades m));
          ("marketEvents", wide (market_events m));
          ("controlEvents", wide (control_events m))].

Definition json_snapshot (s : EngineSnapshot) : Value :=
  Object [("runId", wide (es_run_id s));
          ("asOfEngineSeq", wide (es_as_of_engine_seq s));
          ("engineTimeNs", wide (es_engine_time_ns s));
          ("globalKill", Bool (es_global_kill s));
          ("metrics", json_metrics (es_metrics s));
          ("instruments", Array (json_instrument <$> es_instruments s));
          ("positions", Array (json_position <$> es_positions s))].

(** * Nothing is lost *)

#[export] Instance label_reject_inj : Inj (=) (=) Label.reject.
Proof. by intros [] []. Qed.
#[export] Instance label_feed_inj : Inj (=) (=) Label.feed.
Proof. by intros [] []. Qed.
#[export] Instance label_report_kind_inj : Inj (=) (=) Label.report_kind.
Proof. by intros [] []. Qed.
#[export] Instance label_order_state_inj : Inj (=) (=) Label.order_state.
Proof. by intros [] []. Qed.
#[export] Instance label_order_type_inj : Inj (=) (=) Label.order_type.
Proof. by intros [] []. Qed.
#[export] Instance label_side_inj : Inj (=) (=) Label.side.
Proof. by intros [] []. Qed.

#[export] Instance wide_inj : Inj (=) (=) wide.
Proof. intros a b [= H%(inj pretty)]. done. Qed.

#[export] Instance Str_inj : Inj (=) (=) Str.
Proof. by intros a b [= ->]. Qed.

Lemma optional_inj {A} (f : A -> Value) :
  Inj (=) (=) f -> (forall a, f a <> Null) -> Inj (=) (=) (optional f).
Proof.
  intros Hf Hn [a |] [b |]; simpl; intros H; try done.
  - by apply Hf in H as ->.
  - by destruct (Hn a).
  - by destruct (Hn b).
Qed.

#[export] Instance optional_wide_inj : Inj (=) (=) (optional wide).
Proof. apply optional_inj; [apply _ | done]. Qed.

#[export] Instance optional_reject_inj :
  Inj (=) (=) (optional (fun reason => Str (Label.reject reason))).
Proof. apply optional_inj; [| done]. by intros a b [= H%(inj Label.reject)]. Qed.

(** Records whose renderings agree agree field by field. *)
Ltac lossless := intros [] []; intros; simpl in *; simplify_eq; done.

#[export] Instance json_level_inj : Inj (=) (=) json_level.
Proof. lossless. Qed.
#[export] Instance json_order_inj : Inj (=) (=) json_order.
Proof. lossless. Qed.
#[export] Instance json_instrument_inj : Inj (=) (=) json_instrument.
Proof. lossless. Qed.
#[export] Instance json_position_inj : Inj (=) (=) json_position.
Proof. lossless. Qed.
#[export] Instance json_metrics_inj : Inj (=) (=) json_metrics.
Proof. lossless. Qed.
#[export] Instance json_state_event_inj : Inj (=) (=) json_state_event.
Proof. lossless. Qed.
#[export] Instance json_trade_inj : Inj (=) (=) json_trade.
Proof. lossless. Qed.
#[export] Instance json_report_inj : Inj (=) (=) json_report.
Proof. lossless. Qed.

(** The JSON projections lose nothing: two output events with the same JSON
    are the same event, and two snapshots with the same JSON are the same
    snapshot. *)
Theorem json_lossless : Inj (=) (=) json_output_event /\ Inj (=) (=) json_snapshot.
Proof.
  split.
  - intros [t1 | r1 | [? ? ? e1]] [t2 | r2 | [? ? ? e2]] H; try done; simpl in H.
    + by apply (inj json_trade) in H as ->.
    + by apply (inj json_report) in H as ->.
    + by simplify_eq.
  - intros [? ? ? ? [] ? ?] [? ? ? ? [] ? ?] H. simpl in H. by simplify_eq.
Qed.

(** * Numbers that JavaScript reads exactly *)

Definition MAX_SAFE : Z := 2 ^ 53 - 1.

Fixpoint safe (v : Value) : bool :=
  match v with
  | Number n => Z.abs n <=? MAX_SAFE
  | Array items => forallb safe items
  | Object fields => forallb (fun field => safe field.2) fields
  | _ => true
  end.

(** The fields of a snapshot that are rendered as numbers, in their widths. *)
Record snapshot_wf (s : EngineSnapshot) : Prop := {
  snwf_instruments i : i ∈ es_instruments s -> in_u32 (in_instrument i)
    /\ (forall l, l ∈ in_levels i -> in_u32 (ls_order_count l))
    /\ (forall o, o ∈ in_orders i -> in_u32 (os_account o));
  snwf_positions p : p ∈ es_positions s -> in_u32 (ps_account p) /\ in_u32 (ps_instrument p)
}.

Lemma safe_u32 n : in_u32 n -> (Z.abs n <=? MAX_SAFE) = true.
Proof. intros H. apply Z.leb_le. unfold MAX_SAFE. mach. Qed.

Lemma safe_array {A} (f : A -> Value) (l : list A) :
  (forall a, a ∈ l -> safe (f a) = true) -> forallb safe (f <$> l) = true.
Proof.
  intros H. apply forallb_forall. intros v (a & <- & Ha)%in_map_iff. apply H.
  by apply list_elem_of_In.
Qed.

(** The fields of a record, one by one. *)
Ltac all_safe := simpl; rewrite ?safe_u32 by done; reflexivity.

(** Every number in the JSON of a well-formed output event or snapshot is one
    that JavaScript represents exactly; wider integers are strings. *)
Theorem json_numbers_safe event snapshot :
  output_wf event -> snapshot_wf snapshot ->
  safe (json_output_event event) = true /\ safe (json_snapshot snapshot) = true.
Proof.
  intros He [Hi Hp]. split.
  - destruct event as [t | r | [? ? ? e]]; simpl in He; destruct He as [].
    + all_safe.
    + simpl. rewrite !safe_u32 by done. by destruct (rep_reject_reason r).
    + simpl in *. destruct e; all_safe.
  - unfold json_snapshot. cbn [safe forallb snd]. rewrite !safe_array.
    + reflexivity.
    + intros p [H1 H2]%Hp. all_safe.
    + intros i (H1 & H2 & H3)%Hi. unfold json_instrument. cbn [safe forallb snd].
      rewrite !safe_array; [| intros o Ho%H3; all_safe | intros l Hl%H2; all_safe].
      rewrite safe_u32 by done. by destruct (in_best_bid i), (in_best_ask i).
Qed.

Lemma json_numbers_safe_witness :
  safe (json_output_event (OutputEvent.State (mkStateEvent 1 u64_max 3
         (EngineStateEvent.AccountEnabledChanged u32_max true)))) = true
  /\ safe (json_snapshot (mkEngineSnapshot 1 u64_max 5 false metrics_default
         [mkInstrumentSnapshot 1 "LAB-USD" FeedState.Live u64_max (Some 5) None
            [mkLevelSnapshot Side.Buy i64_max u64_max 7] [mkOrderSnapshot 1 2 u64_max Side.Buy 5 6 0]]
         [mkPositionSnapshot 2 1 (-4) 0 6 0 u128_max])) = true.
Proof.
  apply json_numbers_safe.
  - by repeat constructor.
  - constructor.
    + intros i ->%list_elem_of_singleton. split; [done |].
      split; [intros l ->%list_elem_of_singleton | intros o ->%list_elem_of_singleton]; done.
    + by intros p ->%list_elem_of_singleton.
Defined.
