(* ===== verification/Gateway.v ===== *)
(** The control gateway: the messages ([crates/control-gateway/src/wire.rs]), the
    gateway's state ([state.rs]) and the dispatch of a request
    ([dispatch] of [server.rs]).

    The deserialisers that serde derives for the parameter structs, the texts of
    journal errors and of paths are parameters.  The locks are taken for one
    operation at a time, so an operation is a function of the state; a replay
    job is a worker that stores its value and clears the flag in steps of its own. *)

From Stdlib Require Import Strings.String Strings.Ascii.
From stdpp Require Import strings pretty.
From S2P Require Import Prelude Enums Ids Events BTree Slab Book Matching Market Account Config.
From S2P Require Import CoreState Risk Core Read Canonical Codec Wire Generator Journal Queue QueueProps Replay.
From S2P Require Import Snapshot Pipeline Json.

(** * Strings *)

(** [str::as_bytes]; a [string] is its bytes. *)
Definition as_bytes (s : string) : bytes :=
  (fun a => Z.of_nat (nat_of_ascii a)) <$> list_ascii_of_string s.

Definition of_bytes (bs : bytes) : string :=
  string_of_list_ascii ((fun b => ascii_of_nat (Z.to_nat b)) <$> bs).

Definition digit (a : ascii) : option Z :=
  let n := Z.of_nat (nat_of_ascii a) in
  if (48 <=? n) && (n <=? 57) then Some (n - 48) else None.

(** The digits of [str::parse::<uN>], with its two overflow checks; [max] is
    [uN::MAX]. *)
Fixpoint parse_digits (max acc : Z) (s : string) : option Z :=
  match s with
  | EmptyString => Some acc
  | String a s =>
      match digit a with
      | None => None
      | Some d =>
          if max <? acc * 10 then None
          else if max <? acc * 10 + d then None
          else parse_digits max (acc * 10 + d) s
      end
  end.

(** [str::parse::<uN>]: not empty, a leading plus sign is allowed. *)
Definition parse_uint (max : Z) (s : string) : option Z :=
  match s with
  | EmptyString => None
  | String a EmptyString => parse_digits max 0 s
  | String a rest =>
      if Ascii.eqb a "+" then parse_digits max 0 rest else parse_digits max 0 s
  end.

(** * Messages *)

Definition GATEWAY_SCHEMA_VERSION : Z := 1.
Definition MAX_FRAME_BYTES : Z := 8 * 1024 * 1024.

Record Request := mkRequest {
  rq_schema_version : Z;
  rq_command_id : string;
  rq_method : string;
  rq_token : option string;
  rq_params : Value
}.

Record ErrorBody := mkErrorBody {
  eb_code : string;
  eb_message : string
}.

Record Response := mkResponse {
  resp_schema_version : Z;
  resp_command_id : string;
  resp_ok : bool;
  resp_result : option Value;
  resp_error : option ErrorBody;
  resp_as_of_engine_seq : string
}.

(** [Response::ok] and [Response::failed]. *)
Definition respond (command_id : string) (result : Value) (engine_seq : Z) : Response :=
  mkResponse GATEWAY_SCHEMA_VERSION command_id true (Some result) None (pretty engine_seq).

Definition failed (command_id code message : string) (engine_seq : Z) : Response :=
  mkResponse GATEWAY_SCHEMA_VERSION command_id false None (Some (mkErrorBody code message))
    (pretty engine_seq).

Record OutputsParams := mkOutputsParams { op_limit : option Z }.

Record RiskLimitsParams := mkRiskLimitsParams {
  rl_account : Z;
  rl_max_order_quantity : string;
  rl_max_order_notional : string;
  rl_max_position_lots : string;
  rl_max_gross_exposure : string;
  rl_price_collar_ticks : Z
}.

Record KillParams := mkKillParams { kp_engaged : bool }.

Record AccountEnabledParams := mkAccountEnabledParams {
  ae_account : Z;
  ae_enabled : bool
}.

Record ReplayParams := mkReplayParams {
  rpp_seed : Z;
  rpp_events : Z
}.

(** [serde_json::from_value] at the parameter structs. *)
Class Deserialize := {
  outputs_params : Value -> Result OutputsParams string;
  kill_params : Value -> Result KillParams string;
  account_enabled_params : Value -> Result AccountEnabledParams string;
  risk_limits_params : Value -> Result RiskLimitsParams string;
  replay_params : Value -> Result ReplayParams string
}.

(** [value.get(key)] and [value.as_str()]. *)
Definition get_field (key : string) (v : Value) : option Value :=
  match v with
  | Object fields => snd <$> List.find (fun field => String.eqb (fst field) key) fields
  | _ => None
  end.

Definition as_str (v : Value) : option string :=
  match v with Str s => Some s | _ => None end.

(** [constant_time_eq]. *)
Definition constant_time_eq (left right : bytes) : bool :=
  let len := Nat.max (length left) (length right) in
  let diff := Z.lxor (Z.of_nat (length left)) (Z.of_nat (length right)) in
  let diff :=
    foldl (fun diff i => Z.lor diff (Z.lxor (default 0 (left !! i)) (default 0 (right !! i))))
      diff (seq 0 len) in
  diff =? 0.

Section Gateway.
Context {P : Platform} {D : Deserialize}.
(** More than the capacity of the snapshot queue. *)
Context (fuel : nat).
Context (error_message : Journal.JournalError IoError -> string) (path_display : Path -> string).

(** * State *)

Record Gateway := mkGateway {
  gw_control : ControlHandle;
  gw_tail : option Journal.JournalTail;
  gw_journal_path : Path;
  gw_latest_snapshot : option EngineSnapshot;
  gw_token : option string;
  gw_delivered_outputs : Z;
  gw_last_output_seq : Z;
  gw_replay_jobs : list (string * Value);
  gw_replay_busy : bool;
  gw_next_job : Z
}.

(** What the outside is at a request: the time since the start, whether the
    journal can be opened, what it holds and how its reads are cut. *)
Record World := mkWorld {
  wo_uptime : Z;
  wo_open : Result unit IoError;
  wo_journal : bytes;
  wo_short : nat -> nat
}.

(** The work of a replay thread. *)
Record Job := mkJob {
  jb_id : string;
  jb_seed : Z;
  jb_events : nat
}.

Definition gateway_new (control : ControlHandle) (journal_path : Path) (token : option string) : Gateway :=
  mkGateway control None journal_path None token 0 0 [] false 0.

Definition set_gw_control (g : Gateway) (h : ControlHandle) : Gateway :=
  mkGateway h (gw_tail g) (gw_journal_path g) (gw_latest_snapshot g) (gw_token g)
    (gw_delivered_outputs g) (gw_last_output_seq g) (gw_replay_jobs g) (gw_replay_busy g) (gw_next_job g).
Definition set_gw_tail (g : Gateway) (tail : option Journal.JournalTail) : Gateway :=
  mkGateway (gw_control g) tail (gw_journal_path g) (gw_latest_snapshot g) (gw_token g)
    (gw_delivered_outputs g) (gw_last_output_seq g) (gw_replay_jobs g) (gw_replay_busy g) (gw_next_job g).
Definition set_gw_snapshot (g : Gateway) (snapshot : option EngineSnapshot) : Gateway :=
  mkGateway (gw_control g) (gw_tail g) (gw_journal_path g) snapshot (gw_token g)
    (gw_delivered_outputs g) (gw_last_output_seq g) (gw_replay_jobs g) (gw_replay_busy g) (gw_next_job g).
Definition set_gw_counters (g : Gateway) (delivered last : Z) : Gateway :=
  mkGateway (gw_control g) (gw_tail g) (gw_journal_path g) (gw_latest_snapshot g) (gw_token g)
    delivered last (gw_replay_jobs g) (gw_replay_busy g) (gw_next_job g).
Definition set_gw_jobs (g : Gateway) (jobs : list (string * Value)) (busy : bool) (next : Z) : Gateway :=
  mkGateway (gw_control g) (gw_tail g) (gw_journal_path g) (gw_latest_snapshot g) (gw_token g)
    (gw_delivered_outputs g) (gw_last_output_seq g) jobs busy next.

Definition authorized (g : Gateway) (token : option string) : bool :=
  match gw_token g with
  | None => false
  | Some expected =>
      match token with
      | Some provided => constant_time_eq (as_bytes expected) (as_bytes provided)
      | None => false
      end
  end.

Definition requires_token (g : Gateway) : bool := bool_decide (is_Some (gw_token g)).

Definition as_of_engine_seq (g : Gateway) : Z :=
  from_option es_as_of_engine_seq 0 (gw_latest_snapshot g).

(** [while let Some(snapshot) = self.control.take_snapshot()]; the loop runs
    until the queue is empty. *)
Fixpoint refresh_loop (fuel : nat) (g : Gateway) : res Gateway :=
  match fuel with
  | O => Panic
  | S fuel =>
      match take_snapshot (gw_control g) with
      | (h, Some snapshot) => refresh_loop fuel (set_gw_snapshot (set_gw_control g h) (Some snapshot))
      | (h, None) => Ret (set_gw_control g h)
      end
  end.

Definition refresh_snapshot (g : Gateway) : res Gateway := refresh_loop fuel g.

Definition snapshot_json (g : Gateway) : res (Gateway * option Value) :=
  let! g := refresh_snapshot g in
  Ret (g, json_snapshot <$> gw_latest_snapshot g).

(** [tail.poll(limit)] and the counters. *)
Definition poll_outputs (w : World) (limit : nat) (g : Gateway) (tail : Journal.JournalTail)
  : res (Gateway * Result (list OutputEvent.t) string) :=
  let! (tail, polled) := Journal.poll crc32 (wo_short w) (wo_journal w) tail limit in
  let g := set_gw_tail g (Some tail) in
  Ret match polled with
      | Ok events =>
          (set_gw_counters g (u64_wrap (gw_delivered_outputs g + Z.of_nat (length events)))
             (from_option OutputEvent.output_seq (gw_last_output_seq g) (list.last events)), Ok events)
      | Err error => (g, Err (error_message error))
      end.

Definition next_outputs (w : World) (limit : nat) (g : Gateway)
  : res (Gateway * Result (list OutputEvent.t) string) :=
  match gw_tail g with
  | Some tail => poll_outputs w limit g tail
  | None =>
      let! opened :=
        match wo_open w with
        | Ok _ => Journal.open (IoError := IoError) (wo_journal w)
        | Err error => Ret (Err (Journal.Io error))
        end in
      match opened with
      | Ok tail => poll_outputs w limit (set_gw_tail g (Some tail)) tail
      | Err Journal.IncompleteHeader => Ret (g, Ok [])
      | Err error => Ret (g, Err (error_message error))
      end
  end.

Definition json_feed (i : InstrumentSnapshot) : Value :=
  Object [("instrument", Number (in_instrument i)); ("symbol", Str (in_symbol i));
          ("feedState", Str (Label.feed (in_feed_state i))); ("lastSourceSeq", wide (in_last_source_seq i))].

Definition health (w : World) (g : Gateway) : res (Gateway * Value) :=
  let! g := refresh_snapshot g in
  let snapshot := gw_latest_snapshot g in
  Ret (g, Object [("status", Str (if bool_decide (is_Some snapshot) then "ready" else "starting"));
                  ("runId", wide (from_option es_run_id 0 snapshot));
                  ("uptimeSeconds", Number (wo_uptime w));
                  ("journalPath", Str (path_display (gw_journal_path g)));
                  ("deliveredOutputs", wide (gw_delivered_outputs g));
                  ("lastOutputSeq", wide (gw_last_output_seq g));
                  ("asOfEngineSeq", wide (from_option es_as_of_engine_seq 0 snapshot));
                  ("globalKill", Bool (from_option es_global_kill false snapshot));
                  ("killLatched", Bool (kill_engaged (gw_control g)));
                  ("telemetryDropped", wide (ctl_telemetry_dropped (gw_control g)));
                  ("feeds", Array (from_option (fun s => json_feed <$> es_instruments s) [] snapshot))]).

(** The latch, and the commands that go through the queue. *)
Definition gateway_kill (g : Gateway) (engaged : bool) : Gateway :=
  set_gw_control g (if engaged then engage_kill (gw_control g) else release_kill (gw_control g)).

Definition gateway_submit (g : Gateway) (command : ControlCommand.t) : Gateway * Result unit string :=
  let '(h, accepted) := submit (gw_control g) command in
  (set_gw_control g h, if accepted then Ok tt else Err "control queue is full"%string).

Definition set_account_enabled (g : Gateway) (account : Z) (enabled : bool) : Gateway * Result unit string :=
  gateway_submit g (ControlCommand.SetAccountEnabled account enabled).

Definition set_risk_limits (g : Gateway) (account max_order_quantity max_order_notional max_position_lots
    max_gross_exposure price_collar_ticks : Z) : Gateway * Result unit string :=
  gateway_submit g (ControlCommand.SetAccountLimits account
    (mkAccountLimits max_order_quantity max_order_notional max_position_lots max_gross_exposure
       price_collar_ticks)).

Definition reset_journal_tail (g : Gateway) : Gateway := set_gw_tail g None.

(** * Replay jobs *)

Definition MAX_JOBS : nat := 32.

Definition rejected_json (job_id : string) : Value :=
  Object [("jobId", Str job_id); ("status", Str "rejected"); ("reason", Str "replay already running")].

Definition running_json (job : Job) : Value :=
  Object [("jobId", Str (jb_id job)); ("status", Str "running"); ("seed", wide (jb_seed job));
          ("events", wide (Z.of_nat (jb_events job)))].

Definition failed_json (job_id : string) : Value :=
  Object [("jobId", Str job_id); ("status", Str "failed"); ("reason", Str "replay panicked")].

Definition completed_json (job : Job) (result : ReplayResult) : res Value :=
  let! input_digest := digest_hex (rr_input_digest result) in
  let! output_digest := digest_hex (rr_output_digest result) in
  let! state_digest := digest_hex (rr_state_digest result) in
  Ret (Object [("jobId", Str (jb_id job)); ("status", Str "completed"); ("seed", wide (jb_seed job));
               ("events", wide (Z.of_nat (jb_events job))); ("inputs", wide (rr_inputs result));
               ("outputs", wide (rr_outputs result)); ("inputDigest", Str (of_bytes input_digest));
               ("outputDigest", Str (of_bytes output_digest));
               ("stateDigest", Str (of_bytes state_digest));
               ("checkpoints", Number (Z.of_nat (length (rr_checkpoints result))))]).

(** [start_replay], with the job that its thread is spawned for.  The identifier
    is the counter before [fetch_add], plus one. *)
Definition start_replay (g : Gateway) (seed : Z) (events : nat) : res (Gateway * Value * option Job) :=
  let! n := u64_plain (gw_next_job g + 1) in
  let job := mkJob ("replay-" +:+ pretty n) seed events in
  let next := u64_wrap (gw_next_job g + 1) in
  if gw_replay_busy g then
    Ret (set_gw_jobs g (gw_replay_jobs g) true next, rejected_json (jb_id job), None)
  else
    let jobs := gw_replay_jobs g ++ [(jb_id job, running_json job)] in
    Ret (set_gw_jobs g (drop (length jobs - MAX_JOBS) jobs) true next, running_json job, Some job).

(** What the thread computes. *)
Definition replay_evidence_of (job : Job) : res Value :=
  let! (_, inputs) := Generator.generate (Generator.new (generator_config_new (jb_seed job) (jb_events job))) in
  let! r := Driver.run (S := Store) (H := Hash)
              (Driver.new (CoreState.Core.new (single_instrument (jb_seed job))) 1000) inputs in
  let! result := Driver.finish r in
  completed_json job result.

(** [catch_unwind] turns a panic into the failed value. *)
Definition replay_outcome (job : Job) : Value :=
  match replay_evidence_of job with Ret value => value | Panic => failed_json (jb_id job) end.

(** The first entry with the identifier gets the value. *)
Fixpoint store_value (job_id : string) (value : Value) (jobs : list (string * Value)) : list (string * Value) :=
  match jobs with
  | [] => []
  | (id, old) :: jobs =>
      if String.eqb id job_id then (id, value) :: jobs else (id, old) :: store_value job_id value jobs
  end.

(** The end of the thread: the value is stored, then the flag is cleared. *)
Definition store_replay (g : Gateway) (job : Job) : Gateway :=
  set_gw_jobs g (store_value (jb_id job) (replay_outcome job) (gw_replay_jobs g)) (gw_replay_busy g)
    (gw_next_job g).

Definition release_replay (g : Gateway) : Gateway :=
  set_gw_jobs g (gw_replay_jobs g) false (gw_next_job g).

Definition replay_status (g : Gateway) (job_id : string) : option Value :=
  snd <$> List.find (fun entry => String.eqb (fst entry) job_id) (gw_replay_jobs g).

(** * Dispatch *)

Definition PROTECTED : list string :=
  ["setRiskLimits"; "setAccountEnabled"; "engageKill"; "startReplay"; "snapshot"; "outputs";
   "replayStatus"; "resetJournal"]%string.

Definition is_protected (method : string) : bool := existsb (String.eqb method) PROTECTED.

(** What a request does: the new state, the response and the job it starts. *)
Abbreviation Dispatched := (res (Gateway * Response * option Job)) (only parsing).

Definition accepted_json : Value := Object [("accepted", Bool true)].

(** The response to a command that went through the queue. *)
Definition submitted (command_id : string) (engine_seq : Z) (p : Gateway * Result unit string) : Dispatched :=
  Ret match p with
      | (g, Ok _) => (g, respond command_id accepted_json engine_seq, None)
      | (g, Err message) => (g, failed command_id "rejected" message engine_seq, None)
      end.

Definition dispatch_outputs (w : World) (g : Gateway) (command_id : string) (params : Value) (engine_seq : Z)
  : Dispatched :=
  let limit := match outputs_params params with
               | Ok params => Z.min (default 1000 (op_limit params)) 10000
               | Err _ => 1000
               end in
  let! (g, polled) := next_outputs w (Z.to_nat limit) g in
  Ret (g, match polled with
          | Ok events =>
              respond command_id (Object [("events", Array (json_output_event <$> events))]) engine_seq
          | Err message => failed command_id "journal_error" message engine_seq
          end, None).

Definition dispatch_limits (g : Gateway) (command_id : string) (params : Value) (engine_seq : Z) : Dispatched :=
  match risk_limits_params params with
  | Ok params =>
      match parse_uint u64_max (rl_max_order_quantity params),
            parse_uint u128_max (rl_max_order_notional params),
            parse_uint u64_max (rl_max_position_lots params),
            parse_uint u128_max (rl_max_gross_exposure params) with
      | Some quantity, Some notional, Some position, Some gross =>
          submitted command_id engine_seq
            (set_risk_limits g (rl_account params) quantity notional position gross
               (rl_price_collar_ticks params))
      | _, _, _, _ =>
          Ret (g, failed command_id "bad_request" "limit values must be numeric strings" engine_seq, None)
      end
  | Err error => Ret (g, failed command_id "bad_request" error engine_seq, None)
  end.

Definition dispatch_replay (g : Gateway) (command_id : string) (params : Value) (engine_seq : Z) : Dispatched :=
  match replay_params params with
  | Ok params =>
      if rpp_events params <=? 1000000 then
        let! (g, value, job) := start_replay g (rpp_seed params) (Z.to_nat (rpp_events params)) in
        Ret (g, respond command_id value engine_seq, job)
      else
        Ret (g, failed command_id "bad_request" "events exceeds the allowed replay bound" engine_seq, None)
  | Err error => Ret (g, failed command_id "bad_request" error engine_seq, None)
  end.

(** The match on the method. *)
Definition dispatch_method (w : World) (g : Gateway) (request : Request) (engine_seq : Z) : Dispatched :=
  let id := rq_command_id request in
  let params := rq_params request in
  let method name := String.eqb (rq_method request) name in
  if method "health" then let! (g, value) := health w g in Ret (g, respond id value engine_seq, None)
  else if method "snapshot" then
      let! (g, value) := snapshot_json g in
      Ret (g, match value with
              | Some value => respond id value engine_seq
              | None => failed id "unavailable" "no engine snapshot yet" engine_seq
              end, None)
  else if method "outputs" then dispatch_outputs w g id params engine_seq
  else if method "engageKill" then
      Ret match kill_params params with
          | Ok params =>
              (gateway_kill g (kp_engaged params),
               respond id (Object [("accepted", Bool true); ("engaged", Bool (kp_engaged params))]) engine_seq,
               None)
          | Err error => (g, failed id "bad_request" error engine_seq, None)
          end
  else if method "setAccountEnabled" then
      match account_enabled_params params with
      | Ok params => submitted id engine_seq (set_account_enabled g (ae_account params) (ae_enabled params))
      | Err error => Ret (g, failed id "bad_request" error engine_seq, None)
      end
  else if method "setRiskLimits" then dispatch_limits g id params engine_seq
  else if method "startReplay" then dispatch_replay g id params engine_seq
  else if method "resetJournal" then Ret (reset_journal_tail g, respond id accepted_json engine_seq, None)
  else if method "replayStatus" then
      let job_id := default EmptyString (get_field "jobId" params ≫= as_str) in
      Ret (g, match replay_status g job_id with
              | Some value => respond id value engine_seq
              | None => failed id "not_found" "unknown replay job" engine_seq
              end, None)
  else Ret (g, failed id "unknown_method" ("unknown method " +:+ rq_method request) engine_seq, None).

Definition dispatch (w : World) (g : Gateway) (request : Request) : Dispatched :=
  let engine_seq := as_of_engine_seq g in
  let id := rq_command_id request in
  if negb (rq_schema_version request =? GATEWAY_SCHEMA_VERSION) then
    Ret (g, failed id "unsupported_schema" ("expected schema version " +:+ pretty GATEWAY_SCHEMA_VERSION)
              engine_seq, None)
  else if is_protected (rq_method request) && negb (requires_token g) then
    Ret (g, failed id "unauthorized" "gateway started without a control token; mutations are refused"
              engine_seq, None)
  else if is_protected (rq_method request) && negb (authorized g (rq_token request)) then
    Ret (g, failed id "unauthorized" "invalid control token" engine_seq, None)
  else dispatch_method w g request engine_seq.

(** [handle] on a frame that parses: the sequence reported is the one observed
    after the command. *)
Definition answer (w : World) (g : Gateway) (request : Request) : Dispatched :=
  let! (g, response, job) := dispatch w g request in
  Ret (g, mkResponse (resp_schema_version response) (resp_command_id response) (resp_ok response)
            (resp_result response) (resp_error response) (pretty (as_of_engine_seq g)), job).

End Gateway.
