(* ===== verification/GatewayProps.v ===== *)
(** Helpers of the gateway: the comparison of tokens, the parsing of numbers,
    polling a file of any content; what a request can do to the state, the
    replay jobs and their worker beside the requests; and the outputs that are
    handed out while the journal grows. *)

From Stdlib Require Import Strings.String Strings.Ascii.
From stdpp Require Import strings pretty.
From Stdlib Require Import Strings.String.
From S2P Require Import Prelude Enums Ids Events Read Canonical CanonicalProps Codec CodecProps.
From S2P Require Import Journal JournalProps JournalTheorems Queue QueueProps BTree Slab Book Market Account.
From S2P Require Import Config CoreState Core CoreApply CoreRun Replay ReplayState ReplayTheorems.
From S2P Require Import Generator GeneratorProps GeneratorTheorems Snapshot Pipeline.
From S2P Require Import Simulator SimulatorTheorems Json Gateway.

(** * Tokens *)

Lemma foldl_lor_zero (f : nat -> Z) l : forall init,
  foldl (fun diff i => Z.lor diff (f i)) init l = 0 <-> init = 0 /\ Forall (fun i => f i = 0) l.
Proof.
  induction l as [| i l IH]; intros init; simpl.
  - split; [by intros -> | by intros [-> _]].
  - rewrite IH, Z.lor_eq_0_iff, Forall_cons. tauto.
Qed.

(** Lists of numbers that agree at every index, with zero for what is missing. *)
Lemma constant_time_eq_spec left right : constant_time_eq left right = true <-> left = right.
Proof.
  unfold constant_time_eq. rewrite Z.eqb_eq, foldl_lor_zero, Z.lxor_eq_0_iff. split.
  - intros [Hl%Nat2Z.inj Hf]. apply list_eq_same_length with (n := length left); [done | done |].
    intros i x y Hi Hx Hy. rewrite Forall_forall in Hf.
    specialize (Hf i). rewrite Z.lxor_eq_0_iff, Hx, Hy in Hf. simpl in Hf. apply Hf.
    apply elem_of_seq. lia.
  - intros ->. split; [done |]. apply Forall_forall. intros i _. by rewrite Z.lxor_eq_0_iff.
Qed.

Lemma ascii_code_inj : Inj (=) (=) (fun a => Z.of_nat (nat_of_ascii a)).
Proof.
  intros a b H%Nat2Z.inj. rewrite <- (ascii_nat_embedding a), <- (ascii_nat_embedding b). by rewrite H.
Qed.

#[export] Instance as_bytes_inj : Inj (=) (=) as_bytes.
Proof.
  intros a b H. rewrite <- (string_of_list_ascii_of_string a), <- (string_of_list_ascii_of_string b).
  f_equal. by apply (list_fmap_eq_inj _ ascii_code_inj) in H.
Qed.

(** * Numbers *)

Lemma digit_char d : (d < 10)%N -> digit (pretty_N_char d) = Some (Z.of_N d).
Proof.
  intros Hd. assert (H : d = 0%N \/ d = 1%N \/ d = 2%N \/ d = 3%N \/ d = 4%N \/ d = 5%N \/ d = 6%N
                         \/ d = 7%N \/ d = 8%N \/ d = 9%N) by lia.
  by repeat destruct H as [-> | H]; [.. | subst].
Qed.

(** Decimal digits are read from the left. *)
Lemma parse_pretty_go max x : forall s,
  Z.of_N x <= max -> parse_digits max 0 (pretty_N_go x s) = parse_digits max (Z.of_N x) s.
Proof.
  induction x as [x IH] using (well_founded_induction N.lt_wf_0). intros s Hx.
  destruct (decide (x = 0%N)) as [-> | Hne]; [by rewrite pretty_N_go_0 |].
  rewrite pretty_N_go_step by lia.
  pose proof (N.div_mod x 10 ltac:(done)) as Ed.
  pose proof (N.mod_lt x 10 ltac:(done)) as Hm.
  assert (Hq : (x / 10 < x)%N) by (apply N.div_lt; lia).
  remember (x / 10)%N as q. remember (x mod 10)%N as r.
  rewrite IH by (done || lia). cbn [parse_digits]. rewrite digit_char by done.
  replace (Z.of_N q * 10 + Z.of_N r) with (Z.of_N x) by lia.
  rewrite (proj2 (Z.ltb_ge _ _)), (proj2 (Z.ltb_ge _ _)) by lia. done.
Qed.

(** The first character of a decimal representation is a digit. *)
Lemma pretty_N_go_head x : forall s,
  (0 < x)%N -> exists d s', (d < 10)%N /\ pretty_N_go x s = String (pretty_N_char d) s'.
Proof.
  induction x as [x IH] using (well_founded_induction N.lt_wf_0). intros s Hx.
  rewrite pretty_N_go_step by done. pose proof (N.mod_lt x 10 ltac:(done)) as Hm.
  destruct (decide (x `div` 10 = 0)%N) as [E | Hne].
  - rewrite E, pretty_N_go_0. eauto.
  - apply IH; [apply N.div_lt; lia | by apply N.neq_0_lt_0].
Qed.

Lemma parse_uint_digits max d s :
  (d < 10)%N -> parse_uint max (String (pretty_N_char d) s) = parse_digits max 0 (String (pretty_N_char d) s).
Proof.
  intros Hd. assert (H : Ascii.eqb (pretty_N_char d) "+" = false).
  { assert (H : d = 0%N \/ d = 1%N \/ d = 2%N \/ d = 3%N \/ d = 4%N \/ d = 5%N \/ d = 6%N
                \/ d = 7%N \/ d = 8%N \/ d = 9%N) by lia.
    by repeat destruct H as [-> | H]; [.. | subst]. }
  unfold parse_uint. destruct s; [done |]. by rewrite H.
Qed.

(** A number in range is parsed back from its decimal representation. *)
Lemma parse_uint_pretty max n : 0 <= n <= max -> parse_uint max (pretty n) = Some n.
Proof.
  intros Hn. destruct n as [| p | p]; [| | lia].
  - change (parse_uint max "0" = Some 0). change ((if max <? 0 then None else if max <? 0 then None else Some 0) = Some 0).
    by rewrite (proj2 (Z.ltb_ge max 0)) by lia.
  - change (pretty (Z.pos p)) with (pretty (N.pos p)). unfold pretty, pretty_N.
    rewrite decide_False by done.
    destruct (pretty_N_go_head (N.pos p) EmptyString eq_refl) as (d & s & Hd & E).
    rewrite E, parse_uint_digits by done. rewrite <- E. rewrite parse_pretty_go by (simpl; lia). done.
Qed.

(** * Polling *)

Section Poll.
Context (crc32 : bytes -> Z).

Record tail_ok (t : Journal.JournalTail) : Prop := {
  tk_read : 0 <= Journal.jt_bytes_read t <= Z.of_nat (Journal.jt_file t);
  tk_pending : Forall is_byte (Journal.jt_pending t)
}.

Lemma take_records_total {IoError} fuel limit offset pending : forall events consumed,
  Forall is_byte pending -> (consumed <= length pending)%nat -> (length pending - consumed < fuel)%nat ->
  exists r, Journal.take_records (IoError := IoError) crc32 fuel limit offset pending events consumed = Ret r
    /\ forall es n, r = Ok (es, n) -> (n <= length pending)%nat.
Proof.
  induction fuel as [| fuel IH]; intros events consumed Hb Hc Hf; [lia |].
  destruct (decide (length events < limit)%nat) as [Hl | Hl].
  - rewrite take_records_step by done.
    destruct (next_record_sound crc32 (drop consumed pending)) as (o & -> & Ho); [by apply Forall_drop |].
    cbn [rbind]. destruct o as [| | e n]; try (eexists; split; [done |]; by intros ? ? [= _ <-]).
    destruct (Ho e n eq_refl) as (_ & Hn & Hlen & _). rewrite length_drop in Hn.
    pose proof (record_bytes_pos crc32 e). apply IH; [done | lia | lia].
  - cbn [Journal.take_records]. rewrite (proj2 (Nat.ltb_ge _ _)) by lia. eexists. split; [done |].
    by intros ? ? [= _ <-].
Qed.

Lemma pull_total short file t :
  tail_ok t -> Forall is_byte file -> Z.of_nat (length file) <= u64_max ->
  exists t', Journal.pull (S (length file)) short file t = Ret t' /\ tail_ok t'.
Proof.
  intros [Hr Hp] Hb Hs. destruct (decide (Journal.jt_file t <= length file)%nat) as [Hle | Hgt].
  - rewrite pull_all by (done || lia). eexists. split; [done |]. constructor; simpl; [lia |].
    apply Forall_app_2; [done | by apply Forall_drop].
  - exists t. split; [| done]. cbn [Journal.pull].
    assert (E : Journal.file_read short file (Journal.jt_file t) = []).
    { unfold Journal.file_read. rewrite drop_ge by lia. by rewrite !take_nil. }
    by rewrite E.
Qed.

Lemma poll_total {IoError} short file t limit :
  tail_ok t -> Forall is_byte file -> Z.of_nat (length file) <= u64_max ->
  exists t' r, Journal.poll (IoError := IoError) crc32 short file t limit = Ret (t', r) /\ tail_ok t'.
Proof.
  intros Ht Hb Hs. unfold Journal.poll.
  destruct (pull_total short file t Ht Hb Hs) as (t1 & -> & [Hr Hp]). cbn [rbind].
  destruct (take_records_total (IoError := IoError) (S (length (Journal.jt_pending t1))) limit
              (Journal.jt_offset t1) (Journal.jt_pending t1) [] 0 Hp) as (r & -> & Hc); [lia | lia |].
  cbn [rbind]. destruct r as [[events consumed] | e]; [| by do 2 eexists].
  destruct (0 <? consumed)%nat; do 2 eexists; (split; [done |]); [| done].
  constructor; simpl; [done | by apply Forall_drop].
Qed.

Lemma open_total {IoError} file :
  exists r, Journal.open (IoError := IoError) file = Ret r /\ forall t, r = Ok t -> tail_ok t.
Proof.
  unfold Journal.open, Journal.HEADER_LEN. destruct (Nat.ltb_spec (length file) 24); [by eexists |].
  rewrite slice_prefix by lia. cbn [rbind].
  destruct (header_bad_total (take 24 file)) as [bad ->]; [rewrite length_take; lia |]. cbn [rbind].
  destruct bad; eexists; (split; [done |]); [done |]. intros t [= <-]. constructor; simpl; [lia | constructor].
Qed.

End Poll.

(** One case per method. *)
Ltac methods :=
  repeat match goal with |- context [String.eqb (rq_method ?rq) ?name] =>
    destruct (String.eqb (rq_method rq) name) eqn:? end.

(** A byte is two hexadecimal digits. *)
Lemma digest_hex_total digest : Forall is_byte digest -> exists hex, digest_hex digest = Ret hex.
Proof.
  induction 1 as [| b digest Hb _ [hex IH]]; [by eexists |]. cbn [digest_hex]. unfold index.
  assert (Hh : 0 <= Z.shiftr b 4 < 16) 
    by (unfold is_byte in Hb; rewrite Z.shiftr_div_pow2 by done; change (2 ^ 4) with 16;
        split; [apply Z.div_pos; lia | apply Z.div_lt_upper_bound; lia]).
  assert (Hl : 0 <= Z.land b 15 < 16)
    by (change 15 with (Z.ones 4); rewrite Z.land_ones by done; apply Z.mod_pos_bound; done).
  destruct (lookup_lt_is_Some_2 HEX (Z.to_nat (Z.shiftr b 4))) as [h ->]; [simpl; lia |].
  destruct (lookup_lt_is_Some_2 HEX (Z.to_nat (Z.land b 15))) as [l ->]; [simpl; lia |].
  cbn [rbind]. rewrite IH. by eexists.
Qed.

Section Jobs.
Context {P : Platform} {PL : PlatformLaws P} {D : Deserialize}.
Context (fuel : nat).
Context (error_message : Journal.JournalError IoError -> string) (path_display : Path -> string).
(** A digest is an array of bytes. *)
Hypothesis digest_bytes : forall h : Hash, Forall is_byte (hasher_finalize h).

Abbreviation Gateway := (Gateway (P := P)) (only parsing).

(** * What a job computes *)

(** The value describes the engine's run on the workload of the job. *)
Definition job_evidence (job : Job) (value : Value) : Prop :=
  exists g inputs c out result,
    Generator.generate (Generator.new (generator_config_new (jb_seed job) (jb_events job))) = Ret (g, inputs)
    /\ engine_run (Core.new (S := Store) (single_instrument (jb_seed job))) inputs = Ret (c, out)
    /\ rr_inputs result = Z.of_nat (length inputs) /\ rr_outputs result = Z.of_nat (length out)
    /\ rr_input_digest result = blake3_hash (mjoin (input_bytes <$> inputs))
    /\ rr_output_digest result = blake3_hash (mjoin (output_bytes <$> out))
    /\ state_digest c = Ret (rr_state_digest result)
    /\ length (rr_checkpoints result) = Z.to_nat (Z.of_nat (length inputs) / 1000)
    /\ completed_json job result = Ret value.

Lemma state_digest_bytes (c : TradingCore Store) d : state_digest c = Ret d -> Forall is_byte d.
Proof. unfold state_digest. intros (chunks & _ & [= <-])%rbind_inv. apply digest_bytes. Qed.

Lemma job_completes job :
  Z.of_nat (jb_events job) <= 1000000 ->
  exists value, replay_evidence_of job = Ret value /\ job_evidence job value.
Proof.
  intros He. pose proof (generator_config_wf (jb_seed job) (jb_events job) ltac:(lia)) as W.
  destruct (generate_ok _ W (lowest _) (highest _) 1 ltac:(done)) as (g & inputs & E & G & _).
  pose proof (emitted_wf _ _ (go_emitted _ _ _ _ _ G)) as Hw.
  pose proof (go_room _ _ _ _ _ G) as Hr. unfold budget in Hr. simpl in Hr.
  set (c0 := Core.new (S := Store) (single_instrument (jb_seed job))).
  assert (I0 : core_inv c0) by apply new_core_inv, single_instrument_wf.
  destruct (driver_run_ok (S := Store) (H := Hash) c0 1000 ltac:(done) inputs I0)
    as (c & out & r & Er & Ed & Ec & _ & [R1 R2 R3 R4] & [C _] & I & _ & _); try done; [mach |].
  destruct (state_view_total c I) as [v Hv]. apply (state_digest_view (B := hash_blake3)) in Hv.
  unfold replay_evidence_of. rewrite E. cbn [rbind]. fold c0. rewrite Ed. cbn [rbind].
  unfold Driver.finish. rewrite Ec, Hv. cbn [rbind].
  match goal with |- context [completed_json job ?x] => set (result := x) end.
  destruct (digest_hex_total (rr_input_digest result)) as [h1 E1]; [apply digest_bytes |].
  destruct (digest_hex_total (rr_output_digest result)) as [h2 E2]; [apply digest_bytes |].
  destruct (digest_hex_total (rr_state_digest result)) as [h3 E3]; [by apply (state_digest_bytes c) |].
  assert (Ej : exists value, completed_json job result = Ret value)
    by (unfold completed_json; rewrite E1, E2, E3; by eexists).
  destruct Ej as [value Ej]. exists value. split; [done |].
  exists g, inputs, c, out, result. split_and!; try done; simpl.
  - unfold Recorder.input_digest. by rewrite R1, finalize_updates.
  - unfold Recorder.output_digest. by rewrite R2, finalize_updates.
  - lia.
Qed.

(** * What a request does *)

(** The two states differ in the snapshots at most. *)
Record refreshed (g g' : Gateway) : Prop := {
  rf_tail : gw_tail g' = gw_tail g;
  rf_path : gw_journal_path g' = gw_journal_path g;
  rf_token : gw_token g' = gw_token g;
  rf_delivered : gw_delivered_outputs g' = gw_delivered_outputs g;
  rf_last : gw_last_output_seq g' = gw_last_output_seq g;
  rf_jobs : gw_replay_jobs g' = gw_replay_jobs g;
  rf_busy : gw_replay_busy g' = gw_replay_busy g;
  rf_next : gw_next_job g' = gw_next_job g;
  rf_kill : ctl_kill (gw_control g') = ctl_kill (gw_control g);
  rf_commands : ctl_commands (gw_control g') = ctl_commands (gw_control g);
  rf_dropped : ctl_telemetry_dropped (gw_control g') = ctl_telemetry_dropped (gw_control g);
  rf_shutdown : ctl_shutdown (gw_control g') = ctl_shutdown (gw_control g)
}.

#[export] Instance refreshed_preorder : PreOrder refreshed.
Proof.
  split; [by constructor |]. intros a b c [] []. constructor; etrans; done.
Qed.

(** The queue is emptied, and its last element is the snapshot. *)
Lemma refresh_ok n : forall g,
  (length (aq_items (ctl_snapshots (gw_control g))) < n)%nat ->
  exists g', refresh_loop n g = Ret g' /\ refreshed g g'
    /\ aq_items (ctl_snapshots (gw_control g')) = []
    /\ gw_latest_snapshot g'
       = from_option Some (gw_latest_snapshot g) (list.last (aq_items (ctl_snapshots (gw_control g)))).
Proof.
  induction n as [| n IH]; intros g Hn; [lia |]. cbn [refresh_loop]. unfold take_snapshot.
  destruct (aq_items (ctl_snapshots (gw_control g))) as [| s items] eqn:Ei.
  - rewrite aq_pop_empty by done. eexists. split; [done |]. split; [by constructor | by split].
  - destruct (aq_pop_ok _ _ _ Ei) as (E1 & E2 & _). destruct (aq_pop _) as [q o]. simpl in E1, E2. subst o.
    simpl in Hn. destruct (IH (set_gw_snapshot (set_gw_control g (set_snapshots (gw_control g) q)) (Some s)))
      as (g' & E & R & Hi & Hs); [simpl; rewrite E2; lia |].
    exists g'. split; [done |]. split; [etrans; [| exact R]; by constructor |]. split; [done |].
    rewrite Hs. simpl. rewrite E2. rewrite last_cons. by destruct (list.last items).
Qed.

(** What the worker is doing. *)
Inductive Worker := Idle | Working (job : Job) | Stored.

(** Requests, the steps of the worker, and the engine's use of the handle. *)
Inductive serves : Gateway * Worker -> Gateway * Worker -> Prop :=
| serves_request w g worker request g' response job :
    answer fuel error_message path_display w g request = Ret (g', response, job) ->
    serves (g, worker) (g', from_option Working worker job)
| serves_store g job : serves (g, Working job) (store_replay g job, Stored)
| serves_release g : serves (g, Stored) (release_replay g, Idle)
| serves_engine g worker h : serves (g, worker) (set_gw_control g h, worker).

Definition same_jobs (g g' : Gateway) : Prop :=
  gw_replay_jobs g' = gw_replay_jobs g /\ gw_replay_busy g' = gw_replay_busy g
  /\ gw_next_job g' = gw_next_job g.

Lemma refreshed_jobs g g' : refreshed g g' -> same_jobs g g'.
Proof. by intros []. Qed.

Lemma refresh_loop_jobs n : forall g g', refresh_loop n g = Ret g' -> same_jobs g g'.
Proof.
  induction n as [| n IH]; intros g g'; [done |]. cbn [refresh_loop].
  destruct (take_snapshot _) as [h [s |]]; [intros ?%IH; done | by intros [= <-]].
Qed.

Lemma poll_outputs_jobs w limit g t g' r :
  poll_outputs error_message w limit g t = Ret (g', r) -> same_jobs g g'.
Proof.
  unfold poll_outputs. intros ([t' [es | e]] & _ & [= <- _])%rbind_inv; done.
Qed.

Lemma next_outputs_jobs w limit g g' r :
  next_outputs error_message w limit g = Ret (g', r) -> same_jobs g g'.
Proof.
  unfold next_outputs. destruct (gw_tail g); [apply poll_outputs_jobs |].
  intros ([t | []] & _ & H)%rbind_inv; try (by injection H as <- _).
  by apply poll_outputs_jobs in H.
Qed.

Lemma submitted_jobs id seq g p g' resp job :
  same_jobs g p.1 -> submitted id seq p = Ret (g', resp, job) -> same_jobs g g' /\ job = None.
Proof. destruct p as [g1 []]; intros H [= <- _ <-]; by split. Qed.

Lemma gateway_submit_jobs g command : same_jobs g (gateway_submit g command).1.
Proof. unfold gateway_submit. by destruct (submit _ _). Qed.

(** A request keeps the jobs, or is a [start_replay] within the bound. *)
Lemma dispatch_method_jobs w g rq seq g' resp job :
  dispatch_method fuel error_message path_display w g rq seq = Ret (g', resp, job) ->
  (same_jobs g g' /\ job = None)
  \/ exists seed events value, Z.of_nat events <= 1000000
       /\ start_replay g seed events = Ret (g', value, job).
Proof.
  unfold dispatch_method. cbv zeta. methods.
  - intros ([g1 v] & (g2 & H%refresh_loop_jobs & [= <- _])%rbind_inv & [= <- _ <-])%rbind_inv. by left.
  - intros ([g1 v] & (g2 & H%refresh_loop_jobs & [= <- _])%rbind_inv & [= <- _ <-])%rbind_inv. by left.
  - intros ([g1 v] & H%next_outputs_jobs & [= <- _ <-])%rbind_inv. by left.
  - destruct (kill_params _); intros [= <- _ <-]; by left.
  - destruct (account_enabled_params _); [| intros [= <- _ <-]; by left].
    intros H. left. eapply submitted_jobs; [| exact H]. apply gateway_submit_jobs.
  - unfold dispatch_limits. destruct (risk_limits_params _); [| intros [= <- _ <-]; by left].
    repeat case_match; intros H'; left; try (by injection H' as <- _ <-).
    eapply submitted_jobs; [| exact H']. apply gateway_submit_jobs.
  - unfold dispatch_replay. destruct (replay_params _) as [p |]; [| intros [= <- _ <-]; by left].
    destruct (Z.leb_spec (rpp_events p) 1000000); [| intros [= <- _ <-]; by left].
    intros ([[g1 v] j] & E & [= <- _ <-])%rbind_inv. right. do 3 eexists. split; [| exact E]. lia.
  - intros [= <- _ <-]. by left.
  - intros [= <- _ <-]. by left.
  - intros [= <- _ <-]. by left.
Qed.

Lemma answer_jobs w g rq g' resp job :
  answer fuel error_message path_display w g rq = Ret (g', resp, job) ->
  (same_jobs g g' /\ job = None)
  \/ exists seed events value, Z.of_nat events <= 1000000
       /\ start_replay g seed events = Ret (g', value, job).
Proof.
  unfold answer, dispatch. intros ([[g1 r1] j1] & H & [= <- _ <-])%rbind_inv. revert H.
  repeat case_match; try (intros [= <- _ <-]; by left). apply dispatch_method_jobs.
Qed.

(** * The jobs *)

(** The identifier of a job, from its number. *)
Definition job_name (n : Z) : string := "replay-" +:+ pretty n.

#[export] Instance job_name_inj : Inj (=) (=) job_name.
Proof. intros a b H. unfold job_name in H. simpl in H. by repeat injection H as H; apply pretty_Z_inj in H. Qed.

Record jobs_ok (s : Gateway * Worker) : Prop := {
  jk_bound : (length (gw_replay_jobs s.1) <= MAX_JOBS)%nat;
  jk_busy : gw_replay_busy s.1 = match s.2 with Idle => false | _ => true end;
  jk_next : in_u64 (gw_next_job s.1);
  jk_numbered id value : (id, value) ∈ gw_replay_jobs s.1 ->
    exists n, id = job_name n /\ 0 < n <= gw_next_job s.1;
  jk_distinct : NoDup (gw_replay_jobs s.1).*1;
  jk_entry id value : (id, value) ∈ gw_replay_jobs s.1 ->
    (exists job, jb_id job = id /\ job_evidence job value)
    \/ exists job, s.2 = Working job /\ jb_id job = id /\ value = running_json job;
  jk_worker job : s.2 = Working job ->
    Z.of_nat (jb_events job) <= 1000000 /\ (jb_id job, running_json job) ∈ gw_replay_jobs s.1
}.

Lemma store_value_ids id v jobs : (store_value id v jobs).*1 = jobs.*1.
Proof.
  induction jobs as [| [i o] jobs IH]; [done |]. simpl. destruct (String.eqb i id); simpl; [done |].
  f_equal. exact IH.
Qed.

Lemma store_value_entry id v jobs i x :
  NoDup jobs.*1 -> (i, x) ∈ store_value id v jobs ->
  (i = id /\ x = v) \/ (i <> id /\ (i, x) ∈ jobs).
Proof.
  induction jobs as [| [j o] jobs IH]; simpl; [by intros _ H%elem_of_nil |].
  intros [Hj Hn]%NoDup_cons. destruct (String.eqb_spec j id) as [-> | Hne].
  - intros [[= -> ->] | H]%elem_of_cons; [by left |]. right. split; [| by apply list_elem_of_further].
    intros ->. apply Hj. apply list_elem_of_fmap. by exists (id, x).
  - intros [[= -> ->] | H]%elem_of_cons; [right; split; [done | apply list_elem_of_here] |].
    destruct (IH Hn H) as [? | [? ?]]; [by left |]. right. split; [done | by apply list_elem_of_further].
Qed.

Lemma jobs_ok_same g g' worker : same_jobs g g' -> jobs_ok (g, worker) -> jobs_ok (g', worker).
Proof.
  intros (Ej & Eb & En) [J1 J2 J3 J4 J5 J6 J7].
  constructor; simpl in *; rewrite ?Ej, ?Eb, ?En; done.
Qed.

Lemma store_jobs_ok g job : jobs_ok (g, Working job) -> jobs_ok (store_replay g job, Stored).
Proof.
  intros [J1 J2 J3 J4 J5 J6 J7]. simpl in *. destruct (J7 job eq_refl) as [He Hin].
  destruct (job_completes job He) as (v & Ev & Hv).
  assert (Eo : replay_outcome job = v) by (unfold replay_outcome; by rewrite Ev).
  assert (El : length (store_value (jb_id job) v (gw_replay_jobs g)) = length (gw_replay_jobs g)).
  { rewrite <- (length_fmap fst), store_value_ids. by rewrite length_fmap. }
  constructor; simpl; rewrite ?Eo; try done.
  - by rewrite El.
  - intros id x [[-> ->] | [_ H]]%store_value_entry; [| by apply (J4 _ x) | done].
    by apply (J4 _ (running_json job)).
  - by rewrite store_value_ids.
  - intros id x [[-> ->] | [Hne H]]%store_value_entry; [by left; exists job | | done].
    destruct (J6 _ _ H) as [? | (j & [= <-] & <- & _)]; [by left | done].
Qed.

Lemma release_jobs_ok g : jobs_ok (g, Stored) -> jobs_ok (release_replay g, Idle).
Proof.
  intros [J1 J2 J3 J4 J5 J6 J7]. simpl in *. constructor; simpl; try done.
  intros id v H. destruct (J6 id v H) as [? | (j & [=] & _)]. by left.
Qed.

(** A full list loses its first entry. *)
Lemma trim_snoc {A} (l : list A) x :
  (length l <= MAX_JOBS)%nat ->
  exists k, drop (length (l ++ [x]) - MAX_JOBS) (l ++ [x]) = drop k l ++ [x]
    /\ (length (drop k l ++ [x]) <= MAX_JOBS)%nat.
Proof.
  unfold MAX_JOBS. intros Hl. exists (length (l ++ [x]) - 32)%nat.
  rewrite drop_app_le by (rewrite length_app; simpl; lia). split; [done |].
  rewrite !length_app, length_drop. simpl. lia.
Qed.

Lemma u64_plain_range z r : u64_plain z = Ret r -> r = z /\ in_u64 z.
Proof.
  unfold u64_plain. destruct (u64_checked z) as [x |] eqn:E; [| done]. intros [= <-].
  by apply u64_checked_Some.
Qed.

Lemma u64_wrap_in z : in_u64 z -> u64_wrap z = z.
Proof. intros H. unfold u64_wrap. apply Z.mod_small. mach. Qed.

Lemma start_replay_ok g worker seed events g' value job :
  Z.of_nat events <= 1000000 -> jobs_ok (g, worker) ->
  start_replay g seed events = Ret (g', value, job) -> jobs_ok (g', from_option Working worker job).
Proof.
  intros He [J1 J2 J3 J4 J5 J6 J7] (n & Hn & E)%rbind_inv. simpl in *.
  apply u64_plain_range in Hn as [-> Hn].
  destruct (gw_replay_busy g).
  - injection E as <- _ <-. simpl. rewrite u64_wrap_in by mach. constructor; simpl; try done.
    intros id v H1. destruct (J4 id v H1) as (m & -> & Hm). exists m. split; [done | lia].
  - injection E as <- _ <-. simpl. destruct worker; try done.
    destruct (trim_snoc (gw_replay_jobs g) (job_name (gw_next_job g + 1),
      running_json (mkJob (job_name (gw_next_job g + 1)) seed events)) J1) as (k & Ek & Hk).
    fold (job_name (gw_next_job g + 1)). rewrite u64_wrap_in by mach. rewrite Ek.
    assert (Hsub : forall e, e ∈ drop k (gw_replay_jobs g) -> e ∈ gw_replay_jobs g)
      by (intros e; apply subseteq_drop).
    assert (Hnew : forall m v, (job_name m, v) ∈ gw_replay_jobs g -> m <= gw_next_job g).
    { intros m v H1. destruct (J4 _ v H1) as (m' & <-%(inj job_name) & Hm). lia. }
    constructor; simpl; try done.
    + intros id v [H1%Hsub | [= -> ->]%list_elem_of_singleton]%elem_of_app.
      * destruct (J4 id v H1) as (m & -> & Hm). exists m. split; [done | lia].
      * eexists. split; [done | mach].
    + rewrite fmap_app. apply NoDup_app. split_and!.
      * rewrite fmap_drop. rewrite <- (take_drop k), NoDup_app in J5. apply J5.
      * intros id ([id' v] & -> & H1%Hsub)%list_elem_of_fmap Hid%list_elem_of_singleton. simpl in Hid.
        subst id'. apply Hnew in H1. lia.
      * apply NoDup_singleton.
    + intros id v [H1%Hsub | [= -> ->]%list_elem_of_singleton]%elem_of_app; [| right; by eexists].
      destruct (J6 id v H1) as [? | (j & [=] & _)]. by left.
    + intros j [= <-]. split; [done |]. apply elem_of_app. right. by apply list_elem_of_singleton.
Qed.

Lemma serves_ok s s' : serves s s' -> jobs_ok s -> jobs_ok s'.
Proof.
  intros [w g worker rq g' resp job E | g job | g | g worker h] J.
  - destruct (answer_jobs _ _ _ _ _ _ E) as [[Hs ->] | (seed & events & v & He & Es)].
    + by apply (jobs_ok_same g).
    + by apply (start_replay_ok g _ seed events _ v).
  - by apply store_jobs_ok.
  - by apply release_jobs_ok.
  - by apply (jobs_ok_same g).
Qed.

Lemma served_ok control path token g worker :
  rtc serves (gateway_new control path token, Idle) (g, worker) -> jobs_ok (g, worker).
Proof.
  revert g worker. cut (forall s, rtc serves (gateway_new control path token, Idle) s -> jobs_ok s); [auto |].
  apply rtc_ind_r; [| intros s s' _ Hs; by apply serves_ok].
  constructor; simpl; try done; try apply NoDup_nil_2; try (by intros ? ? H%elem_of_nil). unfold MAX_JOBS. lia.
Qed.

End Jobs.

(** The events that a response hands out. *)
Definition events_of (request : Request) (response : Response) : list Value :=
  if String.eqb (rq_method request) "outputs" then
    match resp_result response ≫= get_field "events" with Some (Array values) => values | _ => [] end
  else [].

Section Outputs.
Context {P : Platform} {PL : PlatformLaws P} {D : Deserialize}.
Context (fuel : nat).
Context (error_message : Journal.JournalError IoError -> string) (path_display : Path -> string).
Context (run_id : Z) (events : list OutputEvent.t).
Hypothesis events_wf : Forall output_wf events.
Hypothesis events_size : Z.of_nat (24 + length (records_bytes crc32 events)) <= u64_max.

(** The gateway has handed out the first [m] events, and its reader has seen [k]
    bytes of the records. *)
Record handed_out (g : Gateway) (k m : nat) : Prop := {
  ho_tail : match gw_tail g with
            | Some t => tail_at crc32 events t k m
            | None => k = 0%nat /\ m = 0%nat
            end;
  ho_count : gw_delivered_outputs g = Z.of_nat m;
  ho_last : gw_last_output_seq g = from_option OutputEvent.output_seq 0 (list.last (take m events))
}.

(** The journal as the request finds it. *)
Definition finds (w : World) (k : nat) : Prop :=
  wo_open w = Ok tt /\ wo_journal w = file_at crc32 run_id events k.

Lemma fresh_tail : tail_at crc32 events (Journal.mkJournalTail 24 24 [] 0) 0 0.
Proof. constructor; cbn; try done; lia. Qed.

Lemma last_extend m n :
  from_option OutputEvent.output_seq (from_option OutputEvent.output_seq 0 (list.last (take m events)))
    (list.last (take n (drop m events)))
  = from_option OutputEvent.output_seq 0 (list.last (take (m + n) events)).
Proof.
  rewrite take_plus, last_app. by destruct (list.last (take n (drop m events))).
Qed.

Lemma poll_outputs_hands w limit g t k m k' :
  handed_out g k m -> tail_at crc32 events t k m -> (k <= k' <= length (records_bytes crc32 events))%nat ->
  finds w k' ->
  exists n g', poll_outputs error_message w limit g t = Ret (g', Ok (take n (drop m events)))
    /\ handed_out g' k' (m + n) /\ n = Nat.min limit (complete crc32 events k' - m).
Proof.
  intros [_ Hc Hl] Ht Hk [_ Ew]. unfold poll_outputs. rewrite Ew.
  destruct (poll_ok crc32 pl_crc32 (IoError := IoError) (wo_short w) run_id events events_wf events_size
              t k m k' limit Ht Hk) as (t' & E & Ht').
  set (d := take limit _) in *. rewrite E. cbn [rbind].
  assert (Ed : d = take (length d) (drop m events)).
  { unfold d. rewrite skipn_firstn_comm, take_take. apply take_length_take. }
  assert (Hd : (m + length d <= length events)%nat).
  { pose proof (ta_complete _ _ _ _ _ Ht'). pose proof (complete_le crc32 events k'). lia. }
  pose proof (records_bytes_count crc32 events).
  exists (length d). eexists. rewrite <- Ed. split; [done |]. split.
  - constructor; simpl; [done | |].
    + rewrite Hc, u64_wrap_in by mach. lia.
    + rewrite Hl, Ed at 1. rewrite <- Ed at 1. rewrite <- last_extend. by rewrite <- Ed.
  - unfold d. rewrite length_take, length_drop, length_take. pose proof (complete_le crc32 events k'). lia.
Qed.

Lemma next_outputs_hands w limit g k m k' :
  handed_out g k m -> (k <= k' <= length (records_bytes crc32 events))%nat -> finds w k' ->
  exists n g', next_outputs error_message w limit g = Ret (g', Ok (take n (drop m events)))
    /\ handed_out g' k' (m + n) /\ n = Nat.min limit (complete crc32 events k' - m).
Proof.
  intros Hg Hk Hw. pose proof (ho_tail g k m Hg) as Ht. unfold next_outputs.
  destruct (gw_tail g) as [t |]; [by apply (poll_outputs_hands w limit g t k) |].
  destruct Ht as [-> ->]. pose proof Hw as [-> ->]. rewrite open_ok by lia. cbn [rbind].
  apply (poll_outputs_hands w limit _ _ 0); [| apply fresh_tail | done | done].
  destruct Hg. constructor; simpl; [apply fresh_tail | done | done].
Qed.

(** * Requests *)

Definition same_reader (g g' : Gateway) : Prop :=
  gw_tail g' = gw_tail g /\ gw_delivered_outputs g' = gw_delivered_outputs g
  /\ gw_last_output_seq g' = gw_last_output_seq g.

Lemma handed_out_same g g' k m : same_reader g g' -> handed_out g k m -> handed_out g' k m.
Proof. intros (E1 & E2 & E3) [H1 H2 H3]. constructor; by rewrite ?E1, ?E2, ?E3. Qed.

Lemma refresh_loop_reader n : forall g g', refresh_loop n g = Ret g' -> same_reader g g'.
Proof.
  induction n as [| n IH]; intros g g'; [done |]. cbn [refresh_loop].
  destruct (take_snapshot _) as [h [s |]]; [intros ?%IH; done | by intros [= <-]].
Qed.

Lemma submitted_reader id seq g command g' resp job :
  submitted id seq (gateway_submit g command) = Ret (g', resp, job) -> same_reader g g'.
Proof. unfold gateway_submit. destruct (submit _ _) as [h []]; by intros [= <- _ _]. Qed.

Lemma start_replay_reader g seed n g' v job : start_replay g seed n = Ret (g', v, job) -> same_reader g g'.
Proof.
  unfold start_replay. intros (i & _ & H)%rbind_inv. destruct (gw_replay_busy g); by injection H as <- _ _.
Qed.

(** Methods other than these two leave the reader alone. *)
Lemma dispatch_method_reader w g rq seq g' resp job :
  rq_method rq <> "outputs"%string -> rq_method rq <> "resetJournal"%string ->
  dispatch_method fuel error_message path_display w g rq seq = Ret (g', resp, job) -> same_reader g g'.
Proof.
  intros Ho%eqb_neq Hr%eqb_neq. unfold dispatch_method. rewrite Ho, Hr. cbv zeta. methods.
  - intros ([g1 v] & (g2 & H%refresh_loop_reader & [= <- _])%rbind_inv & [= <- _ <-])%rbind_inv. done.
  - intros ([g1 v] & (g2 & H%refresh_loop_reader & [= <- _])%rbind_inv & [= <- _ <-])%rbind_inv. done.
  - destruct (kill_params _); by intros [= <- _ _].
  - destruct (account_enabled_params _); [apply submitted_reader | by intros [= <- _ _]].
  - unfold dispatch_limits. destruct (risk_limits_params _); [| by intros [= <- _ _]].
    repeat case_match; try (by intros [= <- _ _]). apply submitted_reader.
  - unfold dispatch_replay. destruct (replay_params _) as [p |]; [| by intros [= <- _ _]].
    case_match; [| by intros [= <- _ _]].
    intros ([[g1 v] j] & E%start_replay_reader & [= <- _ _])%rbind_inv. done.
  - by intros [= <- _ _].
  - by intros [= <- _ _].
Qed.

Lemma answer_hands w g rq g' resp job k m k' :
  handed_out g k m -> (k <= k' <= length (records_bytes crc32 events))%nat -> finds w k' ->
  rq_method rq <> "resetJournal"%string ->
  answer fuel error_message path_display w g rq = Ret (g', resp, job) ->
  exists n k2, (k <= k2 <= k')%nat /\ handed_out g' k2 (m + n)
    /\ events_of rq resp = json_output_event <$> take n (drop m events).
Proof.
  intros Hg Hk Hw Hr. unfold answer, dispatch.
  intros ([[g1 r1] j1] & H & [= <- <- <-])%rbind_inv. revert H.
  assert (Hkeep : forall r, same_reader g g1 -> resp_result r = None \/ rq_method rq <> "outputs"%string ->
    exists n k2, (k <= k2 <= k')%nat /\ handed_out g1 k2 (m + n)
      /\ events_of rq r = json_output_event <$> take n (drop m events)).
  { intros r Hs Hn. exists 0%nat, k. split; [lia |]. rewrite Nat.add_0_r.
    split; [by apply (handed_out_same g) |]. unfold events_of.
    destruct Hn as [-> | ->%eqb_neq]; [by destruct (String.eqb _ _) | done]. }
  repeat case_match; try (intros [= <- <- _]; apply Hkeep; [done | by left]).
  destruct (decide (rq_method rq = "outputs"%string)) as [Ho | Ho].
  - unfold dispatch_method, dispatch_outputs. rewrite Ho. cbv beta zeta. cbn [String.eqb]. simpl.
    match goal with |- context [next_outputs _ w ?limit g] =>
      destruct (next_outputs_hands w limit g k m k' Hg Hk Hw) as (n & g2 & -> & Hg2 & _) end.
    cbn [rbind]. intros [= <- <- _]. exists n, k'. split; [lia |]. split; [done |].
    unfold events_of. by rewrite Ho.
  - intros Hd. apply Hkeep; [by apply (dispatch_method_reader w g rq _ g1 r1 j1) in Hd | by right].
Qed.

(** The requests of a session, each with what it finds: the handle as the engine
    and others have left it, and the outside. *)
Fixpoint session (g : Gateway) (requests : list (ControlHandle * World * Request))
  : res (Gateway * list Response) :=
  match requests with
  | [] => Ret (g, [])
  | (h, w, request) :: requests =>
      let! (g, response, _) := answer fuel error_message path_display w (set_gw_control g h) request in
      let! (g, responses) := session g requests in
      Ret (g, response :: responses)
  end.

(** The journal grows from request to request, and nobody resets the reader. *)
Fixpoint journal_grows (k : nat) (requests : list (ControlHandle * World * Request)) : Prop :=
  match requests with
  | [] => True
  | (_, w, request) :: requests =>
      rq_method request <> "resetJournal"%string
      /\ exists k', (k <= k' <= length (records_bytes crc32 events))%nat /\ finds w k' /\ journal_grows k' requests
  end.

Definition handed (requests : list (ControlHandle * World * Request)) (responses : list Response) : list Value :=
  mjoin (zip_with (fun r response => events_of r.2 response) requests responses).

Lemma session_hands requests : forall g k kj m g' responses,
  handed_out g k m -> (k <= kj)%nat -> journal_grows kj requests -> session g requests = Ret (g', responses) ->
  exists n k2, handed_out g' k2 (m + n) /\ handed requests responses = json_output_event <$> take n (drop m events).
Proof.
  induction requests as [| [[h w] rq] requests IH]; intros g k kj m g' responses Hg Hk.
  - intros _ [= <- <-]. exists 0%nat, k. by rewrite Nat.add_0_r.
  - intros [Hr (k' & Hk' & Hw & Hj)]. cbn [session].
    intros ([[g1 r1] j1] & E & ([g2 rs] & Es & [= <- <-])%rbind_inv)%rbind_inv.
    apply (handed_out_same _ (set_gw_control g h)) in Hg; [| done].
    destruct (answer_hands w _ rq g1 r1 j1 k m k' Hg ltac:(lia) Hw Hr E) as (n1 & k1 & Hk1 & Hg1 & E1).
    destruct (IH g1 k1 k' (m + n1)%nat g2 rs Hg1 ltac:(lia) Hj Es) as (n2 & k2 & Hg2 & E2).
    exists (n1 + n2)%nat, k2. rewrite Nat.add_assoc. split; [done |].
    unfold handed in *. cbn [zip_with mjoin list_join]. simpl. unfold handed in E2. rewrite E1.
    etrans; [apply (f_equal (app _) E2) |]. rewrite <- fmap_app, take_plus, drop_drop. done.
Qed.

End Outputs.
