(* ===== verification/GatewayTheorems.v ===== *)
(** A concrete gateway, and what the gateway promises: only the holder of the
    token acts, every request is answered, outputs are handed out once, limits
    arrive as they were sent and replay jobs end with the engine's evidence. *)

From Stdlib Require Import Strings.String.
From stdpp Require Import strings pretty.
From S2P Require Import Prelude Enums Ids Events Read Canonical CanonicalProps Codec CodecTheorems.
From S2P Require Import Journal JournalProps JournalTheorems Queue QueueProps BTree Slab Book Market Account.
From S2P Require Import Config CoreState Core CoreApply CoreRun Replay ReplayTheorems Generator.
From S2P Require Import Snapshot Pipeline PipelineSamples Json Gateway GatewayProps.

(** The bytes fed, each cut to a byte. *)
Definition byte_hash : Blake3 bytes := {|
  hasher_new := [];
  hasher_update h bs := h ++ bs;
  hasher_finalize h := (fun b => b mod 256) <$> h
|}.

Lemma byte_laws : Blake3Laws byte_hash.
Proof.
  exists (fun bs => (fun b => b mod 256) <$> bs). intros chunks. simpl. f_equal. apply (plain_updates chunks []).
Defined.

Definition byte_platform : Platform := {|
  Store := gmap nat OrderNode;
  Hash := bytes;
  hash_blake3 := byte_hash;
  InRing := RingView EngineInput;
  OutRing := RingView OutputEvent.t;
  Commands := list ControlCommand.t * nat;
  Snapshots := list EngineSnapshot * nat;
  FileSink := bytes;
  IoError := unit;
  Path := unit;
  crc32 := sum32;
  open_file _ := Ok []
|}.

Lemma byte_platform_laws : PlatformLaws byte_platform.
Proof.
  split; try exact _.
  - exact byte_laws.
  - apply sum32_u32.
  - by intros [] sink [= <-].
Defined.

Lemma byte_digests (h : Hash (Platform := byte_platform)) : Forall is_byte (hasher_finalize h).
Proof.
  simpl. apply Forall_fmap, Forall_true. intros b. unfold is_byte. simpl.
  pose proof (Z.mod_pos_bound b 256). lia.
Qed.

(** * Deserialisers *)

Definition number_of (key : string) (v : Value) : option Z :=
  match get_field key v with Some (Number n) => Some n | _ => None end.

Definition string_of (key : string) (v : Value) : option string := get_field key v ≫= as_str.

Definition flag_of (key : string) (v : Value) : option bool :=
  match get_field key v with Some (Bool b) => Some b | _ => None end.

Definition required {A} (o : option A) : Result A string :=
  match o with Some x => Ok x | None => Err "missing field"%string end.

Definition sample_deserialize : Deserialize := {|
  outputs_params v := Ok (mkOutputsParams (number_of "limit" v));
  kill_params v := required (mkKillParams <$> flag_of "engaged" v);
  account_enabled_params v :=
    required (a ← number_of "account" v; b ← flag_of "enabled" v; Some (mkAccountEnabledParams a b));
  risk_limits_params v :=
    required (a ← number_of "account" v; q ← string_of "maxOrderQuantity" v;
              n ← string_of "maxOrderNotional" v; p ← string_of "maxPositionLots" v;
              e ← string_of "maxGrossExposure" v; c ← number_of "priceCollarTicks" v;
              Some (mkRiskLimitsParams a q n p e c));
  replay_params v :=
    required (s ← number_of "seed" v; e ← number_of "events" v; Some (mkReplayParams s e))
|}.

Definition sample_error (e : Journal.JournalError unit) : string := "journal error".
Definition sample_path (p : unit) : string := "engine.journal".

Definition ask (method : string) (params : Value) : Request :=
  mkRequest 1 "c-1" method (Some "secret"%string) params.

(** * A gateway *)

#[export] Existing Instances byte_platform byte_platform_laws sample_deserialize.

Definition sample_handle : ControlHandle :=
  mkControlHandle false ([], 4%nat) ([], 2%nat) 0 false.

Definition sample_gateway : Gateway :=
  gateway_new sample_handle tt (Some "secret"%string).

(** The journal with [k] bytes of its records written, read in pieces of 16. *)
Definition sample_world (k : nat) : World :=
  mkWorld 0 (Ok tt) (file_at sum32 77 journal_events k) (fun _ => 16%nat).

Definition sample_job : Job := mkJob "replay-1" 7 20.

Definition replay_request : Request :=
  ask "startReplay" (Object [("seed", Number 7); ("events", Number 20)]%string).

Section Theorems.
Context {P : Platform} {PL : PlatformLaws P} {D : Deserialize}.
Context (fuel : nat).
Context (error_message : Journal.JournalError IoError -> string) (path_display : Path -> string).

Abbreviation answer := (answer fuel error_message path_display) (only parsing).
Abbreviation dispatch := (dispatch fuel error_message path_display) (only parsing).
Abbreviation dispatch_method := (dispatch_method fuel error_message path_display) (only parsing).

(** * Authorisation *)

(** The caller presents the configured token. *)
Definition holds_token (g : Gateway) (token : option string) : Prop :=
  exists t, gw_token g = Some t /\ token = Some t.

Lemma authorized_spec g token : authorized g token = true <-> holds_token g token.
Proof.
  unfold authorized, holds_token. destruct (gw_token g) as [e |]; [| split; [done | by intros (? & ? & _)]].
  destruct token as [p |]; [| split; [done | by intros (? & _ & ?)]].
  rewrite constant_time_eq_spec. split; [intros ->%(inj as_bytes); eauto | by intros (? & [= ->] & [= ->])].
Qed.

(** The holder of the token reaches the method. *)
Lemma dispatch_authorized w g request :
  holds_token g (rq_token request) -> rq_schema_version request = GATEWAY_SCHEMA_VERSION ->
  dispatch w g request = dispatch_method w g request (as_of_engine_seq g).
Proof.
  intros Ht Hv. pose proof Ht as Ha. rewrite <- authorized_spec in Ha.
  assert (Hr : requires_token g = true) by (destruct Ht as (t & E & _); unfold requires_token; by rewrite E).
  unfold Gateway.dispatch. by rewrite Hv, Z.eqb_refl, Ha, Hr, !andb_false_r.
Qed.

Lemma snapshots_refresh g :
  (length (aq_items (ctl_snapshots (gw_control g))) < fuel)%nat ->
  exists g', refresh_snapshot fuel g = Ret g' /\ refreshed g g'
    /\ aq_items (ctl_snapshots (gw_control g')) = [].
Proof. intros (g' & E & R & Hi & _)%refresh_ok. eauto. Qed.

(** C35: Only the holder of the token acts.  A request without the configured
    token (none was configured, none is given, or another one) is answered; it
    starts no job, and the state it leaves differs from the state before in the
    observed snapshot at most: the kill latch, the command queue, the journal
    position, the counters and the replay jobs are those of before.  Unless the
    method is [health] nothing at all changes and the answer carries no result. *)
Theorem token_holder_only w g request :
  (length (aq_items (ctl_snapshots (gw_control g))) < fuel)%nat ->
  ~ holds_token g (rq_token request) ->
  exists g' response, answer w g request = Ret (g', response, None) /\ refreshed g g'
    /\ (rq_method request <> "health"%string ->
        g' = g /\ resp_ok response = false /\ resp_result response = None).
Proof.
  intros Hf Ht. rewrite <- authorized_spec, not_true_iff_false in Ht. unfold Gateway.answer, Gateway.dispatch.
  rewrite Ht. destruct (negb (rq_schema_version request =? _)); [by do 2 eexists |].
  destruct (is_protected (rq_method request)) eqn:Hp; cbn [andb negb].
  - destruct (requires_token g); by do 2 eexists.
  - unfold Gateway.dispatch_method, is_protected in *. simpl in Hp.
    destruct (String.eqb_spec (rq_method request) "health") as [Hh | _].
    + unfold health. destruct (snapshots_refresh g Hf) as (g' & -> & R & _). by do 2 eexists.
    + repeat (apply orb_false_elim in Hp as [? Hp]).
      repeat match goal with H : String.eqb _ _ = false |- _ => rewrite H; clear H end.
      by do 2 eexists.
Qed.

(** * Answers *)

(** A response to the command, with a result or with an error. *)
Definition formed (command_id : string) (r : Response) : Prop :=
  resp_schema_version r = GATEWAY_SCHEMA_VERSION /\ resp_command_id r = command_id
  /\ if resp_ok r then is_Some (resp_result r) /\ resp_error r = None
     else resp_result r = None /\ is_Some (resp_error r).

Lemma respond_formed id v seq : formed id (respond id v seq).
Proof. by repeat split; eexists. Qed.

Lemma failed_formed id code message seq : formed id (failed id code message seq).
Proof. by repeat split; eexists. Qed.

#[local] Hint Resolve respond_formed failed_formed : core.

(** What the next request needs. *)
Record serving (g : Gateway) : Prop := {
  sv_snapshots : (length (aq_items (ctl_snapshots (gw_control g))) < fuel)%nat;
  sv_tail t : gw_tail g = Some t -> tail_ok t
}.

Lemma refreshed_serving g g' :
  serving g -> refreshed g g' -> aq_items (ctl_snapshots (gw_control g')) = [] -> serving g'.
Proof.
  intros [Hs Ht] R Hi. constructor.
  - rewrite Hi. simpl. lia.
  - intros t. rewrite (rf_tail _ _ R). apply Ht.
Qed.

Lemma control_serving g h :
  ctl_snapshots h = ctl_snapshots (gw_control g) -> serving g -> serving (set_gw_control g h).
Proof. intros E [Hs Ht]. constructor; simpl; [by rewrite E | done]. Qed.

Lemma submit_serving g command : serving g -> serving (gateway_submit g command).1.
Proof.
  intros H. unfold gateway_submit, submit. destruct (aq_push _ _) as [q ok]. by apply control_serving.
Qed.

Section Outside.
Context (w : World).
Hypothesis Hbytes : Forall is_byte (wo_journal w).
Hypothesis Hsize : Z.of_nat (length (wo_journal w)) <= u64_max.

Lemma poll_outputs_total limit g t :
  serving g -> tail_ok t ->
  exists g' r, poll_outputs error_message w limit g t = Ret (g', r) /\ serving g'
    /\ gw_next_job g' = gw_next_job g.
Proof.
  intros [Hs _] Ht. unfold poll_outputs.
  destruct (poll_total (IoError := IoError) crc32 (wo_short w) (wo_journal w) t limit Ht Hbytes Hsize)
    as (t' & r & -> & Ht'). cbn [rbind].
  destruct r as [es | e]; do 2 eexists; (split; [done |]); (split; [| done]);
    (constructor; simpl; [done | by intros ? [= <-]]).
Qed.

Lemma next_outputs_total limit g :
  serving g -> exists g' r, next_outputs error_message w limit g = Ret (g', r) /\ serving g'
    /\ gw_next_job g' = gw_next_job g.
Proof.
  intros Hs. unfold next_outputs. destruct (gw_tail g) as [t |] eqn:Et.
  { apply poll_outputs_total; [done |]. by apply (sv_tail g Hs). }
  assert (Ho : exists opened, match wo_open w with
                 | Ok _ => Journal.open (IoError := IoError) (wo_journal w)
                 | Err error => Ret (Err (Journal.Io error))
                 end = Ret opened /\ forall t, opened = Ok t -> tail_ok t).
  { destruct (wo_open w); [apply open_total | by eexists]. }
  destruct Ho as (opened & -> & Ho). cbn [rbind].
  destruct opened as [t | []]; try (by do 2 eexists).
  apply (poll_outputs_total limit (set_gw_tail g (Some t))); [| by apply Ho].
  destruct Hs. constructor; [done |]. intros t' [= <-]. by apply Ho.
Qed.

Lemma start_replay_total g seed events :
  serving g -> 0 <= gw_next_job g < u64_max ->
  exists g' value job, start_replay g seed events = Ret (g', value, job) /\ serving g'
    /\ gw_next_job g' = gw_next_job g + 1.
Proof.
  intros [Hs Ht] Hn. unfold start_replay. rewrite u64_plain_in, u64_wrap_in by mach. cbn [rbind].
  destruct (gw_replay_busy g); do 3 eexists; (split; [reflexivity |]); (split; [by constructor | done]).
Qed.

(** The outcome of a dispatch. *)
Definition served (g : Gateway) (id : string) (d : res (Gateway * Response * option Job)) : Prop :=
  exists g' r job, d = Ret (g', r, job) /\ serving g' /\ formed id r
    /\ gw_next_job g <= gw_next_job g' <= gw_next_job g + 1.

Lemma served_now g g' id r job :
  serving g' -> formed id r -> gw_next_job g' = gw_next_job g -> served g id (Ret (g', r, job)).
Proof. intros Hs Hf Hn. do 3 eexists. split; [done |]. split; [done |]. split; [done | lia]. Qed.

Lemma submitted_served g id seq p :
  serving p.1 -> gw_next_job p.1 = gw_next_job g -> served g id (submitted id seq p).
Proof. destruct p as [g1 []]; intros Hs Hn; by apply served_now. Qed.

Lemma command_served g id seq command :
  serving g -> served g id (submitted id seq (gateway_submit g command)).
Proof.
  intros Hs. apply submitted_served; [by apply submit_serving |].
  unfold gateway_submit. by destruct (submit _ _).
Qed.

Lemma dispatch_method_served g request seq :
  serving g -> 0 <= gw_next_job g < u64_max ->
  served g (rq_command_id request) (dispatch_method w g request seq).
Proof.
  intros Hs Hn. unfold Gateway.dispatch_method. cbv zeta. methods.
  - unfold health. destruct (snapshots_refresh g (sv_snapshots g Hs)) as (g' & -> & R & Hi). cbn [rbind].
    apply served_now; [by apply (refreshed_serving g) | done | apply R].
  - unfold snapshot_json. destruct (snapshots_refresh g (sv_snapshots g Hs)) as (g' & -> & R & Hi).
    cbn [rbind]. apply served_now; [by apply (refreshed_serving g) | by case_match | apply R].
  - unfold dispatch_outputs. edestruct (next_outputs_total) as (g' & r & -> & Hs' & Hn'); [done |].
    cbn [rbind]. apply served_now; [done | by case_match | done].
  - destruct (kill_params _); apply served_now; try done.
    apply control_serving; [by destruct (kp_engaged _) | done].
  - destruct (account_enabled_params _); [by apply command_served | by apply served_now].
  - unfold dispatch_limits. destruct (risk_limits_params _); [| by apply served_now].
    repeat case_match; try (by apply served_now). by apply command_served.
  - unfold dispatch_replay. destruct (replay_params _) as [p |]; [| by apply served_now].
    destruct (rpp_events p <=? 1000000); [| by apply served_now].
    destruct (start_replay_total g (rpp_seed p) (Z.to_nat (rpp_events p)) Hs Hn)
      as (g' & v & job & -> & Hs' & Hn'). cbn [rbind]. do 3 eexists. split; [done |]. split; [done |].
    split; [done | lia].
  - apply served_now; [| done | done]. destruct Hs. by constructor.
  - apply served_now; [done | by case_match | done].
  - by apply served_now.
Qed.

Lemma answer_served g request :
  serving g -> 0 <= gw_next_job g < u64_max ->
  exists g' response job, answer w g request = Ret (g', response, job)
    /\ formed (rq_command_id request) response
    /\ resp_as_of_engine_seq response = pretty (as_of_engine_seq g')
    /\ serving g' /\ gw_next_job g <= gw_next_job g' <= gw_next_job g + 1.
Proof.
  intros Hs Hn. unfold Gateway.answer.
  assert (Hd : served g (rq_command_id request) (dispatch w g request)).
  { unfold Gateway.dispatch. repeat case_match; try (by apply served_now).
    by apply dispatch_method_served. }
  destruct Hd as (g' & r & job & -> & Hs' & (F1 & F2 & F3) & Hn'). cbn [rbind].
  do 3 eexists. split; [done |]. split; [by split_and! |]. by split; [| split; [| exact Hn']].
Qed.

End Outside.

(** What a journal path can hold. *)
Definition readable (w : World) : Prop :=
  Forall is_byte (wo_journal w) /\ Z.of_nat (length (wo_journal w)) <= u64_max.

(** The snapshot queue is bounded. *)
Definition few_snapshots (h : ControlHandle) : Prop := (length (aq_items (ctl_snapshots h)) < fuel)%nat.

Lemma session_served requests : forall g,
  (forall t, gw_tail g = Some t -> tail_ok t) ->
  0 <= gw_next_job g -> gw_next_job g + Z.of_nat (length requests) <= u64_max ->
  Forall (fun r => few_snapshots r.1.1 /\ readable r.1.2) requests ->
  exists g' responses, session fuel error_message path_display g requests = Ret (g', responses)
    /\ Forall2 (fun r => formed (rq_command_id r.2)) requests responses.
Proof.
  induction requests as [| [[h w] rq] requests IH]; intros g Ht H0 Hn Hr; [by do 2 eexists |].
  apply Forall_cons in Hr as [[Hf [Hb Hz]] Hr]. cbn [length] in Hn. cbn [session].
  assert (Hs : serving (set_gw_control g h)) by by constructor.
  destruct (answer_served w Hb Hz _ rq Hs ltac:(simpl; lia)) as (g1 & r1 & j1 & -> & F & _ & Hs1 & Hn1).
  cbn [rbind]. simpl in Hn1.
  destruct (IH g1 (sv_tail g1 Hs1) ltac:(lia) ltac:(lia) Hr) as (g' & rs & -> & F'). cbn [rbind].
  do 2 eexists. split; [done | by constructor].
Qed.

(** C36: Every request is answered.  Over any sequence of requests, whatever
    they ask, whatever the engine has done to the handle in between, whatever
    stands at the journal's path and however its reads are cut, nothing panics:
    there is one answer per request, in order; it repeats the command's
    identifier and carries either a result or an error. *)
Theorem every_request_answered control path token requests :
  Z.of_nat (length requests) <= u64_max ->
  Forall (fun r => few_snapshots r.1.1 /\ readable r.1.2) requests ->
  exists g responses,
    session fuel error_message path_display (gateway_new control path token) requests = Ret (g, responses)
    /\ Forall2 (fun r => formed (rq_command_id r.2)) requests responses.
Proof. intros Hn Hr. by apply session_served. Qed.

(** * Outputs *)

Section Outputs.
Context (run_id : Z) (events : list OutputEvent.t).
Hypothesis events_wf : Forall output_wf events.
Hypothesis events_size : Z.of_nat (24 + length (records_bytes crc32 events)) <= u64_max.

Lemma finds_readable w k :
  (k <= length (records_bytes crc32 events))%nat -> finds run_id events w k -> readable w.
Proof.
  intros Hk [_ E]. unfold readable. rewrite E. split.
  - unfold file_at. apply Forall_app_2; [apply header_bytes_ok |]. apply Forall_take, records_bytes_bytes.
  - rewrite file_at_length by done. lia.
Qed.

Lemma grows_readable requests : forall k,
  journal_grows run_id events k requests -> Forall (fun r => few_snapshots r.1.1) requests ->
  Forall (fun r => few_snapshots r.1.1 /\ readable r.1.2) requests.
Proof.
  induction requests as [| [[h w] rq] requests IH]; intros k; [done |].
  intros [_ (k' & Hk & Hw & Hj)] [Hf Hfs]%Forall_cons. constructor; [| by apply (IH k')].
  split; [done |]. apply (finds_readable w k'); [lia | done].
Qed.

(** How many events a request asks for. *)
Definition limit_of (request : Request) : nat :=
  Z.to_nat match outputs_params (rq_params request) with
           | Ok params => Z.min (default 1000 (op_limit params)) 10000
           | Err _ => 1000
           end.

(** A reader gets all there is.  An [outputs] request of the token's holder
    is answered with the events that follow those handed out before: as many as it
    asks for (never more than 10000) or, when the journal holds fewer complete
    records, all of these. *)
Theorem outputs_request_exact w g request k m k' :
  holds_token g (rq_token request) -> rq_schema_version request = GATEWAY_SCHEMA_VERSION ->
  rq_method request = "outputs"%string -> handed_out events g k m ->
  (k <= k' <= length (records_bytes crc32 events))%nat -> finds run_id events w k' ->
  let n := Nat.min (limit_of request) (complete crc32 events k' - m) in
  exists g' response, answer w g request = Ret (g', response, None)
    /\ resp_ok response = true
    /\ events_of request response = json_output_event <$> take n (drop m events)
    /\ handed_out events g' k' (m + n).
Proof.
  intros Ht Hv Hm Hg Hk Hw n. unfold Gateway.answer. rewrite (dispatch_authorized w g request Ht Hv).
  unfold Gateway.dispatch_method. rewrite Hm. cbv beta zeta. cbn [String.eqb]. simpl.
  unfold dispatch_outputs. fold (limit_of request).
  destruct (next_outputs_hands error_message run_id events events_wf events_size w (limit_of request) g k m k'
              Hg Hk Hw) as (n' & g' & -> & Hg' & ->). cbn [rbind]. fold n in Hg'. fold n.
  do 2 eexists. split; [done |]. split; [done |]. split; [| done]. unfold events_of. by rewrite Hm.
Qed.

(** C37: Outputs are handed out once and in order.  While the journal of a run
    grows, a session of any requests but [resetJournal] is answered, and the events
    in its answers, put together, are the JSON forms of the first events of the
    journal, each once; the gateway's counter is their number and its last output
    sequence is that of the last of them. *)
Theorem outputs_handed_out_once control path token requests :
  Z.of_nat (length requests) <= u64_max -> Forall (fun r => few_snapshots r.1.1) requests ->
  journal_grows run_id events 0 requests ->
  exists g responses n,
    session fuel error_message path_display (gateway_new control path token) requests = Ret (g, responses)
    /\ handed requests responses = json_output_event <$> take n events
    /\ (n <= length events)%nat
    /\ gw_delivered_outputs g = Z.of_nat n
    /\ gw_last_output_seq g = from_option OutputEvent.output_seq 0 (list.last (take n events)).
Proof.
  intros Hn Hf Hj. set (g0 := gateway_new control path token).
  destruct (session_served requests g0) as (g & rs & E & _); try done; [by apply (grows_readable requests 0) |].
  assert (H0 : handed_out events g0 0 0) by by constructor.
  destruct (session_hands fuel error_message path_display run_id events events_wf events_size requests
              g0 0 0 0 g rs H0 ltac:(done) Hj E) as (n & k & [H1 H2 H3] & Eh).
  exists g, rs, n. split_and!; try done. simpl in H1. destruct (gw_tail g); [| lia].
  pose proof (ta_complete _ _ _ _ _ H1). pose proof (complete_le crc32 events k). lia.
Qed.

End Outputs.

(** * Limits *)

(** Limits arrive as they were sent.  A [setRiskLimits] of the token's
    holder whose values are the decimal representations of numbers in the range
    of their types puts exactly those limits at the end of the command queue and
    is accepted when the queue has room; otherwise nothing changes and it is
    rejected. *)
Theorem limits_arrive w g request account quantity notional position gross collar :
  holds_token g (rq_token request) -> rq_schema_version request = GATEWAY_SCHEMA_VERSION ->
  rq_method request = "setRiskLimits"%string ->
  in_u64 quantity -> in_u128 notional -> in_u64 position -> in_u128 gross ->
  risk_limits_params (rq_params request)
  = Ok (mkRiskLimitsParams account (pretty quantity) (pretty notional) (pretty position) (pretty gross) collar) ->
  let queue := ctl_commands (gw_control g) in
  let limits := mkAccountLimits quantity notional position gross collar in
  exists g' response, answer w g request = Ret (g', response, None)
    /\ if decide (length (aq_items queue) < aq_slots queue)%nat then
         resp_ok response = true
         /\ aq_items (ctl_commands (gw_control g'))
            = aq_items queue ++ [ControlCommand.SetAccountLimits account limits]
       else g' = g /\ resp_error response = Some (mkErrorBody "rejected" "control queue is full").
Proof.
  intros Ht Hv Hm Hq Hno Hp Hg Ep queue limits. unfold Gateway.answer.
  rewrite (dispatch_authorized w g request Ht Hv).
  unfold Gateway.dispatch_method. rewrite Hm. cbv beta zeta. cbn [String.eqb].
  unfold dispatch_limits. rewrite Ep. cbn. rewrite !parse_uint_pretty by mach.
  unfold set_risk_limits, gateway_submit, submit. fold queue limits.
  destruct (decide _) as [Hl | Hl].
  - destruct (aq_push_ok queue (ControlCommand.SetAccountLimits account limits) Hl) as (E1 & E2 & _).
    destruct (aq_push queue _) as [q ok]. simpl in E1, E2. subst ok. by do 2 eexists.
  - rewrite aq_push_full by lia. do 2 eexists. split; [done |]. split; [| done].
    by destruct g as [[]].
Qed.

(** * Replay jobs *)

Lemma find_entry (jobs : list (string * Value)) id value :
  NoDup jobs.*1 ->
  snd <$> List.find (fun entry => String.eqb (fst entry) id) jobs = Some value <-> (id, value) ∈ jobs.
Proof.
  induction jobs as [| [i v] jobs IH]; simpl; [intros _; by rewrite elem_of_nil |].
  intros [Hi Hn]%NoDup_cons. specialize (IH Hn). rewrite elem_of_cons.
  destruct (String.eqb_spec i id) as [-> | Hne]; simpl.
  - split; [intros [= ->]; by left |]. intros [[= ->] | H]; [done |].
    exfalso. apply Hi, list_elem_of_fmap. by exists (id, value).
  - rewrite IH. split; [by right |]. by intros [[= -> ->] | H].
Qed.

(** C38: A replay job ends with the engine's evidence.  From the start of the
    gateway, whatever requests come, whatever the engine does to the handle and
    whenever the worker moves: there are at most 32 jobs; the busy flag is set
    exactly while a worker runs; a job the worker computes is reported as running;
    and every other job on record is reported with the counts and digests of the
    engine's run on the workload of its seed and size, so that no job fails and
    none is left running. *)
Theorem replay_jobs_sound control path token g worker :
  (forall h : Hash, Forall is_byte (hasher_finalize h)) ->
  rtc (serves fuel error_message path_display) (gateway_new control path token, Idle) (g, worker) ->
  (length (gw_replay_jobs g) <= MAX_JOBS)%nat
  /\ (gw_replay_busy g = false <-> worker = Idle)
  /\ (forall job, worker = Working job -> replay_status g (jb_id job) = Some (running_json job))
  /\ (forall id value, replay_status g id = Some value ->
       (exists job, worker = Working job /\ jb_id job = id)
       \/ exists job, jb_id job = id /\ job_evidence job value).
Proof.
  intros Hh Hr. destruct (served_ok fuel error_message path_display Hh control path token g worker Hr)
    as [J1 J2 J3 J4 J5 J6 J7]. simpl in *. split_and!; try done.
  - rewrite J2. by destruct worker.
  - intros job Hw. apply find_entry; [done |]. by apply J7.
  - intros id value H%find_entry; [| done]. destruct (J6 _ _ H) as [? | (job & ? & ? & _)]; [by right |].
    left. eauto.
Qed.

End Theorems.

(** * Witnesses *)

Abbreviation sample_answer := (Gateway.answer 3 sample_error sample_path) (only parsing).

(** A kill request without the token. *)
Lemma token_holder_only_witness :
  exists g' response,
    sample_answer (sample_world 0) sample_gateway
      (mkRequest 1 "c-1" "engageKill" None (Object [("engaged", Bool true)]%string)) = Ret (g', response, None)
    /\ refreshed sample_gateway g'
    /\ ("engageKill" <> "health" -> g' = sample_gateway /\ resp_ok response = false
        /\ resp_result response = None)%string.
Proof.
  apply (token_holder_only (P := byte_platform) 3 sample_error sample_path (sample_world 0) sample_gateway
           (mkRequest 1 "c-1" "engageKill" None (Object [("engaged", Bool true)]%string))).
  - simpl. lia.
  - intros (t & _ & [=]).
Defined.

(** A request that is refused, one that is unknown, and one for the outputs of a
    truncated file. *)
Definition sample_requests : list (ControlHandle * World * Request) :=
  [(sample_handle, sample_world 0, ask "setRiskLimits" Null);
   (sample_handle, sample_world 0, ask "nothing" Null);
   (sample_handle, mkWorld 0 (Ok tt) [1; 2; 3] (fun _ => 1%nat), ask "outputs" Null)]%string.

Lemma every_request_answered_witness :
  exists g responses,
    session 3 sample_error sample_path sample_gateway sample_requests = Ret (g, responses)
    /\ Forall2 (fun r => formed (rq_command_id r.2)) sample_requests responses.
Proof.
  apply (every_request_answered (P := byte_platform) 3 sample_error sample_path sample_handle tt
           (Some "secret"%string) sample_requests).
  - simpl. lia.
  - assert (Hw : readable (sample_world 0)).
    { apply (finds_readable (P := byte_platform) 77 journal_events ltac:(by vm_compute) _ 0); [lia | done]. }
    assert (Hs : few_snapshots 3 sample_handle) by (unfold few_snapshots; simpl; lia).
    assert (Hc : readable (mkWorld 0 (Ok tt) [1; 2; 3] (fun _ => 1%nat)))
      by (split; [by repeat constructor | simpl; lia]).
    apply Forall_cons; split; [by split |]. apply Forall_cons; split; [by split |].
    apply Forall_cons; split; [by split | apply Forall_nil_2].
Defined.

(** Two requests for outputs while the journal grows; the second record is
    complete at the second. *)
Definition output_requests : list (ControlHandle * World * Request) :=
  [(sample_handle, sample_world 50, ask "outputs" Null);
   (sample_handle, sample_world 120, ask "health" Null);
   (sample_handle, sample_world 120, ask "outputs" Null)]%string.

Lemma sample_size : Z.of_nat (24 + length (records_bytes sum32 journal_events)) <= u64_max.
Proof. by vm_compute. Qed.

Lemma sample_grows : journal_grows 77 journal_events 0 output_requests.
Proof.
  simpl. split; [done |]. exists 50%nat. split; [split; vm_compute; lia |]. split; [done |].
  split; [done |]. exists 120%nat. split; [split; vm_compute; lia |]. split; [done |].
  split; [done |]. exists 120%nat. split; [split; vm_compute; lia |]. done.
Qed.

Lemma outputs_handed_out_once_witness :
  exists g responses n,
    session 3 sample_error sample_path sample_gateway output_requests = Ret (g, responses)
    /\ handed output_requests responses = json_output_event <$> take n journal_events
    /\ (n <= length journal_events)%nat
    /\ gw_delivered_outputs g = Z.of_nat n
    /\ gw_last_output_seq g = from_option OutputEvent.output_seq 0 (list.last (take n journal_events)).
Proof.
  apply (outputs_handed_out_once (P := byte_platform) 3 sample_error sample_path 77 journal_events
           journal_events_wf sample_size sample_handle tt (Some "secret"%string) output_requests).
  - simpl. lia.
  - repeat constructor; simpl; lia.
  - apply sample_grows.
Defined.

Lemma outputs_request_exact_witness :
  exists g' response,
    sample_answer (sample_world 120) sample_gateway (ask "outputs" Null) = Ret (g', response, None)
    /\ resp_ok response = true
    /\ events_of (ask "outputs" Null) response = json_output_event <$> journal_events
    /\ handed_out journal_events g' 120 2.
Proof.
  assert (En : Nat.min (limit_of (ask "outputs" Null)) (complete sum32 journal_events 120 - 0) = 2%nat)
    by by vm_compute.
  pose proof (outputs_request_exact (P := byte_platform) 3 sample_error sample_path 77 journal_events
    journal_events_wf sample_size (sample_world 120) sample_gateway (ask "outputs" Null) 0 0 120) as T.
  cbv zeta in T. change (@crc32 byte_platform) with sum32 in T. rewrite En in T. apply T; clear T En.
  - by exists "secret"%string.
  - done.
  - done.
  - by constructor.
  - split; [lia | vm_compute; lia].
  - done.
Defined.

(** Limits whose gross exposure is more than 64 bits wide. *)
Definition limits_request (quantity notional position gross : string) : Request :=
  ask "setRiskLimits"
    (Object [("account", Number 1); ("maxOrderQuantity", Str quantity); ("maxOrderNotional", Str notional);
             ("maxPositionLots", Str position); ("maxGrossExposure", Str gross);
             ("priceCollarTicks", Number 50)]%string).

Lemma limits_request_params quantity notional position gross :
  risk_limits_params (rq_params (limits_request quantity notional position gross))
  = Ok (mkRiskLimitsParams 1 quantity notional position gross 50).
Proof. reflexivity. Qed.

Abbreviation wide_limits :=
  (limits_request (pretty 100) (pretty 5000) (pretty 20) (pretty 1180591620717411303424)) (only parsing).

Lemma limits_arrive_witness :
  exists g' response, sample_answer (sample_world 0) sample_gateway wide_limits = Ret (g', response, None)
    /\ resp_ok response = true
    /\ aq_items (ctl_commands (gw_control g'))
       = [ControlCommand.SetAccountLimits 1 (mkAccountLimits 100 5000 20 1180591620717411303424 50)].
Proof.
  assert (Ht : holds_token sample_gateway (rq_token wide_limits)) by by exists "secret"%string.
  assert (H1 : in_u64 100 /\ in_u128 5000 /\ in_u64 20 /\ in_u128 1180591620717411303424) by (split_and!; mach).
  destruct H1 as (Hq & Hn & Hp & Hg).
  destruct (limits_arrive (P := byte_platform) 3 sample_error sample_path (sample_world 0) sample_gateway
    wide_limits 1 100 5000 20 1180591620717411303424 50 Ht eq_refl eq_refl Hq Hn Hp Hg
    (limits_request_params _ _ _ _)) as (g' & response & E & C).
  exists g', response. split; [exact E |]. rewrite decide_True in C by (simpl; lia). exact C.
Defined.

(** A job that was started and has stored its value. *)
Lemma replay_jobs_sound_witness :
  exists g g', sample_answer (sample_world 0) sample_gateway replay_request
               = Ret (g, respond "c-1" (running_json sample_job) 0, Some sample_job)
    /\ g' = store_replay g sample_job
    /\ (length (gw_replay_jobs g') <= MAX_JOBS)%nat
    /\ (gw_replay_busy g' = false <-> Stored = Idle)
    /\ (forall job, Stored = Working job -> replay_status g' (jb_id job) = Some (running_json job))
    /\ (forall id value, replay_status g' id = Some value ->
         (exists job, Stored = Working job /\ jb_id job = id)
         \/ exists job, jb_id job = id /\ job_evidence (P := byte_platform) job value).
Proof.
  set (g := set_gw_jobs sample_gateway [("replay-1"%string, running_json sample_job)] true 1).
  exists g, (store_replay g sample_job).
  assert (E : sample_answer (sample_world 0) sample_gateway replay_request
              = Ret (g, respond "c-1" (running_json sample_job) 0, Some sample_job)) by reflexivity.
  split; [exact E |]. split; [exact eq_refl |].
  apply (replay_jobs_sound (P := byte_platform) 3 sample_error sample_path sample_handle tt
           (Some "secret"%string) (store_replay g sample_job) Stored byte_digests).
  eapply rtc_l; [exact (serves_request 3 sample_error sample_path _ _ Idle _ _ _ _ E) |].
  apply rtc_once. exact (serves_store 3 sample_error sample_path g sample_job).
Defined.
