(* ===== verification/Server.v ===== *)
(** The gateway's socket: the frames of a connection ([handle] of
    [crates/control-gateway/src/server.rs]) and the bound on connections (the accept
    loop of [serve_with]).

    serde's [from_slice] and [to_vec] are parameters.  A connection is the bytes
    that arrive in time and how it goes on after them; what other connections,
    replay workers and the engine do between two requests of a connection is a
    parameter too. *)

From Stdlib Require Import Strings.String.
From stdpp Require Import strings pretty.
From S2P Require Import Prelude Ids Events Read Canonical Journal Queue QueueProps Snapshot Pipeline.
From S2P Require Import PipelineSamples Json Gateway GatewayProps GatewayTheorems.

(** [Limits]; the timeout in milliseconds. *)
Record Limits := mkLimits {
  max_connections : nat;
  read_timeout_ms : Z
}.

Definition limits_default : Limits := mkLimits 32 15000.

(** * A connection *)

(** What follows the bytes that arrive: the read fails (the peer has closed), or
    nothing comes before the timeout. *)
Inductive Ending := Closed | Silent.

Inductive HandleError := TimedOut | FrameLength | ReadFailed | WriteFailed.

(** [timeout(read_timeout, stream.read_exact(..))]. *)
Inductive Read := ReadBytes (bs rest : bytes) | ReadError | ReadTimeout.

Definition read_exact (n : nat) (stream : bytes) (ending : Ending) : Read :=
  if (n <=? length stream)%nat then ReadBytes (take n stream) (drop n stream)
  else match ending with Closed => ReadError | Silent => ReadTimeout end.

Section Handle.
Context {P : Platform} {D : Deserialize}.
Context (fuel : nat).
Context (error_message : Journal.JournalError IoError -> string) (path_display : Path -> string).
Context (from_slice : bytes -> Result Request string) (to_vec : Response -> bytes).
(** What happens before the [i]-th request is handled, what it finds outside, and
    whether its response can be written. *)
Context (others : nat -> Gateway -> Gateway) (worlds : nat -> World) (writes : nat -> bool).

(** From the body of a frame to the response. *)
Definition respond_to (i : nat) (g : Gateway) (body : bytes) : res (Gateway * Response * option Job) :=
  let g := others i g in
  match from_slice body with
  | Ok request => answer fuel error_message path_display (worlds i) g request
  | Err error => Ret (g, failed "unknown" "bad_request" error (as_of_engine_seq g), None)
  end.

(** A length and that many bytes; [encoded.len() as u32] truncates. *)
Definition frame_of (encoded : bytes) : bytes :=
  le_bytes 4 (Z.of_nat (length encoded) mod 2 ^ 32) ++ encoded.

(** The loop of [handle]: the bytes written, the jobs started and how it ends.
    Every round reads four bytes and more, so that [n] above the length of the
    stream is enough. *)
Fixpoint handle_loop (n i : nat) (g : Gateway) (stream : bytes) (ending : Ending) (written : bytes)
    (jobs : list Job) : res (Gateway * bytes * list Job * Result unit HandleError) :=
  match n with
  | O => Panic
  | S n =>
      match read_exact 4 stream ending with
      | ReadTimeout => Ret (g, written, jobs, Err TimedOut)
      | ReadError => Ret (g, written, jobs, Ok tt)
      | ReadBytes length stream =>
          let len := from_le length in
          if (len =? 0) || (MAX_FRAME_BYTES <? len) then Ret (g, written, jobs, Err FrameLength)
          else
            match read_exact (Z.to_nat len) stream ending with
            | ReadTimeout => Ret (g, written, jobs, Err TimedOut)
            | ReadError => Ret (g, written, jobs, Err ReadFailed)
            | ReadBytes body stream =>
                let! (g, response, job) := respond_to i g body in
                let jobs := jobs ++ option_list job in
                if writes i then
                  handle_loop n (S i) g stream ending (written ++ frame_of (to_vec response)) jobs
                else Ret (g, written, jobs, Err WriteFailed)
            end
      end
  end.

Definition handle (g : Gateway) (stream : bytes) (ending : Ending)
  : res (Gateway * bytes * list Job * Result unit HandleError) :=
  handle_loop (S (length stream)) 0 g stream ending [] [].

End Handle.

(** * Connections *)

(** The counter [live] and the handlers that run. *)
Record Listener := mkListener {
  ls_live : Z;
  ls_running : nat
}.

Inductive Connection := Connect | Finish.

(** [fetch_add], the comparison with the bound, and [fetch_sub] when the
    connection is dropped; a handler that returns subtracts one. *)
Definition accept (limits : Limits) (l : Listener) (c : Connection) : Listener * bool :=
  match c with
  | Connect =>
      let current := ls_live l in
      let live := u64_wrap (current + 1) in
      if Z.of_nat (max_connections limits) <=? current then
        (mkListener (u64_wrap (live - 1)) (ls_running l), false)
      else (mkListener live (S (ls_running l)), true)
  | Finish => (mkListener (u64_wrap (ls_live l - 1)) (pred (ls_running l)), true)
  end.

(** * The demonstration feed

    [paced] of [crates/control-gateway/src/main.rs]. *)

(** [input.recv_time_ns = 1_000_000 + step * index as u64], one input after the
    other. *)
Fixpoint restamp (step index : Z) (inputs : list EngineInput) : res (list EngineInput) :=
  match inputs with
  | [] => Ret []
  | input :: inputs =>
      let! offset := u64_plain (step * index) in
      let! recv_time_ns := u64_plain (1000000 + offset) in
      let! rest := restamp step (index + 1) inputs in
      Ret (mkEngineInput (in_ingress_seq input) recv_time_ns (in_event input) :: rest)
  end.

Definition paced (inputs : list EngineInput) (events_per_second : Z) : res (list EngineInput) :=
  if events_per_second =? 0 then Ret inputs
  else restamp (1000000000 / Z.max events_per_second 1) 0 inputs.

Lemma restamp_ok step inputs : forall index,
  0 <= step -> 0 <= index -> 1000000 + step * (index + Z.of_nat (length inputs)) <= u64_max ->
  restamp step index inputs
  = Ret (imap (fun i input => mkEngineInput (in_ingress_seq input) (1000000 + step * (index + Z.of_nat i))
                                (in_event input)) inputs).
Proof.
  induction inputs as [| x inputs IH]; intros index Hs Hi Hn; [done |]. cbn [restamp length] in *.
  assert (Hb : 0 <= step * index <= step * (index + Z.of_nat (S (length inputs)))) by nia.
  rewrite u64_plain_in by mach. cbn [rbind]. rewrite u64_plain_in by mach. cbn [rbind].
  rewrite IH by (try nia; lia). cbn [rbind imap]. rewrite Z.add_0_r. f_equal. f_equal.
  apply imap_ext. intros i y _. simpl. f_equal. lia.
Qed.

(** Up to ten billion inputs are spread evenly, at the rate asked for, with their
    numbers and contents as they were. *)
Theorem paced_spreads inputs events_per_second :
  0 < events_per_second -> Z.of_nat (length inputs) <= 10000000000 ->
  paced inputs events_per_second
  = Ret (imap (fun i input => mkEngineInput (in_ingress_seq input)
                 (1000000 + 1000000000 / events_per_second * Z.of_nat i) (in_event input)) inputs).
Proof.
  intros Hr Hn. unfold paced. rewrite (proj2 (Z.eqb_neq _ _)), Z.max_l by lia.
  assert (Hd : 0 <= 1000000000 / events_per_second <= 1000000000).
  { split; [apply Z.div_pos; lia |]. apply Z.div_le_upper_bound; nia. }
  rewrite restamp_ok by (try mach; nia). do 2 f_equal.
Qed.

(** * Streams of frames *)

(** A body that the length check lets through. *)
Definition body_ok (body : bytes) : Prop := 0 < Z.of_nat (length body) <= MAX_FRAME_BYTES.

Definition length_bad (len : Z) : bool := (len =? 0) || (MAX_FRAME_BYTES <? len).

(** No frame can be read from these bytes: the length is missing, or refused, or
    the body is not complete. *)
Definition no_frame (rest : bytes) : Prop :=
  (length rest < 4)%nat \/ length_bad (from_le (take 4 rest)) = true
  \/ (length (drop 4 rest) < Z.to_nat (from_le (take 4 rest)))%nat.

(** How a connection ends on them. *)
Definition ends_on (rest : bytes) (ending : Ending) : Result unit HandleError :=
  if (length rest <? 4)%nat then match ending with Closed => Ok tt | Silent => Err TimedOut end
  else if length_bad (from_le (take 4 rest)) then Err FrameLength
  else match ending with Closed => Err ReadFailed | Silent => Err TimedOut end.

Lemma frame_length body : length (frame_of body) = (4 + length body)%nat.
Proof. unfold frame_of. by rewrite length_app, le_bytes_length. Qed.

Lemma frames_cons {A} (f : A -> bytes) x l : mjoin (f <$> x :: l) = f x ++ mjoin (f <$> l).
Proof. done. Qed.

Lemma body_length body :
  body_ok body -> from_le (le_bytes 4 (Z.of_nat (length body) mod 2 ^ 32)) = Z.of_nat (length body).
Proof.
  unfold body_ok, MAX_FRAME_BYTES. intros Hb. rewrite Z.mod_small by lia. apply from_le_le_bytes. lia.
Qed.

Lemma body_length_good body : body_ok body -> length_bad (Z.of_nat (length body)) = false.
Proof. unfold body_ok, length_bad. intros Hb. apply orb_false_intro; lia. Qed.

(** Every stream is a sequence of frames and a rest that is none. *)
Lemma stream_splits n : forall stream, (length stream < n)%nat -> Forall is_byte stream ->
  exists bodies rest, stream = mjoin (frame_of <$> bodies) ++ rest /\ Forall body_ok bodies /\ no_frame rest.
Proof.
  induction n as [| n IH]; intros stream Hn Hb; [lia |].
  assert (Hnone : no_frame stream -> exists bodies rest,
    stream = mjoin (frame_of <$> bodies) ++ rest /\ Forall body_ok bodies /\ no_frame rest)
    by (intros H; exists [], stream; by split_and!).
  destruct (decide (length stream < 4)%nat) as [Hs | Hs]; [apply Hnone; by left |].
  set (len := from_le (take 4 stream)).
  destruct (length_bad len) eqn:El; [apply Hnone; by right; left |].
  destruct (decide (length (drop 4 stream) < Z.to_nat len)%nat) as [Hd | Hd]; [apply Hnone; by right; right |].
  unfold length_bad in El. apply orb_false_elim in El as [E1%Z.eqb_neq E2%Z.ltb_ge].
  assert (Ht : Forall is_byte (take 4 stream)) by by apply Forall_take.
  pose proof (from_le_bound _ Ht) as Hbd. fold len in Hbd.
  assert (Hl : length (take (Z.to_nat len) (drop 4 stream)) = Z.to_nat len) by (rewrite length_take; lia).
  set (body := take (Z.to_nat len) (drop 4 stream)) in *.
  assert (Hok : body_ok body) by (unfold body_ok; lia).
  destruct (IH (drop (Z.to_nat len) (drop 4 stream))) as (bodies & rest & E & Hbs & Hr).
  { rewrite !length_drop. lia. }
  { by apply Forall_drop, Forall_drop. }
  exists (body :: bodies), rest. split; [| split; [by constructor | done]].
  rewrite frames_cons, <- app_assoc, <- E.
  unfold frame_of. rewrite Hl, Z.mod_small by (unfold MAX_FRAME_BYTES in *; lia).
  rewrite Z2Nat.id by lia. unfold len.
  replace 4%nat with (length (take 4 stream)) at 1 by (rewrite length_take; lia).
  rewrite le_bytes_from_le by done. rewrite <- app_assoc. unfold body. by rewrite !take_drop.
Qed.

Section Handle.
Context {P : Platform} {D : Deserialize}.
Context (fuel : nat).
Context (error_message : Journal.JournalError IoError -> string) (path_display : Path -> string).
Context (from_slice : bytes -> Result Request string) (to_vec : Response -> bytes).
Context (others : nat -> Gateway -> Gateway) (worlds : nat -> World) (writes : nat -> bool).

Abbreviation respond_to := (respond_to fuel error_message path_display from_slice others worlds) (only parsing).
Abbreviation handle_loop :=
  (handle_loop fuel error_message path_display from_slice to_vec others worlds writes) (only parsing).
Abbreviation handle :=
  (handle fuel error_message path_display from_slice to_vec others worlds writes) (only parsing).

(** The bodies answered one after the other. *)
Fixpoint converse (i : nat) (g : Gateway) (bodies : list bytes) : res (Gateway * list Response * list Job) :=
  match bodies with
  | [] => Ret (g, [], [])
  | body :: bodies =>
      let! (g, response, job) := respond_to i g body in
      let! (g, responses, jobs) := converse (S i) g bodies in
      Ret (g, response :: responses, option_list job ++ jobs)
  end.

Lemma handle_rest n i g rest ending written jobs :
  no_frame rest -> handle_loop (S n) i g rest ending written jobs = Ret (g, written, jobs, ends_on rest ending).
Proof.
  intros Hr. cbn [Server.handle_loop]. unfold read_exact at 1, ends_on.
  destruct (Nat.leb_spec 4 (length rest)) as [Hl | Hl].
  - rewrite (proj2 (Nat.ltb_ge _ _)) by done. fold (length_bad (from_le (take 4 rest))).
    destruct (length_bad _) eqn:El; [done |]. destruct Hr as [Hr | [Hr | Hr]]; [lia | by rewrite Hr in El |].
    unfold read_exact. rewrite (proj2 (Nat.leb_gt _ _)) by done. by destruct ending.
  - rewrite (proj2 (Nat.ltb_lt _ _)) by done. by destruct ending.
Qed.

Lemma handle_frame n i g body stream ending written jobs :
  body_ok body -> writes i = true ->
  handle_loop (S n) i g (frame_of body ++ stream) ending written jobs
  = let! (g, response, job) := respond_to i g body in
    handle_loop n (S i) g stream ending (written ++ frame_of (to_vec response)) (jobs ++ option_list job).
Proof.
  intros Hb Hw. cbn [Server.handle_loop]. unfold read_exact at 1, frame_of at 1 2 3. rewrite <- app_assoc.
  rewrite (proj2 (Nat.leb_le _ _)) by (rewrite length_app, le_bytes_length; lia).
  rewrite take_app_length', drop_app_length' by (by rewrite le_bytes_length).
  rewrite body_length by done. fold (length_bad (Z.of_nat (length body))). rewrite body_length_good by done.
  unfold read_exact. rewrite Nat2Z.id, (proj2 (Nat.leb_le _ _)) by (rewrite length_app; lia).
  rewrite take_app_length, drop_app_length, Hw. done.
Qed.

Lemma handle_frames bodies : forall n i g rest ending written jobs,
  Forall body_ok bodies -> (forall j, writes j = true) -> no_frame rest ->
  (length (mjoin (frame_of <$> bodies)) < n)%nat ->
  handle_loop n i g (mjoin (frame_of <$> bodies) ++ rest) ending written jobs
  = let! (g, responses, started) := converse i g bodies in
    Ret (g, written ++ mjoin ((fun r => frame_of (to_vec r)) <$> responses), jobs ++ started,
         ends_on rest ending).
Proof.
  induction bodies as [| body bodies IH]; intros n i g rest ending written jobs Hb Hw Hr Hn.
  - destruct n; [simpl in Hn; lia |]. simpl. rewrite !app_nil_r. by apply handle_rest.
  - apply Forall_cons in Hb as [Hb Hbs]. destruct n as [| n]; [lia |].
    rewrite frames_cons in *. rewrite length_app, frame_length in Hn.
    rewrite <- app_assoc, handle_frame by done. cbn [converse].
    destruct (respond_to i g body) as [[[g1 r1] j1] |]; [| done]. cbn [rbind].
    rewrite IH by (done || lia). destruct (converse (S i) g1 bodies) as [[[g2 rs] js] |]; [| done].
    cbn [rbind]. by rewrite frames_cons, !app_assoc.
Qed.

(** C39: A connection is a conversation.  Whatever bytes a client sends, they are
    a sequence of frames with admissible lengths and a rest that is none; while
    its writes succeed, the handler answers exactly the frames, one response frame
    each and in their order, hands the rest to nobody, and ends as the rest says:
    normally when the client closes between frames, otherwise with the error for a
    refused length, for a body cut short or for a client that falls silent. *)
Theorem connection_is_conversation g stream ending :
  Forall is_byte stream -> (forall i, writes i = true) ->
  exists bodies rest, stream = mjoin (frame_of <$> bodies) ++ rest /\ Forall body_ok bodies /\ no_frame rest
    /\ handle g stream ending
       = let! (g, responses, jobs) := converse 0 g bodies in
         Ret (g, mjoin ((fun r => frame_of (to_vec r)) <$> responses), jobs, ends_on rest ending).
Proof.
  intros Hb Hw. destruct (stream_splits _ stream (Nat.lt_succ_diag_r _) Hb) as (bodies & rest & E & Hbs & Hr).
  exists bodies, rest. split_and!; try done. unfold Server.handle. rewrite E at 2.
  apply handle_frames; try done. rewrite E, length_app. lia.
Qed.

End Handle.

(** * Connections *)

(** A handler ends once for each that was started. *)
Inductive listens (limits : Limits) : Listener -> Listener -> Prop :=
| listens_connect l : listens limits l (accept limits l Connect).1
| listens_finish l : (0 < ls_running l)%nat -> listens limits l (accept limits l Finish).1.

(** The connections are bounded.  The counter is at all times the number of
    handlers that run and never above the bound, and a client is turned away
    exactly when the bound is reached. *)
Theorem connections_bounded limits l :
  Z.of_nat (max_connections limits) <= u64_max -> rtc (listens limits) (mkListener 0 0) l ->
  ls_live l = Z.of_nat (ls_running l) /\ (ls_running l <= max_connections limits)%nat
  /\ ((accept limits l Connect).2 = true <-> (ls_running l < max_connections limits)%nat).
Proof.
  intros Hm Hl.
  assert (H : ls_live l = Z.of_nat (ls_running l) /\ (ls_running l <= max_connections limits)%nat).
  { revert l Hl. apply rtc_ind_r; [split; simpl; lia |]. intros l l' _ [m | m Hp] [E Hb]; simpl.
    - destruct (Z.leb_spec (Z.of_nat (max_connections limits)) (ls_live m)); simpl.
      + split; [| done]. rewrite E. unfold u64_wrap.
        rewrite Zminus_mod_idemp_l, Z.add_simpl_r. apply Z.mod_small. mach.
      + rewrite u64_wrap_in by mach. lia.
    - rewrite u64_wrap_in by mach. lia. }
  destruct H as [E Hb]. split_and!; try done. simpl. rewrite E.
  destruct (Z.leb_spec (Z.of_nat (max_connections limits)) (Z.of_nat (ls_running l))); simpl; split; try done; lia.
Qed.

(** * Witnesses *)

(** Bodies are not parsed here: everything is a request for the health. *)
Definition sample_from_slice (body : bytes) : Result Request string := Ok (ask "health" Null).
Definition sample_to_vec (r : Response) : bytes := as_bytes (resp_command_id r).

Abbreviation sample_converse :=
  (converse 3 sample_error sample_path sample_from_slice (fun _ g => g) (fun _ => sample_world 0)) (only parsing).

(** Two frames, then a length of zero. *)
Lemma connection_is_conversation_witness :
  let stream := [2; 0; 0; 0; 123; 125; 1; 0; 0; 0; 48; 0; 0; 0; 0; 7] in
  exists bodies rest, stream = mjoin (frame_of <$> bodies) ++ rest /\ Forall body_ok bodies /\ no_frame rest
    /\ handle 3 sample_error sample_path sample_from_slice sample_to_vec (fun _ g => g) (fun _ => sample_world 0)
         (fun _ => true) sample_gateway stream Closed
       = let! (g, responses, jobs) := sample_converse 0%nat sample_gateway bodies in
         Ret (g, mjoin ((fun r => frame_of (sample_to_vec r)) <$> responses), jobs, ends_on rest Closed).
Proof.
  apply (connection_is_conversation (P := byte_platform) 3 sample_error sample_path sample_from_slice
           sample_to_vec (fun _ g => g) (fun _ => sample_world 0) (fun _ => true) sample_gateway
           [2; 0; 0; 0; 123; 125; 1; 0; 0; 0; 48; 0; 0; 0; 0; 7] Closed).
  - by repeat constructor.
  - intros i. exact eq_refl.
Defined.

(** Two clients where one may connect. *)
Lemma connections_bounded_witness :
  ls_live (mkListener 1 1) = Z.of_nat (ls_running (mkListener 1 1)) /\ (1 <= 1)%nat
  /\ ((accept (mkLimits 1 15000) (mkListener 1 1) Connect).2 = true <-> (1 < 1)%nat).
Proof.
  apply (connections_bounded (mkLimits 1 15000) (mkListener 1 1)).
  - simpl. lia.
  - eapply rtc_l; [exact (listens_connect (mkLimits 1 15000) (mkListener 0 0)) |].
    apply rtc_once. exact (listens_connect (mkLimits 1 15000) (mkListener 1 1)).
Defined.
