(* ===== verification/Settlement.v ===== *)
(** Collateral and batch settlement on the ledger
    ([adapters/solana/programs/settlement/src/lib.rs]).

    The accounts live in one store keyed by address, as on the ledger: an
    account holds data of one type, and an [AccountInfo] passed twice is one
    entry of the store.  An instruction is a function of the store that
    returns the new store or an error; an error aborts the transaction, so the
    store stays as it was.  The constraints of the [#\[derive(Accounts)\]]
    structures are the guards at the front of each instruction.

    Code of other packages is a parameter: sha256, the derivation of program
    addresses, and the token program's transfer. *)

From S2P Require Import Prelude Read.

Abbreviation Pubkey := (list Z) (only parsing).

Definition MAX_LEGS : nat := 32.

(** [b"RLTL-SETTLE-V1  "]. *)
Definition MANIFEST_DOMAIN : bytes :=
  [82; 76; 84; 76; 45; 83; 69; 84; 84; 76; 69; 45; 86; 49; 32; 32].

(** * Data *)

Record Leg := mkLeg {
  leg_payer : nat;
  leg_payee : nat;
  leg_amount : Z
}.

Record Exchange := mkExchange {
  ex_authority : Pubkey;
  ex_mint : Pubkey;
  ex_vault : Pubkey;
  ex_bump : Z;
  ex_vault_bump : Z;
  ex_total_collateral : Z;
  ex_settlements : Z
}.

Record Collateral := mkCollateral {
  co_owner : Pubkey;
  co_exchange : Pubkey;
  co_balance : Z;
  co_frozen : bool;
  co_bump : Z
}.

Record Receipt := mkReceipt {
  rc_exchange : Pubkey;
  rc_settlement_id : bytes;
  rc_manifest_hash : bytes;
  rc_leg_count : Z;
  rc_applied_slot : Z
}.

(** What the token program keeps in a token account. *)
Record TokenAccount := mkTokenAccount {
  tk_mint : Pubkey;
  tk_authority : Pubkey;
  tk_amount : Z
}.

Inductive AccountData :=
| AExchange (e : Exchange)
| ACollateral (c : Collateral)
| AReceipt (r : Receipt)
| AToken (t : TokenAccount)
| AMint.

Abbreviation Store := (gmap (list Z) AccountData) (only parsing).

Inductive SettlementError :=
| ZeroAmount
| AccountFrozen
| InsufficientCollateral
| AmountOverflow
| EmptyBatch
| BatchTooLarge
| SelfSettlement
| MissingAccount
| WrongExchange
| DuplicateAccount
| AccountNotWritable
| InvalidCollateralAddress
| ManifestMismatch.

(** The errors of the constraints and of the token program. *)
Inductive FrameworkError :=
| ConstraintSigner
| ConstraintHasOne
| ConstraintSeeds
| ConstraintToken
| AccountNotInitialized
| AccountInUse
| TokenError.

Inductive Error :=
| Custom (e : SettlementError)
| Framework (e : FrameworkError).

(** * Fallible computations *)

Definition Tx (A : Type) : Type := Result A Error.

#[export] Instance tx_ret : MRet Tx := fun A a => Ok a.
#[export] Instance tx_bind : MBind Tx :=
  fun A B f m => match m with
                 | Ok a => f a
                 | Err e => Err e
                 end.

(** [require!] and the constraints. *)
Definition ensure (b : bool) (e : Error) : Tx unit := if b then Ok tt else Err e.

(** [ok_or(e)?]. *)
Definition some_or {A} (o : option A) (e : Error) : Tx A :=
  match o with
  | Some a => Ok a
  | None => Err e
  end.

(** [Account<T>]: the account exists and holds data of that type. *)
Definition load_exchange (st : Store) (k : Pubkey) : Tx Exchange :=
  match st !! k with
  | Some (AExchange e) => Ok e
  | _ => Err (Framework AccountNotInitialized)
  end.
Definition load_collateral (st : Store) (k : Pubkey) : Tx Collateral :=
  match st !! k with
  | Some (ACollateral c) => Ok c
  | _ => Err (Framework AccountNotInitialized)
  end.
Definition load_token (st : Store) (k : Pubkey) : Tx TokenAccount :=
  match st !! k with
  | Some (AToken t) => Ok t
  | _ => Err (Framework AccountNotInitialized)
  end.
Definition load_mint (st : Store) (k : Pubkey) : Tx unit :=
  match st !! k with
  | Some AMint => Ok tt
  | _ => Err (Framework AccountNotInitialized)
  end.

Definition key_eqb (a b : Pubkey) : bool := bool_decide (a = b).

(** Field updates. *)
Definition set_balance (c : Collateral) (b : Z) : Collateral :=
  mkCollateral (co_owner c) (co_exchange c) b (co_frozen c) (co_bump c).
Definition set_frozen (c : Collateral) (f : bool) : Collateral :=
  mkCollateral (co_owner c) (co_exchange c) (co_balance c) f (co_bump c).
Definition set_total (e : Exchange) (t : Z) : Exchange :=
  mkExchange (ex_authority e) (ex_mint e) (ex_vault e) (ex_bump e) (ex_vault_bump e) t
    (ex_settlements e).
Definition set_settlements (e : Exchange) (n : Z) : Exchange :=
  mkExchange (ex_authority e) (ex_mint e) (ex_vault e) (ex_bump e) (ex_vault_bump e)
    (ex_total_collateral e) n.

(** The seeds, as the bytes that are hashed. *)
Definition exchange_seeds (authority mint : Pubkey) : bytes :=
  [101; 120; 99; 104; 97; 110; 103; 101] ++ authority ++ mint.
Definition vault_seeds (exchange : Pubkey) : bytes := [118; 97; 117; 108; 116] ++ exchange.
Definition collateral_seeds (exchange owner : Pubkey) : bytes :=
  [99; 111; 108; 108; 97; 116; 101; 114; 97; 108] ++ exchange ++ owner.
Definition receipt_seeds (exchange : Pubkey) (settlement_id : bytes) : bytes :=
  [114; 101; 99; 101; 105; 112; 116] ++ exchange ++ settlement_id.

(** * Foreign code *)

Class Chain := {
  (** sha256. *)
  sha256 : bytes -> bytes;
  (** [Pubkey::create_program_address] on the seeds followed by the bump. *)
  program_address : bytes -> option Pubkey;
  (** The canonical address and bump of the seeds. *)
  find_program_address : bytes -> Pubkey * Z;
  (** [token::transfer] of the token program: source, destination, authority,
      amount. *)
  token_transfer : Store -> Pubkey -> Pubkey -> Pubkey -> Z -> option Store;
  (** The addresses that can sign a transaction. *)
  can_sign : Pubkey -> bool
}.

Class ChainLaws (C : Chain) : Prop := {
  find_is_program_address seeds k bump :
    find_program_address seeds = (k, bump) -> program_address (seeds ++ [bump]) = Some k;
  (** Addresses are hashes: no two preimages share one.  This idealises the
      collision resistance of the hash to injectivity on all byte strings. *)
  program_address_inj x y k : program_address x = Some k -> program_address y = Some k -> x = y;
  (** A program address has no private key. *)
  program_address_no_signer x k : program_address x = Some k -> can_sign k = false;
  (** A transfer moves [amount] between two token accounts of one mint, on the
      order of the source's authority, and touches nothing else.  Delegates, which
      the token program also lets transfer, are left out: the program approves none
      for its vaults. *)
  token_transfer_ok st from to auth amount st' :
    token_transfer st from to auth amount = Some st' ->
    exists tf tg, st !! from = Some (AToken tf) /\ st !! to = Some (AToken tg)
      /\ tk_authority tf = auth /\ tk_mint tf = tk_mint tg /\ amount <= tk_amount tf
      /\ (from = to -> st' = st)
      /\ (from <> to ->
          st' = <[to := AToken (mkTokenAccount (tk_mint tg) (tk_authority tg) (tk_amount tg + amount))]>
                  (<[from := AToken (mkTokenAccount (tk_mint tf) (tk_authority tf)
                                       (tk_amount tf - amount))]> st))
}.

Section Program.
Context `{C : Chain}.

(** [manifest_hash]. *)
Definition manifest_bytes (settlement_id : bytes) (exchange : Pubkey)
    (legs : list (Pubkey * Pubkey * Z)) : bytes :=
  MANIFEST_DOMAIN ++ settlement_id ++ exchange
  ++ le_bytes 2 (Z.of_nat (length legs) mod 2 ^ 16)
  ++ mjoin ((fun '(payer, payee, amount) => payer ++ payee ++ le_bytes 8 amount) <$> legs).

Definition manifest_hash (settlement_id : bytes) (exchange : Pubkey)
    (legs : list (Pubkey * Pubkey * Z)) : bytes :=
  sha256 (manifest_bytes settlement_id exchange legs).

(** [seeds = [..], bump = bump]: the address derives from its seeds. *)
Definition at_seeds (k : Pubkey) (seeds : bytes) (bump : Z) : Tx unit :=
  ensure (bool_decide (program_address (seeds ++ [bump]) = Some k)) (Framework ConstraintSeeds).

(** [init]: the canonical address of the seeds, not in use. *)
Definition init_at (st : Store) (k : Pubkey) (seeds : bytes) : Tx Z :=
  let '(expected, bump) := find_program_address seeds in
  _ ← ensure (key_eqb k expected) (Framework ConstraintSeeds);
  _ ← ensure (bool_decide (st !! k = None)) (Framework AccountInUse);
  mret bump.

Definition signed (k : Pubkey) : Tx unit := ensure (can_sign k) (Framework ConstraintSigner).

(** * Instructions *)

Definition initialize_exchange (st : Store) (authority exchange mint vault : Pubkey) : Tx Store :=
  _ ← signed authority;
  bump ← init_at st exchange (exchange_seeds authority mint);
  _ ← load_mint st mint;
  let st := <[exchange := AExchange (mkExchange [] [] [] 0 0 0 0)]> st in
  vault_bump ← init_at st vault (vault_seeds exchange);
  let st := <[vault := AToken (mkTokenAccount mint vault 0)]> st in
  mret (<[exchange := AExchange (mkExchange authority mint vault bump vault_bump 0 0)]> st).

Definition open_collateral (st : Store) (owner exchange collateral : Pubkey) : Tx Store :=
  _ ← signed owner;
  _ ← load_exchange st exchange;
  bump ← init_at st collateral (collateral_seeds exchange owner);
  mret (<[collateral := ACollateral (mkCollateral owner exchange 0 false bump)]> st).

(** The constraints of [DepositCollateral] and [WithdrawCollateral], which are
    the same. *)
Definition check_transfer (st : Store) (owner exchange collateral mint owner_tokens vault : Pubkey)
  : Tx (Exchange * Collateral) :=
  _ ← signed owner;
  e ← load_exchange st exchange;
  _ ← ensure (key_eqb (ex_vault e) vault) (Framework ConstraintHasOne);
  _ ← ensure (key_eqb (ex_mint e) mint) (Framework ConstraintHasOne);
  c ← load_collateral st collateral;
  _ ← ensure (key_eqb (co_owner c) owner) (Framework ConstraintHasOne);
  _ ← at_seeds collateral (collateral_seeds exchange owner) (co_bump c);
  _ ← load_mint st mint;
  t ← load_token st owner_tokens;
  _ ← ensure (key_eqb (tk_mint t) mint && key_eqb (tk_authority t) owner)
        (Framework ConstraintToken);
  _ ← load_token st vault;
  _ ← at_seeds vault (vault_seeds exchange) (ex_vault_bump e);
  mret (e, c).

Definition deposit_collateral (st : Store)
    (owner exchange collateral mint owner_tokens vault : Pubkey) (amount : Z) : Tx Store :=
  ec ← check_transfer st owner exchange collateral mint owner_tokens vault;
  let '(e, c) := ec in
  _ ← ensure (0 <? amount) (Custom ZeroAmount);
  _ ← ensure (negb (co_frozen c)) (Custom AccountFrozen);
  st ← some_or (token_transfer st owner_tokens vault owner amount) (Framework TokenError);
  balance ← some_or (u64_checked (co_balance c + amount)) (Custom AmountOverflow);
  total ← some_or (u64_checked (ex_total_collateral e + amount)) (Custom AmountOverflow);
  mret (<[collateral := ACollateral (set_balance c balance)]>
          (<[exchange := AExchange (set_total e total)]> st)).

Definition withdraw_collateral (st : Store)
    (owner exchange collateral mint owner_tokens vault : Pubkey) (amount : Z) : Tx Store :=
  ec ← check_transfer st owner exchange collateral mint owner_tokens vault;
  let '(e, c) := ec in
  _ ← ensure (0 <? amount) (Custom ZeroAmount);
  _ ← ensure (negb (co_frozen c)) (Custom AccountFrozen);
  _ ← ensure (amount <=? co_balance c) (Custom InsufficientCollateral);
  st ← some_or (token_transfer st vault owner_tokens vault amount) (Framework TokenError);
  balance ← some_or (u64_checked (co_balance c - amount)) (Custom AmountOverflow);
  total ← some_or (u64_checked (ex_total_collateral e - amount)) (Custom AmountOverflow);
  mret (<[collateral := ACollateral (set_balance c balance)]>
          (<[exchange := AExchange (set_total e total)]> st)).

Definition freeze_account (st : Store) (authority exchange collateral : Pubkey) (frozen : bool)
  : Tx Store :=
  _ ← signed authority;
  e ← load_exchange st exchange;
  _ ← ensure (key_eqb (ex_authority e) authority) (Framework ConstraintHasOne);
  c ← load_collateral st collateral;
  _ ← at_seeds collateral (collateral_seeds exchange (co_owner c)) (co_bump c);
  mret (<[collateral := ACollateral (set_frozen c frozen)]> st).

(** ** Settlement *)

(** [accounts] is [remaining_accounts]: keys with their writable flag. *)
Fixpoint check_accounts (st : Store) (exchange : Pubkey) (seen accounts : list (Pubkey * bool))
  : Tx unit :=
  match accounts with
  | [] => mret tt
  | (k, writable) :: accounts =>
      _ ← ensure writable (Custom AccountNotWritable);
      _ ← ensure (negb (existsb (fun other => key_eqb k (fst other)) seen))
            (Custom DuplicateAccount);
      c ← load_collateral st k;
      _ ← ensure (key_eqb (co_exchange c) exchange) (Custom WrongExchange);
      expected ← some_or (program_address (collateral_seeds exchange (co_owner c) ++ [co_bump c]))
                   (Custom InvalidCollateralAddress);
      _ ← ensure (key_eqb k expected) (Custom InvalidCollateralAddress);
      check_accounts st exchange (seen ++ [(k, writable)]) accounts
  end.

Fixpoint resolve (accounts : list (Pubkey * bool)) (legs : list Leg)
  : Tx (list (Pubkey * Pubkey * Z)) :=
  match legs with
  | [] => mret []
  | leg :: legs =>
      _ ← ensure (0 <? leg_amount leg) (Custom ZeroAmount);
      _ ← ensure (negb (leg_payer leg =? leg_payee leg)%nat) (Custom SelfSettlement);
      payer ← some_or (accounts !! leg_payer leg) (Custom MissingAccount);
      payee ← some_or (accounts !! leg_payee leg) (Custom MissingAccount);
      _ ← ensure (negb (key_eqb (fst payer) (fst payee))) (Custom SelfSettlement);
      rest ← resolve accounts legs;
      mret ((fst payer, fst payee, leg_amount leg) :: rest)
  end.

(** One leg: both accounts are read again from the store and written back,
    the payer first. *)
Definition apply_leg (st : Store) (accounts : list (Pubkey * bool)) (leg : Leg) : Tx Store :=
  payer_info ← some_or (accounts !! leg_payer leg) (Custom MissingAccount);
  payee_info ← some_or (accounts !! leg_payee leg) (Custom MissingAccount);
  payer ← load_collateral st (fst payer_info);
  payee ← load_collateral st (fst payee_info);
  _ ← ensure (negb (co_frozen payer) && negb (co_frozen payee)) (Custom AccountFrozen);
  _ ← ensure (leg_amount leg <=? co_balance payer) (Custom InsufficientCollateral);
  payer_balance ← some_or (u64_checked (co_balance payer - leg_amount leg)) (Custom AmountOverflow);
  payee_balance ← some_or (u64_checked (co_balance payee + leg_amount leg)) (Custom AmountOverflow);
  mret (<[fst payee_info := ACollateral (set_balance payee payee_balance)]>
          (<[fst payer_info := ACollateral (set_balance payer payer_balance)]> st)).

Fixpoint apply_legs (st : Store) (accounts : list (Pubkey * bool)) (legs : list Leg) : Tx Store :=
  match legs with
  | [] => mret st
  | leg :: legs =>
      st ← apply_leg st accounts leg;
      apply_legs st accounts legs
  end.

Definition settle_batch (st : Store) (slot : Z) (authority exchange receipt : Pubkey)
    (accounts : list (Pubkey * bool)) (settlement_id manifest : bytes) (legs : list Leg)
  : Tx Store :=
  _ ← signed authority;
  e ← load_exchange st exchange;
  _ ← ensure (key_eqb (ex_authority e) authority) (Framework ConstraintHasOne);
  _ ← init_at st receipt (receipt_seeds exchange settlement_id);
  let st := <[receipt := AReceipt (mkReceipt [] [] [] 0 0)]> st in
  _ ← ensure (negb (length legs =? 0)%nat) (Custom EmptyBatch);
  _ ← ensure (length legs <=? MAX_LEGS)%nat (Custom BatchTooLarge);
  _ ← check_accounts st exchange [] accounts;
  resolved ← resolve accounts legs;
  _ ← ensure (bool_decide (manifest_hash settlement_id exchange resolved = manifest))
        (Custom ManifestMismatch);
  st ← apply_legs st accounts legs;
  settlements ← some_or (u64_checked (ex_settlements e + 1)) (Custom AmountOverflow);
  mret (<[exchange := AExchange (set_settlements e settlements)]>
          (<[receipt := AReceipt (mkReceipt exchange settlement_id manifest
                                    (Z.of_nat (length legs) mod 2 ^ 16) slot)]> st)).

End Program.
