(* ===== verification/SettlementTheorems.v ===== *)
(** What the instructions of the settlement program do to the store of accounts,
    and what the program promises: a batch moves exactly the net of its legs, it
    settles at most once, and every reachable ledger is solvent. *)

From S2P Require Import Prelude Read Settlement.

Section Props.
Context `{C : Chain} `{!ChainLaws C}.
Implicit Types (st : gmap (list Z) AccountData).

(** * Taking a successful transaction apart *)

Lemma bind_ok {A B} (m : Tx A) (f : A -> Tx B) b :
  m ≫= f = Ok b -> exists a, m = Ok a /\ f a = Ok b.
Proof. destruct m; [by eauto | done]. Qed.

Lemma ensure_ok b e u : ensure b e = Ok u -> b = true.
Proof. by destruct b. Qed.

Lemma some_or_ok {A} (o : option A) e a : some_or o e = Ok a -> o = Some a.
Proof. by destruct o as [x |]; intros [= ->]. Qed.

Lemma load_exchange_ok st k e : load_exchange st k = Ok e -> st !! k = Some (AExchange e).
Proof. unfold load_exchange. intros H. repeat case_match; by simplify_eq. Qed.
Lemma load_collateral_ok st k c : load_collateral st k = Ok c -> st !! k = Some (ACollateral c).
Proof. unfold load_collateral. intros H. repeat case_match; by simplify_eq. Qed.
Lemma load_token_ok st k t : load_token st k = Ok t -> st !! k = Some (AToken t).
Proof. unfold load_token. intros H. repeat case_match; by simplify_eq. Qed.
Lemma load_mint_ok st k u : load_mint st k = Ok u -> st !! k = Some AMint.
Proof. unfold load_mint. intros H. repeat case_match; by simplify_eq. Qed.

Lemma key_eqb_ok a b : key_eqb a b = true -> a = b.
Proof. apply bool_decide_eq_true. Qed.

Lemma at_seeds_ok k seeds bump u :
  at_seeds k seeds bump = Ok u -> program_address (seeds ++ [bump]) = Some k.
Proof. by intros ?%ensure_ok%bool_decide_eq_true. Qed.

Lemma init_at_ok st k seeds bump :
  init_at st k seeds = Ok bump ->
  st !! k = None /\ program_address (seeds ++ [bump]) = Some k
  /\ find_program_address seeds = (k, bump).
Proof.
  unfold init_at. destruct (find_program_address seeds) as [k' bump'] eqn:E.
  intros (u & ->%ensure_ok%key_eqb_ok & (u' & Hn%ensure_ok%bool_decide_eq_true & [= ->])%bind_ok)%bind_ok.
  split_and!; [done | by apply find_is_program_address | done].
Qed.

Lemma signed_ok k u : signed k = Ok u -> can_sign k = true.
Proof. apply ensure_ok. Qed.

(** Splits [instruction = Ok st'] into the facts its guards establish. *)
Ltac tx :=
  repeat match goal with
    | H : _ ≫= _ = Ok _ |- _ =>
        let x := fresh "x" in let Hx := fresh "Hx" in apply bind_ok in H as (x & Hx & H)
    | H : ensure _ _ = Ok _ |- _ => apply ensure_ok in H
    | H : some_or _ _ = Ok _ |- _ => apply some_or_ok in H
    | H : load_exchange _ _ = Ok _ |- _ => apply load_exchange_ok in H
    | H : load_collateral _ _ = Ok _ |- _ => apply load_collateral_ok in H
    | H : load_token _ _ = Ok _ |- _ => apply load_token_ok in H
    | H : load_mint _ _ = Ok _ |- _ => apply load_mint_ok in H
    | H : at_seeds _ _ _ = Ok _ |- _ => apply at_seeds_ok in H
    | H : init_at _ _ _ = Ok _ |- _ => apply init_at_ok in H as (? & ? & ?)
    | H : signed _ = Ok _ |- _ => apply signed_ok in H
    | H : key_eqb _ _ = true |- _ => apply key_eqb_ok in H
    | H : mret _ = Ok _ |- _ => injection H as H
    | H : u64_checked _ = Some _ |- _ => apply u64_checked_Some in H as [? ?]
    | H : (_ && _) = true |- _ => apply andb_true_iff in H as [? ?]
    | H : negb _ = true |- _ => apply negb_true_iff in H
    | H : (_ <? _) = true |- _ => apply Z.ltb_lt in H
    | H : (_ <=? _) = true |- _ => apply Z.leb_le in H
    end; subst.

(** What the constraints of a deposit or a withdrawal establish. *)
Record transfer_ok st (owner exchange collateral mint owner_tokens vault : list Z)
    (e : Exchange) (c : Collateral) : Prop := {
  to_signer : can_sign owner = true;
  to_exchange : st !! exchange = Some (AExchange e);
  to_vault : ex_vault e = vault;
  to_collateral : st !! collateral = Some (ACollateral c);
  to_owner : co_owner c = owner;
  to_seeds : program_address (collateral_seeds exchange owner ++ [co_bump c]) = Some collateral;
  to_tokens : exists t, st !! owner_tokens = Some (AToken t) /\ tk_authority t = owner
}.

Lemma check_transfer_ok st owner exchange collateral mint owner_tokens vault e c :
  check_transfer st owner exchange collateral mint owner_tokens vault = Ok (e, c) ->
  transfer_ok st owner exchange collateral mint owner_tokens vault e c.
Proof. unfold check_transfer. intros H. tx. simplify_eq. constructor; eauto. Qed.

(** * The invariant *)

(** What an account holds for the owners of an exchange. *)
Definition contribution (exchange : list Z) (d : AccountData) : Z :=
  match d with
  | ACollateral c => if key_eqb (co_exchange c) exchange then co_balance c else 0
  | _ => 0
  end.

(** The sum of the balances of an exchange's collateral accounts. *)
Definition owed st (exchange : list Z) : Z := msum (contribution exchange) st.

Record ledger_ok st : Prop := {
  lo_balance k c : st !! k = Some (ACollateral c) -> in_u64 (co_balance c);
  lo_address k c : st !! k = Some (ACollateral c) ->
    program_address (collateral_seeds (co_exchange c) (co_owner c) ++ [co_bump c]) = Some k;
  lo_home k c : st !! k = Some (ACollateral c) ->
    exists e, st !! co_exchange c = Some (AExchange e);
  lo_total k e : st !! k = Some (AExchange e) -> ex_total_collateral e = owed st k;
  lo_vault_address k e : st !! k = Some (AExchange e) ->
    program_address (vault_seeds k ++ [ex_vault_bump e]) = Some (ex_vault e);
  lo_vault k e : st !! k = Some (AExchange e) ->
    exists t, st !! ex_vault e = Some (AToken t) /\ tk_authority t = ex_vault e
      /\ ex_total_collateral e <= tk_amount t
}.

Lemma owed_update st k d d' x :
  st !! k = Some d -> owed (<[k := d']> st) x = owed st x - contribution x d + contribution x d'.
Proof. apply msum_update. Qed.

Lemma owed_fresh st k d x :
  st !! k = None -> owed (<[k := d]> st) x = contribution x d + owed st x.
Proof. apply msum_insert_None. Qed.

(** An update that creates no exchange and no collateral account. *)
Record evolves st st' (delta : list Z -> Z) : Prop := {
  ev_exchange k e' : st' !! k = Some (AExchange e') ->
    exists e, st !! k = Some (AExchange e) /\ ex_vault e' = ex_vault e
      /\ ex_vault_bump e' = ex_vault_bump e
      /\ ex_total_collateral e' = ex_total_collateral e + delta k;
  ev_kept k e : st !! k = Some (AExchange e) -> exists e', st' !! k = Some (AExchange e');
  ev_collateral k c' : st' !! k = Some (ACollateral c') ->
    in_u64 (co_balance c')
    /\ exists c, st !! k = Some (ACollateral c) /\ co_owner c' = co_owner c
         /\ co_exchange c' = co_exchange c /\ co_bump c' = co_bump c;
  ev_owed k : owed st' k = owed st k + delta k;
  ev_vault k e t : st !! k = Some (AExchange e) -> st !! ex_vault e = Some (AToken t) ->
    exists t', st' !! ex_vault e = Some (AToken t') /\ tk_authority t' = tk_authority t
      /\ tk_amount t + delta k <= tk_amount t'
}.

Lemma evolves_ok st st' delta : ledger_ok st -> evolves st st' delta -> ledger_ok st'.
Proof.
  intros [L1 L2 L3 L4 L5 L6] [E1 E2 E3 E4 E5]. constructor.
  - intros k c' Hk. apply (E3 k c' Hk).
  - intros k c' Hk. destruct (E3 k c' Hk) as (_ & c & Hc & -> & -> & ->). by apply L2.
  - intros k c' Hk. destruct (E3 k c' Hk) as (_ & c & Hc & _ & -> & _).
    destruct (L3 k c Hc) as [e He]. by apply (E2 _ e).
  - intros k e' Hk. destruct (E1 k e' Hk) as (e & He & _ & _ & ->). by rewrite E4, (L4 k e He).
  - intros k e' Hk. destruct (E1 k e' Hk) as (e & He & -> & -> & _). by apply L5.
  - intros k e' Hk. destruct (E1 k e' Hk) as (e & He & -> & _ & ->).
    destruct (L6 k e He) as (t & Ht & Ha & Hle). destruct (E5 k e t He Ht) as (t' & Ht' & Ha' & Hle').
    exists t'. rewrite Ha'. split_and!; [done | done | lia].
Qed.

(** Two exchanges never share a vault. *)
Lemma vault_unique st k1 k2 e1 e2 :
  ledger_ok st -> st !! k1 = Some (AExchange e1) -> st !! k2 = Some (AExchange e2) ->
  ex_vault e1 = ex_vault e2 -> k1 = k2.
Proof.
  intros L H1 H2 E. pose proof (lo_vault_address _ L _ _ H1) as A1.
  pose proof (lo_vault_address _ L _ _ H2) as A2. rewrite <- E in A2.
  pose proof (program_address_inj _ _ _ A1 A2) as Es. apply app_inj_2 in Es as [Es _]; [| done].
  unfold vault_seeds in Es. by apply app_inv_head in Es.
Qed.

(** A vault is not an account a signer has authority over. *)
Lemma vault_not_signed st k e t :
  ledger_ok st -> st !! k = Some (AExchange e) -> st !! ex_vault e = Some (AToken t) ->
  can_sign (tk_authority t) = false.
Proof.
  intros L Hk Ht. destruct (lo_vault _ L _ _ Hk) as (t' & Ht' & Ha & _). simplify_eq.
  rewrite Ha. eapply program_address_no_signer, (lo_vault_address _ L _ _ Hk).
Qed.

(** A collateral account at the seeds of an exchange belongs to it. *)
Lemma collateral_home st k c exchange :
  ledger_ok st -> st !! k = Some (ACollateral c) ->
  program_address (collateral_seeds exchange (co_owner c) ++ [co_bump c]) = Some k ->
  co_exchange c = exchange.
Proof.
  intros L Hk Hs. pose proof (program_address_inj _ _ _ (lo_address _ L _ _ Hk) Hs) as E.
  apply app_inj_2 in E as [E _]; [| done]. unfold collateral_seeds in E.
  apply app_inv_head in E. by apply app_inv_tail in E.
Qed.

(** * Token transfers *)

Record moved st st1 (from to : list Z) (amount : Z) : Prop := {
  mv_other k : (forall t, st !! k <> Some (AToken t)) -> st1 !! k = st !! k;
  mv_token k t : st !! k = Some (AToken t) ->
    exists t', st1 !! k = Some (AToken t') /\ tk_authority t' = tk_authority t
      /\ tk_amount t' = tk_amount t + (if key_eqb k to then amount else 0)
                        - (if key_eqb k from then amount else 0);
  mv_owed x : owed st1 x = owed st x
}.

Lemma key_eqb_refl k : key_eqb k k = true.
Proof. by apply bool_decide_eq_true. Qed.
Lemma key_eqb_ne a b : a <> b -> key_eqb a b = false.
Proof. by intros; apply bool_decide_eq_false. Qed.

Lemma transfer_moved st from to auth amount st1 :
  token_transfer st from to auth amount = Some st1 ->
  moved st st1 from to amount /\ exists t, st !! from = Some (AToken t) /\ tk_authority t = auth.
Proof.
  intros Ht. destruct (token_transfer_ok _ _ _ _ _ _ Ht) as (tf & tg & Hf & Hto & Ha & _ & Hle & Hs & Hd).
  split; [| by eauto]. destruct (decide (from = to)) as [E | Hne].
  - rewrite (Hs E). subst to. constructor; [done | | done]. intros k t Hk. exists t.
    split_and!; [done | done |]. case_match; lia.
  - rewrite (Hd Hne). constructor.
    + intros k Hk. rewrite !lookup_insert_ne; [done | |]; intros <-; by eapply Hk.
    + intros k t Hk. destruct (decide (k = to)) as [-> | Hkt].
      { rewrite lookup_insert_eq, key_eqb_refl, key_eqb_ne by done. simplify_eq. eexists.
        split_and!; [done | done | simpl; lia]. }
      rewrite lookup_insert_ne, (key_eqb_ne k to) by done.
      destruct (decide (k = from)) as [-> | Hkf].
      * rewrite lookup_insert_eq, key_eqb_refl. simplify_eq. eexists.
        split_and!; [done | done | simpl; lia].
      * rewrite lookup_insert_ne, key_eqb_ne by done. exists t. split_and!; [done | done | lia].
    + intros x. rewrite (owed_update _ to (AToken tg)) by (by rewrite lookup_insert_ne).
      rewrite (owed_update _ from (AToken tf)) by done. simpl. lia.
Qed.

Lemma moved_exchange st st1 from to amount k e :
  moved st st1 from to amount -> st1 !! k = Some (AExchange e) <-> st !! k = Some (AExchange e).
Proof.
  intros M. destruct (st !! k) as [d |] eqn:E.
  - destruct d as [| | | t |]; try (by rewrite (mv_other _ _ _ _ _ M) by (intros; by rewrite E); rewrite E).
    destruct (mv_token _ _ _ _ _ M _ _ E) as (t' & -> & _). done.
  - by rewrite (mv_other _ _ _ _ _ M), E by (intros; by rewrite E).
Qed.

Lemma moved_collateral st st1 from to amount k c :
  moved st st1 from to amount -> st1 !! k = Some (ACollateral c) <-> st !! k = Some (ACollateral c).
Proof.
  intros M. destruct (st !! k) as [d |] eqn:E.
  - destruct d as [| | | t |]; try (by rewrite (mv_other _ _ _ _ _ M) by (intros; by rewrite E); rewrite E).
    destruct (mv_token _ _ _ _ _ M _ _ E) as (t' & -> & _). done.
  - by rewrite (mv_other _ _ _ _ _ M), E by (intros; by rewrite E).
Qed.

(** * Instructions that move collateral *)

Definition at_key (exchange : list Z) (amount : Z) (k : list Z) : Z :=
  if key_eqb k exchange then amount else 0.

(** Changing an account's balance and its exchange's total by the same amount,
    with the vault following. *)
Lemma adjust_evolves st st1 from to moved_amount exchange collateral e c amount :
  ledger_ok st -> moved st st1 from to moved_amount ->
  st !! exchange = Some (AExchange e) -> st !! collateral = Some (ACollateral c) ->
  co_exchange c = exchange -> in_u64 (co_balance c + amount) ->
  (forall k e' t, st !! k = Some (AExchange e') -> st !! ex_vault e' = Some (AToken t) ->
     exists t', st1 !! ex_vault e' = Some (AToken t') /\ tk_authority t' = tk_authority t
       /\ tk_amount t + at_key exchange amount k <= tk_amount t') ->
  evolves st
    (<[collateral := ACollateral (set_balance c (co_balance c + amount))]>
       (<[exchange := AExchange (set_total e (ex_total_collateral e + amount))]> st1))
    (at_key exchange amount).
Proof.
  intros L M He Hc Hx Hu Hv.
  assert (Hne : collateral <> exchange) by (intros ->; by simplify_eq).
  pose proof (fun k e' => moved_exchange _ _ _ _ _ k e' M) as Mx.
  pose proof (fun k c' => moved_collateral _ _ _ _ _ k c' M) as Mc.
  constructor.
  - intros k e' Hk. destruct (decide (k = collateral)) as [-> | N1]; [by simplify_map_eq |].
    rewrite lookup_insert_ne in Hk by done. unfold at_key.
    destruct (decide (k = exchange)) as [-> | N2].
    + rewrite lookup_insert_eq in Hk. simplify_eq. rewrite key_eqb_refl. by exists e.
    + rewrite lookup_insert_ne in Hk by done. rewrite key_eqb_ne by done. apply Mx in Hk.
      exists e'. split_and!; [done.. | lia].
  - intros k e' Hk. assert (k <> collateral) by (intros ->; by simplify_eq).
    rewrite lookup_insert_ne by done. destruct (decide (k = exchange)) as [-> | N2].
    + rewrite lookup_insert_eq. by eexists.
    + rewrite lookup_insert_ne by done. exists e'. by apply Mx.
  - intros k c' Hk. destruct (decide (k = collateral)) as [-> | N1].
    + rewrite lookup_insert_eq in Hk. simplify_eq. split; [done |]. by exists c.
    + rewrite lookup_insert_ne in Hk by done. destruct (decide (k = exchange)) as [-> | N2].
      { by rewrite lookup_insert_eq in Hk. }
      rewrite lookup_insert_ne in Hk by done. apply Mc in Hk.
      split; [by eapply lo_balance | by exists c'].
  - intros k. rewrite (owed_update _ collateral (ACollateral c)).
    2:{ rewrite lookup_insert_ne by done. by apply Mc. }
    rewrite (owed_update _ exchange (AExchange e)) by (by apply Mx).
    rewrite (mv_owed _ _ _ _ _ M). simpl. rewrite Hx. unfold at_key.
    destruct (decide (k = exchange)) as [-> | N]; [rewrite key_eqb_refl; lia |].
    rewrite !key_eqb_ne by done. lia.
  - intros k e' t Hk Ht. destruct (Hv k e' t Hk Ht) as (t' & Ht' & Ha & Hle).
    exists t'. rewrite !lookup_insert_ne; [done | |]; intros E; rewrite <- E in Ht; by simplify_eq.
Qed.

Lemma deposit_ok st owner exchange collateral mint owner_tokens vault amount st' :
  ledger_ok st ->
  deposit_collateral st owner exchange collateral mint owner_tokens vault amount = Ok st' ->
  ledger_ok st'.
Proof.
  intros L H. unfold deposit_collateral in H. apply bind_ok in H as ([e c] & T & H).
  apply check_transfer_ok in T as [Ts Te Tv Tc <- Tseeds (to_ & Tt & Ta)]. tx.
  destruct (transfer_moved _ _ _ _ _ _ Hx1) as [M _].
  eapply evolves_ok; [done |]. eapply adjust_evolves; [done | done | done | done | | done |].
  - by eapply collateral_home.
  - intros k e' t Hk Ht. destruct (mv_token _ _ _ _ _ M _ _ Ht) as (t' & Ht' & Ha' & Hamt).
    exists t'. split_and!; [done | done |]. rewrite Hamt.
    rewrite (key_eqb_ne _ owner_tokens).
    2:{ intros E. rewrite <- E in Tt. rewrite Ht in Tt. injection Tt as <-.
        pose proof (vault_not_signed _ _ _ _ L Hk Ht) as Hns. congruence. }
    unfold at_key. destruct (decide (k = exchange)) as [-> | N].
    + simplify_eq. rewrite !key_eqb_refl. lia.
    + rewrite (key_eqb_ne k) by done. case_match; lia.
Qed.

Lemma withdraw_ok st owner exchange collateral mint owner_tokens vault amount st' :
  ledger_ok st ->
  withdraw_collateral st owner exchange collateral mint owner_tokens vault amount = Ok st' ->
  ledger_ok st'.
Proof.
  intros L H. unfold withdraw_collateral in H. apply bind_ok in H as ([e c] & T & H).
  apply check_transfer_ok in T as [Ts Te Tv Tc <- Tseeds (to_ & Tt & Ta)]. tx.
  destruct (transfer_moved _ _ _ _ _ _ Hx2) as [M _].
  eapply evolves_ok; [done |].
  apply (adjust_evolves _ _ _ _ _ _ _ _ _ (- amount) L M Te Tc); [by eapply collateral_home | done |].
  intros k e' t Hk Ht. destruct (mv_token _ _ _ _ _ M _ _ Ht) as (t' & Ht' & Ha' & Hamt).
  exists t'. split_and!; [done | done |]. rewrite Hamt. unfold at_key.
  destruct (decide (k = exchange)) as [-> | N].
  - simplify_eq. rewrite !key_eqb_refl. case_match; lia.
  - rewrite (key_eqb_ne k), (key_eqb_ne _ (ex_vault e)); [case_match; lia | | done].
    intros E. apply N. by eapply vault_unique.
Qed.

(** * Legs *)

(** What a list of resolved legs does to an address. *)
Fixpoint net (resolved : list (list Z * list Z * Z)) (k : list Z) : Z :=
  match resolved with
  | [] => 0
  | (payer, payee, amount) :: resolved =>
      (if key_eqb k payee then amount else 0) - (if key_eqb k payer then amount else 0)
      + net resolved k
  end.

Definition touched (resolved : list (list Z * list Z * Z)) (k : list Z) : Prop :=
  exists payer payee amount, (payer, payee, amount) ∈ resolved /\ (k = payer \/ k = payee).

Lemma set_balance_twice c x y : set_balance (set_balance c x) y = set_balance c y.
Proof. done. Qed.

Lemma set_balance_same c : set_balance c (co_balance c) = c.
Proof. by destruct c. Qed.

(** One leg between two different addresses. *)
Record leg_effect st st' (payer payee : list Z) (amount : Z) (cp cq : Collateral) : Prop := {
  le_payer : st !! payer = Some (ACollateral cp);
  le_payee : st !! payee = Some (ACollateral cq);
  le_thawed : co_frozen cp = false /\ co_frozen cq = false;
  le_funded : amount <= co_balance cp;
  le_range : in_u64 (co_balance cp - amount) /\ in_u64 (co_balance cq + amount);
  le_store : st' = <[payee := ACollateral (set_balance cq (co_balance cq + amount))]>
                     (<[payer := ACollateral (set_balance cp (co_balance cp - amount))]> st)
}.

Lemma apply_leg_ok st accounts leg st' :
  apply_leg st accounts leg = Ok st' ->
  exists p q cp cq, accounts !! leg_payer leg = Some p /\ accounts !! leg_payee leg = Some q
    /\ leg_effect st st' (fst p) (fst q) (leg_amount leg) cp cq.
Proof.
  unfold apply_leg. intros H. tx. do 4 eexists. split_and!; [done | done |]. by constructor.
Qed.

Lemma resolve_cons accounts leg legs rs :
  resolve accounts (leg :: legs) = Ok rs ->
  exists p q rs', accounts !! leg_payer leg = Some p /\ accounts !! leg_payee leg = Some q
    /\ fst p <> fst q /\ 0 < leg_amount leg /\ resolve accounts legs = Ok rs'
    /\ rs = (fst p, fst q, leg_amount leg) :: rs'.
Proof.
  cbn [resolve]. intros H. tx. do 3 eexists. split_and!; try done.
  intros E. rewrite E, key_eqb_refl in *. done.
Qed.

(** After one leg an account has its balance moved by the leg, the rest of it
    and everything else stays. *)
Lemma leg_lookup st st' payer payee amount cp cq k c :
  leg_effect st st' payer payee amount cp cq -> payer <> payee -> 0 < amount ->
  st !! k = Some (ACollateral c) ->
  let d := (if key_eqb k payee then amount else 0) - (if key_eqb k payer then amount else 0) in
  st' !! k = Some (ACollateral (set_balance c (co_balance c + d)))
  /\ (in_u64 (co_balance c) -> in_u64 (co_balance c + d))
  /\ (k = payer \/ k = payee -> co_frozen c = false).
Proof.
  intros [Hp Hq [F1 F2] Hf [R1 R2] ->] Hne Ha Hk d. unfold d.
  destruct (decide (k = payee)) as [-> | N1].
  - rewrite lookup_insert_eq, key_eqb_refl, key_eqb_ne by done. simplify_eq.
    rewrite Z.sub_0_r. by split_and!.
  - rewrite lookup_insert_ne, (key_eqb_ne k payee) by done. destruct (decide (k = payer)) as [-> | N2].
    + rewrite lookup_insert_eq, key_eqb_refl. simplify_eq.
      rewrite Z.sub_0_l, Z.add_opp_r. by split_and!.
    + rewrite lookup_insert_ne, key_eqb_ne by done. rewrite Z.sub_0_r, Z.add_0_r, set_balance_same.
      split_and!; [done | done |]. by intros [-> | ->].
Qed.

Lemma leg_other st st' payer payee amount cp cq k :
  leg_effect st st' payer payee amount cp cq ->
  (forall c, st !! k <> Some (ACollateral c)) -> st' !! k = st !! k.
Proof.
  intros [Hp Hq _ _ _ ->] Hk. rewrite !lookup_insert_ne; [done | |]; intros <-; by eapply Hk.
Qed.

Lemma apply_legs_net st accounts legs rs st' :
  resolve accounts legs = Ok rs -> apply_legs st accounts legs = Ok st' ->
  (forall k c, st !! k = Some (ACollateral c) ->
     st' !! k = Some (ACollateral (set_balance c (co_balance c + net rs k)))
     /\ (in_u64 (co_balance c) -> in_u64 (co_balance c + net rs k))
     /\ (touched rs k -> co_frozen c = false))
  /\ (forall k, (forall c, st !! k <> Some (ACollateral c)) -> st' !! k = st !! k).
Proof.
  revert st rs. induction legs as [| leg legs IH]; intros st rs Hr Ha.
  - injection Hr as <-. injection Ha as <-. split; [| done]. intros k c Hk. simpl.
    rewrite Z.add_0_r, set_balance_same. split_and!; [done | done |].
    by intros (? & ? & ? & ?%not_elem_of_nil & _).
  - apply resolve_cons in Hr as (p & q & rs' & Hp & Hq & Hne & Hpos & Hr & ->).
    cbn [apply_legs] in Ha. apply bind_ok in Ha as (st1 & H1 & Ha).
    apply apply_leg_ok in H1 as (p' & q' & cp & cq & Hp' & Hq' & E). simplify_eq.
    destruct (IH _ _ Hr Ha) as [IH1 IH2]. split.
    + intros k c Hk. destruct (leg_lookup _ _ _ _ _ _ _ k c E Hne Hpos Hk) as (Hk1 & Hu1 & Hf1).
      destruct (IH1 _ _ Hk1) as (-> & Hu2 & Hf2). cbn [net]. simpl in Hu2, Hf2.
      rewrite set_balance_twice. simpl co_balance. rewrite <- !Z.add_assoc in *.
      split_and!; [done | by auto |].
      intros (? & ? & ? & [[= -> -> ->] | Hin]%elem_of_cons & Hor); [by apply Hf1 |].
      apply Hf2. do 3 eexists. eauto.
    + intros k Hk. rewrite (IH2 k), (leg_other _ _ _ _ _ _ _ k E Hk); [done |].
      intros c. rewrite (leg_other _ _ _ _ _ _ _ k E Hk). apply Hk.
Qed.

Lemma apply_legs_owed st accounts legs rs st' exchange x :
  resolve accounts legs = Ok rs -> apply_legs st accounts legs = Ok st' ->
  (forall p, p ∈ accounts -> exists c, st !! fst p = Some (ACollateral c) /\ co_exchange c = exchange) ->
  owed st' x = owed st x.
Proof.
  revert st rs. induction legs as [| leg legs IH]; intros st rs Hr Ha Hacc; [by injection Ha as <- |].
  apply resolve_cons in Hr as (p & q & rs' & Hp & Hq & Hne & Hpos & Hr & ->).
  cbn [apply_legs] in Ha. apply bind_ok in Ha as (st1 & H1 & Ha).
  apply apply_leg_ok in H1 as (p' & q' & cp & cq & Hp' & Hq' & E). simplify_eq.
  rewrite (IH _ _ Hr Ha).
  - destruct (Hacc p) as (cp' & Hcp & Ep); [by eapply list_elem_of_lookup_2 |].
    destruct (Hacc q) as (cq' & Hcq & Eq); [by eapply list_elem_of_lookup_2 |].
    destruct E as [Ep1 Eq1 _ _ _ ->]. simplify_eq.
    rewrite (owed_update _ (fst q) (ACollateral cq)) by (by rewrite lookup_insert_ne).
    rewrite (owed_update _ (fst p) (ACollateral cp)) by done. simpl.
    rewrite Eq. case_match; lia.
  - intros r Hin. destruct (Hacc r Hin) as (c & Hc & Hx).
    destruct (leg_lookup _ _ _ _ _ _ _ _ _ E Hne Hpos Hc) as (-> & _). by eexists.
Qed.

Lemma check_accounts_ok st exchange seen accounts u :
  check_accounts st exchange seen accounts = Ok u ->
  forall p, p ∈ accounts -> exists c, st !! fst p = Some (ACollateral c) /\ co_exchange c = exchange.
Proof.
  revert seen. induction accounts as [| [k w] accounts IH]; intros seen H p Hp; [set_solver |].
  cbn [check_accounts] in H. tx.
  apply elem_of_cons in Hp as [-> | Hp]; [by eexists | by eapply IH].
Qed.

(** * The other instructions *)

(** Data that is neither an exchange nor a collateral account. *)
Definition neutral (d : AccountData) : Prop :=
  match d with
  | AExchange _ | ACollateral _ => False
  | _ => True
  end.

Definition no_change (k : list Z) : Z := 0.

(** Writing neutral data over nothing or over a receipt. *)
Lemma write_neutral st k d :
  ledger_ok st -> neutral d -> (st !! k = None \/ exists r, st !! k = Some (AReceipt r)) ->
  ledger_ok (<[k := d]> st).
Proof.
  intros L Hd Hk. apply (evolves_ok st _ no_change L).
  assert (Hc : forall x, contribution x d = 0) by (by destruct d).
  constructor.
  - intros j e' Hj. destruct (decide (j = k)) as [-> | N].
    { rewrite lookup_insert_eq in Hj. simplify_eq. done. }
    rewrite lookup_insert_ne in Hj by done. exists e'. unfold no_change. split_and!; [done.. | lia].
  - intros j e Hj. exists e. rewrite lookup_insert_ne; [done |]. intros ->. naive_solver.
  - intros j c' Hj. destruct (decide (j = k)) as [-> | N].
    { rewrite lookup_insert_eq in Hj. simplify_eq. done. }
    rewrite lookup_insert_ne in Hj by done. split; [by eapply lo_balance | by exists c'].
  - intros x. unfold no_change. destruct Hk as [Hk | [r Hk]].
    + rewrite owed_fresh, Hc by done. lia.
    + rewrite (owed_update _ _ _ _ _ Hk), Hc. simpl. lia.
  - intros j e t Hj Ht. exists t. unfold no_change. rewrite lookup_insert_ne.
    + split_and!; [done | done | lia].
    + intros ->. naive_solver.
Qed.

(** Changing an exchange without its total, vault and bump, or a collateral
    account without its balance, owner, exchange and bump. *)
Lemma rewrite_account st k d d' :
  ledger_ok st -> st !! k = Some d ->
  match d, d' with
  | AExchange e, AExchange e' =>
      ex_vault e' = ex_vault e /\ ex_vault_bump e' = ex_vault_bump e
      /\ ex_total_collateral e' = ex_total_collateral e
  | ACollateral c, ACollateral c' =>
      co_owner c' = co_owner c /\ co_exchange c' = co_exchange c /\ co_bump c' = co_bump c
      /\ co_balance c' = co_balance c
  | _, _ => False
  end ->
  ledger_ok (<[k := d']> st).
Proof.
  intros L Hk Hd. apply (evolves_ok st _ no_change L). constructor.
  - intros j e' Hj. destruct (decide (j = k)) as [-> | N].
    + rewrite lookup_insert_eq in Hj. simplify_eq. destruct d; try done. exists e.
      unfold no_change. split_and!; [done | apply Hd | apply Hd | destruct Hd as (_ & _ & ->); lia].
    + rewrite lookup_insert_ne in Hj by done. exists e'. unfold no_change. split_and!; [done.. | lia].
  - intros j e Hj. destruct (decide (j = k)) as [-> | N].
    + rewrite lookup_insert_eq. simplify_eq. destruct d'; try done. by eexists.
    + rewrite lookup_insert_ne by done. by eexists.
  - intros j c' Hj. destruct (decide (j = k)) as [-> | N].
    + rewrite lookup_insert_eq in Hj. simplify_eq. destruct d; try done.
      destruct Hd as (E1 & E2 & E3 & ->). split; [by eapply lo_balance | by exists c].
    + rewrite lookup_insert_ne in Hj by done. split; [by eapply lo_balance | by exists c'].
  - intros x. unfold no_change. rewrite (owed_update _ _ _ _ _ Hk).
    destruct d, d'; try done; simpl; [lia |]. destruct Hd as (_ & -> & _ & ->). lia.
  - intros j e t Hj Ht. exists t. unfold no_change. rewrite lookup_insert_ne.
    + split_and!; [done | done | lia].
    + intros ->. simplify_eq. by destruct d'.
Qed.

Lemma freeze_ok st authority exchange collateral frozen st' :
  ledger_ok st -> freeze_account st authority exchange collateral frozen = Ok st' -> ledger_ok st'.
Proof. intros L H. unfold freeze_account in H. tx. by eapply rewrite_account. Qed.

Lemma open_collateral_ok st owner exchange collateral st' :
  ledger_ok st -> open_collateral st owner exchange collateral = Ok st' -> ledger_ok st'.
Proof.
  intros L H. unfold open_collateral in H. tx. destruct L as [L1 L2 L3 L4 L5 L6]. constructor.
  - intros k c [[<- [= <-]] | [_ Hk]]%lookup_insert_Some; [done | by eapply L1].
  - intros k c [[<- [= <-]] | [_ Hk]]%lookup_insert_Some; [done | by apply L2].
  - intros k c Hk. assert (exists e, st !! co_exchange c = Some (AExchange e)) as [e He].
    { apply lookup_insert_Some in Hk as [[<- [= <-]] | [_ Hk]]; [by eexists | by eapply L3]. }
    exists e. rewrite lookup_insert_ne; [done |]. intros ->. by simplify_eq.
  - intros k e [[<- Hd] | [N Hk]]%lookup_insert_Some; [done |]. rewrite owed_fresh by done.
    simpl. rewrite (L4 k e Hk). case_match; lia.
  - intros k e [[<- Hd] | [N Hk]]%lookup_insert_Some; [done | by apply L5].
  - intros k e [[<- Hd] | [N Hk]]%lookup_insert_Some; [done |].
    destruct (L6 k e Hk) as (t & Ht & ? & ?). exists t. rewrite lookup_insert_ne; [done |].
    intros ->. by simplify_eq.
Qed.

Lemma insert_under st i j x x0 y :
  i <> j -> <[i := x]> (<[j := y]> (<[i := x0]> st)) = <[i := x]> (<[j := y]> st).
Proof.
  intros Hne. apply map_eq. intros k.
  destruct (decide (k = i)) as [-> |]; [by rewrite !lookup_insert_eq |].
  rewrite !(lookup_insert_ne _ i) by done. destruct (decide (k = j)) as [-> |].
  - by rewrite !lookup_insert_eq.
  - by rewrite !lookup_insert_ne by done.
Qed.

Lemma initialize_ok st authority exchange mint vault st' :
  ledger_ok st -> initialize_exchange st authority exchange mint vault = Ok st' -> ledger_ok st'.
Proof.
  intros L H. unfold initialize_exchange in H. tx.
  rename select (_ !! vault = None) into Hv. apply lookup_insert_None in Hv as [Hv Hne].
  rewrite insert_under by done. set (st1 := <[vault := AToken (mkTokenAccount mint vault 0)]> st).
  assert (L1 : ledger_ok st1) by (apply write_neutral; [done | done | by left]).
  assert (Hfresh : st1 !! exchange = None) by (unfold st1; by rewrite lookup_insert_ne).
  assert (Ho : owed st1 exchange = 0).
  { apply msum_zero. intros k [| c | | |] Hk; simpl; try done.
    rewrite key_eqb_ne; [done |]. intros <-. destruct (lo_home _ L1 _ _ Hk) as [e He]. congruence. }
  pose proof L1 as [M1 M2 M3 M4 M5 M6]. constructor.
  - intros k c [[<- ?] | [_ Hk]]%lookup_insert_Some; [done | by eapply M1].
  - intros k c [[<- ?] | [_ Hk]]%lookup_insert_Some; [done | by apply M2].
  - intros k c [[<- ?] | [_ Hk]]%lookup_insert_Some; [done |]. destruct (M3 k c Hk) as [e He].
    exists e. rewrite lookup_insert_ne; [done |]. intros E. congruence.
  - intros k e Hk. rewrite owed_fresh by done. simpl.
    apply lookup_insert_Some in Hk as [[<- [= <-]] | [N Hk]]; [simpl; lia | by rewrite (M4 k e Hk)].
  - intros k e [[<- [= <-]] | [N Hk]]%lookup_insert_Some; [done | by apply M5].
  - intros k e [[<- [= <-]] | [N Hk]]%lookup_insert_Some; simpl.
    + eexists. rewrite lookup_insert_ne by done. unfold st1. rewrite lookup_insert_eq.
      split_and!; [done | done | simpl; lia].
    + destruct (M6 k e Hk) as (t & Ht & ? & ?). exists t. rewrite lookup_insert_ne; [done |].
      intros E. congruence.
Qed.

(** * Settling a batch *)

Record settled st (slot : Z) (authority exchange receipt : list Z)
    (accounts : list (list Z * bool)) (settlement_id manifest : list Z) (legs : list Leg)
    (st' : gmap (list Z) AccountData) (e : Exchange) (rs : list (list Z * list Z * Z))
    (st1 : gmap (list Z) AccountData) : Prop := {
  se_exchange : st !! exchange = Some (AExchange e);
  se_authority : ex_authority e = authority;
  se_receipt : st !! receipt = None;
  se_address : fst (find_program_address (receipt_seeds exchange settlement_id)) = receipt;
  se_count : (0 < length legs <= 32)%nat;
  se_accounts p : p ∈ accounts ->
    exists c, st !! fst p = Some (ACollateral c) /\ co_exchange c = exchange;
  se_resolve : resolve accounts legs = Ok rs;
  se_manifest : manifest_hash settlement_id exchange rs = manifest;
  se_legs : apply_legs (<[receipt := AReceipt (mkReceipt [] [] [] 0 0)]> st) accounts legs = Ok st1;
  se_settlements : in_u64 (ex_settlements e + 1);
  se_store : st' = <[exchange := AExchange (set_settlements e (ex_settlements e + 1))]>
               (<[receipt := AReceipt (mkReceipt exchange settlement_id manifest
                                         (Z.of_nat (length legs)) slot)]> st1)
}.

Lemma settle_batch_ok st slot authority exchange receipt accounts settlement_id manifest legs st' :
  settle_batch st slot authority exchange receipt accounts settlement_id manifest legs = Ok st' ->
  exists e rs st1, settled st slot authority exchange receipt accounts settlement_id manifest legs
                     st' e rs st1.
Proof.
  unfold settle_batch. intros H. tx.
  rename select (bool_decide _ = true) into Hm. apply bool_decide_eq_true in Hm.
  rename select (check_accounts _ _ _ _ = _) into Hacc.
  rename select ((length legs =? 0)%nat = false) into Hne. apply Nat.eqb_neq in Hne.
  rename select ((length legs <=? MAX_LEGS)%nat = true) into Hle. apply Nat.leb_le in Hle.
  unfold MAX_LEGS in Hle. do 3 eexists. econstructor; try done.
  - rename select (find_program_address _ = _) into Hf. by rewrite Hf.
  - lia.
  - intros p Hp. destruct (check_accounts_ok _ _ _ _ _ Hacc p Hp) as (c & Hc & Hx').
    exists c. split; [| done]. apply lookup_insert_Some in Hc as [[_ ?] | [_ ?]]; done.
  - by rewrite Z.mod_small by lia.
Qed.

Lemma settle_ok st slot authority exchange receipt accounts settlement_id manifest legs st' :
  ledger_ok st ->
  settle_batch st slot authority exchange receipt accounts settlement_id manifest legs = Ok st' ->
  ledger_ok st'.
Proof.
  intros L (e & rs & st1 & [He _ Hr _ _ Hacc Hres _ Hlegs _ ->])%settle_batch_ok.
  set (st0 := <[receipt := AReceipt (mkReceipt [] [] [] 0 0)]> st) in *.
  assert (L0 : ledger_ok st0) by (apply write_neutral; [done | done | by left]).
  assert (Hacc0 : forall p, p ∈ accounts ->
            exists c, st0 !! fst p = Some (ACollateral c) /\ co_exchange c = exchange).
  { intros p Hp. destruct (Hacc p Hp) as (c & Hc & ?). exists c. split; [| done]. unfold st0.
    rewrite lookup_insert_ne; [done |]. intros E. congruence. }
  destruct (apply_legs_net _ _ _ _ _ Hres Hlegs) as [N1 N2].
  assert (L1 : ledger_ok st1).
  { apply (evolves_ok st0 _ no_change L0). constructor.
    - intros k e' Hk. exists e'. unfold no_change. split_and!; [| done | done | lia].
      destruct (st0 !! k) as [[| c | | |] |] eqn:E;
        try (rewrite <- E, <- (N2 k) by (intros; by rewrite E); done).
      destruct (N1 _ _ E) as (Hk' & _). congruence.
    - intros k e' Hk. exists e'. rewrite N2; [done |]. intros c. by rewrite Hk.
    - intros k c' Hk. destruct (st0 !! k) as [[| c | | |] |] eqn:E;
        try (rewrite (N2 k), E in Hk by (intros; by rewrite E); done).
      destruct (N1 _ _ E) as (Hk' & Hu & _). rewrite Hk in Hk'. injection Hk' as ->.
      split; [apply Hu; by eapply (lo_balance _ L0) | by exists c].
    - intros x. unfold no_change. rewrite (apply_legs_owed _ _ _ _ _ _ x Hres Hlegs Hacc0). lia.
    - intros k e' t Hk Ht. exists t. unfold no_change.
      rewrite N2 by (intros c; by rewrite Ht). split_and!; [done | done | lia]. }
  eapply rewrite_account with (d := AExchange e).
  - apply write_neutral; [done | done |]. right. exists (mkReceipt [] [] [] 0 0).
    rewrite N2; unfold st0; by rewrite lookup_insert_eq.
  - assert (Hne : receipt <> exchange) by congruence. rewrite lookup_insert_ne by done.
    rewrite N2; unfold st0; rewrite lookup_insert_ne by done; [done |]. intros c. by rewrite He.
  - done.
Qed.

(** * Sequences of transactions *)

(** The program's instructions, and what other programs may do: create mints
    and token accounts, and transfer tokens on the order of a signer. *)
Inductive step st : gmap (list Z) AccountData -> Prop :=
| step_initialize authority exchange mint vault st' :
    initialize_exchange st authority exchange mint vault = Ok st' -> step st st'
| step_open owner exchange collateral st' :
    open_collateral st owner exchange collateral = Ok st' -> step st st'
| step_deposit owner exchange collateral mint owner_tokens vault amount st' :
    deposit_collateral st owner exchange collateral mint owner_tokens vault amount = Ok st' ->
    step st st'
| step_withdraw owner exchange collateral mint owner_tokens vault amount st' :
    withdraw_collateral st owner exchange collateral mint owner_tokens vault amount = Ok st' ->
    step st st'
| step_freeze authority exchange collateral frozen st' :
    freeze_account st authority exchange collateral frozen = Ok st' -> step st st'
| step_settle slot authority exchange receipt accounts settlement_id manifest legs st' :
    settle_batch st slot authority exchange receipt accounts settlement_id manifest legs = Ok st' ->
    step st st'
| step_mint k : st !! k = None -> step st (<[k := AMint]> st)
| step_token k t : st !! k = None -> step st (<[k := AToken t]> st)
| step_transfer from to authority amount st' :
    can_sign authority = true -> 0 <= amount ->
    token_transfer st from to authority amount = Some st' -> step st st'.

Lemma foreign_transfer_ok st from to authority amount st' :
  ledger_ok st -> can_sign authority = true -> 0 <= amount ->
  token_transfer st from to authority amount = Some st' -> ledger_ok st'.
Proof.
  intros L Hs Ha Ht. destruct (transfer_moved _ _ _ _ _ _ Ht) as [M (tf & Hf & Hauth)].
  apply (evolves_ok st _ no_change L). constructor.
  - intros k e' Hk%(moved_exchange _ _ _ _ _ _ _ M). exists e'. unfold no_change.
    split_and!; [done.. | lia].
  - intros k e Hk. exists e. by apply (moved_exchange _ _ _ _ _ _ _ M).
  - intros k c' Hk%(moved_collateral _ _ _ _ _ _ _ M).
    split; [by eapply lo_balance | by exists c'].
  - intros x. unfold no_change. rewrite (mv_owed _ _ _ _ _ M). lia.
  - intros k e t Hk Hv. destruct (mv_token _ _ _ _ _ M _ _ Hv) as (t' & Ht' & Hat & Hamt).
    exists t'. split_and!; [done | done |]. unfold no_change. rewrite Hamt.
    rewrite (key_eqb_ne _ from); [case_match; lia |]. intros E. rewrite <- E in Hf.
    pose proof (vault_not_signed _ _ _ _ L Hk Hv). congruence.
Qed.

Lemma step_ok st st' : ledger_ok st -> step st st' -> ledger_ok st'.
Proof.
  intros L H. destruct H.
  - by eapply initialize_ok.
  - by eapply open_collateral_ok.
  - by eapply deposit_ok.
  - by eapply withdraw_ok.
  - by eapply freeze_ok.
  - by eapply settle_ok.
  - apply write_neutral; [done | done | by left].
  - apply write_neutral; [done | done | by left].
  - by eapply foreign_transfer_ok.
Qed.

Lemma empty_ok : ledger_ok ∅.
Proof. constructor; intros k x Hk; by rewrite lookup_empty in Hk. Qed.

Lemma steps_ok st st' : ledger_ok st -> rtc step st st' -> ledger_ok st'.
Proof. intros L H. induction H as [| st st1 st2 H1 _ IH]; [done |]. by apply IH, (step_ok st). Qed.

(** A receipt is never changed or removed. *)
Lemma receipt_step st st' k r :
  step st st' -> st !! k = Some (AReceipt r) -> st' !! k = Some (AReceipt r).
Proof.
  intros H Hk. destruct H as [? ? ? ? ? H | ? ? ? ? H | ? ? ? ? ? ? ? ? H | ? ? ? ? ? ? ? ? H
    | ? ? ? ? ? H | ? ? ? ? ? ? ? ? ? H | k' H | k' t H | ? ? ? ? ? ? ? H].
  - unfold initialize_exchange in H. tx.
    rename select (_ !! vault = None) into Hv. apply lookup_insert_None in Hv as [Hv _].
    rewrite !lookup_insert_ne; [done | congruence..].
  - unfold open_collateral in H. tx. rewrite lookup_insert_ne; [done | congruence].
  - unfold deposit_collateral in H. apply bind_ok in H as ([e c] & T & H).
    apply check_transfer_ok in T as [_ Te _ Tc _ _ _]. tx.
    rename select (token_transfer _ _ _ _ _ = _) into Hm. apply transfer_moved in Hm as [M _].
    rewrite !lookup_insert_ne by congruence. rewrite (mv_other _ _ _ _ _ M); [done |].
    intros t. by rewrite Hk.
  - unfold withdraw_collateral in H. apply bind_ok in H as ([e c] & T & H).
    apply check_transfer_ok in T as [_ Te _ Tc _ _ _]. tx.
    rename select (token_transfer _ _ _ _ _ = _) into Hm. apply transfer_moved in Hm as [M _].
    rewrite !lookup_insert_ne by congruence. rewrite (mv_other _ _ _ _ _ M); [done |].
    intros t. by rewrite Hk.
  - unfold freeze_account in H. tx. rewrite lookup_insert_ne; [done | congruence].
  - apply settle_batch_ok in H as (e & rs & st1 & [He _ Hr _ _ _ Hres _ Hlegs _ ->]).
    destruct (apply_legs_net _ _ _ _ _ Hres Hlegs) as [_ N2].
    rewrite !lookup_insert_ne by congruence.
    rewrite N2; rewrite lookup_insert_ne by congruence; [done |]. intros c. by rewrite Hk.
  - rewrite lookup_insert_ne; [done | congruence].
  - rewrite lookup_insert_ne; [done | congruence].
  - apply transfer_moved in H as [M _]. rewrite (mv_other _ _ _ _ _ M); [done |].
    intros t. by rewrite Hk.
Qed.

Lemma receipt_steps st st' k r :
  rtc step st st' -> st !! k = Some (AReceipt r) -> st' !! k = Some (AReceipt r).
Proof. intros H. induction H; [done |]. intros Hk. by eapply IHrtc, receipt_step. Qed.

End Props.

Section Theorems.
Context `{C : Chain} `{!ChainLaws C}.
Implicit Types (st : gmap (list Z) AccountData).

(** C23: A settled batch does exactly what its manifest says.  When
    [settle_batch] succeeds, the manifest is the hash of the legs resolved to
    addresses, every collateral account has moved by its net of those legs and
    by nothing else (whatever the order of the legs and however often an
    account occurs in them), its balance is still a [u64], no frozen account
    took part, the sum of the balances of every exchange is unchanged, the
    receipt, which did not exist, records the batch, the exchange, whose
    authority submitted it, has counted one more settlement (still a [u64]) and
    is otherwise as it was, and no other account has changed. *)
Theorem settle_batch_effect st slot authority exchange receipt accounts settlement_id manifest
    legs st' :
  settle_batch st slot authority exchange receipt accounts settlement_id manifest legs = Ok st' ->
  exists rs, resolve accounts legs = Ok rs
    /\ manifest = manifest_hash settlement_id exchange rs
    /\ (exists e, st !! exchange = Some (AExchange e) /\ ex_authority e = authority
          /\ in_u64 (ex_settlements e + 1)
          /\ st' !! exchange = Some (AExchange (mkExchange (ex_authority e) (ex_mint e)
               (ex_vault e) (ex_bump e) (ex_vault_bump e) (ex_total_collateral e)
               (ex_settlements e + 1))))
    /\ st !! receipt = None
    /\ st' !! receipt = Some (AReceipt (mkReceipt exchange settlement_id manifest
                                          (Z.of_nat (length legs)) slot))
    /\ (forall k c, st !! k = Some (ACollateral c) ->
          st' !! k = Some (ACollateral (set_balance c (co_balance c + net rs k)))
          /\ (in_u64 (co_balance c) -> in_u64 (co_balance c + net rs k))
          /\ (touched rs k -> co_frozen c = false))
    /\ (forall x, owed st' x = owed st x)
    /\ (forall k, k <> exchange -> k <> receipt ->
          (forall c, st !! k <> Some (ACollateral c)) -> st' !! k = st !! k).
Proof.
  intros (e & rs & st1 & [He Hau Hr _ _ Hacc Hres Hm Hlegs Hn ->])%settle_batch_ok.
  assert (Hne : receipt <> exchange) by congruence.
  destruct (apply_legs_net _ _ _ _ _ Hres Hlegs) as [N1 N2]. exists rs. split_and!; try done.
  - exists e. by rewrite lookup_insert_eq.
  - by rewrite lookup_insert_ne, lookup_insert_eq by done.
  - intros k c Hk. rewrite !lookup_insert_ne by congruence. apply N1.
    by rewrite lookup_insert_ne by congruence.
  - intros x. rewrite (owed_update _ exchange (AExchange e)).
    2:{ rewrite lookup_insert_ne, N2 by done || (intros c; rewrite lookup_insert_ne by done; by rewrite He).
        by rewrite lookup_insert_ne. }
    rewrite (owed_update _ receipt (AReceipt (mkReceipt [] [] [] 0 0))).
    2:{ rewrite N2; by rewrite lookup_insert_eq. }
    rewrite (apply_legs_owed _ _ _ _ _ exchange x Hres Hlegs), owed_fresh by
      (done || (intros p Hp; destruct (Hacc p Hp) as (c & Hc & ?); exists c;
                rewrite lookup_insert_ne by congruence; done)).
    simpl. lia.
  - intros k Hk1 Hk2 Hc. rewrite !lookup_insert_ne by done.
    rewrite N2; rewrite lookup_insert_ne by done; done.
Qed.

(** C24: A batch settles at most once.  After a settlement succeeded, in every
    ledger reached by any later transactions (of this program or others), a
    settlement with the same exchange and settlement id fails, whoever submits
    it and whatever its accounts, manifest and legs. *)
Theorem settles_once st slot authority exchange receipt accounts settlement_id manifest legs st1 st2
    slot2 authority2 receipt2 accounts2 manifest2 legs2 :
  settle_batch st slot authority exchange receipt accounts settlement_id manifest legs = Ok st1 ->
  rtc step st1 st2 ->
  exists error,
    settle_batch st2 slot2 authority2 exchange receipt2 accounts2 settlement_id manifest2 legs2
    = Err error.
Proof.
  intros (e & rs & sm & [He _ Hr <- _ _ _ _ _ _ ->])%settle_batch_ok Hsteps.
  set (k := fst (find_program_address (receipt_seeds exchange settlement_id))) in *.
  eapply (receipt_steps _ _ k) in Hsteps.
  2:{ rewrite lookup_insert_ne by congruence. apply lookup_insert_eq. }
  destruct (settle_batch st2 slot2 authority2 exchange receipt2 accounts2 settlement_id manifest2 legs2)
    as [st3 |] eqn:E; [| by eexists].
  apply settle_batch_ok in E as (e2 & rs2 & sm2 & [_ _ Hr2 <- _ _ _ _ _ _ _]).
  fold k in Hr2. congruence.
Qed.

(** C25: Solvency.  In every ledger reached from the empty one by any
    transactions of this program and by mint, token-account and
    signed-transfer transactions of others, the total an exchange records is
    the sum of the balances of its collateral accounts, each balance is a
    [u64], and its vault, which no signer controls, holds at least that total:
    every owner can be paid out at once. *)
Theorem ledger_solvent st exchange e :
  rtc step ∅ st -> st !! exchange = Some (AExchange e) ->
  ex_total_collateral e = owed st exchange
  /\ (forall k c, st !! k = Some (ACollateral c) -> in_u64 (co_balance c))
  /\ exists t, st !! ex_vault e = Some (AToken t) /\ can_sign (tk_authority t) = false
       /\ owed st exchange <= tk_amount t.
Proof.
  intros Hs He. pose proof (steps_ok _ _ empty_ok Hs) as L.
  pose proof (lo_total _ L _ _ He) as Ht. destruct (lo_vault _ L _ _ He) as (t & Hv & Ha & Hle).
  split_and!; [done | apply (lo_balance _ L) |]. exists t. rewrite <- Ht. split_and!; [done | | done].
  by eapply vault_not_signed.
Qed.

End Theorems.

(** * Witnesses

    A ledger whose program addresses are marked with a leading 255, with a
    token program that does what the laws say. *)

Definition plain_transfer (st : gmap (list Z) AccountData) (from to auth : list Z) (amount : Z)
  : option (gmap (list Z) AccountData) :=
  match st !! from, st !! to with
  | Some (AToken tf), Some (AToken tg) =>
      if bool_decide (tk_authority tf = auth) && bool_decide (tk_mint tf = tk_mint tg)
         && (amount <=? tk_amount tf)
      then if bool_decide (from = to) then Some st
           else Some (<[to := AToken (mkTokenAccount (tk_mint tg) (tk_authority tg)
                                        (tk_amount tg + amount))]>
                        (<[from := AToken (mkTokenAccount (tk_mint tf) (tk_authority tf)
                                             (tk_amount tf - amount))]> st))
      else None
  | _, _ => None
  end.

#[export] Instance plain_chain : Chain := {|
  sha256 bs := bs;
  program_address bs := Some (255 :: bs);
  find_program_address seeds := (255 :: seeds ++ [7], 7);
  token_transfer := plain_transfer;
  can_sign k := match k with b :: _ => negb (b =? 255) | [] => false end
|}.

#[export] Instance plain_chain_laws : ChainLaws plain_chain.
Proof.
  constructor; simpl.
  - by intros seeds k bump [= <- <-].
  - by intros x y k [= <-] [= ->].
  - by intros x k [= <-].
  - intros st from to auth amount st'. unfold plain_transfer.
    destruct (st !! from) as [[| | | tf |] |]; try done.
    destruct (st !! to) as [[| | | tg |] |]; try done.
    destruct (bool_decide_reflect (tk_authority tf = auth)); [| done].
    destruct (bool_decide_reflect (tk_mint tf = tk_mint tg)); [| done].
    destruct (Z.leb_spec amount (tk_amount tf)); [| done]. simpl.
    destruct (bool_decide_reflect (from = to)); intros [= <-]; exists tf, tg; by split_and!.
Qed.

(** Addresses: the mint, the authority, two owners and their token accounts. *)
Definition k_mint : list Z := [1].
Definition k_authority : list Z := [2].
Definition k_owner (i : Z) : list Z := [3; i].
Definition k_tokens (i : Z) : list Z := [4; i].
Definition k_exchange : list Z := fst (find_program_address (exchange_seeds k_authority k_mint)).
Definition k_vault : list Z := fst (find_program_address (vault_seeds k_exchange)).
Definition k_collateral (i : Z) : list Z :=
  fst (find_program_address (collateral_seeds k_exchange (k_owner i))).
Definition k_receipt : list Z := fst (find_program_address (receipt_seeds k_exchange [9])).

Definition ok_or_empty (m : Tx (gmap (list Z) AccountData)) : gmap (list Z) AccountData :=
  match m with
  | Ok st => st
  | Err _ => ∅
  end.

Definition is_ok {A} (m : Tx A) : bool :=
  match m with
  | Ok _ => true
  | Err _ => false
  end.

Lemma is_ok_eq m : is_ok m = true -> m = Ok (ok_or_empty m).
Proof. by destruct m. Qed.

Definition w0 : gmap (list Z) AccountData :=
  <[k_tokens 2 := AToken (mkTokenAccount k_mint (k_owner 2) 50)]>
    (<[k_tokens 1 := AToken (mkTokenAccount k_mint (k_owner 1) 100)]> (<[k_mint := AMint]> ∅)).
Definition w1 := ok_or_empty (initialize_exchange w0 k_authority k_exchange k_mint k_vault).
Definition w2 := ok_or_empty (open_collateral w1 (k_owner 1) k_exchange (k_collateral 1)).
Definition w3 := ok_or_empty (open_collateral w2 (k_owner 2) k_exchange (k_collateral 2)).
Definition w4 :=
  ok_or_empty (deposit_collateral w3 (k_owner 1) k_exchange (k_collateral 1) k_mint (k_tokens 1)
                 k_vault 60).
Definition w_accounts : list (list Z * bool) := [(k_collateral 1, true); (k_collateral 2, true)].
Definition w_legs : list Leg := [mkLeg 0 1 40; mkLeg 1 0 15].
Definition w_manifest : list Z :=
  manifest_hash [9] k_exchange
    [(k_collateral 1, k_collateral 2, 40); (k_collateral 2, k_collateral 1, 15)].
Definition w5 :=
  ok_or_empty (settle_batch w4 11 k_authority k_exchange k_receipt w_accounts [9] w_manifest w_legs).

Lemma w5_settled :
  settle_batch w4 11 k_authority k_exchange k_receipt w_accounts [9] w_manifest w_legs = Ok w5.
Proof. apply is_ok_eq. vm_compute. reflexivity. Qed.

Lemma w5_reached : rtc step ∅ w5.
Proof.
  eapply rtc_l; [by apply (step_mint _ k_mint) |].
  eapply rtc_l; [apply (step_token _ (k_tokens 1) (mkTokenAccount k_mint (k_owner 1) 100));
                 vm_compute; reflexivity |].
  eapply rtc_l; [apply (step_token _ (k_tokens 2) (mkTokenAccount k_mint (k_owner 2) 50));
                 vm_compute; reflexivity |].
  apply (rtc_l _ _ w1).
  { apply (step_initialize _ k_authority k_exchange k_mint k_vault), is_ok_eq.
    vm_compute. reflexivity. }
  apply (rtc_l _ _ w2).
  { apply (step_open _ (k_owner 1) k_exchange (k_collateral 1)), is_ok_eq. vm_compute. reflexivity. }
  apply (rtc_l _ _ w3).
  { apply (step_open _ (k_owner 2) k_exchange (k_collateral 2)), is_ok_eq. vm_compute. reflexivity. }
  apply (rtc_l _ _ w4).
  { apply (step_deposit _ (k_owner 1) k_exchange (k_collateral 1) k_mint (k_tokens 1) k_vault 60).
    apply is_ok_eq. vm_compute. reflexivity. }
  apply rtc_once. eapply step_settle, w5_settled.
Qed.

Lemma settle_batch_effect_witness :
  exists rs, resolve w_accounts w_legs = Ok rs
    /\ w_manifest = manifest_hash [9] k_exchange rs
    /\ (exists e, w4 !! k_exchange = Some (AExchange e) /\ ex_authority e = k_authority
          /\ in_u64 (ex_settlements e + 1)
          /\ w5 !! k_exchange = Some (AExchange (mkExchange (ex_authority e) (ex_mint e)
               (ex_vault e) (ex_bump e) (ex_vault_bump e) (ex_total_collateral e)
               (ex_settlements e + 1))))
    /\ w4 !! k_receipt = None
    /\ w5 !! k_receipt = Some (AReceipt (mkReceipt k_exchange [9] w_manifest 2 11))
    /\ (forall k c, w4 !! k = Some (ACollateral c) ->
          w5 !! k = Some (ACollateral (set_balance c (co_balance c + net rs k)))
          /\ (in_u64 (co_balance c) -> in_u64 (co_balance c + net rs k))
          /\ (touched rs k -> co_frozen c = false))
    /\ (forall x, owed w5 x = owed w4 x)
    /\ (forall k, k <> k_exchange -> k <> k_receipt ->
          (forall c, w4 !! k <> Some (ACollateral c)) -> w5 !! k = w4 !! k).
Proof.
  exact (settle_batch_effect w4 11 k_authority k_exchange k_receipt w_accounts [9] w_manifest w_legs
           w5 w5_settled).
Defined.

Lemma settles_once_witness :
  exists error,
    settle_batch w5 12 k_authority k_exchange k_receipt w_accounts [9] w_manifest w_legs = Err error.
Proof.
  exact (settles_once w4 11 k_authority k_exchange k_receipt w_accounts [9] w_manifest w_legs w5 w5
           12 k_authority k_receipt w_accounts w_manifest w_legs w5_settled (rtc_refl _ _)).
Defined.

Definition w5_exchange : Exchange :=
  mkExchange k_authority k_mint k_vault 7 7 60 1.

Lemma w5_exchange_at : w5 !! k_exchange = Some (AExchange w5_exchange).
Proof. vm_compute. reflexivity. Qed.

Lemma ledger_solvent_witness :
  ex_total_collateral w5_exchange = owed w5 k_exchange
  /\ (forall k c, w5 !! k = Some (ACollateral c) -> in_u64 (co_balance c))
  /\ exists t, w5 !! ex_vault w5_exchange = Some (AToken t) /\ can_sign (tk_authority t) = false
       /\ owed w5 k_exchange <= tk_amount t.
Proof. exact (ledger_solvent w5 k_exchange w5_exchange w5_reached w5_exchange_at). Defined.
